(* ===== verification/_CoqProject ===== *)
-Q . S2P
Prelude.v
Kernel.v
VaBlock.v
Permissions.v
Migration.v
MigrationFrame.v
MigrationCopy.v
MigrationSpec.v
MigrationData.v
MigrationResident.v
Tracking.v
Accessors.v
Service.v
ConfComputing.v
Gpfifo.v
Channels.v
FaultBuffer.v
FaultBatch.v
FaultService.v
FaultReport.v
MigrationService.v
FaultSpace.v
RangeSplit.v
RangeSplitSpec.v
RangeSpec.v
FaultLoop.v
FaultLoopSpec.v
CpuFault.v
FaultCancel.v
FaultCancelSpec.v
FaultHandler.v
FaultHandlerSpec.v
Runs.v
Pass1.v
Jobs.v
Slots.v
Threads.v
Transfer.v
Layout.v
Meta.v
ReadIoctls.v
ReadSpec.v
MtIoctls.v
Bench.v
DecryptIoctl.v
RoundTrip.v
Witnesses.v
CcWitnesses.v
ReadWitnesses.v
ChannelWitnesses.v
FaultWitnesses.v
HandlerWitnesses.v
RangeWitnesses.v
MigrationWitnesses.v
