(* ===== verification/Prelude.v ===== *)
(** * FLASH checkpoint/restore in the UVM driver: a verification library

    FLASH checkpoints the memory of a confidential GPU through NVIDIA's UVM
    kernel module.  It adds ioctls to the driver (uvm_live_migration.c) and dirty
    tracking to its page-fault path (uvm_va_block.c).  This library models those
    ioctls and the driver code under them, and proves what a checkpoint relies
    on: that tracked memory reports its writes, that a read delivers the pages of
    the range it was asked for, and that the decryption service gives the same
    bytes back.  Source names are relative to
    src/modified_driver_code/kernel-open/nvidia-uvm/.

    ** The program and its parts

    A VA space holds ranges, a managed range holds VA blocks of at most 2MB, and
    a block keeps residency and mapping masks per processor.  PREPARE_ALL walks
    all VA spaces and revokes write access of resident pages; a later write
    faults, the fault service marks the block dirty and gives its pages write
    access again; GET_DIRTY_PAGES lists dirty blocks; FINALIZE ends tracking.
    The read ioctls (109, 111, 113 to 116, and the benchmark 117) find the pages
    of an interval in pass 1 and move those on the GPU out in pass 2: the copy
    engine encrypts a run of pages into a staging buffer of shared memory, and
    the bytes go to the caller as ciphertext with IV, tag and key version, or
    decrypted.  Ioctl 112 decrypts such ciphertext.  Staging buffers come from a
    pool; IVs and keys are rotated before they run out.

    ** Conventions

    - A handler is a function in the state monad K over kst (Kernel): locks held,
      allocations, user memory, the staging buffers and their pool, counters. VA
      spaces and blocks are passed and returned. wp is its postcondition; LockSpec
      and LiveSpec are the lock and allocation disciplines, by class resolution
      over the monad's constructs.
    - What the driver observes from outside (allocation, copy_to_user, a push, any
      external call) is decided by the class Env, one numbered decision per call,
      so that definitions stay executable and a theorem over all Env is a theorem
      over all outcomes. HealthyEnv is an Env where nothing fails.
    - The cryptographic library, the copy engine and video memory of a GPU are the
      class CcGpu: encryption and decryption functions with the law that a
      ciphertext decrypts under its IV, tag and key version to its plaintext, and
      the messages left on an IV. Each GPU has its own instance, so another GPU's
      ciphertext need not decrypt. The calls the driver makes to a CSL context
      (increments and rotations) are recorded in the state.
    - Threads run along a schedule, a list of thread numbers, over which the
      theorems quantify. One step of a thread is the code between two points where
      it waits, allocates or submits.
    - The fault ring, the kernel's sort and the fault codes are the record
      fault_hw and the classes KernelSort and FaultCodes.
    - Machine integers are Z; u32 and u64 wrap where the code can wrap.

    ** Files

    - Prelude: this header, machine integers, byte strings and memories, shared
      list and set lemmas, tactics.
    - Kernel: status codes, locks, Env, the monad, and its program logic.
    - VaBlock (uvm_va_block.h, uvm_va_range.c): blocks, ranges, spaces; the block
      index arithmetic and block iteration.
    - Permissions (uvm_va_block.c): uvm_va_block_map, uvm_va_block_revoke_prot,
      block_unmap_cpu and their drivers over processor masks.
    - Migration (uvm_va_block.c): uvm_va_block_make_resident and its read
      duplicating variant: unmapping, staging through the CPU, copies, residency.
      Chunk allocation is the class ChunkAllocator with its laws. MigrationFrame:
      what the steps keep; MigrationCopy, MigrationSpec: one copy, and the copies
      from every source; MigrationData: the data they move; MigrationResident: the
      residency afterwards. MigrationService: uvm_va_block_service_copy with the
      update after it (service_move), the copy the fault handlers take as a
      parameter, shown to keep what they ask of it (service_move_correct).
    - Tracking (uvm_live_migration.c): PREPARE_ALL, the write-fault hook,
      GET_DIRTY_PAGES, GET_VA_RANGES, FINALIZE; block creation.
    - Accessors (uvm_va_block.c): uvm_va_block_add_mappings_after_migration, which
      maps the accessed-by, thrashing and UVM-Lite processors.
    - Service (uvm_va_block.c): the four steps of uvm_va_block_service_finish,
      with the bulk restore of write access and the record of write faults.
    - ConfComputing (uvm_conf_computing.c, uvm_channel.c): staging buffer pool, IV
      and key accounting, admission of pushes, the two encrypted copies.
    - Gpfifo (uvm_channel.c): the GPFIFO ring of a channel: claiming entries,
      pushing, control entries, completion, release. Channels: the pool of
      channels under confidential computing as a step machine of clients that
      reserve, push and release, with key rotation.
    - FaultBuffer (uvm_gpu_replayable_faults.c): fetching faults from the ring
      shared with the GPU and coalescing them, and flushing the ring. FaultBatch:
      translation to VA spaces and the two sorts. FaultService: the scan of the
      faults of one block, the choice of the new residency (uvm_va_block.c), and
      uvm_va_block_service_locked. FaultReport: these composed with Service, up to
      the dirty flag.
    - FaultSpace: how the handler finds and creates blocks in a space, and what it
      keeps of a space. FaultLoop, FaultLoopSpec: servicing a batch, VA space by
      VA space and block by block. FaultCancel, FaultCancelSpec: precise cancels,
      cancelling a batch, the second servicing of a space with fatal faults.
      FaultHandler, FaultHandlerSpec: uvm_gpu_service_replayable_faults itself:
      fetch, preprocess, service, replay. CpuFault: uvm_va_block_cpu_fault.
    - RangeSplit (uvm_va_range.c, uvm_va_block_split, the calls of uvm.c on a
      split or closed mapping): creating, splitting and destroying managed ranges.
      The range tree is the class RangeTree with its laws. RangeSplitSpec proves
      what a block split does, RangeSpec what happens to a space.
    - Runs: lm_mt_build_runs. Pass1: lm_mt_pass1.
    - Jobs, Slots, Threads, Transfer: pass 2. A job is a run to transfer and what
      its delivery means; Slots has the rules of a pair of staging buffers used
      alternately; Threads the pool of kernel threads over a thread function
      (lm_mt_run_workers and lm_bench_run_workers), verified against the interface
      ThreadSpec; Transfer the ping-pong loop and lm_mt_worker_fn.
    - Layout: what all jobs of a page array amount to in the caller's buffers.
    - Meta: the packed metadata array, written and read back.
    - ReadIoctls, ReadSpec: ioctls 109, 111, 113 and their correctness. MtIoctls:
      114, 115, 116. Bench: 117. DecryptIoctl: 112. RoundTrip: a read and its
      decryption.
    - Witnesses, CcWitnesses, ReadWitnesses, ChannelWitnesses, FaultWitnesses,
      HandlerWitnesses, RangeWitnesses, MigrationWitnesses: concrete instances,
      among them a healthy environment, a toy CcGpu and a range tree kept as a
      sorted list.

    ** Theorems

    - Tracking: while a block is tracked and clean its writable GPU PTEs are those
      the code leaves on purpose or by oversight, over every sequence of
      PREPARE_ALL, FINALIZE, faults and revocations (tracking_sound): remote
      writers PREPARE_ALL skips, and what step 4 of a fault maps; PREPARE_ALL,
      FINALIZE and the two queries in every environment; mapping and revoking
      masks; the bulk restore. A well-formed block stays so under every operation
      (permissions_well_typed).
    - Confidential computing: the pool's invariant over reachable states, a
      successful push leaves messages enough, staging copies within the capacity
      of a buffer.
    - Channels: along every interleaving of clients the pool's semaphore, locks
      and GPFIFO rings agree and no assertion fails while launches of control
      entries succeed, key rotation finds the pool idle, completion is in order,
      and a spinning client gets a channel.
    - Faults: a fetch and a flush consume the ring entry by entry; each fetched
      fault keeps a representative through coalescing, translation and sorting;
      servicing a batch leaves every write fault of the batch in a dirty block,
      throttled, or refused (batch_writes_reported), and with status OK settles
      every fault (service_fault_batch_correct); cancelling sends the cancels of
      the faults in order; the handler, when it does not go on over flushed
      batches, ends with its locks released in every environment, and every space
      stays guarded. A CPU fault maps with it only processors the policy or
      thrashing names.
    - Migration: pages arrive with their contents, are resident at the destination
      alone, and on an error stay where they were
      (uvm_va_block_make_resident_correct).
    - Ranges: a split keeps the space well-formed and what every processor sees at
      every address, a failed split changes nothing, and the new block of a split
      is not tracked, so that its writes are not reported until the next
      PREPARE_ALL (split_drops_tracking). A mapping is only torn down on a split
      where something failed.
    - Reads: runs tile the page list and are maximal; pass 1 reports every page;
      workers under any schedule refine one abstract transfer (transferred), and
      every fair schedule ends them; each ioctl delivers residency map, CPU pages,
      GPU pages or ciphertext and metadata, and leaves everything else.
    - Restore: ioctl 112 is safe for arbitrary input with a count whose product
      with the entry size fits 64 bits (and reads out of bounds past it), correct
      for genuine input, and inverts a checkpoint of the same GPU
      (checkpoint_roundtrip).

    ** Bounds and fuel

    - LOCK_RETRY loops and rotations that retry when busy are followed for
      env_retries attempts; theorems hold for every number, and retry_loop_stable
      says that more attempts do not change a result other than the retry request.
    - The ping-pong loop runs for pp_measure steps, a worker for w_measure or
      bw_measure, which every step decreases (Progress): they end.
    - serial_loop and build_runs_loop take one unit per page, copy_chunks one per
      page of the input (copy_fuel_enough), blocks_from one per block slot;
      fetch_loop and flush_loop one per entry of the fault ring.
    - service_loop has one unit per fault and env_retries more, cancel_loop two
      per fault of the space: a pass either gets past a fault, or asks for a
      retry. service_batches has the limit of batches and a number of flushed
      batches: the code does not bound the latter, and the model is undefined
      (None) exactly when more are flushed (flushes_batches).

    ** Not modelled

    - Hardware: page table writes, TLB invalidates, the copy engine's methods,
      SEC2 and WLC submission. The driver's record of mappings is modelled.
    - Upstream code the checkpoint does not run: the rest of uvm_va_block.c
      (eviction, chunks, page tables), the policies of ranges, external and
      semaphore ranges, channel setup, WLC and LCIC pools; of fault handling the
      setup of the buffer and ATS.
    - HMM blocks; log messages, profiling and timers.
    - Module entry points and the ioctl switch (uvm.c), and the user-space tools
      under src/benchmarks/.
 *)
From Stdlib Require Export ZArith Lia.
From stdpp Require Export base tactics numbers gmap list sorting.
#[export] Set Default Goal Selector "!".
Open Scope Z_scope.

(** ** Machine integers *)

Definition u64 (z : Z) : Z := z mod 2 ^ 64.
Definition u32 (z : Z) : Z := z mod 2 ^ 32.

Create Rewrite HintDb flash.
Create HintDb flash_perm.

Lemma u64_small z : 0 <= z < 2 ^ 64 -> u64 z = z.
Proof. intros; by apply Z.mod_small. Qed.

Lemma u64_range z : 0 <= u64 z < 2 ^ 64.
Proof. by apply Z.mod_pos_bound. Qed.

Lemma u32_small z : 0 <= z < 2 ^ 32 -> u32 z = z.
Proof. intros; by apply Z.mod_small. Qed.

Lemma u32_range z : 0 <= u32 z < 2 ^ 32.
Proof. by apply Z.mod_pos_bound. Qed.

#[export] Hint Rewrite u64_small u32_small using lia : flash.

(** ** Tactics *)

(** Case analysis on the scrutinee of a [match] or [if] of the goal. *)
Ltac cases :=
  repeat match goal with
  | |- context [match ?x with _ => _ end] => destruct x eqn:?
  end.

(** Turns boolean tests into propositions and closes by [lia]. *)
Ltac btest :=
  repeat match goal with
  | H : Z.ltb _ _ = true |- _ => apply Z.ltb_lt in H
  | H : Z.ltb _ _ = false |- _ => apply Z.ltb_ge in H
  | H : Z.leb _ _ = true |- _ => apply Z.leb_le in H
  | H : Z.leb _ _ = false |- _ => apply Z.leb_gt in H
  | H : Z.eqb _ _ = true |- _ => apply Z.eqb_eq in H
  | H : Z.eqb _ _ = false |- _ => apply Z.eqb_neq in H
  | H : andb _ _ = true |- _ => apply andb_prop in H as [? ?]
  | H : orb _ _ = false |- _ => apply orb_false_elim in H as [? ?]
  | H : negb _ = true |- _ => apply negb_true_iff in H
  | H : negb _ = false |- _ => apply negb_false_iff in H
  end; try lia.

(** ** Byte-addressed memory *)

(** Memory is a finite map from addresses to byte values. *)
Abbreviation mem := (gmap Z Z).

Fixpoint mem_write (a : Z) (bs : list Z) (m : mem) : mem :=
  match bs with
  | [] => m
  | b :: bs' => mem_write (a + 1) bs' (<[a := b]> m)
  end.

Definition mem_read (m : mem) (a : Z) (n : nat) : list (option Z) :=
  (fun i => m !! (a + Z.of_nat i)) <$> seq 0 n.

(** [mem_holds m a bs]: the bytes [bs] are stored from address [a] on. *)
Definition mem_holds (m : mem) (a : Z) (bs : list Z) : Prop :=
  mem_read m a (length bs) = Some <$> bs.

#[export] Instance mem_holds_dec m a bs : Decision (mem_holds m a bs).
Proof. unfold mem_holds; apply _. Defined.

Lemma mem_write_lookup_out bs a m x :
  x < a \/ a + Z.of_nat (length bs) <= x ->
  mem_write a bs m !! x = m !! x.
Proof.
  revert a m; induction bs as [|b bs IH]; intros a m Hx; [done|].
  cbn [mem_write length] in *. rewrite IH by lia.
  by rewrite lookup_insert_ne by lia.
Qed.

Lemma mem_write_lookup_in bs a m (i : nat) :
  (i < length bs)%nat ->
  mem_write a bs m !! (a + Z.of_nat i) = bs !! i.
Proof.
  revert a m i; induction bs as [|b bs IH]; intros a m i Hi; cbn in *; [lia|].
  destruct i as [|i]; cbn.
  - rewrite mem_write_lookup_out by lia.
    rewrite Z.add_0_r. by rewrite lookup_insert_eq.
  - replace (a + Z.of_nat (S i)) with ((a + 1) + Z.of_nat i) by lia.
    apply IH; lia.
Qed.

Lemma mem_holds_alt m a bs :
  mem_holds m a bs <-> forall i, (i < length bs)%nat -> m !! (a + Z.of_nat i) = bs !! i.
Proof.
  unfold mem_holds, mem_read. split; intros H.
  - intros i Hi.
    assert (Hl : ((fun i => m !! (a + Z.of_nat i)) <$> seq 0 (length bs)) !! i
                 = (Some <$> bs) !! i) by by rewrite H.
    rewrite !list_lookup_fmap, lookup_seq_lt in Hl by lia.
    cbn in Hl. destruct (bs !! i) eqn:E; cbn in Hl; [congruence|].
    apply lookup_ge_None in E; lia.
  - apply list_eq; intros i. rewrite !list_lookup_fmap.
    destruct (decide (i < length bs)%nat) as [Hi|Hi].
    + rewrite lookup_seq_lt by lia. cbn. rewrite H by lia.
      destruct (bs !! i) eqn:E; [done|]. apply lookup_ge_None in E; lia.
    + rewrite lookup_seq_ge by lia. cbn. by rewrite (lookup_ge_None_2 bs) by lia.
Qed.

Lemma mem_write_holds a bs m : mem_holds (mem_write a bs m) a bs.
Proof. apply mem_holds_alt; intros; by apply mem_write_lookup_in. Qed.

Lemma mem_write_app a bs cs m :
  mem_write a (bs ++ cs) m = mem_write (a + Z.of_nat (length bs)) cs (mem_write a bs m).
Proof.
  revert a m; induction bs as [|b bs IH]; intros a m; cbn [mem_write app length].
  - by rewrite Z.add_0_r.
  - rewrite IH. f_equal. lia.
Qed.

(** Two address intervals that do not meet. *)
Definition disjoint_iv (a n b k : Z) : Prop := a + n <= b \/ b + k <= a.

Lemma mem_holds_write_disjoint a bs b cs m :
  disjoint_iv a (Z.of_nat (length bs)) b (Z.of_nat (length cs)) ->
  mem_holds m a bs -> mem_holds (mem_write b cs m) a bs.
Proof.
  unfold disjoint_iv; intros Hd H. apply mem_holds_alt; intros i Hi.
  rewrite mem_write_lookup_out by lia. by apply mem_holds_alt.
Qed.

Lemma mem_holds_app m a bs cs :
  mem_holds m a (bs ++ cs) <->
  mem_holds m a bs /\ mem_holds m (a + Z.of_nat (length bs)) cs.
Proof.
  rewrite !mem_holds_alt. split.
  - intros H; split; intros i Hi.
    + rewrite H by (rewrite length_app; lia). by apply lookup_app_l.
    + replace (a + Z.of_nat (length bs) + Z.of_nat i)
        with (a + Z.of_nat (length bs + i)) by lia.
      rewrite H by (rewrite length_app; lia).
      rewrite lookup_app_r by lia. f_equal; lia.
  - intros [H1 H2] i Hi. rewrite length_app in Hi.
    destruct (decide (i < length bs)%nat).
    + rewrite H1 by lia. by rewrite lookup_app_l by lia.
    + rewrite lookup_app_r by lia. rewrite <- H2 by lia. f_equal; lia.
Qed.

Lemma mem_write_comm a bs b cs m :
  disjoint_iv a (Z.of_nat (length bs)) b (Z.of_nat (length cs)) ->
  mem_write a bs (mem_write b cs m) = mem_write b cs (mem_write a bs m).
Proof.
  unfold disjoint_iv; intros Hd. apply map_eq; intros x.
  destruct (decide (a <= x < a + Z.of_nat (length bs))) as [Hx|Hx].
  - replace x with (a + Z.of_nat (Z.to_nat (x - a))) by lia.
    rewrite mem_write_lookup_in by lia.
    rewrite mem_write_lookup_out by lia. by rewrite mem_write_lookup_in by lia.
  - rewrite mem_write_lookup_out by lia.
    destruct (decide (b <= x < b + Z.of_nat (length cs))) as [Hy|Hy].
    + replace x with (b + Z.of_nat (Z.to_nat (x - b))) by lia.
      by rewrite !mem_write_lookup_in by lia.
    + by rewrite !mem_write_lookup_out by lia.
Qed.

(** ** Little-endian integers *)

Fixpoint le_bytes (n : nat) (z : Z) : list Z :=
  match n with
  | O => []
  | S n' => z mod 256 :: le_bytes n' (z / 256)
  end.

Fixpoint le_value (bs : list Z) : Z :=
  match bs with
  | [] => 0
  | b :: bs' => b + 256 * le_value bs'
  end.

Lemma length_le_bytes n z : length (le_bytes n z) = n.
Proof. revert z; induction n; intros; cbn; auto. Qed.

Lemma le_value_bytes n z : 0 <= z < 2 ^ (8 * Z.of_nat n) -> le_value (le_bytes n z) = z.
Proof.
  revert z; induction n as [|n IH]; intros z Hz; cbn [le_bytes le_value].
  { change (2 ^ (8 * Z.of_nat 0)) with 1 in Hz. lia. }
  replace (8 * Z.of_nat (S n)) with (8 + 8 * Z.of_nat n) in Hz by lia.
  rewrite Z.pow_add_r in Hz by lia. change (2 ^ 8) with 256 in Hz.
  rewrite IH; pose proof (Z.div_mod z 256); pose proof (Z.mod_pos_bound z 256);
    [lia|]. split; [apply Z.div_pos; lia|]. apply Z.div_lt_upper_bound; lia.
Qed.

(** A C array of 64-bit integers in memory. *)
Definition le_u64s (zs : list Z) : list Z := mjoin (le_bytes 8 <$> zs).

Lemma length_le_u64s zs : length (le_u64s zs) = (8 * length zs)%nat.
Proof.
  induction zs as [|z zs IH]; [done|].
  change (le_u64s (z :: zs)) with (le_bytes 8 z ++ le_u64s zs).
  rewrite length_app, length_le_bytes, IH. cbn [length]. lia.
Qed.

Lemma le_u64s_snoc zs z : le_u64s (zs ++ [z]) = le_u64s zs ++ le_bytes 8 z.
Proof.
  unfold le_u64s. rewrite fmap_app, join_app. cbn -[le_bytes]. by rewrite app_nil_r.
Qed.

(** ** Lists *)

Lemma list_filter_id {A} (P : A -> Prop) `{!forall x, Decision (P x)} (l : list A) :
  (forall x, x ∈ l -> P x) -> filter P l = l.
Proof.
  induction l as [|x l IH]; intros HP; [done|].
  rewrite filter_cons_True by (apply HP; left).
  f_equal; apply IH; intros y Hy; apply HP; by right.
Qed.

Lemma list_filter_nil {A} (P : A -> Prop) `{!forall x, Decision (P x)} (l : list A) :
  (forall x, x ∈ l -> ~ P x) -> filter P l = [].
Proof.
  induction l as [|x l IH]; intros HP; [done|].
  rewrite filter_cons_False by (apply HP; left). apply IH; intros y Hy; apply HP; by right.
Qed.

Lemma insert_Permutation {A} (l : list A) i y : (i < length l)%nat -> <[i := y]> l ≡ₚ y :: delete i l.
Proof.
  revert i. induction l as [|x l IH]; intros [|i] Hi; cbn in *; [lia..|done|].
  rewrite IH by lia. apply perm_swap.
Qed.

(** The number of elements of a list that satisfy a boolean predicate. *)
Definition countb {A} (p : A -> bool) (l : list A) : Z := Z.of_nat (length (List.filter p l)).

Lemma countb_cons {A} (p : A -> bool) x l : countb p (x :: l) = (if p x then 1 else 0) + countb p l.
Proof. unfold countb. cbn. destruct (p x); cbn; lia. Qed.

Lemma countb_app {A} (p : A -> bool) l k : countb p (l ++ k) = countb p l + countb p k.
Proof. unfold countb. rewrite List.filter_app, length_app. lia. Qed.

Lemma countb_snoc {A} (p : A -> bool) l x : countb p (l ++ [x]) = countb p l + (if p x then 1 else 0).
Proof. rewrite countb_app, countb_cons. change (countb p []) with 0. lia. Qed.

#[export] Instance countb_perm {A} (p : A -> bool) : Proper (Permutation ==> eq) (countb p).
Proof. induction 1; rewrite ?countb_cons; lia. Qed.

Lemma countb_insert {A} (p : A -> bool) l i x y :
  l !! i = Some x -> countb p (<[i := y]> l) = countb p l + (if p y then 1 else 0) - (if p x then 1 else 0).
Proof.
  intros Hi. rewrite (insert_Permutation l i y) by by eapply lookup_lt_Some.
  rewrite (delete_Permutation l i x Hi) at 2. rewrite !countb_cons. lia.
Qed.

Lemma countb_bounds {A} (p : A -> bool) l : 0 <= countb p l <= Z.of_nat (length l).
Proof. induction l as [|x l IH]; [done|]. rewrite countb_cons. cbn [length]. destruct (p x); lia. Qed.

Lemma countb_pos {A} (p : A -> bool) l : 0 < countb p l <-> exists x, x ∈ l /\ p x = true.
Proof.
  induction l as [|x l IH].
  { split; [done|]. intros (x & Hx & _). by apply elem_of_nil in Hx. }
  rewrite countb_cons. pose proof (countb_bounds p l). destruct (p x) eqn:Hp; split; intros Hc.
  - exists x. split; [left|done].
  - lia.
  - destruct (proj1 IH ltac:(lia)) as (y & Hy & ?). exists y. split; [by right|done].
  - destruct Hc as (y & Hy & Hpy). apply elem_of_cons in Hy as [->|Hy]; [congruence|].
    pose proof (proj2 IH (ex_intro _ y (conj Hy Hpy))). lia.
Qed.

(** Lists with the same indices in range. *)
Lemma length_lookup {A B} (l : list A) (k : list B) :
  (forall i, is_Some (l !! i) <-> is_Some (k !! i)) -> length l = length k.
Proof.
  intros Hl. pose proof (Hl (length k)) as Hk. pose proof (Hl (length l)) as Hl'.
  rewrite !lookup_lt_is_Some in Hk, Hl'. lia.
Qed.

(** Linear arithmetic with division and remainder by constants. *)
Ltac zlia := Z.div_mod_to_equations; lia.

(** Filtering a sorted list. *)
Lemma sorted_filter {A} (R : A -> A -> Prop) (P : A -> Prop) `{!forall x, Decision (P x)} l :
  StronglySorted R l -> StronglySorted R (filter P l).
Proof.
  induction 1 as [|x l Hl IH Hx]; [constructor|]. rewrite filter_cons.
  destruct (decide (P x)); [|done]. constructor; [done|].
  rewrite Forall_forall in Hx |- *. intros y Hy. apply list_elem_of_filter in Hy as [_ Hy]. auto.
Qed.

(** The first element kept by [omap id] and what follows it. *)
Lemma omap_id_cons {A} (l : list (option A)) (x : A) (r : list A) :
  omap id l = x :: r ->
  exists i, l !! i = Some (Some x) /\ r = omap id (drop (S i) l).
Proof.
  induction l as [|[y|] l IH]; cbn; intros H; simplify_eq.
  - by exists 0%nat.
  - destruct (IH H) as (i & Hi & ->). by exists (S i).
Qed.

Lemma head_cons {A} (l : list A) x : head l = Some x -> exists r, l = x :: r.
Proof. destruct l; cbn; intros; simplify_eq; eauto. Qed.

Lemma head_None {A} (l : list A) : head l = None -> l = [].
Proof. by destruct l. Qed.
