(* ===== verification/Kernel.v ===== *)
(** Kernel execution context: NVIDIA status codes, the environment whose
    decisions the driver observes (allocation, user-copy and push outcomes),
    the kernel state the ioctl handlers thread, and the state monad they are
    written in, with its postcondition and lock-discipline rules. *)
From S2P Require Import Prelude.

(** ** Status codes ([NV_STATUS]); [NV_ERR_OTHER] stands for the codes that
    only external calls produce. *)
Inductive nv_status :=
| NV_OK
| NV_WARN_NOTHING_TO_DO
| NV_ERR_NO_MEMORY
| NV_ERR_INVALID_ARGUMENT
| NV_ERR_INVALID_ADDRESS
| NV_ERR_INVALID_DEVICE
| NV_ERR_INVALID_OPERATION
| NV_ERR_NOT_SUPPORTED
| NV_ERR_BUFFER_TOO_SMALL
| NV_ERR_INSUFFICIENT_PERMISSIONS
| NV_ERR_STATE_IN_USE
| NV_ERR_INSUFFICIENT_RESOURCES
| NV_ERR_MORE_PROCESSING_REQUIRED
| NV_ERR_RC_ERROR
| NV_ERR_ECC_ERROR
| NV_WARN_MORE_PROCESSING_REQUIRED
| NV_WARN_MISMATCHED_TARGET
| NV_ERR_OBJECT_NOT_FOUND
| NV_ERR_INVALID_CHANNEL
| NV_ERR_PAGE_TABLE_NOT_AVAIL
| NV_ERR_INVALID_ACCESS_TYPE
| NV_ERR_UVM_ADDRESS_IN_USE
| NV_ERR_OTHER (code : Z).

#[export] Instance nv_status_eq_dec : EqDecision nv_status.
Proof. solve_decision. Defined.

Definition is_ok (s : nv_status) : bool := bool_decide (s = NV_OK).

Lemma is_ok_true s : is_ok s = true <-> s = NV_OK.
Proof. unfold is_ok. apply bool_decide_eq_true. Qed.
Lemma is_ok_false s : is_ok s = false <-> s <> NV_OK.
Proof. unfold is_ok. apply bool_decide_eq_false. Qed.
Lemma is_ok_NV_OK : is_ok NV_OK = true.
Proof. done. Qed.
#[export] Hint Rewrite is_ok_NV_OK : flash.

(** The C idiom "keep the first error": [if (ws != NV_OK && status == NV_OK)
    status = ws]. *)
Definition first_err (status ws : nv_status) : nv_status :=
  if negb (is_ok ws) && is_ok status then ws else status.

(** ** Locks *)

Inductive lock :=
| LVaSpaces                     (* g_uvm_global.va_spaces.lock *)
| LGlobal                       (* g_uvm_global.global_lock *)
| LSpaceRead (id : Z)           (* va_space rwsem, shared mode *)
| LSpaceWrite (id : Z)          (* va_space rwsem, exclusive mode *)
| LBlock (start : Z)            (* va_block->lock *)
| LPool                         (* dma_buffer_pool->lock *)
| LKeyRotation                  (* pool->conf_computing.key_rotation.mutex *)
| LCtx (chan : Z).              (* channel->csl.ctx_lock *)

#[export] Instance lock_eq_dec : EqDecision lock.
Proof. solve_decision. Defined.

(** ** The environment.

    Every fallible call of the driver consumes one decision of the
    environment; decisions are numbered, so the model is deterministic once the
    environment is fixed and theorems quantify over all environments. *)
Class Env := {
  env_capable   : bool;               (* capable(CAP_SYS_ADMIN) *)
  env_cc        : bool;               (* g_uvm_global.conf_computing_enabled *)
  env_alloc_ok  : N -> bool;          (* does an allocation succeed? *)
  env_copy_ok   : N -> bool;          (* does a user copy complete? *)
  env_copy_part : N -> nat;           (* bytes copied before a fault *)
  env_status    : N -> nv_status;     (* status of another external call *)
  env_channel   : N -> Z;             (* channel a reservation picks *)
  env_channels  : list Z;             (* channels of the GPU_TO_CPU pool *)
  env_notifier  : N -> bool;          (* key rotation notifier reads PENDING *)
  env_tests     : bool;               (* uvm_enable_builtin_tests *)
  env_rm_rotation : bool;             (* gpuConfComputeCaps.bKeyRotationEnabled *)
  env_retries   : nat;                (* attempts [UVM_VA_BLOCK_LOCK_RETRY] is followed for *)
  (** the order in which [for_each_closest_id] visits a processor mask from a
      processor: each set bit once *)
  env_closest   : Z -> gset Z -> list Z;
  env_closest_elem : forall src m x, x ∈ env_closest src m <-> x ∈ m;
  env_closest_nodup : forall src m, NoDup (env_closest src m);
}.

(** An environment in which nothing fails. *)
Class HealthyEnv (E : Env) : Prop := {
  healthy_alloc  : forall n, env_alloc_ok n = true;
  healthy_copy   : forall n, env_copy_ok n = true;
  healthy_status : forall n, env_status n = NV_OK;
}.

(** An environment with CAP_SYS_ADMIN and confidential computing on in which
    allocation [n] fails exactly when [bad_alloc n], and nothing else does. *)
Definition env_with (cc : bool) (bad_alloc : N -> bool) : Env := {|
  env_capable := true;
  env_cc := cc;
  env_alloc_ok n := negb (bad_alloc n);
  env_copy_ok _ := true;
  env_copy_part _ := 0%nat;
  env_status _ := NV_OK;
  env_channel _ := 0;
  env_channels := [0];
  env_notifier _ := false;
  env_tests := false;
  env_rm_rotation := false;
  env_retries := 3%nat;
  env_closest _ m := elements m;
  env_closest_elem _ m x := elem_of_elements m x;
  env_closest_nodup _ m := NoDup_elements m;
|}.

Definition healthy_env : Env := env_with true (fun _ => false).

#[export] Instance healthy_env_healthy : HealthyEnv healthy_env.
Proof. by constructor. Qed.

(** ** Kernel state *)

(** [UvmCslIv]: the IV bytes and the [fresh] field. *)
Definition UvmCslIv : Type := list Z * Z.

(** A DMA staging buffer ([uvm_conf_computing_dma_buffer_t]): the bytes of
    [alloc] and [auth_tag] and the first entries of [decrypt_iv] and
    [key_version], the only ones this code uses. *)
Record dma_buffer := mk_dma_buffer {
  db_alloc       : list Z;
  db_auth_tag    : list Z;
  db_decrypt_iv  : UvmCslIv;
  db_key_version : Z;
}.

Definition dma_buffer_zero : dma_buffer := mk_dma_buffer [] [] ([], 0) 0.

(** [UVM_LIVE_MIGRATION_PAGE_CRYPTO_META]. *)
Record crypto_meta := mk_crypto_meta {
  cm_size        : Z;
  cm_iv          : list Z;
  cm_iv_fresh    : Z;
  cm_auth_tag    : list Z;
  cm_key_version : Z;
}.

(** What the driver asked of a CSL context in one direction: the IV rotations so
    far and the messages since the last one. *)
Record csl_ctr := mk_csl_ctr { ctr_epoch : Z; ctr_used : Z }.

(** What the CSL contexts and the GPU_TO_CPU channel pool keep: the IV counters
    of the channels, the pool's key version, its encrypted and decrypted byte
    counts, [key_rotation_enabled] and the IV rotation limit. *)
Record csl_state := mk_csl_state {
  cs_decrypt   : gmap Z csl_ctr;
  cs_encrypt   : gmap Z csl_ctr;
  cs_version   : Z;
  cs_encrypted : Z;
  cs_decrypted : Z;
  cs_rotation  : bool;
  cs_iv_limit  : Z;
}.

Definition csl_init : csl_state := mk_csl_state ∅ ∅ 0 0 0 false (2 ^ 31).

Record kst := mk_kst {
  k_tick     : N; (* environment decisions consumed so far *)
  k_locks    : list lock; (* locks held *)
  k_lock_bug : bool; (* a lock was taken twice or released unheld *)
  k_live     : Z; (* outstanding allocations, the pool's DMA buffers apart *)
  k_user     : mem; (* memory of the calling process *)
  k_faults   : Z; (* g_migration_write_fault_count *)
  k_flog     : Z; (* g_fault_log_count *)
  k_free     : list Z; (* free_dma_buffers, by buffer identity *)
  k_num      : Z; (* num_dma_buffers *)
  k_next     : Z; (* identity of the next created buffer *)
  k_bufs     : gmap Z dma_buffer; (* the allocated DMA buffers *)
  k_meta     : gmap Z crypto_meta; (* crypto_meta_buf of the call in progress *)
  k_csl      : csl_state; (* encryption counters and key version *)
}.

Definition kst_init : kst :=
  mk_kst 0 [] false 0 ∅ 0 0 [] 0 0 ∅ ∅ csl_init.

Definition set_tick (v : N) (s : kst) : kst :=
  mk_kst v (k_locks s) (k_lock_bug s) (k_live s) (k_user s) (k_faults s) (k_flog s)
    (k_free s) (k_num s) (k_next s) (k_bufs s) (k_meta s) (k_csl s).
Definition set_locks (v : list lock) (bug : bool) (s : kst) : kst :=
  mk_kst (k_tick s) v bug (k_live s) (k_user s) (k_faults s) (k_flog s) (k_free s)
    (k_num s) (k_next s) (k_bufs s) (k_meta s) (k_csl s).
Definition set_live (v : Z) (s : kst) : kst :=
  mk_kst (k_tick s) (k_locks s) (k_lock_bug s) v (k_user s) (k_faults s) (k_flog s)
    (k_free s) (k_num s) (k_next s) (k_bufs s) (k_meta s) (k_csl s).
Definition set_user (v : mem) (s : kst) : kst :=
  mk_kst (k_tick s) (k_locks s) (k_lock_bug s) (k_live s) v (k_faults s) (k_flog s)
    (k_free s) (k_num s) (k_next s) (k_bufs s) (k_meta s) (k_csl s).
Definition set_faults (f g : Z) (s : kst) : kst :=
  mk_kst (k_tick s) (k_locks s) (k_lock_bug s) (k_live s) (k_user s) f g (k_free s)
    (k_num s) (k_next s) (k_bufs s) (k_meta s) (k_csl s).
Definition set_pool (free : list Z) (num next : Z) (s : kst) : kst :=
  mk_kst (k_tick s) (k_locks s) (k_lock_bug s) (k_live s) (k_user s) (k_faults s)
    (k_flog s) free num next (k_bufs s) (k_meta s) (k_csl s).
Definition set_bufs (v : gmap Z dma_buffer) (s : kst) : kst :=
  mk_kst (k_tick s) (k_locks s) (k_lock_bug s) (k_live s) (k_user s) (k_faults s)
    (k_flog s) (k_free s) (k_num s) (k_next s) v (k_meta s) (k_csl s).
Definition set_meta (v : gmap Z crypto_meta) (s : kst) : kst :=
  mk_kst (k_tick s) (k_locks s) (k_lock_bug s) (k_live s) (k_user s) (k_faults s)
    (k_flog s) (k_free s) (k_num s) (k_next s) (k_bufs s) v (k_csl s).
Definition set_csl (v : csl_state) (s : kst) : kst :=
  mk_kst (k_tick s) (k_locks s) (k_lock_bug s) (k_live s) (k_user s) (k_faults s)
    (k_flog s) (k_free s) (k_num s) (k_next s) (k_bufs s) (k_meta s) v.

(** ** The monad *)

Definition K (A : Type) : Type := kst -> A * kst.
Definition kret {A} (a : A) : K A := fun s => (a, s).
Definition kbind {A B} (m : K A) (f : A -> K B) : K B :=
  fun s => let '(a, s') := m s in f a s'.
Definition kget {A} (f : kst -> A) : K A := fun s => (f s, s).
Definition kmod (f : kst -> kst) : K unit := fun s => (tt, f s).

Declare Scope kernel_scope.
Delimit Scope kernel_scope with kernel.
Notation "x ← y ; z" := (kbind y (fun x => z))
  (at level 20, y at level 100, z at level 200) : kernel_scope.
Notation "' x ← y ; z" := (kbind y (fun x => z))
  (at level 20, x pattern, y at level 100, z at level 200) : kernel_scope.
Notation "x ;; z" := (kbind x (fun _ => z))
  (at level 100, z at level 200, right associativity) : kernel_scope.
Open Scope kernel_scope.

Section Primitives.
Context `{E : Env}.

Definition tick : K N := fun s => (k_tick s, set_tick (k_tick s + 1)%N s).

(** An external call that returns a status. *)
Definition ext_status : K nv_status := n ← tick; kret (env_status n).

(** [kmalloc], [kvmalloc], [kvmalloc_array]: [true] is a non-NULL pointer.
    [kfree]/[kvfree] of NULL does nothing. *)
Definition kmalloc : K bool :=
  n ← tick;
  if env_alloc_ok n then kmod (fun s => set_live (k_live s + 1) s) ;; kret true
  else kret false.
Definition kfree (p : bool) : K unit :=
  if p then kmod (fun s => set_live (k_live s - 1) s) else kret tt.

(** [kvmalloc_array]: fails when the size overflows. *)
Definition kvmalloc_array (n size : Z) : K bool :=
  if 2 ^ 64 <=? n * size then kret false else kmalloc.

(** [copy_to_user]: returns [true] when not every byte could be copied; a
    prefix has then been written. *)
Definition copy_to_user (a : Z) (bs : list Z) : K bool :=
  n ← tick;
  let bs' := if env_copy_ok n then bs else take (env_copy_part n) bs in
  kmod (fun s => set_user (mem_write a bs' (k_user s)) s) ;;
  kret (negb (env_copy_ok n)).

(** [copy_from_user]: [None] is a fault. *)
Definition copy_from_user (a : Z) (n : nat) : K (option (list Z)) :=
  t ← tick;
  m ← kget k_user;
  kret (if env_copy_ok t then mapM id (mem_read m a n) else None).

(** Taking a lock already held, or releasing one that is not, is recorded. *)
Definition lock_acquire (l : lock) : K unit :=
  kmod (fun s => set_locks (l :: k_locks s)
                   (k_lock_bug s || bool_decide (l ∈ k_locks s)) s).
Definition lock_release (l : lock) : K unit :=
  kmod (fun s => set_locks (filter (fun x => x <> l) (k_locks s))
                   (k_lock_bug s || bool_decide (l ∉ k_locks s)) s).

(** Loops threading the local variables [L].  The body returns [None] to go
    on with the next iteration and [Some st] to leave the loop (a [break],
    [return] or [goto] of the source) with the status [st]. *)
Fixpoint kfold {L A} (f : L -> A -> K (option nv_status * L)) (l : L) (xs : list A)
    : K (option nv_status * L) :=
  match xs with
  | [] => kret (None, l)
  | x :: xs' =>
      '(ex, l') ← f l x;
      match ex with
      | None => kfold f l' xs'
      | Some st => kret (Some st, l')
      end
  end.

(** Loops over a list of objects that update each in place. *)
Fixpoint keach {A} (f : A -> K (option nv_status * A)) (xs : list A)
    : K (option nv_status * list A) :=
  match xs with
  | [] => kret (None, [])
  | x :: xs' =>
      '(ex, x') ← f x;
      match ex with
      | None => '(ex', r) ← keach f xs'; kret (ex', x' :: r)
      | Some st => kret (Some st, x' :: xs')
      end
  end.

(** The retry loop of [UVM_VA_BLOCK_LOCK_RETRY]: the call is repeated while it
    asks for it.  The loop is followed for [env_retries] more attempts; past
    them the request itself is the result, an error for every caller. *)
Fixpoint retry_loop {A} (fuel : nat) (call : A -> K (nv_status * A)) (a : A)
    : K (nv_status * A) :=
  '(st, a) ← call a;
  match fuel with
  | S fuel' => if bool_decide (st = NV_ERR_MORE_PROCESSING_REQUIRED)
               then retry_loop fuel' call a else kret (st, a)
  | O => kret (st, a)
  end.

(** The loop body's view of a status: [NV_OK] goes on, an error leaves. *)
Definition leave_on_error (st : nv_status) : option nv_status :=
  if is_ok st then None else Some st.
(** The value of [status], [NV_OK] before the loop, once the loop is over. *)
Definition loop_status (ex : option nv_status) : nv_status := default NV_OK ex.
End Primitives.

(** ** Postconditions *)

Definition wp {A} (m : K A) (Q : A -> kst -> Prop) (s : kst) : Prop :=
  Q (fst (m s)) (snd (m s)).

Section Wp.
Context `{E : Env}.

Lemma wp_mono {A} (m : K A) (Q Q' : A -> kst -> Prop) s :
  wp m Q s -> (forall a s', Q a s' -> Q' a s') -> wp m Q' s.
Proof. unfold wp; eauto. Qed.

Lemma wp_ret {A} (a : A) (Q : A -> kst -> Prop) s : Q a s -> wp (kret a) Q s.
Proof. done. Qed.

Lemma wp_bind {A B} (m : K A) (f : A -> K B) Q s :
  wp m (fun a s' => wp (f a) Q s') s -> wp (kbind m f) Q s.
Proof. unfold wp, kbind. by destruct (m s). Qed.

Lemma wp_assoc {A B C} (m : K A) (f : A -> K B) (g : B -> K C) Q s :
  wp (b ← (a ← m; f a); g b) Q s -> wp (a ← m; b ← f a; g b) Q s.
Proof. unfold wp, kbind. by destruct (m s) as [a s']. Qed.

Lemma wp_bind_inv {A B} (m : K A) (f : A -> K B) Q s :
  wp (kbind m f) Q s -> wp m (fun a s' => wp (f a) Q s') s.
Proof. unfold wp, kbind. by destruct (m s). Qed.

Lemma wp_mod f (Q : unit -> kst -> Prop) s : Q tt (f s) -> wp (kmod f) Q s.
Proof. done. Qed.

Lemma wp_get {A} (f : kst -> A) (Q : A -> kst -> Prop) s :
  Q (f s) s -> wp (kget f) Q s.
Proof. done. Qed.

Lemma wp_if {A} (b : bool) (m n : K A) Q s :
  (b = true -> wp m Q s) -> (b = false -> wp n Q s) ->
  wp (if b then m else n) Q s.
Proof. destruct b; auto. Qed.

(** A user copy either completes, or writes a prefix and fails. *)
Lemma wp_copy_to_user a bs (Q : bool -> kst -> Prop) s :
  (forall t, Q false (set_user (mem_write a bs (k_user s)) (set_tick t s))) ->
  (forall n t, Q true (set_user (mem_write a (take n bs) (k_user s)) (set_tick t s))) ->
  wp (copy_to_user a bs) Q s.
Proof.
  intros H1 H2. unfold wp, copy_to_user, kbind, tick, kmod, kret; cbn.
  destruct (env_copy_ok _); cbn; [eapply H1|eapply H2].
Qed.

Lemma wp_kfree p (Q : unit -> kst -> Prop) s :
  (forall n, Q tt (set_live n s)) -> wp (kfree p) Q s.
Proof.
  intros HQ. destruct p; [apply HQ|]. specialize (HQ (k_live s)). by destruct s.
Qed.

(** Forgetting what [m] does. *)
Lemma wp_any {A} (m : K A) (Q : A -> kst -> Prop) s :
  (forall a s', Q a s') -> wp m Q s.
Proof. unfold wp; auto. Qed.

Lemma wp_and {A} (m : K A) (Q Q' : A -> kst -> Prop) s :
  wp m Q s -> wp m Q' s -> wp m (fun a s' => Q a s' /\ Q' a s') s.
Proof. by split. Qed.

(** Invariant rule: an invariant of the locals and the state that each
    iteration keeps, however it ends. *)
Lemma wp_kfold {L A} (I : L -> kst -> Prop) (f : L -> A -> K (option nv_status * L))
    xs l s :
  (forall l x s, x ∈ xs -> I l s -> wp (f l x) (fun r s' => I (snd r) s') s) ->
  I l s -> wp (kfold f l xs) (fun r s' => I (snd r) s') s.
Proof.
  revert l s; induction xs as [|x xs IH]; intros l s Hf HI; cbn; [done|].
  apply wp_bind. eapply wp_mono; [apply Hf; [left|done]|].
  intros [[st|] l'] s' HI'; cbn; [done|].
  apply IH; [|done]. intros; apply Hf; [by right|done].
Qed.

(** Prefix rule: an invariant indexed by the iterations done; when the loop
    runs to its end all were done, when it is left [Err] holds. *)
Lemma wp_kfold_prefix {L A} (I : list A -> L -> kst -> Prop)
    (Err : nv_status -> L -> kst -> Prop)
    (f : L -> A -> K (option nv_status * L)) xs :
  (forall ys x zs l s, xs = ys ++ x :: zs -> I ys l s ->
    wp (f l x) (fun r s' => match fst r with
                            | None => I (ys ++ [x]) (snd r) s'
                            | Some st => Err st (snd r) s'
                            end) s) ->
  forall l s, I [] l s ->
  wp (kfold f l xs) (fun r s' => match fst r with
                                 | None => I xs (snd r) s'
                                 | Some st => Err st (snd r) s'
                                 end) s.
Proof.
  intros Hf.
  assert (forall zs ys l s, xs = ys ++ zs -> I ys l s ->
    wp (kfold f l zs) (fun r s' => match fst r with
                                   | None => I xs (snd r) s'
                                   | Some st => Err st (snd r) s'
                                   end) s) as H.
  { induction zs as [|x zs IH]; intros ys l s -> HI; cbn.
    - by rewrite app_nil_r in *.
    - apply wp_bind. eapply wp_mono; [by eapply Hf|].
      intros [[st|] l'] s' H; cbn in *; [done|].
      eapply (IH (ys ++ [x])); [|done]. by rewrite <- app_assoc. }
  intros; by eapply (H xs []).
Qed.

(** The result of the retry loop does not depend on the fuel once the call
    has stopped asking for a retry. *)
Lemma retry_loop_stable {A} fuel k (call : A -> K (nv_status * A)) a s st a' s' :
  retry_loop fuel call a s = ((st, a'), s') -> st <> NV_ERR_MORE_PROCESSING_REQUIRED ->
  retry_loop (fuel + k) call a s = ((st, a'), s').
Proof.
  revert a s; induction fuel as [|fuel IH]; intros a s H Hst; cbn in *.
  - destruct k; cbn; unfold kbind, kret in *; destruct (call a s) as [[st1 a1] s1];
      [done|]. simplify_eq. by rewrite bool_decide_eq_false_2.
  - unfold kbind, kret in *. destruct (call a s) as [[st1 a1] s1].
    destruct (bool_decide _); [|done]. by apply IH.
Qed.

Lemma wp_retry_loop {A} (R : A -> Prop) (Done : A -> Prop)
    (call : A -> K (nv_status * A)) fuel a s :
  R a ->
  (forall a s, R a -> wp (call a) (fun '(st, a') _ => R a' /\ (st = NV_OK -> Done a')) s) ->
  wp (retry_loop fuel call a) (fun '(st, a') _ => R a' /\ (st = NV_OK -> Done a')) s.
Proof.
  intros HR Hc. revert a s HR. induction fuel as [|fuel IH]; intros a s HR; cbn.
  all: apply wp_bind; eapply wp_mono; [by apply Hc|]; intros [st a'] s1 [H1 H2].
  - by apply wp_ret.
  - apply wp_if; intros _; [by apply IH|by apply wp_ret].
Qed.

(** Loops that collect a list.  [Inv D]: the items [D] have been collected;
    the loop is left at an item it did not collect, in a state [Bad D]. *)
Definition collect_post {B L} (Inv : list B -> L -> kst -> Prop)
    (Bad : list B -> nv_status -> L -> kst -> Prop) (D T : list B)
    (r : option nv_status * L) (s : kst) : Prop :=
  match fst r with
  | None => Inv (D ++ T) (snd r) s
  | Some st => exists D1 T2, T = D1 ++ T2 /\ T2 <> [] /\ Bad (D ++ D1) st (snd r) s
  end.

Lemma wp_kfold_collect {A B L} Inv Bad (f : L -> A -> K (option nv_status * L))
    (items : A -> list B) xs :
  (forall x D l s, x ∈ xs -> Inv D l s -> wp (f l x) (collect_post Inv Bad D (items x)) s) ->
  forall D l s, Inv D l s ->
  wp (kfold f l xs) (collect_post Inv Bad D (mjoin (items <$> xs))) s.
Proof.
  intros Hf. induction xs as [|x xs IH]; intros D l s HP; cbn [kfold].
  { apply wp_ret. unfold collect_post; cbn. by rewrite app_nil_r. }
  apply wp_bind. eapply wp_mono; [apply Hf; [left|done]|].
  change (mjoin (items <$> x :: xs)) with (items x ++ mjoin (items <$> xs)).
  intros [[st|] c] s' H; cbn in H; [apply wp_ret|].
  - destruct H as (D1 & T2 & HT & Hne & HR). exists D1, (T2 ++ mjoin (items <$> xs)).
    rewrite HT, <- app_assoc. split; [done|]. split; [|done]. by destruct T2.
  - eapply wp_mono; [apply IH; [intros; apply Hf; [by right|done]|done]|].
    intros [[st|] c'] s'' H'; unfold collect_post in *; cbn in *.
    + destruct H' as (D1 & T2 & HT & Hne & HR).
      exists (items x ++ D1), T2. rewrite HT, <- app_assoc. by rewrite <- app_assoc in HR.
    + by rewrite <- app_assoc in H'.
Qed.

(** A left or completed loop, seen through its final status. *)
Lemma loop_status_None : loop_status None = NV_OK.
Proof. done. Qed.
Lemma leave_on_error_None st : leave_on_error st = None <-> st = NV_OK.
Proof. unfold leave_on_error. destruct (is_ok st) eqn:H; split; intros; try done;
  try (by apply is_ok_true); by subst. Qed.
Lemma leave_on_error_Some st st' : leave_on_error st = Some st' -> st' = st /\ st <> NV_OK.
Proof. unfold leave_on_error. destruct (is_ok st) eqn:H; intros; simplify_eq.
  split; [done|]. by apply is_ok_false. Qed.

(** Pointwise rule for in-place loops: related elements, [R] between each
    element and its update, when the loop is not left. *)
Lemma wp_keach {A} (I : kst -> Prop) (R : A -> A -> Prop)
    (f : A -> K (option nv_status * A)) xs s :
  (forall x s, x ∈ xs -> I s ->
     wp (f x) (fun r s' => I s' /\ (fst r = None -> R x (snd r))) s) ->
  I s -> wp (keach f xs) (fun r s' => I s' /\ (fst r = None -> Forall2 R xs (snd r))) s.
Proof.
  revert s; induction xs as [|x xs IH]; intros s Hf HI; cbn.
  { by split; [|constructor]. }
  apply wp_bind. eapply wp_mono; [apply Hf; [left|done]|].
  intros [[st|] x'] s' [HI' HR]; cbn; [by apply wp_ret|].
  apply wp_bind. eapply wp_mono; [apply IH; [|done]; intros; apply Hf; [by right|done]|].
  intros [ex r] s'' [HI'' HF]; apply wp_ret; cbn in *.
  split; [done|]. intros Hn; constructor; auto.
Qed.

(** The same with a relation [R0] that holds however the loop ends, elements
    not reached being unchanged, and a fact [X] about the status it is left
    with. *)
Definition keach_post {A} (X : nv_status -> Prop) (R0 R : A -> A -> Prop) (x : A)
    (r : option nv_status * A) : Prop :=
  R0 x (snd r) /\ match fst r with None => R x (snd r) | Some st => X st end.

Lemma wp_keach_all {A} (X : nv_status -> Prop) (R0 R : A -> A -> Prop)
    (f : A -> K (option nv_status * A)) xs s :
  (forall x, x ∈ xs -> R0 x x) ->
  (forall x s, x ∈ xs -> wp (f x) (fun r _ => keach_post X R0 R x r) s) ->
  wp (keach f xs) (fun r _ => keach_post X (Forall2 R0) (Forall2 R) xs r) s.
Proof.
  unfold keach_post. revert s; induction xs as [|x xs IH]; intros s Hr Hf; cbn.
  { split; constructor. }
  apply wp_bind. eapply wp_mono; [apply Hf; left|].
  intros [[st|] x'] s' [H0 HR]; cbn in *; apply wp_bind || apply wp_ret.
  { split; [|done]. constructor; [done|]. apply Forall2_same_length_lookup.
    split; [done|]. intros i y z Hy Hz. assert (y = z) as -> by congruence.
    apply Hr. right. by eapply list_elem_of_lookup_2. }
  eapply wp_mono; [apply IH; intros; [apply Hr|apply Hf]; by right|].
  intros [[st|] r] s'' [HF0 HF]; apply wp_ret; cbn in *; split; auto.
Qed.
End Wp.

(** One step of a monadic program, forgetting the outcome of external calls. *)
Ltac wstep :=
  match goal with
  | |- wp (kbind _ _) _ _ => apply wp_bind
  | |- wp (kret _) _ _ => apply wp_ret
  | |- wp (kmod _) _ _ => apply wp_mod
  | |- wp ext_status _ _ => apply wp_any; intros ? ?
  | |- wp kmalloc _ _ => apply wp_any; intros ? ?
  | |- wp (kfree _) _ _ => apply wp_any; intros ? ?
  | |- wp (if ?b then _ else _) _ _ => destruct b eqn:?
  | |- wp (let '_ := ?x in _) _ _ => destruct x
  end; cbv beta.

(** Turns the boolean guards gathered by [wstep] into propositions. *)
Ltac bprop :=
  repeat match goal with
  | H : negb _ = true |- _ => apply negb_true_iff in H
  | H : negb _ = false |- _ => apply negb_false_iff in H
  | H : is_ok _ = true |- _ => apply is_ok_true in H
  | H : is_ok _ = false |- _ => apply is_ok_false in H
  | H : bool_decide _ = true |- _ => apply bool_decide_eq_true in H
  | H : bool_decide _ = false |- _ => apply bool_decide_eq_false in H
  | H : andb _ _ = true |- _ => apply andb_prop in H as [? ?]
  | H : orb _ _ = false |- _ => apply orb_false_elim in H as [? ?]
  | H : Z.eqb _ _ = true |- _ => apply Z.eqb_eq in H
  | H : Z.eqb _ _ = false |- _ => apply Z.eqb_neq in H
  end.
Ltac wsteps := repeat wstep; cbn [fst snd]; bprop.

(** ** Success: what happens when nothing fails *)

(** In a healthy environment [m] ends with [NV_OK]. *)
Definition Succeeds {A} (m : K (nv_status * A)) : Prop := forall s, fst (fst (m s)) = NV_OK.

Section Healthy.
Context `{E : Env} {H : HealthyEnv E}.

Lemma wp_ext_status_ok (Q : nv_status -> kst -> Prop) s :
  (forall s', Q NV_OK s') -> wp ext_status Q s.
Proof. intros HQ. unfold wp, ext_status, kbind, tick, kret; cbn. rewrite healthy_status. apply HQ. Qed.

Lemma wp_kmalloc_ok (Q : bool -> kst -> Prop) s :
  (forall s', Q true s') -> wp kmalloc Q s.
Proof. intros HQ. unfold wp, kmalloc, kbind, tick; cbn. rewrite healthy_alloc. apply HQ. Qed.

Lemma wp_succeeds {A} (m : K (nv_status * A)) (Q : nv_status * A -> kst -> Prop) s :
  Succeeds m -> (forall a s', Q (NV_OK, a) s') -> wp m Q s.
Proof.
  intros Hm HQ. specialize (Hm s). unfold wp. destruct (m s) as [[st a] s'].
  cbn in *; subst. apply HQ.
Qed.

(** A loop whose body never reports an error. *)
Lemma wp_kfold_ok {L A} (f : L -> A -> K (option nv_status * L)) xs l s :
  (forall l x s, wp (f l x) (fun r _ => loop_status (fst r) = NV_OK) s) ->
  wp (kfold f l xs) (fun r _ => loop_status (fst r) = NV_OK) s.
Proof.
  intros Hf. revert l s; induction xs as [|x xs IH]; intros l s; cbn; [done|].
  apply wp_bind. eapply wp_mono; [apply Hf|]. intros [[st|] l'] s'; cbn; [done|]. intros _. apply IH.
Qed.

Lemma wp_keach_ok {A} (f : A -> K (option nv_status * A)) xs s :
  (forall x s, wp (f x) (fun r _ => fst r = None) s) ->
  wp (keach f xs) (fun r _ => fst r = None) s.
Proof.
  intros Hf. revert s; induction xs as [|x xs IH]; intros s; cbn; [done|].
  apply wp_bind. eapply wp_mono; [apply Hf|]. intros [ex x'] s'; cbn. intros ->.
  apply wp_bind. eapply wp_mono; [apply IH|]. intros [ex r] s''; cbn. done.
Qed.

(** A call that succeeds is made once. *)
Lemma wp_retry_once {A} fuel (call : A -> K (nv_status * A)) a Q s :
  Succeeds (call a) -> wp (call a) Q s -> wp (retry_loop fuel call a) Q s.
Proof.
  intros Hc HQ. specialize (Hc s). unfold wp in *.
  destruct fuel; cbn; unfold kbind, kret; destruct (call a s) as [[st a'] s']; cbn in *;
    subst; done.
Qed.

Lemma retry_loop_ok {A} fuel (call : A -> K (nv_status * A)) a :
  (forall a, Succeeds (call a)) -> Succeeds (retry_loop fuel call a).
Proof.
  intros Hc s. specialize (Hc a s). destruct fuel; cbn; unfold kbind;
    destruct (call a s) as [[st a'] s']; cbn in *; subst; done.
Qed.
End Healthy.

(** Walks a program in a healthy environment. *)
Ltac hstep :=
  match goal with
  | |- wp (kbind _ _) _ _ => apply wp_bind
  | |- wp (kret _) _ _ => apply wp_ret
  | |- wp (kmod _) _ _ => apply wp_mod
  | |- wp (lock_acquire _) _ _ => apply wp_mod
  | |- wp (lock_release _) _ _ => apply wp_mod
  | |- wp ext_status _ _ => apply wp_ext_status_ok; intros ?
  | |- wp kmalloc _ _ => apply wp_kmalloc_ok; intros ?
  | |- wp (kfree _) _ _ => apply wp_any; intros ? ?
  | |- wp (kfold _ _ _) _ _ => eapply wp_mono; [apply wp_kfold_ok; intros ? ? ?|]; cbn
  | |- wp (keach _ _) _ _ => eapply wp_mono; [apply wp_keach_ok; intros ? ?|]; cbn
  | |- wp (if ?b then _ else _) _ _ => destruct b eqn:?
  | |- wp (let '_ := ?x in _) _ _ => destruct x
  | |- wp (match ?x with _ => _ end _) _ _ => destruct x
  | |- forall _ : _ * _, _ => intros [? ?]
  | |- forall _ : kst, _ => intros ?
  | |- _ = _ -> wp _ _ _ => intros ?
  end; cbv beta; cbn [fst snd negb].
Ltac hsteps := repeat hstep; bprop.

(** ** Lock discipline *)

(** [LockSpec ls m ls']: started with exactly the locks [ls], [m] ends holding
    [ls'] and has neither re-taken a held lock nor released an unheld one. *)
Class LockSpec {A} (ls : list lock) (m : K A) (ls' : list lock) : Prop :=
  lock_spec : forall s, k_locks s = ls -> k_lock_bug s = false ->
    k_locks (snd (m s)) = ls' /\ k_lock_bug (snd (m s)) = false.

Section LockRules.
Context `{E : Env}.

Lemma lock_bind {A B} ls ls1 ls2 (m : K A) (f : A -> K B) :
  LockSpec ls m ls1 -> (forall a, LockSpec ls1 (f a) ls2) ->
  LockSpec ls (kbind m f) ls2.
Proof.
  intros Hm Hf s Hl Hb. unfold kbind. destruct (Hm s Hl Hb) as [H1 H2].
  destruct (m s) as [a s']; cbn in *. by apply Hf.
Qed.

Lemma lock_ret {A} ls (a : A) : LockSpec ls (kret a) ls.
Proof. by intros s. Qed.

Lemma lock_get {A} ls (f : kst -> A) : LockSpec ls (kget f) ls.
Proof. by intros s. Qed.

Lemma lock_mod ls f :
  (forall s, k_locks (f s) = k_locks s /\ k_lock_bug (f s) = k_lock_bug s) ->
  LockSpec ls (kmod f) ls.
Proof. intros H s <- Hb; cbn. destruct (H s) as [-> ->]; auto. Qed.

Lemma lock_tick ls : LockSpec ls tick ls.
Proof. by intros s. Qed.

Lemma lock_if {A} (b : bool) ls ls' (m n : K A) :
  LockSpec ls m ls' -> LockSpec ls n ls' ->
  LockSpec ls (if b then m else n) ls'.
Proof. by destruct b. Qed.

Lemma lock_acq l ls : l ∉ ls -> LockSpec ls (lock_acquire l) (l :: ls).
Proof.
  intros Hl s <- Hb; cbn. rewrite Hb, bool_decide_eq_false_2; done.
Qed.

Lemma lock_rel l ls : l ∉ ls -> LockSpec (l :: ls) (lock_release l) ls.
Proof.
  intros Hl s Hs Hb; cbn. rewrite Hs, Hb. split.
  - rewrite filter_cons_False by naive_solver.
    apply list_filter_id; intros x Hx ->; done.
  - apply bool_decide_eq_false. intros H; apply H; left.
Qed.

Lemma lock_kfold {L A} ls (f : L -> A -> K (option nv_status * L)) :
  (forall l x, LockSpec ls (f l x) ls) -> forall xs l, LockSpec ls (kfold f l xs) ls.
Proof.
  intros Hf. induction xs as [|x xs IH]; intros l; cbn; [apply lock_ret|].
  eapply lock_bind; [apply Hf|]. intros [[st|] l']; auto using lock_ret.
Qed.

Lemma lock_keach {A} ls (f : A -> K (option nv_status * A)) :
  (forall x, LockSpec ls (f x) ls) -> forall xs, LockSpec ls (keach f xs) ls.
Proof.
  intros Hf. induction xs as [|x xs IH]; cbn; [apply lock_ret|].
  eapply lock_bind; [apply Hf|]. intros [[st|] l']; [apply lock_ret|].
  eapply lock_bind; [apply IH|]. intros [? ?]. apply lock_ret.
Qed.

Lemma lock_kmalloc ls : LockSpec ls kmalloc ls.
Proof.
  eapply lock_bind; [apply lock_tick|]. intros n. apply lock_if; [|apply lock_ret].
  eapply lock_bind; [by apply lock_mod|]. intros; apply lock_ret.
Qed.

Lemma lock_kvmalloc_array ls n size : LockSpec ls (kvmalloc_array n size) ls.
Proof. apply lock_if; [apply lock_ret|apply lock_kmalloc]. Qed.

Lemma lock_retry_loop {A} ls fuel (call : A -> K (nv_status * A)) a :
  (forall a, LockSpec ls (call a) ls) -> LockSpec ls (retry_loop fuel call a) ls.
Proof.
  intros Hc. revert a; induction fuel as [|fuel IH]; intros a; cbn;
    (eapply lock_bind; [apply Hc|]); intros [st a']; [apply lock_ret|].
  apply lock_if; [apply IH|apply lock_ret].
Qed.

Lemma lock_kfree ls p : LockSpec ls (kfree p) ls.
Proof. apply lock_if; [by apply lock_mod|apply lock_ret]. Qed.

Lemma lock_copy_to_user ls a bs : LockSpec ls (copy_to_user a bs) ls.
Proof.
  eapply lock_bind; [apply lock_tick|]. intros n.
  eapply lock_bind; [by apply lock_mod|]. intros; apply lock_ret.
Qed.

Lemma lock_copy_from_user ls a n : LockSpec ls (copy_from_user a n) ls.
Proof.
  eapply lock_bind; [apply lock_tick|]. intros t.
  eapply lock_bind; [apply lock_get|]. intros; apply lock_ret.
Qed.

Lemma lock_ext_status ls : LockSpec ls ext_status ls.
Proof. eapply lock_bind; [apply lock_tick|]. intros; apply lock_ret. Qed.
End LockRules.

(** Lock specifications inside postconditions. *)
Lemma wp_lock {A} ls ls' (m : K A) (Q : A -> kst -> Prop) s :
  LockSpec ls m ls' -> k_locks s = ls -> k_lock_bug s = false ->
  (forall a s', k_locks s' = ls' -> k_lock_bug s' = false -> Q a s') -> wp m Q s.
Proof. intros Hm Hl Hb HQ. destruct (Hm s Hl Hb). unfold wp. auto. Qed.

Create HintDb locks.
#[export] Hint Resolve lock_ret lock_get lock_tick lock_kmalloc lock_kvmalloc_array lock_kfree
  lock_copy_to_user lock_copy_from_user lock_ext_status : locks.

(** Discharges [l ∉ ls] for literal lock lists and hypotheses on them. *)
Ltac notin_locks :=
  repeat rewrite not_elem_of_cons; repeat split; try discriminate;
  try congruence; try apply not_elem_of_nil; auto; set_solver.

(** Walks a monadic program and discharges its lock specification. *)
Ltac lockstep :=
  match goal with
  | |- LockSpec _ (kbind _ _) _ => eapply lock_bind; [|intros ?]
  | |- LockSpec _ (kret _) _ => apply lock_ret
  | |- LockSpec _ (lock_acquire _) _ => apply lock_acq; notin_locks
  | |- LockSpec _ (lock_release _) _ => apply lock_rel; notin_locks
  | |- LockSpec _ (kmod _) _ => apply lock_mod; by intros
  | |- LockSpec _ (kfold _ _ _) _ => apply lock_kfold; intros ? ?
  | |- LockSpec _ (keach _ _) _ => apply lock_keach; intros ?
  | |- LockSpec _ (retry_loop _ _ _) _ => apply lock_retry_loop; intros ?
  | |- LockSpec _ (if ?b then _ else _) _ => apply lock_if
  | |- LockSpec _ (let '_ := ?x in _) _ => destruct x
  | |- LockSpec _ (match ?x with _ => _ end) _ => destruct x
  | |- LockSpec _ (match ?x with _ => _ end _) _ => destruct x
  | |- LockSpec _ _ _ => solve [eauto with locks]
  end.
Ltac locks := intros; repeat (lockstep; cbv beta).

(** ** Allocation balance *)

(** [LiveSpec m d]: [m] changes the number of outstanding allocations by [d] of
    its result. *)
Class LiveSpec {A} (m : K A) (d : A -> Z) : Prop :=
  live_spec : forall s, k_live (snd (m s)) = k_live s + d (fst (m s)).

Section LiveRules.
Context `{E : Env}.

Lemma live_bind {A B} (m : K A) (f : A -> K B) d1 d2 :
  LiveSpec m d1 -> (forall a, LiveSpec (f a) (fun b => d2 b - d1 a)) ->
  LiveSpec (kbind m f) d2.
Proof.
  intros Hm Hf s. unfold kbind. specialize (Hm s). destruct (m s) as [a s']; cbn in *.
  specialize (Hf a s'). cbv beta in Hf. lia.
Qed.

Lemma live_ret {A} (a : A) d : d a = 0 -> LiveSpec (kret a) d.
Proof. intros H s; cbn. lia. Qed.

Lemma live_if {A} (b : bool) (m n : K A) d :
  LiveSpec m d -> LiveSpec n d -> LiveSpec (if b then m else n) d.
Proof. by destruct b. Qed.

Lemma live_const {A} (m : K A) d : LiveSpec m (fun _ => 0) -> (forall a, d a = 0) -> LiveSpec m d.
Proof. intros H Hd s. rewrite (H s), Hd. done. Qed.

Lemma live_weaken {A} (m : K A) d1 d2 :
  LiveSpec m d1 -> (forall a, d1 a = d2 a) -> LiveSpec m d2.
Proof. intros H Hd s. by rewrite (H s), Hd. Qed.

Lemma live_mod f : (forall s, k_live (f s) = k_live s) -> LiveSpec (kmod f) (fun _ => 0).
Proof. intros H s; cbn. rewrite H; lia. Qed.

Lemma live_get {A} (f : kst -> A) : LiveSpec (kget f) (fun _ => 0).
Proof. intros s; cbn; lia. Qed.

Lemma live_tick : LiveSpec tick (fun _ => 0).
Proof. intros s; cbn; lia. Qed.

Lemma live_ext_status : LiveSpec ext_status (fun _ => 0).
Proof. eapply live_bind; [apply live_tick|]. intros; by apply live_ret. Qed.

Lemma live_kmalloc : LiveSpec kmalloc (fun p => if p then 1 else 0).
Proof.
  intros s. unfold kmalloc, kbind, tick. cbn. destruct (env_alloc_ok _); cbn; lia.
Qed.

Lemma live_kvmalloc_array n size : LiveSpec (kvmalloc_array n size) (fun p => if p then 1 else 0).
Proof. unfold kvmalloc_array. destruct (_ <=? _); [by apply live_ret|apply live_kmalloc]. Qed.

Lemma live_kfree p : LiveSpec (kfree p) (fun _ => if p then -1 else 0).
Proof. intros s. destruct p; cbn; lia. Qed.

Lemma live_copy_to_user a bs : LiveSpec (copy_to_user a bs) (fun _ => 0).
Proof.
  eapply live_bind; [apply live_tick|]. intros n.
  eapply live_bind; [by apply live_mod|]. intros; by apply live_ret.
Qed.

Lemma live_copy_from_user a n : LiveSpec (copy_from_user a n) (fun _ => 0).
Proof.
  eapply live_bind; [apply live_tick|]. intros t.
  eapply live_bind; [apply live_get|]. intros; by apply live_ret.
Qed.

Lemma live_acquire l : LiveSpec (lock_acquire l) (fun _ => 0).
Proof. by apply live_mod. Qed.
Lemma live_release l : LiveSpec (lock_release l) (fun _ => 0).
Proof. by apply live_mod. Qed.

(** Loops whose locals own [c l] allocations. *)
Lemma live_kfold {L A} (c : L -> Z) (f : L -> A -> K (option nv_status * L)) :
  (forall l x, LiveSpec (f l x) (fun r => c (snd r) - c l)) ->
  forall xs l, LiveSpec (kfold f l xs) (fun r => c (snd r) - c l).
Proof.
  intros Hf. induction xs as [|x xs IH]; intros l; cbn; [apply live_ret; cbn; lia|].
  eapply live_bind; [apply Hf|]. intros [[st|] l']; cbn; [apply live_ret; cbn; lia|].
  intros s. rewrite (IH l' s). lia.
Qed.

(** Loops whose body balances its allocations. *)
Lemma live_kfold0 {L A} (f : L -> A -> K (option nv_status * L)) xs l :
  (forall l x, LiveSpec (f l x) (fun _ => 0)) -> LiveSpec (kfold f l xs) (fun _ => 0).
Proof. intros Hf. by apply (live_kfold (fun _ => 0) f). Qed.

Lemma live_keach {A} (f : A -> K (option nv_status * A)) :
  (forall x, LiveSpec (f x) (fun _ => 0)) -> forall xs, LiveSpec (keach f xs) (fun _ => 0).
Proof.
  intros Hf. induction xs as [|x xs IH]; cbn; [by apply live_ret|].
  eapply live_bind; [apply Hf|]. intros [[st|] l']; [by apply live_ret|].
  eapply live_bind; [eapply live_const; [apply IH|done]|]. intros [? ?]. by apply live_ret.
Qed.

Lemma live_retry_loop {A} fuel (call : A -> K (nv_status * A)) a :
  (forall a, LiveSpec (call a) (fun _ => 0)) -> LiveSpec (retry_loop fuel call a) (fun _ => 0).
Proof.
  intros Hc. revert a; induction fuel as [|fuel IH]; intros a; cbn;
    (eapply live_bind; [apply Hc|]); intros [st a']; [by apply live_ret|].
  destruct (bool_decide _); [eapply live_const; [apply IH|done]|by apply live_ret].
Qed.
End LiveRules.

Create HintDb live.
#[export] Hint Resolve live_ext_status live_kmalloc live_kvmalloc_array live_kfree
  live_copy_to_user live_copy_from_user live_acquire live_release live_tick live_get : live.

(** Walks a monadic program and discharges its allocation balance. *)
Ltac livestep :=
  match goal with
  | |- LiveSpec (kbind _ _) _ => eapply live_bind; [first [solve [eauto with live]|idtac]|intros ?]
  | |- LiveSpec (kret _) _ => apply live_ret; cbn; lia
  | p : bool |- LiveSpec (if negb ?p then _ else _) _ => destruct p; cbn [negb]
  | p : bool |- LiveSpec (if ?p then _ else _) _ => destruct p
  | |- LiveSpec (kmod _) _ => first [apply live_mod; by intros
                              |eapply live_weaken; [apply live_mod; by intros|intros; cbn; lia]]
  | |- LiveSpec (if ?b then _ else _) _ => destruct b
  | |- LiveSpec (let '_ := ?x in _) _ => destruct x
  | |- LiveSpec (match ?x with _ => _ end) _ => destruct x
  | |- LiveSpec (match ?x with _ => _ end _) _ => destruct x
  | |- LiveSpec (keach _ _) _ =>
      first [apply live_keach; intros ?
            |eapply live_weaken; [apply live_keach; intros ?|intros; cbn; lia]]
  | |- LiveSpec (kfold _ _ _) _ =>
      first [apply live_kfold0; intros ? ?
            |eapply live_weaken; [apply live_kfold0; intros ? ?|intros; cbn; lia]]
  | |- LiveSpec (retry_loop _ _ _) _ =>
      first [apply live_retry_loop; intros ?
            |eapply live_weaken; [apply live_retry_loop; intros ?|intros; cbn; lia]]
  | |- LiveSpec _ _ => solve [eauto with live]
  | |- LiveSpec _ _ => eapply live_weaken; [solve [eauto with live]|intros; cbn; lia]
  end.
Ltac live := intros; repeat (livestep; cbv beta).

(** ** Frames *)

(** A relation between the states before and after a step that does not look at
    the decision counter, the locks or the allocation count. *)
Class Ambient (R : kst -> kst -> Prop) : Prop := {
  amb_pre   : PreOrder R;
  amb_tick  : forall s t, R s (set_tick t s);
  amb_locks : forall s ls b, R s (set_locks ls b s);
  amb_live  : forall s n, R s (set_live n s);
}.

(** [m] relates its initial and final states by [R]. *)
Class Keeps {A} (R : kst -> kst -> Prop) (m : K A) : Prop :=
  keeps_spec : forall s, R s (snd (m s)).

Section KeepsRules.
Context `{E : Env} {R : kst -> kst -> Prop} {HR : Ambient R}.

Lemma keeps_ret {A} (a : A) : Keeps R (kret a).
Proof. intros s. apply amb_pre. Qed.
Lemma keeps_get {A} (f : kst -> A) : Keeps R (kget f).
Proof. intros s. apply amb_pre. Qed.
Lemma keeps_mod f : (forall s, R s (f s)) -> Keeps R (kmod f).
Proof. intros H s. apply H. Qed.
Lemma keeps_bind {A B} (m : K A) (f : A -> K B) :
  Keeps R m -> (forall a, Keeps R (f a)) -> Keeps R (kbind m f).
Proof.
  intros Hm Hf s. unfold kbind. specialize (Hm s). destruct (m s) as [a s']; cbn in *.
  eapply (@PreOrder_Transitive _ _ amb_pre); [done|]. apply Hf.
Qed.
Lemma keeps_tick : Keeps R tick.
Proof. intros s. apply amb_tick. Qed.
Lemma keeps_ext_status : Keeps R ext_status.
Proof. apply keeps_bind; [apply keeps_tick|]. intros; apply keeps_ret. Qed.
Lemma keeps_kmalloc : Keeps R kmalloc.
Proof.
  apply keeps_bind; [apply keeps_tick|]. intros n. destruct (env_alloc_ok n); [|apply keeps_ret].
  apply keeps_bind; [apply keeps_mod; intros; apply amb_live|]. intros; apply keeps_ret.
Qed.
Lemma keeps_kvmalloc_array n size : Keeps R (kvmalloc_array n size).
Proof. unfold kvmalloc_array. destruct (_ <=? _); [apply keeps_ret|apply keeps_kmalloc]. Qed.
Lemma keeps_kfree p : Keeps R (kfree p).
Proof. destruct p; [apply keeps_mod; intros; apply amb_live|apply keeps_ret]. Qed.
Lemma keeps_acquire l : Keeps R (lock_acquire l).
Proof. apply keeps_mod; intros; apply amb_locks. Qed.
Lemma keeps_release l : Keeps R (lock_release l).
Proof. apply keeps_mod; intros; apply amb_locks. Qed.
Lemma keeps_copy_from_user a n : Keeps R (copy_from_user a n).
Proof.
  apply keeps_bind; [apply keeps_tick|]. intros t.
  apply keeps_bind; [apply keeps_get|]. intros; apply keeps_ret.
Qed.
Lemma keeps_copy_to_user a bs :
  (forall s v, R s (set_user v s)) -> Keeps R (copy_to_user a bs).
Proof.
  intros Hu. apply keeps_bind; [apply keeps_tick|]. intros t.
  apply keeps_bind; [apply keeps_mod; intros; apply Hu|]. intros; apply keeps_ret.
Qed.
Lemma keeps_kfold {L A} (f : L -> A -> K (option nv_status * L)) xs l :
  (forall l x, Keeps R (f l x)) -> Keeps R (kfold f l xs).
Proof.
  intros Hf. revert l. induction xs as [|x xs IH]; intros l; cbn; [apply keeps_ret|].
  apply keeps_bind; [apply Hf|]. intros [[st|] l']; [apply keeps_ret|apply IH].
Qed.
End KeepsRules.

Lemma wp_keeps {A} R (m : K A) (Q : A -> kst -> Prop) s :
  Keeps R m -> (forall a s', R s s' -> Q a s') -> wp m Q s.
Proof. intros Hm HQ. apply HQ, Hm. Qed.

Lemma keeps_weaken {A} (R R' : kst -> kst -> Prop) (m : K A) :
  Keeps R m -> (forall s s', R s s' -> R' s s') -> Keeps R' m.
Proof. intros Hm H s. apply H, Hm. Qed.

Create HintDb keeps.
#[export] Hint Extern 0 (Ambient _) => typeclasses eauto : keeps.
#[export] Hint Resolve keeps_ret keeps_get keeps_tick keeps_ext_status keeps_kmalloc
  keeps_kvmalloc_array keeps_kfree keeps_acquire keeps_release keeps_copy_from_user : keeps.

(** Walks a program; [tac] closes the state updates. *)
Ltac keepstep tac :=
  match goal with
  | |- Keeps _ (kbind _ _) => apply keeps_bind; [|intros ?]
  | |- Keeps _ (kret _) => apply keeps_ret
  | |- Keeps _ (kmod _) => apply keeps_mod; intros ?; solve [tac]
  | |- Keeps _ (copy_to_user _ _) => apply keeps_copy_to_user; intros ? ?; solve [tac]
  | |- Keeps _ (kfold _ _ _) => apply keeps_kfold; intros ? ?
  | |- Keeps _ (if ?b then _ else _) => destruct b
  | |- Keeps _ (let '_ := ?x in _) => destruct x
  | |- Keeps _ (match ?x with _ => _ end) => destruct x
  | |- Keeps _ (match ?x with _ => _ end _) => destruct x
  | |- Keeps _ _ => solve [eauto with keeps]
  end.
Ltac keeps tac := intros; cbv zeta; repeat (keepstep tac; cbv beta zeta).

(** Runs the deterministic steps of a program: state accesses and locks. *)
Ltac wdet :=
  repeat (match goal with
  | |- wp (kbind _ _) _ _ => apply wp_bind
  | |- wp (kret _) _ _ => apply wp_ret
  | |- wp (kmod _) _ _ => apply wp_mod
  | |- wp (kget _) _ _ => apply wp_get
  | |- wp (lock_acquire _) _ _ => apply wp_mod
  | |- wp (lock_release _) _ _ => apply wp_mod
  end; cbv beta).

(** The same for programs whose parts are each balanced. *)
Ltac live0 :=
  intros; repeat (match goal with
  | |- LiveSpec (kbind _ _) _ =>
      first [eapply live_bind; [solve [eauto with live]|intros ?]
            |apply (live_bind _ _ (fun _ => 0)); [|intros ?]]
  | _ => livestep
  end; cbv beta).
