(* ===== verification/VaBlock.v ===== *)
(** UVM data model: pages, VA blocks, VA ranges and VA spaces, with the block
    geometry of [uvm_va_range.c] and the page queries of [uvm_va_block.h].

    A VA block covers at most 2MB of one managed range.  A page mask is the
    finite set of the indices of its set bits; a processor mask is the finite
    set of processor ids, the CPU being id 0.  A GPU state's chunk array is
    abstracted by [gs_phys], the physical address of each resident page. *)
From stdpp Require Import sorting.
From S2P Require Import Prelude Kernel.

Definition PAGE_SIZE : Z := 4096.
Definition UVM_VA_BLOCK_SIZE : Z := 2 ^ 21.
Definition PAGES_PER_UVM_VA_BLOCK : Z := 512.

Definition UVM_ID_CPU : Z := 0.
Definition UVM_ID_IS_GPU (id : Z) : bool := 0 <? id.

Inductive aperture := UVM_APERTURE_VID | UVM_APERTURE_SYS | UVM_APERTURE_PEER (p : Z).

#[export] Instance aperture_eq_dec : EqDecision aperture.
Proof. solve_decision. Defined.

Record phys_address := mk_phys { pa_address : Z; pa_aperture : aperture }.

#[export] Instance phys_address_eq_dec : EqDecision phys_address.
Proof. solve_decision. Defined.

(** [uvm_prot_t], ordered. *)
Inductive uvm_prot :=
| UVM_PROT_NONE | UVM_PROT_READ_ONLY | UVM_PROT_READ_WRITE | UVM_PROT_READ_WRITE_ATOMIC.

#[export] Instance uvm_prot_eq_dec : EqDecision uvm_prot.
Proof. solve_decision. Defined.

(** Per-GPU state of a block: residency, physical pages and PTE bits. *)
Record gpu_state := mk_gpu_state {
  gs_resident   : gset Z;
  gs_phys       : Z -> phys_address;
  gs_pte_read   : gset Z;
  gs_pte_write  : gset Z;
  gs_pte_atomic : gset Z;
}.

Record va_block := mk_va_block {
  vb_start         : Z;
  vb_end           : Z;               (* inclusive *)
  vb_cpu_resident  : gset Z;          (* cpu.resident *)
  vb_cpu_page      : Z -> list Z;     (* contents of the CPU pages *)
  vb_cpu_pte_read  : gset Z;          (* cpu.pte_bits[UVM_PTE_BITS_CPU_READ] *)
  vb_cpu_pte_write : gset Z;          (* cpu.pte_bits[UVM_PTE_BITS_CPU_WRITE] *)
  vb_gpus          : gmap Z gpu_state;
  vb_resident      : gset Z;          (* processors with resident pages *)
  vb_mapped        : gset Z;          (* processors with mappings *)
  vb_maybe_mapped  : gset Z;          (* maybe_mapped_pages *)
  vb_dirty         : bool;            (* live_migration.dirty *)
  vb_tracking      : bool;            (* live_migration.migration_tracking_enabled *)
}.

Definition vb_set_migration (dirty tracking : bool) (b : va_block) : va_block :=
  mk_va_block (vb_start b) (vb_end b) (vb_cpu_resident b) (vb_cpu_page b)
    (vb_cpu_pte_read b) (vb_cpu_pte_write b) (vb_gpus b) (vb_resident b) (vb_mapped b)
    (vb_maybe_mapped b) dirty tracking.
Definition vb_set_gpu (gpu : Z) (gs : gpu_state) (b : va_block) : va_block :=
  mk_va_block (vb_start b) (vb_end b) (vb_cpu_resident b) (vb_cpu_page b)
    (vb_cpu_pte_read b) (vb_cpu_pte_write b) (<[gpu := gs]> (vb_gpus b)) (vb_resident b)
    (vb_mapped b) (vb_maybe_mapped b) (vb_dirty b) (vb_tracking b).
Definition vb_set_cpu_pte (r w : gset Z) (b : va_block) : va_block :=
  mk_va_block (vb_start b) (vb_end b) (vb_cpu_resident b) (vb_cpu_page b)
    r w (vb_gpus b) (vb_resident b) (vb_mapped b)
    (vb_maybe_mapped b) (vb_dirty b) (vb_tracking b).
Definition vb_set_mapped (mapped maybe : gset Z) (b : va_block) : va_block :=
  mk_va_block (vb_start b) (vb_end b) (vb_cpu_resident b) (vb_cpu_page b)
    (vb_cpu_pte_read b) (vb_cpu_pte_write b) (vb_gpus b) (vb_resident b) mapped
    maybe (vb_dirty b) (vb_tracking b).

Inductive range_type :=
| UVM_VA_RANGE_TYPE_MANAGED | UVM_VA_RANGE_TYPE_EXTERNAL | UVM_VA_RANGE_TYPE_CHANNEL
| UVM_VA_RANGE_TYPE_SKED_REFLECTED | UVM_VA_RANGE_TYPE_SEMAPHORE_POOL.

#[export] Instance range_type_eq_dec : EqDecision range_type.
Proof. solve_decision. Defined.

(** A range: [node.start], [node.end] (inclusive), its type and its array of
    lazily created blocks. *)
Record va_range := mk_va_range {
  vr_start  : Z;
  vr_end    : Z;
  vr_type   : range_type;
  vr_blocks : list (option va_block);
}.

(** A VA space: identity (for its lock), its range tree in address order,
    [migration_tracking_active], the ids of [registered_gpus] in increasing
    order, and the answers of the external [uvm_va_space_get_gpu_by_uuid]. *)
Record va_space := mk_va_space {
  vs_id              : Z;
  vs_ranges          : list va_range;
  vs_tracking_active : bool;
  vs_registered_gpus : list Z;
  vs_gpu_by_uuid     : list Z -> option Z;
}.

Definition vr_set_blocks (bs : list (option va_block)) (r : va_range) : va_range :=
  mk_va_range (vr_start r) (vr_end r) (vr_type r) bs.
Definition vs_set_ranges (rs : list va_range) (v : va_space) : va_space :=
  mk_va_space (vs_id v) rs (vs_tracking_active v) (vs_registered_gpus v) (vs_gpu_by_uuid v).
Definition vs_set_tracking (t : bool) (v : va_space) : va_space :=
  mk_va_space (vs_id v) (vs_ranges v) t (vs_registered_gpus v) (vs_gpu_by_uuid v).

Definition is_managed (r : va_range) : bool :=
  bool_decide (vr_type r = UVM_VA_RANGE_TYPE_MANAGED).

(** The populated blocks of a range, in index order: the blocks that
    [for_each_va_block_in_va_range] visits. *)
Definition range_blocks (r : va_range) : list va_block := omap id (vr_blocks r).

(** ** Geometry *)

Definition UVM_VA_BLOCK_ALIGN_DOWN (a : Z) : Z := a - a mod UVM_VA_BLOCK_SIZE.
Definition UVM_VA_BLOCK_ALIGN_UP (a : Z) : Z :=
  UVM_VA_BLOCK_ALIGN_DOWN (u64 (a + (UVM_VA_BLOCK_SIZE - 1))).

Definition block_calc_start (r : va_range) (index : Z) : Z :=
  let range_start := UVM_VA_BLOCK_ALIGN_DOWN (vr_start r) in
  let block_start := u64 (range_start + u64 (index * UVM_VA_BLOCK_SIZE)) in
  Z.max (vr_start r) block_start.

Definition block_calc_end (r : va_range) (index : Z) : Z :=
  let start := block_calc_start r index in
  let block_end := u64 (UVM_VA_BLOCK_ALIGN_UP (u64 (start + 1)) - 1) in
  Z.min (vr_end r) block_end.

Definition uvm_va_range_num_blocks (r : va_range) : Z :=
  let start := UVM_VA_BLOCK_ALIGN_DOWN (vr_start r) in
  let end_ := UVM_VA_BLOCK_ALIGN_UP (vr_end r) in
  u64 (end_ - start) / UVM_VA_BLOCK_SIZE.

Definition uvm_va_range_block_index (r : va_range) (addr : Z) : Z :=
  let addr_index := addr / UVM_VA_BLOCK_SIZE in
  let start_index := vr_start r / UVM_VA_BLOCK_SIZE in
  u64 (addr_index - start_index).

(** [uvm_va_range_block_next]: the first populated block after [cur]. *)
Definition uvm_va_range_block_next (r : va_range) (cur : option va_block)
    : option va_block :=
  let i := match cur with
           | Some b => uvm_va_range_block_index r (vb_start b) + 1
           | None => 0
           end in
  head (omap id (drop (Z.to_nat i) (vr_blocks r))).

(** [for_each_va_block_in_va_range], unrolled with one unit of fuel per block. *)
Fixpoint blocks_from (fuel : nat) (r : va_range) (cur : option va_block)
    : list va_block :=
  match fuel with
  | O => []
  | S fuel' =>
      match uvm_va_range_block_next r cur with
      | Some b => b :: blocks_from fuel' r (Some b)
      | None => []
      end
  end.

(** [uvm_va_range_find]: the range tree lookup of the range holding [addr]. *)
Definition range_holds (addr : Z) (r : va_range) : bool :=
  (vr_start r <=? addr) && (addr <=? vr_end r).
Definition uvm_va_range_find (v : va_space) (addr : Z) : option va_range :=
  head (filter (fun r => range_holds addr r = true) (vs_ranges v)).

(** [uvm_for_each_va_range_in]: the ranges meeting [start, end], in order. *)
Definition ranges_in (v : va_space) (start end_ : Z) : list va_range :=
  filter (fun r => ((vr_start r <=? end_) && (start <=? vr_end r)) = true) (vs_ranges v).

(** ** Page queries *)

Definition uvm_va_block_size (b : va_block) : Z := u64 (vb_end b - vb_start b + 1).
Definition uvm_va_block_num_cpu_pages (b : va_block) : Z := uvm_va_block_size b / PAGE_SIZE.
Definition uvm_va_block_cpu_page_index (b : va_block) (addr : Z) : Z :=
  (addr - vb_start b) / PAGE_SIZE.
Definition uvm_va_block_gpu_state_get (b : va_block) (gpu : Z) : option gpu_state :=
  vb_gpus b !! gpu.

Definition uvm_processor_mask_find_first_va_space_gpu (v : va_space) : option Z :=
  head (vs_registered_gpus v).

(** [uvm_va_block_region_t] and the page masks it delimits. *)
Record region := mk_region { rg_first : Z; rg_outer : Z }.
Definition uvm_va_block_region_from_block (b : va_block) : region :=
  mk_region 0 (uvm_va_block_num_cpu_pages b).
Definition region_pages (r : region) : list Z := seqZ (rg_first r) (rg_outer r - rg_first r).
Definition region_mask (r : region) : gset Z := list_to_set (region_pages r).

(** [for_each_va_block_page_in_region_mask]: set bits of the mask, ascending. *)
Definition pages_in_region_mask (r : region) (m : gset Z) : list Z :=
  filter (fun p => p ∈ m) (region_pages r).

(** [for_each_id_in_mask]: ids of a processor mask, ascending. *)
Definition ids_in_mask (m : gset Z) : list Z := merge_sort Z.le (elements m).

(** [uvm_va_block_resident_mask_get]; the CPU mask is the one over all NUMA
    nodes. *)
Definition uvm_va_block_resident_mask_get (b : va_block) (processor : Z) : gset Z :=
  if processor =? UVM_ID_CPU then vb_cpu_resident b
  else match uvm_va_block_gpu_state_get b processor with
       | Some gs => gs_resident gs
       | None => ∅
       end.

Lemma elem_of_region_mask r p : p ∈ region_mask r <-> rg_first r <= p < rg_outer r.
Proof.
  unfold region_mask, region_pages. rewrite elem_of_list_to_set, elem_of_seqZ. lia.
Qed.

Lemma elem_of_pages_in_region_mask r m p :
  p ∈ pages_in_region_mask r m <-> rg_first r <= p < rg_outer r /\ p ∈ m.
Proof.
  unfold pages_in_region_mask, region_pages.
  rewrite list_elem_of_filter, elem_of_seqZ. split; intros []; split; auto; lia.
Qed.

Lemma elem_of_ids_in_mask m x : x ∈ ids_in_mask m <-> x ∈ m.
Proof. unfold ids_in_mask. by rewrite merge_sort_Permutation, elem_of_elements. Qed.

(** ** Well-formed ranges *)

(** Page-aligned bounds inside the user address space. *)
Record range_bounds (r : va_range) : Prop := {
  rb_start : vr_start r mod PAGE_SIZE = 0;
  rb_end   : (vr_end r + 1) mod PAGE_SIZE = 0;
  rb_le    : 0 <= vr_start r <= vr_end r;
  rb_top   : vr_end r < 2 ^ 63;
}.

(** A well-formed managed range: one slot per block, each populated slot
    holding the block of its index. *)
Record range_wf (r : va_range) : Prop := {
  rw_bounds : range_bounds r;
  rw_slots  : Z.of_nat (length (vr_blocks r)) = uvm_va_range_num_blocks r;
  rw_block  : forall (i : nat) b, vr_blocks r !! i = Some (Some b) ->
                vb_start b = block_calc_start r (Z.of_nat i) /\
                vb_end b = block_calc_end r (Z.of_nat i);
}.

(** A well-formed space: ranges in increasing disjoint order, managed ones with
    their blocks in place. *)
Record va_space_wf (v : va_space) : Prop := {
  vw_sorted : StronglySorted (fun r r' => vr_end r < vr_start r') (vs_ranges v);
  vw_ranges : forall r, r ∈ vs_ranges v -> is_managed r = true -> range_wf r;
}.

Lemma align_down_le a : UVM_VA_BLOCK_ALIGN_DOWN a <= a.
Proof.
  unfold UVM_VA_BLOCK_ALIGN_DOWN, UVM_VA_BLOCK_SIZE.
  pose proof (Z.mod_pos_bound a (2 ^ 21)). lia.
Qed.

Lemma align_down_div a :
  UVM_VA_BLOCK_ALIGN_DOWN a = a / UVM_VA_BLOCK_SIZE * UVM_VA_BLOCK_SIZE.
Proof.
  unfold UVM_VA_BLOCK_ALIGN_DOWN, UVM_VA_BLOCK_SIZE.
  pose proof (Z.div_mod a (2 ^ 21)). lia.
Qed.

(** Number of blocks in terms of block numbers (address / 2MB). *)
Lemma num_blocks_eq r : range_bounds r ->
  uvm_va_range_num_blocks r
  = vr_end r / UVM_VA_BLOCK_SIZE - vr_start r / UVM_VA_BLOCK_SIZE + 1.
Proof.
  intros [Hs He Hle Htop]. unfold uvm_va_range_num_blocks, UVM_VA_BLOCK_ALIGN_UP.
  rewrite !align_down_div. unfold PAGE_SIZE, UVM_VA_BLOCK_SIZE in *.
  rewrite (u64_small (vr_end r + _)) by lia.
  assert ((vr_end r + (2 ^ 21 - 1)) / 2 ^ 21 = vr_end r / 2 ^ 21 + 1) as ->.
  { change (2 ^ 21) with 2097152 in *. zlia. }
  change (2 ^ 21) with 2097152 in *.
  rewrite u64_small; [|zlia].
  rewrite <- Z.mul_sub_distr_r, Z.div_mul by lia. lia.
Qed.

Lemma block_calc_start_eq r i : range_bounds r ->
  0 <= i < uvm_va_range_num_blocks r ->
  block_calc_start r i
  = Z.max (vr_start r) ((vr_start r / UVM_VA_BLOCK_SIZE + i) * UVM_VA_BLOCK_SIZE).
Proof.
  intros Hr Hi. rewrite num_blocks_eq in Hi by done. destruct Hr as [Hs He Hle Htop].
  unfold block_calc_start. rewrite align_down_div.
  unfold UVM_VA_BLOCK_SIZE in *. change (2 ^ 21) with 2097152 in *.
  rewrite (u64_small (i * _)), u64_small by zlia. f_equal; lia.
Qed.

Lemma block_calc_end_eq r i : range_bounds r ->
  0 <= i < uvm_va_range_num_blocks r ->
  block_calc_end r i
  = Z.min (vr_end r) ((vr_start r / UVM_VA_BLOCK_SIZE + i + 1) * UVM_VA_BLOCK_SIZE - 1).
Proof.
  intros Hr Hi. unfold block_calc_end. rewrite block_calc_start_eq by done.
  rewrite num_blocks_eq in Hi by done. destruct Hr as [Hs He Hle Htop].
  unfold UVM_VA_BLOCK_ALIGN_UP. rewrite align_down_div.
  unfold UVM_VA_BLOCK_SIZE in *. change (2 ^ 21) with 2097152 in *.
  set (m := Z.max _ _).
  assert (m / 2097152 = vr_start r / 2097152 + i) as Hm by (subst m; zlia).
  assert (0 <= m < 2 ^ 63) by (subst m; zlia).
  rewrite (u64_small (m + 1)), (u64_small (m + 1 + _)) by lia.
  assert ((m + 1 + (2097152 - 1)) / 2097152 = m / 2097152 + 1) as -> by zlia.
  rewrite u64_small by zlia. f_equal; lia.
Qed.

Ltac geom :=
  unfold UVM_VA_BLOCK_SIZE, PAGE_SIZE, PAGES_PER_UVM_VA_BLOCK in *;
  change (2 ^ 21) with 2097152 in *; zlia.

(** The blocks of a range, by index: consecutive, non-empty, covering the
    range, each within one 2MB-aligned chunk. *)
Lemma block_calc_start_0 r : range_bounds r -> block_calc_start r 0 = vr_start r.
Proof.
  intros Hr. rewrite block_calc_start_eq; [|done|].
  - destruct Hr. geom.
  - rewrite num_blocks_eq by done. destruct Hr. geom.
Qed.

Lemma block_calc_next r i : range_bounds r ->
  0 <= i -> i + 1 < uvm_va_range_num_blocks r ->
  block_calc_start r (i + 1) = block_calc_end r i + 1.
Proof.
  intros Hr H0 H1. rewrite block_calc_start_eq, block_calc_end_eq by (done || lia).
  rewrite num_blocks_eq in H1 by done. destruct Hr. geom.
Qed.

Lemma block_calc_end_last r : range_bounds r ->
  block_calc_end r (uvm_va_range_num_blocks r - 1) = vr_end r.
Proof.
  intros Hr. pose proof (num_blocks_eq r Hr) as Hn.
  rewrite block_calc_end_eq; [|done|]; destruct Hr; geom.
Qed.

Lemma block_calc_nonempty r i : range_bounds r ->
  0 <= i < uvm_va_range_num_blocks r ->
  block_calc_start r i <= block_calc_end r i /\
  block_calc_end r i - block_calc_start r i < UVM_VA_BLOCK_SIZE /\
  block_calc_start r i mod PAGE_SIZE = 0 /\
  (block_calc_end r i + 1) mod PAGE_SIZE = 0 /\
  block_calc_start r i / UVM_VA_BLOCK_SIZE = block_calc_end r i / UVM_VA_BLOCK_SIZE.
Proof.
  intros Hr Hi. rewrite block_calc_start_eq, block_calc_end_eq by done.
  rewrite num_blocks_eq in Hi by done. destruct Hr. repeat split; geom.
Qed.

Lemma block_index_calc r i addr : range_bounds r ->
  0 <= i < uvm_va_range_num_blocks r ->
  block_calc_start r i <= addr <= block_calc_end r i ->
  uvm_va_range_block_index r addr = i.
Proof.
  intros Hr Hi. rewrite block_calc_start_eq, block_calc_end_eq by done.
  rewrite num_blocks_eq in Hi by done. destruct Hr.
  unfold uvm_va_range_block_index. intros Ha. rewrite u64_small; geom.
Qed.

Lemma range_block_index r i b : range_wf r ->
  vr_blocks r !! i = Some (Some b) ->
  uvm_va_range_block_index r (vb_start b) = Z.of_nat i.
Proof.
  intros [Hb Hs Hk] Hi. destruct (Hk i b Hi) as [-> _].
  pose proof (lookup_lt_Some _ _ _ Hi).
  pose proof (block_calc_nonempty r (Z.of_nat i) Hb).
  apply block_index_calc; lia || done.
Qed.

Lemma blocks_from_take fuel r cur :
  range_wf r ->
  blocks_from fuel r cur
  = take fuel (omap id (drop (Z.to_nat (match cur with
        | Some b => uvm_va_range_block_index r (vb_start b) + 1
        | None => 0 end)) (vr_blocks r))).
Proof.
  intros Hwf. revert cur; induction fuel as [|fuel IH]; intros cur; [done|].
  cbn [blocks_from]. unfold uvm_va_range_block_next at 1.
  destruct (head _) as [b|] eqn:Eh; [|by apply head_None in Eh; rewrite Eh].
  apply head_cons in Eh as [rest Eh]. rewrite Eh. cbn [take].
  apply omap_id_cons in Eh as (j & Hj & ->).
  rewrite lookup_drop in Hj. rewrite IH. f_equal. f_equal.
  rewrite (range_block_index r _ b Hwf Hj), drop_drop. do 2 f_equal. lia.
Qed.

(** C19: Iterating with uvm_va_range_block_next from no block until it returns
    none visits exactly the populated blocks of a well-formed range, once each and
    in index order, and stops within one step per slot. *)
Lemma blocks_from_range_blocks r : range_wf r ->
  blocks_from (length (vr_blocks r)) r None = range_blocks r.
Proof.
  intros Hwf. rewrite blocks_from_take by done. cbn. rewrite drop_0.
  apply take_ge. unfold range_blocks.
  induction (vr_blocks r) as [|[b|] l IH]; cbn; lia.
Qed.

(** The slot of an address. *)
Lemma address_slot r addr :
  range_bounds r -> vr_start r <= addr <= vr_end r ->
  let i := uvm_va_range_block_index r addr in
  0 <= i < uvm_va_range_num_blocks r /\ block_calc_start r i <= addr <= block_calc_end r i.
Proof.
  intros Hr Ha i.
  assert (0 <= i < uvm_va_range_num_blocks r) as Hi.
  { rewrite num_blocks_eq by done. destruct Hr. subst i. unfold uvm_va_range_block_index.
    rewrite u64_small; geom. }
  split; [done|]. rewrite block_calc_start_eq, block_calc_end_eq by done. destruct Hr. subst i.
  unfold uvm_va_range_block_index in *. rewrite u64_small in * by geom. geom.
Qed.

(** Every address of a range lies in exactly one block slot, the one
    uvm_va_range_block_index computes; the index is within the number of blocks,
    and a block never crosses a 2MB boundary. *)
Theorem block_of_address r addr :
  range_bounds r -> vr_start r <= addr <= vr_end r ->
  let i := uvm_va_range_block_index r addr in
  0 <= i < uvm_va_range_num_blocks r /\
  block_calc_start r i <= addr <= block_calc_end r i /\
  block_calc_start r i / UVM_VA_BLOCK_SIZE = block_calc_end r i / UVM_VA_BLOCK_SIZE /\
  forall j, 0 <= j < uvm_va_range_num_blocks r ->
    block_calc_start r j <= addr <= block_calc_end r j -> j = i.
Proof.
  intros Hr Ha i. destruct (address_slot r addr Hr Ha) as [Hi Hia]. fold i in Hi, Hia.
  split; [done|]. split; [done|]. split; [by apply block_calc_nonempty|].
  intros j Hj Hin. symmetry. by apply block_index_calc.
Qed.
