(* ===== verification/Permissions.v ===== *)
(** Page permissions of a VA block ([uvm_va_block.c]): unmapping the CPU,
    mapping and revoking on a GPU or the CPU, and the per-mask drivers that
    PREPARE_ALL, FINALIZE and the fault path call.

    What is followed is the driver's own record of the mappings, the [pte_bits]
    masks and the [mapped] masks, and every status these functions return.  The
    hardware PTE writes are pushed by [block_gpu_map_*] and are not modelled. *)
From S2P Require Import Prelude Kernel VaBlock.

(** The facts about the VA space and the range these functions consult. *)
Record perm_cfg := mk_perm_cfg {
  pc_lite_gpus    : gset Z;         (* block_get_uvm_lite_gpus *)
  pc_can_access   : Z -> gset Z;    (* va_space->can_access[id] *)
  pc_gpu_va_space : gset Z;         (* GPUs with a GPU VA space registered *)
  pc_vma_ok       : bool;           (* uvm_va_range_vma_check *)
  pc_read_dup     : bool;           (* uvm_va_policy_is_read_duplicate *)
  pc_preferred    : option Z;       (* policy->preferred_location *)
  pc_force_sysmem : bool;           (* is_uvm_fault_force_sysmem_set *)
  pc_has_memory   : gset Z;         (* uvm_va_space_processor_has_memory *)
}.

(** PTE bits, from the weakest. *)
Inductive pte_bit := PTE_READ | PTE_WRITE | PTE_ATOMIC.

Definition get_gpu_pte_bit_index (p : uvm_prot) : option pte_bit :=
  match p with
  | UVM_PROT_READ_WRITE_ATOMIC => Some PTE_ATOMIC
  | UVM_PROT_READ_WRITE => Some PTE_WRITE
  | UVM_PROT_READ_ONLY => Some PTE_READ
  | UVM_PROT_NONE => None      (* UVM_ASSERT_MSG(false) *)
  end.

Definition gpu_pte_bits (gs : gpu_state) (p : uvm_prot) : gset Z :=
  match get_gpu_pte_bit_index p with
  | Some PTE_ATOMIC => gs_pte_atomic gs
  | Some PTE_WRITE => gs_pte_write gs
  | Some PTE_READ => gs_pte_read gs
  | None => ∅
  end.

(** [for (pte_bit = ATOMIC; pte_bit >= prot_pte_bit; pte_bit--) andnot]. *)
Definition gs_revoke (p : uvm_prot) (pages : gset Z) (gs : gpu_state) : gpu_state :=
  match get_gpu_pte_bit_index p with
  | Some PTE_ATOMIC => mk_gpu_state (gs_resident gs) (gs_phys gs)
      (gs_pte_read gs) (gs_pte_write gs) (gs_pte_atomic gs ∖ pages)
  | Some PTE_WRITE => mk_gpu_state (gs_resident gs) (gs_phys gs)
      (gs_pte_read gs) (gs_pte_write gs ∖ pages) (gs_pte_atomic gs ∖ pages)
  | Some PTE_READ => mk_gpu_state (gs_resident gs) (gs_phys gs)
      (gs_pte_read gs ∖ pages) (gs_pte_write gs ∖ pages) (gs_pte_atomic gs ∖ pages)
  | None => gs
  end.

(** [for (pte_bit = 0; pte_bit <= prot_pte_bit; pte_bit++) or]. *)
Definition gs_map (p : uvm_prot) (pages : gset Z) (gs : gpu_state) : gpu_state :=
  match get_gpu_pte_bit_index p with
  | Some PTE_ATOMIC => mk_gpu_state (gs_resident gs) (gs_phys gs)
      (gs_pte_read gs ∪ pages) (gs_pte_write gs ∪ pages) (gs_pte_atomic gs ∪ pages)
  | Some PTE_WRITE => mk_gpu_state (gs_resident gs) (gs_phys gs)
      (gs_pte_read gs ∪ pages) (gs_pte_write gs ∪ pages) (gs_pte_atomic gs)
  | Some PTE_READ => mk_gpu_state (gs_resident gs) (gs_phys gs)
      (gs_pte_read gs ∪ pages) (gs_pte_write gs) (gs_pte_atomic gs)
  | None => gs
  end.

Definition gpu_state_zero : gpu_state :=
  mk_gpu_state ∅ (fun _ => mk_phys 0 UVM_APERTURE_VID) ∅ ∅ ∅.

(** [uvm_page_mask_init_from_region]: NULL stands for the whole region. *)
Definition mask_from_region (r : region) (m : option (gset Z)) : gset Z :=
  match m with Some m => region_mask r ∩ m | None => region_mask r end.

(** [for_each_va_block_subregion_in_mask]: the maximal runs of set bits. *)
Fixpoint runs_of (ps : list Z) : list (list Z) :=
  match ps with
  | [] => []
  | p :: ps' =>
      match runs_of ps' with
      | (q :: r) :: rs => if q =? p + 1 then (p :: q :: r) :: rs
                          else [p] :: (q :: r) :: rs
      | rs => [p] :: rs
      end
  end.

Section Permissions.
Context `{E : Env}.

(** *** CPU *)

Definition block_has_valid_mapping_cpu (b : va_block) (pages : gset Z) : bool :=
  bool_decide (UVM_ID_CPU ∈ vb_mapped b) &&
  negb (bool_decide (vb_cpu_pte_read b ∩ pages = ∅)).

(** The loop body of [block_unmap_cpu]: one run of pages. *)
Definition unmap_run (num_mapped : nat) (st : va_block * bool) (run : list Z)
    : va_block * bool :=
  let '(b, unmapped) := st in
  let sub : gset Z := list_to_set run in
  if negb (block_has_valid_mapping_cpu b sub) then (b, unmapped)
  else
    let b := vb_set_cpu_pte (vb_cpu_pte_read b ∖ sub) (vb_cpu_pte_write b ∖ sub) b in
    let b := if Nat.eqb num_mapped 1
             then vb_set_mapped (vb_mapped b) (vb_maybe_mapped b ∖ sub) b else b in
    (b, true).

Definition block_unmap_cpu (b : va_block) (r : region) (unmap_pages : option (gset Z))
    : va_block :=
  if negb (block_has_valid_mapping_cpu b (region_mask r)) ||
     match unmap_pages with
     | Some m => bool_decide (m ∩ vb_cpu_pte_read b = ∅)
     | None => false
     end
  then b
  else
    let num_mapped := size (vb_mapped b) in
    let '(b', unmapped) :=
      fold_left (unmap_run num_mapped)
        (runs_of (pages_in_region_mask r (default (region_mask r) unmap_pages)))
        (b, false) in
    if negb unmapped then b'
    else if bool_decide (vb_cpu_pte_read b' = ∅)
    then vb_set_mapped (vb_mapped b' ∖ {[UVM_ID_CPU]}) (vb_maybe_mapped b') b'
    else b'.

(** [block_map_cpu_to]: pages are inserted one by one; after an error only
    those inserted are recorded. *)
Definition block_map_cpu_to (b : va_block) (resident_id : Z) (r : region)
    (map_page_mask : gset Z) (new_prot : uvm_prot)
    : K (nv_status * (va_block * gset Z)) :=
  let pages_to_map := map_page_mask ∩ uvm_va_block_resident_mask_get b resident_id in
  if bool_decide (pages_to_map = ∅) then kret (NV_OK, (b, map_page_mask))
  else
    st ← ext_status;                      (* block_pre_populate_pde1_all_gpus *)
    if negb (is_ok st) then kret (st, (b, map_page_mask))
    else
      '(ex, (b, mapped)) ←
        kfold (fun '(b, mapped) (p : Z) =>
                 st ← ext_status;          (* block_map_cpu_page_to *)
                 if negb (is_ok st) then kret (Some st, (b, mapped))
                 else kret (None, (vb_set_mapped (vb_mapped b ∪ {[UVM_ID_CPU]})
                                     (vb_maybe_mapped b) b, mapped ∪ {[p]})))
          (b, ∅) (pages_in_region_mask r pages_to_map);
      let st := loop_status ex in
      let pages : gset Z := if is_ok st then pages_to_map else mapped in
      let w := match new_prot with
               | UVM_PROT_READ_WRITE | UVM_PROT_READ_WRITE_ATOMIC =>
                   vb_cpu_pte_write b ∪ pages
               | _ => vb_cpu_pte_write b
               end in
      let b := vb_set_cpu_pte (vb_cpu_pte_read b ∪ pages) w b in
      let b := vb_set_mapped (vb_mapped b) (vb_maybe_mapped b ∪ pages) b in
      kret (st, (b, map_page_mask ∖ pages)).

(** *** Mapping on a GPU *)

Definition block_map_gpu_to (cfg : perm_cfg) (b : va_block) (gpu resident_id : Z)
    (map_page_mask : gset Z) (new_prot : uvm_prot)
    : K (nv_status * (va_block * gset Z)) :=
  let pages_to_map := map_page_mask ∩ uvm_va_block_resident_mask_get b resident_id in
  if bool_decide (pages_to_map = ∅) then kret (NV_OK, (b, map_page_mask))
  else
    st ← ext_status;                      (* block_alloc_ptes_new_state *)
    if negb (is_ok st) then kret (st, (b, map_page_mask))
    else
      st ← ext_status;                    (* uvm_push_begin_acquire *)
      if negb (is_ok st) then kret (st, (b, map_page_mask))
      else
        let gs := default gpu_state_zero (uvm_va_block_gpu_state_get b gpu) in
        let b := vb_set_gpu gpu (gs_map new_prot pages_to_map gs) b in
        let maybe := if bool_decide (gpu ∈ pc_lite_gpus cfg) then vb_maybe_mapped b
                     else vb_maybe_mapped b ∪ pages_to_map in
        let b := vb_set_mapped (vb_mapped b ∪ {[gpu]}) maybe b in
        st ← ext_status;                  (* uvm_tracker_add_push_safe *)
        kret (st, (b, map_page_mask ∖ pages_to_map)).

(** Destinations a processor may be mapped to. *)
Definition map_get_allowed_destinations (cfg : perm_cfg) (b : va_block) (id : Z) : gset Z :=
  let clamp (m : gset Z) : gset Z := m ∩ vb_resident b ∩ pc_can_access cfg id in
  if bool_decide (id ∈ pc_lite_gpus cfg) then
    clamp (match pc_preferred cfg with Some p => {[p]} | None => ∅ end)
  else if (pc_read_dup cfg ||
           (bool_decide (pc_preferred cfg = Some id) && negb (pc_force_sysmem cfg))) &&
          bool_decide (id ∈ pc_has_memory cfg) then
    clamp {[id]}
  else vb_resident b ∩ pc_can_access cfg id.

(** [block_gpu_state_get_alloc]: two allocations and the mapping of the CPU
    pages; undone on failure. *)
Definition block_gpu_state_get_alloc (b : va_block) (gpu : Z) : K (option va_block) :=
  match uvm_va_block_gpu_state_get b gpu with
  | Some _ => kret (Some b)
  | None =>
      p ← kmalloc;
      if negb p then kret None
      else
        c ← kmalloc;
        if negb c then kfree c;; kfree p;; kret None
        else
          st ← ext_status;                (* block_gpu_map_phys_all_cpu_pages *)
          if negb (is_ok st) then kfree c;; kfree p;; kret None
          else kret (Some (vb_set_gpu gpu gpu_state_zero b))
  end.

(** The part of [uvm_va_block_map] past the choice of [pte_mask]. *)
Definition block_map_pages (cfg : perm_cfg) (b : va_block) (id : Z) (r : region)
    (map_page_mask : option (gset Z)) (new_prot : uvm_prot) (pte_mask : gset Z)
    : K (nv_status * va_block) :=
  let running := mask_from_region r map_page_mask ∖ pte_mask in
  if bool_decide (running = ∅) then kret (NV_OK, b)
  else
    m ← kmalloc;                        (* uvm_processor_mask_cache_alloc *)
    if negb m then kret (NV_ERR_NO_MEMORY, b)
    else
      n ← kmalloc;                      (* allowed_nid_destinations *)
      if negb n then kfree m;; kret (NV_ERR_NO_MEMORY, b)
      else
        '(ex, (b', _)) ←
          kfold (fun '(b, running) resident_id =>
                   '(st, (b, running)) ←
                     (if id =? UVM_ID_CPU
                      then block_map_cpu_to b resident_id r running new_prot
                      else block_map_gpu_to cfg b id resident_id running new_prot);
                   if negb (is_ok st) then kret (Some st, (b, running))
                   else if bool_decide (running ∩ region_mask r = ∅)
                   then kret (Some NV_OK, (b, running))
                   else kret (None, (b, running)))
            (b, running)
            (env_closest id (map_get_allowed_destinations cfg b id));
        kfree m;; kfree n;;
        kret (loop_status ex, b').

Definition uvm_va_block_map (cfg : perm_cfg) (b : va_block) (id : Z) (r : region)
    (map_page_mask : option (gset Z)) (new_prot : uvm_prot)
    : K (nv_status * va_block) :=
  if id =? UVM_ID_CPU then
    if negb (pc_vma_ok cfg) then kret (NV_OK, b)
    else block_map_pages cfg b id r map_page_mask new_prot
           (match new_prot with
               | UVM_PROT_READ_WRITE | UVM_PROT_READ_WRITE_ATOMIC => vb_cpu_pte_write b
               | _ => vb_cpu_pte_read b
               end)
  else if negb (bool_decide (id ∈ pc_gpu_va_space cfg)) then kret (NV_OK, b)
  else
    ob ← block_gpu_state_get_alloc b id;
    match ob with
    | None => kret (NV_ERR_NO_MEMORY, b)
    | Some b =>
        block_map_pages cfg b id r map_page_mask new_prot
             (match uvm_va_block_gpu_state_get b id with
              | Some gs => gpu_pte_bits gs new_prot
              | None => ∅
              end)
    end.
End Permissions.

Section Revocation.
Context `{E : Env}.

(** [block_revoke_cpu_write]: unmap, then map again read-only. *)
Definition block_revoke_cpu_write (cfg : perm_cfg) (b : va_block) (r : region)
    (revoke_page_mask : gset Z) : K (nv_status * va_block) :=
  let b := block_unmap_cpu b r (Some revoke_page_mask) in
  uvm_va_block_map cfg b UVM_ID_CPU r (Some revoke_page_mask) UVM_PROT_READ_ONLY.

Definition block_revoke_prot_gpu_to (b : va_block) (gpu resident_id : Z)
    (revoke_page_mask : gset Z) (prot_to_revoke : uvm_prot)
    : K (nv_status * (va_block * gset Z)) :=
  let pages := revoke_page_mask ∩ uvm_va_block_resident_mask_get b resident_id in
  if bool_decide (pages = ∅) then kret (NV_OK, (b, revoke_page_mask))
  else
    st ← ext_status;                      (* block_alloc_ptes_new_state *)
    if negb (is_ok st) then kret (st, (b, revoke_page_mask))
    else
      st ← ext_status;                    (* uvm_push_begin_acquire *)
      if negb (is_ok st) then kret (st, (b, revoke_page_mask))
      else
        let gs := default gpu_state_zero (uvm_va_block_gpu_state_get b gpu) in
        let b := vb_set_gpu gpu (gs_revoke prot_to_revoke pages gs) b in
        st ← ext_status;                  (* uvm_tracker_add_push_safe *)
        kret (st, (b, revoke_page_mask ∖ pages)).

Definition uvm_va_block_revoke_prot (cfg : perm_cfg) (b : va_block) (id : Z) (r : region)
    (revoke_page_mask : option (gset Z)) (prot_to_revoke : uvm_prot)
    : K (nv_status * va_block) :=
  if id =? UVM_ID_CPU then
    if bool_decide (prot_to_revoke = UVM_PROT_READ_WRITE_ATOMIC) then kret (NV_OK, b)
    else
      let running := mask_from_region r revoke_page_mask ∩ vb_cpu_pte_write b in
      if bool_decide (running = ∅) then kret (NV_OK, b)
      else block_revoke_cpu_write cfg b r running
  else if negb (bool_decide (id ∈ vb_mapped b)) then kret (NV_OK, b)
  else
    let gs := default gpu_state_zero (uvm_va_block_gpu_state_get b id) in
    let running := mask_from_region r revoke_page_mask ∩ gpu_pte_bits gs prot_to_revoke in
    if bool_decide (running = ∅) then kret (NV_OK, b)
    else
      m ← kmalloc;                        (* uvm_processor_mask_cache_alloc *)
      if negb m then kret (NV_ERR_NO_MEMORY, b)
      else
        '(ex, (b', _)) ←
          kfold (fun '(b, running) resident_id =>
                   '(st, (b, running)) ←
                     block_revoke_prot_gpu_to b id resident_id running prot_to_revoke;
                   if negb (is_ok st) then kret (Some st, (b, running))
                   else if bool_decide (running ∩ region_mask r = ∅)
                   then kret (Some NV_OK, (b, running))
                   else kret (None, (b, running)))
            (b, running)
            (env_closest id (vb_resident b));
        kfree m;;
        kret (loop_status ex, b').

(** The [*_mask] drivers: processors in increasing id; the local tracker is
    added to the block's whatever happened. *)
Definition for_processors (f : va_block -> Z -> K (nv_status * va_block))
    (b : va_block) (mask : gset Z) : K (nv_status * va_block) :=
  '(ex, b) ←
    kfold (fun b id =>
             '(st, b) ← f b id;
             kret (leave_on_error st, b))
      b (ids_in_mask mask);
  tracker_status ← ext_status;            (* uvm_tracker_add_tracker_safe *)
  let st := loop_status ex in
  kret (if is_ok st then tracker_status else st, b).

Definition uvm_va_block_map_mask (cfg : perm_cfg) (b : va_block) (map_processor_mask : gset Z)
    (r : region) (m : option (gset Z)) (new_prot : uvm_prot) : K (nv_status * va_block) :=
  for_processors (fun b id => uvm_va_block_map cfg b id r m new_prot) b map_processor_mask.

Definition uvm_va_block_revoke_prot_mask (cfg : perm_cfg) (b : va_block)
    (revoke_processor_mask : gset Z) (r : region) (m : option (gset Z))
    (prot_to_revoke : uvm_prot) : K (nv_status * va_block) :=
  for_processors (fun b id => uvm_va_block_revoke_prot cfg b id r m prot_to_revoke) b
    revoke_processor_mask.
End Revocation.

(** ** The permission invariant *)

(** PTE bits are nested (atomic implies write implies read), and a processor
    outside [mapped] has no bits at all. *)
Record gs_wf (gs : gpu_state) : Prop := {
  gw_aw : gs_pte_atomic gs ⊆ gs_pte_write gs;
  gw_wr : gs_pte_write gs ⊆ gs_pte_read gs;
}.

Record perm_wf (b : va_block) : Prop := {
  pw_gpu    : forall g gs, vb_gpus b !! g = Some gs -> gs_wf gs;
  pw_mapped : forall g gs, vb_gpus b !! g = Some gs -> 0 < g ->
                  g ∉ vb_mapped b -> gs_pte_read gs = ∅;
  pw_cpu_mapped : UVM_ID_CPU ∉ vb_mapped b -> vb_cpu_pte_read b = ∅;
  pw_cpu    : vb_cpu_pte_write b ⊆ vb_cpu_pte_read b;
  pw_state  : forall g, 0 < g -> g ∈ vb_mapped b -> is_Some (vb_gpus b !! g);
}.

(** What the permission functions never change. *)
Record same_pages (b b' : va_block) : Prop := {
  sp_start    : vb_start b' = vb_start b;
  sp_end      : vb_end b' = vb_end b;
  sp_cpu_res  : vb_cpu_resident b' = vb_cpu_resident b;
  sp_cpu_page : vb_cpu_page b' = vb_cpu_page b;
  sp_resident : vb_resident b' = vb_resident b;
  sp_dirty    : vb_dirty b' = vb_dirty b;
  sp_tracking : vb_tracking b' = vb_tracking b;
  sp_gpu_res  : forall g, uvm_va_block_resident_mask_get b' g = uvm_va_block_resident_mask_get b g;
}.

#[export] Instance same_pages_preorder : PreOrder same_pages.
Proof.
  split; [by constructor|].
  intros b1 b2 b3 [] []. constructor; try congruence.
Qed.

Lemma gs_wf_zero : gs_wf gpu_state_zero.
Proof. by constructor. Qed.

Lemma gs_wf_revoke p pages gs : gs_wf gs -> gs_wf (gs_revoke p pages gs).
Proof. intros [H1 H2]; destruct p; constructor; cbn; try done; set_solver. Qed.

Lemma gs_wf_map p pages gs : gs_wf gs -> gs_wf (gs_map p pages gs).
Proof. intros [H1 H2]; destruct p; constructor; cbn; try done; set_solver. Qed.

Lemma gs_revoke_resident p pages gs : gs_resident (gs_revoke p pages gs) = gs_resident gs.
Proof. by destruct p. Qed.
Lemma gs_map_resident p pages gs : gs_resident (gs_map p pages gs) = gs_resident gs.
Proof. by destruct p. Qed.
#[export] Hint Resolve gs_wf_zero gs_wf_revoke gs_wf_map : flash_perm.

Lemma resident_set_gpu b g gs h :
  gs_resident gs = gs_resident (default gpu_state_zero (vb_gpus b !! g)) ->
  uvm_va_block_resident_mask_get (vb_set_gpu g gs b) h = uvm_va_block_resident_mask_get b h.
Proof.
  intros Hr. unfold uvm_va_block_resident_mask_get, uvm_va_block_gpu_state_get; cbn.
  destruct (h =? UVM_ID_CPU); [done|].
  destruct (decide (g = h)) as [<-|Hne].
  - rewrite lookup_insert_eq, Hr. by destruct (vb_gpus b !! g).
  - by rewrite lookup_insert_ne.
Qed.

Lemma same_pages_set_gpu b g gs :
  gs_resident gs = gs_resident (default gpu_state_zero (vb_gpus b !! g)) ->
  same_pages b (vb_set_gpu g gs b).
Proof. intros; constructor; try done. intros; by apply resident_set_gpu. Qed.

Lemma same_pages_set_mapped b m mm : same_pages b (vb_set_mapped m mm b).
Proof. by constructor. Qed.
Lemma same_pages_set_cpu b r w : same_pages b (vb_set_cpu_pte r w b).
Proof. by constructor. Qed.

(** *** Revocation *)

Lemma gs_revoke_empty p gs : gs_revoke p ∅ gs = gs.
Proof. destruct p, gs; cbn; rewrite ?difference_empty_L; done. Qed.

Lemma gs_revoke_revoke p R1 R2 gs :
  gs_revoke p R1 (gs_revoke p R2 gs) = gs_revoke p (R2 ∪ R1) gs.
Proof. destruct p, gs; cbn; rewrite ?difference_difference_l_L; done. Qed.

Lemma vb_set_gpu_id b g gs : vb_gpus b !! g = Some gs -> vb_set_gpu g gs b = b.
Proof. intros H. destruct b; unfold vb_set_gpu; cbn in *. by rewrite insert_id. Qed.

Lemma vb_set_gpu_gpu b g gs gs' : vb_set_gpu g gs' (vb_set_gpu g gs b) = vb_set_gpu g gs' b.
Proof. unfold vb_set_gpu; cbn. by rewrite insert_insert_eq. Qed.

(** [b] with the pages [R] revoked from GPU [g], whose state was [gs]. *)
Definition revoked (b : va_block) (g : Z) (p : uvm_prot) (R : gset Z) (gs : gpu_state) : va_block :=
  vb_set_gpu g (gs_revoke p R gs) b.

Lemma revoked_resident b g p R gs h : vb_gpus b !! g = Some gs ->
  uvm_va_block_resident_mask_get (revoked b g p R gs) h = uvm_va_block_resident_mask_get b h.
Proof. intros H. apply resident_set_gpu. by rewrite H, gs_revoke_resident. Qed.

Section RevokeSpec.
Context `{E : Env}.

Lemma revoke_to_spec b g gs res p running0 R s :
  vb_gpus b !! g = Some gs ->
  wp (block_revoke_prot_gpu_to (revoked b g p R gs) g res (running0 ∖ R) p)
    (fun '(st, (b', m')) _ => exists R',
       R ⊆ R' /\ R' ⊆ R ∪ running0 /\ b' = revoked b g p R' gs /\ m' = running0 ∖ R' /\
       (st = NV_OK -> running0 ∩ uvm_va_block_resident_mask_get b res ⊆ R')) s.
Proof.
  intros Hg. unfold block_revoke_prot_gpu_to. rewrite revoked_resident by done.
  set (pages := _ ∩ _). wsteps.
  - exists R; repeat split; try set_solver.
  - exists R; repeat split; try set_solver.
  - exists R; repeat split; try set_solver.
  - exists (R ∪ pages); repeat split; subst pages; try set_solver.
    + unfold revoked, uvm_va_block_gpu_state_get at 1; cbn.
      rewrite lookup_insert_eq; cbn. by rewrite vb_set_gpu_gpu, gs_revoke_revoke.
    + intros _ x Hx. destruct (decide (x ∈ R)); set_solver.
Qed.

(** The loop over destination processors that mapping and revocation share:
    [St R b] says that [b] is the block [b0] with the pages [R] done. *)
Lemma dest_loop_spec (body : va_block -> Z -> gset Z -> K (nv_status * (va_block * gset Z)))
    (St : gset Z -> va_block -> Prop) b0 running r order s :
  running ⊆ region_mask r -> St ∅ b0 ->
  (forall b R res s, R ⊆ running -> St R b ->
     wp (body b res (running ∖ R))
       (fun '(st, (b', m')) _ => exists R', R ⊆ R' /\ R' ⊆ R ∪ running /\ St R' b' /\
          m' = running ∖ R' /\
          (st = NV_OK -> running ∩ uvm_va_block_resident_mask_get b0 res ⊆ R')) s) ->
  wp (kfold (fun '(b, running) resident_id =>
               '(st, (b, running)) ← body b resident_id running;
               if negb (is_ok st) then kret (Some st, (b, running))
               else if bool_decide (running ∩ region_mask r = ∅)
               then kret (Some NV_OK, (b, running))
               else kret (None, (b, running))) (b0, running) order)
    (fun '(ex, (b', _)) _ => exists R, R ⊆ running /\ St R b' /\
       (loop_status ex = NV_OK -> forall res, res ∈ order ->
          running ∩ uvm_va_block_resident_mask_get b0 res ⊆ R)) s.
Proof.
  intros Hr H0 Hbody. eapply wp_mono; [apply (wp_kfold_prefix
    (fun ys l _ => exists R, R ⊆ running /\ St R (fst l) /\ snd l = running ∖ R /\
       forall res, res ∈ ys -> running ∩ uvm_va_block_resident_mask_get b0 res ⊆ R)
    (fun st l _ => exists R, R ⊆ running /\ St R (fst l) /\ (st = NV_OK -> running ⊆ R)))|].
  - intros ys res zs [b m] s' _ (R & HR & HS & Hm & Hys). cbn in HS, Hm; subst m.
    apply wp_bind. eapply wp_mono; [by apply Hbody|].
    intros [st [b' m']] s'' (R' & H1 & H2 & H3 & -> & H5). wsteps.
    + exists R'. split; [set_solver|]. split; [done|]. by intros ->.
    + exists R'. split; [set_solver|]. split; [done|]. intros _. set_solver.
    + exists R'. split; [set_solver|]. split; [done|]. split; [done|]. set_solver.
  - exists ∅. split; [set_solver|]. split; [done|]. cbn. set_solver.
  - intros [[st|] [b' m']] s'; cbn.
    + intros (R & HR & HS & H). exists R. split; [done|]. split; [done|]. set_solver.
    + intros (R & HR & HS & _ & H). by exists R.
Qed.

(** Revocation on one GPU. *)
Lemma revoke_prot_gpu_spec cfg b g gs r m p s :
  g <> UVM_ID_CPU -> vb_gpus b !! g = Some gs -> g ∈ vb_mapped b ->
  wp (uvm_va_block_revoke_prot cfg b g r m p)
    (fun '(st, b') _ => exists R, R ⊆ mask_from_region r m /\ b' = revoked b g p R gs /\
       (st = NV_OK -> forall res, res ∈ vb_resident b ->
          mask_from_region r m ∩ gpu_pte_bits gs p ∩ uvm_va_block_resident_mask_get b res
          ⊆ R)) s.
Proof.
  intros H0 Hg Hm. unfold uvm_va_block_revoke_prot.
  apply Z.eqb_neq in H0. rewrite H0, bool_decide_eq_true_2 by done.
  cbn [negb]. unfold uvm_va_block_gpu_state_get. rewrite Hg. cbn [default].
  set (running := _ ∩ _). assert (mask_from_region r m ⊆ region_mask r).
  { destruct m; cbn; set_solver. }
  assert (revoked b g p ∅ gs = b) as Hid.
  { unfold revoked. by rewrite gs_revoke_empty, vb_set_gpu_id. }
  apply wp_if; intros Hrun; bprop.
  { apply wp_ret; cbn. exists ∅. rewrite Hid. repeat split; set_solver. }
  apply wp_bind, wp_any; intros k s1. apply wp_if; intros Hk.
  { apply wp_ret; cbn. exists ∅. rewrite Hid. repeat split; set_solver. }
  apply wp_bind. eapply wp_mono.
  { apply (dest_loop_spec (fun b res m => block_revoke_prot_gpu_to b g res m p)
      (fun R b' => b' = revoked b g p R gs)); [subst running; set_solver|done|].
    intros b' R res s' _ ->. by apply revoke_to_spec. }
  intros [ex [b' m']] s' (R & HR & -> & HR2). wsteps.
  exists R. split; [subst running; set_solver|]. split; [done|].
  intros Hok res Hres. apply HR2; [done|]. by apply env_closest_elem.
Qed.
End RevokeSpec.

(** *** CPU steps: what unmapping and mapping the CPU may change *)

Record cpu_step (b b' : va_block) : Prop := {
  cs_pages  : same_pages b b';
  cs_gpus   : vb_gpus b' = vb_gpus b;
  cs_mapped : forall g, g <> UVM_ID_CPU -> g ∈ vb_mapped b' <-> g ∈ vb_mapped b;
  cs_wf     : perm_wf b -> perm_wf b';
}.

#[export] Instance cpu_step_preorder : PreOrder cpu_step.
Proof.
  split; [by constructor|]. intros b1 b2 b3 [] []. constructor; eauto; try congruence.
  - by etransitivity.
  - intros g Hg. rewrite cs_mapped1, cs_mapped0 by done. done.
Qed.

(** Changes of the CPU bits that keep the masks nested and [mapped] truthful. *)
Lemma cpu_step_set b r w mapped maybe :
  (vb_cpu_pte_write b ⊆ vb_cpu_pte_read b -> w ⊆ r) ->
  (forall g, g <> UVM_ID_CPU -> g ∈ mapped <-> g ∈ vb_mapped b) ->
  (perm_wf b -> UVM_ID_CPU ∉ mapped -> r = ∅) ->
  cpu_step b (vb_set_mapped mapped maybe (vb_set_cpu_pte r w b)).
Proof.
  intros Hw Hm H0. constructor; cbn; [by constructor|done|done|].
  intros Hwf. constructor; cbn; [by apply Hwf| | |by apply Hw, Hwf|].
  - intros g gs Hg Hpos Hn. apply (pw_mapped _ Hwf g gs Hg Hpos).
    rewrite <- Hm; [done|unfold UVM_ID_CPU; lia].
  - by apply H0.
  - intros g Hg. rewrite Hm by (unfold UVM_ID_CPU; lia). by apply Hwf.
Qed.

Lemma runs_of_concat l : concat (runs_of l) = l.
Proof.
  induction l as [|p l IH]; [done|]. cbn [runs_of].
  destruct (runs_of l) as [|[|q r] rs] eqn:Hr; cbn in *; [by subst| |].
  - by rewrite IH.
  - destruct (q =? p + 1); cbn; by rewrite IH.
Qed.


Lemma unmap_run_step n b u run :
  perm_wf b ->
  let '(b', u') := unmap_run n (b, u) run in
  cpu_step b b' /\ vb_mapped b' = vb_mapped b /\ (u = true -> u' = true) /\
  (u' = false -> b' = b) /\
  vb_cpu_pte_read b' = vb_cpu_pte_read b ∖ list_to_set run /\
  vb_cpu_pte_write b' = vb_cpu_pte_write b ∖ list_to_set run.
Proof.
  intros Hwf. unfold unmap_run, block_has_valid_mapping_cpu.
  destruct (bool_decide (UVM_ID_CPU ∈ vb_mapped b)) eqn:H0; cbn [andb negb]; bprop.
  2:{ pose proof (pw_cpu_mapped _ Hwf H0) as Hr. pose proof (pw_cpu _ Hwf).
      split; [done|]. repeat split; auto; set_solver. }
  destruct (bool_decide _) eqn:H1; cbn [negb]; bprop.
  { pose proof (pw_cpu _ Hwf). split; [done|]. repeat split; auto; set_solver. }
  set (b1 := vb_set_cpu_pte _ _ b).
  assert (forall maybe, cpu_step b (vb_set_mapped (vb_mapped b) maybe b1)) as H.
  { intros. apply cpu_step_set; [set_solver|done|done]. }
  destruct (Nat.eqb n 1); [split; [apply H|]|split; [apply (H (vb_maybe_mapped b))|]];
    repeat split; done.
Qed.

Lemma unmap_runs_step n runs b u :
  perm_wf b ->
  let '(b', u') := fold_left (unmap_run n) runs (b, u) in
  cpu_step b b' /\ vb_mapped b' = vb_mapped b /\ (u = true -> u' = true) /\
  (u' = false -> b' = b) /\
  vb_cpu_pte_read b' = vb_cpu_pte_read b ∖ list_to_set (concat runs) /\
  vb_cpu_pte_write b' = vb_cpu_pte_write b ∖ list_to_set (concat runs).
Proof.
  revert b u; induction runs as [|run runs IH]; intros b u Hwf.
  { cbn. split; [done|]. repeat split; auto; set_solver. }
  cbn [fold_left]. pose proof (unmap_run_step n b u run Hwf) as H.
  destruct (unmap_run n (b, u) run) as [b1 u1]. destruct H as (H1 & H2 & H3 & H4 & H5 & H6).
  pose proof (IH b1 u1 (cs_wf _ _ H1 Hwf)) as HI.
  destruct (fold_left _ runs (b1, u1)) as [b2 u2]. destruct HI as (G1 & G2 & G3 & G4 & G5 & G6).
  split; [by etransitivity|]. split; [congruence|]. split; [auto|].
  split. { intros Hu. rewrite G4 by done. apply H4. destruct u1; [|done]. by rewrite G3 in Hu. }
  cbn [concat]. rewrite list_to_set_app_L, G5, G6, H5, H6.
  by rewrite !difference_difference_l_L.
Qed.

(** Unmapping the CPU removes both its bits from the pages, and only them. *)
Lemma block_unmap_cpu_spec b r m :
  perm_wf b ->
  cpu_step b (block_unmap_cpu b r m) /\
  vb_cpu_pte_read (block_unmap_cpu b r m) = vb_cpu_pte_read b ∖ mask_from_region r m /\
  vb_cpu_pte_write (block_unmap_cpu b r m) = vb_cpu_pte_write b ∖ mask_from_region r m.
Proof.
  intros Hwf. unfold block_unmap_cpu. pose proof (pw_cpu _ Hwf) as Hcpu.
  assert (list_to_set (concat (runs_of (pages_in_region_mask r (default (region_mask r) m))))
          = mask_from_region r m) as Hruns.
  { rewrite runs_of_concat. apply set_eq; intros x.
    rewrite elem_of_list_to_set, elem_of_pages_in_region_mask.
    destruct m; cbn; rewrite ?elem_of_intersection, elem_of_region_mask; tauto. }
  destruct (negb _ || _) eqn:He.
  - split; [done|].
    assert (vb_cpu_pte_read b ∩ mask_from_region r m = ∅) as Hi; [|set_solver].
    apply orb_true_iff in He as [He|He]; bprop.
    + unfold block_has_valid_mapping_cpu in He. apply andb_false_iff in He as [He|He]; bprop.
      * rewrite (pw_cpu_mapped _ Hwf He). set_solver.
      * destruct m; cbn; set_solver.
    + destruct m; [|done]; bprop. cbn. set_solver.
  - pose proof (unmap_runs_step (size (vb_mapped b))
      (runs_of (pages_in_region_mask r (default (region_mask r) m))) b false Hwf) as H.
    destruct (fold_left _ _ (b, false)) as [b' u]. rewrite Hruns in H.
    destruct H as (H1 & H2 & _ & H4 & H5 & H6).
    destruct u; cbn [negb]; [|by rewrite H4 in * by done].
    destruct (bool_decide (vb_cpu_pte_read b' = ∅)) eqn:Hr; bprop; [|done].
    split; [|done]. etransitivity; [done|].
    assert (b' = vb_set_cpu_pte (vb_cpu_pte_read b') (vb_cpu_pte_write b') b') as Hb
      by by destruct b'.
    rewrite Hb at 2. apply cpu_step_set; [done| |done].
    intros g Hg. set_solver.
Qed.

Section CpuMap.
Context `{E : Env}.

Definition writable (p : uvm_prot) : bool :=
  match p with UVM_PROT_READ_WRITE | UVM_PROT_READ_WRITE_ATOMIC => true | _ => false end.

(** The block while its CPU pages are being inserted one by one. *)
Definition cpu_mapping (b : va_block) (pg : gset Z) (l : va_block * gset Z) : Prop :=
  exists mp, fst l = vb_set_mapped mp (vb_maybe_mapped b) b /\
    (forall g, g <> UVM_ID_CPU -> g ∈ mp <-> g ∈ vb_mapped b) /\ vb_mapped b ⊆ mp /\
    snd l ⊆ pg /\ (snd l <> ∅ -> UVM_ID_CPU ∈ mp).

Lemma map_cpu_loop b r pg s :
  pg ⊆ region_mask r -> pg <> ∅ ->
  wp (kfold (fun '(b, mapped) (p : Z) =>
               st ← ext_status;
               if negb (is_ok st) then kret (Some st, (b, mapped))
               else kret (None, (vb_set_mapped (vb_mapped b ∪ {[UVM_ID_CPU]})
                                   (vb_maybe_mapped b) b, mapped ∪ {[p]})))
        (b, ∅) (pages_in_region_mask r pg))
    (fun '(ex, (b', mapped)) _ =>
       cpu_mapping b pg (b', if is_ok (loop_status ex) then pg else mapped)) s.
Proof.
  intros Hr Hne. eapply wp_mono.
  { apply (wp_kfold_prefix
      (fun ys l _ => cpu_mapping b pg l /\ (ys <> [] -> UVM_ID_CPU ∈ vb_mapped (fst l)))
      (fun st l _ => st <> NV_OK /\ cpu_mapping b pg l)).
    - intros ys x zs [b' mapped] s' Heq [(mp & Hb & Hg & Hm & Hp & Hy) HQ]. cbn in Hb; subst b'.
      wsteps; [split; [done|]; exists mp; done|].
      assert (x ∈ pg).
      { assert (x ∈ pages_in_region_mask r pg) as Hx by (rewrite Heq; set_solver).
        by apply elem_of_pages_in_region_mask in Hx as []. }
      split; [|set_solver]. exists (mp ∪ {[UVM_ID_CPU]}). split; [done|]. set_solver.
    - split; [|done]. exists (vb_mapped b). split; [by destruct b|]. set_solver. }
  intros [[st|] [b' mapped]] s2; cbn.
  - intros [Hst HQ]. by apply is_ok_false in Hst as ->.
  - intros [(mp & Hb & Hg & Hm & Hp & Hy) HQ]. cbn in Hb; subst b'.
    exists mp. split; [done|]. split; [done|]. split; [done|]. split; [done|].
    intros _. apply HQ. intros Hnil.
    apply set_choose_L in Hne as [x Hx].
    assert (x ∈ pages_in_region_mask r pg) as Hx'.
    { apply elem_of_pages_in_region_mask. split; [apply elem_of_region_mask|]; set_solver. }
    rewrite Hnil in Hx'. set_solver.
Qed.

(** Mapping the CPU to the pages resident on one processor. *)
Definition cpu_mapped_to (b : va_block) (mask pg : gset Z) (p : uvm_prot)
    (st : nv_status) (b' : va_block) (m' : gset Z) : Prop :=
  cpu_step b b' /\ exists pages, pages ⊆ mask /\ m' = mask ∖ pages /\
    vb_cpu_pte_read b' = vb_cpu_pte_read b ∪ pages /\
    vb_cpu_pte_write b' = vb_cpu_pte_write b ∪ (if writable p then pages else ∅) /\
    (st = NV_OK -> pg ⊆ pages).

Lemma cpu_mapped_to_none b mask pg p st :
  (st = NV_OK -> pg = ∅) -> cpu_mapped_to b mask pg p st b mask.
Proof.
  intros Hst. split; [done|]. exists ∅. destruct (writable p); repeat split; try set_solver.
  all: intros; rewrite Hst by done; set_solver.
Qed.

Lemma block_map_cpu_to_spec b res r mask p s :
  mask ⊆ region_mask r ->
  wp (block_map_cpu_to b res r mask p)
    (fun '(st, (b', m')) _ =>
       cpu_mapped_to b mask (mask ∩ uvm_va_block_resident_mask_get b res) p st b' m') s.
Proof.
  intros Hmask. unfold block_map_cpu_to. set (pg := _ ∩ _).
  apply wp_if; intros He; bprop.
  { apply wp_ret; cbn. by apply cpu_mapped_to_none. }
  apply wp_bind, wp_any; intros st1 s1. apply wp_if; intros Hst; bprop.
  { apply wp_ret; cbn. by apply cpu_mapped_to_none. }
  apply wp_bind. eapply wp_mono; [apply map_cpu_loop; [set_solver|done]|].
  intros [ex [b' mapped]] s2 (mp & Hb & Hg & Hm & Hp & Hy). cbn in Hb, Hp, Hy; subst b'.
  apply wp_ret. set (pages := if is_ok _ then pg else mapped) in *.
  assert (loop_status ex = NV_OK -> pages = pg) as Hok by (subst pages; by intros ->).
  assert (pg ⊆ mask) by (subst pg; set_solver). clearbody pages pg.
  split.
  - eapply (cpu_step_set b (vb_cpu_pte_read b ∪ pages) _ mp (vb_maybe_mapped b ∪ pages));
      [destruct p; set_solver|done|].
    intros Hwf Hn. rewrite (pw_cpu_mapped _ Hwf) by set_solver.
    destruct (decide (pages = ∅)) as [->|]; [set_solver|]. by destruct Hn; apply Hy.
  - exists pages. split; [set_solver|]. split; [done|]. split; [done|].
    split; [destruct p; cbn; set_solver|]. by intros ->%Hok.
Qed.
End CpuMap.

(** *** Mapping on a GPU *)

Definition gpu_state_of (b : va_block) (g : Z) : gpu_state :=
  default gpu_state_zero (vb_gpus b !! g).

(** What every permission function keeps: pages, and the PTE invariant. *)
Record perm_step (b b' : va_block) : Prop := {
  ps_pages : same_pages b b';
  ps_wf    : perm_wf b -> perm_wf b';
}.

#[export] Instance perm_step_preorder : PreOrder perm_step.
Proof.
  split; [by constructor|]. intros b1 b2 b3 [] []. constructor; [by etransitivity|auto].
Qed.

Lemma cpu_perm_step b b' : cpu_step b b' -> perm_step b b'.
Proof. by intros []. Qed.

(** [b'] is [b] with the pages [R] mapped on GPU [g] with permission [p]. *)
Record gpu_mapped_by (b : va_block) (g : Z) (p : uvm_prot) (R : gset Z) (b' : va_block)
    : Prop := {
  gm_gpus   : vb_gpus b' = <[g := gs_map p R (gpu_state_of b g)]> (vb_gpus b);
  gm_cpu_r  : vb_cpu_pte_read b' = vb_cpu_pte_read b;
  gm_cpu_w  : vb_cpu_pte_write b' = vb_cpu_pte_write b;
  gm_other  : forall h, h <> g -> h ∈ vb_mapped b' <-> h ∈ vb_mapped b;
  gm_mapped : vb_mapped b ⊆ vb_mapped b';
  gm_self   : R <> ∅ -> g ∈ vb_mapped b';
  gm_pages  : same_pages b b';
}.

Lemma gs_map_empty p gs : gs_map p ∅ gs = gs.
Proof. destruct p, gs; cbn; rewrite ?union_empty_r_L; done. Qed.

Lemma gs_map_map p R1 R2 gs : gs_map p R1 (gs_map p R2 gs) = gs_map p (R2 ∪ R1) gs.
Proof. destruct p, gs; cbn; rewrite ?union_assoc_L; done. Qed.

Lemma perm_wf_gs b g : perm_wf b -> gs_wf (gpu_state_of b g).
Proof.
  intros Hwf. unfold gpu_state_of. destruct (vb_gpus b !! g) eqn:Hg; cbn.
  - by apply (pw_gpu _ Hwf g).
  - apply gs_wf_zero.
Qed.

Lemma perm_wf_unmapped b g : perm_wf b -> 0 < g -> g ∉ vb_mapped b ->
  gs_pte_read (gpu_state_of b g) = ∅.
Proof.
  intros Hwf H0 Hm. unfold gpu_state_of. destruct (vb_gpus b !! g) eqn:Hg; cbn; [|done].
  by apply (pw_mapped _ Hwf g).
Qed.

Lemma gpu_mapped_perm_step b g p R b' :
  0 < g -> gpu_mapped_by b g p R b' -> perm_step b b'.
Proof.
  intros H0 H. split; [apply H|]. intros Hwf. constructor.
  - intros h gs. rewrite (gm_gpus _ _ _ _ _ H). intros [[<- <-]|[_ Hh]]%lookup_insert_Some.
    + by apply gs_wf_map, perm_wf_gs.
    + by apply (pw_gpu _ Hwf h).
  - intros h gs. rewrite (gm_gpus _ _ _ _ _ H). intros [[<- <-]|[Hne Hh]]%lookup_insert_Some Hpos Hm.
    + destruct (decide (R = ∅)) as [->|HR]; [|by destruct Hm; apply (gm_self _ _ _ _ _ H)].
      rewrite gs_map_empty. apply perm_wf_unmapped; [done..|].
      pose proof (gm_mapped _ _ _ _ _ H). set_solver.
    + apply (pw_mapped _ Hwf h gs); [done..|].
      by rewrite <- (gm_other _ _ _ _ _ H) by congruence.
  - rewrite (gm_cpu_r _ _ _ _ _ H). intros Hm. apply (pw_cpu_mapped _ Hwf).
    rewrite <- (gm_other _ _ _ _ _ H); [done|unfold UVM_ID_CPU; lia].
  - rewrite (gm_cpu_r _ _ _ _ _ H), (gm_cpu_w _ _ _ _ _ H). apply Hwf.
  - intros h Hpos Hm. rewrite (gm_gpus _ _ _ _ _ H).
    destruct (decide (h = g)) as [->|Hne]; [rewrite lookup_insert_eq; eauto|].
    rewrite lookup_insert_ne by done. apply (pw_state _ Hwf); [done|].
    by rewrite <- (gm_other _ _ _ _ _ H).
Qed.

Lemma gpu_mapped_trans b g p R b' R' b'' :
  gpu_mapped_by b g p R b' -> gpu_mapped_by b' g p R' b'' -> gpu_mapped_by b g p (R ∪ R') b''.
Proof.
  intros [H1 H2 H3 H4 H5 H6 H7] [G1 G2 G3 G4 G5 G6 G7].
  assert (gpu_state_of b' g = gs_map p R (gpu_state_of b g)) as Hgs.
  { unfold gpu_state_of at 1. by rewrite H1, lookup_insert_eq. }
  constructor; try congruence.
  - rewrite G1, Hgs, H1, insert_insert_eq. by rewrite gs_map_map.
  - intros h Hh. by rewrite G4, H4.
  - by etransitivity.
  - intros Hne. destruct (decide (R' = ∅)) as [->|]; [|auto].
    apply G5, H6. set_solver.
  - by etransitivity.
Qed.

Section GpuMap.
Context `{E : Env}.

Lemma block_map_gpu_to_spec cfg b g res mask p s :
  wp (block_map_gpu_to cfg b g res mask p)
    (fun '(st, (b', m')) _ => exists R, R ⊆ mask /\ m' = mask ∖ R /\
       (b' = b /\ R = ∅ \/ gpu_mapped_by b g p R b') /\
       (st = NV_OK -> mask ∩ uvm_va_block_resident_mask_get b res ⊆ R)) s.
Proof.
  unfold block_map_gpu_to. set (pg := _ ∩ _). wsteps.
  - exists ∅. split; [set_solver|]. split; [set_solver|]. split; [by left|]. set_solver.
  - exists ∅. split; [set_solver|]. split; [set_solver|]. split; [by left|]. done.
  - exists ∅. split; [set_solver|]. split; [set_solver|]. split; [by left|]. done.
  - exists pg. split; [subst pg; set_solver|]. split; [done|]. split; [right|done].
    constructor; cbn; try done; try set_solver.
    etransitivity; [|apply same_pages_set_mapped]. apply same_pages_set_gpu.
    unfold uvm_va_block_gpu_state_get. by rewrite gs_map_resident.
Qed.
End GpuMap.

Section MapSpec.
Context `{E : Env}.

(** What [uvm_va_block_map] did to processor [id]: pages [R] mapped. *)
Definition mapped_by (b : va_block) (id : Z) (p : uvm_prot) (R : gset Z) (b' : va_block)
    : Prop :=
  if id =? UVM_ID_CPU then
    cpu_step b b' /\ vb_cpu_pte_read b' = vb_cpu_pte_read b ∪ R /\
    vb_cpu_pte_write b' = vb_cpu_pte_write b ∪ (if writable p then R else ∅)
  else (b' = b /\ R = ∅) \/ gpu_mapped_by b id p R b'.

Lemma mapped_by_none b id p : mapped_by b id p ∅ b.
Proof.
  unfold mapped_by. destruct (id =? _); [|by left].
  split; [done|]. destruct (writable p); set_solver.
Qed.

Lemma mapped_by_trans b id p R b' R' b'' :
  mapped_by b id p R b' -> mapped_by b' id p R' b'' -> mapped_by b id p (R ∪ R') b''.
Proof.
  unfold mapped_by. destruct (id =? _).
  - intros (H1 & H2 & H3) (G1 & G2 & G3). split; [by etransitivity|].
    rewrite G2, G3, H2, H3. destruct (writable p); set_solver.
  - intros [[-> ->]|H] [[-> ->]|G].
    + left. set_solver.
    + right. by rewrite union_empty_l_L.
    + right. by rewrite union_empty_r_L.
    + right. by eapply gpu_mapped_trans.
Qed.

Lemma mapped_by_perm_step b id p R b' : 0 <= id -> mapped_by b id p R b' -> perm_step b b'.
Proof.
  unfold mapped_by, UVM_ID_CPU. intros H0. destruct (Z.eqb_spec id 0).
  - intros [H _]. by apply cpu_perm_step.
  - intros [[-> _]|H]; [done|]. eapply gpu_mapped_perm_step; [|done]. lia.
Qed.

(** The loop over the allowed destinations. *)
Lemma map_loop_spec cfg b id running r p order s :
  0 <= id -> running ⊆ region_mask r ->
  wp (kfold (fun '(b, running) resident_id =>
               '(st, (b, running)) ←
                 (if id =? UVM_ID_CPU then block_map_cpu_to b resident_id r running p
                  else block_map_gpu_to cfg b id resident_id running p);
               if negb (is_ok st) then kret (Some st, (b, running))
               else if bool_decide (running ∩ region_mask r = ∅)
               then kret (Some NV_OK, (b, running))
               else kret (None, (b, running))) (b, running) order)
    (fun '(ex, (b', _)) _ => exists R, R ⊆ running /\ mapped_by b id p R b' /\
       (loop_status ex = NV_OK -> forall res, res ∈ order ->
          running ∩ uvm_va_block_resident_mask_get b res ⊆ R)) s.
Proof.
  intros Hid Hr. apply (dest_loop_spec (fun b res m =>
    if id =? UVM_ID_CPU then block_map_cpu_to b res r m p
    else block_map_gpu_to cfg b id res m p) (fun R b' => mapped_by b id p R b'));
    [done|apply mapped_by_none|].
  intros b1 R res s1 HR HS. pose proof (mapped_by_perm_step _ _ _ _ _ Hid HS) as [Hsp _].
  eapply (wp_mono _ (fun '(st, (b', m')) _ => exists pages,
    pages ⊆ running ∖ R /\ m' = (running ∖ R) ∖ pages /\ mapped_by b1 id p pages b' /\
    (st = NV_OK -> (running ∖ R) ∩ uvm_va_block_resident_mask_get b1 res ⊆ pages))).
  - unfold mapped_by. destruct (id =? UVM_ID_CPU).
    + eapply wp_mono; [apply block_map_cpu_to_spec; set_solver|].
      intros [st [b' m']] s' (H1 & pages & H2 & H3 & H4 & H5 & H6). by exists pages.
    + eapply wp_mono; [apply block_map_gpu_to_spec|].
      intros [st [b' m']] s' (pages & H2 & H3 & H4 & H5). by exists pages.
  - intros [st [b' m']] s' (pages & H2 & -> & H4 & H5). rewrite (sp_gpu_res _ _ Hsp) in H5.
    exists (R ∪ pages). split; [set_solver|]. split; [set_solver|].
    split; [by eapply mapped_by_trans|]. split; [set_solver|].
    intros Hst x Hx. specialize (H5 Hst). destruct (decide (x ∈ R)); set_solver.
Qed.
End MapSpec.

(** *** Permissions per processor *)

(** The pages processor [id] may access with permission [p]. *)
Definition prot_pages (b : va_block) (id : Z) (p : uvm_prot) : gset Z :=
  if id =? UVM_ID_CPU then (if writable p then vb_cpu_pte_write b else vb_cpu_pte_read b)
  else gpu_pte_bits (gpu_state_of b id) p.

Definition map_enabled (cfg : perm_cfg) (id : Z) : bool :=
  if id =? UVM_ID_CPU then pc_vma_ok cfg else bool_decide (id ∈ pc_gpu_va_space cfg).

(** Mapping with [p] can only give [q] when it gives write access or [q] is no
    write access. *)
Definition grants (p q : uvm_prot) : bool := writable p || negb (writable q).

(** What mapping the pages [M] on [id] may do: permissions of [id] on [M] grow,
    nothing else changes. *)
Record map_effect (b : va_block) (id : Z) (p : uvm_prot) (M : gset Z) (b' : va_block)
    : Prop := {
  me_step  : perm_step b b';
  me_keep  : forall h q, prot_pages b h q ⊆ prot_pages b' h q;
  me_new   : forall q, prot_pages b' id q ⊆ prot_pages b id q ∪ (if grants p q then M else ∅);
  me_other : forall h q, h <> id -> prot_pages b' h q = prot_pages b h q;
}.

Lemma map_effect_refl b id p M : map_effect b id p M b.
Proof. constructor; try done; set_solver. Qed.
#[export] Hint Resolve map_effect_refl : core.

Lemma gpu_pte_bits_map gs p R q :
  gpu_pte_bits gs q ⊆ gpu_pte_bits (gs_map p R gs) q /\
  gpu_pte_bits (gs_map p R gs) q ⊆ gpu_pte_bits gs q ∪ (if grants p q then R else ∅).
Proof. destruct p, q; cbn; set_solver. Qed.

Lemma gpu_pte_bits_map_self gs p R :
  p <> UVM_PROT_NONE -> R ⊆ gpu_pte_bits (gs_map p R gs) p.
Proof. destruct p; cbn; intros; done || set_solver. Qed.

Lemma gpu_state_of_insert b b' g gs h :
  vb_gpus b' = <[g := gs]> (vb_gpus b) ->
  gpu_state_of b' h = if decide (h = g) then gs else gpu_state_of b h.
Proof.
  unfold gpu_state_of. intros ->. destruct (decide (h = g)) as [->|];
    [by rewrite lookup_insert_eq|by rewrite lookup_insert_ne].
Qed.

Lemma mapped_by_effect b id p R M b' :
  0 <= id -> R ⊆ M -> mapped_by b id p R b' -> map_effect b id p M b'.
Proof.
  intros Hid HR H. pose proof (mapped_by_perm_step _ _ _ _ _ Hid H) as Hs.
  unfold mapped_by in H. constructor; [done|..]; unfold prot_pages;
    (destruct (Z.eqb_spec id UVM_ID_CPU) as [->|Hne];
     [destruct H as (H & Hr & Hw); pose proof (cs_gpus _ _ H) as Hg
     |destruct H as [[-> ->]|H]; [try done; try set_solver|]]).
  - intros h q. unfold gpu_state_of. rewrite Hr, Hw, Hg. cases; set_solver.
  - intros h q. rewrite (gm_cpu_r _ _ _ _ _ H), (gm_cpu_w _ _ _ _ _ H).
    rewrite (gpu_state_of_insert _ _ _ _ _ (gm_gpus _ _ _ _ _ H)).
    destruct (decide (h = id)) as [->|]; [|done]. cases; [done..|]. apply gpu_pte_bits_map.
  - intros q. rewrite Hr, Hw. cbn. unfold grants. destruct (writable p), (writable q); cbn; set_solver.
  - intros q. rewrite (gpu_state_of_insert _ _ _ _ _ (gm_gpus _ _ _ _ _ H)).
    rewrite decide_True by done. pose proof (gpu_pte_bits_map (gpu_state_of b id) p R q).
    destruct (grants p q); set_solver.
  - intros h q Hh. unfold gpu_state_of. rewrite Hg. apply Z.eqb_neq in Hh. by rewrite Hh.
  - intros h q Hh. rewrite (gm_cpu_r _ _ _ _ _ H), (gm_cpu_w _ _ _ _ _ H).
    rewrite (gpu_state_of_insert _ _ _ _ _ (gm_gpus _ _ _ _ _ H)).
    by rewrite decide_False.
Qed.

Lemma mapped_by_pages b id p R b' :
  p <> UVM_PROT_NONE -> mapped_by b id p R b' -> R ⊆ prot_pages b' id p.
Proof.
  intros Hp H. unfold mapped_by, prot_pages in *. destruct (id =? _).
  - destruct H as (_ & -> & ->). destruct (writable p); set_solver.
  - destruct H as [[-> ->]|H]; [set_solver|].
    rewrite (gpu_state_of_insert _ _ _ _ _ (gm_gpus _ _ _ _ _ H)), decide_True by done.
    by apply gpu_pte_bits_map_self.
Qed.

Section MapTheorem.
Context `{E : Env}.

Lemma map_effect_zero_state b id p M :
  0 < id -> vb_gpus b !! id = None -> map_effect b id p M (vb_set_gpu id gpu_state_zero b).
Proof.
  intros Hid Hn.
  assert (forall h, gpu_state_of (vb_set_gpu id gpu_state_zero b) h = gpu_state_of b h) as Hg.
  { intros h. rewrite (gpu_state_of_insert b _ id gpu_state_zero) by done.
    destruct (decide (h = id)) as [->|]; [|done]. unfold gpu_state_of. by rewrite Hn. }
  assert (forall h q, prot_pages (vb_set_gpu id gpu_state_zero b) h q = prot_pages b h q) as Hp.
  { intros h q. unfold prot_pages. by rewrite Hg. }
  constructor; intros; rewrite ?Hp; try set_solver.
  split.
  - apply same_pages_set_gpu. by rewrite Hn.
  - intros Hwf. constructor; cbn; try apply Hwf.
    + intros h gs [[<- <-]|[_ Hh]]%lookup_insert_Some; [apply gs_wf_zero|].
      by apply (pw_gpu _ Hwf h).
    + intros h gs [[<- <-]|[_ Hh]]%lookup_insert_Some; [done|].
      by apply (pw_mapped _ Hwf h).
    + intros h H0 Hh. destruct (decide (h = id)) as [->|]; [rewrite lookup_insert_eq; eauto|].
      rewrite lookup_insert_ne by done. by apply Hwf.
Qed.

Lemma gpu_state_get_alloc_spec b id s :
  0 < id ->
  wp (block_gpu_state_get_alloc b id)
    (fun ob _ => match ob with
                 | Some b' => forall p M, map_effect b id p M b'
                 | None => True
                 end) s.
Proof.
  intros Hid. unfold block_gpu_state_get_alloc, uvm_va_block_gpu_state_get.
  destruct (vb_gpus b !! id) eqn:Hg; [apply wp_ret; intros; apply map_effect_refl|].
  wsteps; try done; intros; by apply map_effect_zero_state.
Qed.

Lemma map_effect_trans b1 b2 b3 id p M :
  map_effect b1 id p M b2 -> map_effect b2 id p M b3 -> map_effect b1 id p M b3.
Proof.
  intros [H1 H2 H3 H4] [G1 G2 G3 G4]. constructor.
  - by etransitivity.
  - intros h q. etransitivity; [apply H2|apply G2].
  - intros q. specialize (H3 q). specialize (G3 q). set_solver.
  - intros. by rewrite G4, H4.
Qed.

Lemma allowed_destinations_same cfg b b' id :
  same_pages b b' -> map_get_allowed_destinations cfg b' id = map_get_allowed_destinations cfg b id.
Proof. intros H. unfold map_get_allowed_destinations. by rewrite (sp_resident _ _ H). Qed.

Lemma block_map_pages_spec cfg b b1 id r m p pte s :
  0 <= id -> p <> UVM_PROT_NONE ->
  map_effect b id p (mask_from_region r m) b1 -> pte ⊆ prot_pages b1 id p ->
  wp (block_map_pages cfg b1 id r m p pte)
    (fun '(st, b') _ => map_effect b id p (mask_from_region r m) b' /\
       (st = NV_OK -> forall res, res ∈ map_get_allowed_destinations cfg b id ->
          mask_from_region r m ∩ uvm_va_block_resident_mask_get b res
          ⊆ prot_pages b' id p)) s.
Proof.
  intros Hid Hp Hb1 Hpte. unfold block_map_pages. set (M := mask_from_region r m) in *.
  assert (M ⊆ region_mask r) as HM by (subst M; destruct m; cbn; set_solver).
  set (running := _ ∖ _). pose proof (ps_pages _ _ (me_step _ _ _ _ _ Hb1)) as Hsp.
  apply wp_if; intros Hrun; bprop; [apply wp_ret; split; [done|]; set_solver|].
  apply wp_bind, wp_any; intros k1 s2. apply wp_if; intros _; [by apply wp_ret|].
  apply wp_bind, wp_any; intros k2 s3. apply wp_if; intros _.
  { apply wp_bind, wp_any; intros; by apply wp_ret. }
  apply wp_bind. eapply wp_mono; [apply map_loop_spec; [done|subst running; set_solver]|].
  intros [ex [b' m']] s4 (R & HR & HS & Hok). wsteps.
  pose proof (mapped_by_pages _ _ _ _ _ Hp HS) as HRp.
  assert (map_effect b1 id p M b') as He.
  { eapply mapped_by_effect; [done| |done]. subst running; set_solver. }
  split; [by eapply map_effect_trans|]. intros Hst res Hres x Hx.
  specialize (Hok Hst res). rewrite env_closest_elem, (allowed_destinations_same cfg b b1),
    (sp_gpu_res _ _ Hsp) in Hok by done. specialize (Hok Hres).
  pose proof (me_keep _ _ _ _ _ He id p).
  destruct (decide (x ∈ pte)); [set_solver|]. subst running. set_solver.
Qed.

Lemma uvm_va_block_map_spec cfg b id r m p s :
  0 <= id -> p <> UVM_PROT_NONE ->
  wp (uvm_va_block_map cfg b id r m p)
    (fun '(st, b') _ => map_effect b id p (mask_from_region r m) b' /\
       (st = NV_OK -> map_enabled cfg id = true ->
        forall res, res ∈ map_get_allowed_destinations cfg b id ->
          mask_from_region r m ∩ uvm_va_block_resident_mask_get b res
          ⊆ prot_pages b' id p)) s.
Proof.
  intros Hid Hp. unfold uvm_va_block_map, map_enabled.
  destruct (Z.eqb_spec id UVM_ID_CPU) as [Hc|Hc].
  - apply wp_if; intros Hv; bprop; [apply wp_ret; rewrite Hv; by split|].
    eapply wp_mono; [apply block_map_pages_spec; [done..|]|].
    + subst id. unfold prot_pages. cbn. by destruct p.
    + intros [st b'] s' [H1 H2]. auto.
  - apply wp_if; intros Hv; bprop; [apply wp_ret; split; [done|intros _ ?; bprop; done]|].
    apply wp_bind. eapply wp_mono; [apply gpu_state_get_alloc_spec; unfold UVM_ID_CPU in *; lia|].
    intros [b1|] s1; [|by intros _; apply wp_ret]. intros Hb1.
    eapply wp_mono; [apply block_map_pages_spec; [done|done|apply Hb1|]|].
    + unfold prot_pages. apply Z.eqb_neq in Hc. rewrite Hc. unfold gpu_state_of.
      unfold uvm_va_block_gpu_state_get. destruct (vb_gpus b1 !! id); set_solver.
    + intros [st b'] s' [H1 H2]. auto.
Qed.
End MapTheorem.

(** ** Revocation *)

(** What revoking [p] (at least READ_WRITE) from the pages [M] may do. *)
Record revoke_effect (b : va_block) (M : gset Z) (b' : va_block) : Prop := {
  re_step  : perm_step b b';
  re_le    : forall h q, h <> UVM_ID_CPU -> prot_pages b' h q ⊆ prot_pages b h q;
  re_read  : forall h, h <> UVM_ID_CPU ->
               prot_pages b' h UVM_PROT_READ_ONLY = prot_pages b h UVM_PROT_READ_ONLY;
  re_cpu   : vb_cpu_pte_write b' ⊆ vb_cpu_pte_write b;
  re_only  : forall h q, prot_pages b h q ⊆ prot_pages b' h q ∪ M;
}.

(** No page of [M] keeps permission [p] on [id] (where it is resident). *)
Definition revoked_at (b : va_block) (M : gset Z) (p : uvm_prot) (id : Z) : Prop :=
  if id =? UVM_ID_CPU then p = UVM_PROT_READ_WRITE_ATOMIC \/ M ∩ vb_cpu_pte_write b = ∅
  else forall res, res ∈ vb_resident b ->
         M ∩ uvm_va_block_resident_mask_get b res ∩ prot_pages b id p = ∅.

Lemma revoke_effect_refl b M : revoke_effect b M b.
Proof. constructor; try done; set_solver. Qed.
#[export] Hint Resolve revoke_effect_refl : core.

Lemma revoke_effect_trans b1 b2 b3 M :
  revoke_effect b1 M b2 -> revoke_effect b2 M b3 -> revoke_effect b1 M b3.
Proof.
  intros [H1 H2 H3 H4 H5] [G1 G2 G3 G4 G5]. constructor.
  - by etransitivity.
  - intros h q Hh. etransitivity; [by apply G2|by apply H2].
  - intros h Hh. by rewrite G3, H3.
  - by etransitivity.
  - intros h q. specialize (H5 h q). specialize (G5 h q). set_solver.
Qed.

Lemma revoked_at_mono b b' M p id :
  revoke_effect b M b' -> revoked_at b M p id -> revoked_at b' M p id.
Proof.
  intros H. unfold revoked_at. pose proof (ps_pages _ _ (re_step _ _ _ H)) as Hsp.
  destruct (Z.eqb_spec id UVM_ID_CPU) as [|Hne].
  - intros [?|HM]; [by left|right]. pose proof (re_cpu _ _ _ H). set_solver.
  - intros HM res. rewrite (sp_resident _ _ Hsp), (sp_gpu_res _ _ Hsp). intros Hres.
    specialize (HM res Hres). pose proof (re_le _ _ _ H id p Hne). set_solver.
Qed.

Lemma perm_step_revoked b g gs p R :
  0 < g -> vb_gpus b !! g = Some gs -> perm_step b (revoked b g p R gs).
Proof.
  intros H0 Hg. split.
  - apply same_pages_set_gpu. by rewrite Hg, gs_revoke_resident.
  - intros Hwf. constructor; cbn; try apply Hwf.
    + intros h gs' [[<- <-]|[_ Hh]]%lookup_insert_Some; [|by apply (pw_gpu _ Hwf h)].
      apply gs_wf_revoke. by apply (pw_gpu _ Hwf g).
    + intros h gs' [[<- <-]|[_ Hh]]%lookup_insert_Some Hpos Hm;
        [|by apply (pw_mapped _ Hwf h)].
      pose proof (pw_mapped _ Hwf _ _ Hg Hpos Hm). destruct p; cbn; try done; set_solver.
    + intros h Hpos Hh. destruct (decide (h = g)) as [->|]; [rewrite lookup_insert_eq; eauto|].
      rewrite lookup_insert_ne by done. by apply Hwf.
Qed.

Section RevokeTheorem.
Context `{E : Env}.

Lemma gpu_pte_bits_revoke gs p R q :
  gpu_pte_bits (gs_revoke p R gs) q ⊆ gpu_pte_bits gs q /\
  gpu_pte_bits gs q ⊆ gpu_pte_bits (gs_revoke p R gs) q ∪ R.
Proof.
  split; destruct p, q; cbn; try set_solver;
    intros x Hx; destruct (decide (x ∈ R)); set_solver.
Qed.

Lemma revoke_effect_gpu b g gs p R M :
  0 < g -> writable p = true -> vb_gpus b !! g = Some gs -> R ⊆ M ->
  revoke_effect b M (revoked b g p R gs).
Proof.
  intros H0 Hp Hg HR.
  assert (forall h, gpu_state_of (revoked b g p R gs) h =
            if decide (h = g) then gs_revoke p R gs else gpu_state_of b h) as Hs.
  { intros h. by apply gpu_state_of_insert. }
  assert (gpu_state_of b g = gs) as Hgs by (unfold gpu_state_of; by rewrite Hg).
  constructor; [by apply perm_step_revoked|..]; unfold prot_pages; cbn.
  - intros h q Hh%Z.eqb_neq. rewrite Hh, Hs. case_decide; [|done].
    subst. apply gpu_pte_bits_revoke.
  - intros h Hh%Z.eqb_neq. rewrite Hh, Hs. case_decide; [|done]. subst. by destruct p.
  - done.
  - intros h q. destruct (h =? UVM_ID_CPU); [set_solver|]. rewrite Hs.
    case_decide; [|set_solver]. subst h. rewrite Hgs.
    pose proof (proj2 (gpu_pte_bits_revoke gs p R q)). set_solver.
Qed.

Lemma gpu_pte_bits_revoke_self gs p R X :
  writable p = true -> X ∩ gpu_pte_bits gs p ⊆ R -> X ∩ gpu_pte_bits (gs_revoke p R gs) p = ∅.
Proof. destruct p; cbn; intros ? H; try done; set_solver. Qed.

(** Revocation on the CPU: unmapped whatever happens next. *)
Lemma revoke_cpu_spec cfg b r M s :
  perm_wf b -> M ⊆ region_mask r ->
  wp (block_revoke_cpu_write cfg b r M)
    (fun '(_, b') _ => revoke_effect b M b' /\ M ∩ vb_cpu_pte_write b' = ∅) s.
Proof.
  intros Hwf HM. unfold block_revoke_cpu_write.
  destruct (block_unmap_cpu_spec b r (Some M) Hwf) as (Hs & Hr & Hw).
  set (b1 := block_unmap_cpu b r (Some M)) in *. clearbody b1. cbn in Hr, Hw.
  assert (region_mask r ∩ M = M) as HrM by set_solver. rewrite HrM in Hr, Hw.
  unfold uvm_va_block_map. cbn.
  eapply (wp_mono _ (fun '(st, b') _ => cpu_step b1 b' /\ vb_cpu_pte_read b1 ⊆ vb_cpu_pte_read b' /\
    vb_cpu_pte_write b' = vb_cpu_pte_write b1)).
  - apply wp_if; intros _; [by apply wp_ret|]. unfold block_map_pages. wsteps; try done.
    eapply wp_mono; [apply map_loop_spec; [done|cbn; set_solver]|].
    intros [ex [b' m']] s4 (R & HR & (H1 & H2 & H3) & _). wsteps. cbn in H3.
    split; [done|]. split; set_solver.
  - intros [st b'] s' (H1 & H2 & H3).
    assert (cpu_step b b') as H by by etransitivity.
    assert (forall h q, h <> UVM_ID_CPU -> prot_pages b' h q = prot_pages b h q) as Hp.
    { intros h q Hh%Z.eqb_neq. unfold prot_pages, gpu_state_of. by rewrite Hh, (cs_gpus _ _ H). }
    split; [|rewrite H3, Hw; set_solver]. constructor.
    + by apply cpu_perm_step.
    + intros; by rewrite Hp.
    + intros; by rewrite Hp.
    + rewrite H3, Hw. set_solver.
    + intros h q. destruct (decide (h = UVM_ID_CPU)) as [->|]; [|rewrite Hp by done; set_solver].
      unfold prot_pages; cbn. intros x Hx. destruct (decide (x ∈ M)); [set_solver|].
      destruct (writable q); set_solver.
Qed.
End RevokeTheorem.

Section RevokeMask.
Context `{E : Env}.

Lemma uvm_va_block_revoke_prot_spec cfg b id r m p s :
  perm_wf b -> 0 <= id -> writable p = true ->
  wp (uvm_va_block_revoke_prot cfg b id r m p)
    (fun '(st, b') _ => revoke_effect b (mask_from_region r m) b' /\
       (st = NV_OK -> revoked_at b' (mask_from_region r m) p id)) s.
Proof.
  intros Hwf Hid Hp. set (M := mask_from_region r m).
  assert (M ⊆ region_mask r) as HM by (subst M; destruct m; cbn; set_solver).
  destruct (Z.eqb_spec id UVM_ID_CPU) as [->|Hne].
  - unfold uvm_va_block_revoke_prot, revoked_at. cbn.
    apply wp_if; intros Ha; bprop; [apply wp_ret; split; [done|by left]|].
    apply wp_if; intros Hr; bprop; [apply wp_ret; split; [done|by right]|].
    eapply wp_mono; [apply revoke_cpu_spec; [done|set_solver]|].
    intros [st b'] s' [[H1 H2 H3 H4 H5] H]. fold M in H5, H. split.
    + constructor; try done. intros h q. specialize (H5 h q). set_solver.
    + intros _. right. set_solver.
  - assert (0 < id) as H0 by (unfold UVM_ID_CPU in Hne; lia).
    destruct (decide (id ∈ vb_mapped b)) as [Hin|Hout].
    + destruct (pw_state _ Hwf id H0 Hin) as [gs Hg].
      eapply wp_mono; [by apply revoke_prot_gpu_spec|].
      intros [st b'] s' (R & HR & -> & Hok). pose proof (revoke_effect_gpu b id gs p R M H0 Hp Hg HR) as He.
      split; [done|]. intros Hst. unfold revoked_at.
      apply Z.eqb_neq in Hne. rewrite Hne. intros res Hres.
      rewrite revoked_resident by done. unfold prot_pages. rewrite Hne.
      rewrite (gpu_state_of_insert b _ id (gs_revoke p R gs)), decide_True by done.
      apply gpu_pte_bits_revoke_self; [done|]. specialize (Hok Hst res Hres). fold M in Hok.
      set_solver.
    + unfold uvm_va_block_revoke_prot. apply Z.eqb_neq in Hne as Hne'.
      rewrite Hne', bool_decide_eq_false_2 by done. apply wp_ret. split; [done|].
      intros _. unfold revoked_at, prot_pages. rewrite Hne'. intros res Hres.
      pose proof (perm_wf_unmapped b id Hwf H0 Hout) as Hr0.
      destruct (perm_wf_gs b id Hwf) as [Haw Hwr].
      destruct p; cbn in *; try done; set_solver.
Qed.

(** Loops over processors. *)
Lemma for_processors_spec (f : va_block -> Z -> K (nv_status * va_block)) (R : va_block -> Prop)
    (Done : va_block -> Z -> Prop) b mask s :
  R b ->
  (forall b id s, R b -> id ∈ mask ->
     wp (f b id) (fun '(st, b') _ => R b' /\ (st = NV_OK -> Done b' id) /\
                    (forall id', Done b id' -> Done b' id')) s) ->
  wp (for_processors f b mask)
    (fun '(st, b') _ => R b' /\ (st = NV_OK -> forall id, id ∈ mask -> Done b' id)) s.
Proof.
  intros HR Hf. unfold for_processors. apply wp_bind.
  eapply wp_mono; [apply (wp_kfold_prefix
    (fun ys b _ => R b /\ forall id, id ∈ ys -> Done b id)
    (fun st b _ => R b /\ st <> NV_OK))|].
  - intros ys x zs b1 s1 Heq [H1 H2]. apply wp_bind.
    eapply wp_mono; [apply Hf; [done|]|].
    + apply elem_of_ids_in_mask. rewrite Heq. set_solver.
    + intros [st b2] s2 (G1 & G2 & G3). apply wp_ret; cbn.
      destruct (leave_on_error st) as [st'|] eqn:He.
      * apply leave_on_error_Some in He as [-> ?]. done.
      * apply leave_on_error_None in He. split; [done|]. set_solver.
  - split; [done|]. set_solver.
  - intros [ex b1] s1 H. apply wp_bind, wp_any; intros ts s2. apply wp_ret.
    destruct ex as [st|]; cbn in *.
    + destruct H as [H1 H2]. apply is_ok_false in H2 as Hb. rewrite Hb. done.
    + destruct H as [H1 H2]. split; [done|]. intros _ id Hid. apply H2.
      by apply elem_of_ids_in_mask.
Qed.

Lemma uvm_va_block_revoke_prot_mask_correct cfg b mask r m p s :
  perm_wf b -> writable p = true -> (forall id, id ∈ mask -> 0 <= id) ->
  let '(st, b') := fst (uvm_va_block_revoke_prot_mask cfg b mask r m p s) in
  perm_wf b' /\ revoke_effect b (mask_from_region r m) b' /\
  (st = NV_OK -> forall id, id ∈ mask -> revoked_at b' (mask_from_region r m) p id).
Proof.
  intros Hwf Hp Hmask.
  assert (wp (uvm_va_block_revoke_prot_mask cfg b mask r m p)
    (fun '(st, b') _ => revoke_effect b (mask_from_region r m) b' /\
       (st = NV_OK -> forall id, id ∈ mask -> revoked_at b' (mask_from_region r m) p id)) s)
    as H.
  { apply (for_processors_spec _ (revoke_effect b (mask_from_region r m))
      (fun b id => revoked_at b (mask_from_region r m) p id)); [done|].
    intros b1 id s1 HR Hid. pose proof (ps_wf _ _ (re_step _ _ _ HR) Hwf) as Hwf1.
    eapply wp_mono; [apply uvm_va_block_revoke_prot_spec; auto|].
    intros [st b2] s2 [H1 H2]. split; [by eapply revoke_effect_trans|]. split; [done|].
    intros id'. by apply revoked_at_mono. }
  unfold wp in H. destruct (uvm_va_block_revoke_prot_mask cfg b mask r m p s) as [[st b'] s'].
  cbn in *. destruct H as [H1 H2]. split; [|done]. apply (ps_wf _ _ (re_step _ _ _ H1) Hwf).
Qed.

Lemma uvm_va_block_map_mask_correct cfg b mask r m p s :
  perm_wf b -> p <> UVM_PROT_NONE -> (forall id, id ∈ mask -> 0 <= id) ->
  let '(st, b') := fst (uvm_va_block_map_mask cfg b mask r m p s) in
  perm_wf b' /\ same_pages b b' /\
  (forall h q, prot_pages b h q ⊆ prot_pages b' h q) /\
  (forall h q, prot_pages b' h q ⊆ prot_pages b h q ∪
     (if bool_decide (h ∈ mask) && grants p q then mask_from_region r m else ∅)) /\
  (st = NV_OK -> forall id, id ∈ mask -> map_enabled cfg id = true ->
     forall res, res ∈ map_get_allowed_destinations cfg b id ->
       mask_from_region r m ∩ uvm_va_block_resident_mask_get b res ⊆ prot_pages b' id p).
Proof.
  intros Hwf Hp Hmask.
  set (R := fun b' => perm_step b b' /\
    (forall h q, prot_pages b h q ⊆ prot_pages b' h q) /\
    (forall h q, prot_pages b' h q ⊆ prot_pages b h q ∪
       (if bool_decide (h ∈ mask) && grants p q then mask_from_region r m else ∅))).
  set (Done := fun b' id => map_enabled cfg id = true ->
     forall res, res ∈ map_get_allowed_destinations cfg b id ->
       mask_from_region r m ∩ uvm_va_block_resident_mask_get b res ⊆ prot_pages b' id p).
  assert (wp (uvm_va_block_map_mask cfg b mask r m p)
    (fun '(st, b') _ => R b' /\ (st = NV_OK -> forall id, id ∈ mask -> Done b' id)) s) as H.
  { apply for_processors_spec; [by split; [|split]; try done; set_solver|].
    intros b1 id s1 (HR1 & HR2 & HR3) Hid.
    pose proof (ps_pages _ _ HR1) as Hsp.
    eapply wp_mono; [apply uvm_va_block_map_spec; auto|].
    intros [st b2] s2 [[M1 M2 M3 M4] H2]. split; [|split].
    - split; [by etransitivity|]. split; [intros h q; etransitivity; [apply HR2|apply M2]|].
      intros h q. destruct (decide (h = id)) as [->|Hne].
      + specialize (M3 q). specialize (HR3 id q).
        rewrite bool_decide_eq_true_2 in * by done. cbn [andb] in *. set_solver.
      + rewrite M4 by done. apply HR3.
    - intros Hst Hen res Hres. rewrite <- (sp_gpu_res _ _ Hsp). apply H2; [done..|].
      by rewrite (allowed_destinations_same cfg b b1).
    - intros id' HD Hen res Hres. etransitivity; [by apply HD|apply M2]. }
  unfold wp in H. destruct (uvm_va_block_map_mask cfg b mask r m p s) as [[st b'] s'].
  cbn in *. destruct H as [[H1 [H2 H3]] H4]. split; [by apply H1|]. split; [apply H1|].
  split; [done|]. split; [done|]. intros Hst id Hid. by apply H4.
Qed.
End RevokeMask.

(** ** Locks and allocations: the permission functions take no lock and free
    what they allocate. *)

Section PermResources.
Context `{E : Env}.

Lemma block_map_cpu_to_lock ls b res r m p : LockSpec ls (block_map_cpu_to b res r m p) ls.
Proof. unfold block_map_cpu_to. locks. Qed.
Lemma block_map_gpu_to_lock ls cfg b g res m p :
  LockSpec ls (block_map_gpu_to cfg b g res m p) ls.
Proof. unfold block_map_gpu_to. locks. Qed.
Lemma gpu_state_get_alloc_lock ls b g : LockSpec ls (block_gpu_state_get_alloc b g) ls.
Proof. unfold block_gpu_state_get_alloc. locks. Qed.
Lemma block_revoke_gpu_to_lock ls b g res m p :
  LockSpec ls (block_revoke_prot_gpu_to b g res m p) ls.
Proof. unfold block_revoke_prot_gpu_to. locks. Qed.
#[local] Hint Resolve block_map_cpu_to_lock block_map_gpu_to_lock gpu_state_get_alloc_lock
  block_revoke_gpu_to_lock : locks.
Lemma block_map_pages_lock ls cfg b id r m p pte :
  LockSpec ls (block_map_pages cfg b id r m p pte) ls.
Proof. unfold block_map_pages. locks. Qed.
#[local] Hint Resolve block_map_pages_lock : locks.
Lemma uvm_va_block_map_lock ls cfg b id r m p : LockSpec ls (uvm_va_block_map cfg b id r m p) ls.
Proof. unfold uvm_va_block_map. locks. Qed.
#[local] Hint Resolve uvm_va_block_map_lock : locks.
Lemma uvm_va_block_revoke_prot_lock ls cfg b id r m p :
  LockSpec ls (uvm_va_block_revoke_prot cfg b id r m p) ls.
Proof. unfold uvm_va_block_revoke_prot, block_revoke_cpu_write. locks. Qed.
#[local] Hint Resolve uvm_va_block_revoke_prot_lock : locks.
Lemma map_mask_lock ls cfg b ids r m p : LockSpec ls (uvm_va_block_map_mask cfg b ids r m p) ls.
Proof. unfold uvm_va_block_map_mask, for_processors. locks. Qed.
Lemma revoke_mask_lock ls cfg b ids r m p :
  LockSpec ls (uvm_va_block_revoke_prot_mask cfg b ids r m p) ls.
Proof. unfold uvm_va_block_revoke_prot_mask, for_processors. locks. Qed.

Lemma block_map_cpu_to_live b res r m p : LiveSpec (block_map_cpu_to b res r m p) (fun _ => 0).
Proof. unfold block_map_cpu_to. live. Qed.
Lemma block_map_gpu_to_live cfg b g res m p :
  LiveSpec (block_map_gpu_to cfg b g res m p) (fun _ => 0).
Proof. unfold block_map_gpu_to. live. Qed.
Lemma block_revoke_gpu_to_live b g res m p :
  LiveSpec (block_revoke_prot_gpu_to b g res m p) (fun _ => 0).
Proof. unfold block_revoke_prot_gpu_to. live. Qed.
#[local] Hint Resolve block_map_cpu_to_live block_map_gpu_to_live block_revoke_gpu_to_live : live.
Lemma block_map_pages_live cfg b id r m p pte :
  LiveSpec (block_map_pages cfg b id r m p pte) (fun _ => 0).
Proof. unfold block_map_pages. live. Qed.
(** A GPU state that was created stays with the block. *)
Lemma gpu_state_get_alloc_live b g :
  LiveSpec (block_gpu_state_get_alloc b g)
    (fun ob => match uvm_va_block_gpu_state_get b g, ob with
               | None, Some _ => 2
               | _, _ => 0
               end).
Proof. unfold block_gpu_state_get_alloc. destruct (uvm_va_block_gpu_state_get b g); live. Qed.
#[local] Hint Resolve block_map_pages_live : live.
Lemma uvm_va_block_revoke_prot_live cfg b id r m p :
  LiveSpec (uvm_va_block_revoke_prot cfg b id r m p) (fun _ => 0).
Proof.
  unfold uvm_va_block_revoke_prot, block_revoke_cpu_write, uvm_va_block_map. cbn. live.
Qed.
#[local] Hint Resolve uvm_va_block_revoke_prot_live : live.
Lemma revoke_mask_live cfg b ids r m p :
  LiveSpec (uvm_va_block_revoke_prot_mask cfg b ids r m p) (fun _ => 0).
Proof. unfold uvm_va_block_revoke_prot_mask, for_processors. live. Qed.
End PermResources.

#[export] Hint Resolve map_mask_lock revoke_mask_lock : locks.
#[export] Hint Resolve revoke_mask_live : live.


(** ** When nothing fails, neither does a permission change *)

Section PermHealthy.
Context `{E : Env} {H : HealthyEnv E}.

Lemma block_map_cpu_to_ok b res r m p : Succeeds (block_map_cpu_to b res r m p).
Proof.
  intros s. change (wp (block_map_cpu_to b res r m p) (fun x _ => fst x = NV_OK) s).
  unfold block_map_cpu_to. hsteps; done.
Qed.

Lemma block_map_gpu_to_ok cfg b g res m p : Succeeds (block_map_gpu_to cfg b g res m p).
Proof.
  intros s. change (wp (block_map_gpu_to cfg b g res m p) (fun x _ => fst x = NV_OK) s).
  unfold block_map_gpu_to. hsteps; done.
Qed.

Lemma block_revoke_gpu_to_ok b g res m p : Succeeds (block_revoke_prot_gpu_to b g res m p).
Proof.
  intros s. change (wp (block_revoke_prot_gpu_to b g res m p) (fun x _ => fst x = NV_OK) s).
  unfold block_revoke_prot_gpu_to. hsteps; done.
Qed.

Lemma block_map_pages_ok cfg b id r m p pte : Succeeds (block_map_pages cfg b id r m p pte).
Proof.
  intros s. change (wp (block_map_pages cfg b id r m p pte) (fun x _ => fst x = NV_OK) s).
  unfold block_map_pages. hsteps; try done.
  - apply wp_succeeds; [apply block_map_cpu_to_ok|]. intros [? ?] ?. hsteps; done.
  - apply wp_succeeds; [apply block_map_gpu_to_ok|]. intros [? ?] ?. hsteps; done.
Qed.

Lemma uvm_va_block_map_ok cfg b id r m p : Succeeds (uvm_va_block_map cfg b id r m p).
Proof.
  intros s. change (wp (uvm_va_block_map cfg b id r m p) (fun x _ => fst x = NV_OK) s).
  unfold uvm_va_block_map, block_gpu_state_get_alloc.
  hsteps; try done; try (apply wp_succeeds; [apply block_map_pages_ok|done]).
Qed.

Lemma uvm_va_block_revoke_prot_ok cfg b id r m p :
  Succeeds (uvm_va_block_revoke_prot cfg b id r m p).
Proof.
  intros s. change (wp (uvm_va_block_revoke_prot cfg b id r m p) (fun x _ => fst x = NV_OK) s).
  unfold uvm_va_block_revoke_prot, block_revoke_cpu_write. hsteps; try done.
  - apply wp_succeeds; [apply uvm_va_block_map_ok|done].
  - apply wp_succeeds; [apply block_revoke_gpu_to_ok|]. intros [? ?] ?. hsteps; done.
Qed.

Lemma for_processors_ok f b mask :
  (forall b id, Succeeds (f b id)) -> Succeeds (for_processors f b mask).
Proof.
  intros Hf s. change (wp (for_processors f b mask) (fun x _ => fst x = NV_OK) s).
  unfold for_processors. hsteps.
  - apply wp_succeeds; [apply Hf|]. intros ? ?. hsteps. done.
  - cbn in *. by destruct (is_ok _).
Qed.

Lemma map_mask_ok cfg b ids r m p : Succeeds (uvm_va_block_map_mask cfg b ids r m p).
Proof. apply for_processors_ok. intros; apply uvm_va_block_map_ok. Qed.
Lemma revoke_mask_ok cfg b ids r m p : Succeeds (uvm_va_block_revoke_prot_mask cfg b ids r m p).
Proof. apply for_processors_ok. intros; apply uvm_va_block_revoke_prot_ok. Qed.
End PermHealthy.

(** ** Revocation and mapping when nothing fails *)

Section PermTheorems.
Context `{E : Env} {H : HealthyEnv E}.

(** C10: When no push and no allocation fails, revoking READ_WRITE from a mask of
    processors keeps the block well-formed and its pages where they are, leaves
    read access of the GPUs as it was, and leaves no writable or atomic mapping of
    a GPU of the mask to a page in the region and mask that is resident. *)
Theorem revoke_mask_write_protects cfg b mask r m s :
  perm_wf b -> (forall id, id ∈ mask -> 0 <= id) ->
  let '(st, b') := fst (uvm_va_block_revoke_prot_mask cfg b mask r m UVM_PROT_READ_WRITE s) in
  st = NV_OK /\ perm_wf b' /\ same_pages b b' /\
  forall g, g ∈ mask -> 0 < g ->
    prot_pages b' g UVM_PROT_READ_ONLY = prot_pages b g UVM_PROT_READ_ONLY /\
    forall res, res ∈ vb_resident b ->
      mask_from_region r m ∩ uvm_va_block_resident_mask_get b res ∩
      (prot_pages b' g UVM_PROT_READ_WRITE ∪ prot_pages b' g UVM_PROT_READ_WRITE_ATOMIC) = ∅.
Proof.
  intros Hwf Hid.
  pose proof (uvm_va_block_revoke_prot_mask_correct cfg b mask r m UVM_PROT_READ_WRITE s
                Hwf eq_refl Hid) as Hr.
  pose proof (revoke_mask_ok cfg b mask r m UVM_PROT_READ_WRITE s) as Hok.
  destruct (uvm_va_block_revoke_prot_mask _ _ _ _ _ _ _) as [[st b'] s']; cbn in *.
  destruct Hr as (Hwf' & He & Hd). pose proof (ps_pages _ _ (re_step _ _ _ He)) as Hsp.
  split; [done|]. split; [done|]. split; [done|]. intros g Hg Hpos.
  assert (g <> UVM_ID_CPU) as Hne by (unfold UVM_ID_CPU; lia).
  split; [by apply (re_read _ _ _ He)|]. intros res Hres.
  specialize (Hd Hok g Hg). unfold revoked_at in Hd. apply Z.eqb_neq in Hne as Hne'.
  rewrite Hne' in Hd. specialize (Hd res). rewrite (sp_resident _ _ Hsp), (sp_gpu_res _ _ Hsp) in Hd.
  specialize (Hd Hres). destruct (perm_wf_gs b' g Hwf') as [Haw _].
  unfold prot_pages in *. rewrite Hne' in *. cbn in *. set_solver.
Qed.

(** Mapping a mask of processors with a protection keeps the block
    well-formed, gives each processor that may be mapped the protection on every
    page of the region resident at a destination it is allowed, adds nothing above
    that protection, and takes nothing away. *)
Theorem map_mask_grants cfg b mask r m p s :
  perm_wf b -> p <> UVM_PROT_NONE -> (forall id, id ∈ mask -> 0 <= id) ->
  let '(st, b') := fst (uvm_va_block_map_mask cfg b mask r m p s) in
  st = NV_OK /\ perm_wf b' /\ same_pages b b' /\
  (forall h q, prot_pages b h q ⊆ prot_pages b' h q) /\
  (forall h q, grants p q = false -> prot_pages b' h q = prot_pages b h q) /\
  (forall id res, id ∈ mask -> map_enabled cfg id = true ->
     res ∈ map_get_allowed_destinations cfg b id ->
     mask_from_region r m ∩ uvm_va_block_resident_mask_get b res ⊆ prot_pages b' id p).
Proof.
  intros Hwf Hp Hid.
  pose proof (uvm_va_block_map_mask_correct cfg b mask r m p s Hwf Hp Hid) as Hr.
  pose proof (map_mask_ok cfg b mask r m p s) as Hok.
  destruct (uvm_va_block_map_mask _ _ _ _ _ _ _) as [[st b'] s']; cbn in *.
  destruct Hr as (H1 & H2 & H3 & H4 & H5). repeat (split; [done|]).
  split; [|intros; by eapply H5]. intros h q Hg. specialize (H3 h q). specialize (H4 h q).
  rewrite Hg, andb_false_r in H4. set_solver.
Qed.
End PermTheorems.
