(* ===== verification/Migration.v ===== *)
(** Migration of a block's pages ([uvm_va_block_make_resident] and its read
    duplicating variant in [uvm_va_block.c]): unmapping, staging through the CPU,
    the copies and the pushes that carry them, and the residency update.

    A location is a processor with, for the CPU, a NUMA node; [mg_mem] gives the
    contents of a page at a location.  A copy engine copy takes effect when it is
    pushed, except that with confidential computing on a copy to the CPU reaches
    it when the staged ciphertext is decrypted, after the push.  Chunk allocation
    is the interface [ChunkAllocator].  Perf events, the range groups' lists of
    migrated ranges and the used marks of root chunks are left out. *)
From stdpp Require Import functions sorting.
From S2P Require Import Prelude Kernel VaBlock Permissions.

Inductive make_resident_cause :=
| UVM_MAKE_RESIDENT_CAUSE_REPLAYABLE_FAULT | UVM_MAKE_RESIDENT_CAUSE_NON_REPLAYABLE_FAULT
| UVM_MAKE_RESIDENT_CAUSE_ACCESS_COUNTER | UVM_MAKE_RESIDENT_CAUSE_PREFETCH
| UVM_MAKE_RESIDENT_CAUSE_EVICTION | UVM_MAKE_RESIDENT_CAUSE_API.

#[export] Instance cause_eq_dec : EqDecision make_resident_cause.
Proof. solve_decision. Defined.

Definition NUMA_NO_NODE : Z := -1.
Definition loc : Type := Z * Z.                (* processor, NUMA node *)

(** What the VA space and the policy say. *)
Record mig_cfg := mk_mig_cfg {
  mc_perm      : perm_cfg;
  mc_can_copy_from : Z -> gset Z;   (* va_space->can_copy_from[id] *)
  mc_nodes     : list Z;            (* for_each_possible_uvm_node *)
  mc_closest_nodes : Z -> list Z;   (* for_each_closest_uvm_node *)
  mc_numa_mem_id : Z;               (* numa_mem_id() *)
  mc_preferred : loc -> bool;       (* uvm_va_policy_preferred_location_equal *)
  mc_replayable : gset Z;           (* parent->isr.replayable_faults.handling *)
  mc_cpu_ce    : bool;              (* CPU-to-CPU copies with CEs, and a GPU for them *)
  mc_cpu_gpu   : Z -> Z;            (* the GPU attached to the node, or the first one *)
}.

(** The block with what migration keeps beside it. *)
Record migration := mk_migration {
  mg_block     : va_block;
  mg_resident  : Z -> gset Z;       (* cpu.node_state[nid]->resident *)
  mg_allocated : Z -> gset Z;       (* cpu.node_state[nid]->allocated *)
  mg_chunks    : Z -> gset Z;       (* the pages of the GPU's populated chunks *)
  mg_contig    : loc -> bool;       (* is_block_phys_contig *)
  mg_dirty     : Z -> gset Z;       (* block_cpu_page_is_dirty, per node *)
  mg_dup       : gset Z;            (* read_duplicated_pages *)
  mg_evicted   : Z -> gset Z;       (* gpus[id]->evicted *)
  mg_evicted_gpus : gset Z;
  mg_mem       : loc -> Z -> list Z;
}.

Definition mg_set_block (b : va_block) (m : migration) : migration :=
  mk_migration b (mg_resident m) (mg_allocated m) (mg_chunks m) (mg_contig m) (mg_dirty m) (mg_dup m)
    (mg_evicted m) (mg_evicted_gpus m) (mg_mem m).
Definition mg_set_resident (r : Z -> gset Z) (m : migration) : migration :=
  mk_migration (mg_block m) r (mg_allocated m) (mg_chunks m) (mg_contig m) (mg_dirty m) (mg_dup m)
    (mg_evicted m) (mg_evicted_gpus m) (mg_mem m).
Definition mg_set_dirty (d : Z -> gset Z) (m : migration) : migration :=
  mk_migration (mg_block m) (mg_resident m) (mg_allocated m) (mg_chunks m) (mg_contig m) d (mg_dup m)
    (mg_evicted m) (mg_evicted_gpus m) (mg_mem m).
Definition mg_set_dup (d : gset Z) (m : migration) : migration :=
  mk_migration (mg_block m) (mg_resident m) (mg_allocated m) (mg_chunks m) (mg_contig m) (mg_dirty m) d
    (mg_evicted m) (mg_evicted_gpus m) (mg_mem m).
Definition mg_set_evicted (e : Z -> gset Z) (gpus : gset Z) (m : migration) : migration :=
  mk_migration (mg_block m) (mg_resident m) (mg_allocated m) (mg_chunks m) (mg_contig m) (mg_dirty m) (mg_dup m)
    e gpus (mg_mem m).
Definition mg_set_mem (mem : loc -> Z -> list Z) (m : migration) : migration :=
  mk_migration (mg_block m) (mg_resident m) (mg_allocated m) (mg_chunks m) (mg_contig m) (mg_dirty m) (mg_dup m)
    (mg_evicted m) (mg_evicted_gpus m) mem.

(** [block_context->make_resident], and the pushes begun and not ended and the
    DMA buffers not given back. *)
Record move_ctx := mk_move_ctx {
  mv_dest_id   : Z;
  mv_dest_nid  : Z;
  mv_cause     : make_resident_cause;
  mv_staged    : gset Z;            (* pages_staged *)
  mv_migrated  : gset Z;            (* pages_migrated *)
  mv_changed   : gset Z;            (* pages_changed_residency *)
  mv_involved  : gset Z;            (* all_involved_processors *)
  mv_nodes     : gset Z;            (* cpu_pages_used.nodes *)
  mv_node_mask : Z -> gset Z;       (* cpu_pages_used.node_masks *)
  mv_pushes    : Z;
  mv_buffers   : Z;
}.

Definition mv_start (dest : Z) (cause : make_resident_cause) (c : move_ctx) : move_ctx :=
  mk_move_ctx dest (mv_dest_nid c) cause (mv_staged c) (mv_migrated c) (mv_changed c) (mv_involved c)
    ∅ (mv_node_mask c) (mv_pushes c) (mv_buffers c).
Definition mv_set_dest_nid (nid : Z) (c : move_ctx) : move_ctx :=
  mk_move_ctx (mv_dest_id c) nid (mv_cause c) (mv_staged c) (mv_migrated c) (mv_changed c) (mv_involved c)
    (mv_nodes c) (mv_node_mask c) (mv_pushes c) (mv_buffers c).
Definition mv_set_pages (staged migrated changed : gset Z) (c : move_ctx) : move_ctx :=
  mk_move_ctx (mv_dest_id c) (mv_dest_nid c) (mv_cause c) staged migrated changed (mv_involved c)
    (mv_nodes c) (mv_node_mask c) (mv_pushes c) (mv_buffers c).
Definition mv_set_staged (s : gset Z) (c : move_ctx) : move_ctx := mv_set_pages s (mv_migrated c) (mv_changed c) c.
Definition mv_set_migrated (s : gset Z) (c : move_ctx) : move_ctx := mv_set_pages (mv_staged c) s (mv_changed c) c.
Definition mv_set_changed (s : gset Z) (c : move_ctx) : move_ctx := mv_set_pages (mv_staged c) (mv_migrated c) s c.
Definition mv_set_nodes (nodes : gset Z) (masks : Z -> gset Z) (c : move_ctx) : move_ctx :=
  mk_move_ctx (mv_dest_id c) (mv_dest_nid c) (mv_cause c) (mv_staged c) (mv_migrated c) (mv_changed c)
    (mv_involved c) nodes masks (mv_pushes c) (mv_buffers c).
Definition mv_set_push (involved : gset Z) (pushes buffers : Z) (c : move_ctx) : move_ctx :=
  mk_move_ctx (mv_dest_id c) (mv_dest_nid c) (mv_cause c) (mv_staged c) (mv_migrated c) (mv_changed c)
    involved (mv_nodes c) (mv_node_mask c) pushes buffers.

(** ** Residency masks *)

Definition vb_set_cpu_resident (r : gset Z) (page : Z -> list Z) (b : va_block) : va_block :=
  mk_va_block (vb_start b) (vb_end b) r page (vb_cpu_pte_read b) (vb_cpu_pte_write b) (vb_gpus b)
    (vb_resident b) (vb_mapped b) (vb_maybe_mapped b) (vb_dirty b) (vb_tracking b).
Definition vb_set_processors (r : gset Z) (b : va_block) : va_block :=
  mk_va_block (vb_start b) (vb_end b) (vb_cpu_resident b) (vb_cpu_page b) (vb_cpu_pte_read b)
    (vb_cpu_pte_write b) (vb_gpus b) r (vb_mapped b) (vb_maybe_mapped b) (vb_dirty b) (vb_tracking b).
Definition gs_set_resident (r : gset Z) (gs : gpu_state) : gpu_state :=
  mk_gpu_state r (gs_phys gs) (gs_pte_read gs) (gs_pte_write gs) (gs_pte_atomic gs).
Definition vb_set_gpu_resident (g : Z) (f : gset Z -> gset Z) (b : va_block) : va_block :=
  match vb_gpus b !! g with
  | Some gs => vb_set_gpu g (gs_set_resident (f (gs_resident gs)) gs) b
  | None => b
  end.

(** [uvm_va_block_resident_mask_get], of a node for the CPU unless it is
    [NUMA_NO_NODE]. *)
Definition resident_mask (m : migration) (l : loc) : gset Z :=
  if (l.1 =? UVM_ID_CPU) && negb (l.2 =? NUMA_NO_NODE) then mg_resident m l.2
  else uvm_va_block_resident_mask_get (mg_block m) l.1.

(** Every page index of a mask, and the page mask of a region. *)
Definition all_pages : gset Z := region_mask (mk_region 0 PAGES_PER_UVM_VA_BLOCK).
(** [page_mask] without [mask], [page_mask] being every page when NULL. *)
Definition pages_without (page_mask : option (gset Z)) (mask : gset Z) : gset Z :=
  default all_pages page_mask ∖ mask.

(** The pages resident on some processor. *)
Definition resident_anywhere (m : migration) : gset Z :=
  ⋃ ((fun id => uvm_va_block_resident_mask_get (mg_block m) id) <$> elements (vb_resident (mg_block m))).

Section Residency.
Context (cfg : mig_cfg).

Definition block_update_cpu_resident_mask (m : migration) : migration :=
  mg_set_block (vb_set_cpu_resident (⋃ (mg_resident m <$> mc_nodes cfg)) (vb_cpu_page (mg_block m)) (mg_block m)) m.

Definition uvm_va_block_cpu_set_resident_mask (nid : Z) (mask : gset Z) (m : migration) : migration :=
  let b := mg_block m in
  let page p := if bool_decide (p ∈ mask) then mg_mem m (UVM_ID_CPU, nid) p else vb_cpu_page b p in
  mg_set_block (vb_set_cpu_resident (vb_cpu_resident b ∪ mask) page b)
    (mg_set_resident (<[nid := mg_resident m nid ∪ mask]> (mg_resident m)) m).

(** The pages of the mask, on the nodes they were allocated on for the move. *)
Definition uvm_va_block_cpu_set_resident_all_chunks (c : move_ctx) (page_mask : gset Z) (m : migration) : migration :=
  (fold_left (fun '(m, rest) nid =>
      let node_pages := rest ∩ mv_node_mask c nid in
      if bool_decide (node_pages = ∅) then (m, rest)
      else (uvm_va_block_cpu_set_resident_mask nid node_pages m, rest ∖ node_pages))
    (ids_in_mask (mv_nodes c)) (m, page_mask)).1.

Definition uvm_va_block_cpu_clear_resident_mask (nid : Z) (mask : gset Z) (m : migration) : migration :=
  block_update_cpu_resident_mask
    (mg_set_resident (<[nid := mg_resident m nid ∖ mask]> (mg_resident m)) m).

Definition clear_resident_node (c : move_ctx) (page_mask : gset Z) (m : migration) (nid : Z) : migration :=
  if (mv_dest_id c =? UVM_ID_CPU) && bool_decide (nid ∈ mv_nodes c) then
    let node_pages := mv_migrated c ∩ (mg_resident m nid ∖ mv_node_mask c nid) in
    if bool_decide (node_pages = ∅) then m else uvm_va_block_cpu_clear_resident_mask nid node_pages m
  else uvm_va_block_cpu_clear_resident_mask nid page_mask m.

Definition uvm_va_block_cpu_clear_resident_all_chunks (c : move_ctx) (page_mask : gset Z) (m : migration)
    : migration :=
  if (mv_dest_id c =? UVM_ID_CPU) && bool_decide (mv_nodes c = ∅) then m
  else fold_left (clear_resident_node c page_mask) (mc_nodes cfg) m.

Definition block_set_resident_processor (id : Z) (m : migration) : migration :=
  mg_set_block (vb_set_processors (vb_resident (mg_block m) ∪ {[id]}) (mg_block m)) m.
Definition block_clear_resident_processor (id : Z) (m : migration) : migration :=
  mg_set_block (vb_set_processors (vb_resident (mg_block m) ∖ {[id]}) (mg_block m)) m.

(** The pages become resident on the destination. *)
Definition set_resident (c : move_ctx) (dst : Z) (pages : gset Z) (m : migration) : migration :=
  if dst =? UVM_ID_CPU then uvm_va_block_cpu_set_resident_all_chunks c pages m
  else mg_set_block (vb_set_gpu_resident dst (fun r => r ∪ pages) (mg_block m)) m.
End Residency.

(** ** Unmapping *)

Section Unmap.
Context `{E : Env}.

Definition block_unmap_gpu (cfg : perm_cfg) (b : va_block) (gpu : Z) (unmap_page_mask : gset Z)
    : K (nv_status * va_block) :=
  match uvm_va_block_gpu_state_get b gpu with
  | None => kret (NV_OK, b)
  | Some gs =>
      let pages := unmap_page_mask ∩ gs_pte_read gs in
      if bool_decide (pages = ∅) then kret (NV_OK, b)
      else
        st ← ext_status;                  (* block_alloc_ptes_new_state *)
        if negb (is_ok st) then kret (st, b)
        else
          st ← ext_status;                (* uvm_push_begin_acquire *)
          if negb (is_ok st) then kret (st, b)
          else
            let maybe :=
              if negb (bool_decide (gpu ∈ pc_lite_gpus cfg)) &&
                 Nat.eqb (size (vb_mapped b ∖ pc_lite_gpus cfg)) 1
              then vb_maybe_mapped b ∖ pages else vb_maybe_mapped b in
            let gs := gs_revoke UVM_PROT_READ_ONLY pages gs in
            let mapped := if bool_decide (gs_pte_read gs = ∅) then vb_mapped b ∖ {[gpu]} else vb_mapped b in
            let b := vb_set_mapped mapped maybe (vb_set_gpu gpu gs b) in
            st ← ext_status;              (* uvm_tracker_add_push_safe *)
            kret (st, b)
  end.

Definition uvm_va_block_unmap (cfg : perm_cfg) (b : va_block) (id : Z) (r : region)
    (unmap_page_mask : option (gset Z)) : K (nv_status * va_block) :=
  if id =? UVM_ID_CPU then kret (NV_OK, block_unmap_cpu b r unmap_page_mask)
  else block_unmap_gpu cfg b id (mask_from_region r unmap_page_mask).

Definition uvm_va_block_unmap_mask (cfg : perm_cfg) (b : va_block) (unmap_processor_mask : gset Z) (r : region)
    (unmap_page_mask : option (gset Z)) : K (nv_status * va_block) :=
  for_processors (fun b id => uvm_va_block_unmap cfg b id r unmap_page_mask) b unmap_processor_mask.
End Unmap.

(** ** Chunk allocation *)

(** [block_populate_pages_cpu] and [block_populate_pages_gpu]. *)
Class ChunkAllocator := {
  block_populate_pages_cpu : migration -> gset Z -> region -> move_ctx -> bool -> K (nv_status * migration * move_ctx);
  block_populate_pages_gpu : Z -> region -> gset Z -> migration -> K (nv_status * migration);
}.

(** The page is backed by memory at the location. *)
Definition populated (m : migration) (l : loc) : gset Z :=
  if l.1 =? UVM_ID_CPU then mg_allocated m l.2 else mg_chunks m l.1.

Definition zero_page : list Z := replicate (Z.to_nat PAGE_SIZE) 0.

(** Allocating adds memory, with zeroes in the pages resident nowhere, and
    touches nothing else; the GPU keeps the physical addresses of its resident
    pages. *)
Record grown (m m' : migration) : Prop := {
  gr_block     : mg_block m' = mg_block m \/
                 exists g gs phys, vb_gpus (mg_block m) !! g = Some gs /\ 0 < g /\
                   (forall p, p ∈ gs_resident gs -> phys p = gs_phys gs p) /\
                   mg_block m' = vb_set_gpu g (mk_gpu_state (gs_resident gs) phys (gs_pte_read gs) (gs_pte_write gs)
                                                 (gs_pte_atomic gs)) (mg_block m);
  gr_resident  : mg_resident m' = mg_resident m;
  gr_dup       : mg_dup m' = mg_dup m;
  gr_evicted   : mg_evicted m' = mg_evicted m;
  gr_gpus      : mg_evicted_gpus m' = mg_evicted_gpus m;
  gr_populated : forall l, populated m l ⊆ populated m' l;
  gr_mem       : forall l p, p ∈ populated m l -> mg_mem m' l p = mg_mem m l p;
  gr_zero      : forall l p, p ∈ populated m' l -> p ∉ populated m l -> p ∉ resident_anywhere m ->
                   mg_mem m' l p = zero_page;
}.

Class ChunkAllocatorSpec (cfg : mig_cfg) `{ChunkAllocator} : Prop := {
  populate_cpu_spec : forall m mask r c staged s,
    wp (block_populate_pages_cpu m mask r c staged)
      (fun '(st, m', c') _ => grown m m' /\ (c' = c \/ c' = mv_set_dest_nid NUMA_NO_NODE c) /\
         (st = NV_OK -> forall p, p ∈ mask -> p ∈ region_mask r -> exists nid, nid ∈ mc_nodes cfg /\ p ∈ mg_allocated m' nid)) s;
  populate_gpu_spec : forall g r mask m s, 0 < g ->
    wp (block_populate_pages_gpu g r mask m)
      (fun '(st, m') _ => grown m m' /\ (st = NV_OK -> mask ∩ region_mask r ⊆ mg_chunks m' g)) s;
  populate_cpu_lock : forall m mask r c staged ls, LockSpec ls (block_populate_pages_cpu m mask r c staged) ls;
  populate_gpu_lock : forall g r mask m ls, LockSpec ls (block_populate_pages_gpu g r mask m) ls;
}.

(** ** Copies *)

Section Copies.
Context `{E : Env} (cfg : mig_cfg).

(** The block of one copy: its ends, and [block_copy_state_t] with the staged
    ciphertexts, written here as what they decrypt to. *)
Record copy_state := mk_copy_state {
  cy_src     : loc;
  cy_dst     : loc;
  cy_staging : gmap Z (list Z);
  cy_gpu     : option Z;            (* copying_gpu, once a push is begun *)
}.

Definition block_copy_should_use_push (src dst : loc) : bool :=
  mc_cpu_ce cfg || negb ((src.1 =? UVM_ID_CPU) && (src.1 =? dst.1)).

Definition block_page_is_clean (m : migration) (src dst : loc) (page_index : Z) : bool :=
  mc_preferred cfg dst && (src.1 =? UVM_ID_CPU) && negb (dst.1 =? UVM_ID_CPU) &&
  negb (bool_decide (dst.1 ∈ mc_replayable cfg)) && negb (bool_decide (page_index ∈ mg_dirty m src.2)).

Definition block_update_page_dirty_state (src dst : loc) (page_index : Z) (m : migration) : migration :=
  if UVM_ID_IS_GPU dst.1 then m
  else mg_set_dirty (<[dst.2 := if mc_preferred cfg src then mg_dirty m dst.2 ∖ {[page_index]}
                                else mg_dirty m dst.2 ∪ {[page_index]}]> (mg_dirty m)) m.

(** The GPU that pushes the copy. *)
Definition copy_gpu (src dst : loc) : Z :=
  if (src.1 =? UVM_ID_CPU) && (dst.1 =? UVM_ID_CPU) then mc_cpu_gpu cfg src.2
  else if src.1 =? UVM_ID_CPU then dst.1 else src.1.

(** On an error after the DMA buffer was allocated, the buffer is the caller's
    to free. *)
Definition block_copy_begin_push (src dst : loc) (c : move_ctx) : K (nv_status * move_ctx) :=
  let gpu_to_gpu := negb (src.1 =? UVM_ID_CPU) && negb (dst.1 =? UVM_ID_CPU) in
  let to_gpu := src.1 =? UVM_ID_CPU in
  let begin c :=
    st ← ext_status;                      (* uvm_push_begin_acquire *)
    kret (st, if is_ok st then mv_set_push (mv_involved c) (mv_pushes c + 1) (mv_buffers c) c else c) in
  if negb gpu_to_gpu && env_cc then
    st ← ext_status;                      (* uvm_tracker_overwrite_safe *)
    if negb (is_ok st) then kret (st, c)
    else
      st ← ext_status;                    (* uvm_conf_computing_dma_buffer_alloc *)
      if negb (is_ok st) then kret (st, c)
      else
        let c := mv_set_push (mv_involved c) (mv_pushes c) (mv_buffers c + 1) c in
        if to_gpu then
          st ← ext_status;                (* uvm_tracker_wait *)
          if negb (is_ok st) then kret (st, c) else begin c
        else begin c
  else begin c.

(** The pages of [mem] at [dst] become those at [src]. *)
Definition copy_mem (src dst : loc) (pages : gset Z) (mem : loc -> Z -> list Z) : loc -> Z -> list Z :=
  fun l p => if bool_decide (l = dst) && bool_decide (p ∈ pages) then mem src p else mem l p.

Definition block_copy_push (r : region) (y : copy_state) (m : migration) : copy_state * migration :=
  if env_cc && negb ((cy_src y).1 =? UVM_ID_CPU)
  then (* encrypted to the staging buffer *)
    (mk_copy_state (cy_src y) (cy_dst y)
       (foldr (fun p (st : gmap Z (list Z)) => <[p := mg_mem m (cy_src y) p]> st) (cy_staging y) (region_pages r))
       (cy_gpu y), m)
  else (y, mg_set_mem (copy_mem (cy_src y) (cy_dst y) (region_mask r) (mg_mem m)) m).

(** [memcpy] of one page, between nodes. *)
Definition memcpy_page (src dst : loc) (m : migration) (p : Z) : migration :=
  let m := mg_set_mem (copy_mem src dst {[p]} (mg_mem m)) m in
  if bool_decide (p ∈ mg_dirty m src.2) then mg_set_dirty (<[dst.2 := mg_dirty m dst.2 ∪ {[p]}]> (mg_dirty m)) m
  else m.

Definition block_copy_pages (r : region) (y : copy_state) (m : migration) : K (nv_status * copy_state * migration) :=
  if block_copy_should_use_push (cy_src y) (cy_dst y)
  then let '(y, m) := block_copy_push r y m in kret (NV_OK, y, m)
  else
    st ← ext_status;                      (* uvm_tracker_wait *)
    if negb (is_ok st) then kret (st, y, m)
    else kret (NV_OK, y, fold_left (memcpy_page (cy_src y) (cy_dst y)) (region_pages r) m).

(** The decryption of the staged pages, in page order, stops at an error. *)
Definition conf_computing_copy_pages_finish (y : copy_state) (m : migration) : K (nv_status * migration) :=
  if UVM_ID_IS_GPU (cy_dst y).1 then kret (NV_OK, m)
  else
    st ← ext_status;                      (* uvm_push_wait *)
    if negb (is_ok st) then kret (st, m)
    else
      '(ex, m) ← kfold (fun m p =>
          st ← ext_status;                (* uvm_conf_computing_cpu_decrypt *)
          if negb (is_ok st) then kret (Some st, m)
          else kret (None, match cy_staging y !! p with
                           | Some v => mg_set_mem (fun l q => if bool_decide (l = cy_dst y) && (q =? p) then v
                                                              else mg_mem m l q) m
                           | None => m
                           end))
        m (pages_in_region_mask (uvm_va_block_region_from_block (mg_block m)) (dom (cy_staging y)));
      kret (loop_status ex, m).

Definition block_copy_end_push (push_status : nv_status) (y : copy_state) (m : migration) (c : move_ctx)
    : K (nv_status * migration * move_ctx) :=
  let c := mv_set_push (mv_involved c) (mv_pushes c - 1) (mv_buffers c) c in      (* uvm_push_end *)
  '(push_status, m) ← (if is_ok push_status && env_cc then conf_computing_copy_pages_finish y m
                       else kret (push_status, m));
  tracker_status ← ext_status;            (* uvm_tracker_add_push_safe *)
  let c := if env_cc then mv_set_push (mv_involved c) (mv_pushes c) (mv_buffers c - 1) c else c in
  kret (if is_ok push_status then tracker_status else push_status, m, c).

(** ** Copying from one location to another *)

(** The locals of [block_copy_resident_pages_between]. *)
Record copying := mk_copying {
  cg_mig   : migration;
  cg_ctx   : move_ctx;
  cg_copy  : copy_state;
  cg_page  : Z;                     (* page_index *)
  cg_last  : Z;                     (* last_index *)
  cg_start : Z;                     (* contig_start_index *)
  cg_cause : make_resident_cause;   (* contig_cause *)
  cg_return : bool;                 (* the function returned from inside the loop *)
}.

Definition cg_set (m : migration) (c : move_ctx) (y : copy_state) (g : copying) : copying :=
  mk_copying m c y (cg_page g) (cg_last g) (cg_start g) (cg_cause g) (cg_return g).
Definition cg_set_run (start : Z) (cause : make_resident_cause) (g : copying) : copying :=
  mk_copying (cg_mig g) (cg_ctx g) (cg_copy g) (cg_page g) (cg_last g) start cause (cg_return g).
Definition cg_at (page last : Z) (return_ : bool) (g : copying) : copying :=
  mk_copying (cg_mig g) (cg_ctx g) (cg_copy g) page last (cg_start g) (cg_cause g) return_.

Section Between.
Context (src dst : loc) (r : region) (prefetch_page_mask : option (gset Z)).

(** Both ends are one physical chunk: consecutive pages are copied together. *)
Definition both_contig (m : migration) : bool := mg_contig m src && mg_contig m dst.

Definition page_cause (c : move_ctx) (page_index : Z) : make_resident_cause :=
  let may_prefetch := bool_decide (mv_cause c ∈ [UVM_MAKE_RESIDENT_CAUSE_REPLAYABLE_FAULT;
                        UVM_MAKE_RESIDENT_CAUSE_NON_REPLAYABLE_FAULT; UVM_MAKE_RESIDENT_CAUSE_ACCESS_COUNTER]) in
  match prefetch_page_mask with
  | Some mask => if may_prefetch && bool_decide (page_index ∈ mask) then UVM_MAKE_RESIDENT_CAUSE_PREFETCH
                 else mv_cause c
  | None => mv_cause c
  end.

(** The push of the copy is begun at the first page; a copy between CPU nodes
    needs a GPU state for the GPU that makes it. *)
Definition copy_begin (g : copying) : K (nv_status * copying) :=
  if negb (block_copy_should_use_push src dst) then kret (NV_OK, g)
  else match cy_gpu (cg_copy g) with
  | Some _ => kret (NV_OK, g)
  | None =>
      '(st, c) ← block_copy_begin_push src dst (cg_ctx g);
      let g := cg_set (cg_mig g) c (cg_copy g) g in
      if negb (is_ok st) then kret (st, g)
      else
        let gpu := copy_gpu src dst in
        let y := mk_copy_state src dst (cy_staging (cg_copy g)) (Some gpu) in
        let g := cg_set (cg_mig g) c y g in
        let involve g := cg_set (cg_mig g) (mv_set_push (mv_involved (cg_ctx g) ∪ {[gpu]}) (mv_pushes (cg_ctx g))
                                              (mv_buffers (cg_ctx g)) (cg_ctx g)) (cg_copy g) g in
        if (dst.1 =? UVM_ID_CPU) && (src.1 =? dst.1) then
          ob ← block_gpu_state_get_alloc (mg_block (cg_mig g)) gpu;
          match ob with
          | None => kret (NV_ERR_NO_MEMORY, g)
          | Some b => kret (NV_OK, involve (cg_set (mg_set_block b (cg_mig g)) (cg_ctx g) y g))
          end
        else kret (NV_OK, involve g)
  end.

Definition copy_region (rg : region) (g : copying) : K (nv_status * copying) :=
  '(st, y, m) ← block_copy_pages rg (cg_copy g) (cg_mig g);
  kret (st, cg_set m (cg_ctx g) y g).

(** The first page opens a run; a page that does not continue it closes it. *)
Definition copy_run (page_index : Z) (g : copying) : K (nv_status * copying) :=
  let cause := page_cause (cg_ctx g) page_index in
  if cg_last g =? rg_outer r then kret (NV_OK, cg_set_run page_index cause g)
  else if negb (page_index =? cg_last g + 1) || negb (bool_decide (cg_cause g = cause)) then
    '(st, g) ← (if both_contig (cg_mig g) then copy_region (mk_region (cg_start g) (cg_last g + 1)) g
                else kret (NV_OK, g));
    if negb (is_ok st) then kret (st, g) else kret (NV_OK, cg_set_run page_index cause g)
  else kret (NV_OK, g).

Definition copy_page (g : copying) (page_index : Z) : K (option nv_status * copying) :=
  let g := cg_at page_index (cg_last g) false g in
  if block_page_is_clean (cg_mig g) src dst page_index then kret (None, g)
  else
    let c := cg_ctx g in
    let g := if cg_last g =? rg_outer r
             then cg_set (cg_mig g) (mv_set_push (mv_involved c ∪ {[dst.1]} ∪ {[src.1]}) (mv_pushes c) (mv_buffers c) c)
                    (cg_copy g) g
             else g in
    '(st, g) ← copy_begin g;
    if negb (is_ok st) then kret (Some st, g)
    else
      let g := cg_set (block_update_page_dirty_state src dst page_index (cg_mig g)) (cg_ctx g) (cg_copy g) g in
      '(st, g) ← copy_run page_index g;
      if negb (is_ok st) then kret (Some st, g)
      else
        '(st, g) ← (if both_contig (cg_mig g) then kret (NV_OK, g)
                    else copy_region (mk_region page_index (page_index + 1)) g);
        if negb (is_ok st) then kret (Some st, cg_at page_index (cg_last g) true g)
        else kret (None, cg_at page_index page_index false g).

(** The run still open, and the end of the push.  The status of the loop is
    replaced by that of the last copy when there is one. *)
Definition copy_rest (status : nv_status) (g : copying) : K (nv_status * copying) :=
  let rest := mk_region (cg_start g) (cg_last g + 1) in
  if (rg_first rest <? rg_outer rest) && (rg_first r <=? rg_first rest) && (rg_outer rest <=? rg_outer r) then
    '(status, g) ←
      (if both_contig (cg_mig g) then
         '(st, g) ← copy_region rest g;
         kret (st, if is_ok st then g else cg_at (cg_page g) (cg_last g) true g)
       else kret (status, g));
    if cg_return g then kret (status, g)
    else if block_copy_should_use_push src dst && bool_decide (is_Some (cy_gpu (cg_copy g))) then
      '(status, m, c) ← block_copy_end_push status (cg_copy g) (cg_mig g) (cg_ctx g);
      kret (status, cg_set m c (cg_copy g) g)
    else kret (status, g)
  else kret (status, g).

(** [migrated]: the caller passes [migrated_pages].  The result has the number of
    pages copied and the copy mask as it is left. *)
Definition block_copy_resident_pages_between (copy_mask : gset Z) (migrated : bool) (m : migration) (c : move_ctx)
    : K (nv_status * Z * gset Z * migration * move_ctx) :=
  let copy_mask := copy_mask ∖ resident_mask m dst in
  if bool_decide (copy_mask = ∅) then kret (NV_OK, 0, copy_mask, m, c)
  else
    let copy_mask := if migrated then copy_mask ∖ mv_migrated c else copy_mask in
    if bool_decide (copy_mask = ∅) then kret (NV_OK, 0, copy_mask, m, c)
    else
      '(ex, g) ← kfold copy_page
        (mk_copying m c (mk_copy_state src dst ∅ None) (rg_first r) (rg_outer r) (rg_outer r) (mv_cause c) false)
        (pages_in_region_mask r copy_mask);
      if cg_return g then kret (loop_status ex, 0, copy_mask, cg_mig g, cg_ctx g)
      else
        let g := cg_at (match ex with Some _ => cg_page g | None => rg_outer r end) (cg_last g) false g in
        '(status, g) ← copy_rest (loop_status ex) g;
        if cg_return g then kret (status, 0, copy_mask, cg_mig g, cg_ctx g)
        else
          let copy_mask := if is_ok status then copy_mask
                           else copy_mask ∖ region_mask (mk_region (cg_page g) PAGES_PER_UVM_VA_BLOCK) in
          let c := if migrated then mv_set_migrated (mv_migrated (cg_ctx g) ∪ copy_mask) (cg_ctx g) else cg_ctx g in
          kret (status, Z.of_nat (size copy_mask), copy_mask, cg_mig g, c).
End Between.

(** ** Copying from every source *)

(** Pages copied so far, the migration and its context. *)
Definition copied : Type := Z * migration * move_ctx.

Section Sources.
Context (dst : Z) (r : region) (page_mask prefetch_page_mask : option (gset Z)) (migrated : bool).

Definition block_copy_resident_pages_from (src : loc) (st : copied) : K (nv_status * copied) :=
  let '(n, m, c) := st in
  let copy_mask := mask_from_region r (Some (resident_mask m src)) ∩ default all_pages page_mask in
  if dst =? UVM_ID_CPU then
    '(ex, (n, m, c, _)) ← kfold (fun '(n, m, c, copy_mask) nid =>
        let node_pages := copy_mask ∩ mv_node_mask c nid in
        if bool_decide (node_pages = ∅) then kret (None, (n, m, c, copy_mask))
        else
          '(st, k, node_pages, m, c) ← block_copy_resident_pages_between src (dst, nid) r prefetch_page_mask
                                         node_pages migrated m c;
          let n := u32 (n + k) in
          if negb (is_ok st) then kret (Some st, (n, m, c, copy_mask))
          else
            let copy_mask := copy_mask ∖ node_pages in
            kret (if bool_decide (copy_mask = ∅) then Some NV_OK else None, (n, m, c, copy_mask)))
      (n, m, c, copy_mask) (ids_in_mask (mv_nodes c));
    kret (loop_status ex, (n, m, c))
  else
    '(st, k, _, m, c) ← block_copy_resident_pages_between src (dst, NUMA_NO_NODE) r prefetch_page_mask
                          copy_mask migrated m c;
    kret (st, (u32 (n + k), m, c)).

(** From the closest source on, until [max_pages_to_copy] pages are copied. *)
Definition copy_from_source (max_pages_to_copy : Z) (st : copied) (src : Z) : K (option nv_status * copied) :=
  '(status, st) ←
    (if src =? UVM_ID_CPU then
       '(ex, st) ← kfold (fun st nid =>
           '(status, st) ← block_copy_resident_pages_from (src, nid) st;
           kret (leave_on_error status, st)) st (mc_nodes cfg);
       kret (loop_status ex, st)
     else block_copy_resident_pages_from (src, NUMA_NO_NODE) st);
  if negb (is_ok status) then kret (Some status, st)
  else kret (if st.1.1 =? max_pages_to_copy then Some NV_OK else None, st).

Definition block_copy_resident_pages_mask (src_processor_mask : gset Z) (max_pages_to_copy : Z) (m : migration)
    (c : move_ctx) : K (nv_status * copied) :=
  search ← kmalloc;                        (* search_mask *)
  if negb search then kret (NV_ERR_NO_MEMORY, (0, m, c))
  else
    '(ex, st) ← kfold (copy_from_source max_pages_to_copy) (0, m, c) (env_closest dst src_processor_mask);
    kfree search;;
    kret (loop_status ex, st).
End Sources.

(** The nodes with memory for the pages, the closest first. *)
Definition block_select_cpu_node_pages (page_mask : gset Z) (r : region) (m : migration) (c : move_ctx) : move_ctx :=
  let node := if mv_dest_nid c =? NUMA_NO_NODE then mc_numa_mem_id cfg else mv_dest_nid c in
  if bool_decide (page_mask = ∅) then c
  else
    (fold_left (fun '(c, scratch, found) nid =>
        if (found : bool) then (c, scratch, true)
        else
          let node_mask := scratch ∩ mg_allocated m nid in
          let masks := <[nid := node_mask]> (mv_node_mask c) in
          if bool_decide (node_mask = ∅) then (mv_set_nodes (mv_nodes c) masks c, scratch, false)
          else
            let scratch := scratch ∖ node_mask in
            (mv_set_nodes (mv_nodes c ∪ {[nid]}) masks c, scratch, bool_decide (scratch = ∅)))
      (mc_closest_nodes cfg node) (c, mask_from_region r (Some page_mask), false)).1.1.

Definition block_get_can_copy_from_mask (from : Z) : gset Z := mc_can_copy_from cfg from.

(** The staged pages, from the nodes they were staged on. *)
Definition copy_staged (dst : Z) (r : region) (prefetch_page_mask : option (gset Z)) (m : migration) (c : move_ctx)
    : K (nv_status * migration * move_ctx) :=
  '(ex, (m, c)) ← kfold (fun '(m, c) nid =>
      let node_pages := mv_staged c ∩ mv_node_mask c nid in
      if bool_decide (node_pages = ∅) then kret (None, (m, c))
      else
        '(st, _, _, m, c) ← block_copy_resident_pages_between (UVM_ID_CPU, nid) (dst, NUMA_NO_NODE) r
                              prefetch_page_mask node_pages true m c;
        kret (leave_on_error st, (m, c)))
    (m, c) (ids_in_mask (mv_nodes c));
  kret (loop_status ex, m, c).

(** The copies to the CPU: of every page when it is the destination, of the
    staged ones otherwise; then those of the staged pages to the destination.
    [missing] pages remain to be copied. *)
Definition copy_through_cpu (dst : Z) (r : region) (prefetch_page_mask : option (gset Z)) (copy_page_mask : gset Z)
    (cpu_page_mask : gset Z) (src_processor_mask : gset Z) (missing : Z) (m : migration) (c : move_ctx)
    : K (nv_status * migration * move_ctx) :=
  let sources := vb_resident (mg_block m) ∖ src_processor_mask in
  let numa_resident := resident_mask m (UVM_ID_CPU, mv_dest_nid c) in
  let sources := if negb (dst =? UVM_ID_CPU) || bool_decide (copy_page_mask ⊆ numa_resident)
                 then sources ∖ {[dst]} ∖ {[UVM_ID_CPU]} else sources in
  '(status, (_, m, c)) ←
    (if bool_decide (cpu_page_mask = ∅) then kret (NV_OK, (0, m, c))
     else block_copy_resident_pages_mask UVM_ID_CPU r (Some cpu_page_mask) prefetch_page_mask (dst =? UVM_ID_CPU)
            sources missing m c);
  if negb (is_ok status) then kret (status, m, c)
  else if dst =? UVM_ID_CPU then kret (NV_OK, m, c)
  else
    status ← ext_status;                   (* uvm_tracker_add_tracker_safe *)
    if negb (is_ok status) then kret (status, m, c)
    else copy_staged dst r prefetch_page_mask m c.

Definition copy_to_destination (dst : Z) (r : region) (prefetch_page_mask : option (gset Z)) (copy_page_mask : gset Z)
    (missing : Z) (m : migration) (c : move_ctx) : K (nv_status * migration * move_ctx) :=
  if UVM_ID_IS_GPU dst then
    let sources := (block_get_can_copy_from_mask dst ∩ vb_resident (mg_block m)) ∖ {[dst]} in
    let c := block_select_cpu_node_pages (mv_staged c) r m c in
    '(status, (n, m, c)) ← block_copy_resident_pages_mask dst r (Some copy_page_mask) prefetch_page_mask true
                             sources missing m c;
    let missing := u32 (missing - n) in
    if negb (is_ok status) then kret (status, m, c)
    else if missing =? 0 then kret (NV_OK, m, c)
    else
      let copy_page_mask := if n =? 0 then copy_page_mask else copy_page_mask ∖ mv_migrated c in
      copy_through_cpu dst r prefetch_page_mask copy_page_mask (mv_staged c) sources missing m c
  else
    let c := block_select_cpu_node_pages copy_page_mask r m c in
    copy_through_cpu dst r prefetch_page_mask copy_page_mask copy_page_mask ∅ missing m c.

Definition block_copy_resident_pages (dst : Z) (r : region) (page_mask prefetch_page_mask : option (gset Z))
    (m : migration) (c : move_ctx) : K (nv_status * migration * move_ctx) :=
  let c := mv_set_migrated ∅ c in
  let copy_page_mask := pages_without page_mask (resident_mask m (dst, mv_dest_nid c)) in
  let missing := Z.of_nat (size (copy_page_mask ∩ region_mask r)) in
  '(status, m, c) ←
    (if missing =? 0 then kret (NV_OK, m, c)
     else
       p ← kmalloc;                        (* src_processor_mask *)
       if negb p then kret (NV_ERR_NO_MEMORY, m, c)
       else
         '(status, m, c) ← copy_to_destination dst r prefetch_page_mask copy_page_mask missing m c;
         kfree p;;
         kret (status, m, c));
  tracker_status ← ext_status;             (* uvm_tracker_add_tracker_safe *)
  kret (if is_ok status then tracker_status else status, m, c).
End Copies.

(** ** Making pages resident *)

Section MakeResident.
Context `{E : Env} `{A : ChunkAllocator} (cfg : mig_cfg).

(** [block_resident_mask_get_alloc]: a GPU state is allocated for a GPU. *)
Definition block_resident_mask_get_alloc (processor : Z) (m : migration) : K (option migration) :=
  if processor =? UVM_ID_CPU then kret (Some m)
  else
    ob ← block_gpu_state_get_alloc (mg_block m) processor;
    kret (match ob with Some b => Some (mg_set_block b m) | None => None end).

(** The pages to stage: those some processor [dest_id] cannot copy from has, and
    none it can copy from. *)
Definition pages_to_stage (dest_id : Z) (r : region) (populate_page_mask : gset Z) (m : migration) : gset Z :=
  let from := block_get_can_copy_from_mask cfg dest_id in
  let resident := vb_resident (mg_block m) in
  let mask id := uvm_va_block_resident_mask_get (mg_block m) id in
  let staged := foldl (fun acc id => acc ∪ (populate_page_mask ∩ mask id)) ∅ (ids_in_mask (resident ∖ from)) in
  foldl (fun acc id => acc ∖ mask id) staged (ids_in_mask (from ∩ resident)) ∩ region_mask r.

Definition block_populate_pages (dest_id : Z) (r : region) (page_mask : option (gset Z)) (m : migration)
    (c : move_ctx) : K (nv_status * migration * move_ctx) :=
  om ← block_resident_mask_get_alloc dest_id m;
  match om with
  | None => kret (NV_ERR_NO_MEMORY, m, c)
  | Some m =>
      let populate_page_mask := pages_without page_mask (resident_mask m (dest_id, mv_dest_nid c)) in
      if UVM_ID_IS_GPU dest_id then
        tmp ← kmalloc;                     (* tmp_processor_mask *)
        if negb tmp then kret (NV_ERR_NO_MEMORY, m, c)
        else
          '(status, m) ← block_populate_pages_gpu dest_id r populate_page_mask m;
          if negb (is_ok status) then kfree tmp;; kret (status, m, c)
          else
            let c := mv_set_staged ∅ c in
            if bool_decide (vb_resident (mg_block m) ∖ block_get_can_copy_from_mask cfg dest_id = ∅)
            then kfree tmp;; kret (status, m, c)
            else
              let c := mv_set_staged (pages_to_stage dest_id r populate_page_mask m) c in
              kfree tmp;;
              block_populate_pages_cpu m (mv_staged c) r c true
      else block_populate_pages_cpu m populate_page_mask r c false
  end.

Definition lift_block (f : va_block -> K (nv_status * va_block)) (m : migration) : K (nv_status * migration) :=
  '(st, b) ← f (mg_block m);
  kret (st, mg_set_block b m).

Definition uvm_va_block_make_resident_copy (dest_id : Z) (r : region) (page_mask prefetch_page_mask : option (gset Z))
    (cause : make_resident_cause) (m : migration) (c : move_ctx) : K (nv_status * migration * move_ctx) :=
  let c := mv_start dest_id cause c in
  p ← kmalloc;                             (* unmap_processor_mask *)
  if negb p then kret (NV_ERR_NO_MEMORY, m, c)
  else
    om ← block_resident_mask_get_alloc dest_id m;
    match om with
    | None => kfree p;; kret (NV_ERR_NO_MEMORY, m, c)
    | Some m =>
        let unmap_processor_mask := vb_mapped (mg_block m) ∖ pc_lite_gpus (mc_perm cfg) in
        let unmap_page_mask := pages_without page_mask (resident_mask m (dest_id, mv_dest_nid c)) ∩ region_mask r in
        '(status, m) ← lift_block (fun b => uvm_va_block_unmap_mask (mc_perm cfg) b unmap_processor_mask r
                                              (Some unmap_page_mask)) m;
        if negb (is_ok status) then kfree p;; kret (status, m, c)
        else
          let unmap_page_mask := default all_pages page_mask ∩ mg_dup m ∩ region_mask r in
          '(status, m) ← lift_block (fun b => uvm_va_block_unmap_mask (mc_perm cfg) b (unmap_processor_mask ∖ {[dest_id]})
                                                r (Some unmap_page_mask)) m;
          if negb (is_ok status) then kfree p;; kret (status, m, c)
          else
            '(status, m, c) ← block_populate_pages dest_id r page_mask m c;
            if negb (is_ok status) then kfree p;; kret (status, m, c)
            else
              '(status, m, c) ← block_copy_resident_pages cfg dest_id r page_mask prefetch_page_mask m c;
              kfree p;;
              kret (status, m, c)
    end.

Definition block_make_resident_clear_evicted (dst_id : Z) (page_mask : gset Z) (m : migration) : migration :=
  let evicted := mg_evicted m dst_id ∖ page_mask in
  mg_set_evicted (<[dst_id := evicted]> (mg_evicted m))
    (if bool_decide (evicted = ∅) then mg_evicted_gpus m ∖ {[dst_id]} else mg_evicted_gpus m) m.

Definition clear_evicted_if (dst_id : Z) (page_mask : gset Z) (m : migration) : migration :=
  if UVM_ID_IS_GPU dst_id && bool_decide (dst_id ∈ mg_evicted_gpus m)
  then block_make_resident_clear_evicted dst_id page_mask m else m.

Definition add_changed (pages : gset Z) (c : move_ctx) : move_ctx := mv_set_changed (mv_changed c ∪ pages) c.

Definition block_make_resident_update_state (dst_id : Z) (copy_mask : gset Z) (m : migration) (c : move_ctx)
    : migration * move_ctx :=
  let m := set_resident c dst_id copy_mask m in
  let m := block_set_resident_processor dst_id m in
  let c := add_changed copy_mask c in
  let b := mg_block m in
  let m := mg_set_block (vb_set_mapped (vb_mapped b) (vb_maybe_mapped b ∖ copy_mask) b) m in
  if bool_decide (mv_cause c = UVM_MAKE_RESIDENT_CAUSE_EVICTION) then
    (fold_left (fun m src => mg_set_evicted (<[src := mg_evicted m src ∪ copy_mask]> (mg_evicted m))
                               (mg_evicted_gpus m ∪ {[src]}) m)
       (filter (fun id => UVM_ID_IS_GPU id = true) (ids_in_mask (mv_involved c))) m, c)
  else (clear_evicted_if dst_id copy_mask m, c).

Definition block_copy_set_first_touch_residency (dst_id : Z) (r : region) (page_mask : option (gset Z))
    (m : migration) (c : move_ctx) : migration * move_ctx :=
  let first_touch := pages_without page_mask (uvm_va_block_resident_mask_get (mg_block m) dst_id) ∩ region_mask r in
  let m := set_resident c dst_id first_touch m in
  let m := if bool_decide (uvm_va_block_resident_mask_get (mg_block m) dst_id = ∅) then m
           else block_set_resident_processor dst_id m in
  (m, add_changed first_touch c).

(** One processor of the loop that leaves the pages resident at the destination
    alone. *)
Definition break_on (dst_id : Z) (pages : gset Z) (c : move_ctx) (m : migration) (id : Z) : migration :=
  if (id =? dst_id) && (negb (dst_id =? UVM_ID_CPU) || (mv_dest_nid c =? NUMA_NO_NODE)) then m
  else
    let m := if id =? UVM_ID_CPU then uvm_va_block_cpu_clear_resident_all_chunks cfg c pages m
             else mg_set_block (vb_set_gpu_resident id (fun r => r ∖ pages) (mg_block m)) m in
    if bool_decide (uvm_va_block_resident_mask_get (mg_block m) id = ∅) then block_clear_resident_processor id m else m.

Definition break_read_duplication_in_region (dst_id : Z) (r : region) (page_mask : option (gset Z)) (m : migration)
    (c : move_ctx) : migration :=
  let pages := mask_from_region r page_mask in
  let m := mg_set_dup (mg_dup m ∖ pages) m in
  fold_left (break_on dst_id pages c) (ids_in_mask (vb_resident (mg_block m))) m.

Definition uvm_va_block_make_resident_finish (r : region) (page_mask : option (gset Z)) (m : migration) (c : move_ctx)
    : migration * move_ctx :=
  let dst_id := mv_dest_id c in
  let c := match page_mask with Some mask => mv_set_migrated (mv_migrated c ∩ mask) c | None => c end in
  let '(m, c) := if bool_decide (mv_migrated c = ∅) then (m, c)
                 else block_make_resident_update_state dst_id (mv_migrated c) m c in
  let '(m, c) := block_copy_set_first_touch_residency dst_id r page_mask m c in
  (break_read_duplication_in_region dst_id r page_mask m c, c).

Definition uvm_va_block_make_resident (dest_id : Z) (r : region) (page_mask prefetch_page_mask : option (gset Z))
    (cause : make_resident_cause) (m : migration) (c : move_ctx) : K (nv_status * migration * move_ctx) :=
  '(status, m, c) ← uvm_va_block_make_resident_copy dest_id r page_mask prefetch_page_mask cause m c;
  if negb (is_ok status) then kret (status, m, c)
  else let '(m, c) := uvm_va_block_make_resident_finish r page_mask m c in kret (NV_OK, m, c).

(** ** Read duplication *)

Definition block_prep_read_duplicate_mapping (b : va_block) (revoke_id : Z) (r : region) (page_mask : gset Z)
    : K (nv_status * va_block) :=
  p ← kmalloc;                             (* unmap_processor_mask *)
  if negb p then kret (NV_ERR_NO_MEMORY, b)
  else
    '(ex, b) ← kfold (fun b id =>
        '(st, b) ← uvm_va_block_unmap (mc_perm cfg) b id r (Some page_mask);
        kret (leave_on_error st, b))
      b (ids_in_mask (vb_mapped b ∖ pc_lite_gpus (mc_perm cfg) ∖ {[revoke_id]}));
    '(status, b) ← match ex with
                   | Some st => kret (st, b)
                   | None => uvm_va_block_revoke_prot (mc_perm cfg) b revoke_id r (Some page_mask) UVM_PROT_READ_WRITE
                   end;
    tracker_status ← ext_status;           (* uvm_tracker_add_tracker_safe *)
    kfree p;;
    kret (if is_ok status then tracker_status else status, b).

(** The owners of the pages that enter read duplication lose write access, every
    other processor its mapping. *)
Definition prepare_duplication (r : region) (page_mask : option (gset Z)) (m : migration) : K (nv_status * migration) :=
  '(ex, m) ← kfold (fun m src_id =>
      let pages := pages_without page_mask (mg_dup m) ∩ uvm_va_block_resident_mask_get (mg_block m) src_id in
      if bool_decide (pages = ∅) then kret (None, m)
      else
        '(st, m) ← lift_block (fun b => block_prep_read_duplicate_mapping b src_id r pages) m;
        kret (leave_on_error st, m))
    m (ids_in_mask (vb_resident (mg_block m)));
  kret (loop_status ex, m).

(** The residency update of [uvm_va_block_make_resident_read_duplicate]. *)
Definition duplicate_finish (dest_id : Z) (r : region) (page_mask : option (gset Z)) (m : migration) (c : move_ctx)
    : migration * move_ctx :=
  let migrated := mv_migrated c in
  let scratch := mask_from_region r page_mask ∖ migrated in
  let '(m, c) := if bool_decide (scratch = ∅) then (m, c)
                 else block_copy_set_first_touch_residency dest_id r (Some scratch) m c in
  let staged := mv_staged c in
  let m := if negb (dest_id =? UVM_ID_CPU) && negb (bool_decide (staged = ∅)) then
             let m := uvm_va_block_cpu_set_resident_all_chunks c staged m in
             mg_set_dup (mg_dup m ∪ staged) (block_set_resident_processor UVM_ID_CPU m)
           else m in
  let m := if bool_decide (migrated = ∅) then m
           else
             let scratch := uvm_va_block_resident_mask_get (mg_block m) UVM_ID_CPU ∩ migrated in
             let m := if (dest_id =? UVM_ID_CPU) && bool_decide (UVM_ID_CPU ∈ vb_resident (mg_block m)) &&
                         negb (bool_decide (scratch = ∅))
                      then uvm_va_block_cpu_clear_resident_all_chunks cfg c scratch m else m in
             let m := set_resident c dest_id migrated m in
             mg_set_dup (mg_dup m ∪ migrated) (block_set_resident_processor dest_id m) in
  (clear_evicted_if dest_id migrated m, c).

Definition uvm_va_block_make_resident_read_duplicate (dest_id : Z) (r : region)
    (page_mask prefetch_page_mask : option (gset Z)) (cause : make_resident_cause) (m : migration) (c : move_ctx)
    : K (nv_status * migration * move_ctx) :=
  let c := mv_start dest_id cause c in
  p ← kmalloc;                             (* scratch_residency_mask *)
  if negb p then kret (NV_ERR_NO_MEMORY, m, c)
  else
    '(status, m) ← prepare_duplication r page_mask m;
    if negb (is_ok status) then kfree p;; kret (status, m, c)
    else
      '(status, m, c) ← block_populate_pages dest_id r page_mask m c;
      if negb (is_ok status) then kfree p;; kret (status, m, c)
      else
        '(status, m, c) ← block_copy_resident_pages cfg dest_id r page_mask prefetch_page_mask m c;
        if negb (is_ok status) then kfree p;; kret (status, m, c)
        else
          let '(m, c) := duplicate_finish dest_id r page_mask m c in
          kfree p;;
          kret (NV_OK, m, c).
End MakeResident.
