(* ===== verification/MigrationFrame.v ===== *)
(** What migration keeps, in any environment and configuration: unmapping takes
    permissions away, copying only writes memory, and the residency updates leave
    permissions alone ([moved]). *)
From stdpp Require Import functions sorting.
From S2P Require Import Prelude Kernel VaBlock Permissions Migration.

(** ** Blocks *)

(** Neither the residency nor a permission changes, and no GPU state goes. *)
Record quietly (b b' : va_block) : Prop := {
  qu_step : perm_step b b';
  qu_prot : forall h q, prot_pages b' h q = prot_pages b h q;
  qu_gpus : forall g, is_Some (vb_gpus b !! g) -> is_Some (vb_gpus b' !! g);
}.

#[export] Instance quietly_preorder : PreOrder quietly.
Proof.
  split; [by constructor|]. intros b1 b2 b3 [H1 H2 H3] [G1 G2 G3]. constructor.
  - by etransitivity.
  - intros. by rewrite G2, H2.
  - auto.
Qed.

Lemma set_gpu_some b g gs h : is_Some (vb_gpus b !! h) -> is_Some (vb_gpus (vb_set_gpu g gs b) !! h).
Proof.
  intros Hh. cbn. destruct (decide (h = g)) as [->|]; [rewrite lookup_insert_eq; eauto|by rewrite lookup_insert_ne].
Qed.

Lemma zero_state_quietly b id :
  vb_gpus b !! id = None -> quietly b (vb_set_gpu id gpu_state_zero b).
Proof.
  intros Hn.
  assert (forall h, gpu_state_of (vb_set_gpu id gpu_state_zero b) h = gpu_state_of b h) as Hg.
  { intros h. unfold gpu_state_of. cbn. destruct (decide (h = id)) as [->|].
    - by rewrite lookup_insert_eq, Hn.
    - by rewrite lookup_insert_ne. }
  constructor; [split| |apply set_gpu_some].
  - apply same_pages_set_gpu. by rewrite Hn.
  - intros Hwf. constructor; cbn; try apply Hwf.
    + intros h gs [[<- <-]|[_ Hh]]%lookup_insert_Some; [apply gs_wf_zero|]. by apply (pw_gpu _ Hwf h).
    + intros h gs [[<- <-]|[_ Hh]]%lookup_insert_Some; [done|]. by apply (pw_mapped _ Hwf h).
    + intros h H0 Hh. destruct (decide (h = id)) as [->|]; [rewrite lookup_insert_eq; eauto|].
      rewrite lookup_insert_ne by done. by apply Hwf.
  - intros h q. unfold prot_pages. by rewrite Hg.
Qed.

Lemma state_alloc_quietly `{E : Env} b id s :
  wp (block_gpu_state_get_alloc b id)
    (fun ob _ => match ob with Some b' => quietly b b' /\ is_Some (vb_gpus b' !! id) | None => True end) s.
Proof.
  unfold block_gpu_state_get_alloc, uvm_va_block_gpu_state_get.
  destruct (vb_gpus b !! id) eqn:Hg; [by apply wp_ret; rewrite Hg|].
  wsteps; try done; intros. split; [by apply zero_state_quietly|]. cbn. rewrite lookup_insert_eq. eauto.
Qed.

(** Pages [M] may be unmapped. *)
Record unmap_effect (b : va_block) (M : gset Z) (b' : va_block) : Prop := {
  ue_step : perm_step b b';
  ue_le   : forall h q, prot_pages b' h q ⊆ prot_pages b h q;
  ue_only : forall h q, prot_pages b h q ⊆ prot_pages b' h q ∪ M;
}.

Lemma unmap_effect_refl b M : unmap_effect b M b.
Proof. constructor; try done; set_solver. Qed.
Lemma unmap_effect_trans b1 b2 b3 M : unmap_effect b1 M b2 -> unmap_effect b2 M b3 -> unmap_effect b1 M b3.
Proof.
  intros [H1 H2 H3] [G1 G2 G3]. constructor; [by etransitivity|..]; intros h q.
  - etransitivity; [apply G2|apply H2].
  - specialize (H3 h q). specialize (G3 h q). set_solver.
Qed.

(** What migrating keeps of the block: its bounds and flags; permissions only
    shrink. *)
Record moved (b b' : va_block) : Prop := {
  md_start    : vb_start b' = vb_start b;
  md_end      : vb_end b' = vb_end b;
  md_tracking : vb_tracking b' = vb_tracking b;
  md_dirty    : vb_dirty b' = vb_dirty b;
  md_wf       : perm_wf b -> perm_wf b';
  md_gpu      : forall g q, g <> UVM_ID_CPU -> prot_pages b' g q ⊆ prot_pages b g q;
  md_cpu      : vb_cpu_pte_write b' ⊆ vb_cpu_pte_write b;
}.

#[export] Instance moved_preorder : PreOrder moved.
Proof.
  split; [by constructor|]. intros b1 b2 b3 [] []. constructor; auto; try congruence.
  - intros g q Hg. etransitivity; [by apply md_gpu1|by apply md_gpu0].
  - by etransitivity.
Qed.

Lemma cpu_write_pages b : prot_pages b UVM_ID_CPU UVM_PROT_READ_WRITE = vb_cpu_pte_write b.
Proof. done. Qed.

Lemma quietly_moved b b' : quietly b b' -> moved b b'.
Proof.
  intros [[[] Hwf] H _]. constructor; try done; [intros; by rewrite H|].
  by rewrite <- !cpu_write_pages, H.
Qed.

Lemma unmap_moved b M b' : unmap_effect b M b' -> moved b b'.
Proof.
  intros [[[] Hwf] H _]. constructor; try done. rewrite <- !cpu_write_pages. apply H.
Qed.

Lemma revoke_moved b M b' : revoke_effect b M b' -> moved b b'.
Proof. intros [[[] Hwf] H _ Hw _]. by constructor. Qed.

(** Permissions read the PTE bits, not the residency. *)
Lemma prot_pages_ext b b' :
  vb_cpu_pte_read b' = vb_cpu_pte_read b -> vb_cpu_pte_write b' = vb_cpu_pte_write b ->
  (forall g q, gpu_pte_bits (gpu_state_of b' g) q = gpu_pte_bits (gpu_state_of b g) q) ->
  forall h q, prot_pages b' h q = prot_pages b h q.
Proof. intros Hr Hw Hg h q. unfold prot_pages. by rewrite Hr, Hw, Hg. Qed.

Lemma set_gpu_bits b g gs gs' :
  vb_gpus b !! g = Some gs -> gs_pte_read gs' = gs_pte_read gs -> gs_pte_write gs' = gs_pte_write gs ->
  gs_pte_atomic gs' = gs_pte_atomic gs ->
  (forall h q, prot_pages (vb_set_gpu g gs' b) h q = prot_pages b h q) /\
  (perm_wf b -> perm_wf (vb_set_gpu g gs' b)).
Proof.
  intros Hg Hr Hw Ha. split.
  - apply prot_pages_ext; [done..|]. intros h q. unfold gpu_state_of. cbn.
    destruct (decide (h = g)) as [->|]; [|by rewrite lookup_insert_ne].
    rewrite lookup_insert_eq, Hg. cbn. unfold gpu_pte_bits. by rewrite Hr, Hw, Ha.
  - intros Hwf. constructor; cbn; try apply Hwf.
    + intros h gs1 [[<- <-]|[_ Hh]]%lookup_insert_Some; [|by apply (pw_gpu _ Hwf h)].
      destruct (pw_gpu _ Hwf g gs Hg) as [Haw Hwr]. split; by rewrite ?Ha, ?Hw, ?Hr.
    + intros h gs1 [[<- <-]|[_ Hh]]%lookup_insert_Some H0 Hm; [|by apply (pw_mapped _ Hwf h)].
      rewrite Hr. by apply (pw_mapped _ Hwf g).
    + intros h H0 Hh. destruct (decide (h = g)) as [->|]; [rewrite lookup_insert_eq; eauto|].
      rewrite lookup_insert_ne by done. by apply Hwf.
Qed.

Lemma set_gpu_resident_moved b g f : moved b (vb_set_gpu_resident g f b).
Proof.
  unfold vb_set_gpu_resident. destruct (vb_gpus b !! g) as [gs|] eqn:Hg; [|done].
  destruct (set_gpu_bits b g gs (gs_set_resident (f (gs_resident gs)) gs) Hg) as [Hp Hwf]; [done..|].
  constructor; try done. intros. by rewrite Hp.
Qed.

Lemma set_cpu_resident_moved b r page : moved b (vb_set_cpu_resident r page b).
Proof. constructor; try done. intros []. by constructor. Qed.
Lemma set_processors_moved b r : moved b (vb_set_processors r b).
Proof. constructor; try done. intros []. by constructor. Qed.
Lemma set_maybe_moved b m : moved b (vb_set_mapped (vb_mapped b) m b).
Proof. constructor; try done. intros []. by constructor. Qed.
#[export] Hint Resolve set_gpu_resident_moved set_cpu_resident_moved set_processors_moved set_maybe_moved : core.

(** ** Unmapping *)

Section Unmap.
Context `{E : Env}.

Lemma unmapped_gpu_effect b g gs pages :
  g <> UVM_ID_CPU -> vb_gpus b !! g = Some gs -> perm_wf b ->
  let gs' := gs_revoke UVM_PROT_READ_ONLY pages gs in
  forall maybe, unmap_effect b pages
    (vb_set_mapped (if bool_decide (gs_pte_read gs' = ∅) then vb_mapped b ∖ {[g]} else vb_mapped b) maybe
       (vb_set_gpu g gs' b)).
Proof.
  intros Hg0 Hg Hwf gs' maybe. set (mm := if bool_decide _ then _ else _).
  assert (forall h q, prot_pages (vb_set_mapped mm maybe (vb_set_gpu g gs' b)) h q =
    if decide (h = g) then gpu_pte_bits gs' q else prot_pages b h q) as Hp.
  { intros h q. unfold prot_pages, gpu_state_of. cbn. destruct (Z.eqb_spec h UVM_ID_CPU) as [->|].
    - by rewrite decide_False.
    - destruct (decide (h = g)) as [->|]; [by rewrite lookup_insert_eq|by rewrite lookup_insert_ne]. }
  assert (forall q, prot_pages b g q = gpu_pte_bits gs q) as Hbg.
  { intros q. unfold prot_pages, gpu_state_of. rewrite Hg.
    by destruct (Z.eqb_spec g UVM_ID_CPU). }
  constructor.
  - split.
    + etransitivity; [by apply (same_pages_set_gpu b g gs'); rewrite Hg|apply same_pages_set_mapped].
    + intros _. constructor; cbn; try apply Hwf.
      * intros h gs1 [[<- <-]|[_ Hh]]%lookup_insert_Some; [apply (gs_wf_revoke UVM_PROT_READ_ONLY pages gs), (pw_gpu _ Hwf g), Hg|].
        by apply (pw_gpu _ Hwf h).
      * intros h gs1 [[<- <-]|[Hne Hh]]%lookup_insert_Some H0 Hm; subst mm.
        -- destruct (bool_decide _) eqn:He in Hm; bprop; [done|].
           apply (pw_mapped _ Hwf g gs Hg) in Hm; [|done]. cbn. rewrite Hm. set_solver.
        -- apply (pw_mapped _ Hwf h gs1 Hh H0). destruct (bool_decide _); set_solver.
      * intros Hm. apply Hwf. subst mm. destruct (bool_decide _); [|done].
        set_solver.
      * intros h H0 Hh. destruct (decide (h = g)) as [->|]; [rewrite lookup_insert_eq; eauto|].
        rewrite lookup_insert_ne by done. apply Hwf; [done|]. subst mm. destruct (bool_decide _); set_solver.
  - intros h q. rewrite Hp. destruct (decide (h = g)) as [->|]; [|done]. rewrite Hbg. destruct q; cbn; set_solver.
  - intros h q. rewrite Hp. destruct (decide (h = g)) as [->|]; [|set_solver]. rewrite Hbg. intros x Hx.
    destruct (decide (x ∈ pages)); destruct q; cbn in *; set_solver.
Qed.

Lemma unmap_gpu_spec cfg b g M s :
  g <> UVM_ID_CPU -> perm_wf b ->
  wp (block_unmap_gpu cfg b g M)
    (fun '(st, b') _ => unmap_effect b M b' /\ (st = NV_OK -> forall q, prot_pages b' g q ∩ M = ∅)) s.
Proof.
  intros Hg0 Hwf. unfold block_unmap_gpu, uvm_va_block_gpu_state_get.
  assert (forall b q, prot_pages b g q = gpu_pte_bits (gpu_state_of b g) q) as Hpp.
  { intros b1 q. unfold prot_pages. by destruct (Z.eqb_spec g UVM_ID_CPU). }
  pose proof (unmap_effect_refl b M) as Hrefl.
  destruct (vb_gpus b !! g) as [gs|] eqn:Hg.
  2:{ apply wp_ret. split; [done|]. intros _ q. rewrite Hpp. unfold gpu_state_of. rewrite Hg. destruct q; set_solver. }
  set (pages := M ∩ gs_pte_read gs). pose proof (pw_gpu _ Hwf g gs Hg) as [Haw Hwr].
  apply wp_if; intros He; bprop.
  { apply wp_ret. split; [done|]. intros _ q. rewrite Hpp. unfold gpu_state_of. rewrite Hg.
    destruct q; cbn; subst pages; set_solver. }
  apply wp_bind, wp_any; intros st1 s1. apply wp_if; intros H1; [apply wp_ret; split; [done|]; bprop; done|].
  apply wp_bind, wp_any; intros st2 s2. apply wp_if; intros H2; [apply wp_ret; split; [done|]; bprop; done|].
  apply wp_bind, wp_any; intros st3 s3. apply wp_ret. cbv zeta.
  match goal with |- unmap_effect _ _ (vb_set_mapped _ ?mb _) /\ _ => destruct (unmapped_gpu_effect b g gs pages Hg0 Hg Hwf mb) as [G1 G2 G3] end.
  split; [split; [done|done|]|].
  - intros h q. etransitivity; [apply G3|]. subst pages. set_solver.
  - intros _ q. rewrite Hpp. unfold gpu_state_of. cbn [vb_set_mapped vb_set_gpu vb_gpus].
    rewrite lookup_insert_eq. destruct q; cbn; subst pages; set_solver.
Qed.

Lemma unmap_cpu_effect b r m : perm_wf b -> unmap_effect b (mask_from_region r m) (block_unmap_cpu b r m).
Proof.
  intros Hwf. destruct (block_unmap_cpu_spec b r m Hwf) as (Hs & Hr & Hw).
  assert (forall h q, prot_pages (block_unmap_cpu b r m) h q =
    if h =? UVM_ID_CPU then prot_pages b h q ∖ mask_from_region r m else prot_pages b h q) as Hp.
  { intros h q. unfold prot_pages, gpu_state_of. rewrite (cs_gpus _ _ Hs), Hr, Hw. cases; done. }
  constructor.
  - split; apply Hs.
  - intros h q. rewrite Hp. destruct (_ =? _); set_solver.
  - intros h q. rewrite Hp. intros x Hx. destruct (_ =? _); [|set_solver].
    destruct (decide (x ∈ mask_from_region r m)); set_solver.
Qed.

Lemma unmap_spec cfg b id r m s :
  perm_wf b ->
  wp (uvm_va_block_unmap cfg b id r m)
    (fun '(st, b') _ => unmap_effect b (mask_from_region r m) b' /\
       (st = NV_OK -> forall q, prot_pages b' id q ∩ mask_from_region r m = ∅)) s.
Proof.
  intros Hwf. unfold uvm_va_block_unmap. apply wp_if; intros Hc; bprop.
  - apply wp_ret. split; [by apply unmap_cpu_effect|]. intros _ q. subst id.
    destruct (block_unmap_cpu_spec b r m Hwf) as (_ & Hr & Hw). unfold prot_pages. cbn.
    rewrite Hr, Hw. destruct (writable q); set_solver.
  - by apply unmap_gpu_spec.
Qed.

Lemma unmap_mask_spec cfg b mask r m s :
  perm_wf b ->
  wp (uvm_va_block_unmap_mask cfg b mask r m)
    (fun '(st, b') _ => unmap_effect b (mask_from_region r m) b' /\
       (st = NV_OK -> forall id, id ∈ mask -> forall q, prot_pages b' id q ∩ mask_from_region r m = ∅)) s.
Proof.
  intros Hwf. apply (for_processors_spec _ (unmap_effect b (mask_from_region r m))
    (fun b id => forall q, prot_pages b id q ∩ mask_from_region r m = ∅)); [apply unmap_effect_refl|].
  intros b1 id s1 HR Hin. pose proof (ps_wf _ _ (ue_step _ _ _ HR) Hwf) as Hwf1.
  eapply wp_mono; [apply unmap_spec; auto|]. intros [st b2] s2 [H1 H2].
  split; [by eapply unmap_effect_trans|]. split; [done|]. intros id' HD q.
  pose proof (ue_le _ _ _ H1 id' q). specialize (HD q). set_solver.
Qed.
End Unmap.

(** ** Copying *)

(** What copying keeps of the migration: everything but the contents of pages
    and the CPU pages' dirty bits. *)
Record copy_frame (x y : migration * move_ctx) : Prop := {
  cf_block     : quietly (mg_block x.1) (mg_block y.1);
  cf_resident  : mg_resident y.1 = mg_resident x.1;
  cf_allocated : mg_allocated y.1 = mg_allocated x.1;
  cf_chunks    : mg_chunks y.1 = mg_chunks x.1;
  cf_contig    : mg_contig y.1 = mg_contig x.1;
  cf_dup       : mg_dup y.1 = mg_dup x.1;
  cf_evicted   : mg_evicted y.1 = mg_evicted x.1;
  cf_gpus      : mg_evicted_gpus y.1 = mg_evicted_gpus x.1;
  cf_dest      : mv_dest_id y.2 = mv_dest_id x.2;
  cf_dest_nid  : mv_dest_nid y.2 = mv_dest_nid x.2;
  cf_cause     : mv_cause y.2 = mv_cause x.2;
  cf_staged    : mv_staged y.2 = mv_staged x.2;
  cf_changed   : mv_changed y.2 = mv_changed x.2;
}.

#[export] Instance copy_frame_preorder : PreOrder copy_frame.
Proof.
  split; [by constructor|]. intros x y z [] []. constructor; try congruence. by etransitivity.
Qed.

Lemma frame_ctx m c involved pushes buffers : copy_frame (m, c) (m, mv_set_push involved pushes buffers c).
Proof. by constructor. Qed.
Lemma frame_migrated m c pages : copy_frame (m, c) (m, mv_set_migrated pages c).
Proof. by constructor. Qed.
Lemma frame_nodes m c nodes masks : copy_frame (m, c) (m, mv_set_nodes nodes masks c).
Proof. by constructor. Qed.
Lemma frame_mem m c mem : copy_frame (m, c) (mg_set_mem mem m, c).
Proof. by constructor. Qed.
Lemma frame_dirty m c d : copy_frame (m, c) (mg_set_dirty d m, c).
Proof. by constructor. Qed.
#[export] Hint Resolve frame_ctx frame_migrated frame_nodes frame_mem frame_dirty : core.

(** A loop keeps a preorder its body keeps. *)
Lemma wp_kfold_rel `{E : Env} {L A X} (R : X -> X -> Prop) `{!PreOrder R} (v : L -> X)
    (f : L -> A -> K (option nv_status * L)) xs l s :
  (forall l x s, x ∈ xs -> wp (f l x) (fun res _ => R (v l) (v res.2)) s) ->
  wp (kfold f l xs) (fun res _ => R (v l) (v res.2)) s.
Proof.
  intros Hf. apply (wp_kfold (fun l' _ => R (v l) (v l'))); [|done].
  intros l1 x s1 Hx H1. eapply wp_mono; [by apply Hf|]. intros res s2 H2. by etransitivity.
Qed.

Section CopyFrame.
Context `{E : Env} (cfg : mig_cfg).

Definition cg_pair (g : copying) : migration * move_ctx := (cg_mig g, cg_ctx g).

Lemma begin_push_frame m src dst c s :
  wp (block_copy_begin_push src dst c) (fun '(_, c') _ => copy_frame (m, c) (m, c')) s.
Proof.
  unfold block_copy_begin_push. cbv zeta. repeat wstep; repeat case_match; by constructor.
Qed.

Lemma copy_pages_frame rg y m c s :
  wp (block_copy_pages cfg rg y m) (fun '(_, _, m') _ => copy_frame (m, c) (m', c)) s.
Proof.
  unfold block_copy_pages, block_copy_push. apply wp_if; intros _.
  - destruct (_ && _); by apply wp_ret.
  - apply wp_bind, wp_any; intros st s1. apply wp_if; intros _; [by apply wp_ret|]. apply wp_ret.
    generalize (region_pages rg); intros l. revert m; induction l as [|p l IH]; intros m; cbn [fold_left]; [done|].
    etransitivity; [|apply IH]. unfold memcpy_page. destruct (bool_decide _); [|done].
    etransitivity; [apply (frame_mem m c)|apply frame_dirty].
Qed.

Lemma finish_frame y m c s :
  wp (conf_computing_copy_pages_finish y m) (fun '(_, m') _ => copy_frame (m, c) (m', c)) s.
Proof.
  unfold conf_computing_copy_pages_finish. apply wp_if; intros _; [by apply wp_ret|].
  apply wp_bind, wp_any; intros st s1. apply wp_if; intros _; [by apply wp_ret|]. apply wp_bind.
  eapply wp_mono; [apply (wp_kfold_rel copy_frame (fun m => (m, c)))|].
  - intros m1 p s2 _. apply wp_bind, wp_any; intros st2 s3. apply wp_if; intros _; apply wp_ret; [done|].
    by destruct (cy_staging y !! p).
  - intros [ex m1] s2 H. by apply wp_ret.
Qed.

Lemma end_push_frame st y m c s :
  wp (block_copy_end_push st y m c) (fun '(_, m', c') _ => copy_frame (m, c) (m', c')) s.
Proof.
  unfold block_copy_end_push. cbv zeta. set (c1 := mv_set_push _ _ _ c). apply wp_bind.
  apply (wp_mono _ (fun '(_, m') _ => copy_frame (m, c) (m', c1))).
  - apply wp_if; intros _; [|by apply wp_ret]. eapply wp_mono; [apply (finish_frame y m c1)|].
    intros [st1 m1] s1 H. by etransitivity; [apply frame_ctx|].
  - intros [st1 m1] s1 H. apply wp_bind, wp_any; intros st2 s2. apply wp_ret. destruct env_cc; [|done].
    by etransitivity; [exact H|].
Qed.

Section Between.
Context (src dst : loc) (r : region) (pf : option (gset Z)).

Lemma copy_begin_frame g s :
  wp (copy_begin cfg src dst g) (fun '(_, g') _ => copy_frame (cg_pair g) (cg_pair g')) s.
Proof.
  unfold copy_begin. apply wp_if; intros _; [by apply wp_ret|].
  destruct (cy_gpu (cg_copy g)); [by apply wp_ret|]. apply wp_bind.
  eapply wp_mono; [apply (begin_push_frame (cg_mig g))|]. intros [st c] s1 Hc. apply wp_if; intros _; [by apply wp_ret|].
  cbv zeta. apply wp_if; intros Hcpu; [|apply wp_ret; by etransitivity; [exact Hc|]].
  apply wp_bind. eapply wp_mono; [apply state_alloc_quietly|]. intros [b|] s2 Hb; apply wp_ret; [|done].
  cbn in *. etransitivity; [exact Hc|]. destruct Hb as [Hb _]. by constructor.
Qed.

Lemma copy_region_frame rg g s :
  wp (copy_region cfg rg g) (fun '(_, g') _ => copy_frame (cg_pair g) (cg_pair g') /\ cg_return g' = cg_return g) s.
Proof.
  unfold copy_region. apply wp_bind. eapply wp_mono; [apply (copy_pages_frame rg _ _ (cg_ctx g))|].
  intros [[st y] m] s1 H. by apply wp_ret.
Qed.

Lemma copy_run_frame p g s :
  wp (copy_run cfg src dst r pf p g) (fun '(_, g') _ => copy_frame (cg_pair g) (cg_pair g')) s.
Proof.
  unfold copy_run. cbv zeta. apply wp_if; intros _; [by apply wp_ret|]. apply wp_if; intros _; [|by apply wp_ret].
  apply wp_bind. apply (wp_mono _ (fun '(_, g') _ => copy_frame (cg_pair g) (cg_pair g'))).
  - apply wp_if; intros _; [|by apply wp_ret]. eapply wp_mono; [apply copy_region_frame|]. by intros [st g1] s1 [H _].
  - intros [st g1] s1 H. apply wp_if; intros _; by apply wp_ret.
Qed.

Lemma copy_page_frame g p s :
  wp (copy_page cfg src dst r pf g p) (fun '(_, g') _ => copy_frame (cg_pair g) (cg_pair g')) s.
Proof.
  unfold copy_page. cbv zeta. set (g0 := cg_at p (cg_last g) false g).
  change (cg_pair g) with (cg_pair g0). clearbody g0. apply wp_if; intros _; [by apply wp_ret|].
  set (g1 := if cg_last g0 =? rg_outer r then _ else g0).
  assert (copy_frame (cg_pair g0) (cg_pair g1)) as H1 by (subst g1; destruct (_ =? _); done). clearbody g1.
  apply wp_bind. eapply wp_mono; [apply copy_begin_frame|]. intros [st g2] s2 H2.
  apply wp_if; intros _; [apply wp_ret; by etransitivity|].
  set (g3 := cg_set _ _ _ g2).
  assert (copy_frame (cg_pair g0) (cg_pair g3)) as H3.
  { etransitivity; [exact H1|]. etransitivity; [exact H2|]. unfold g3, cg_pair. cbn.
    unfold block_update_page_dirty_state. by destruct (UVM_ID_IS_GPU _). }
  clearbody g3. apply wp_bind. eapply wp_mono; [apply copy_run_frame|]. intros [st3 g4] s4 H4.
  apply wp_if; intros _; [apply wp_ret; by etransitivity|]. apply wp_bind.
  apply (wp_mono _ (fun '(_, g') _ => copy_frame (cg_pair g0) (cg_pair g'))).
  - apply wp_if; intros _; [apply wp_ret; by etransitivity|].
    eapply wp_mono; [apply copy_region_frame|]. intros [st5 g5] s5 [H5 _]. etransitivity; [exact H3|]. by etransitivity.
  - intros [st5 g5] s5 H5. apply wp_if; intros _; by apply wp_ret.
Qed.

Lemma copy_rest_frame st g s :
  wp (copy_rest cfg src dst r st g) (fun '(_, g') _ => copy_frame (cg_pair g) (cg_pair g')) s.
Proof.
  unfold copy_rest. cbv zeta. apply wp_if; intros _; [|by apply wp_ret]. apply wp_bind.
  apply (wp_mono _ (fun '(_, g') _ => copy_frame (cg_pair g) (cg_pair g'))).
  - apply wp_if; intros _; [|by apply wp_ret]. apply wp_bind. eapply wp_mono; [apply copy_region_frame|].
    intros [st1 g1] s1 [H1 _]. apply wp_ret. by destruct (is_ok st1).
  - intros [st1 g1] s1 H1. apply wp_if; intros _; [by apply wp_ret|]. apply wp_if; intros _; [|by apply wp_ret].
    apply wp_bind. eapply wp_mono; [apply end_push_frame|]. intros [[st2 m] c] s2 H2. apply wp_ret.
    by etransitivity.
Qed.

Lemma between_frame copy_mask migrated m c s :
  wp (block_copy_resident_pages_between cfg src dst r pf copy_mask migrated m c)
    (fun '(_, _, _, m', c') _ => copy_frame (m, c) (m', c')) s.
Proof.
  unfold block_copy_resident_pages_between. cbv zeta. apply wp_if; intros _; [by apply wp_ret|].
  apply wp_if; intros _; [by apply wp_ret|]. apply wp_bind.
  eapply wp_mono; [apply (wp_kfold_rel copy_frame cg_pair); intros; eapply wp_mono; [apply copy_page_frame|]|].
  { by intros [ex g] s1 Hg1. }
  intros [ex g] s1 H1. cbn in H1. apply wp_if; intros _; [by apply wp_ret|].
  set (g1 := cg_at _ _ _ g). change (cg_pair g) with (cg_pair g1) in H1. clearbody g1. apply wp_bind.
  eapply wp_mono; [apply copy_rest_frame|]. intros [st g2] s2 H2. apply wp_if; intros _; apply wp_ret.
  - by etransitivity.
  - etransitivity; [exact H1|]. etransitivity; [exact H2|]. destruct migrated; [apply frame_migrated|done].
Qed.
End Between.

Lemma fold_left_rel {L X A} (R : X -> X -> Prop) `{!PreOrder R} (v : L -> X) (f : L -> A -> L) l x :
  (forall x a, R (v x) (v (f x a))) -> R (v x) (v (fold_left f l x)).
Proof.
  intros Hf. revert x; induction l as [|a l IH]; intros x; cbn; [done|]. by etransitivity; [apply Hf|].
Qed.

Section Sources.

Definition cp_pair (st : copied) : migration * move_ctx := (st.1.2, st.2).

Lemma from_frame dst r pm pf migrated src st s :
  wp (block_copy_resident_pages_from cfg dst r pm pf migrated src st)
    (fun '(_, st') _ => copy_frame (cp_pair st) (cp_pair st')) s.
Proof.
  destruct st as [[n m] c]. unfold block_copy_resident_pages_from. cbv zeta. apply wp_if; intros _.
  - apply wp_bind. eapply wp_mono; [apply (wp_kfold_rel copy_frame (fun l => (l.1.1.2, l.1.2)))|].
    + intros [[[n1 m1] c1] cm] nid s1 _. apply wp_if; intros _; [by apply wp_ret|]. apply wp_bind.
      eapply wp_mono; [by apply between_frame|]. intros [[[[st k] np] m2] c2] s2 H2.
      apply wp_if; intros _; by apply wp_ret.
    + intros [ex [[[n1 m1] c1] cm]] s1 H1. by apply wp_ret.
  - apply wp_bind. eapply wp_mono; [by apply between_frame|]. intros [[[[st k] np] m2] c2] s2 H2. by apply wp_ret.
Qed.

Lemma copy_from_source_frame dst r pm pf migrated max st src s :
  wp (copy_from_source cfg dst r pm pf migrated max st src) (fun res _ => copy_frame (cp_pair st) (cp_pair res.2)) s.
Proof.
  unfold copy_from_source. apply wp_bind.
  apply (wp_mono _ (fun '(_, st') _ => copy_frame (cp_pair st) (cp_pair st'))).
  - apply wp_if; intros _; [|apply from_frame]. apply wp_bind.
    eapply wp_mono; [apply (wp_kfold_rel copy_frame cp_pair)|].
    + intros st1 nid s1 _. apply wp_bind. eapply wp_mono; [apply from_frame|]. intros [x st2] s2 H2. by apply wp_ret.
    + intros [ex st1] s1 H1. by apply wp_ret.
  - intros [x st1] s1 H1. apply wp_if; intros _; by apply wp_ret.
Qed.

Lemma mask_frame dst r pm pf migrated srcs max m c s :
  wp (block_copy_resident_pages_mask cfg dst r pm pf migrated srcs max m c)
    (fun '(_, st') _ => copy_frame (m, c) (cp_pair st')) s.
Proof.
  unfold block_copy_resident_pages_mask. apply wp_bind, wp_any; intros p s1. apply wp_if; intros _; [by apply wp_ret|].
  apply wp_bind. eapply wp_mono; [apply (wp_kfold_rel copy_frame cp_pair); intros; apply copy_from_source_frame|].
  intros [ex st] s2 H2. apply wp_bind, wp_any; intros ? s3. by apply wp_ret.
Qed.

Lemma select_frame pages r m c : copy_frame (m, c) (m, block_select_cpu_node_pages cfg pages r m c).
Proof.
  unfold block_select_cpu_node_pages. cbv zeta. destruct (bool_decide _); [done|].
  set (x := (c, _, false)). change c with x.1.1 at 1. clearbody x.
  apply (fold_left_rel copy_frame (fun x : move_ctx * gset Z * bool => (m, x.1.1))).
  intros [[c1 sc] f] nid. destruct f; [done|]. destruct (bool_decide _); apply frame_nodes.
Qed.

Lemma staged_frame dst r pf m c s :
  wp (copy_staged cfg dst r pf m c) (fun '(_, m', c') _ => copy_frame (m, c) (m', c')) s.
Proof.
  unfold copy_staged. apply wp_bind. eapply wp_mono; [apply (wp_kfold_rel copy_frame (fun l => l))|].
  - intros [m1 c1] nid s1 _. apply wp_if; intros _; [by apply wp_ret|]. apply wp_bind.
    eapply wp_mono; [by apply between_frame|]. intros [[[[st k] np] m2] c2] s2 H2. by apply wp_ret.
  - intros [ex [m1 c1]] s1 H1. by apply wp_ret.
Qed.

Lemma through_cpu_frame dst r pf cm cpu srcs missing m c s :
  wp (copy_through_cpu cfg dst r pf cm cpu srcs missing m c) (fun '(_, m', c') _ => copy_frame (m, c) (m', c')) s.
Proof.
  unfold copy_through_cpu. cbv zeta. set (sources := if _ || _ then _ else _). clearbody sources. apply wp_bind.
  apply (wp_mono _ (fun '(_, st') _ => copy_frame (m, c) (cp_pair st'))).
  - apply wp_if; intros _; [by apply wp_ret|]. apply mask_frame.
  - intros [st [[n m1] c1]] s1 H1. apply wp_if; intros _; [by apply wp_ret|]. apply wp_if; intros _; [by apply wp_ret|].
    apply wp_bind, wp_any; intros st2 s2. apply wp_if; intros _; [by apply wp_ret|].
    eapply wp_mono; [apply staged_frame|]. intros [[st3 m3] c3] s3 H3. by etransitivity.
Qed.

Lemma to_destination_frame dst r pf cm missing m c s :
  wp (copy_to_destination cfg dst r pf cm missing m c) (fun '(_, m', c') _ => copy_frame (m, c) (m', c')) s.
Proof.
  unfold copy_to_destination. cbv zeta. apply wp_if; intros _.
  - apply wp_bind. eapply wp_mono; [apply mask_frame|]. intros [st [[n m1] c1]] s1 H1.
    assert (copy_frame (m, c) (m1, c1)) as H2 by (etransitivity; [apply select_frame|exact H1]).
    apply wp_if; intros _; [by apply wp_ret|]. apply wp_if; intros _; [by apply wp_ret|].
    eapply wp_mono; [apply through_cpu_frame|]. intros [[st3 m3] c3] s3 H3. by etransitivity.
  - eapply wp_mono; [apply through_cpu_frame|]. intros [[st3 m3] c3] s3 H3. etransitivity; [apply select_frame|exact H3].
Qed.

Lemma resident_pages_frame dst r pm pf m c s :
  wp (block_copy_resident_pages cfg dst r pm pf m c) (fun '(_, m', c') _ => copy_frame (m, c) (m', c')) s.
Proof.
  unfold block_copy_resident_pages. cbv zeta. apply wp_bind.
  apply (wp_mono _ (fun '(_, m', c') _ => copy_frame (m, c) (m', c'))).
  - apply wp_if; intros _; [by apply wp_ret|]. apply wp_bind, wp_any; intros p s1.
    apply wp_if; intros _; [by apply wp_ret|]. apply wp_bind. eapply wp_mono; [apply to_destination_frame|].
    intros [[st1 m1] c1] s2 H. apply wp_bind, wp_any; intros ? s3. apply wp_ret.
    by etransitivity; [apply frame_migrated|].
  - intros [[st1 m1] c1] s2 H. apply wp_bind, wp_any; intros st2 s3. by apply wp_ret.
Qed.
End Sources.
End CopyFrame.

(** ** Residency updates *)

Definition mg_moved (m m' : migration) : Prop := moved (mg_block m) (mg_block m').
#[export] Instance mg_moved_preorder : PreOrder mg_moved.
Proof. split; [by intros m; unfold mg_moved|]. intros m1 m2 m3 H1 H2. unfold mg_moved in *. by etransitivity. Qed.

Section Updates.
Context (cfg : mig_cfg).

Lemma cpu_set_resident_moved c pages m : mg_moved m (uvm_va_block_cpu_set_resident_all_chunks c pages m).
Proof.
  unfold uvm_va_block_cpu_set_resident_all_chunks. set (x := (m, pages)). change m with x.1. clearbody x.
  apply (fold_left_rel mg_moved (fun x : migration * gset Z => x.1)).
  intros [m1 rest] nid. destruct (bool_decide _); [done|]. unfold mg_moved. apply set_cpu_resident_moved.
Qed.

Lemma set_resident_moved c dst pages m : mg_moved m (set_resident c dst pages m).
Proof.
  unfold set_resident. destruct (_ =? _); [apply cpu_set_resident_moved|]. unfold mg_moved. apply set_gpu_resident_moved.
Qed.

Lemma set_processor_moved id m : mg_moved m (block_set_resident_processor id m).
Proof. unfold mg_moved. apply set_processors_moved. Qed.

Lemma cpu_clear_moved c pages m : mg_moved m (uvm_va_block_cpu_clear_resident_all_chunks cfg c pages m).
Proof.
  unfold uvm_va_block_cpu_clear_resident_all_chunks. destruct (_ && _); [done|]. apply (fold_left_rel mg_moved id).
  intros m1 nid. unfold clear_resident_node. cbv zeta. destruct (_ && _); [destruct (bool_decide _); [done|]|];
    unfold mg_moved; apply set_cpu_resident_moved.
Qed.

Lemma break_moved dst r pm m c : mg_moved m (break_read_duplication_in_region cfg dst r pm m c).
Proof.
  unfold break_read_duplication_in_region. cbv zeta.
  set (pages := mask_from_region r pm).
  etransitivity; [|apply (fold_left_rel mg_moved id)]; [done|].
  intros m1 id. unfold break_on. destruct (_ && _); [done|]. cbv zeta.
  set (m2 := if id =? UVM_ID_CPU then _ else _).
  assert (mg_moved m1 m2) as H2.
  { subst m2. destruct (_ =? _); [apply cpu_clear_moved|]. unfold mg_moved. apply set_gpu_resident_moved. }
  clearbody m2. destruct (bool_decide _); [|done]. etransitivity; [exact H2|]. unfold mg_moved. apply set_processors_moved.
Qed.

Lemma clear_evicted_moved dst pages m : mg_moved m (clear_evicted_if dst pages m).
Proof. unfold clear_evicted_if. by destruct (_ && _). Qed.

Lemma first_touch_moved dst r pm m c : mg_moved m (block_copy_set_first_touch_residency dst r pm m c).1.
Proof.
  unfold block_copy_set_first_touch_residency. cbn [fst]. set (ft := _ ∩ _). clearbody ft.
  pose proof (set_resident_moved c dst ft m) as H. destruct (bool_decide _); [done|].
  etransitivity; [exact H|apply set_processor_moved].
Qed.

Lemma update_state_moved dst pages m c : mg_moved m (block_make_resident_update_state dst pages m c).1.
Proof.
  unfold block_make_resident_update_state. cbv zeta. set (m1 := set_resident c dst pages m).
  set (m2 := block_set_resident_processor dst m1). set (m3 := mg_set_block _ m2).
  assert (mg_moved m m3) as H.
  { etransitivity; [apply set_resident_moved|]. etransitivity; [apply set_processor_moved|].
    unfold mg_moved, m3. apply set_maybe_moved. }
  clearbody m3. destruct (bool_decide _); cbn [fst].
  - etransitivity; [exact H|]. by apply (fold_left_rel mg_moved id).
  - etransitivity; [exact H|apply clear_evicted_moved].
Qed.

Lemma make_resident_finish_moved r pm m c : mg_moved m (uvm_va_block_make_resident_finish cfg r pm m c).1.
Proof.
  unfold uvm_va_block_make_resident_finish. cbv zeta. set (c1 := match pm with Some _ => _ | None => c end). clearbody c1.
  set (x := if bool_decide (mv_migrated c1 = ∅) then _ else _).
  assert (mg_moved m x.1) as H by (subst x; destruct (bool_decide _); [done|apply update_state_moved]).
  destruct x as [m2 c2]. pose proof (first_touch_moved (mv_dest_id c) r pm m2 c2) as H2.
  destruct (block_copy_set_first_touch_residency (mv_dest_id c) r pm m2 c2) as [m3 c3]. cbn [fst] in *.
  etransitivity; [exact H|]. etransitivity; [exact H2|apply break_moved].
Qed.

Lemma duplicate_finish_moved dst r pm m c : mg_moved m (duplicate_finish cfg dst r pm m c).1.
Proof.
  unfold duplicate_finish. cbv zeta. set (x := if bool_decide (mask_from_region r pm ∖ _ = ∅) then _ else _).
  assert (mg_moved m x.1) as H by (subst x; destruct (bool_decide _); [done|apply first_touch_moved]).
  destruct x as [m2 c2]. cbn [fst] in *. set (m3 := if _ && negb (bool_decide (mv_staged c2 = ∅)) then _ else m2).
  assert (mg_moved m m3) as H3.
  { subst m3. destruct (_ && _); [|done]. etransitivity; [exact H|].
    etransitivity; [apply cpu_set_resident_moved|]. apply (set_processor_moved UVM_ID_CPU). }
  clearbody m3. etransitivity; [exact H3|]. etransitivity; [|apply clear_evicted_moved].
  destruct (bool_decide (mv_migrated c = ∅)); [done|].
  set (m4 := if _ && _ then _ else m3).
  assert (mg_moved m3 m4) as H4 by (subst m4; destruct (_ && _); [apply cpu_clear_moved|done]). clearbody m4.
  etransitivity; [exact H4|]. etransitivity; [apply set_resident_moved|]. apply (set_processor_moved dst).
Qed.
End Updates.

(** ** The whole of a migration *)

Section Whole.
Context `{E : Env} `{A : ChunkAllocator} (cfg : mig_cfg) {HA : ChunkAllocatorSpec cfg}.

Lemma grown_quietly m m' : grown m m' -> quietly (mg_block m) (mg_block m').
Proof.
  intros [Hb _ _ _ _ _ _ _]. destruct Hb as [->|(g & gs & phys & Hg & H0 & Hph & ->)]; [done|].
  destruct (set_gpu_bits (mg_block m) g gs (mk_gpu_state (gs_resident gs) phys (gs_pte_read gs) (gs_pte_write gs)
    (gs_pte_atomic gs)) Hg) as [Hp Hwf]; [done..|].
  constructor; [|done|apply set_gpu_some]. split; [|done]. apply same_pages_set_gpu. by rewrite Hg.
Qed.

Lemma resident_alloc_quietly id m s :
  wp (block_resident_mask_get_alloc id m)
    (fun om _ => match om with
                 | Some m' => quietly (mg_block m) (mg_block m') /\ m' = mg_set_block (mg_block m') m /\
                              (id <> UVM_ID_CPU -> is_Some (vb_gpus (mg_block m') !! id))
                 | None => True
                 end) s.
Proof.
  unfold block_resident_mask_get_alloc. apply wp_if; intros Hc; bprop.
  { apply wp_ret. split; [done|]. split; [by destruct m|done]. }
  apply wp_bind. eapply wp_mono; [apply state_alloc_quietly|]. intros [b|] s1 Hb; apply wp_ret; [|done].
  by destruct Hb.
Qed.

Lemma populate_quietly dest r pm m c s :
  wp (block_populate_pages cfg dest r pm m c)
    (fun '(_, m', _) _ => quietly (mg_block m) (mg_block m')) s.
Proof using HA.
  unfold block_populate_pages. apply wp_bind. eapply wp_mono; [apply resident_alloc_quietly|].
  intros [m1|] s1 H1; [|by apply wp_ret]. destruct H1 as [H1 _]. cbv zeta.
  assert (forall pages c staged s, wp (block_populate_pages_cpu m1 pages r c staged)
    (fun '(_, m', _) _ => quietly (mg_block m) (mg_block m')) s) as Hcpu.
  { intros pages c0 staged s0. eapply wp_mono; [apply populate_cpu_spec|]. intros [[st m2] c2] s2 (Hg & _).
    etransitivity; [exact H1|by apply grown_quietly]. }
  apply wp_if; intros Hg; [|apply Hcpu]. apply wp_bind, wp_any; intros p s2. apply wp_if; intros _; [by apply wp_ret|].
  apply wp_bind. eapply wp_mono; [apply populate_gpu_spec; unfold UVM_ID_IS_GPU in Hg; lia|].
  intros [st m2] s3 [Hgr _]. apply grown_quietly in Hgr.
  assert (quietly (mg_block m) (mg_block m2)) as H2 by by etransitivity.
  apply wp_if; intros _; [apply wp_bind, wp_any; intros; by apply wp_ret|].
  apply wp_if; intros _; apply wp_bind, wp_any; intros ? s4; [by apply wp_ret|].
  eapply wp_mono; [apply populate_cpu_spec|]. intros [[st5 m5] c5] s5 (Hg5 & _).
  etransitivity; [exact H2|by apply grown_quietly].
Qed.

Lemma lift_block_spec (f : va_block -> K (nv_status * va_block)) m (Q : nv_status -> va_block -> Prop) s :
  wp (f (mg_block m)) (fun '(st, b) _ => Q st b) s ->
  wp (lift_block f m) (fun '(st, m') _ => Q st (mg_block m') /\ m' = mg_set_block (mg_block m') m) s.
Proof.
  intros H. unfold lift_block. apply wp_bind. eapply wp_mono; [exact H|]. intros [st b] s1 Hb. by apply wp_ret.
Qed.

Lemma make_resident_copy_moved dest r pm pf cause m c s :
  perm_wf (mg_block m) ->
  wp (uvm_va_block_make_resident_copy cfg dest r pm pf cause m c) (fun '(_, m', _) _ => mg_moved m m') s.
Proof using HA.
  intros Hwf. unfold uvm_va_block_make_resident_copy. cbv zeta. set (c0 := mv_start dest cause c). clearbody c0.
  apply wp_bind, wp_any; intros p s1. apply wp_if; intros _; [by apply wp_ret|]. apply wp_bind.
  eapply wp_mono; [apply resident_alloc_quietly|].
  intros [m1|] s2 H1; [|apply wp_bind, wp_any; intros; by apply wp_ret]. destruct H1 as [H1 _].
  apply quietly_moved in H1 as M1. pose proof (md_wf _ _ M1 Hwf) as Hwf1. apply wp_bind.
  eapply wp_mono; [apply (lift_block_spec _ m1 (fun _ b => moved (mg_block m1) b))|].
  { eapply wp_mono; [by apply unmap_mask_spec|]. intros [st b] s3 [Hu _]. by eapply unmap_moved. }
  intros [st3 m3] s3 [M3 _]. assert (mg_moved m m3) as H3 by (unfold mg_moved; by etransitivity).
  apply wp_if; intros _; [apply wp_bind, wp_any; intros; by apply wp_ret|]. apply wp_bind.
  eapply wp_mono; [apply (lift_block_spec _ m3 (fun _ b => moved (mg_block m3) b))|].
  { eapply wp_mono; [apply unmap_mask_spec; by apply M3|]. intros [st b] s4 [Hu _]. by eapply unmap_moved. }
  intros [st4 m4] s4 [M4 _]. assert (mg_moved m m4) as H4 by (etransitivity; [exact H3|exact M4]).
  apply wp_if; intros _; [apply wp_bind, wp_any; intros; by apply wp_ret|]. apply wp_bind.
  eapply wp_mono; [apply populate_quietly|]. intros [[st5 m5] c5] s5 M5. apply quietly_moved in M5.
  assert (mg_moved m m5) as H5 by (etransitivity; [exact H4|exact M5]).
  apply wp_if; intros _; [apply wp_bind, wp_any; intros; by apply wp_ret|]. apply wp_bind.
  eapply wp_mono; [by apply resident_pages_frame|]. intros [[st6 m6] c6] s6 M6.
  apply wp_bind, wp_any; intros ? s7. apply wp_ret. etransitivity; [exact H5|]. apply quietly_moved, M6.
Qed.

Lemma make_resident_moved dest r pm pf cause m c s :
  perm_wf (mg_block m) ->
  wp (uvm_va_block_make_resident cfg dest r pm pf cause m c) (fun '(_, m', _) _ => mg_moved m m') s.
Proof using HA.
  intros Hwf. unfold uvm_va_block_make_resident. apply wp_bind.
  eapply wp_mono; [by apply make_resident_copy_moved|]. intros [[st m1] c1] s1 H1.
  apply wp_if; intros _; [by apply wp_ret|]. pose proof (make_resident_finish_moved cfg r pm m1 c1) as H2.
  destruct (uvm_va_block_make_resident_finish cfg r pm m1 c1) as [m2 c2]. apply wp_ret. by etransitivity.
Qed.

Lemma prep_moved b id r pages s :
  perm_wf b -> 0 <= id ->
  wp (block_prep_read_duplicate_mapping cfg b id r pages) (fun '(_, b') _ => moved b b' /\ same_pages b b') s.
Proof.
  intros Hwf Hid. unfold block_prep_read_duplicate_mapping. apply wp_bind, wp_any; intros p s1.
  apply wp_if; intros _; [by apply wp_ret|]. apply wp_bind.
  eapply wp_mono; [apply (wp_kfold (fun b' _ => moved b b' /\ same_pages b b'))|].
  - intros b1 g s2 _ [M1 S1]. apply wp_bind. eapply wp_mono; [apply unmap_spec; by apply M1|].
    intros [st b2] s3 [Hu _]. apply wp_ret. cbn. split; [|etransitivity; [exact S1|apply Hu]].
    etransitivity; [exact M1|by eapply unmap_moved].
  - done.
  - intros [ex b1] s2 [M1 S1]. cbn in M1, S1. apply wp_bind.
    apply (wp_mono _ (fun '(_, b') _ => moved b b' /\ same_pages b b')).
    + destruct ex as [st|]; [by apply wp_ret|].
      eapply wp_mono; [apply uvm_va_block_revoke_prot_spec; [by apply M1|done|done]|].
      intros [st b2] s3 [Hr _]. split; [|etransitivity; [exact S1|apply Hr]]. etransitivity; [exact M1|by eapply revoke_moved].
    + intros [st b2] s3 H. apply wp_bind, wp_any; intros ts s4. apply wp_bind, wp_any; intros ? s5. by apply wp_ret.
Qed.

Lemma prepare_moved r pm m s :
  perm_wf (mg_block m) -> (forall id, id ∈ vb_resident (mg_block m) -> 0 <= id) ->
  wp (prepare_duplication cfg r pm m) (fun '(_, m') _ => mg_moved m m') s.
Proof.
  intros Hwf Hid. unfold prepare_duplication. apply wp_bind.
  eapply wp_mono; [apply (wp_kfold (fun m' _ => mg_moved m m' /\ same_pages (mg_block m) (mg_block m')))|].
  - intros m1 id s1 Hin%elem_of_ids_in_mask [M1 S1]. cbv zeta. apply wp_if; intros _; [by apply wp_ret|]. apply wp_bind.
    eapply wp_mono; [apply (lift_block_spec _ m1 (fun _ b => moved (mg_block m1) b /\ same_pages (mg_block m1) b))|].
    { apply prep_moved; [by apply M1|by apply Hid]. }
    intros [st m2] s2 [[M2 S2] _]. apply wp_ret. cbn. split; [etransitivity; [exact M1|exact M2]|by etransitivity].
  - done.
  - intros [ex m1] s1 [H1 _]. by apply wp_ret.
Qed.

Lemma read_duplicate_moved dest r pm pf cause m c s :
  perm_wf (mg_block m) -> (forall id, id ∈ vb_resident (mg_block m) -> 0 <= id) ->
  wp (uvm_va_block_make_resident_read_duplicate cfg dest r pm pf cause m c) (fun '(_, m', _) _ => mg_moved m m') s.
Proof using HA.
  intros Hwf Hid. unfold uvm_va_block_make_resident_read_duplicate. cbv zeta. set (c0 := mv_start dest cause c).
  clearbody c0. apply wp_bind, wp_any; intros p s1. apply wp_if; intros _; [by apply wp_ret|]. apply wp_bind.
  eapply wp_mono; [by apply prepare_moved|]. intros [st2 m2] s2 H2.
  apply wp_if; intros _; [apply wp_bind, wp_any; intros; by apply wp_ret|]. apply wp_bind.
  eapply wp_mono; [apply populate_quietly|]. intros [[st3 m3] c3] s3 M3. apply quietly_moved in M3.
  assert (mg_moved m m3) as H3 by (etransitivity; [exact H2|exact M3]).
  apply wp_if; intros _; [apply wp_bind, wp_any; intros; by apply wp_ret|]. apply wp_bind.
  eapply wp_mono; [by apply resident_pages_frame|]. intros [[st4 m4] c4] s4 M4.
  assert (mg_moved m m4) as H4 by (etransitivity; [exact H3|apply quietly_moved, M4]).
  apply wp_if; intros _; [apply wp_bind, wp_any; intros; by apply wp_ret|].
  pose proof (duplicate_finish_moved cfg dest r pm m4 c4) as H5.
  destruct (duplicate_finish cfg dest r pm m4 c4) as [m5 c5]. apply wp_bind, wp_any; intros; apply wp_ret. by etransitivity.
Qed.
End Whole.
