(* ===== verification/MigrationCopy.v ===== *)
(** A copy between two locations ([block_copy_resident_pages_between]) carries
    the contents of its pages, in single pages or contiguous runs, directly or
    through the encrypted staging buffer. *)
From stdpp Require Import functions sorting.
From S2P Require Import Prelude Kernel VaBlock Permissions Migration MigrationFrame.

(** The pages of the block. *)
Definition block_pages (b : va_block) : gset Z := region_mask (uvm_va_block_region_from_block b).

(** Copying keeps what has been set up for it. *)
Definition same_moves (c c' : move_ctx) : Prop :=
  mv_nodes c' = mv_nodes c /\ mv_node_mask c' = mv_node_mask c /\ mv_migrated c' = mv_migrated c.

#[export] Instance same_moves_preorder : PreOrder same_moves.
Proof. split; [done|]. intros c1 c2 c3 (? & ? & ?) (? & ? & ?). split; [congruence|]. split; congruence. Qed.

(** ** Copies between two locations *)

Section Between.
Context `{E : Env} (cfg : mig_cfg) (src dst : loc) (r : region) (pf : option (gset Z)).
(** Two processors, the destination one whose pages are never clean copies. *)
Context (Hne : src.1 <> dst.1) (Hclean : forall m p, block_page_is_clean cfg m src dst p = false).

Lemma uses_push : block_copy_should_use_push cfg src dst = true.
Proof using Hne.
  unfold block_copy_should_use_push. apply orb_true_iff. right. apply Z.eqb_neq in Hne. by rewrite Hne, andb_false_r.
Qed.

Lemma src_not_dst : src <> dst.
Proof using Hne. intros He. apply Hne. by rewrite He. Qed.

(** The copy goes through the staging buffer. *)
Definition to_stage : bool := env_cc && negb (src.1 =? UVM_ID_CPU).

(** What a page of the destination holds once the staged ciphertexts have been
    decrypted. *)
Definition eff (g : copying) (p : Z) : list Z :=
  match cy_staging (cg_copy g) !! p with Some v => v | None => mg_mem (cg_mig g) dst p end.

Lemma staging_lookup (f : Z -> list Z) l st p :
  foldr (fun q (st : gmap Z (list Z)) => <[q := f q]> st) st l !! p = if decide (p ∈ l) then Some (f p) else st !! p.
Proof.
  induction l as [|q l IH]; cbn [foldr]; [by rewrite decide_False by apply not_elem_of_nil|].
  destruct (decide (p = q)) as [->|Hq].
  - by rewrite lookup_insert_eq, decide_True by left.
  - rewrite lookup_insert_ne, IH by done. destruct (decide (p ∈ l)); [by rewrite decide_True by (by right)|].
    rewrite decide_False; [done|]. rewrite elem_of_cons. tauto.
Qed.

(** [g'] is [g] with other contents. *)
Record same_loop (g g' : copying) : Prop := {
  sl_ctx   : same_moves (cg_ctx g) (cg_ctx g');
  sl_page  : cg_page g' = cg_page g;
  sl_last  : cg_last g' = cg_last g;
  sl_start : cg_start g' = cg_start g;
  sl_ret   : cg_return g' = cg_return g;
  sl_src   : cy_src (cg_copy g') = cy_src (cg_copy g);
  sl_dst   : cy_dst (cg_copy g') = cy_dst (cg_copy g);
  sl_gpu   : cy_gpu (cg_copy g') = cy_gpu (cg_copy g);
  sl_contig : mg_contig (cg_mig g') = mg_contig (cg_mig g);
  sl_block : mg_block (cg_mig g') = mg_block (cg_mig g);
}.

Record ends_here (g : copying) : Prop := {
  eh_src : cy_src (cg_copy g) = src;
  eh_dst : cy_dst (cg_copy g) = dst;
  eh_staging : to_stage = false -> cy_staging (cg_copy g) = ∅;
}.

Lemma copy_region_spec rg g s :
  ends_here g ->
  wp (copy_region cfg rg g) (fun '(st, g') _ => st = NV_OK /\ same_loop g g' /\ ends_here g' /\
    (forall l p, l <> dst -> mg_mem (cg_mig g') l p = mg_mem (cg_mig g) l p) /\
    (forall p, eff g' p = if decide (p ∈ region_mask rg) then mg_mem (cg_mig g) src p else eff g p) /\
    (forall p, p ∉ region_mask rg -> mg_mem (cg_mig g') dst p = mg_mem (cg_mig g) dst p /\
       cy_staging (cg_copy g') !! p = cy_staging (cg_copy g) !! p)) s.
Proof using Hne.
  intros [Hs Hd Hst]. unfold copy_region, block_copy_pages. rewrite Hs, Hd, uses_push.
  unfold block_copy_push, eff. rewrite Hs, Hd. fold to_stage. destruct to_stage eqn:Hto; cbv beta iota; apply wp_bind, wp_ret, wp_ret; cbn.
  - split; [done|]. split; [by constructor|]. split; [split; [done..|by rewrite Hto]|]. split; [done|].
    assert (forall p, p ∈ region_pages rg <-> p ∈ region_mask rg) as Hel.
    { intros p. unfold region_mask. by rewrite elem_of_list_to_set. }
    split; intros p.
    + rewrite staging_lookup. destruct (decide (p ∈ region_pages rg)) as [Hp|Hp]; rewrite Hel in Hp.
      * by rewrite decide_True.
      * by rewrite decide_False.
    + intros Hp. split; [done|]. rewrite staging_lookup, decide_False; [done|]. by rewrite Hel.
  - specialize (Hst eq_refl). split; [done|]. split; [by constructor|]. split; [by constructor|].
    unfold copy_mem. cbn. split; [|split].
    + intros l p Hl. by rewrite bool_decide_eq_false_2.
    + intros p. rewrite Hst, lookup_empty, bool_decide_eq_true_2 by done. cbn.
      destruct (decide (p ∈ region_mask rg)); [by rewrite bool_decide_eq_true_2|by rewrite bool_decide_eq_false_2].
    + intros p Hp. by rewrite (bool_decide_eq_false_2 (p ∈ _)), andb_false_r.
Qed.

(** The push is begun with the first page; it is the only thing that can fail
    in the loop. *)
Lemma copy_begin_spec g s :
  ends_here g ->
  wp (copy_begin cfg src dst g) (fun '(st, g') _ =>
    same_moves (cg_ctx g) (cg_ctx g') /\ ends_here g' /\ cg_mig g' = cg_mig g /\
    cy_staging (cg_copy g') = cy_staging (cg_copy g) /\
    cg_page g' = cg_page g /\ cg_last g' = cg_last g /\ cg_start g' = cg_start g /\ cg_return g' = cg_return g /\
    (st = NV_OK -> is_Some (cy_gpu (cg_copy g'))) /\ (is_Some (cy_gpu (cg_copy g)) -> st = NV_OK)) s.
Proof using Hne.
  intros [Hs Hd Hst]. unfold copy_begin. rewrite uses_push. cbn [negb].
  destruct (cy_gpu (cg_copy g)) as [gpu|] eqn:Hgpu; [apply wp_ret; rewrite Hgpu; by eauto 20 using Build_ends_here|].
  apply wp_bind. apply (wp_mono _ (fun '(_, c) _ => same_moves (cg_ctx g) c)).
  { unfold block_copy_begin_push. cbv zeta. repeat wstep; repeat case_match; done. }
  intros [st c] s1 Hc. apply wp_if; intros Hok; bprop.
  { apply wp_ret. cbn. rewrite Hgpu. split; [done|]. split; [by split|]. repeat (split; [done|]). by intros [? [=]]. }
  cbv zeta. assert ((dst.1 =? UVM_ID_CPU) && (src.1 =? dst.1) = false) as Hf.
  { apply Z.eqb_neq in Hne. by rewrite Hne, andb_false_r. }
  rewrite Hf. apply wp_ret. cbn. split; [done|]. split; [by split|]. repeat (split; [done|]). by eauto.
Qed.

(** The pages [ys] are done, from the state [g0] on: copied, or in the run that is
    still open when both ends are contiguous. *)
Record loop_inv (g0 : copying) (ys : list Z) (g : copying) : Prop := {
  li_ends   : ends_here g;
  li_moves  : same_moves (cg_ctx g0) (cg_ctx g);
  li_ret    : cg_return g = false;
  li_contig : both_contig src dst (cg_mig g) = both_contig src dst (cg_mig g0);
  li_block  : mg_block (cg_mig g) = mg_block (cg_mig g0);
  li_other  : forall l p, l <> dst -> mg_mem (cg_mig g) l p = mg_mem (cg_mig g0) l p;
  li_out    : forall p, p ∉ ys -> mg_mem (cg_mig g) dst p = mg_mem (cg_mig g0) dst p /\ cy_staging (cg_copy g) !! p = None;
  li_run    : match last ys with
              | None => cg_last g = rg_outer r /\ cg_start g = rg_outer r
              | Some p => cg_last g = p /\ cg_start g <= p /\ (forall q, cg_start g <= q <= p -> q ∈ ys) /\
                          is_Some (cy_gpu (cg_copy g))
              end;
  li_done   : forall p, p ∈ ys -> eff g p = mg_mem (cg_mig g0) src p \/
                (both_contig src dst (cg_mig g0) = true /\ cg_start g <= p);
}.

Lemma both_contig_same m m' : mg_contig m' = mg_contig m -> both_contig src dst m' = both_contig src dst m.
Proof. unfold both_contig. by intros ->. Qed.

(** Copying a run of done pages. *)
Lemma copy_region_inv g0 ys g rg s :
  loop_inv g0 ys g -> (forall q, q ∈ region_mask rg -> q ∈ ys) ->
  wp (copy_region cfg rg g) (fun '(st, g') _ => st = NV_OK /\ loop_inv g0 ys g' /\ same_loop g g' /\
    (forall p, eff g' p = if decide (p ∈ region_mask rg) then mg_mem (cg_mig g0) src p else eff g p)) s.
Proof using Hne.
  intros [He Hm Hr Hc Hb Ho Hout Hrun Hd] Hsub. eapply wp_mono; [by apply copy_region_spec|].
  intros [st g'] s' (-> & Hl & He' & Ho' & Heff & Hout'). pose proof src_not_dst as Hsd.
  assert (forall p, eff g' p = if decide (p ∈ region_mask rg) then mg_mem (cg_mig g0) src p else eff g p) as Heff'.
  { intros p. by rewrite Heff, Ho. }
  split; [done|]. split; [|done]. destruct Hl. constructor; try done.
  - by etransitivity.
  - congruence.
  - by rewrite <- Hc; apply both_contig_same.
  - congruence.
  - intros l p Hlp. by rewrite Ho', Ho.
  - intros p Hp. destruct (Hout' p) as [H1 H2]; [auto|]. rewrite H1, H2. auto.
  - destruct (last ys); [|by rewrite sl_last0, sl_start0]. by rewrite sl_last0, sl_start0, sl_gpu0.
  - intros p Hp. rewrite Heff', sl_start0. case_decide; [by left|auto].
Qed.

Lemma region_pages_sorted pages : StronglySorted Z.lt (pages_in_region_mask r pages).
Proof.
  apply sorted_filter. unfold region_pages. set (n := rg_outer r - rg_first r). clearbody n. generalize (rg_first r).
  destruct (Z_lt_le_dec n 0) as [Hn|Hn]; [intros a; rewrite seqZ_nil by lia; constructor|].
  pattern n. apply natlike_ind; [intros a; constructor| |done].
  intros x Hx IH a. rewrite seqZ_cons, Z.pred_succ by lia. constructor; [apply IH|].
  apply Forall_forall. intros z Hz%elem_of_seqZ. lia.
Qed.

(** The page the loop is at: inside the region, past the pages done. *)
Lemma next_page pages ys x zs :
  pages_in_region_mask r pages = ys ++ x :: zs ->
  rg_first r <= x < rg_outer r /\ (forall y, y ∈ ys -> rg_first r <= y < x).
Proof.
  intros Heq. assert (forall y, y ∈ pages_in_region_mask r pages -> rg_first r <= y < rg_outer r) as Hin.
  { intros y. rewrite elem_of_pages_in_region_mask. tauto. }
  rewrite Heq in Hin. split; [apply Hin; set_solver|]. intros y Hy. split; [apply Hin; set_solver|].
  pose proof (region_pages_sorted pages) as Hs. rewrite Heq in Hs.
  apply StronglySorted_app_1_elem_of with (x1 := y) (x2 := x) in Hs; [done|done|left].
Qed.

Lemma last_elem {X} (l : list X) x : last l = Some x -> x ∈ l.
Proof. intros H. apply last_Some in H as [l' ->]. set_solver. Qed.

Lemma ends_here_ext g g' : ends_here g -> cg_copy g' = cg_copy g -> ends_here g'.
Proof. intros [] Hy. split; by rewrite Hy. Qed.

(** What the invariant reads. *)
Lemma loop_inv_ext g0 ys g g' :
  loop_inv g0 ys g -> cg_copy g' = cg_copy g -> mg_mem (cg_mig g') = mg_mem (cg_mig g) ->
  mg_contig (cg_mig g') = mg_contig (cg_mig g) -> mg_block (cg_mig g') = mg_block (cg_mig g) ->
  same_moves (cg_ctx g) (cg_ctx g') -> cg_last g' = cg_last g -> cg_start g' = cg_start g -> cg_return g' = false ->
  loop_inv g0 ys g'.
Proof.
  intros [He ? ? ? ? ? ? ? ?] Hy Hm Hc Hb Hv Hl Hs Hr. constructor; rewrite ?Hy, ?Hm, ?Hb, ?Hl, ?Hs; try done.
  - by eapply ends_here_ext.
  - by etransitivity.
  - rewrite (both_contig_same (cg_mig g)); done.
  - intros p Hp. specialize (li_done0 p Hp). unfold eff in *. by rewrite Hy, Hm.
Qed.

(** One page. *)
Lemma copy_page_spec g0 pages ys x zs g s :
  pages_in_region_mask r pages = ys ++ x :: zs -> loop_inv g0 ys g ->
  wp (copy_page cfg src dst r pf g x) (fun '(ex, g') _ =>
    match ex with
    | None => loop_inv g0 (ys ++ [x]) g'
    | Some st => st <> NV_OK /\ ys = [] /\ loop_inv g0 [] g'
    end) s.
Proof using Hne Hclean.
  intros Heq Hi. destruct (next_page _ _ _ _ Heq) as [Hx Hys]. unfold copy_page. cbv zeta.
  assert (loop_inv g0 ys (cg_at x (cg_last g) false g)) as Hi0 by (by eapply loop_inv_ext).
  set (g1 := cg_at x (cg_last g) false g) in *. clearbody g1. clear Hi g. rewrite Hclean.
  set (g2 := if cg_last g1 =? rg_outer r then _ else g1).
  assert (loop_inv g0 ys g2) as Hi2 by (subst g2; destruct (_ =? _); [eapply loop_inv_ext; try done; apply Hi0|done]).
  clearbody g2. clear Hi0 g1. apply wp_bind.
  eapply wp_mono; [apply copy_begin_spec, Hi2|].
  intros [st g3] s3 (Hm3 & He3 & Hmig & Hstg & Hpg & Hl3 & Hs3 & Hr3 & Hok3 & Hgpu3).
  assert (forall p, eff g3 p = eff g2 p) as Heff3 by (intros p; unfold eff; by rewrite Hmig, Hstg).
  assert (st <> NV_OK -> ys = []) as Hfirst.
  { intros Hst. pose proof (li_run _ _ _ Hi2) as Hrun. destruct (last ys) as [p|] eqn:Hlast; [|by apply last_None].
    destruct Hrun as (_ & _ & _ & Hg). by apply Hgpu3 in Hg. }
  assert (loop_inv g0 ys g3) as Hi3.
  { destruct Hi2. constructor; try done; rewrite ?Hmig, ?Hstg; try done; try congruence; [by etransitivity| |].
    - destruct (last ys) as [p|]; rewrite Hl3, Hs3; [|done]. destruct li_run0 as (? & ? & ? & Hg).
      split; [done|]. split; [done|]. split; [done|]. by apply Hok3, Hgpu3.
    - intros p Hp. rewrite Heff3, Hs3. auto. }
  apply wp_if; intros Hst; bprop; [apply wp_ret; pose proof (Hfirst Hst) as Hnil; rewrite Hnil in Hi3; done|].
  specialize (Hok3 Hst). clear Hi2 Hmig Hstg Hpg Hl3 Hs3 Hr3 Hgpu3 Hm3 He3 Heff3 Hfirst g2 Hst st.
  set (g4 := cg_set _ _ _ g3).
  assert (loop_inv g0 ys g4 /\ is_Some (cy_gpu (cg_copy g4))) as [Hi4 Hgpu4].
  { split; [|done]. subst g4. unfold block_update_page_dirty_state.
    destruct (UVM_ID_IS_GPU _); (eapply loop_inv_ext; [exact Hi3|try done..]; apply Hi3). }
  clearbody g4. clear Hi3 Hok3 g3. apply wp_bind.
  (* the run *)
  apply (wp_mono _ (fun '(st, g') _ => st = NV_OK /\ ends_here g' /\ same_moves (cg_ctx g0) (cg_ctx g') /\
     cg_return g' = false /\ both_contig src dst (cg_mig g') = both_contig src dst (cg_mig g0) /\
     mg_block (cg_mig g') = mg_block (cg_mig g0) /\
     (forall l p, l <> dst -> mg_mem (cg_mig g') l p = mg_mem (cg_mig g0) l p) /\
     (forall p, p ∉ ys -> mg_mem (cg_mig g') dst p = mg_mem (cg_mig g0) dst p /\ cy_staging (cg_copy g') !! p = None) /\
     cg_start g' <= x /\ (forall q, cg_start g' <= q <= x -> q ∈ ys ++ [x]) /\ is_Some (cy_gpu (cg_copy g')) /\
     forall p, p ∈ ys -> eff g' p = mg_mem (cg_mig g0) src p \/
                         (both_contig src dst (cg_mig g0) = true /\ cg_start g' <= p))).
  - pose proof (li_run _ _ _ Hi4) as Hrun. unfold copy_run. cbv zeta.
    apply wp_if; intros Hlast; bprop.
    { assert (ys = []) as ->.
      { destruct (last ys) as [p|] eqn:Hl; [|by apply last_None]. destruct Hrun as (Hp & _).
        apply last_elem, Hys in Hl. lia. }
      apply wp_ret. destruct Hi4. cbn. repeat (split; [first [done|lia|by eapply ends_here_ext]|]).
      split; [intros q Hq; assert (q = x) as -> by lia; set_solver|]. split; [done|]. set_solver. }
    destruct (last ys) as [p|] eqn:Hl; [|lia]. destruct Hrun as (Hp & Hsp & Hq & _).
    apply wp_if; intros Hgap.
    + apply wp_bind. apply (wp_mono _ (fun '(st, g') _ => st = NV_OK /\ loop_inv g0 ys g' /\ is_Some (cy_gpu (cg_copy g')) /\
        forall p, p ∈ ys -> eff g' p = mg_mem (cg_mig g0) src p)).
      * apply wp_if; intros Hbc.
        -- eapply wp_mono; [apply (copy_region_inv g0 ys); [done|]|].
           { intros q Hqr%elem_of_region_mask. cbn in Hqr. apply Hq. lia. }
           intros [st g5] s5 (-> & Hi5 & Hsl & Heff). split; [done|]. split; [done|].
           split; [by rewrite (sl_gpu _ _ Hsl)|]. intros q Hqy. rewrite Heff.
           destruct (decide (q ∈ region_mask _)) as [Hd|Hd]; [done|].
           destruct (li_done _ _ _ Hi4 q Hqy) as [Hdn|[_ Hge]]; [done|]. destruct Hd. apply elem_of_region_mask. cbn.
           assert (q <= p); [|lia]. destruct ys as [|y0 ys0] using rev_ind; [done|].
           rewrite last_snoc in Hl. simplify_eq. apply elem_of_app in Hqy as [Hqy|Hqy%list_elem_of_singleton]; [|lia].
           rewrite <- app_assoc in Heq. cbn in Heq. pose proof (next_page _ _ _ _ Heq) as [_ Hn]. apply Hn in Hqy. lia.
        -- apply wp_ret. split; [done|]. split; [done|]. split; [done|]. intros q Hqy.
           destruct (li_done _ _ _ Hi4 q Hqy) as [Hdn|[Hc _]]; [done|]. by rewrite (li_contig _ _ _ Hi4), Hc in Hbc.
      * intros [st g5] s5 (-> & Hi5 & Hgpu5 & Hd5). cbn. apply wp_ret. destruct Hi5. cbn. repeat (split; [first [done|lia|by eapply ends_here_ext]|]).
        split; [intros q' Hq'; assert (q' = x) as -> by lia; set_solver|]. split; [done|].
        intros q Hqy. left. by apply Hd5.
    + apply orb_false_elim in Hgap as [Hx1 _]. bprop. apply wp_ret. pose proof Hi4 as Hi4'. destruct Hi4'.
      repeat (split; [first [done|lia|by eapply ends_here_ext]|]). split; [|done].
      intros q Hqr. destruct (decide (q = x)) as [->|]; [set_solver|]. apply elem_of_app. left. apply Hq. lia.
  - intros [st g5] s5 (-> & He & Hm & Hr & Hbc & Hbl & Ho & Hout & Hst & Hrun & Hgpu & Hd). cbn [is_ok negb].
    assert (x ∉ ys) as Hxn by (intros Hxy; apply Hys in Hxy; lia).
    apply wp_bind. apply (wp_mono _ (fun '(st, g') _ => st = NV_OK /\ loop_inv g0 (ys ++ [x]) (cg_at x x false g'))).
    + apply wp_if; intros Hb.
      * apply wp_ret. split; [done|]. constructor; try done.
        -- by eapply ends_here_ext.
        -- intros p Hp. apply Hout. set_solver.
        -- rewrite last_snoc. done.
        -- intros p [Hp|Hp%list_elem_of_singleton]%elem_of_app; [by apply Hd|]. subst p. right. by rewrite <- Hbc.
      * eapply wp_mono; [by apply copy_region_spec|].
        intros [st g6] s6 (-> & Hl & He6 & Ho6 & Heff6 & Hout6). destruct Hl.
        assert (forall q, q ∈ region_mask (mk_region x (x + 1)) <-> q = x) as Hrg.
        { intros q. rewrite elem_of_region_mask. cbn. lia. }
        split; [done|]. constructor; try done; cbn.
        -- by eapply ends_here_ext.
        -- by etransitivity.
        -- rewrite (both_contig_same (cg_mig g5)) by done. done.
        -- congruence.
        -- intros l p Hlp. by rewrite Ho6, Ho.
        -- intros p Hp. destruct (Hout6 p) as [H1 H2]; [rewrite Hrg; set_solver|]. rewrite H1, H2. apply Hout. set_solver.
        -- rewrite last_snoc, sl_start0, sl_gpu0. done.
        -- intros p Hp. change (eff (cg_at x x false g6) p) with (eff g6 p). rewrite Heff6, sl_start0.
           destruct (decide (p ∈ region_mask _)) as [Hdx|Hdx]; rewrite Hrg in Hdx.
           ++ left. rewrite Ho by (intros He'; by apply src_not_dst). done.
           ++ apply Hd. set_solver.
    + intros [st g6] s6 [-> Hi6]. cbn. by apply wp_ret.
Qed.

(** ** The end of the push *)

(** Copies between GPUs are not encrypted. *)
Context (Hcc : env_cc = true -> src.1 = UVM_ID_CPU \/ dst.1 = UVM_ID_CPU).

Definition staged_value (y : copy_state) (m : migration) (p : Z) : list Z :=
  match cy_staging y !! p with Some v => v | None => mg_mem m dst p end.

Lemma copy_finish_spec y m s :
  cy_dst y = dst -> (forall p, is_Some (cy_staging y !! p) -> p ∈ block_pages (mg_block m)) ->
  (UVM_ID_IS_GPU dst.1 = true -> cy_staging y = ∅) ->
  wp (conf_computing_copy_pages_finish y m) (fun '(st, m') _ =>
    (forall l p, l <> dst -> mg_mem m' l p = mg_mem m l p) /\
    (forall p, cy_staging y !! p = None -> mg_mem m' dst p = mg_mem m dst p) /\
    (st = NV_OK -> forall p, mg_mem m' dst p = staged_value y m p)) s.
Proof.
  intros Hd Hin Hst. unfold conf_computing_copy_pages_finish, staged_value. rewrite Hd.
  apply wp_if; intros Hg.
  { apply wp_ret. split; [done|]. split; [done|]. intros _ p. by rewrite (Hst Hg), lookup_empty. }
  apply wp_bind, wp_any; intros st s1. apply wp_if; intros Hok; bprop; [by apply wp_ret|]. apply wp_bind.
  set (ps := pages_in_region_mask _ _).
  eapply wp_mono; [apply (wp_kfold_prefix
    (fun ys m' _ => (forall l p, l <> dst -> mg_mem m' l p = mg_mem m l p) /\
       (forall p, mg_mem m' dst p = if decide (p ∈ ys) then staged_value y m p else mg_mem m dst p))
    (fun st m' _ => st <> NV_OK /\ (forall l p, l <> dst -> mg_mem m' l p = mg_mem m l p) /\
       (forall p, cy_staging y !! p = None -> mg_mem m' dst p = mg_mem m dst p)))|].
  - intros ys x zs m' s2 Heq [Ho Hys]. apply wp_bind, wp_any; intros st2 s3.
    apply wp_if; intros Hst2; bprop; apply wp_ret; cbn.
    + split; [done|]. split; [done|]. intros p Hp. rewrite Hys. unfold staged_value. rewrite Hp. by case_decide.
    + assert (x ∈ ps) as Hx by (rewrite Heq; set_solver). apply elem_of_pages_in_region_mask in Hx as [_ Hx].
      apply elem_of_dom in Hx as [v Hv]. rewrite Hv. cbn. split.
      * intros l p Hl. rewrite bool_decide_eq_false_2; [apply Ho, Hl|done].
      * intros p. rewrite bool_decide_eq_true_2 by done. cbn. destruct (Z.eqb_spec p x) as [->|Hpx].
        -- rewrite decide_True by set_solver. unfold staged_value. by rewrite Hv.
        -- rewrite Hys. destruct (decide (p ∈ ys)); [by rewrite decide_True by set_solver|].
           rewrite decide_False; [done|]. set_solver.
  - split; [done|]. intros p. by rewrite decide_False by apply not_elem_of_nil.
  - intros [[st2|] m'] s2 H; cbn in H; apply wp_ret; cbn.
    + destruct H as (H1 & H2 & H3). split; [done|]. by split.
    + destruct H as [Ho Hys]. split; [done|]. split.
      * intros p Hp. rewrite Hys. unfold staged_value. rewrite Hp. by case_decide.
      * intros _ p. rewrite Hys. destruct (decide (p ∈ ps)) as [Hp|Hp]; [done|].
        unfold staged_value. destruct (cy_staging y !! p) as [v|] eqn:Hv; [|done]. destruct Hp.
        apply elem_of_pages_in_region_mask. rewrite <- elem_of_region_mask. split; [by apply Hin|by apply elem_of_dom].
Qed.

Lemma copy_end_push_spec y m c s :
  cy_dst y = dst -> (to_stage = false -> cy_staging y = ∅) ->
  (forall p, is_Some (cy_staging y !! p) -> p ∈ block_pages (mg_block m)) ->
  wp (block_copy_end_push NV_OK y m c) (fun '(st, m', c') _ =>
    same_moves c c' /\
    (forall l p, l <> dst -> mg_mem m' l p = mg_mem m l p) /\
    (forall p, cy_staging y !! p = None -> mg_mem m' dst p = mg_mem m dst p) /\
    (st = NV_OK -> forall p, mg_mem m' dst p = staged_value y m p)) s.
Proof using All.
  intros Hd Hst Hin. unfold block_copy_end_push. cbv zeta. cbn [is_ok andb]. apply wp_bind.
  apply (wp_mono _ (fun '(st, m') _ => (forall l p, l <> dst -> mg_mem m' l p = mg_mem m l p) /\
    (forall p, cy_staging y !! p = None -> mg_mem m' dst p = mg_mem m dst p) /\
    (st = NV_OK -> forall p, mg_mem m' dst p = staged_value y m p))).
  - rewrite is_ok_NV_OK. cbn [andb]. apply wp_if; intros Hc.
    + apply copy_finish_spec; [done..|]. intros Hg. apply Hst. unfold to_stage. rewrite Hc. cbn.
      destruct (Hcc Hc) as [->|Hdc]; [done|]. rewrite Hdc in Hg. done.
    + apply wp_ret. split; [done|]. split; [done|]. intros _ p. unfold staged_value.
      rewrite Hst, lookup_empty; [done|]. unfold to_stage. by rewrite Hc.
  - intros [st m'] s1 (H1 & H2 & H3). apply wp_bind, wp_any; intros ts s2. apply wp_ret.
    split; [by destruct env_cc|]. split; [done|]. split; [done|]. destruct (is_ok st) eqn:Hok; bprop; [|done]. intros _.
    by apply H3.
Qed.

(** The pages copied: those of the mask that are not at the destination yet. *)
Definition to_copy (copy_mask : gset Z) (migrated : bool) (m : migration) (c : move_ctx) : gset Z :=
  copy_mask ∖ resident_mask m dst ∖ (if migrated then mv_migrated c else ∅).

Record copied_between (pages : gset Z) (migrated : bool) (m : migration) (c : move_ctx)
    (st : nv_status) (n : Z) (mask : gset Z) (m' : migration) (c' : move_ctx) : Prop := {
  cb_mask  : mask ⊆ pages;
  cb_nodes : mv_nodes c' = mv_nodes c /\ mv_node_mask c' = mv_node_mask c;
  cb_migrated : mv_migrated c' ⊆ mv_migrated c ∪ pages;
  cb_none  : migrated = false -> mv_migrated c' = mv_migrated c;
  cb_other : forall l p, l <> dst -> mg_mem m' l p = mg_mem m l p;
  cb_out   : forall p, p ∉ pages -> mg_mem m' dst p = mg_mem m dst p;
  cb_ok    : st = NV_OK -> mask = pages /\ n = Z.of_nat (size pages) /\
               (migrated = true -> mv_migrated c' = mv_migrated c ∪ pages) /\
               forall p, p ∈ pages -> mg_mem m' dst p = mg_mem m src p;
}.

Lemma nothing_copied migrated m c mask :
  mask = ∅ -> copied_between mask migrated m c NV_OK 0 mask m c.
Proof using. clear Hne Hclean Hcc. intros ->. constructor; try done; try set_solver; intros _; split_and!; try done; set_solver. Qed.

Lemma between_spec copy_mask migrated m c s :
  copy_mask ⊆ region_mask r -> region_mask r ⊆ block_pages (mg_block m) ->
  wp (block_copy_resident_pages_between cfg src dst r pf copy_mask migrated m c)
    (fun '(st, n, mask, m', c') _ => copied_between (to_copy copy_mask migrated m c) migrated m c st n mask m' c') s.
Proof using All.
  intros Hsub Hblk. unfold block_copy_resident_pages_between, to_copy. cbv zeta.
  apply wp_if; intros H1; bprop.
  { apply wp_ret. assert (copy_mask ∖ resident_mask m dst ∖ (if migrated then mv_migrated c else ∅) = ∅) as -> by set_solver.
    rewrite H1. by apply nothing_copied. }
  set (pages := if migrated then _ else _).
  assert (copy_mask ∖ resident_mask m dst ∖ (if migrated then mv_migrated c else ∅) = pages) as ->.
  { subst pages. destruct migrated; [done|]. by rewrite difference_empty_L. }
  assert (pages ⊆ region_mask r) as Hp by (subst pages; destruct migrated; set_solver). clearbody pages.
  apply wp_if; intros H2; bprop; [apply wp_ret; by apply nothing_copied|]. apply wp_bind.
  set (g0 := mk_copying _ _ _ _ _ _ _ _).
  eapply wp_mono; [apply (wp_kfold_prefix (fun ys g _ => loop_inv g0 ys g)
    (fun st g _ => st <> NV_OK /\ loop_inv g0 [] g) (copy_page cfg src dst r pf))|].
  { intros ys x zs g s1 Heq Hi. eapply wp_mono; [by eapply copy_page_spec|].
    intros [[st|] g'] s2 H; [|done]. destruct H as (Ha & _ & Hb). done. }
  { constructor; try done; try (by split); intros p Hpn; by apply not_elem_of_nil in Hpn. }
  intros [ex g] s1 Hex. cbn in Hex.
  assert (cg_return g = false) as Hret by (destruct ex; [destruct Hex as [_ Hex]|]; apply Hex). rewrite Hret.
  set (g1 := cg_at _ _ false g). apply wp_bind.
  apply (wp_mono _ (fun '(st, g2) _ => cg_return g2 = false /\ same_moves c (cg_ctx g2) /\
    (forall l p, l <> dst -> mg_mem (cg_mig g2) l p = mg_mem m l p) /\
    (forall p, p ∉ pages -> mg_mem (cg_mig g2) dst p = mg_mem m dst p) /\
    (st = NV_OK -> forall p, p ∈ pages -> mg_mem (cg_mig g2) dst p = mg_mem m src p))).
  - unfold copy_rest. cbv zeta. destruct ex as [st|].
    + destruct Hex as [Hst Hi]. destruct (li_run _ _ _ Hi) as [Hlast Hstart].
      apply wp_if; intros Hc; bprop; [cbn in *; lia|]. apply wp_ret. split; [done|]. split; [apply Hi|].
      split; [apply Hi|]. split; [|done]. intros p _. apply (li_out _ _ _ Hi p). apply not_elem_of_nil.
    + assert (loop_inv g0 (pages_in_region_mask r pages) g1) as Hi by (by eapply loop_inv_ext). clearbody g1. clear g Hex Hret.
      set (ps := pages_in_region_mask r pages) in *.
      assert (forall p, p ∈ ps <-> p ∈ pages) as Hps.
      { intros p. unfold ps. rewrite elem_of_pages_in_region_mask, <- elem_of_region_mask. set_solver. }
      pose proof (li_run _ _ _ Hi) as Hrun. destruct (last ps) as [lp|] eqn:Hl.
      2:{ apply last_None in Hl. destruct H2. apply set_eq. intros p. rewrite <- Hps, Hl. set_solver. }
      destruct Hrun as (Hlast & Hstart & Hq & Hgpu). apply last_elem in Hl as Hlp. apply Hps in Hlp as Hlr.
      apply Hp, elem_of_region_mask in Hlr.
      assert (cg_start g1 ∈ ps) as Hsp by (apply Hq; lia). apply Hps, Hp, elem_of_region_mask in Hsp.
      apply wp_if; intros Hc.
      2:{ exfalso. cbn in Hc. rewrite Hlast in Hc.
          destruct (Z.ltb_spec (cg_start g1) (lp + 1)), (Z.leb_spec (rg_first r) (cg_start g1)), (Z.leb_spec (lp + 1) (rg_outer r)); done || lia. }
      apply wp_bind. apply (wp_mono _ (fun '(st, g2) _ => st = NV_OK /\ loop_inv g0 ps g2 /\ is_Some (cy_gpu (cg_copy g2)) /\
        forall p, p ∈ ps -> eff g2 p = mg_mem m src p)).
      * apply wp_if; intros Hb.
        -- apply wp_bind. eapply wp_mono; [apply (copy_region_inv g0 ps); [done|]|].
           { intros q Hqr%elem_of_region_mask. cbn in Hqr. apply Hq. lia. }
           intros [st g2] s2 (-> & Hi2 & Hsl & Heff). rewrite is_ok_NV_OK. apply wp_ret. split; [done|]. split; [done|].
           split; [by rewrite (sl_gpu _ _ Hsl)|]. intros q Hqy. rewrite Heff.
           destruct (decide (q ∈ region_mask _)) as [Hd|Hd]; [done|].
           destruct (li_done _ _ _ Hi q Hqy) as [Hdn|[_ Hge]]; [done|]. destruct Hd. apply elem_of_region_mask. cbn.
           assert (q <= lp); [|lia]. apply last_Some in Hl as [ys Hys]. rewrite Hys in Hqy.
           apply elem_of_app in Hqy as [Hqy|Hqy%list_elem_of_singleton]; [|lia].
           pose proof (next_page pages ys lp [] Hys) as [_ Hn]. apply Hn in Hqy. lia.
        -- apply wp_ret. split; [done|]. split; [done|]. split; [done|]. intros q Hqy.
           destruct (li_done _ _ _ Hi q Hqy) as [Hdn|[Hcg _]]; [done|]. by rewrite (li_contig _ _ _ Hi), Hcg in Hb.
      * intros [st g2] s2 (-> & Hi2 & Hgpu2 & Heff). rewrite (li_ret _ _ _ Hi2), uses_push, bool_decide_eq_true_2 by done.
        cbn [andb]. apply wp_bind. eapply wp_mono; [apply copy_end_push_spec; try apply Hi2|].
        { intros p [v Hv]. rewrite (li_block _ _ _ Hi2). apply Hblk, Hp, Hps. destruct (decide (p ∈ ps)) as [|Hn]; [done|].
          apply (li_out _ _ _ Hi2) in Hn as [_ Hn]. by rewrite Hn in Hv. }
        intros [[st m3] c3] s3 (Hm & Ho & Hout & Hok). apply wp_ret. cbn. split; [apply Hi2|].
        split; [etransitivity; [apply Hi2|done]|]. split; [intros l p Hlp'; rewrite Ho by done; by apply Hi2|].
        split.
        -- intros p Hpn. rewrite <- Hps in Hpn. apply (li_out _ _ _ Hi2) in Hpn as [Ha Hb]. by rewrite Hout.
        -- intros Hst p Hpp. rewrite Hok by done. by apply Heff, Hps.
  - intros [st g2] s2 (Hr2 & (Hn & Hnm & Hmg) & Ho & Hout & Hok). rewrite Hr2. apply wp_ret.
    set (mask := if is_ok st then pages else _).
    assert (mask ⊆ pages) as Hmask by (subst mask; destruct (is_ok st); set_solver).
    constructor.
    + done.
    + by destruct migrated.
    + destruct migrated; cbn; rewrite Hmg; set_solver.
    + by intros ->.
    + done.
    + done.
    + intros ->. subst mask. rewrite is_ok_NV_OK. split; [done|]. split; [done|]. split; [|by apply Hok].
      intros ->. cbn. by rewrite Hmg.
Qed.
End Between.
