(* ===== verification/MigrationSpec.v ===== *)
(** Migration moves the data: copies from every source and through the CPU, and
    the residency updates after them.  [uvm_va_block_make_resident] leaves the
    pages it is asked for at the destination alone, with the contents they had. *)
From stdpp Require Import functions sorting.
From S2P Require Import Prelude Kernel VaBlock Permissions Migration MigrationFrame MigrationCopy.

(** ** Copies from every source *)

Lemma ids_in_mask_empty : ids_in_mask ∅ = [].
Proof. done. Qed.
Lemma ids_in_mask_singleton x : ids_in_mask {[x]} = [x].
Proof. unfold ids_in_mask. by rewrite elements_singleton. Qed.


(** The pages resident on a processor. *)
Definition res (m : migration) (id : Z) : gset Z := uvm_va_block_resident_mask_get (mg_block m) id.

Lemma not_clean cfg src dst :
  dst.1 = UVM_ID_CPU \/ dst.1 ∈ mc_replayable cfg -> forall m p, block_page_is_clean cfg m src dst p = false.
Proof.
  intros Hd m p. unfold block_page_is_clean. destruct Hd as [->|Hd].
  - by rewrite andb_false_r.
  - rewrite (bool_decide_eq_true_2 (dst.1 ∈ _)) by done. cbn. by rewrite andb_false_r.
Qed.

(** A CPU with one memory node, [node]. *)
Section Sources.
Context `{E : Env} (cfg : mig_cfg) (node : Z).
Context (Hnodes : mc_nodes cfg = [node]) (Hnode : node <> NUMA_NO_NODE).

Definition at_ (id : Z) : loc := if id =? UVM_ID_CPU then (UVM_ID_CPU, node) else (id, NUMA_NO_NODE).

(** The node's residency is the CPU's. *)
Definition one_node (m : migration) : Prop := mg_resident m node = vb_cpu_resident (mg_block m).

Lemma at_id id : (at_ id).1 = id.
Proof. unfold at_. by destruct (Z.eqb_spec id UVM_ID_CPU) as [->|]. Qed.

Lemma at_inj id id' : at_ id = at_ id' -> id = id'.
Proof. intros H. by rewrite <- (at_id id), <- (at_id id'), H. Qed.

Lemma resident_at m id : one_node m -> resident_mask m (at_ id) = res m id.
Proof using Hnode.
  intros Hm. unfold resident_mask, at_, res, uvm_va_block_resident_mask_get.
  destruct (Z.eqb_spec id UVM_ID_CPU) as [->|Hid]; cbn.
  - apply Z.eqb_neq in Hnode. by rewrite Hnode.
  - by apply Z.eqb_neq in Hid as ->.
Qed.

Lemma resident_dest m id nid : one_node m -> nid = NUMA_NO_NODE \/ nid = node -> resident_mask m (id, nid) = res m id.
Proof using Hnode.
  intros Hm Hn. rewrite <- resident_at by done. unfold resident_mask, at_, res, uvm_va_block_resident_mask_get.
  destruct (Z.eqb_spec id UVM_ID_CPU) as [->|Hid]; cbn.
  - apply Z.eqb_neq in Hnode. rewrite Hnode. destruct Hn as [->| ->]; cbn; [done|]. by rewrite Hnode.
  - by apply Z.eqb_neq in Hid as ->.
Qed.

Lemma frame_res x y id : copy_frame x y -> res y.1 id = res x.1 id.
Proof. intros [[[Hs _] _ _] _ _ _ _ _ _ _ _ _ _ _ _]. apply (sp_gpu_res _ _ Hs). Qed.

Lemma frame_one_node x y : copy_frame x y -> one_node x.1 -> one_node y.1.
Proof.
  intros Hf Hx. unfold one_node. rewrite (cf_resident _ _ Hf), Hx. by rewrite (sp_cpu_res _ _ (ps_pages _ _ (qu_step _ _ (cf_block _ _ Hf)))).
Qed.

Lemma frame_pages x y : copy_frame x y -> block_pages (mg_block y.1) = block_pages (mg_block x.1).
Proof.
  intros [[[Hs _] _ _] _ _ _ _ _ _ _ _ _ _ _ _].
  unfold block_pages, uvm_va_block_region_from_block, uvm_va_block_num_cpu_pages, uvm_va_block_size.
  by rewrite (sp_start _ _ Hs), (sp_end _ _ Hs).
Qed.

Context (dst : Z) (r : region) (pages : gset Z) (pf : option (gset Z)) (migrated : bool).
Context (Hdst : dst = UVM_ID_CPU \/ dst ∈ mc_replayable cfg).

(** The pages missing at the destination. *)
Definition missing (m : migration) : gset Z := region_mask r ∩ pages ∖ res m dst.

(** What is set up for copies to the CPU. *)
Definition node_ready (c : move_ctx) : Prop :=
  mv_nodes c ⊆ {[node]} /\
  (dst = UVM_ID_CPU -> forall p, p ∈ region_mask r ∩ pages -> node ∈ mv_nodes c /\ p ∈ mv_node_mask c node).

(** [P]: the pages that are copied from [id]. *)
Record copied_from (id : Z) (P : gset Z) (x : copied) (st : nv_status) (y : copied) : Prop := {
  cp_frame : copy_frame (cp_pair x) (cp_pair y);
  cp_nodes : mv_nodes y.2 = mv_nodes x.2 /\ mv_node_mask y.2 = mv_node_mask x.2;
  cp_migrated : mv_migrated y.2 ⊆ mv_migrated x.2 ∪ P;
  cp_none  : migrated = false -> mv_migrated y.2 = mv_migrated x.2;
  cp_other : forall l p, l <> at_ dst \/ p ∉ P -> mg_mem y.1.2 l p = mg_mem x.1.2 l p;
  cp_ok    : st = NV_OK -> y.1.1 = u32 (x.1.1 + Z.of_nat (size P)) /\
               (migrated = true -> mv_migrated y.2 = mv_migrated x.2 ∪ P) /\
               forall p, p ∈ P -> mg_mem y.1.2 (at_ dst) p = mg_mem x.1.2 (at_ id) p;
}.

Definition source_pages (id : Z) (x : copied) : gset Z :=
  missing x.1.2 ∩ res x.1.2 id ∖ (if migrated then mv_migrated x.2 else ∅).

Lemma copied_nothing id P x st : P = ∅ -> u32 x.1.1 = x.1.1 -> copied_from id P x st x.
Proof.
  intros -> Hu. constructor; try done; try set_solver. intros _. rewrite size_empty, Z.add_0_r.
  split; [done|]. set_solver.
Qed.


Lemma between_at id mask m c s :
  one_node m -> region_mask r ⊆ block_pages (mg_block m) -> mask ⊆ region_mask r -> mask ⊆ res m id ->
  (env_cc = true -> id = UVM_ID_CPU \/ dst = UVM_ID_CPU) ->
  wp (block_copy_resident_pages_between cfg (at_ id) (at_ dst) r pf mask migrated m c)
    (fun '(st, n, mask', m', c') _ =>
       copied_between (at_ id) (at_ dst) (mask ∖ res m dst ∖ (if migrated then mv_migrated c else ∅))
         migrated m c st n mask' m' c') s.
Proof using All.
  intros Hm Hblk Hsub Hid Hcc. destruct (decide (id = dst)) as [He|Hne].
  - unfold block_copy_resident_pages_between. rewrite resident_at by done.
    assert (mask ∖ res m dst = ∅) as -> by (rewrite He in Hid; set_solver). cbv zeta.
    rewrite bool_decide_eq_true_2 by done. apply wp_ret.
    assert (∅ ∖ (if migrated then mv_migrated c else ∅) = (∅ : gset Z)) as -> by set_solver. by apply (nothing_copied (at_ id) (at_ dst)).
  - rewrite <- (resident_at m dst) by done.
    apply between_spec; rewrite ?at_id; [done| |done|done..].
    intros m1 p. apply not_clean. by rewrite at_id.
Qed.

Lemma copied_between_from id P n m c st k mask' m' c' :
  copied_between (at_ id) (at_ dst) P migrated m c st k mask' m' c' -> copy_frame (m, c) (m', c') ->
  P = source_pages id (n, m, c) ->
  copied_from id P (n, m, c) st (u32 (n + k), m', c').
Proof.
  intros [H1 H2 H3 H4 H5 H6 H7] Hf HP. constructor; try done.
  - intros l p Hlp. destruct (decide (l = at_ dst)) as [->|]; [|by apply H5]. apply H6. naive_solver.
  - intros Hst. destruct (H7 Hst) as (_ & -> & Hmg & Hmem). split; [done|]. by split.
Qed.

Lemma from_spec id x s :
  one_node x.1.2 -> node_ready x.2 -> region_mask r ⊆ block_pages (mg_block x.1.2) -> u32 x.1.1 = x.1.1 ->
  (env_cc = true -> id = UVM_ID_CPU \/ dst = UVM_ID_CPU) ->
  wp (block_copy_resident_pages_from cfg dst r (Some pages) pf migrated (at_ id) x)
    (fun '(st, y) _ => copied_from id (source_pages id x) x st y) s.
Proof using All.
  destruct x as [[n m] c]. cbn [fst snd]. intros Hm [Hn1 Hn2] Hblk Hu Hcc.
  unfold block_copy_resident_pages_from. cbv zeta. rewrite resident_at by done. cbn [mask_from_region].
  change (default all_pages (Some pages)) with pages.
  set (mask := region_mask r ∩ res m id ∩ pages).
  set (P := source_pages id (n, m, c)).
  assert (P = mask ∖ res m dst ∖ (if migrated then mv_migrated c else ∅)) as HP.
  { unfold P, source_pages, missing, mask. cbn. apply set_eq. intros p. destruct migrated; set_solver. }
  pose proof (between_frame cfg (at_ id) (at_ dst) r pf mask migrated m c) as Hfr.
  pose proof (fun s => between_at id mask m c s Hm Hblk ltac:(set_solver) ltac:(set_solver) Hcc) as Hbt. rewrite <- HP in Hbt.
  apply wp_if; intros Hc; bprop.
  - assert (at_ dst = (dst, node)) as Hat by (unfold at_; by rewrite Hc).
    assert (mv_nodes c = ∅ \/ mv_nodes c = {[node]}) as [Hmv|Hmv].
    { destruct (decide (node ∈ mv_nodes c)); [right|left]; apply set_eq; set_solver. }
    + rewrite Hmv, ids_in_mask_empty. cbn [kfold]. apply wp_bind, wp_ret, wp_ret. apply copied_nothing; [|done]. rewrite HP.
      apply set_eq. intros p. split; [|set_solver]. intros Hp. destruct (Hn2 Hc p) as [Hin _]; [subst mask; set_solver|].
      set_solver.
    + rewrite Hmv, ids_in_mask_singleton. cbn [kfold].
      assert (mask ∩ mv_node_mask c node = mask) as Hmk.
      { apply set_eq. intros p. split; [set_solver|]. intros Hp. apply elem_of_intersection. split; [done|].
        apply Hn2; [done|]. subst mask. set_solver. }
      apply wp_bind, wp_bind. cbv beta iota zeta. rewrite Hmk. apply wp_if; intros He; bprop.
      { apply wp_ret, wp_ret, wp_ret. apply copied_nothing; [rewrite HP; set_solver|done]. }
      rewrite <- Hat. apply wp_bind. eapply wp_mono; [exact (wp_and _ _ _ _ (Hbt _) (Hfr _))|].
      intros [[[[st k] mask'] m'] c'] s1 [Hb Hf]. cbn in Hb, Hf.
      pose proof (copied_between_from id P n m c st k mask' m' c' Hb Hf eq_refl) as Hcp.
      apply wp_if; intros Hst; bprop; apply wp_ret; cbv beta iota.
      * by apply wp_ret, wp_ret.
      * subst st. destruct (bool_decide _); cbv beta iota; by apply wp_ret, wp_ret.
  - assert (at_ dst = (dst, NUMA_NO_NODE)) as Hat by (unfold at_; by apply Z.eqb_neq in Hc as ->).
    rewrite <- Hat. apply wp_bind. eapply wp_mono; [exact (wp_and _ _ _ _ (Hbt _) (Hfr _))|].
    intros [[[[st k] mask'] m'] c'] s1 [Hb Hf]. cbn in Hb, Hf. apply wp_ret.
    exact (copied_between_from id P n m c st k mask' m' c' Hb Hf eq_refl).
Qed.
End Sources.

(** The pages resident on one of the processors. *)
Definition reach (m : migration) (ids : list Z) : gset Z := ⋃ (res m <$> ids).

Lemma elem_of_reach m ids p : p ∈ reach m ids <-> exists id, id ∈ ids /\ p ∈ res m id.
Proof.
  unfold reach. rewrite elem_of_union_list. setoid_rewrite list_elem_of_fmap. naive_solver.
Qed.

Lemma reach_snoc m ids id : reach m (ids ++ [id]) = reach m ids ∪ res m id.
Proof. apply set_eq. intros p. rewrite elem_of_union, !elem_of_reach. set_solver. Qed.

(** What any number of copies keeps of the migration. *)
Record same_sources (m m' : migration) : Prop := {
  ss_res   : forall id, res m' id = res m id;
  ss_node  : forall node, one_node node m -> one_node node m';
  ss_pages : block_pages (mg_block m') = block_pages (mg_block m);
}.

Lemma frame_sources m c m' c' : copy_frame (m, c) (m', c') -> same_sources m m'.
Proof.
  intros Hf. constructor.
  - intros id. apply (frame_res _ _ id Hf).
  - intros node. apply (frame_one_node node _ _ Hf).
  - apply (frame_pages _ _ Hf).
Qed.

Lemma missing_same dst r pages m m' : same_sources m m' -> missing dst r pages m' = missing dst r pages m.
Proof. intros Hs. unfold missing. by rewrite (ss_res _ _ Hs). Qed.

Section Mask.
Context `{E : Env} (cfg : mig_cfg) (node : Z).
Context (Hnodes : mc_nodes cfg = [node]) (Hnode : node <> NUMA_NO_NODE).
Context (dst : Z) (r : region) (pages : gset Z) (pf : option (gset Z)) (migrated : bool).
Context (Hdst : dst = UVM_ID_CPU \/ dst ∈ mc_replayable cfg).
Context (Hsmall : Z.of_nat (size (region_mask r)) < 2 ^ 32).
Context (m0 : migration) (c0 : move_ctx).
Context (Hone : one_node node m0) (Hready : node_ready node dst r pages c0).
Context (Hblk : region_mask r ⊆ block_pages (mg_block m0)).

(** The pages the sources [ids] have for the destination. *)
Definition wanted (ids : list Z) : gset Z :=
  missing dst r pages m0 ∩ reach m0 ids ∖ (if migrated then mv_migrated c0 else ∅).

(** [P]: the pages copied from the sources [ids]. *)
Record gathered (P : gset Z) (ids : list Z) (st : nv_status) (y : copied) : Prop := {
  ga_frame : copy_frame (m0, c0) (cp_pair y);
  ga_nodes : mv_nodes y.2 = mv_nodes c0 /\ mv_node_mask y.2 = mv_node_mask c0;
  ga_migrated : mv_migrated y.2 ⊆ mv_migrated c0 ∪ P;
  ga_none  : migrated = false -> mv_migrated y.2 = mv_migrated c0;
  ga_other : forall l p, l <> at_ node dst \/ p ∉ P -> mg_mem y.1.2 l p = mg_mem m0 l p;
  ga_ok    : st = NV_OK -> y.1.1 = Z.of_nat (size P) /\
               (migrated = true -> mv_migrated y.2 = mv_migrated c0 ∪ P) /\
               forall p, p ∈ P -> exists id, id ∈ ids /\ p ∈ res m0 id /\
                 mg_mem y.1.2 (at_ node dst) p = mg_mem m0 (at_ node id) p;
}.

(** A page is counted once: the migrated pages are not copied again, and pages
    copied to stay staged have one source. *)
Definition counted_once (ids : list Z) : Prop :=
  migrated = false -> forall id id' p, id ∈ ids -> id' ∈ ids -> p ∈ missing dst r pages m0 ->
    p ∈ res m0 id -> p ∈ res m0 id' -> id = id'.

Lemma size_wanted ids : Z.of_nat (size (wanted ids)) < 2 ^ 32.
Proof using Hsmall.
  assert (wanted ids ⊆ region_mask r) as Hs%subseteq_size.
  { clear. unfold wanted, missing. set_solver. }
  clear - Hs Hsmall. lia.
Qed.

Lemma wanted_snoc ys id y :
  gathered (wanted ys) ys NV_OK y -> id ∉ ys -> counted_once (ys ++ [id]) ->
  wanted (ys ++ [id]) = wanted ys ∪ source_pages dst r pages migrated id y /\
  wanted ys ## source_pages dst r pages migrated id y.
Proof using.
  clear Hnodes Hnode Hdst Hsmall Hone Hready Hblk.
  intros [Hf _ _ Hn _ Hok] Hid Honce. destruct (Hok eq_refl) as (_ & Hm & _).
  destruct y as [[n m] c]. apply frame_sources in Hf as Hs. unfold source_pages, wanted in *. cbn [fst snd] in *.
  rewrite (missing_same _ _ _ _ _ Hs), (ss_res _ _ Hs), reach_snoc. destruct migrated eqn:Hmi.
  - rewrite (Hm eq_refl). set (A := missing dst r pages m0). set (M := mv_migrated c0). clearbody A M. clear. split.
    + apply set_eq. intros p. rewrite !elem_of_union, !elem_of_difference, !elem_of_intersection, !elem_of_union,
        !elem_of_difference, !elem_of_intersection.
      destruct (decide (p ∈ A)), (decide (p ∈ M)), (decide (p ∈ reach m0 ys)); tauto.
    + intros p Hp1 Hp2. apply elem_of_difference in Hp2 as [_ Hp2]. set_solver.
  - rewrite !difference_empty_L. split; [clear; set_solver|]. intros p Hp1 Hp2. apply elem_of_intersection in Hp1 as [Hpm Hr].
    apply elem_of_reach in Hr as (id' & Hin & Hr). destruct Hid.
    apply elem_of_intersection in Hp2 as [_ Hp2].
    rewrite <- (Honce Hmi id' id p); [done|set_solver|set_solver|done..].
Qed.

Lemma gathered_step ys id y st z :
  gathered (wanted ys) ys NV_OK y -> id ∉ ys -> counted_once (ys ++ [id]) ->
  copied_from node dst migrated id (source_pages dst r pages migrated id y) y st z ->
  gathered (wanted (ys ++ [id])) (ys ++ [id]) st z.
Proof using Hsmall.
  intros Hy Hid Honce Hz. destruct (wanted_snoc ys id y Hy Hid Honce) as [Hw Hdis].
  pose proof (size_wanted (ys ++ [id])) as Hsz. clear Hnodes Hnode Hdst Hone Hready Hblk Honce. rewrite Hw in Hsz |- *. rewrite size_union in Hsz by done.
  destruct Hy as [Hf Hns Hmg Hnone Ho Hok], Hz as [Zf [Zn1 Zn2] Zmg Znone Zo Zok]. destruct Hns as [Hn1 Hn2].
  destruct (Hok eq_refl) as (Hc & Hm & Hd). destruct y as [[n m] c], z as [[n' m'] c'].
  apply frame_sources in Hf as Hs. set (P := source_pages _ _ _ _ _ _) in *.
  assert (P ⊆ res m0 id /\ P ## res m0 dst) as [HP HPd].
  { subst P. unfold source_pages. cbn. rewrite (missing_same _ _ _ _ _ Hs), (ss_res _ _ Hs). unfold missing.
    split; intros p; rewrite !elem_of_difference, elem_of_intersection, elem_of_difference; tauto. }
  cbn [fst snd cp_pair] in *. clear Hok Hw. generalize dependent (wanted ys). intros W **. clearbody P.
  constructor; cbn [fst snd cp_pair].
  - by etransitivity.
  - split; congruence.
  - clear - Hmg Zmg. set_solver.
  - intros Hmi. by rewrite Znone, Hnone.
  - intros l p Hlp. rewrite Zo, Ho by (clear - Hlp; set_solver). done.
  - intros Hst. destruct (Zok Hst) as (Hc' & Hm' & Hd'). split; [|split].
    + rewrite Hc', Hc, size_union by done. rewrite Nat2Z.inj_add. apply u32_small. lia.
    + intros Hmi. rewrite Hm', Hm by done. clear. set_solver.
    + intros p [Hp|Hp]%elem_of_union.
      * destruct (Hd p Hp) as (id' & Hin & Hr & Hmem). exists id'. split; [clear - Hin; set_solver|]. split; [done|].
        rewrite Zo by (right; intros Hp'; by apply (Hdis p)). done.
      * exists id. split; [clear; set_solver|]. split; [by apply HP|]. rewrite Hd' by done. apply Ho.
        left. intros He. apply at_inj in He. subst id. by apply (HPd p); [|apply HP].
Qed.

Lemma wanted_mono ys ids : (forall id, id ∈ ys -> id ∈ ids) -> wanted ys ⊆ wanted ids.
Proof using.
  clear. intros Hsub p. unfold wanted. rewrite !elem_of_difference, !elem_of_intersection, !elem_of_reach. naive_solver.
Qed.

Lemma gathered_more ys ids st y :
  gathered (wanted ys) ys st y -> (forall id, id ∈ ys -> id ∈ ids) ->
  (st = NV_OK -> Z.of_nat (size (wanted ids)) <= y.1.1) -> gathered (wanted ids) ids st y.
Proof using.
  clear Hnodes Hnode Hdst Hsmall Hone Hready Hblk. intros [Hf Hn Hm Hno Ho Hok] Hsub Hst.
  pose proof (wanted_mono ys ids Hsub) as Hw. constructor; try done.
  - by etransitivity; [apply Hm|]; apply union_mono_l.
  - intros l p [Hl|Hp]; apply Ho; [by left|right]. intros Hp'. by apply Hp, Hw.
  - intros He. destruct (Hok He) as (Hc & Hm' & Hd).
    assert (wanted ys = wanted ids) as He'.
    { apply set_subseteq_size_eq; [done|]. specialize (Hst He). lia. }
    rewrite <- He'. split; [done|]. split; [done|]. intros p Hp. destruct (Hd p Hp) as (id & ? & ?).
    exists id. auto.
Qed.

Lemma gathered_start ids st : st <> NV_OK \/ ids = [] -> gathered (wanted ids) ids st (0, m0, c0).
Proof using.
  clear. intros Hst. constructor; try done.
  - apply union_subseteq_l.
  - intros ->. destruct Hst as [|Hst]; [done|]. subst ids. assert (wanted [] = ∅) as ->; [|split; [done|]; split].
    + apply set_eq. intros p. unfold wanted. rewrite elem_of_difference, elem_of_intersection, elem_of_reach. set_solver.
    + intros _. by rewrite union_empty_r_L.
    + set_solver.
Qed.

Lemma copy_source_spec ids max id y s :
  gathered (wanted ids) ids NV_OK y -> (env_cc = true -> id = UVM_ID_CPU \/ dst = UVM_ID_CPU) ->
  wp (copy_from_source cfg dst r (Some pages) pf migrated max y id) (fun '(ex, z) _ =>
    exists st, copied_from node dst migrated id (source_pages dst r pages migrated id y) y st z /\
      ex = if is_ok st then if z.1.1 =? max then Some NV_OK else None else Some st) s.
Proof using All.
  intros Hy Hcc. unfold copy_from_source. pose proof (size_wanted ids) as Hsz. destruct (ga_ok _ _ _ _ Hy eq_refl) as (Hc & _).
  pose proof (ga_frame _ _ _ _ Hy) as Hf. destruct (ga_nodes _ _ _ _ Hy) as [Hn1 Hn2]. destruct y as [[n m] c].
  apply frame_sources in Hf as Hs. cbn [fst snd cp_pair] in *.
  assert (wp (block_copy_resident_pages_from cfg dst r (Some pages) pf migrated (at_ node id) (n, m, c))
    (fun '(st, z) _ => copied_from node dst migrated id (source_pages dst r pages migrated id (n, m, c)) (n, m, c) st z) s) as Hfrom.
  { apply from_spec; cbn [fst snd]; try done.
    - by apply (ss_node _ _ Hs).
    - destruct Hready as [Hr1 Hr2]. split; [by rewrite Hn1|]. by rewrite Hn1, Hn2.
    - by rewrite (ss_pages _ _ Hs).
    - subst n. apply u32_small. lia. }
  apply wp_bind. apply (wp_mono _ (fun '(st, z) _ => copied_from node dst migrated id
    (source_pages dst r pages migrated id (n, m, c)) (n, m, c) st z)).
  - apply wp_if; intros Hid; bprop.
    + subst id. rewrite Hnodes. cbn [kfold]. apply wp_bind, wp_bind, wp_bind. eapply wp_mono; [exact Hfrom|].
      intros [st z] s1 Hz. apply wp_ret. destruct st; apply wp_ret, wp_ret; cbn; done.
    + unfold at_ in Hfrom. apply Z.eqb_neq in Hid. by rewrite Hid in Hfrom.
  - intros [st z] s1 Hz. apply wp_if; intros Hst; bprop; apply wp_ret; exists st; (split; [done|]).
    + destruct (is_ok st) eqn:Ho; [|done]. by apply is_ok_true in Ho.
    + subst st. by rewrite is_ok_NV_OK.
Qed.

Lemma mask_spec srcs max s :
  let ids := env_closest dst srcs in
  counted_once ids -> Z.of_nat (size (wanted ids)) <= max ->
  (env_cc = true -> dst = UVM_ID_CPU \/ srcs ⊆ {[UVM_ID_CPU]}) ->
  wp (block_copy_resident_pages_mask cfg dst r (Some pages) pf migrated srcs max m0 c0)
    (fun '(st, y) _ => gathered (wanted ids) ids st y) s.
Proof using All.
  intros ids Honce Hmax Hcc. unfold block_copy_resident_pages_mask. apply wp_bind, wp_any; intros p s1.
  apply wp_if; intros Hp; [apply wp_ret, gathered_start; by left|]. apply wp_bind.
  pose proof (env_closest_nodup dst srcs) as Hnd. fold ids in Hnd |- *.
  eapply wp_mono; [apply (wp_kfold_prefix (fun ys y _ => gathered (wanted ys) ys NV_OK y)
    (fun st y _ => gathered (wanted ids) ids st y))|].
  - intros ys id zs y s2 Heq Hy.
    assert (id ∉ ys) as Hid by (rewrite Heq in Hnd; apply NoDup_app in Hnd as (_ & Hnd & _); set_solver).
    assert (forall x, x ∈ ys ++ [id] -> x ∈ ids) as Hsub by (intros x Hx; rewrite Heq; clear - Hx; set_solver).
    assert (counted_once (ys ++ [id])) as Honce'.
    { intros Hm i i' q Hi Hi'. apply Honce; [done|by apply Hsub..]. }
    eapply wp_mono; [apply (copy_source_spec ys); [done|]|].
    { intros Hc. destruct (Hcc Hc) as [|Hs]; [by right|left]. 
      assert (id ∈ srcs) as Hi%Hs by (apply (env_closest_elem dst), Hsub; clear; set_solver). clear - Hi. set_solver. }
    intros [ex z] s3 (st & Hz & ->). apply (gathered_step ys id y st z Hy Hid Honce') in Hz. cbn [fst snd].
    destruct (is_ok st) eqn:Hst; bprop.
    + subst st. destruct (z.1.1 =? max) eqn:Hzm; bprop; [|done].
      apply (gathered_more (ys ++ [id])); [done|done|]. lia.
    + apply (gathered_more (ys ++ [id])); [done|done|]. done.
  - apply gathered_start. by right.
  - intros [ex y] s2 Hy. apply wp_bind, wp_any; intros ? s3. apply wp_ret. by destruct ex.
Qed.
End Mask.
