(* ===== verification/MigrationData.v ===== *)
(** Copying the pages to their destination ([block_copy_resident_pages]): to the
    CPU from every holder, to a GPU directly from the holders it can copy from
    and through the CPU from the others. *)
From stdpp Require Import functions sorting.
From S2P Require Import Prelude Kernel VaBlock Permissions Migration MigrationFrame MigrationCopy MigrationSpec.

(** The destination [dst] and the pages asked for, on a system whose CPU has one
    memory node. *)
Section Copying.
Context `{E : Env} (cfg : mig_cfg) (node : Z).
Context (Hnodes : mc_nodes cfg = [node]) (Hnode : node <> NUMA_NO_NODE).
Context (Hclosest : forall nid, mc_closest_nodes cfg nid = [node]).
Context (dst : Z) (r : region) (pm pf : option (gset Z)).
Context (H0 : 0 <= dst) (Hdst : dst = UVM_ID_CPU \/ dst ∈ mc_replayable cfg).
Context (Hsmall : Z.of_nat (size (region_mask r)) < 2 ^ 32).

Definition asked : gset Z := default all_pages pm.

(** The pages to move, and the processors that have pages. *)
Definition to_move (m : migration) : gset Z := missing dst r asked m.
Definition holders (m : migration) : list Z := ids_in_mask (vb_resident (mg_block m)).
Definition direct (m : migration) : list Z := ids_in_mask (mc_can_copy_from cfg dst ∩ vb_resident (mg_block m)).
Definition indirect (m : migration) : list Z := ids_in_mask (vb_resident (mg_block m) ∖ mc_can_copy_from cfg dst).

Lemma to_move_region m : to_move m ⊆ region_mask r.
Proof using. clear. unfold to_move, missing. set_solver. Qed.
Lemma to_move_dst m p : p ∈ to_move m -> p ∉ res m dst.
Proof using. clear. unfold to_move, missing. set_solver. Qed.
Lemma elem_of_to_move m p : p ∈ to_move m <-> p ∈ region_mask r /\ p ∈ asked /\ p ∉ res m dst.
Proof using. clear. unfold to_move, missing. set_solver. Qed.

(** The nodes chosen for pages that are allocated on the node. *)
Record node_chosen (P : gset Z) (c c' : move_ctx) : Prop := {
  nc_nodes : mv_nodes c' ⊆ {[node]};
  nc_mask  : node ∈ mv_nodes c' -> mv_node_mask c' node = P;
  nc_some  : P <> ∅ -> node ∈ mv_nodes c';
  nc_rest  : mv_migrated c' = mv_migrated c /\ mv_staged c' = mv_staged c /\ mv_dest_nid c' = mv_dest_nid c;
}.

Lemma select_pages_spec P m c :
  mv_nodes c = ∅ -> region_mask r ∩ P ⊆ mg_allocated m node ->
  node_chosen (region_mask r ∩ P) c (block_select_cpu_node_pages cfg P r m c).
Proof using Hclosest.
  clear - Hclosest. intros Hn Ha. unfold block_select_cpu_node_pages. cbv zeta. rewrite Hclosest. cbn [mask_from_region].
  destruct (decide (P = ∅)) as [->|HP].
  { rewrite bool_decide_eq_true_2 by done. constructor; rewrite ?Hn; try done; set_solver. }
  rewrite bool_decide_eq_false_2 by done. cbn [fold_left].
  assert (region_mask r ∩ P ∩ mg_allocated m node = region_mask r ∩ P) as -> by (clear - Ha; set_solver).
  destruct (decide (region_mask r ∩ P = ∅)) as [He|He].
  - rewrite bool_decide_eq_true_2 by done. cbn. constructor; cbn; rewrite ?Hn; try done; set_solver.
  - rewrite bool_decide_eq_false_2 by done. cbn. constructor; cbn; rewrite ?Hn; try done.
    + set_solver.
    + intros _. by rewrite fn_lookup_insert.
    + set_solver.
Qed.

Lemma node_chosen_ready P d pages c c' :
  node_chosen P c c' -> (d = UVM_ID_CPU -> region_mask r ∩ pages ⊆ P) -> node_ready node d r pages c'.
Proof using.
  clear. intros [Hn Hm Hs _] Hd. split; [done|]. intros Hcpu p Hp. apply (Hd Hcpu) in Hp.
  assert (node ∈ mv_nodes c') as Hin by (apply Hs; set_solver). by rewrite Hm.
Qed.

(** What the copies are given. *)
Record copy_ready (m : migration) (c : move_ctx) : Prop := {
  cr_node   : one_node node m;
  cr_pages  : region_mask r ⊆ block_pages (mg_block m);
  cr_nodes  : mv_nodes c = ∅;
  cr_nid    : mv_dest_nid c = NUMA_NO_NODE \/ mv_dest_nid c = node;
  cr_cpu    : dst = UVM_ID_CPU -> to_move m ⊆ mg_allocated m node;
  cr_staged : dst <> UVM_ID_CPU ->
    mv_staged c = to_move m ∩ reach m (indirect m) ∖ reach m (direct m) /\ mv_staged c ⊆ mg_allocated m node;
  cr_single : dst <> UVM_ID_CPU -> forall id id' p, p ∈ mv_staged c -> id <> UVM_ID_CPU -> id' <> UVM_ID_CPU ->
    p ∈ res m id -> p ∈ res m id' -> id = id';
  cr_cc     : env_cc = true -> dst <> UVM_ID_CPU -> forall id, id ∈ direct m -> id <> dst -> id = UVM_ID_CPU;
}.

(** Pages are carried to the destination; a page already resident somewhere keeps
    its contents there. *)
Record carried (m : migration) (c : move_ctx) (st : nv_status) (m' : migration) (c' : move_ctx) : Prop := {
  ca_frame : copy_frame (m, c) (m', c');
  ca_sub   : mv_migrated c' ⊆ to_move m;
  ca_pages : forall l p, p ∉ to_move m \/ p ∉ reach m (holders m) -> mg_mem m' l p = mg_mem m l p;
  ca_locs  : forall l p, l <> at_ node dst -> l <> at_ node UVM_ID_CPU \/ p ∈ res m UVM_ID_CPU ->
               mg_mem m' l p = mg_mem m l p;
  ca_ok    : st = NV_OK -> mv_migrated c' = to_move m ∩ reach m (holders m) /\
               (forall p, p ∈ mv_migrated c' -> exists id, p ∈ res m id /\
                  mg_mem m' (at_ node dst) p = mg_mem m (at_ node id) p) /\
               (dst = UVM_ID_CPU -> mv_nodes c' ⊆ {[node]} /\ (node ∈ mv_nodes c' -> mv_node_mask c' node = to_move m) /\
                  (to_move m <> ∅ -> node ∈ mv_nodes c'));
}.

Lemma holders_split m p : p ∈ reach m (holders m) <-> p ∈ reach m (direct m) \/ p ∈ reach m (indirect m).
Proof using.
  clear. unfold holders, direct, indirect. rewrite !elem_of_reach.
  setoid_rewrite elem_of_ids_in_mask. split.
  - intros (id & Hid & Hp). destruct (decide (id ∈ mc_can_copy_from cfg dst)); [left|right]; exists id; set_solver.
  - intros [(id & Hid & Hp)|(id & Hid & Hp)]; exists id; set_solver.
Qed.

(** The pages gathered are the ones some holder has. *)
Lemma wanted_holders d m c ids migrated pages :
  (forall id, id ∈ ids -> id ∈ holders m) -> (migrated = true -> mv_migrated c = ∅) ->
  (forall p id, p ∈ missing d r pages m -> p ∈ res m id -> id ∈ holders m -> id ∈ ids) ->
  wanted d r pages migrated m c ids = missing d r pages m ∩ reach m (holders m).
Proof using.
  clear. intros Hids Hmg Hall. unfold wanted.
  assert (missing d r pages m ∩ reach m ids = missing d r pages m ∩ reach m (holders m)) as ->.
  { apply set_eq. intros p. rewrite !elem_of_intersection, !elem_of_reach. naive_solver. }
  destruct migrated; [rewrite Hmg by done|]; by rewrite difference_empty_L.
Qed.

Lemma missing_without m : missing dst r (asked ∖ res m dst) m = to_move m.
Proof using. clear. unfold to_move, missing. set_solver. Qed.

Lemma dest_resident m c : copy_ready m c -> resident_mask m (dst, mv_dest_nid c) = res m dst.
Proof using Hnode. intros Hr. by apply (resident_dest node Hnode); [apply Hr|apply Hr]. Qed.

(** To the CPU. *)
Lemma to_cpu_spec m c n s :
  dst = UVM_ID_CPU -> copy_ready m c -> mv_migrated c = ∅ -> Z.of_nat (size (to_move m)) <= n -> to_move m <> ∅ ->
  wp (copy_to_destination cfg dst r pf (asked ∖ res m dst) n m c)
    (fun '(st, m', c') _ => carried m c st m' c') s.
Proof using All.
  intros Hcpu Hr Hmg Hn Hne. unfold copy_to_destination. set (C := asked ∖ res m dst).
  set (c1 := block_select_cpu_node_pages cfg C r m c).
  assert (missing dst r C m = to_move m) as HC by apply missing_without.
  assert (region_mask r ∩ C = to_move m) as HC' by (subst C; unfold to_move, missing; clear; set_solver).
  assert (node_chosen (to_move m) c c1) as Hc1.
  { rewrite <- HC'. apply select_pages_spec; [apply Hr|]. rewrite HC'. by apply Hr. }
  pose proof (select_frame cfg C r m c) as Hf1. fold c1 in Hf1.
  assert (node_ready node dst r C c1) as Hready by (eapply node_chosen_ready; [exact Hc1|by rewrite HC']).
  destruct Hc1 as [Hc1n Hc1m Hc1s (Hc1g & Hc1t & Hc1d)].
  assert (UVM_ID_IS_GPU dst = false) as -> by (by rewrite Hcpu). cbv zeta. fold c1.
  unfold copy_through_cpu. cbv zeta. rewrite <- Hcpu, Z.eqb_refl.
  assert (C <> ∅) as HCe by (intros He; apply Hne; rewrite <- HC', He; clear; set_solver).
  rewrite bool_decide_eq_false_2 by done. set (srcs := if _ || _ then _ else _).
  assert (forall id, id ∈ srcs -> id ∈ holders m) as Hsub.
  { intros id Hid. apply elem_of_ids_in_mask. subst srcs. clear - Hid. destruct (_ || _); set_solver. }
  assert (forall id p, id ∈ holders m -> p ∈ to_move m -> p ∈ res m id -> id ∈ srcs) as Hsup.
  { intros id p Hid%elem_of_ids_in_mask Hp Hpid. apply to_move_dst in Hp.
    assert (id <> dst) as Hd by (intros ->; done). subst srcs. clear - Hid Hd. destruct (_ || _); set_solver. }
  assert (forall x, x ∈ env_closest dst srcs <-> x ∈ srcs) as Hel by (intros; apply env_closest_elem).
  set (ids := env_closest dst srcs) in *.
  assert (wanted dst r C true m c1 ids = to_move m ∩ reach m (holders m)) as Hw.
  { rewrite <- HC. apply wanted_holders.
    - intros id Hid%Hel. auto.
    - intros _. by rewrite Hc1g.
    - intros p id Hp Hpid Hid. rewrite HC in Hp. apply Hel. eauto. }
  apply wp_bind. eapply wp_mono; [apply (mask_spec cfg node Hnodes Hnode dst r C pf true Hdst Hsmall m c1)|].
  { apply Hr. } { done. } { apply Hr. } { done. }
  { cbv zeta. fold ids. rewrite Hw. etransitivity; [|exact Hn]. apply inj_le, subseteq_size. clear. set_solver. }
  { intros _. by left. }
  fold ids. rewrite Hw. intros [st [[k m'] c']] s1 [Gf [Gn1 Gn2] Gm _ Go Gok]. cbn [fst snd cp_pair] in *. rewrite Hc1g, Hmg in Gm.
  assert (carried m c st m' c') as Hcar.
  { constructor.
    - by etransitivity.
    - clear - Gm. set_solver.
    - intros l p Hp. apply Go. right. clear - Hp. set_solver.
    - intros l p Hl _. apply Go. by left.
    - intros Hst. destruct (Gok Hst) as (_ & Hm' & Hd). rewrite Hm', Hc1g, Hmg by done. split; [clear; set_solver|].
      split.
      + intros p Hp. rewrite union_empty_l_L in Hp. destruct (Hd p Hp) as (id & _ & ? & ?). by exists id.
      + intros _. by rewrite Gn1, Gn2. }
  apply wp_if; intros Hst; [by apply wp_ret|]. bprop. subst st. by apply wp_ret.
Qed.

(** The staged pages, from the CPU to a GPU. *)
Lemma copy_staged_spec P m c s :
  dst <> UVM_ID_CPU -> one_node node m -> region_mask r ⊆ block_pages (mg_block m) -> mv_staged c = P ->
  P ⊆ region_mask r -> P ∩ res m dst = ∅ -> P ∩ mv_migrated c = ∅ ->
  mv_nodes c ⊆ {[node]} -> (node ∈ mv_nodes c -> mv_node_mask c node = P) -> (P <> ∅ -> node ∈ mv_nodes c) ->
  wp (copy_staged cfg dst r pf m c) (fun '(st, m', c') _ =>
    (forall l p, l <> at_ node dst \/ p ∉ P -> mg_mem m' l p = mg_mem m l p) /\
    mv_migrated c' ⊆ mv_migrated c ∪ P /\
    (st = NV_OK -> mv_migrated c' = mv_migrated c ∪ P /\
       forall p, p ∈ P -> mg_mem m' (at_ node dst) p = mg_mem m (at_ node UVM_ID_CPU) p)) s.
Proof using Hnode Hdst.
  clear Hnodes Hclosest Hsmall. intros Hd Hone Hblk Hst Hsub Hres Hmg Hn1 Hn2 Hn3. unfold copy_staged.
  assert (forall st, P = ∅ -> (forall l p, l <> at_ node dst \/ p ∉ P -> mg_mem m l p = mg_mem m l p) /\
    mv_migrated c ⊆ mv_migrated c ∪ P /\ (st = NV_OK -> mv_migrated c = mv_migrated c ∪ P /\
       forall p, p ∈ P -> mg_mem m (at_ node dst) p = mg_mem m (at_ node UVM_ID_CPU) p)) as Hnone.
  { intros st ->. assert (mv_migrated c ∪ ∅ = mv_migrated c) as -> by (clear; set_solver). split; [reflexivity|]. split; [reflexivity|].
    intros _. split; [reflexivity|]. intros p Hp. by apply not_elem_of_empty in Hp. }
  destruct (decide (node ∈ mv_nodes c)) as [Hin|Hin].
  2:{ assert (mv_nodes c = ∅) as -> by (clear - Hn1 Hin; set_solver). rewrite ids_in_mask_empty. cbn [kfold].
      apply wp_bind, wp_ret, wp_ret. apply Hnone. destruct (decide (P = ∅)); [done|]. by destruct Hin; auto. }
  assert (mv_nodes c = {[node]}) as -> by (clear - Hn1 Hin; set_solver). rewrite ids_in_mask_singleton.
  cbn [kfold]. apply wp_bind, wp_bind. cbv beta iota zeta. rewrite Hst, Hn2 by done.
  assert (P ∩ P = P) as -> by (clear; set_solver). apply wp_if; intros He; bprop.
  { apply wp_ret, wp_ret, wp_ret. by apply Hnone. }
  apply wp_bind.
  change (UVM_ID_CPU, node) with (at_ node UVM_ID_CPU).
  assert ((dst, NUMA_NO_NODE) = at_ node dst) as -> by (unfold at_; by apply Z.eqb_neq in Hd as ->).
  eapply wp_mono; [apply between_spec; rewrite ?at_id|]; try done.
  { intros m1 p. apply not_clean. by rewrite at_id. }
  { intros _. by left. }
  unfold to_copy. rewrite (resident_at node Hnode) by done.
  assert (P ∖ res m dst ∖ (if true then mv_migrated c else ∅) = P) as -> by (clear - Hres Hmg; set_solver).
  intros [[[[st k] mask] m'] c'] s1 [_ _ Hm _ Ho Hout Hok].
  assert ((forall l p, l <> at_ node dst \/ p ∉ P -> mg_mem m' l p = mg_mem m l p) /\
    mv_migrated c' ⊆ mv_migrated c ∪ P /\ (st = NV_OK -> mv_migrated c' = mv_migrated c ∪ P /\
       forall p, p ∈ P -> mg_mem m' (at_ node dst) p = mg_mem m (at_ node UVM_ID_CPU) p)) as Hall.
  { split; [|split; [done|]].
    - intros l p [Hl|Hp]; [by apply Ho|]. destruct (decide (l = at_ node dst)) as [->|]; auto.
    - intros Hst1. destruct (Hok Hst1) as (_ & _ & ? & ?). auto. }
  apply wp_ret. destruct st; apply wp_ret, wp_ret; cbn; done.
Qed.

(** The pages copied to the GPU directly, and those staged. *)
Definition straight (m : migration) : gset Z := to_move m ∩ reach m (direct m).
Definition staged (m : migration) : gset Z := to_move m ∩ reach m (indirect m) ∖ reach m (direct m).

(** The state after the direct copies. *)
Record directly (m : migration) (c : move_ctx) (m1 : migration) (c1 : move_ctx) : Prop := {
  dr_frame : copy_frame (m, c) (m1, c1);
  dr_nodes : mv_nodes c1 ⊆ {[node]} /\ (node ∈ mv_nodes c1 -> mv_node_mask c1 node = staged m) /\
             (staged m <> ∅ -> node ∈ mv_nodes c1);
  dr_migrated : mv_migrated c1 = straight m;
  dr_other : forall l p, l <> at_ node dst \/ p ∉ straight m -> mg_mem m1 l p = mg_mem m l p;
  dr_ok    : forall p, p ∈ straight m -> exists id, p ∈ res m id /\
               mg_mem m1 (at_ node dst) p = mg_mem m (at_ node id) p;
}.

(** The state after the staged pages' copies to the CPU. *)
Record staging (m m1 : migration) (c1 : move_ctx) (st : nv_status) (m2 : migration) (c2 : move_ctx) : Prop := {
  sg_frame : copy_frame (m1, c1) (m2, c2);
  sg_nodes : mv_nodes c2 = mv_nodes c1 /\ mv_node_mask c2 = mv_node_mask c1 /\ mv_migrated c2 = mv_migrated c1;
  sg_other : forall l p, l <> at_ node UVM_ID_CPU \/ p ∉ staged m \/ p ∈ res m UVM_ID_CPU ->
               mg_mem m2 l p = mg_mem m1 l p;
  sg_ok    : st = NV_OK -> forall p, p ∈ staged m -> exists id, p ∈ res m id /\
               mg_mem m2 (at_ node UVM_ID_CPU) p = mg_mem m (at_ node id) p;
}.

Lemma staged_region m : staged m ⊆ region_mask r.
Proof using. intros p. unfold staged. rewrite elem_of_difference, elem_of_intersection. intros [[Hp _] _]. by apply to_move_region in Hp. Qed.
Lemma straight_staged m : straight m ∩ staged m = ∅.
Proof using. clear. unfold straight, staged. set_solver. Qed.
Lemma moved_split m : to_move m ∩ reach m (holders m) = straight m ∪ staged m.
Proof using.
  clear. apply set_eq. intros p. unfold straight, staged.
  rewrite elem_of_union, elem_of_difference, !elem_of_intersection, holders_split.
  destruct (decide (p ∈ reach m (direct m))); tauto.
Qed.

Lemma at_cpu_dst : dst <> UVM_ID_CPU -> at_ node UVM_ID_CPU <> at_ node dst.
Proof using. clear. intros Hd He. apply at_inj in He. auto. Qed.

Lemma frame_resident m c m' c' : copy_frame (m, c) (m', c') -> vb_resident (mg_block m') = vb_resident (mg_block m).
Proof using. clear. intros [[[Hs _] _ _] _ _ _ _ _ _ _ _ _ _ _ _]. apply (sp_resident _ _ Hs). Qed.

Definition direct_sources (m : migration) : gset Z := (block_get_can_copy_from_mask cfg dst ∩ vb_resident (mg_block m)) ∖ {[dst]}.

(** The copies to the CPU of the pages to stage. *)
Lemma stage_spec m c m1 c1 n s :
  let srcs := vb_resident (mg_block m1) ∖ direct_sources m ∖ {[dst]} ∖ {[UVM_ID_CPU]} in
  dst <> UVM_ID_CPU -> copy_ready m c -> directly m c m1 c1 -> Z.of_nat (size (staged m)) <= n ->
  wp (block_copy_resident_pages_mask cfg UVM_ID_CPU r (Some (staged m)) pf false srcs n m1 c1)
    (fun '(st, (_, m2, c2)) _ => staging m m1 c1 st m2 c2) s.
Proof using All.
  intros srcs Hd Hr [Hf [Hn1 [Hn2 Hn3]] Hmg Ho Hok] Hn. apply frame_sources in Hf as Hs.
  assert (forall id, id ∈ srcs <-> id ∈ indirect m /\ id <> dst /\ id <> UVM_ID_CPU) as Hsrcs.
  { intros id. subst srcs. rewrite (frame_resident _ _ _ _ Hf). unfold direct_sources, block_get_can_copy_from_mask, indirect.
    rewrite elem_of_ids_in_mask. clear. destruct (decide (id ∈ mc_can_copy_from cfg dst)); set_solver. }
  clearbody srcs. set (ids := env_closest UVM_ID_CPU srcs).
  assert (forall id, id ∈ ids <-> id ∈ indirect m /\ id <> dst /\ id <> UVM_ID_CPU) as Hids.
  { intros id. subst ids. by rewrite env_closest_elem. }
  set (W := wanted UVM_ID_CPU r (staged m) false m1 c1 ids).
  assert (forall p, p ∈ W <-> p ∈ staged m /\ p ∉ res m UVM_ID_CPU) as HW.
  { intros p. subst W. unfold wanted, missing. rewrite difference_empty_L, !elem_of_intersection, elem_of_difference,
      elem_of_reach, elem_of_intersection, !(ss_res _ _ Hs). split; [tauto|]. intros [Hp Hc].
    pose proof (staged_region _ _ Hp). split; [done|]. unfold staged in Hp.
    apply elem_of_difference in Hp as [[Hp Hi]%elem_of_intersection _]. apply elem_of_reach in Hi as (id & Hid & Hpid).
    exists id. rewrite (ss_res _ _ Hs). split; [|done]. apply Hids. split; [done|]. split.
    - intros ->. by apply to_move_dst in Hp.
    - by intros ->. }
  assert (W ⊆ staged m) as HWs by (intros p Hp; by apply HW).
  eapply wp_mono; [apply (mask_spec cfg node Hnodes Hnode UVM_ID_CPU r (staged m) pf false (or_introl eq_refl) Hsmall m1 c1)|].
  { apply (ss_node _ _ Hs), Hr. }
  { split; [done|]. intros _ p [_ Hp]%elem_of_intersection. assert (node ∈ mv_nodes c1) as Hin by (apply Hn3; set_solver).
    split; [done|]. by rewrite Hn2. }
  { rewrite (ss_pages _ _ Hs). apply Hr. }
  { intros _ id id' p Hid Hid' Hp. rewrite !(ss_res _ _ Hs). apply (Hids id) in Hid as (_ & _ & Hid).
    apply (Hids id') in Hid' as (_ & _ & Hid'). apply (cr_single _ _ Hr); [done| |done|done].
    rewrite (proj1 (cr_staged _ _ Hr Hd)). unfold missing in Hp. clear - Hp. set_solver. }
  { cbv zeta. fold ids. fold W. etransitivity; [|exact Hn]. by apply inj_le, subseteq_size. }
  { intros _. by left. }
  cbv zeta. fold ids. fold W. intros [st [[k m2] c2]] s1 [Gf [Gn1 Gn2] _ Gm Go Gok]. cbn [fst snd cp_pair] in *.
  constructor; [done|auto| |].
  - intros l p Hp. apply Go. destruct Hp as [Hp|Hp]; [by left|right]. rewrite HW. tauto.
  - intros Hst p Hp. destruct (Gok Hst) as (_ & _ & Hd2). destruct (decide (p ∈ res m UVM_ID_CPU)) as [Hc|Hc].
    + exists UVM_ID_CPU. split; [done|]. rewrite Go by (right; rewrite HW; tauto). apply Ho. left. by apply at_cpu_dst.
    + destruct (Hd2 p) as (id & Hid & Hpid & ->); [by apply HW|]. apply Hids in Hid as (_ & Hid & _).
      exists id. rewrite (ss_res _ _ Hs) in Hpid. split; [done|]. apply Ho. left. intros He. by apply at_inj in He.
Qed.

(** What has been done to a page's contents, put together. *)
Lemma carried_staging m c m1 c1 st m2 c2 :
  dst <> UVM_ID_CPU -> directly m c m1 c1 -> staging m m1 c1 st m2 c2 -> st <> NV_OK \/ staged m = ∅ ->
  carried m c st m2 c2.
Proof using.
  clear. intros Hd [Hf _ Hmg Ho Hok] [Gf (_ & _ & Gm) Go _] Hst. pose proof (moved_split m) as Hsplit. constructor.
  - by etransitivity.
  - rewrite Gm, Hmg. unfold straight. clear. set_solver.
  - intros l p Hp. assert (p ∉ straight m ∪ staged m) as Hn by (rewrite <- Hsplit; clear - Hp; set_solver).
    rewrite Go, Ho by (clear - Hn; set_solver). done.
  - intros l p Hl Hp. rewrite Go, Ho by (clear - Hl Hp; tauto). done.
  - intros Hok1. destruct Hst as [|Hst]; [done|]. rewrite Hsplit, Hst, Gm, Hmg. split; [clear; set_solver|].
    split; [|by intros ?%Hd]. intros p Hp. destruct (Hok p Hp) as (id & Hid & Hm). exists id. split; [done|].
    rewrite Go by (left; intros He; by apply (at_cpu_dst Hd)). done.
Qed.

Lemma staging_nothing m m1 c1 st : st <> NV_OK \/ staged m = ∅ -> staging m m1 c1 st m1 c1.
Proof using.
  clear. intros Hst. constructor; try done. intros Hok p Hp. destruct Hst as [|Hst]; [done|].
  rewrite Hst in Hp. by apply not_elem_of_empty in Hp.
Qed.

(** Through the CPU. *)
Lemma through_spec m c m1 c1 cpm n s :
  dst <> UVM_ID_CPU -> copy_ready m c -> directly m c m1 c1 -> Z.of_nat (size (staged m)) <= n ->
  wp (copy_through_cpu cfg dst r pf cpm (staged m) (direct_sources m) n m1 c1)
    (fun '(st, m', c') _ => carried m c st m' c') s.
Proof using All.
  intros Hd Hr Hdir Hn. unfold copy_through_cpu. cbv zeta.
  assert (dst =? UVM_ID_CPU = false) as -> by by apply Z.eqb_neq. cbn [negb orb]. apply wp_bind.
  apply (wp_mono _ (fun '(st, (_, m2, c2)) _ => staging m m1 c1 st m2 c2)).
  { apply wp_if; intros He; bprop; [apply wp_ret, staging_nothing; by right|]. by apply (stage_spec m c). }
  intros [st [[k m2] c2]] s1 Hsg. apply wp_if; intros Hst; bprop; [apply wp_ret; eapply carried_staging; eauto|]. subst st.
  apply wp_bind, wp_any; intros st s2. apply wp_if; intros Hst; bprop.
  { apply wp_ret. eapply carried_staging; [done|done| |by left]. destruct Hsg. constructor; try done. }
  clear st Hst. pose proof (frame_sources _ _ _ _ (dr_frame _ _ _ _ Hdir)) as Hs1.
  pose proof (frame_sources _ _ _ _ (sg_frame _ _ _ _ _ _ Hsg)) as Hs2.
  destruct Hdir as [Hf [Hn1 [Hn2 Hn3]] Hmg Ho Hok], Hsg as [Gf (Gn1 & Gn2 & Gm) Go Gok].
  assert (mv_staged c2 = staged m) as Hstg.
  { etransitivity; [exact (eq_trans (cf_staged _ _ Gf) (cf_staged _ _ Hf))|]. apply (cr_staged _ _ Hr Hd). }
  pose proof (staged_frame cfg dst r pf m2 c2) as Hfr.
  eapply wp_mono; [refine (wp_and _ _ _ _ (copy_staged_spec (staged m) m2 c2 s2 Hd _ _ Hstg _ _ _ _ _ _) (Hfr _))|].
  - apply (ss_node _ _ Hs2), (ss_node _ _ Hs1), Hr.
  - rewrite (ss_pages _ _ Hs2), (ss_pages _ _ Hs1). apply Hr.
  - apply staged_region.
  - rewrite (ss_res _ _ Hs2), (ss_res _ _ Hs1). unfold staged, to_move, missing. clear. set_solver.
  - rewrite Gm, Hmg. pose proof (straight_staged m) as He. clear - He. set_solver.
  - by rewrite Gn1.
  - by rewrite Gn1, Gn2.
  - by rewrite Gn1.
  - intros [[st m3] c3] s3 [(Ko & Km & Kok) Kf]. cbn in Kf. pose proof (moved_split m) as Hsplit.
    rewrite Gm, Hmg in Km, Kok.
    constructor.
    + etransitivity; [exact Hf|]. by etransitivity.
    + etransitivity; [exact Km|]. unfold straight, staged. clear. set_solver.
    + intros l p Hp. assert (p ∉ straight m ∪ staged m) as Hnp by (rewrite <- Hsplit; clear - Hp; set_solver).
      rewrite Ko, Go, Ho by (clear - Hnp; set_solver). done.
    + intros l p Hl Hp. rewrite Ko, Go, Ho by (clear - Hl Hp; tauto). done.
    + intros Hst. destruct (Kok Hst) as [Km' Kd]. rewrite Hsplit, Km'. split; [done|]. split; [|by intros ?%Hd].
      intros p [Hp|Hp]%elem_of_union.
      * destruct (Hok p Hp) as (id & Hid & Hm). exists id. split; [done|]. rewrite Ko, Go; [done| |].
        -- left. intros He. by apply (at_cpu_dst Hd).
        -- right. pose proof (straight_staged m) as He. clear - He Hp. set_solver.
      * rewrite Kd by done. by apply Gok.
Qed.

Lemma size_diff (A B : gset Z) : A ⊆ B -> Z.of_nat (size B) < 2 ^ 32 ->
  u32 (Z.of_nat (size B) - Z.of_nat (size A)) = Z.of_nat (size (B ∖ A)).
Proof using.
  clear. intros Hs Hb. pose proof (size_difference _ _ Hs) as Hd. pose proof (subseteq_size _ _ Hs).
  rewrite u32_small; lia.
Qed.

(** To a GPU. *)
Lemma to_gpu_spec m c s :
  dst <> UVM_ID_CPU -> copy_ready m c -> mv_migrated c = ∅ ->
  wp (copy_to_destination cfg dst r pf (asked ∖ res m dst) (Z.of_nat (size (to_move m))) m c)
    (fun '(st, m', c') _ => carried m c st m' c') s.
Proof using All.
  intros Hd Hr Hmg. unfold copy_to_destination.
  assert (UVM_ID_IS_GPU dst = true) as -> by (unfold UVM_ID_IS_GPU, UVM_ID_CPU in *; lia). cbv zeta.
  fold (direct_sources m). set (C := asked ∖ res m dst). destruct (cr_staged _ _ Hr Hd) as [Hstg Halloc].
  fold (staged m) in Hstg. rewrite Hstg in Halloc |- *. set (c1 := block_select_cpu_node_pages cfg (staged m) r m c).
  assert (region_mask r ∩ staged m = staged m) as HS by (pose proof (staged_region m) as HS; clear - HS; set_solver).
  assert (node_chosen (staged m) c c1) as Hc1 by (rewrite <- HS at 1; apply select_pages_spec; [apply Hr|by rewrite HS]).
  pose proof (select_frame cfg (staged m) r m c) as Hf1. fold c1 in Hf1.
  assert (node_ready node dst r C c1) as Hready by (by eapply node_chosen_ready; [exact Hc1|intros ?%Hd]).
  destruct Hc1 as [Hc1n Hc1m Hc1s (Hc1g & Hc1t & Hc1d)]. rewrite Hmg in Hc1g.
  set (ids := env_closest dst (direct_sources m)).
  assert (missing dst r C m = to_move m) as HC by apply missing_without.
  assert (wanted dst r C true m c1 ids = straight m) as HW.
  { unfold wanted. rewrite HC, Hc1g, difference_empty_L. unfold straight. apply set_eq. intros p.
    rewrite !elem_of_intersection, !elem_of_reach. split; intros [Hp (id & Hid & Hpid)]; (split; [done|]); exists id; (split; [|done]).
    - apply env_closest_elem in Hid. unfold direct. apply elem_of_ids_in_mask. unfold direct_sources, block_get_can_copy_from_mask in Hid.
      clear - Hid. set_solver.
    - apply env_closest_elem. unfold direct_sources, block_get_can_copy_from_mask. apply elem_of_ids_in_mask in Hid.
      assert (id <> dst) as Hne by (intros ->; by apply to_move_dst in Hp). clear - Hid Hne. set_solver. }
  assert (straight m ⊆ to_move m) as Hsub by (unfold straight; clear; set_solver).
  apply wp_bind. eapply wp_mono; [apply (mask_spec cfg node Hnodes Hnode dst r C pf true Hdst Hsmall m c1)|].
  { apply Hr. } { done. } { apply Hr. } { done. }
  { cbv zeta. fold ids. rewrite HW. by apply inj_le, subseteq_size. }
  { intros Hcc. right. intros id Hid. apply elem_of_singleton. apply (cr_cc _ _ Hr Hcc Hd id).
    - unfold direct, direct_sources, block_get_can_copy_from_mask in *. apply elem_of_ids_in_mask. clear - Hid. set_solver.
    - unfold direct_sources in Hid. clear - Hid. set_solver. }
  cbv zeta. fold ids. rewrite HW. intros [st [[k m1] c2]] s1 [Gf [Gn1 Gn2] Gm _ Go Gok]. cbn [fst snd cp_pair] in *.
  rewrite Hc1g, union_empty_l_L in Gm, Gok. apply wp_if; intros Hst; bprop.
  { apply wp_ret. constructor; try done.
    - by etransitivity.
    - by etransitivity.
    - intros l p Hp. apply Go. right. pose proof (moved_split m) as Hsp. clear - Hp Hsp. set_solver.
    - intros l p Hl _. apply Go. by left. }
  destruct (Gok Hst) as (-> & Hm & Hdata). specialize (Hm eq_refl).
  assert (directly m c m1 c2) as Hdir.
  { constructor; try done.
    - by etransitivity.
    - by rewrite Gn1, Gn2.
    - intros p Hp. destruct (Hdata p Hp) as (id & _ & ?). by exists id. }
  assert (Z.of_nat (size (to_move m)) < 2 ^ 32) as Hb.
  { pose proof (subseteq_size _ _ (to_move_region m)). clear - H Hsmall. lia. }
  rewrite size_diff by done. apply wp_if; intros Hz; bprop.
  - assert (staged m = ∅) as Hnil.
    { apply leibniz_equiv, size_empty_inv.
      assert (staged m ⊆ to_move m ∖ straight m) as Hss%subseteq_size.
      { pose proof (straight_staged m) as He. clear - He. unfold staged in *. set_solver. }
      clear - Hss Hz. lia. }
    subst st. apply wp_ret. apply (carried_staging m c m1 c2 NV_OK m1 c2); [done|done| |by right].
    apply staging_nothing. by right.
  - assert (mv_staged c2 = staged m) as -> by (etransitivity; [exact (cf_staged _ _ Gf)|]; cbn; by rewrite Hc1t).
    apply (through_spec m c); [done|done|done|]. apply inj_le, subseteq_size. pose proof (straight_staged m) as He.
    clear - He. unfold staged in *. set_solver.
Qed.

Lemma carried_weaken m c st st' m' c' : (st' = NV_OK -> st = NV_OK) -> carried m c st m' c' -> carried m c st' m' c'.
Proof using. clear. intros Hst [? ? ? ? Hok]. constructor; auto. Qed.

Lemma carried_nothing m c st c' :
  copy_frame (m, c) (m, c') -> mv_migrated c' = ∅ -> mv_nodes c' = ∅ -> st <> NV_OK \/ to_move m = ∅ ->
  carried m c st m c'.
Proof using.
  clear. intros Hf Hm Hn Hst. constructor; try done.
  - rewrite Hm. apply empty_subseteq.
  - intros Hok. destruct Hst as [|Hst]; [done|]. rewrite Hm, Hst, Hn. split; [clear; set_solver|].
    split; [|intros _; split_and!; [apply empty_subseteq|intros Hi; by apply not_elem_of_empty in Hi|done]].
    intros p Hp. by apply not_elem_of_empty in Hp.
Qed.

Lemma resident_pages_spec m c s :
  copy_ready m c ->
  wp (block_copy_resident_pages cfg dst r pm pf m c) (fun '(st, m', c') _ => carried m c st m' c') s.
Proof using All.
  intros Hr. unfold block_copy_resident_pages. cbv zeta. set (c0 := mv_set_migrated ∅ c).
  assert (copy_ready m c0) as Hr0 by (destruct Hr; by constructor).
  assert (copy_frame (m, c) (m, c0)) as Hf0 by apply frame_migrated.
  change (pages_without pm (resident_mask m (dst, mv_dest_nid c0))) with (asked ∖ resident_mask m (dst, mv_dest_nid c0)).
  rewrite (dest_resident m c0 Hr0).
  assert ((asked ∖ res m dst) ∩ region_mask r = to_move m) as -> by (unfold to_move, missing; clear; set_solver).
  apply wp_bind. apply (wp_mono _ (fun '(st, m', c') _ => carried m c st m' c')).
  2:{ intros [[st m1] c1] s1 Hc. apply wp_bind, wp_any; intros ts s2. apply wp_ret.
      eapply carried_weaken; [|exact Hc]. destruct (is_ok st) eqn:Ho; [by intros _; apply is_ok_true|].
      intros ->. by rewrite is_ok_NV_OK in Ho. }
  apply wp_if; intros Hz; bprop.
  { apply wp_ret, carried_nothing; [done|done|apply Hr|right]. apply leibniz_equiv, size_empty_inv. clear - Hz. lia. }
  apply wp_bind, wp_any; intros p s1. apply wp_if; intros _; [apply wp_ret, carried_nothing; [done|done|apply Hr|by left]|].
  apply wp_bind. apply (wp_mono _ (fun '(st, m', c') _ => carried m c0 st m' c')).
  - destruct (decide (dst = UVM_ID_CPU)) as [Hd|Hd]; [|by apply to_gpu_spec].
    apply to_cpu_spec; try done. intros He. apply Hz. by rewrite He, size_empty.
  - intros [[st m1] c1] s2 [Hf ? ? ? ?]. apply wp_bind, wp_any; intros ? s3. apply wp_ret. constructor; try done.
    by etransitivity.
Qed.
End Copying.
