(* ===== verification/MigrationResident.v ===== *)
(** Making pages resident ([uvm_va_block_make_resident]): growing the memory,
    copying, and the residency updates.  On every path the block stays well-formed
    and no page loses its contents. *)
From stdpp Require Import functions sorting.
From S2P Require Import Prelude Kernel VaBlock Permissions Migration MigrationFrame MigrationCopy MigrationSpec MigrationData.

(** ** Growing *)

(** Memory is added, with zeroes in the pages resident nowhere; the residency and
    the contents of the memory already there stay. *)
Record grew (m m' : migration) : Prop := {
  gw_block     : same_pages (mg_block m) (mg_block m');
  gw_resident  : mg_resident m' = mg_resident m;
  gw_populated : forall l, populated m l ⊆ populated m' l;
  gw_mem       : forall l p, p ∈ populated m l -> mg_mem m' l p = mg_mem m l p;
  gw_zero      : forall l p, p ∈ populated m' l -> p ∉ populated m l -> p ∉ reach m (holders m) ->
                   mg_mem m' l p = zero_page;
}.

Lemma same_pages_res m m' id : same_pages (mg_block m) (mg_block m') -> res m' id = res m id.
Proof. intros Hs. apply (sp_gpu_res _ _ Hs). Qed.

Lemma same_pages_holders m m' : same_pages (mg_block m) (mg_block m') -> holders m' = holders m.
Proof. intros Hs. unfold holders. by rewrite (sp_resident _ _ Hs). Qed.

Lemma reach_same m m' ids : same_pages (mg_block m) (mg_block m') -> reach m' ids = reach m ids.
Proof.
  intros Hs. apply set_eq. intros p. rewrite !elem_of_reach. by setoid_rewrite (same_pages_res _ _ _ Hs).
Qed.

#[export] Instance grew_preorder : PreOrder grew.
Proof.
  split; [by constructor|]. intros m1 m2 m3 [A1 A2 A3 A4 A5] [B1 B2 B3 B4 B5]. constructor.
  - by etransitivity.
  - congruence.
  - intros l. etransitivity; [apply A3|apply B3].
  - intros l p Hp. rewrite B4 by (by apply A3). auto.
  - intros l p Hp Hn Hr. destruct (decide (p ∈ populated m2 l)) as [H2|H2].
    + rewrite B4 by done. auto.
    + apply B5; [done|done|]. by rewrite (same_pages_holders m1 m2), (reach_same m1 m2).
Qed.

Lemma resident_anywhere_reach m p : p ∈ resident_anywhere m <-> p ∈ reach m (holders m).
Proof.
  unfold resident_anywhere. rewrite elem_of_reach, elem_of_union_list. setoid_rewrite list_elem_of_fmap.
  unfold holders. setoid_rewrite elem_of_ids_in_mask. setoid_rewrite elem_of_elements. unfold res. naive_solver.
Qed.

Lemma grown_grew m m' : grown m m' -> grew m m'.
Proof.
  intros Hg. pose proof (grown_quietly _ _ Hg) as [[Hq _] _ _]. destruct Hg. constructor; try done.
  intros l p Hp Hn Hr. apply gr_zero; [done..|]. by rewrite resident_anywhere_reach.
Qed.

Lemma set_block_grew m b : same_pages (mg_block m) b -> grew m (mg_set_block b m).
Proof. intros Hs. by constructor. Qed.

(** ** The pages to stage *)

Lemma foldl_union (f : Z -> gset Z) l acc p :
  p ∈ foldl (fun acc id => acc ∪ f id) acc l <-> p ∈ acc \/ exists id, id ∈ l /\ p ∈ f id.
Proof.
  revert acc. induction l as [|x l IH]; intros acc; cbn [foldl]; [set_solver|].
  rewrite IH, elem_of_union. setoid_rewrite elem_of_cons. naive_solver.
Qed.

Lemma foldl_diff (f : Z -> gset Z) l acc p :
  p ∈ foldl (fun acc id => acc ∖ f id) acc l <-> p ∈ acc /\ forall id, id ∈ l -> p ∉ f id.
Proof.
  revert acc. induction l as [|x l IH]; intros acc; cbn [foldl]; [set_solver|].
  rewrite IH, elem_of_difference. setoid_rewrite elem_of_cons. naive_solver.
Qed.

Lemma pages_to_stage_spec cfg dst r pm m :
  pages_to_stage cfg dst r (asked pm ∖ res m dst) m = staged cfg dst r pm m.
Proof.
  apply set_eq. intros p. unfold pages_to_stage, staged. cbv zeta.
  rewrite elem_of_intersection, foldl_diff, foldl_union, elem_of_difference, elem_of_intersection, elem_of_to_move, !elem_of_reach.
  unfold direct, indirect, block_get_can_copy_from_mask, res. rewrite elem_of_empty. setoid_rewrite elem_of_ids_in_mask.
  setoid_rewrite elem_of_intersection. setoid_rewrite elem_of_difference. split.
  - intros [[[[]|(id & Hid & [Hp Hd] & Hr)] Hn] Hreg]. split; [split; [done|by exists id]|].
    intros (id' & Hid' & Hr'). by apply (Hn id').
  - intros [[(Hreg & Ha & Hd) (id & Hid & Hr)] Hn]. split; [|done]. split; [right; by exists id|].
    intros id' Hid' Hr'. apply Hn. by exists id'.
Qed.

(** ** Populating *)

Section Populate.
Context `{E : Env} `{A : ChunkAllocator} (cfg : mig_cfg) {HA : ChunkAllocatorSpec cfg} (node : Z).
Context (Hnodes : mc_nodes cfg = [node]) (Hnode : node <> NUMA_NO_NODE).
Context (dst : Z) (r : region) (pm : option (gset Z)) (H0 : 0 <= dst).

(** What populating leaves of the context. *)
Record populating (c c' : move_ctx) : Prop := {
  pg_dest  : mv_dest_id c' = mv_dest_id c;
  pg_nid   : mv_dest_nid c' = mv_dest_nid c \/ mv_dest_nid c' = NUMA_NO_NODE;
  pg_nodes : mv_nodes c' = mv_nodes c;
  pg_cause : mv_cause c' = mv_cause c;
}.

Record populated_for (m : migration) (st : nv_status) (m' : migration) (c' : move_ctx) : Prop := {
  pf_cpu   : st = NV_OK -> dst = UVM_ID_CPU -> to_move dst r pm m ⊆ mg_allocated m' node;
  pf_gpu   : st = NV_OK -> dst <> UVM_ID_CPU -> is_Some (vb_gpus (mg_block m') !! dst) /\
               to_move dst r pm m ⊆ mg_chunks m' dst /\ mv_staged c' = staged cfg dst r pm m /\
               staged cfg dst r pm m ⊆ mg_allocated m' node;
}.

Lemma populate_cpu_node m mask c stg s :
  wp (block_populate_pages_cpu m mask r c stg) (fun '(st, m', c') _ => grown m m' /\ populating c c' /\ mv_staged c' = mv_staged c /\
    (st = NV_OK -> mask ∩ region_mask r ⊆ mg_allocated m' node)) s.
Proof using HA Hnodes.
  eapply wp_mono; [apply populate_cpu_spec|]. intros [[st m'] c'] s' (Hg & Hc & Hok). split; [done|]. split.
  - destruct Hc as [->| ->]; constructor; auto.
  - split; [by destruct Hc as [->| ->]|]. intros Hst p [Hp Hr]%elem_of_intersection.
    destruct (Hok Hst p Hp Hr) as (nid & Hn & Ha). rewrite Hnodes in Hn. apply list_elem_of_singleton in Hn. by subst nid.
Qed.

Lemma to_move_same m m' : same_pages (mg_block m) (mg_block m') -> to_move dst r pm m' = to_move dst r pm m.
Proof using. intros Hs. unfold to_move, missing. by rewrite (same_pages_res _ _ _ Hs). Qed.
Lemma staged_same m m' : same_pages (mg_block m) (mg_block m') -> staged cfg dst r pm m' = staged cfg dst r pm m.
Proof using.
  intros Hs. unfold staged, direct, indirect. by rewrite (to_move_same m m' Hs), !(reach_same m m'), (sp_resident _ _ Hs).
Qed.

Lemma populate_spec m c s :
  one_node node m -> mv_dest_nid c = NUMA_NO_NODE \/ mv_dest_nid c = node ->
  wp (block_populate_pages cfg dst r pm m c) (fun '(st, m', c') _ =>
    grew m m' /\ populating c c' /\ populated_for m st m' c') s.
Proof using All.
  intros Hone Hnid. unfold block_populate_pages. apply wp_bind. eapply wp_mono; [apply resident_alloc_quietly|].
  intros [m1|] s1 H1; [|apply wp_ret; split; [done|]; split; [constructor; auto|by constructor]].
  destruct H1 as ([[Hs1 _] _ _] & Hm1 & Hsome). assert (grew m m1) as G1 by (rewrite Hm1; by apply set_block_grew).
  cbv zeta.
  assert (resident_mask m1 (dst, mv_dest_nid c) = res m dst) as ->.
  { rewrite <- (same_pages_res m m1 dst Hs1). apply (resident_dest node Hnode); [|done].
    unfold one_node. rewrite (gw_resident _ _ G1), (sp_cpu_res _ _ Hs1). done. }
  change (pages_without pm (res m dst)) with (asked pm ∖ res m dst).
  assert ((asked pm ∖ res m dst) ∩ region_mask r = to_move dst r pm m) as HT by (unfold to_move, missing; clear; set_solver).
  apply wp_if; intros Hg; bprop.
  2:{ assert (dst = UVM_ID_CPU) as Hd by (unfold UVM_ID_IS_GPU, UVM_ID_CPU in *; lia).
      eapply wp_mono; [apply populate_cpu_node|]. intros [[st m2] c2] s2 (Hgr & Hp & _ & Hok). rewrite HT in Hok.
      split; [etransitivity; [exact G1|by apply grown_grew]|]. split; [done|].
      constructor; [by intros Hst _; apply Hok|by intros _ []]. }
  assert (dst <> UVM_ID_CPU) as Hd by (unfold UVM_ID_IS_GPU, UVM_ID_CPU in *; lia). specialize (Hsome Hd).
  assert (forall c' st, populating c c' -> st <> NV_OK -> populating c c' /\ populated_for m st m1 c') as Hbad
    by (intros; split; [done|by constructor]).
  apply wp_bind, wp_any; intros p s2. apply wp_if; intros _; bprop.
  { apply wp_ret. split; [done|]. apply Hbad; [constructor; auto|done]. }
  apply wp_bind. eapply wp_mono; [apply populate_gpu_spec; unfold UVM_ID_IS_GPU in Hg; lia|].
  intros [st m2] s3 [Hgr Hok]. rewrite HT in Hok. pose proof (qu_gpus _ _ (grown_quietly _ _ Hgr) dst Hsome) as Hsome2.
  apply grown_grew in Hgr. assert (grew m m2) as G2 by by etransitivity.
  apply wp_if; intros Hst; bprop.
  { apply wp_bind, wp_any; intros ? s4. apply wp_ret. split; [done|]. split; [constructor; auto|by constructor]. }
  specialize (Hok Hst). pose proof (gw_block _ _ G2) as Hs2.
  apply wp_if; intros He; bprop; apply wp_bind, wp_any; intros ? s4.
  - apply wp_ret. split; [done|]. split; [constructor; auto|]. constructor; [done|]. intros _ _. split; [done|]. split; [done|].
    assert (staged cfg dst r pm m = ∅) as ->.
    { rewrite <- (staged_same m m2 Hs2). unfold staged, indirect, block_get_can_copy_from_mask in *. rewrite He.
      change (reach m2 (ids_in_mask ∅)) with (∅ : gset Z). clear. set_solver. }
    split; [done|]. apply empty_subseteq.
  - rewrite <- (same_pages_res m m2 dst Hs2), pages_to_stage_spec.
    eapply wp_mono; [apply populate_cpu_node|]. intros [[st5 m5] c5] s5 (Hgr5 & Hp & Hstg & Hok5).
    pose proof (grown_quietly _ _ Hgr5) as Hq5. apply grown_grew in Hgr5.
    split; [by etransitivity|]. split; [destruct Hp; by constructor|]. constructor; [done|]. intros Hst5 _.
    split; [by apply (qu_gpus _ _ Hq5)|]. split.
    { etransitivity; [exact Hok|]. pose proof (gw_populated _ _ Hgr5 (dst, 0)) as Hpop. unfold populated in Hpop. cbn in Hpop.
      apply Z.eqb_neq in Hd. by rewrite Hd in Hpop. }
    rewrite (staged_same m m2 Hs2) in *. split; [exact Hstg|]. intros p5 Hp5. apply Hok5; [done|].
    cbn. apply elem_of_intersection. split; [done|]. by apply staged_region in Hp5.
Qed.
End Populate.

(** ** Residency updates *)

(** The residency becomes [f] and the mask of resident processors [V]; memory
    stays. *)
Record updated (node : Z) (f : Z -> gset Z) (V : gset Z) (m m' : migration) : Prop := {
  up_res  : forall id, res m' id = f id;
  up_proc : vb_resident (mg_block m') = V;
  up_node : one_node node m -> one_node node m';
  up_pop  : forall l, populated m' l = populated m l;
  up_mem  : mg_mem m' = mg_mem m;
  up_gpus : forall g, is_Some (vb_gpus (mg_block m) !! g) -> is_Some (vb_gpus (mg_block m') !! g);
}.

Lemma updated_refl node m f : (forall id, f id = res m id) -> updated node f (vb_resident (mg_block m)) m m.
Proof. intros Hf. by constructor. Qed.

Lemma updated_trans node f g V W m1 m2 m3 :
  updated node f V m1 m2 -> updated node g W m2 m3 -> updated node g W m1 m3.
Proof.
  intros [A1 A2 A3 A4 A5 A6] [B1 B2 B3 B4 B5 B6]. constructor; try done; [auto| |congruence|auto].
  intros l. by rewrite B4.
Qed.

Lemma updated_ext node f g V m m' : (forall id, g id = f id) -> updated node f V m m' -> updated node g V m m'.
Proof. intros He [A1 A2 A3 A4 A5 A6]. constructor; try done. intros id. by rewrite He. Qed.

(** The residency with [P] added at [d]. *)
Definition with_pages (d : Z) (P : gset Z) (f : Z -> gset Z) (id : Z) : gset Z := if id =? d then f id ∪ P else f id.

Lemma set_gpu_updated node m g F :
  g <> UVM_ID_CPU -> is_Some (vb_gpus (mg_block m) !! g) ->
  updated node (fun id => if id =? g then F (res m g) else res m id) (vb_resident (mg_block m)) m
    (mg_set_block (vb_set_gpu_resident g F (mg_block m)) m).
Proof.
  intros Hg [gs Hs]. unfold vb_set_gpu_resident. rewrite Hs. constructor; try done; [|intros h; apply set_gpu_some].
  intros id. unfold res, uvm_va_block_resident_mask_get, uvm_va_block_gpu_state_get. cbn.
  destruct (Z.eqb_spec id UVM_ID_CPU) as [->|Hid].
  - by destruct (Z.eqb_spec UVM_ID_CPU g) as [<-|].
  - destruct (Z.eqb_spec id g) as [->|Hne].
    + rewrite lookup_insert_eq. cbn. apply Z.eqb_neq in Hg. by rewrite Hg, Hs.
    + by rewrite lookup_insert_ne.
Qed.

Lemma processors_updated node m V : updated node (res m) V m (mg_set_block (vb_set_processors V (mg_block m)) m).
Proof. by constructor. Qed.

Section Update.
Context (cfg : mig_cfg) (node : Z) (Hnodes : mc_nodes cfg = [node]).
Context (dst : Z) (c : move_ctx) (T : gset Z).

(** The nodes chosen for the pages [T] when the CPU is the destination. *)
Definition chosen_for : Prop := dst = UVM_ID_CPU -> mv_nodes c ⊆ {[node]} /\
  (node ∈ mv_nodes c -> mv_node_mask c node = T) /\ (T <> ∅ -> node ∈ mv_nodes c).

Lemma set_resident_spec P m :
  chosen_for -> P ⊆ T -> (dst <> UVM_ID_CPU -> is_Some (vb_gpus (mg_block m) !! dst)) -> one_node node m ->
  updated node (with_pages dst P (res m)) (vb_resident (mg_block m)) m (set_resident c dst P m).
Proof using.
  clear Hnodes. intros Hc HP Hs Hone. unfold set_resident. destruct (Z.eqb_spec dst UVM_ID_CPU) as [Hd|Hd].
  - unfold uvm_va_block_cpu_set_resident_all_chunks.
    assert (P = ∅ -> updated node (with_pages dst P (res m)) (vb_resident (mg_block m)) m m) as Hnil.
    { intros ->. apply updated_refl. intros id. unfold with_pages. destruct (_ =? _); [|done]. clear. set_solver. }
    destruct (Hc Hd) as (Hc1 & Hc2 & Hc3).
    destruct (decide (node ∈ mv_nodes c)) as [Hn|Hn].
    2:{ assert (mv_nodes c = ∅) as -> by (clear - Hc1 Hn; set_solver). apply Hnil.
        destruct (decide (P = ∅)) as [|Hne]; [done|]. destruct Hn. apply Hc3. intros ->. apply Hne. clear - HP. set_solver. }
    assert (mv_nodes c = {[node]}) as -> by (clear - Hc1 Hn; set_solver). rewrite ids_in_mask_singleton. cbn [fold_left].
    rewrite Hc2 by done. assert (P ∩ T = P) as -> by (clear - HP; set_solver).
    destruct (bool_decide_reflect (P = ∅)) as [He|He]; cbn [fst]; [by apply Hnil|].
    constructor; cbn; try done.
    + intros id. unfold with_pages, res, uvm_va_block_resident_mask_get. cbn. rewrite Hd. destruct (id =? UVM_ID_CPU); done.
    + intros _. unfold one_node in *. cbn. by rewrite fn_lookup_insert, Hone.
  - eapply updated_ext; [|by apply set_gpu_updated; auto]. intros id. unfold with_pages.
    by destruct (Z.eqb_spec id dst) as [->|].
Qed.

(** The pages [P] of a processor other than the destination cease to be resident
    there. *)
Definition without_pages (P : gset Z) (f : Z -> gset Z) (id : Z) : gset Z := if id =? dst then f id else f id ∖ P.

Lemma cpu_clear_spec P m :
  chosen_for -> mv_dest_id c = dst -> mv_migrated c ⊆ T -> one_node node m ->
  updated node (fun id => if id =? UVM_ID_CPU then without_pages P (res m) id else res m id)
    (vb_resident (mg_block m)) m (uvm_va_block_cpu_clear_resident_all_chunks cfg c P m).
Proof using Hnodes.
  intros Hc Hdest Hmg Hone. unfold uvm_va_block_cpu_clear_resident_all_chunks, without_pages. rewrite Hdest, Hnodes. cbn [fold_left].
  destruct (Z.eqb_spec dst UVM_ID_CPU) as [Hd|Hd]; cbn [andb].
  - assert (updated node (fun id => if id =? UVM_ID_CPU then if id =? dst then res m id else res m id ∖ P else res m id)
      (vb_resident (mg_block m)) m m) as Hnil.
    { apply updated_refl. intros id. rewrite Hd. by destruct (id =? UVM_ID_CPU). }
    destruct (Hc Hd) as (Hc1 & Hc2 & Hc3). unfold clear_resident_node. rewrite Hdest, Hd.
    rewrite Hd in Hnil. cbn [UVM_ID_CPU Z.eqb andb]. destruct (bool_decide_reflect (mv_nodes c = ∅)) as [|Hne]; [done|].
    assert (node ∈ mv_nodes c) as Hn by (apply set_choose_L in Hne as [x Hx]; clear - Hc1 Hx; set_solver).
    rewrite bool_decide_eq_true_2 by done. rewrite Hc2 by done.
    rewrite bool_decide_eq_true_2; [done|]. clear - Hmg. set_solver.
  - unfold clear_resident_node. rewrite Hdest. apply Z.eqb_neq in Hd as Hd'. rewrite Hd'. cbn [andb].
    unfold one_node in Hone. constructor; cbn; try done.
    + intros id. unfold res, uvm_va_block_resident_mask_get. cbn. rewrite ?Hnodes. cbn.
      destruct (Z.eqb_spec id UVM_ID_CPU) as [->|]; [|done]. rewrite (proj2 (Z.eqb_neq UVM_ID_CPU dst)) by done.
      rewrite fn_lookup_insert, Hone. clear. set_solver.
    + intros _. unfold one_node. cbn. rewrite ?Hnodes. cbn. rewrite fn_lookup_insert. clear. set_solver.
Qed.
End Update.

(** Every processor with pages is in the mask of resident processors. *)
Definition owned (m : migration) : Prop := forall id p, p ∈ res m id -> id ∈ vb_resident (mg_block m).

Lemma updated_owned node f V m m' : updated node f V m m' -> (forall id p, p ∈ f id -> id ∈ V) -> owned m'.
Proof. intros Hu Hf id p. rewrite (up_res _ _ _ _ _ Hu), (up_proc _ _ _ _ _ Hu). apply Hf. Qed.

Section Break.
Context (cfg : mig_cfg) (node : Z) (Hnodes : mc_nodes cfg = [node]).
Context (dst : Z) (c : move_ctx) (T P : gset Z).
Context (Hc : chosen_for node dst c T) (Hdest : mv_dest_id c = dst) (Hmg : mv_migrated c ⊆ T).

(** The residency once [ids] have given up the pages. *)
Definition given_up (ids : list Z) (f : Z -> gset Z) (id : Z) : gset Z :=
  if bool_decide (id ∈ ids) then without_pages dst P f id else f id.

Lemma break_on_spec m id :
  one_node node m -> owned m ->
  exists V, updated node (given_up [id] (res m)) V m (break_on cfg dst P c m id) /\ owned (break_on cfg dst P c m id).
Proof using All.
  intros Hone Ho. unfold break_on.
  destruct ((id =? dst) && (negb (dst =? UVM_ID_CPU) || (mv_dest_nid c =? NUMA_NO_NODE))) eqn:Hskip.
  { exists (vb_resident (mg_block m)). split; [|done]. apply updated_refl. intros i. unfold given_up, without_pages.
    apply andb_prop in Hskip as [Hid _]. apply Z.eqb_eq in Hid. subst id.
    destruct (bool_decide_reflect (i ∈ [dst])) as [Hi%list_elem_of_singleton|]; [|done]. by rewrite Hi, Z.eqb_refl. }
  set (m1 := if id =? UVM_ID_CPU then _ else _).
  assert (updated node (given_up [id] (res m)) (vb_resident (mg_block m)) m m1) as H1.
  { subst m1. destruct (Z.eqb_spec id UVM_ID_CPU) as [->|Hid].
    - eapply updated_ext; [|by apply (cpu_clear_spec cfg node Hnodes dst c T P m)]. intros i. unfold given_up.
      destruct (Z.eqb_spec i UVM_ID_CPU) as [->|Hi]; [by rewrite bool_decide_eq_true_2 by set_solver|].
      rewrite bool_decide_eq_false_2; [done|]. by intros ?%list_elem_of_singleton.
    - assert (id <> dst) as Hne.
      { intros ->. apply Z.eqb_neq in Hid. by rewrite Z.eqb_refl, Hid in Hskip. }
      destruct (decide (is_Some (vb_gpus (mg_block m) !! id))) as [Hs|Hs].
      + eapply updated_ext; [|by apply set_gpu_updated]. intros i. unfold given_up, without_pages.
        destruct (Z.eqb_spec i id) as [->|Hi].
        * rewrite bool_decide_eq_true_2 by set_solver. apply Z.eqb_neq in Hne. by rewrite Hne.
        * rewrite bool_decide_eq_false_2; [done|]. by intros ?%list_elem_of_singleton.
      + apply eq_None_not_Some in Hs. unfold vb_set_gpu_resident. rewrite Hs.
        assert (mg_set_block (mg_block m) m = m) as -> by by destruct m. apply updated_refl. intros i. unfold given_up, without_pages.
        destruct (bool_decide_reflect (i ∈ [id])) as [->%list_elem_of_singleton|]; [|done].
        destruct (id =? dst); [done|]. unfold res, uvm_va_block_resident_mask_get, uvm_va_block_gpu_state_get.
        apply Z.eqb_neq in Hid. rewrite Hid, Hs. clear. set_solver. }
  clearbody m1. assert (forall i, given_up [id] (res m) i ⊆ res m i) as Hsub.
  { intros i. unfold given_up, without_pages. clear. destruct (bool_decide _), (i =? dst); set_solver. }
  change (uvm_va_block_resident_mask_get (mg_block m1) id) with (res m1 id).
  destruct (bool_decide_reflect (res m1 id = ∅)) as [He|He].
  - exists (vb_resident (mg_block m) ∖ {[id]}). split.
    + eapply updated_trans; [exact H1|]. unfold block_clear_resident_processor.
      rewrite <- (up_proc _ _ _ _ _ H1). eapply updated_ext; [|apply processors_updated]. intros i. by rewrite (up_res _ _ _ _ _ H1).
    + unfold block_clear_resident_processor, owned. intros i p Hp. change (p ∈ res m1 i) in Hp. cbn.
      assert (i <> id) as Hi by (intros ->; rewrite He in Hp; by apply not_elem_of_empty in Hp).
      rewrite (up_proc _ _ _ _ _ H1). rewrite (up_res _ _ _ _ _ H1) in Hp. apply Hsub, Ho in Hp. clear - Hp Hi. set_solver.
  - exists (vb_resident (mg_block m)). split; [done|]. eapply updated_owned; [exact H1|]. intros i p Hp%Hsub. by eapply Ho.
Qed.

Lemma break_loop_spec ids m :
  one_node node m -> owned m ->
  exists V, updated node (given_up ids (res m)) V m (fold_left (break_on cfg dst P c) ids m) /\
    owned (fold_left (break_on cfg dst P c) ids m).
Proof using All.
  revert m. induction ids as [|id ids IH]; intros m Hone Ho; cbn [fold_left].
  - exists (vb_resident (mg_block m)). split; [|done]. by apply updated_refl.
  - destruct (break_on_spec m id Hone Ho) as (V1 & H1 & Ho1). destruct (IH _ (up_node _ _ _ _ _ H1 Hone) Ho1) as (V2 & H2 & Ho2).
    exists V2. split; [|done]. eapply updated_trans; [exact H1|]. eapply updated_ext; [|exact H2].
    intros i. unfold given_up, without_pages. rewrite (up_res _ _ _ _ _ H1). unfold given_up, without_pages.
    destruct (bool_decide_reflect (i ∈ ids)) as [Hi|Hi], (bool_decide_reflect (i ∈ [id])) as [Hj|Hj];
      [rewrite bool_decide_eq_true_2 by (by right); destruct (i =? dst); [done|]; clear; set_solver
      |rewrite bool_decide_eq_true_2 by (by right); done
      |apply list_elem_of_singleton in Hj; subst; rewrite bool_decide_eq_true_2 by (by left); done|].
    rewrite bool_decide_eq_false_2; [done|]. intros [->|?]%elem_of_cons; [|done]. apply Hj. by left.
Qed.
End Break.

Section Finish.
Context (cfg : mig_cfg) (node : Z) (Hnodes : mc_nodes cfg = [node]).
Context (dst : Z) (r : region) (pm : option (gset Z)) (Hreg : region_mask r ⊆ all_pages).

Lemma region_asked : mask_from_region r pm = region_mask r ∩ asked pm.
Proof using Hreg. destruct pm; cbn; [done|]. symmetry. apply (subseteq_intersection_1_L _ _ Hreg). Qed.

(** The residency after the whole: the pages at the destination alone. *)
Definition at_destination (m : migration) (id : Z) : gset Z :=
  if id =? dst then res m dst ∪ to_move dst r pm m else res m id ∖ (region_mask r ∩ asked pm).

Lemma break_spec c m T :
  chosen_for node dst c T -> mv_dest_id c = dst -> mv_migrated c ⊆ T -> one_node node m -> owned m ->
  let m' := break_read_duplication_in_region cfg dst r pm m c in
  exists V, updated node (without_pages dst (region_mask r ∩ asked pm) (res m)) V m m' /\ owned m'.
Proof using All.
  intros Hc Hdest Hmg Hone Ho m'. subst m'. unfold break_read_duplication_in_region. cbv zeta. rewrite region_asked.
  set (m1 := mg_set_dup _ m). set (P := region_mask r ∩ asked pm). set (ids := ids_in_mask _).
  destruct (break_loop_spec cfg node Hnodes dst c T P Hc Hdest Hmg ids m1) as (V & Hu & Ho'); [done|done|].
  exists V. split; [|done]. destruct Hu as [A1 A2 A3 A4 A5 A6]. constructor; try done. intros i. rewrite A1. unfold given_up.
  destruct (bool_decide_reflect (i ∈ ids)) as [|Hi]; [done|]. change (res m1 i) with (res m i). unfold without_pages.
  destruct (i =? dst); [done|]. assert (res m i = ∅) as ->.
  { apply set_eq. intros p. split; [|set_solver]. intros Hp%Ho. destruct Hi. by apply elem_of_ids_in_mask. }
  clear. set_solver.
Qed.

(** The bookkeeping of evicted pages leaves the residency alone. *)
Lemma evicted_updated m e g : updated node (res m) (vb_resident (mg_block m)) m (mg_set_evicted e g m).
Proof using. clear. by constructor. Qed.

Lemma clear_evicted_updated d pages m : updated node (res m) (vb_resident (mg_block m)) m (clear_evicted_if d pages m).
Proof using.
  clear. unfold clear_evicted_if, block_make_resident_clear_evicted. destruct (_ && _); [apply evicted_updated|by apply updated_refl].
Qed.

Lemma evict_loop_updated (pages : gset Z) ids m :
  updated node (res m) (vb_resident (mg_block m)) m
    (fold_left (fun m src => mg_set_evicted (<[src := mg_evicted m src ∪ pages]> (mg_evicted m))
                               (mg_evicted_gpus m ∪ {[src]}) m) ids m).
Proof using.
  clear. revert m. induction ids as [|id ids IH]; intros m; cbn [fold_left]; [by apply updated_refl|].
  eapply updated_trans; [apply evicted_updated|]. exact (IH (mg_set_evicted _ _ m)).
Qed.

(** What the residency updates leave of the context. *)
Definition same_choice (c c' : move_ctx) : Prop :=
  mv_dest_id c' = mv_dest_id c /\ mv_nodes c' = mv_nodes c /\ mv_node_mask c' = mv_node_mask c.

Lemma chosen_same T c c' : same_choice c c' -> chosen_for node dst c T -> chosen_for node dst c' T.
Proof using. clear. intros (_ & Hn & Hm). unfold chosen_for. by rewrite Hn, Hm. Qed.

Lemma update_state_spec M T m c :
  chosen_for node dst c T -> M ⊆ T -> (dst <> UVM_ID_CPU -> is_Some (vb_gpus (mg_block m) !! dst)) -> one_node node m ->
  let '(m', c') := block_make_resident_update_state dst M m c in
  updated node (with_pages dst M (res m)) (vb_resident (mg_block m) ∪ {[dst]}) m m' /\ same_choice c c' /\
  mv_migrated c' = mv_migrated c.
Proof using.
  clear Hnodes Hreg. intros Hc HM Hs Hone. unfold block_make_resident_update_state. cbv zeta.
  pose proof (set_resident_spec node dst c T M m Hc HM Hs Hone) as Hu. set (m1 := set_resident c dst M m) in *. clearbody m1.
  assert (updated node (with_pages dst M (res m)) (vb_resident (mg_block m) ∪ {[dst]}) m (block_set_resident_processor dst m1)) as Hu2.
  { eapply updated_trans; [exact Hu|]. unfold block_set_resident_processor. rewrite <- (up_proc _ _ _ _ _ Hu).
    eapply updated_ext; [|apply processors_updated]. intros i. by rewrite (up_res _ _ _ _ _ Hu). }
  set (m2 := block_set_resident_processor dst m1) in *. clearbody m2. set (m3 := mg_set_block _ m2).
  assert (updated node (with_pages dst M (res m)) (vb_resident (mg_block m) ∪ {[dst]}) m m3) as Hu3.
  { destruct Hu2 as [A1 A2 A3 A4 A5 A6]. by constructor. }
  clearbody m3. assert (forall m4, updated node (res m3) (vb_resident (mg_block m3)) m3 m4 ->
    updated node (with_pages dst M (res m)) (vb_resident (mg_block m) ∪ {[dst]}) m m4) as Hthen.
  { intros m4 H4. eapply updated_trans; [exact Hu3|]. rewrite <- (up_proc _ _ _ _ _ Hu3).
    eapply updated_ext; [|exact H4]. intros i. by rewrite (up_res _ _ _ _ _ Hu3). }
  destruct (bool_decide _); (split; [apply Hthen|done]); [apply evict_loop_updated|apply clear_evicted_updated].
Qed.

Lemma first_touch_spec T m c :
  chosen_for node dst c T -> region_mask r ∩ asked pm ∖ res m dst ⊆ T ->
  (dst <> UVM_ID_CPU -> is_Some (vb_gpus (mg_block m) !! dst)) -> one_node node m -> owned m ->
  let '(m', c') := block_copy_set_first_touch_residency dst r pm m c in
  exists V, updated node (with_pages dst (region_mask r ∩ asked pm) (res m)) V m m' /\ owned m' /\ same_choice c c' /\
    mv_migrated c' = mv_migrated c.
Proof using.
  clear Hnodes Hreg. intros Hc HM Hs Hone Ho. unfold block_copy_set_first_touch_residency. cbv zeta.
  change (uvm_va_block_resident_mask_get (mg_block m) dst) with (res m dst).
  change (pages_without pm (res m dst)) with (asked pm ∖ res m dst). set (FT := _ ∩ region_mask r).
  assert (FT = region_mask r ∩ asked pm ∖ res m dst) as HFT by (subst FT; clear; set_solver).
  pose proof (set_resident_spec node dst c T FT m Hc ltac:(by rewrite HFT) Hs Hone) as Hu.
  assert (forall i, with_pages dst (region_mask r ∩ asked pm) (res m) i = with_pages dst FT (res m) i) as Hext.
  { intros i. unfold with_pages. destruct (Z.eqb_spec i dst) as [->|]; [|done]. rewrite HFT. apply set_eq. intros p.
    clear. destruct (decide (p ∈ res m dst)); set_solver. }
  set (m1 := set_resident c dst FT m) in *. clearbody m1 FT.
  change (uvm_va_block_resident_mask_get (mg_block m1) dst) with (res m1 dst).
  destruct (bool_decide_reflect (res m1 dst = ∅)) as [He|He].
  - exists (vb_resident (mg_block m)). split; [by eapply updated_ext|]. split; [|done].
    eapply updated_owned; [exact Hu|]. intros i p Hp. rewrite <- (up_res _ _ _ _ _ Hu) in Hp.
    destruct (decide (i = dst)) as [->|Hne]; [rewrite He in Hp; by apply not_elem_of_empty in Hp|].
    rewrite (up_res _ _ _ _ _ Hu) in Hp. unfold with_pages in Hp. apply Z.eqb_neq in Hne. rewrite Hne in Hp. by apply Ho in Hp.
  - exists (vb_resident (mg_block m) ∪ {[dst]}).
    assert (updated node (with_pages dst (region_mask r ∩ asked pm) (res m)) (vb_resident (mg_block m) ∪ {[dst]}) m
      (block_set_resident_processor dst m1)) as Hu2.
    { eapply updated_trans; [exact Hu|]. unfold block_set_resident_processor. rewrite <- (up_proc _ _ _ _ _ Hu).
      eapply updated_ext; [|apply processors_updated]. intros i. by rewrite (up_res _ _ _ _ _ Hu). }
    split; [done|]. split; [|done]. eapply updated_owned; [exact Hu2|]. intros i p. unfold with_pages.
    destruct (Z.eqb_spec i dst) as [->|]; [clear; set_solver|]. intros Hp%Ho. clear - Hp. set_solver.
Qed.

(** After the copies, with the pages [mv_migrated c] copied. *)
Lemma finish_spec m c :
  let T := to_move dst r pm m in
  chosen_for node dst c T -> mv_dest_id c = dst -> mv_migrated c ⊆ T ->
  (dst <> UVM_ID_CPU -> is_Some (vb_gpus (mg_block m) !! dst)) -> one_node node m -> owned m ->
  exists V, updated node (at_destination m) V m (uvm_va_block_make_resident_finish cfg r pm m c).1 /\
    owned (uvm_va_block_make_resident_finish cfg r pm m c).1.
Proof using All.
  intros T Hc Hdest HM Hs Hone Ho. unfold uvm_va_block_make_resident_finish. rewrite Hdest.
  set (c1 := match pm with Some _ => _ | None => c end).
  assert (same_choice c c1 /\ mv_migrated c1 ⊆ T) as [Hc1 HM1].
  { subst c1. destruct pm as [mask|]; [|done]. split; [done|]. cbn. clear - HM. set_solver. }
  clearbody c1.
  set (x := if bool_decide (mv_migrated c1 = ∅) then _ else _).
  assert (exists V, updated node (with_pages dst (mv_migrated c1) (res m)) V m x.1 /\ owned x.1 /\ same_choice c x.2 /\
    mv_migrated x.2 = mv_migrated c1) as (V1 & Hu1 & Ho1 & Hc2 & Hm2).
  { subst x. destruct (bool_decide_reflect (mv_migrated c1 = ∅)) as [He|He]; cbn [fst snd].
    - exists (vb_resident (mg_block m)). split; [|done]. apply updated_refl. intros i. unfold with_pages. rewrite He.
      destruct (_ =? _); [|done]. clear. set_solver.
    - pose proof (update_state_spec (mv_migrated c1) T m c1 ltac:(by eapply chosen_same) HM1 Hs Hone) as Hu.
      destruct (block_make_resident_update_state dst (mv_migrated c1) m c1) as [m2 c2]. destruct Hu as (Hu & Hsc & Hmg).
      exists (vb_resident (mg_block m) ∪ {[dst]}). split; [done|]. split; [|split; [|done]].
      + eapply updated_owned; [exact Hu|]. intros i p. unfold with_pages.
        destruct (Z.eqb_spec i dst) as [->|]; [clear; set_solver|]. intros Hp%Ho. clear - Hp. set_solver.
      + destruct Hsc as (S1 & S2 & S3), Hc1 as (R1 & R2 & R3). unfold same_choice. cbn. split_and!; congruence. }
  destruct x as [m2 c2]. cbn [fst snd] in *.
  pose proof (first_touch_spec T m2 c2 ltac:(by eapply chosen_same)) as Hft.
  destruct (block_copy_set_first_touch_residency dst r pm m2 c2) as [m3 c3]. cbn [fst].
  destruct Hft as (V3 & Hu3 & Ho3 & Hc3 & Hm3).
  { rewrite (up_res _ _ _ _ _ Hu1). unfold with_pages. rewrite Z.eqb_refl. subst T. unfold to_move, missing. clear. set_solver. }
  { intros Hd. apply (up_gpus _ _ _ _ _ Hu1), Hs, Hd. }
  { by apply (up_node _ _ _ _ _ Hu1). } { done. }
  destruct (break_spec c3 m3 T) as (V4 & Hu4 & Ho4).
  { eapply chosen_same; [exact Hc3|]. by eapply chosen_same. }
  { etransitivity; [exact (proj1 Hc3)|]. etransitivity; [exact (proj1 Hc2)|]. done. }
  { by rewrite Hm3, Hm2. }
  { by apply (up_node _ _ _ _ _ Hu3), (up_node _ _ _ _ _ Hu1). } { done. }
  exists V4. split; [|done]. eapply updated_trans; [exact Hu1|]. eapply updated_trans; [exact Hu3|].
  eapply updated_ext; [|exact Hu4]. intros i. unfold without_pages, at_destination. rewrite !(up_res _ _ _ _ _ Hu3).
  unfold with_pages. rewrite !(up_res _ _ _ _ _ Hu1). unfold with_pages.
  destruct (Z.eqb_spec i dst) as [->|]; [|done]. apply set_eq. intros p.
  unfold T, to_move, missing in HM1. clear - HM1. unfold to_move, missing.
  specialize (HM1 p). rewrite !elem_of_union, elem_of_difference, !elem_of_intersection in *.
  destruct (decide (p ∈ res m dst)); tauto.
Qed.
End Finish.

(** ** [uvm_va_block_make_resident] *)

Lemma size_all_pages : Z.of_nat (size all_pages) < 2 ^ 32.
Proof. vm_compute. done. Qed.

(** A well-formed block: one CPU node, every resident page backed by memory, and
    every processor with pages in the mask of resident processors. *)
Record mg_wf (node : Z) (m : migration) : Prop := {
  mw_perm   : perm_wf (mg_block m);
  mw_node   : one_node node m;
  mw_backed : forall id p, p ∈ res m id -> p ∈ populated m (at_ node id);
  mw_owned  : owned m;
}.

Section MakeResident.
Context `{E : Env} `{A : ChunkAllocator} (cfg : mig_cfg) {HA : ChunkAllocatorSpec cfg} (node : Z).
Context (Hnodes : mc_nodes cfg = [node]) (Hnode : node <> NUMA_NO_NODE).
Context (Hclosest : forall nid, mc_closest_nodes cfg nid = [node]).
Context (dst : Z) (r : region) (pm pf : option (gset Z)).
Context (H0 : 0 <= dst) (Hdst : dst = UVM_ID_CPU \/ dst ∈ mc_replayable cfg) (Hreg : region_mask r ⊆ all_pages).

Lemma small_region : Z.of_nat (size (region_mask r)) < 2 ^ 32.
Proof using Hreg. pose proof (subseteq_size _ _ Hreg). pose proof size_all_pages. lia. Qed.

(** What the callers provide.  A page that has to go through the CPU is resident
    on one GPU only, and peers are not used under confidential computing. *)
Record call_ok (m : migration) (c : move_ctx) : Prop := {
  co_nid    : mv_dest_nid c = NUMA_NO_NODE \/ mv_dest_nid c = node;
  co_pages  : region_mask r ⊆ block_pages (mg_block m);
  co_single : dst <> UVM_ID_CPU -> forall id id' p, p ∈ staged cfg dst r pm m ->
                id <> UVM_ID_CPU -> id' <> UVM_ID_CPU -> p ∈ res m id -> p ∈ res m id' -> id = id';
  co_cc     : env_cc = true -> dst <> UVM_ID_CPU -> forall id, id ∈ direct cfg dst m -> id <> dst -> id = UVM_ID_CPU;
}.

(** After the copies, before the residency changes. *)
Record copied_to (m : migration) (st : nv_status) (m' : migration) (c' : move_ctx) : Prop := {
  ct_pages : same_pages (mg_block m) (mg_block m');
  ct_node  : mg_resident m' = mg_resident m;
  ct_pop   : forall l, populated m l ⊆ populated m' l;
  ct_kept  : forall id p, p ∈ res m id -> mg_mem m' (at_ node id) p = mg_mem m (at_ node id) p;
  ct_zero  : forall l p, p ∈ populated m' l -> p ∉ populated m l -> p ∉ reach m (holders m) -> mg_mem m' l p = zero_page;
  ct_ok    : st = NV_OK ->
    mv_dest_id c' = dst /\ mv_migrated c' ⊆ to_move dst r pm m /\ chosen_for node dst c' (to_move dst r pm m) /\
    (dst <> UVM_ID_CPU -> is_Some (vb_gpus (mg_block m') !! dst)) /\
    to_move dst r pm m ⊆ populated m' (at_ node dst) /\
    (forall p, p ∈ to_move dst r pm m -> p ∈ reach m (holders m) ->
       exists id, p ∈ res m id /\ mg_mem m' (at_ node dst) p = mg_mem m (at_ node id) p);
}.

Lemma grew_copied m m' st c' :
  mg_wf node m -> grew m m' -> st <> NV_OK -> copied_to m st m' c'.
Proof using.
  clear. intros Hwf [G1 G2 G3 G4 G5] Hst. constructor; try done. intros id p Hp. apply G4. by apply Hwf.
Qed.

Lemma one_node_grew m m' : grew m m' -> one_node node m -> one_node node m'.
Proof using. clear. intros Hg Hn. unfold one_node. by rewrite (gw_resident _ _ Hg), (sp_cpu_res _ _ (gw_block _ _ Hg)). Qed.

Lemma block_pages_same m m' : same_pages (mg_block m) (mg_block m') -> block_pages (mg_block m') = block_pages (mg_block m).
Proof using.
  clear. intros Hs. unfold block_pages, uvm_va_block_region_from_block, uvm_va_block_num_cpu_pages, uvm_va_block_size.
  by rewrite (sp_start _ _ Hs), (sp_end _ _ Hs).
Qed.

(** The copies, from the memory grown for them. *)
Lemma moved_copies_spec m c0 m5 c5 s :
  mg_wf node m -> call_ok m c0 -> grew m m5 -> populating c0 c5 -> populated_for cfg node dst r pm m NV_OK m5 c5 ->
  mv_nodes c0 = ∅ -> mv_dest_id c0 = dst ->
  wp (block_copy_resident_pages cfg dst r pm pf m5 c5) (fun '(st, m', c') _ => copied_to m st m' c') s.
Proof using All.
  intros Hwf [Hnid Hpg Hsin Hcc] Hg [P1 P2 P3 P4] [F1 F2] Hn0 Hd0. pose proof (gw_block _ _ Hg) as Hs.
  assert (copy_ready cfg node dst r pm m5 c5) as Hr.
  { constructor.
    - eapply one_node_grew; [exact Hg|apply Hwf].
    - by rewrite (block_pages_same m m5).
    - by rewrite P3.
    - destruct P2 as [->|]; auto.
    - intros Hd. rewrite (to_move_same dst r pm m m5 Hs). by apply F1.
    - intros Hd. destruct (F2 eq_refl Hd) as (_ & _ & Hst & Ha). change (_ ∩ _ ∖ _) with (staged cfg dst r pm m5).
      rewrite (staged_same cfg dst r pm m m5 Hs), Hst. done.
    - intros Hd id id' p. destruct (F2 eq_refl Hd) as (_ & _ & -> & _). rewrite !(same_pages_res m m5) by done. by apply Hsin.
    - intros Hc Hd. unfold direct. rewrite (sp_resident _ _ Hs). by apply Hcc. }
  eapply wp_mono; [apply (resident_pages_spec cfg node Hnodes Hnode Hclosest dst r pm pf H0 Hdst small_region m5 c5 s Hr)|].
  intros [[st m'] c'] s' [Cf Cs Cp Cl Cok]. pose proof (qu_step _ _ (cf_block _ _ Cf)) as [Hs' _]. cbn in Hs'.
  rewrite (to_move_same dst r pm m m5 Hs), (same_pages_holders m m5 Hs), (reach_same m m5 _ Hs) in *.
  assert (forall l, populated m' l = populated m5 l) as Hpop.
  { intros l. unfold populated. pose proof (cf_allocated _ _ Cf) as Ha. pose proof (cf_chunks _ _ Cf) as Hc. cbn in Ha, Hc. by rewrite Ha, Hc. }
  assert (forall id p, p ∈ res m id -> mg_mem m5 (at_ node id) p = mg_mem m (at_ node id) p) as Hkept.
  { intros id p Hp. apply (gw_mem _ _ Hg). by apply Hwf. }
  constructor.
  - by etransitivity.
  - rewrite <- (gw_resident _ _ Hg). exact (cf_resident _ _ Cf).
  - intros l. rewrite Hpop. apply Hg.
  - intros id p Hp. rewrite <- Hkept by done. destruct (decide (id = dst)) as [->|Hne].
    + apply Cp. left. intros Ht. by apply to_move_dst in Ht.
    + apply Cl; [intros He; by apply at_inj in He|]. destruct (decide (id = UVM_ID_CPU)) as [->|Hc].
      * right. by rewrite (same_pages_res m m5).
      * left. intros He. by apply at_inj in He.
  - intros l p Hp Hn Hnr. rewrite Cp by (by right). rewrite Hpop in Hp. by apply (gw_zero _ _ Hg).
  - intros Hst. destruct (Cok Hst) as (Hm & Hd & Hn). split; [|split; [|split; [|split; [|split]]]].
    + etransitivity; [exact (cf_dest _ _ Cf)|]. cbn. by rewrite P1.
    + done.
    + exact Hn.
    + intros Hd'. apply (qu_gpus _ _ (cf_block _ _ Cf)). by apply F2.
    + rewrite Hpop. unfold populated. rewrite at_id. unfold at_. destruct (Z.eqb_spec dst UVM_ID_CPU) as [Hd'|Hd']; [by apply F1|].
      by apply F2.
    + intros p Hp Hpr. destruct (Hd p) as (id & Hid & Hmem); [rewrite Hm; set_solver|]. exists id.
      rewrite (same_pages_res m m5) in Hid by done. split; [done|]. rewrite Hmem. by apply Hkept.
Qed.

Lemma make_resident_copy_spec cause m c s :
  mg_wf node m -> call_ok m c ->
  wp (uvm_va_block_make_resident_copy cfg dst r pm pf cause m c) (fun '(st, m', c') _ => copied_to m st m' c') s.
Proof using All.
  intros Hwf Hok. unfold uvm_va_block_make_resident_copy. cbv zeta. set (c0 := mv_start dst cause c).
  assert (call_ok m c0) as Hok0 by (destruct Hok; by constructor).
  assert (mv_nodes c0 = ∅ /\ mv_dest_id c0 = dst) as [Hn0 Hd0] by done. clearbody c0. clear Hok.
  assert (forall st m' c', grew m m' -> st <> NV_OK -> copied_to m st m' c') as Hbad by (intros; by eapply grew_copied).
  apply wp_bind, wp_any; intros p s1. apply wp_if; intros _; [by apply wp_ret, Hbad|]. apply wp_bind.
  eapply wp_mono; [apply resident_alloc_quietly|].
  intros [m1|] s2 H1; [|apply wp_bind, wp_any; intros; apply wp_ret; by apply Hbad]. destruct H1 as ([[Hs1 Hw1] _ _] & Hm1 & _).
  assert (grew m m1) as G1 by (rewrite Hm1; by apply set_block_grew). specialize (Hw1 (mw_perm _ _ Hwf)). apply wp_bind.
  eapply wp_mono; [apply (lift_block_spec _ m1 (fun _ b => perm_step (mg_block m1) b))|].
  { eapply wp_mono; [by apply unmap_mask_spec|]. intros [st b] s3 [Hu _]. apply Hu. }
  intros [st3 m3] s3 [[Hs3 Hw3] Hm3]. specialize (Hw3 Hw1). assert (grew m m3) as G3.
  { etransitivity; [exact G1|]. rewrite Hm3. by apply set_block_grew. }
  apply wp_if; intros Hst3; bprop; [apply wp_bind, wp_any; intros; apply wp_ret; by apply Hbad|]. apply wp_bind.
  eapply wp_mono; [apply (lift_block_spec _ m3 (fun _ b => perm_step (mg_block m3) b))|].
  { eapply wp_mono; [by apply unmap_mask_spec|]. intros [st b] s4 [Hu _]. apply Hu. }
  intros [st4 m4] s4 [[Hs4 Hw4] Hm4]. assert (grew m m4) as G4.
  { etransitivity; [exact G3|]. rewrite Hm4. by apply set_block_grew. }
  apply wp_if; intros Hst4; bprop; [apply wp_bind, wp_any; intros; apply wp_ret; by apply Hbad|]. apply wp_bind.
  eapply wp_mono; [apply (populate_spec cfg node Hnodes Hnode dst r pm H0 m4 c0)|].
  { eapply one_node_grew; [exact G4|apply Hwf]. } { apply Hok0. }
  intros [[st5 m5] c5] s5 (G5 & P5 & F5). assert (grew m m5) as G by by etransitivity.
  apply wp_if; intros Hst5; bprop; [apply wp_bind, wp_any; intros; apply wp_ret; by apply Hbad|]. subst st5. apply wp_bind.
  assert (populated_for cfg node dst r pm m NV_OK m5 c5) as F.
  { pose proof (gw_block _ _ G4) as Hs. destruct F5 as [F1 F2]. constructor.
    - intros ? ?. rewrite <- (to_move_same dst r pm m m4 Hs). auto.
    - intros ? ?. rewrite <- (to_move_same dst r pm m m4 Hs), <- (staged_same cfg dst r pm m m4 Hs). auto. }
  eapply wp_mono; [by apply (moved_copies_spec m c0 m5 c5)|]. intros [[st6 m6] c6] s6 Hc6.
  apply wp_bind, wp_any; intros ? s7. by apply wp_ret.
Qed.

Lemma make_resident_spec cause m c s :
  mg_wf node m -> call_ok m c ->
  wp (uvm_va_block_make_resident cfg dst r pm pf cause m c) (fun '(st, m', _) _ =>
    exists m1 c1, copied_to m st m1 c1 /\
      if decide (st = NV_OK) then exists V, updated node (at_destination dst r pm m1) V m1 m' /\ owned m' else m' = m1) s.
Proof using All.
  intros Hwf Hok. unfold uvm_va_block_make_resident. apply wp_bind. eapply wp_mono; [by apply make_resident_copy_spec|].
  intros [[st m1] c1] s1 Hc. apply wp_if; intros Hst; bprop.
  { apply wp_ret. exists m1, c1. split; [done|]. by rewrite decide_False. }
  subst st. destruct (uvm_va_block_make_resident_finish cfg r pm m1 c1) as [m2 c2] eqn:Hfin. apply wp_ret.
  exists m1, c1. split; [done|]. rewrite decide_True by done. destruct (ct_ok _ _ _ _ Hc eq_refl) as (Hd & Hm & Hch & Hg & _).
  pose proof (ct_pages _ _ _ _ Hc) as Hs.
  destruct (finish_spec cfg node Hnodes dst r pm Hreg m1 c1) as (V & Hu & Ho).
  - by rewrite (to_move_same dst r pm m m1 Hs).
  - done.
  - by rewrite (to_move_same dst r pm m m1 Hs).
  - done.
  - unfold one_node. rewrite (ct_node _ _ _ _ Hc), (sp_cpu_res _ _ Hs). apply Hwf.
  - intros id p. rewrite (same_pages_res m m1 id Hs), (sp_resident _ _ Hs). apply (mw_owned _ _ Hwf).
  - rewrite Hfin in Hu, Ho. by exists V.
Qed.

(** A page has memory holding its data. *)
Definition resident_somewhere (m : migration) (p : Z) : Prop := exists id, p ∈ res m id.

Lemma somewhere_reach m p : owned m -> resident_somewhere m p <-> p ∈ reach m (holders m).
Proof using.
  clear. intros Ho. unfold resident_somewhere. rewrite elem_of_reach. unfold holders. setoid_rewrite elem_of_ids_in_mask.
  split; intros (id & Hid); exists id; [split; [by eapply Ho|done]|apply Hid].
Qed.

(** The residency afterwards. *)
Lemma final_residency m st m1 c1 m' V :
  copied_to m st m1 c1 -> updated node (at_destination dst r pm m1) V m1 m' ->
  forall id p, p ∈ res m' id <->
    if decide (p ∈ region_mask r /\ p ∈ asked pm) then id = dst else p ∈ res m id.
Proof using.
  clear. intros Hc Hu id p. rewrite (up_res _ _ _ _ _ Hu). unfold at_destination.
  rewrite !(same_pages_res m m1), (to_move_same dst r pm m m1) by apply Hc.
  destruct (Z.eqb_spec id dst) as [->|Hne].
  - rewrite elem_of_union, elem_of_to_move. destruct (decide (p ∈ res m dst)), (decide _); tauto.
  - rewrite elem_of_difference, elem_of_intersection. destruct (decide _); tauto.
Qed.

Lemma copied_wf m st m1 c1 : mg_wf node m -> moved (mg_block m) (mg_block m1) -> copied_to m st m1 c1 -> mg_wf node m1.
Proof using.
  clear. intros Hwf Hm Hc. pose proof (ct_pages _ _ _ _ Hc) as Hs. constructor.
  - by apply Hm, Hwf.
  - unfold one_node. rewrite (ct_node _ _ _ _ Hc), (sp_cpu_res _ _ Hs). apply Hwf.
  - intros id p. rewrite (same_pages_res m m1) by done. intros Hp. apply (ct_pop _ _ _ _ Hc). by apply Hwf.
  - intros id p. rewrite (same_pages_res m m1) by done. rewrite (sp_resident _ _ Hs). apply (mw_owned _ _ Hwf).
Qed.

(** Where a page is afterwards: where it was, or newly at the destination. *)
Lemma final_cases m st m1 c1 m' V :
  st = NV_OK -> copied_to m st m1 c1 -> updated node (at_destination dst r pm m1) V m1 m' ->
  forall id p, p ∈ res m' id -> p ∈ res m id \/ (id = dst /\ p ∈ to_move dst r pm m).
Proof using.
  clear. intros Hst Hc Hu id p Hp. apply (final_residency m st m1 c1 m' V Hc Hu) in Hp.
  destruct (decide _) as [[Hr Ha]|]; [|by left]. subst id. rewrite elem_of_to_move.
  destruct (decide (p ∈ res m dst)); [by left|by right].
Qed.

Lemma finished_wf m st m1 c1 m' V :
  st = NV_OK -> mg_wf node m -> moved (mg_block m) (mg_block m') -> copied_to m st m1 c1 ->
  updated node (at_destination dst r pm m1) V m1 m' -> owned m' -> mg_wf node m'.
Proof using.
  clear. intros Hst Hwf Hm Hc Hu Ho. pose proof (ct_pages _ _ _ _ Hc) as Hs. constructor; [by apply Hm, Hwf| | |done].
  - apply (up_node _ _ _ _ _ Hu). unfold one_node. rewrite (ct_node _ _ _ _ Hc), (sp_cpu_res _ _ Hs). apply Hwf.
  - intros id p Hp. rewrite (up_pop _ _ _ _ _ Hu). destruct (final_cases m st m1 c1 m' V Hst Hc Hu id p Hp) as [Hr|[-> Ht]].
    + apply (ct_pop _ _ _ _ Hc). by apply Hwf.
    + destruct (ct_ok _ _ _ _ Hc Hst) as (_ & _ & _ & _ & Hpop & _). by apply Hpop.
Qed.

Lemma finished_contents m st m1 c1 m' V id p :
  st = NV_OK -> owned m -> copied_to m st m1 c1 -> updated node (at_destination dst r pm m1) V m1 m' -> p ∈ res m' id ->
  (exists id0, p ∈ res m id0 /\ mg_mem m' (at_ node id) p = mg_mem m (at_ node id0) p) \/
  (~ resident_somewhere m p /\ (p ∉ populated m (at_ node id) -> mg_mem m' (at_ node id) p = zero_page)).
Proof using.
  clear. intros Hst Ho Hc Hu Hp. rewrite (up_mem _ _ _ _ _ Hu).
  destruct (final_cases m st m1 c1 m' V Hst Hc Hu id p Hp) as [Hr|[-> Ht]].
  { left. exists id. split; [done|]. by apply (ct_kept _ _ _ _ Hc). }
  destruct (ct_ok _ _ _ _ Hc Hst) as (_ & _ & _ & _ & Hpop & Hd).
  destruct (decide (p ∈ reach m (holders m))) as [Hr|Hr]; [left; by apply Hd|right]. split; [by rewrite somewhere_reach|].
  intros Hn. apply (ct_zero _ _ _ _ Hc); [by apply Hpop|done|done].
Qed.

End MakeResident.
