(* ===== verification/Tracking.v ===== *)
(** Dirty tracking for live migration ([uvm_live_migration.c]): PREPARE_ALL,
    the write-fault hook, GET_DIRTY_PAGES, GET_VA_RANGES and FINALIZE, over the
    list of VA spaces of the driver.

    The [static atomic64_t] counters are [k_faults] and [k_flog] of the kernel
    state; log messages are left out.  [cfg] gives the permission facts of a
    block ([Permissions.perm_cfg]), the external policy state. *)
From S2P Require Import Prelude Kernel VaBlock Permissions.

Section Tracking.
Context `{E : Env}.
Variable cfg : va_block -> perm_cfg.

(** [uvm_live_migration_record_write_fault]; [None] is the NULL block. *)
Definition uvm_live_migration_record_write_fault (va_block : option va_block)
    (fault_addr : Z) : K (option Kernel.nv_status * option VaBlock.va_block) :=
  match va_block with
  | None => kret (None, None)
  | Some b =>
      if negb (vb_tracking b) then kret (None, Some b)
      else
        kmod (fun s => set_faults (u64 (k_faults s + 1)) (u64 (k_flog s + 1)) s);;
        kret (None, Some (vb_set_migration true (vb_tracking b) b))
  end.

Definition uvm_live_migration_reset_tracking : K unit :=
  kmod (fun s => set_faults 0 0 s).

(** *** Block contexts, on a machine with one NUMA node *)

Definition uvm_va_block_context_alloc : K bool :=
  c ← kmalloc;                            (* block_context *)
  if negb c then kret false
  else
    m ← kmalloc;                          (* tracking->node_masks *)
    if negb m then kfree c;; kret false
    else
      n ← kmalloc;                        (* node_masks[0] *)
      if negb n then kfree m;; kfree c;; kret false
      else kret true.

Definition uvm_va_block_context_free (p : bool) : K unit :=
  if p then kfree true;; kfree true;; kfree true else kret tt.

(** [UVM_VA_BLOCK_LOCK_RETRY]. *)
Definition block_lock_retry (call : va_block -> K (nv_status * va_block)) (b : va_block)
    : K (nv_status * va_block) :=
  lock_acquire (LBlock (vb_start b));;
  '(st, b') ← retry_loop env_retries call b;
  lock_release (LBlock (vb_start b));;
  kret (st, b').

(** [for_each_va_block_in_va_range], updating the visited blocks in place. *)
Definition each_block (f : va_block -> K (option nv_status * va_block))
    (slots : list (option va_block)) : K (option nv_status * list (option va_block)) :=
  keach (fun ob => match ob with
                   | None => kret (None, None)
                   | Some b => '(ex, b') ← f b; kret (ex, Some b')
                   end) slots.

(** *** PREPARE_ALL *)

Definition prepare_block (b : va_block) : K (option nv_status * va_block) :=
  let r := uvm_va_block_region_from_block b in
  let b := vb_set_migration false true b in
  if bool_decide (vb_resident b = ∅) then kret (None, b)
  else
    '(st, b) ← block_lock_retry
       (fun b => uvm_va_block_revoke_prot_mask (cfg b) b (vb_resident b) r None
                   UVM_PROT_READ_WRITE) b;
    kret (leave_on_error st, b).

Definition prepare_range (va_range : va_range) : K (option nv_status * VaBlock.va_range) :=
  if negb (is_managed va_range) then kret (None, va_range)
  else
    c ← uvm_va_block_context_alloc;
    if negb c then kret (Some NV_ERR_NO_MEMORY, va_range)
    else
      '(ex, slots) ← each_block prepare_block (vr_blocks va_range);
      uvm_va_block_context_free c;;
      kret (ex, vr_set_blocks slots va_range).

Definition prepare_va_space_for_migration (va_space : va_space)
    : K (nv_status * VaBlock.va_space) :=
  lock_acquire (LSpaceWrite (vs_id va_space));;
  '(ex, ranges) ← keach prepare_range (vs_ranges va_space);
  let status := loop_status ex in
  let v := vs_set_ranges ranges va_space in
  let v := if is_ok status then vs_set_tracking true v else v in
  lock_release (LSpaceWrite (vs_id va_space));;
  kret (status, v).

(** The loop over the snapshot; a failure does not stop it. *)
Fixpoint prepare_snapshot (status : nv_status) (va_spaces_prepared : Z)
    (snapshot : list va_space) : K (nv_status * Z * list va_space) :=
  match snapshot with
  | [] => kret (status, va_spaces_prepared, [])
  | v :: vs =>
      '(status, v') ← prepare_va_space_for_migration v;
      '(status', n, vs') ←
        prepare_snapshot status
          (if negb (is_ok status) then va_spaces_prepared else va_spaces_prepared + 1) vs;
      kret (status', n, v' :: vs')
  end.

Definition uvm_api_live_migration_prepare_all (spaces : list va_space)
    : K (nv_status * list va_space) :=
  if negb env_capable then kret (NV_ERR_INSUFFICIENT_PERMISSIONS, spaces)
  else
    lock_acquire LVaSpaces;;
    let va_space_count := Z.of_nat (length spaces) in
    snapshot ← (if 0 <? va_space_count then kvmalloc_array va_space_count 8
                else kret false);
    if (0 <? va_space_count) && negb snapshot
    then lock_release LVaSpaces;; kret (NV_ERR_NO_MEMORY, spaces)
    else
      lock_release LVaSpaces;;
      '(status, va_spaces_prepared, spaces') ← prepare_snapshot NV_OK 0 spaces;
      kfree snapshot;;
      kret ((if 0 <? va_spaces_prepared then NV_OK
             else if va_space_count =? 0 then NV_WARN_NOTHING_TO_DO else status),
            spaces').

(** *** GET_DIRTY_PAGES *)

Definition report_block (user_buffer max count : Z) (b : va_block)
    : K (option nv_status * Z) :=
  lock_acquire (LBlock (vb_start b));;
  if negb (vb_tracking b)
  then lock_release (LBlock (vb_start b));; kret (None, count)
  else if negb (vb_dirty b)
  then lock_release (LBlock (vb_start b));; kret (None, count)
  else if max <=? count
  then lock_release (LBlock (vb_start b));; kret (Some NV_OK, count)       (* goto done *)
  else
    fault ← copy_to_user (u64 (user_buffer + u64 (8 * count))) (le_bytes 8 (vb_start b));
    if fault
    then lock_release (LBlock (vb_start b));;
         kret (Some NV_ERR_INVALID_ADDRESS, count)                          (* goto done *)
    else lock_release (LBlock (vb_start b));; kret (None, count + 1).

Definition report_range (user_buffer max count : Z) (r : va_range)
    : K (option nv_status * Z) :=
  if negb (is_managed r) then kret (None, count)
  else kfold (report_block user_buffer max) count (range_blocks r).

(** The jump to [done] skips [uvm_va_space_up_read]. *)
Definition report_space (user_buffer max count : Z) (v : va_space)
    : K (option nv_status * Z) :=
  lock_acquire (LSpaceRead (vs_id v));;
  '(ex, count) ← kfold (report_range user_buffer max) count (vs_ranges v);
  match ex with
  | Some st => kret (Some st, count)
  | None => lock_release (LSpaceRead (vs_id v));; kret (None, count)
  end.

(** Result: [rmStatus] and [num_pages]. *)
Definition uvm_api_live_migration_get_dirty_pages (user_buffer max : Z)
    (spaces : list va_space) : K (nv_status * Z) :=
  lock_acquire LVaSpaces;;
  '(ex, count) ← kfold (report_space user_buffer max) 0 spaces;
  lock_release LVaSpaces;;
  kret (loop_status ex, count).

(** *** GET_VA_RANGES *)

(** The staging arrays [k_bases], [k_sizes] are the lists filled so far; their
    length is [count]. *)
Definition collect_range (max : Z) (acc : list Z * list Z) (r : va_range)
    : K (option nv_status * (list Z * list Z)) :=
  if negb (is_managed r) then kret (None, acc)
  else
    let '(bases, sizes) := acc in
    if max <=? Z.of_nat (length bases) then kret (Some NV_ERR_BUFFER_TOO_SMALL, acc)
    else kret (None, (bases ++ [vr_start r], sizes ++ [u64 (vr_end r - vr_start r + 1)])).

Definition collect_space (max : Z) (acc : list Z * list Z) (v : va_space)
    : K (option nv_status * (list Z * list Z)) :=
  lock_acquire (LSpaceRead (vs_id v));;
  '(ex, acc) ← kfold (collect_range max) acc (vs_ranges v);
  lock_release (LSpaceRead (vs_id v));;
  kret (ex, acc).

(** Result: the status and [params->num_ranges] when it is written. *)
Definition uvm_api_live_migration_get_va_ranges (base_addrs range_sizes max_ranges : Z)
    (spaces : list va_space) : K (nv_status * option Z) :=
  if negb env_capable then kret (NV_ERR_INSUFFICIENT_PERMISSIONS, None)
  else if (base_addrs =? 0) || (range_sizes =? 0) || (max_ranges =? 0)
  then kret (NV_ERR_INVALID_ARGUMENT, None)
  else
    k_bases ← kvmalloc_array max_ranges 8;
    k_sizes ← kvmalloc_array max_ranges 8;
    if negb k_bases || negb k_sizes
    then kfree k_bases;; kfree k_sizes;; kret (NV_ERR_NO_MEMORY, None)
    else
      lock_acquire LVaSpaces;;
      '(ex, (bases, sizes)) ← kfold (collect_space max_ranges) ([], []) spaces;
      lock_release LVaSpaces;;
      let status := loop_status ex in
      fault ←
        (if is_ok status || bool_decide (status = NV_ERR_BUFFER_TOO_SMALL) then
           f1 ← copy_to_user base_addrs (le_u64s bases);
           if f1 then kret true else copy_to_user range_sizes (le_u64s sizes)
         else kret false);
      kfree k_bases;; kfree k_sizes;;
      kret (if fault then NV_ERR_INVALID_ARGUMENT else status,
            Some (Z.of_nat (length bases))).

(** *** FINALIZE *)

Definition finalize_block (b : va_block) : K (option nv_status * va_block) :=
  let b := vb_set_migration false false b in
  if bool_decide (vb_resident b = ∅) then kret (None, b)
  else
    let r := uvm_va_block_region_from_block b in
    '(_, b) ← block_lock_retry
       (fun b => uvm_va_block_map_mask (cfg b) b (vb_resident b) r None
                   UVM_PROT_READ_WRITE_ATOMIC) b;
    kret (None, b).

Definition finalize_range (r : va_range) : K (option nv_status * va_range) :=
  if negb (is_managed r) then kret (None, r)
  else
    c ← uvm_va_block_context_alloc;
    if negb c then kret (None, r)
    else
      '(ex, slots) ← each_block finalize_block (vr_blocks r);
      uvm_va_block_context_free c;;
      kret (ex, vr_set_blocks slots r).

Definition finalize_space (v : va_space) : K (option nv_status * va_space) :=
  lock_acquire (LSpaceWrite (vs_id v));;
  let v := vs_set_tracking false v in
  '(ex, ranges) ← keach finalize_range (vs_ranges v);
  lock_release (LSpaceWrite (vs_id v));;
  kret (ex, vs_set_ranges ranges v).

Definition uvm_api_live_migration_finalize (spaces : list va_space)
    : K (nv_status * list va_space) :=
  if negb env_capable then kret (NV_ERR_INSUFFICIENT_PERMISSIONS, spaces)
  else
    lock_acquire LVaSpaces;;
    '(_, spaces) ← keach finalize_space spaces;
    lock_release LVaSpaces;;
    kret (NV_OK, spaces).

(** *** Block creation after PREPARE_ALL ([uvm_va_range_block_create]) *)

(** A block as [uvm_va_block_create] makes it: nothing resident or mapped.
    [live_migration] is zeroed by the allocator. *)
Definition fresh_block (start end_ : Z) : va_block :=
  mk_va_block start end_ ∅ (fun _ => []) ∅ ∅ ∅ ∅ ∅ ∅ false false.

Definition uvm_va_block_create (start end_ : Z) : K (nv_status * option va_block) :=
  blk ← kmalloc;                          (* block *)
  if negb blk then kret (NV_ERR_NO_MEMORY, None)
  else
    ns ← kmalloc;                         (* cpu.node_state *)
    if negb ns then kfree blk;; kret (NV_ERR_NO_MEMORY, None)
    else
      n0 ← kmalloc;                       (* cpu.node_state[0] *)
      if negb n0 then kfree ns;; kfree blk;; kret (NV_ERR_NO_MEMORY, None)
      else kret (NV_OK, Some (fresh_block start end_)).

(** [uvm_va_block_release] of a block nobody else has seen. *)
Definition uvm_va_block_release_new : K unit := kfree true;; kfree true;; kfree true.

(** [race] is the block another thread has published in the slot between the
    lookup and the [cmpxchg]. *)
Definition uvm_va_range_block_create (v : va_space) (r : va_range) (index : Z)
    (race : option va_block) : K (nv_status * option va_block * va_range) :=
  match vr_blocks r !! Z.to_nat index with
  | Some (Some b) => kret (NV_OK, Some b, r)
  | _ =>
      '(status, ob) ← uvm_va_block_create (block_calc_start r index) (block_calc_end r index);
      match ob with
      | None => kret (status, None, r)
      | Some block =>
          let block := if vs_tracking_active v then vb_set_migration false true block
                       else block in
          match race with
          | Some old =>
              uvm_va_block_release_new;;
              kret (NV_OK, Some old,
                    vr_set_blocks (<[Z.to_nat index := Some old]> (vr_blocks r)) r)
          | None =>
              kret (NV_OK, Some block,
                    vr_set_blocks (<[Z.to_nat index := Some block]> (vr_blocks r)) r)
          end
      end
  end.
End Tracking.

(** ** Locks and allocations *)

Section TrackingResources.
Context `{E : Env} (cfg : va_block -> perm_cfg).

Lemma context_alloc_lock ls : LockSpec ls uvm_va_block_context_alloc ls.
Proof. unfold uvm_va_block_context_alloc. locks. Qed.
Lemma context_free_lock ls p : LockSpec ls (uvm_va_block_context_free p) ls.
Proof. unfold uvm_va_block_context_free. locks. Qed.
Lemma context_alloc_live : LiveSpec uvm_va_block_context_alloc (fun p => if p then 3 else 0).
Proof. unfold uvm_va_block_context_alloc. live. Qed.
Lemma context_free_live p : LiveSpec (uvm_va_block_context_free p) (fun _ => if p then -3 else 0).
Proof. unfold uvm_va_block_context_free. live. Qed.
#[local] Hint Resolve context_alloc_lock context_free_lock : locks.
#[local] Hint Resolve context_alloc_live context_free_live : live.

Lemma prepare_block_lock ls b : LBlock (vb_start b) ∉ ls -> LockSpec ls (prepare_block cfg b) ls.
Proof. intros H. unfold prepare_block, block_lock_retry. locks. Qed.

Lemma prepare_space_lock ls v :
  (forall id, LSpaceWrite id ∉ ls) -> (forall st, LBlock st ∉ ls) ->
  LockSpec ls (prepare_va_space_for_migration cfg v) ls.
Proof.
  intros H1 H2. unfold prepare_va_space_for_migration, prepare_range, each_block. locks.
  - apply prepare_block_lock. set_solver.
Qed.

Lemma block_lock_retry_live call b :
  (forall b, LiveSpec (call b) (fun _ => 0)) -> LiveSpec (block_lock_retry call b) (fun _ => 0).
Proof. intros H. unfold block_lock_retry. live. Qed.
#[local] Hint Resolve block_lock_retry_live : live.

Lemma prepare_block_live b : LiveSpec (prepare_block cfg b) (fun _ => 0).
Proof. unfold prepare_block. live. Qed.
#[local] Hint Resolve prepare_block_live : live.

Lemma each_block_live f slots :
  (forall b, LiveSpec (f b) (fun _ => 0)) -> LiveSpec (each_block f slots) (fun _ => 0).
Proof. intros H. unfold each_block. live. Qed.
#[local] Hint Resolve each_block_live : live.

Lemma prepare_space_live v :
  LiveSpec (prepare_va_space_for_migration cfg v) (fun _ => 0).
Proof.
  assert (forall r, LiveSpec (prepare_range cfg r) (fun _ => 0)) as H.
  { intros r. unfold prepare_range. live. }
  unfold prepare_va_space_for_migration. live.
Qed.

Lemma prepare_snapshot_resources ls vs st n :
  (forall id, LSpaceWrite id ∉ ls) -> (forall st, LBlock st ∉ ls) ->
  LockSpec ls (prepare_snapshot cfg st n vs) ls /\
  LiveSpec (prepare_snapshot cfg st n vs) (fun _ => 0).
Proof.
  intros H1 H2. revert st n; induction vs as [|v vs IH]; intros st n; cbn.
  { split; [apply lock_ret|by apply live_ret]. }
  split.
  - eapply lock_bind; [by apply prepare_space_lock|]. intros [st' v'].
    eapply lock_bind; [apply IH|]. intros [[? ?] ?]. apply lock_ret.
  - eapply live_bind; [apply prepare_space_live|]. intros [st' v'].
    eapply live_bind; [apply IH|]. intros [[? ?] ?]. by apply live_ret.
Qed.

Lemma prepare_all_resources spaces :
  LockSpec [] (uvm_api_live_migration_prepare_all cfg spaces) [] /\
  LiveSpec (uvm_api_live_migration_prepare_all cfg spaces) (fun _ => 0).
Proof.
  pose proof (fun st n => prepare_snapshot_resources [] spaces st n) as H.
  split.
  - assert (forall st n, LockSpec [] (prepare_snapshot cfg st n spaces) []) as Hl.
    { intros. apply H; set_solver. }
    unfold uvm_api_live_migration_prepare_all. locks.
  - assert (forall st n, LiveSpec (prepare_snapshot cfg st n spaces) (fun _ => 0)) as Hl.
    { intros. apply H; set_solver. }
    assert (forall (c : bool) n, LiveSpec (if c then kvmalloc_array n 8 else kret false)
              (fun p => if p then 1 else 0)) as Hs.
    { intros [] n; [apply live_kvmalloc_array|by apply live_ret]. }
    unfold uvm_api_live_migration_prepare_all.
    apply live_if; [by apply live_ret|].
    eapply live_bind; [apply live_acquire|intros []].
    eapply live_bind; [apply Hs|intros []; cbn [negb]]; rewrite ?andb_false_r; live.
Qed.
End TrackingResources.

(** ** PREPARE_ALL write-protects what it tracks *)

Definition full_mask (b : va_block) : gset Z := region_mask (uvm_va_block_region_from_block b).

Definition block_wf (b : va_block) : Prop :=
  perm_wf b /\ forall id, id ∈ vb_resident b -> 0 <= id.

(** No page keeps write permission on a processor that has pages of the block. *)
Definition write_protected (b : va_block) : Prop :=
  forall id, id ∈ vb_resident b -> revoked_at b (full_mask b) UVM_PROT_READ_WRITE id.

(** [b'] is [b] tracked, clean, and possibly with permissions revoked. *)
Definition armed (b b' : va_block) : Prop :=
  revoke_effect (vb_set_migration false true b) (full_mask b) b'.

Record prepared (b b' : va_block) : Prop := {
  pr_armed     : armed b b';
  pr_wf        : block_wf b';
  pr_tracking  : vb_tracking b' = true;
  pr_clean     : vb_dirty b' = false;
  pr_protected : write_protected b';
}.

(** A relation between blocks, lifted to slots and ranges. *)
Definition slot_rel (R : va_block -> va_block -> Prop) (o o' : option va_block) : Prop :=
  match o, o' with
  | None, None => True
  | Some b, Some b' => R b b'
  | _, _ => False
  end.

Definition range_rel (R : va_block -> va_block -> Prop) (r r' : va_range) : Prop :=
  if is_managed r then
    exists slots, r' = vr_set_blocks slots r /\ Forall2 (slot_rel R) (vr_blocks r) slots
  else r' = r.

Lemma perm_wf_set_migration b d t : perm_wf b -> perm_wf (vb_set_migration d t b).
Proof. intros []. by constructor. Qed.

Lemma same_pages_full_mask b b' : same_pages b b' -> full_mask b' = full_mask b.
Proof.
  intros H. unfold full_mask, uvm_va_block_region_from_block, uvm_va_block_num_cpu_pages,
    uvm_va_block_size. by rewrite (sp_start _ _ H), (sp_end _ _ H).
Qed.

Section Prepare.
Context `{E : Env} (cfg : va_block -> perm_cfg).

Lemma wp_block_lock_retry (R Done : va_block -> Prop) call b s :
  R b ->
  (forall b s, R b -> wp (call b) (fun '(st, b') _ => R b' /\ (st = NV_OK -> Done b')) s) ->
  wp (block_lock_retry call b) (fun '(st, b') _ => R b' /\ (st = NV_OK -> Done b')) s.
Proof.
  intros HR Hc. unfold block_lock_retry. apply wp_bind, wp_mod, wp_bind.
  eapply wp_mono; [by apply (wp_retry_loop R Done)|]. intros [st b'] s' H.
  apply wp_bind, wp_mod. by apply wp_ret.
Qed.

Lemma armed_facts b b' : block_wf b -> armed b b' ->
  block_wf b' /\ vb_tracking b' = true /\ vb_dirty b' = false /\
  full_mask b' = full_mask b /\ vb_resident b' = vb_resident b.
Proof.
  intros [Hwf Hid] H. destruct (re_step _ _ _ H) as [Hsp Hw].
  pose proof (same_pages_full_mask _ _ Hsp). destruct Hsp as [? ? ? ? Hres ? ? _]; cbn in *.
  split; [split|done].
  - by apply Hw, perm_wf_set_migration.
  - by rewrite Hres.
Qed.

Lemma prepare_block_spec b s :
  block_wf b ->
  wp (prepare_block cfg b)
    (fun r _ => keach_post (fun st => st <> NV_OK) armed prepared b r) s.
Proof.
  intros Hwf. unfold prepare_block. set (b0 := vb_set_migration false true b).
  assert (armed b b0) as H0 by (unfold armed; subst b0; auto).
  apply wp_if; intros Hres; bprop.
  { apply wp_ret. split; [done|]. cbn.
    destruct (armed_facts b b0 Hwf H0) as (?&?&?&?&?). constructor; try done.
    intros id. rewrite Hres. set_solver. }
  apply wp_bind. eapply wp_mono.
  { apply (wp_block_lock_retry (armed b) (prepared b)); [done|].
    intros b1 s1 H1. destruct (armed_facts b b1 Hwf H1) as ([Hwf1 Hid1]&Ht&Hd&Hm&Hr).
    pose proof (uvm_va_block_revoke_prot_mask_correct (cfg b1) b1 (vb_resident b1)
      (uvm_va_block_region_from_block b) None UVM_PROT_READ_WRITE s1 Hwf1 eq_refl Hid1) as H.
    unfold wp. destruct (uvm_va_block_revoke_prot_mask _ _ _ _ _ _ _) as [[st b2] s2].
    cbn in *. destruct H as (H3 & H4 & H5).
    assert (armed b b2) as H2 by (by eapply revoke_effect_trans).
    split; [done|]. intros Hst. destruct (armed_facts b b2 Hwf H2) as (?&?&?&Hm2&Hr2).
    constructor; try done. intros id Hid. rewrite Hm2. apply H5; [done|congruence]. }
  intros [st b'] s' [H1 H2]. apply wp_ret. split; [done|]. cbn.
  destruct (leave_on_error st) eqn:Hst; [by apply leave_on_error_Some in Hst as [-> ?]|].
  apply H2. by apply leave_on_error_None.
Qed.
End Prepare.

(** *** From blocks to ranges, spaces and the whole system *)

Definition range_all (P : va_block -> Prop) (r : va_range) : Prop :=
  is_managed r = true -> forall b, b ∈ range_blocks r -> P b.
Definition space_all (P : va_block -> Prop) (v : va_space) : Prop :=
  forall r, r ∈ vs_ranges v -> range_all P r.

Lemma elem_of_range_blocks r b : b ∈ range_blocks r <-> Some b ∈ vr_blocks r.
Proof.
  unfold range_blocks. rewrite list_elem_of_omap. split.
  - by intros ([b'|] & Hin & [= ->]).
  - intros H. by exists (Some b).
Qed.

Lemma range_rel_all (P : va_block -> Prop) R r r' :
  (forall b b', R b b' -> P b') -> range_rel R r r' -> range_all P r'.
Proof.
  unfold range_rel, range_all. intros HP. destruct (is_managed r) eqn:Hm.
  - intros (slots & -> & HF) _ b. rewrite elem_of_range_blocks; cbn. intros Hb.
    apply list_elem_of_lookup in Hb as [i Hi].
    destruct (Forall2_lookup_r _ _ _ _ _ HF Hi) as ([b0|] & Hb0 & HR); [|done]. by eapply HP.
  - intros -> Hm'. congruence.
Qed.

Section EachBlock.
Context `{E : Env}.

Lemma each_block_spec X (R0 R : va_block -> va_block -> Prop) f slots s :
  (forall b, Some b ∈ slots -> R0 b b) ->
  (forall b s, Some b ∈ slots -> wp (f b) (fun r _ => keach_post X R0 R b r) s) ->
  wp (each_block f slots)
    (fun r _ => keach_post X (Forall2 (slot_rel R0)) (Forall2 (slot_rel R)) slots r) s.
Proof.
  intros Hr Hf. unfold each_block. apply wp_keach_all.
  - intros [b|] Hb; [by apply Hr|done].
  - intros [b|] s1 Hb; [|by apply wp_ret]. apply wp_bind.
    eapply wp_mono; [by apply Hf|]. intros [[st|] b'] s2 H; by apply wp_ret.
Qed.
End EachBlock.

Section PrepareSpace.
Context `{E : Env} (cfg : va_block -> perm_cfg).

Definition touched (b b' : va_block) : Prop := b' = b \/ armed b b'.

Lemma slot_rel_refl (R : va_block -> va_block -> Prop) slots :
  (forall b, R b b) -> Forall2 (slot_rel R) slots slots.
Proof. intros HR. induction slots as [|[b|] l IH]; constructor; cbn; auto. Qed.

Lemma range_rel_refl (R : va_block -> va_block -> Prop) r :
  (forall b, R b b) -> range_rel R r r.
Proof.
  intros HR. unfold range_rel. destruct (is_managed r); [|done].
  exists (vr_blocks r). split; [by destruct r|by apply slot_rel_refl].
Qed.

Lemma prepare_range_spec r s :
  range_all block_wf r ->
  wp (prepare_range cfg r)
    (fun x _ => keach_post (fun st => st <> NV_OK) (range_rel touched) (range_rel prepared) r x) s.
Proof.
  intros Hwf. unfold prepare_range, range_all in *.
  assert (forall r, range_rel touched r r) as Hrefl
    by (intros; apply range_rel_refl; by left).
  apply wp_if; intros Hm; bprop.
  { apply wp_ret. split; [done|]. cbn. unfold range_rel. by rewrite Hm. }
  apply wp_bind, wp_any; intros c s1. apply wp_if; intros _; [by apply wp_ret|].
  apply wp_bind. eapply wp_mono;
    [apply (each_block_spec (fun st => st <> NV_OK) touched prepared)|].
  - by left.
  - intros b s2 Hb. eapply wp_mono; [apply prepare_block_spec|].
    + apply Hwf; [done|]. by apply elem_of_range_blocks.
    + intros [ex b'] s3 [H1 H2]. split; [by right|done].
  - intros [ex slots] s2 [H1 H2]. apply wp_bind, wp_any; intros [] s3. apply wp_ret.
    unfold keach_post, range_rel; cbn in *. rewrite Hm. split; [by exists slots|].
    destruct ex; [done|]. eauto.
Qed.

Lemma prepare_space_spec v s :
  space_all block_wf v ->
  wp (prepare_va_space_for_migration cfg v)
    (fun '(st, v') _ =>
       vs_id v' = vs_id v /\ Forall2 (range_rel touched) (vs_ranges v) (vs_ranges v') /\
       (st = NV_OK -> vs_tracking_active v' = true /\
          Forall2 (range_rel prepared) (vs_ranges v) (vs_ranges v')) /\
       (st <> NV_OK -> vs_tracking_active v' = vs_tracking_active v)) s.
Proof.
  intros Hwf. unfold prepare_va_space_for_migration. apply wp_bind, wp_mod, wp_bind.
  eapply wp_mono; [apply (wp_keach_all (fun st => st <> NV_OK)
                            (range_rel touched) (range_rel prepared))|].
  - intros; apply range_rel_refl; by left.
  - intros r s1 Hr. by apply prepare_range_spec, Hwf.
  - intros [ex rs] s1 [H1 H2]. apply wp_bind, wp_mod, wp_ret. cbn in *.
    destruct ex as [st|]; cbn; [|done].
    apply is_ok_false in H2 as Hok. by rewrite Hok.
Qed.
End PrepareSpace.

(** *** The whole system *)

(** The outcome of PREPARE_ALL on one VA space. *)
Definition space_prepared (v v' : va_space) : Prop :=
  vs_tracking_active v' = true /\ Forall2 (range_rel prepared) (vs_ranges v) (vs_ranges v').
Definition space_failed (v v' : va_space) : Prop :=
  vs_tracking_active v' = vs_tracking_active v /\
  Forall2 (range_rel touched) (vs_ranges v) (vs_ranges v').

Section PrepareAll.
Context `{E : Env} (cfg : va_block -> perm_cfg).

Lemma prepare_snapshot_spec vs st n s :
  0 <= n -> Forall (space_all block_wf) vs ->
  wp (prepare_snapshot cfg st n vs)
    (fun '(st', n', vs') _ =>
       Forall2 (fun v v' => space_prepared v v' \/ space_failed v v') vs vs' /\
       n <= n' /\ (n < n' -> Exists (fun p => space_prepared (fst p) (snd p)) (zip vs vs')) /\
       (n' = n -> vs = [] /\ st' = st \/ st' <> NV_OK)) s.
Proof.
  intros Hn Hvs. revert st n s Hn; induction Hvs as [|v vs Hv _ IH]; intros st n s Hn; cbn.
  { split; [constructor|]. split; [lia|]. split; [lia|auto]. }
  apply wp_bind. eapply wp_mono; [by apply prepare_space_spec|].
  intros [st1 v1] s1 (_ & H1 & H2 & H3). apply wp_bind.
  assert (0 <= (if negb (is_ok st1) then n else n + 1)) as Hn1 by (destruct (is_ok st1); cbn; lia).
  eapply wp_mono; [by apply IH|]. intros [[st2 n2] vs2] s2 (G1 & G2 & G3 & G4).
  apply wp_ret. destruct (is_ok st1) eqn:Hok; cbn [negb] in *; bprop.
  - split; [constructor; [left; by split; apply H2|done]|]. split; [lia|].
    split; [|lia]. intros _. cbn. left. cbn. by split; apply H2.
  - split; [constructor; [right; split; auto|done]|]. split; [lia|].
    split; [intros; cbn; right; auto|]. intros ->. right.
    destruct (G4 eq_refl) as [[_ ->]|]; done.
Qed.

Lemma space_failed_refl v : space_failed v v.
Proof.
  split; [done|]. apply Forall2_same_length_lookup. split; [done|].
  intros i r r' Hr Hr'. assert (r = r') as -> by congruence. apply range_rel_refl. by left.
Qed.

Lemma spaces_failed_refl vs :
  Forall2 (fun v v' => space_prepared v v' \/ space_failed v v') vs vs.
Proof. induction vs; constructor; auto using space_failed_refl. Qed.

(** C5: PREPARE_ALL in every environment: without CAP_SYS_ADMIN nothing changes;
    with no VA space it returns the warning; otherwise each VA space is either
    prepared, every managed block tracked, clean and write-protected where its
    pages are resident, or left partially prepared with its tracking flag as
    before; OK means that at least one was prepared. *)
Theorem prepare_all_correct spaces s :
  Forall (space_all block_wf) spaces ->
  let '(st, spaces') := fst (uvm_api_live_migration_prepare_all cfg spaces s) in
  (env_capable = false -> st = NV_ERR_INSUFFICIENT_PERMISSIONS /\ spaces' = spaces) /\
  (env_capable = true -> spaces = [] -> st = NV_WARN_NOTHING_TO_DO) /\
  Forall2 (fun v v' => space_prepared v v' \/ space_failed v v') spaces spaces' /\
  (st = NV_OK -> Exists (fun p => space_prepared (fst p) (snd p)) (zip spaces spaces')).
Proof.
  intros Hwf.
  enough (wp (uvm_api_live_migration_prepare_all cfg spaces) (fun '(st, spaces') _ =>
    (env_capable = false -> st = NV_ERR_INSUFFICIENT_PERMISSIONS /\ spaces' = spaces) /\
    (env_capable = true -> spaces = [] -> st = NV_WARN_NOTHING_TO_DO) /\
    Forall2 (fun v v' => space_prepared v v' \/ space_failed v v') spaces spaces' /\
    (st = NV_OK -> Exists (fun p => space_prepared (fst p) (snd p)) (zip spaces spaces'))) s)
    as H.
  { unfold wp in H. by destruct (fst _). }
  unfold uvm_api_live_migration_prepare_all.
  pose proof (spaces_failed_refl spaces).
  apply wp_if; intros Hc; bprop; [apply wp_ret; rewrite Hc; done|].
  apply wp_bind, wp_mod, wp_bind, wp_any; intros snap s1.
  apply wp_if; intros Hs; bprop.
  { apply wp_bind, wp_mod, wp_ret. rewrite Hc. split; [done|]. split; [|done].
    intros _ ->. done. }
  apply wp_bind, wp_mod, wp_bind. eapply wp_mono; [by apply prepare_snapshot_spec|].
  intros [[st n] vs'] s2 (H1 & H2 & H3 & H4). apply wp_bind, wp_any; intros [] s3. apply wp_ret.
  rewrite Hc. split; [done|]. split.
  - intros _ ->. destruct (Z.ltb_spec 0 n); [|done]. apply Exists_exists in H3 as (? & Hin & _);
      [|lia]. by inversion Hin.
  - split; [done|]. destruct (Z.ltb_spec 0 n); [intros _; apply H3; lia|].
    destruct (Z.eqb_spec (Z.of_nat (length spaces)) 0); [done|]. intros ->.
    destruct H4 as [[-> _]|]; [lia|done|done].
Qed.
End PrepareAll.

Section PrepareHealthy.
Context `{E : Env} {H : HealthyEnv E} (cfg : va_block -> perm_cfg).

Lemma prepare_block_ok b s : wp (prepare_block cfg b) (fun r _ => fst r = None) s.
Proof.
  unfold prepare_block, block_lock_retry. hsteps; [done|].
  apply wp_succeeds; [apply retry_loop_ok; intros; apply revoke_mask_ok|].
  intros; hsteps. done.
Qed.

Lemma prepare_space_ok v : Succeeds (prepare_va_space_for_migration cfg v).
Proof.
  intros s. change (wp (prepare_va_space_for_migration cfg v) (fun x _ => fst x = NV_OK) s).
  unfold prepare_va_space_for_migration, prepare_range, uvm_va_block_context_alloc,
    uvm_va_block_context_free, each_block. hsteps; try done.
  - eapply wp_mono; [apply prepare_block_ok|].
    intros [? ?] ?; hsteps. done.
  - by cbn in *; subst.
Qed.

Lemma prepare_snapshot_ok vs st n s :
  Forall (space_all block_wf) vs ->
  wp (prepare_snapshot cfg st n vs)
    (fun '(st', n', vs') _ => n' = n + Z.of_nat (length vs) /\ Forall2 space_prepared vs vs') s.
Proof.
  intros Hvs. revert st n s; induction Hvs as [|v vs Hv _ IH]; intros st n s; cbn [prepare_snapshot].
  { apply wp_ret. split; [cbn; lia|constructor]. }
  apply wp_bind. eapply wp_mono; [apply wp_and; [by apply prepare_space_spec|]|].
  { eapply (wp_succeeds _ (fun x _ => fst x = NV_OK)); [apply prepare_space_ok|done]. }
  intros [st1 v1] s1 [(_ & H1 & H2 & H3) Hok]. cbn in Hok; subst st1. apply wp_bind.
  eapply wp_mono; [apply IH|]. intros [[st2 n2] vs2] s2 [-> G]. apply wp_ret.
  rewrite is_ok_NV_OK; cbn [negb length]. split; [lia|]. constructor; [by apply H2|done].
Qed.

(** PREPARE_ALL when nothing fails: it returns OK and every block of every
    managed range of every VA space is tracked, clean and write-protected. *)
Theorem prepare_all_succeeds spaces s :
  env_capable = true -> spaces <> [] -> 8 * Z.of_nat (length spaces) < 2 ^ 64 ->
  Forall (space_all block_wf) spaces ->
  let '(st, spaces') := fst (uvm_api_live_migration_prepare_all cfg spaces s) in
  st = NV_OK /\ Forall2 space_prepared spaces spaces'.
Proof.
  intros Hc Hne Hlen Hwf.
  enough (wp (uvm_api_live_migration_prepare_all cfg spaces) (fun '(st, spaces') _ =>
    st = NV_OK /\ Forall2 space_prepared spaces spaces') s) as Hwp.
  { unfold wp in Hwp. by destruct (fst _). }
  assert (0 < Z.of_nat (length spaces)) as Hpos by (destruct spaces; cbn; [done|lia]).
  unfold uvm_api_live_migration_prepare_all, kvmalloc_array. rewrite Hc. cbn [negb].
  apply Z.ltb_lt in Hpos as Hb. rewrite Hb. hsteps; try (btest; done).
  eapply wp_mono; [by apply prepare_snapshot_ok|]. intros [[st n] vs'] s3 [-> HF]. hsteps.
  split; [|done]. by rewrite Z.add_0_l, Hb.
Qed.
End PrepareHealthy.

(** ** GET_DIRTY_PAGES *)

(** The addresses to report: start of every tracked dirty block of a managed
    range, in list, range and block order. *)
Definition block_dirty_starts (b : va_block) : list Z :=
  if vb_tracking b && vb_dirty b then [vb_start b] else [].
Definition range_dirty_starts (r : va_range) : list Z :=
  if is_managed r then mjoin (block_dirty_starts <$> range_blocks r) else [].
Definition space_dirty_starts (v : va_space) : list Z :=
  mjoin (range_dirty_starts <$> vs_ranges v).
Definition dirty_starts (spaces : list va_space) : list Z :=
  mjoin (space_dirty_starts <$> spaces).

Section GetDirty.
Context `{E : Env} (buf max : Z).
Hypothesis Hmax : 0 <= max.
Hypothesis Hbuf : 0 <= buf /\ buf + 8 * max <= 2 ^ 64.

(** The addresses [D] have been reported, and the locks satisfy [LS]. *)
Record reported (LS : list lock -> Prop) (D : list Z) (count : Z) (s : kst) : Prop := {
  rp_count : count = Z.of_nat (length D);
  rp_max   : count <= max;
  rp_mem   : mem_holds (k_user s) buf (le_u64s D);
  rp_locks : LS (k_locks s);
  rp_bug   : k_lock_bug s = false;
}.

(** The loop was left: the reasons it can be. *)
Definition left_early (LS : list lock -> Prop) (D : list Z) (st : nv_status) (count : Z)
    (s : kst) : Prop :=
  reported LS D count s /\ (st = NV_OK /\ count = max \/ st = NV_ERR_INVALID_ADDRESS).

Definition report_post (LS LSE : list lock -> Prop)
    : list Z -> list Z -> option nv_status * Z -> kst -> Prop :=
  collect_post (reported LS) (left_early LSE).

Lemma reported_lock LS LS' D count s locks bug :
  reported LS D count s -> LS' locks -> bug = false ->
  reported LS' D count (set_locks locks bug s).
Proof. intros [] HL Hb. by constructor. Qed.

Lemma reported_write LS D count s bs t :
  reported LS D count s ->
  reported LS D count
    (set_user (mem_write (buf + Z.of_nat (length (le_u64s D))) bs (k_user s)) (set_tick t s)).
Proof.
  intros []. constructor; cbn; try done. apply mem_holds_write_disjoint; [|done].
  unfold disjoint_iv. lia.
Qed.

Lemma reported_push LS D count s z t :
  reported LS D count s -> count < max ->
  reported LS (D ++ [z]) (count + 1)
    (set_user (mem_write (buf + Z.of_nat (length (le_u64s D))) (le_bytes 8 z) (k_user s))
       (set_tick t s)).
Proof.
  intros HR Hlt. destruct (reported_write _ _ _ _ (le_bytes 8 z) t HR) as [H1 H2 H3 H4 H5].
  constructor; try done.
  - rewrite length_app; cbn [length]. lia.
  - lia.
  - rewrite le_u64s_snoc. apply mem_holds_app. split; [done|]. apply mem_write_holds.
Qed.

Lemma report_block_spec ls b D count s :
  LBlock (vb_start b) ∉ ls -> reported (fun l => l = ls) D count s ->
  wp (report_block buf max count b)
    (report_post (fun l => l = ls) (fun l => l = ls) D (block_dirty_starts b)) s.
Proof.
  intros Hls HP. unfold report_block, block_dirty_starts, report_post, collect_post, left_early.
  set (rel := lock_release (LBlock (vb_start b))).
  assert (Hrel : forall D c s1 (Q : unit -> kst -> Prop),
    reported (fun l => l = LBlock (vb_start b) :: ls) D c s1 ->
    (forall s2, reported (fun l => l = ls) D c s2 -> Q tt s2) -> wp rel Q s1).
  { intros D1 c s1 Q HR HQ. subst rel. apply wp_mod, HQ.
    destruct (lock_rel (LBlock (vb_start b)) ls Hls s1) as [Hl Hb]; [apply HR..|].
    cbn in Hl, Hb. eapply reported_lock; [done|by rewrite Hl|done]. }
  apply wp_bind, wp_mod.
  assert (reported (fun l => l = LBlock (vb_start b) :: ls) D count
    (set_locks (LBlock (vb_start b) :: k_locks s)
       (k_lock_bug s || bool_decide (LBlock (vb_start b) ∈ k_locks s)) s)) as HA.
  { eapply reported_lock; [done|by rewrite (rp_locks _ _ _ _ HP)|].
    rewrite (rp_locks _ _ _ _ HP), (rp_bug _ _ _ _ HP). by apply bool_decide_eq_false. }
  set (s1 := set_locks _ _ s) in *. clearbody s1. clear HP.
  destruct (vb_tracking b); cbn [negb andb].
  2:{ apply wp_bind. eapply Hrel; [done|]. intros s2 H2. apply wp_ret; cbn.
      by rewrite app_nil_r. }
  destruct (vb_dirty b); cbn [negb].
  2:{ apply wp_bind. eapply Hrel; [done|]. intros s2 H2. apply wp_ret; cbn.
      by rewrite app_nil_r. }
  pose proof (rp_count _ _ _ _ HA) as Hc. pose proof (rp_max _ _ _ _ HA) as Hm.
  apply wp_if; intros Hfull; btest.
  { apply wp_bind. eapply Hrel; [done|]. intros s2 H2. apply wp_ret; cbn.
    exists [], [vb_start b]. rewrite app_nil_r. split; [done|]. split; [done|].
    split; [done|]. left. split; [done|lia]. }
  assert (u64 (buf + u64 (8 * count)) = buf + Z.of_nat (length (le_u64s D))) as Ha.
  { rewrite length_le_u64s. rewrite (u64_small (8 * count)), u64_small by lia. lia. }
  rewrite Ha. apply wp_bind, wp_copy_to_user; intros.
  - apply wp_bind. eapply (Hrel (D ++ [vb_start b]) (count + 1)); [by apply reported_push|].
    intros s2 H2. by apply wp_ret.
  - apply wp_bind. eapply (Hrel D count); [by apply reported_write|]. intros s2 H2.
    apply wp_ret; cbn.
    exists [], [vb_start b]. rewrite app_nil_r. repeat split; try done; [apply H2..|]. by right.
Qed.

Lemma report_range_spec ls r D count s :
  (forall st, LBlock st ∉ ls) -> reported (fun l => l = ls) D count s ->
  wp (report_range buf max count r)
    (report_post (fun l => l = ls) (fun l => l = ls) D (range_dirty_starts r)) s.
Proof.
  intros Hls HP. unfold report_range, range_dirty_starts. destruct (is_managed r); cbn [negb].
  - apply wp_kfold_collect; [|done]. intros b D1 c1 s1 _ H1. by apply report_block_spec.
  - apply wp_ret. unfold report_post, collect_post; cbn. by rewrite app_nil_r.
Qed.

(** Leaving a space early keeps its lock. *)
Lemma report_space_spec v D count s :
  reported (fun l => l = [LVaSpaces]) D count s ->
  wp (report_space buf max count v)
    (report_post (fun l => l = [LVaSpaces]) (fun l => l = [LSpaceRead (vs_id v); LVaSpaces]) D
       (space_dirty_starts v)) s.
Proof.
  intros HP. unfold report_space. apply wp_bind, wp_mod, wp_bind.
  eapply wp_mono; [apply (wp_kfold_collect
    (reported (fun l => l = [LSpaceRead (vs_id v); LVaSpaces]))
    (left_early (fun l => l = [LSpaceRead (vs_id v); LVaSpaces])) _ range_dirty_starts)|].
  - intros r D1 c1 s1 _ H1. apply report_range_spec; [|done]. set_solver.
  - eapply reported_lock; [done|by rewrite (rp_locks _ _ _ _ HP)|].
    rewrite (rp_locks _ _ _ _ HP), (rp_bug _ _ _ _ HP). apply bool_decide_eq_false. set_solver.
  - intros [[st|] c] s1 H1; unfold report_post, collect_post in *; cbn in H1; [by apply wp_ret|].
    apply wp_bind, wp_mod, wp_ret. cbn.
    destruct (lock_rel (LSpaceRead (vs_id v)) [LVaSpaces]) with (s := s1) as [Hl Hb];
      [set_solver|apply H1..|]. cbn in Hl, Hb.
    eapply reported_lock; [done|by rewrite Hl|done].
Qed.
End GetDirty.

(** *** GET_DIRTY_PAGES, for every environment *)

Section GetDirtyTheorem.
Context `{E : Env}.

(** C6: GET_DIRTY_PAGES writes to the user buffer the start addresses of the first
    num dirty tracked blocks, in order, never more than max. Either all were
    reported and every lock is released, or the walk left early (buffer full, with
    status OK, or a fault) and the read lock of one VA space stays held. *)
Theorem get_dirty_pages_correct buf max spaces s :
  0 <= max -> 0 <= buf -> buf + 8 * max <= 2 ^ 64 ->
  k_locks s = [] -> k_lock_bug s = false ->
  let '((st, num), s') := uvm_api_live_migration_get_dirty_pages buf max spaces s in
  let all := dirty_starts spaces in
  let n := Z.to_nat num in
  0 <= num <= max /\ (n <= length all)%nat /\
  mem_holds (k_user s') buf (le_u64s (take n all)) /\ k_lock_bug s' = false /\
  (st = NV_OK /\ n = length all /\ k_locks s' = [] \/
   (n < length all)%nat /\ (st = NV_OK /\ num = max \/ st = NV_ERR_INVALID_ADDRESS) /\
   exists v, v ∈ spaces /\ k_locks s' = [LSpaceRead (vs_id v)]).
Proof.
  intros Hm Hb0 Hb Hl Hbug.
  enough (wp (uvm_api_live_migration_get_dirty_pages buf max spaces) (fun '(st, num) s' =>
    let all := dirty_starts spaces in let n := Z.to_nat num in
    0 <= num <= max /\ (n <= length all)%nat /\
    mem_holds (k_user s') buf (le_u64s (take n all)) /\ k_lock_bug s' = false /\
    (st = NV_OK /\ n = length all /\ k_locks s' = [] \/
     (n < length all)%nat /\ (st = NV_OK /\ num = max \/ st = NV_ERR_INVALID_ADDRESS) /\
     exists v, v ∈ spaces /\ k_locks s' = [LSpaceRead (vs_id v)])) s) as H.
  { unfold wp in H. by destruct (uvm_api_live_migration_get_dirty_pages _ _ _ _) as [[? ?] ?]. }
  unfold uvm_api_live_migration_get_dirty_pages. apply wp_bind, wp_mod, wp_bind.
  eapply wp_mono; [apply (wp_kfold_collect (reported buf max (fun l => l = [LVaSpaces]))
    (left_early buf max (fun l => exists v, v ∈ spaces /\ l = [LSpaceRead (vs_id v); LVaSpaces]))
    _ space_dirty_starts) with (D := [])|].
  - intros v D c s1 Hv H1. eapply wp_mono; [by apply report_space_spec|].
    intros [[st|] c'] s2; unfold report_post, collect_post; cbn; [|done].
    intros (D1 & T2 & ? & ? & [] & ?). exists D1, T2.
    split; [done|]. split; [done|]. split; [constructor; eauto|done].
  - constructor; cbn; rewrite ?Hl, ?Hbug; done.
  - intros [[st|] c] s1; unfold report_post, collect_post; cbn; fold (dirty_starts spaces).
    + intros (D1 & T2 & HT & Hne & [H1 H2 H3 (v & Hv & H4) H5] & H6).
      rewrite H4, H5, HT. cbn in H1, H3.
      rewrite H1, Nat2Z.id, take_app_length, length_app.
      assert (0 < length T2)%nat by (destruct T2; cbn; [done|lia]).
      split; [lia|]. split; [lia|]. split; [done|]. split.
      { apply bool_decide_eq_false. set_solver. }
      right. split; [lia|]. split; [by rewrite <- H1|]. exists v. split; [done|].
      by rewrite filter_cons_True, filter_cons_False by naive_solver.
    + intros [H1 H2 H3 H4 H5]. rewrite H4, H5.
      cbn in H1, H3. fold (dirty_starts spaces) in H1, H3. rewrite H1, Nat2Z.id, firstn_all.
      split; [lia|]. split; [lia|]. split; [done|]. split; [by apply bool_decide_eq_false; set_solver|].
      left. by rewrite filter_cons_False by naive_solver.
Qed.
End GetDirtyTheorem.

(** ** GET_VA_RANGES *)

Definition managed_ranges (spaces : list va_space) : list va_range :=
  mjoin ((fun v => filter (fun r => is_managed r = true) (vs_ranges v)) <$> spaces).
Definition range_size (r : va_range) : Z := u64 (vr_end r - vr_start r + 1).

Section GetRanges.
Context `{E : Env} (max : Z).
Hypothesis Hmax : 0 <= max.

Definition collected (LS : list lock) (D : list va_range) (acc : list Z * list Z) (s : kst)
    : Prop :=
  acc = (vr_start <$> D, range_size <$> D) /\ Z.of_nat (length D) <= max /\
  k_locks s = LS /\ k_lock_bug s = false.
Definition buffer_full (LS : list lock) (D : list va_range) (st : nv_status)
    (acc : list Z * list Z) (s : kst) : Prop :=
  st = NV_ERR_BUFFER_TOO_SMALL /\ Z.of_nat (length D) = max /\ collected LS D acc s.

Lemma collect_range_spec LS r D acc s :
  collected LS D acc s ->
  wp (collect_range max acc r)
    (collect_post (collected LS) (buffer_full LS) D
       (filter (fun r => is_managed r = true) [r])) s.
Proof.
  intros Hc. pose proof Hc as (-> & Hl & Hs). unfold collect_range, collect_post.
  destruct (is_managed r) eqn:Hr; cbn [negb];
    [rewrite filter_cons_True, filter_nil by done|rewrite filter_cons_False by congruence].
  2:{ apply wp_ret; cbn. by rewrite app_nil_r. }
  rewrite length_fmap. apply wp_if; intros Hm; btest; apply wp_ret; cbn.
  - exists [], [r]. rewrite app_nil_r. split; [done|]. split; [done|]. split; [done|].
    split; [lia|done].
  - unfold collected. rewrite !fmap_app, length_app; cbn. split; [done|]. split; [lia|done].
Qed.

Lemma collect_space_spec v D acc s :
  collected [LVaSpaces] D acc s ->
  wp (collect_space max acc v)
    (collect_post (collected [LVaSpaces]) (buffer_full [LVaSpaces]) D
       (filter (fun r => is_managed r = true) (vs_ranges v))) s.
Proof.
  intros (-> & Hl & Hs & Hb). unfold collect_space. apply wp_bind, wp_mod, wp_bind.
  set (LS := [LSpaceRead (vs_id v); LVaSpaces]).
  assert (forall rs, mjoin ((fun r => filter (fun r => is_managed r = true) [r]) <$> rs)
                = filter (fun r => is_managed r = true) rs) as Hj.
  { induction rs as [|r rs IH]; [done|].
    etransitivity; [apply (f_equal (app _) IH)|]. symmetry. apply (list.filter_app _ [r] rs). }
  assert (forall acc D s, collected LS D acc s ->
    collected [LVaSpaces] D acc (snd (lock_release (LSpaceRead (vs_id v)) s))) as Hrel.
  { intros acc1 D1 s1 (-> & Hl1 & Hs1 & Hb1). split; [done|]. split; [done|].
    apply (lock_rel (LSpaceRead (vs_id v)) [LVaSpaces]); [set_solver|done|done]. }
  eapply wp_mono; [apply (wp_kfold_collect (collected LS) (buffer_full LS)) with (D := D)|].
  - intros r D1 acc1 s1 _. apply collect_range_spec.
  - repeat split; cbn; [done|by rewrite Hs|]. rewrite Hs, Hb. apply bool_decide_eq_false. set_solver.
  - rewrite Hj. intros [[st|] acc1] s1; unfold collect_post; cbn [fst snd]; intros H;
      apply wp_bind, wp_mod, wp_ret; cbn [fst snd].
    + destruct H as (D1 & T2 & ? & ? & ? & ? & Hc). exists D1, T2.
      split; [done|]. split; [done|]. split; [done|]. split; [done|]. by apply Hrel.
    + by apply Hrel.
Qed.
End GetRanges.

Section GetRangesTheorem.
Context `{E : Env}.

Lemma get_va_ranges_lock b r max spaces :
  LockSpec [] (uvm_api_live_migration_get_va_ranges b r max spaces) [].
Proof.
  unfold uvm_api_live_migration_get_va_ranges, collect_space, collect_range. locks.
Qed.

Lemma get_va_ranges_live b r max spaces :
  LiveSpec (uvm_api_live_migration_get_va_ranges b r max spaces) (fun _ => 0).
Proof.
  assert (forall acc v, LiveSpec (collect_space max acc v) (fun _ => 0)) as Hc.
  { intros. unfold collect_space, collect_range. live. }
  assert (forall (c : bool) bs cs, LiveSpec
    (if c then f1 ← copy_to_user b bs; if f1 then kret true else copy_to_user r cs
     else kret false) (fun _ => 0)) as Hf by live.
  unfold uvm_api_live_migration_get_va_ranges. do 2 (apply live_if; [by apply live_ret|]).
  eapply live_bind; [apply live_kvmalloc_array|intros []];
    (eapply live_bind; [apply live_kvmalloc_array|intros []]); cbn [negb orb]; live.
Qed.

(** The two copies out: both arrays, unless one copy faults. *)
Lemma copy_out_spec b r bs cs s :
  wp (f1 ← copy_to_user b bs; if f1 then kret true else copy_to_user r cs)
    (fun fault s' => fault = false -> mem_holds (k_user s') r cs /\
       (disjoint_iv b (Z.of_nat (length bs)) r (Z.of_nat (length cs)) ->
        mem_holds (k_user s') b bs)) s.
Proof.
  apply wp_bind, wp_copy_to_user; [|by intros; apply wp_ret].
  intros t. apply wp_copy_to_user; [|done]. intros t' _; cbn.
  split; [apply mem_write_holds|]. intros Hd.
  apply mem_holds_write_disjoint; [done|apply mem_write_holds].
Qed.

Definition ranges_result (base_addrs range_sizes max : Z) (spaces : list va_space)
    (r : nv_status * option Z) (s' : kst) : Prop :=
  let all := managed_ranges spaces in
  let n := Nat.min (length all) (Z.to_nat max) in
  fst r = NV_OK \/ fst r = NV_ERR_BUFFER_TOO_SMALL ->
  snd r = Some (Z.of_nat n) /\
  (fst r = NV_OK <-> Z.of_nat (length all) <= max) /\
  mem_holds (k_user s') range_sizes (le_u64s (range_size <$> take n all)) /\
  (disjoint_iv base_addrs (8 * Z.of_nat n) range_sizes (8 * Z.of_nat n) ->
   mem_holds (k_user s') base_addrs (le_u64s (vr_start <$> take n all))).

(** The walk collects the first ranges, all of them unless the buffer is full. *)
Lemma collect_all_spec max spaces s :
  0 <= max -> k_locks s = [LVaSpaces] -> k_lock_bug s = false ->
  wp (kfold (collect_space max) ([], []) spaces) (fun r _ =>
    let ex := fst r in
    exists D T, managed_ranges spaces = D ++ T /\ snd r = (vr_start <$> D, range_size <$> D) /\
      (ex = None /\ T = [] /\ Z.of_nat (length D) <= max \/
       ex = Some NV_ERR_BUFFER_TOO_SMALL /\ T <> [] /\ Z.of_nat (length D) = max)) s.
Proof.
  intros Hm Hl Hb. eapply wp_mono; [apply (wp_kfold_collect (collected max [LVaSpaces])
    (buffer_full max [LVaSpaces]) _ (fun v => filter (fun r => is_managed r = true) (vs_ranges v)))
    with (D := [])|].
  - intros v D acc s3 _. by apply collect_space_spec.
  - split; [done|]. split; [cbn; lia|]. by rewrite Hl, Hb.
  - fold (managed_ranges spaces). intros [[st|] acc] s3 H3; unfold collect_post in H3; cbn in H3.
    + destruct H3 as (D1 & T2 & ? & ? & -> & ? & ? & ?). exists D1, T2. split; [done|]. split; [done|]. by right.
    + destruct H3 as (? & ? & _). exists (managed_ranges spaces), [].
      rewrite app_nil_r. split; [done|]. split; [done|]. by left.
Qed.

(** Once collected, what the copies make of it. *)
Lemma ranges_result_of base_addrs range_sizes max spaces D T st (fault : bool) s' :
  managed_ranges spaces = D ++ T ->
  st = NV_OK /\ T = [] /\ Z.of_nat (length D) <= max \/
  st = NV_ERR_BUFFER_TOO_SMALL /\ T <> [] /\ Z.of_nat (length D) = max ->
  (fault = false -> mem_holds (k_user s') range_sizes (le_u64s (range_size <$> D)) /\
     (disjoint_iv base_addrs (8 * Z.of_nat (length D)) range_sizes (8 * Z.of_nat (length D)) ->
      mem_holds (k_user s') base_addrs (le_u64s (vr_start <$> D)))) ->
  ranges_result base_addrs range_sizes max spaces
    (if fault then NV_ERR_INVALID_ARGUMENT else st, Some (Z.of_nat (length (vr_start <$> D)))) s'.
Proof.
  intros HD Hex Hf. unfold ranges_result; cbn [fst snd].
  assert (Nat.min (length (managed_ranges spaces)) (Z.to_nat max) = length D) as ->.
  { rewrite HD, length_app. destruct Hex as [(_ & -> & ?)|(_ & ? & ?)]; cbn; lia. }
  rewrite HD, length_fmap, take_app_length. intros Hst.
  destruct fault; [by destruct Hst|]. destruct (Hf eq_refl) as [Hs Hd].
  split; [done|]. split; [|by split].
  rewrite length_app. destruct Hex as [(-> & -> & ?)|(-> & ? & ?)]; cbn.
  + split; [lia|done].
  + split; [done|]. destruct T; [done|cbn; lia].
Qed.

(** C7: GET_VA_RANGES releases its locks and allocations on every path; when it
    returns OK or BUFFER_TOO_SMALL it has written the sizes and, for disjoint
    arrays, the base addresses of the first managed ranges up to the capacity,
    with their number, and OK exactly when all fit. *)
Theorem get_va_ranges_correct base_addrs range_sizes max spaces s :
  0 <= max -> k_locks s = [] -> k_lock_bug s = false ->
  let '(r, s') := uvm_api_live_migration_get_va_ranges base_addrs range_sizes max spaces s in
  k_locks s' = [] /\ k_lock_bug s' = false /\ k_live s' = k_live s /\
  (env_capable = false -> r = (NV_ERR_INSUFFICIENT_PERMISSIONS, None)) /\
  ranges_result base_addrs range_sizes max spaces r s'.
Proof.
  intros Hm Hl Hb.
  destruct (get_va_ranges_lock base_addrs range_sizes max spaces s Hl Hb) as [HL HB].
  pose proof (get_va_ranges_live base_addrs range_sizes max spaces s) as HV.
  enough (wp (uvm_api_live_migration_get_va_ranges base_addrs range_sizes max spaces)
    (fun r s' => (env_capable = false -> r = (NV_ERR_INSUFFICIENT_PERMISSIONS, None)) /\
                 ranges_result base_addrs range_sizes max spaces r s') s) as H.
  { unfold wp in H. destruct (uvm_api_live_migration_get_va_ranges _ _ _ _ _) as [r s'].
    cbn in *. destruct H. split; [done|]. split; [done|]. split; [lia|done]. }
  unfold uvm_api_live_migration_get_va_ranges.
  apply wp_if; intros Hc; bprop; [apply wp_ret; split; [done|]; intros [|]; done|].
  rewrite Hc. apply wp_if; intros Ha; [apply wp_ret; split; [done|]; intros [|]; done|].
  clear HL HB HV.
  apply wp_bind. eapply wp_lock; [apply lock_kvmalloc_array|done..|]. intros p1 s1 Hl1 Hb1.
  apply wp_bind. eapply wp_lock; [apply lock_kvmalloc_array|done..|]. intros p2 s2 Hl2 Hb2.
  apply wp_if; intros Hp.
  { apply wp_bind, wp_any; intros [] ?. apply wp_bind, wp_any; intros [] ?.
    apply wp_ret. split; [done|]; intros [|]; done. }
  apply wp_bind, wp_mod, wp_bind. eapply wp_mono; [apply (collect_all_spec max); [done|..]; cbn|].
  1, 2: rewrite ?Hl2, ?Hb2; by try rewrite bool_decide_eq_false_2 by set_solver.
  intros [ex acc] s3 (D & T & HD & Hacc & Hex); cbn [fst snd] in *; subst acc.
  assert (is_ok (loop_status ex) || bool_decide (loop_status ex = NV_ERR_BUFFER_TOO_SMALL)
          = true) as -> by by destruct Hex as [(-> & _)|(-> & _)].
  apply wp_bind, wp_mod, wp_bind. eapply wp_mono; [apply copy_out_spec|].
  intros fault s4 Hf. do 2 (apply wp_bind, wp_kfree; intros ?).
  apply wp_ret. split; [done|]. apply (ranges_result_of _ _ _ _ _ T); [done| |].
  - by destruct Hex as [(-> & ?)|(-> & ?)]; [left|right].
  - intros ->. destruct (Hf eq_refl) as [Hs Hd]. split; [done|].
    rewrite !length_le_u64s, !length_fmap in Hd. intros Hdis. apply Hd. unfold disjoint_iv in *; lia.
Qed.
End GetRangesTheorem.

(** ** FINALIZE *)

Record finalized (b b' : va_block) : Prop := {
  fz_tracking : vb_tracking b' = false;
  fz_dirty    : vb_dirty b' = false;
  fz_wf       : block_wf b';
  fz_pages    : same_pages (vb_set_migration false false b) b';
  fz_perm     : forall h q, prot_pages b h q ⊆ prot_pages b' h q;
}.

(** Every processor that has pages of the block can write, with atomics, to the
    pages it may be mapped to. *)
Definition restored (cfg : va_block -> perm_cfg) (b b' : va_block) : Prop :=
  let c := cfg (vb_set_migration false false b) in
  finalized b b' /\
  forall id res, id ∈ vb_resident b -> map_enabled c id = true ->
    res ∈ map_get_allowed_destinations c b id ->
    full_mask b ∩ uvm_va_block_resident_mask_get b res
    ⊆ prot_pages b' id UVM_PROT_READ_WRITE_ATOMIC.

Lemma finalized_start b : block_wf b -> finalized b (vb_set_migration false false b).
Proof. intros [Hwf Hid]. constructor; try done. split; [by apply perm_wf_set_migration|done]. Qed.

Section Finalize.
Context `{E : Env} (cfg : va_block -> perm_cfg).

Lemma finalize_map_spec b b1 r s :
  finalized b b1 ->
  wp (uvm_va_block_map_mask (cfg b1) b1 (vb_resident b1) r None UVM_PROT_READ_WRITE_ATOMIC)
    (fun '(st, b') _ => finalized b b' /\
       (st = NV_OK -> forall id res, id ∈ vb_resident b1 -> map_enabled (cfg b1) id = true ->
          res ∈ map_get_allowed_destinations (cfg b1) b1 id ->
          region_mask r ∩ uvm_va_block_resident_mask_get b1 res
          ⊆ prot_pages b' id UVM_PROT_READ_WRITE_ATOMIC)) s.
Proof.
  intros [H1 H2 [Hwf Hid] H4 H5].
  pose proof (uvm_va_block_map_mask_correct (cfg b1) b1 (vb_resident b1) r None
    UVM_PROT_READ_WRITE_ATOMIC s Hwf ltac:(done) Hid) as H.
  unfold wp. destruct (uvm_va_block_map_mask _ _ _ _ _ _ _) as [[st b'] s']; cbn in *.
  destruct H as (G1 & G2 & G3 & _ & G5). split; [|intros; by eapply G5].
  constructor.
  - by rewrite (sp_tracking _ _ G2).
  - by rewrite (sp_dirty _ _ G2).
  - split; [done|]. by rewrite (sp_resident _ _ G2).
  - by etransitivity.
  - intros h q. etransitivity; [apply H5|apply G3].
Qed.

Lemma finalize_block_spec b s :
  block_wf b ->
  wp (finalize_block cfg b) (fun r _ => fst r = None /\ finalized b (snd r)) s.
Proof.
  intros Hwf. unfold finalize_block. pose proof (finalized_start b Hwf) as H0.
  apply wp_if; intros Hr; [by apply wp_ret|].
  apply wp_bind. eapply wp_mono.
  - apply (wp_block_lock_retry (finalized b) (fun _ => True)); [done|].
    intros b1 s1 H1. eapply wp_mono; [by apply finalize_map_spec|].
    intros [st b2] s2 [? _]. done.
  - intros [st b'] s' [H1 _]. by apply wp_ret.
Qed.

Lemma finalize_range_spec r s :
  range_all block_wf r ->
  wp (finalize_range cfg r)
    (fun x _ => fst x = None /\ (snd x = r \/ range_rel finalized r (snd x))) s.
Proof.
  intros Hwf. unfold finalize_range. apply wp_if; intros Hm; bprop.
  { apply wp_ret. split; [done|]. by left. }
  apply wp_bind, wp_any; intros c s1. apply wp_if; intros _; [apply wp_ret; auto|].
  apply wp_bind. eapply wp_mono.
  - apply (each_block_spec (fun _ => False) (fun _ _ => True) finalized); [done|].
    intros b s2 Hb. eapply wp_mono; [apply finalize_block_spec|].
    + apply Hwf; [done|]. by apply elem_of_range_blocks.
    + intros [ex b'] s3 [Hex H]; cbn in *. subst ex. done.
  - intros [[st|] slots] s2 [_ H]; cbn in H; [done|].
    apply wp_bind, wp_any; intros [] s3. apply wp_ret; cbn. split; [done|right].
    unfold range_rel. rewrite Hm. eauto.
Qed.

Lemma finalize_space_spec v s :
  space_all block_wf v ->
  wp (finalize_space cfg v)
    (fun x _ => fst x = None /\ vs_id (snd x) = vs_id v /\ vs_tracking_active (snd x) = false /\
       Forall2 (fun r r' => r' = r \/ range_rel finalized r r') (vs_ranges v) (vs_ranges (snd x))) s.
Proof.
  intros Hwf. unfold finalize_space. apply wp_bind, wp_mod, wp_bind.
  eapply wp_mono; [apply (wp_keach_all (fun _ => False) (fun _ _ => True)
    (fun r r' => r' = r \/ range_rel finalized r r')); [done|]|].
  - intros r s1 Hr. eapply wp_mono; [by apply finalize_range_spec, Hwf|].
    intros [ex r'] s2 [Hex H]; cbn in *; subst ex. done.
  - intros [[st|] rs] s1 [_ H]; cbn in H; [done|]. apply wp_bind, wp_mod, wp_ret. done.
Qed.

Lemma finalize_lock spaces : LockSpec [] (uvm_api_live_migration_finalize cfg spaces) [].
Proof.
  unfold uvm_api_live_migration_finalize, finalize_space, finalize_range, finalize_block,
    each_block, block_lock_retry, uvm_va_block_context_alloc, uvm_va_block_context_free. locks.
Qed.

(** C8: FINALIZE in every environment: a caller without CAP_SYS_ADMIN gets
    INSUFFICIENT_PERMISSIONS and changes nothing; for any other it returns OK,
    releases its locks, clears the tracking flag of every VA space, and every
    managed range is either left exactly as it was (when its context could not be
    allocated) or has all its blocks untracked and clean with no permission lost. *)
Theorem finalize_correct spaces s :
  Forall (space_all block_wf) spaces -> k_locks s = [] -> k_lock_bug s = false ->
  let '((st, spaces'), s') := uvm_api_live_migration_finalize cfg spaces s in
  if env_capable
  then st = NV_OK /\ k_locks s' = [] /\ k_lock_bug s' = false /\
    Forall2 (fun v v' => vs_tracking_active v' = false /\
      Forall2 (fun r r' => r' = r \/ range_rel finalized r r') (vs_ranges v) (vs_ranges v'))
      spaces spaces'
  else st = NV_ERR_INSUFFICIENT_PERMISSIONS /\ spaces' = spaces /\ s' = s.
Proof.
  intros Hwf Hl Hb. destruct (finalize_lock spaces s Hl Hb) as [HL HB].
  destruct env_capable eqn:Hc; [|unfold uvm_api_live_migration_finalize; by rewrite Hc].
  enough (wp (uvm_api_live_migration_finalize cfg spaces) (fun '(st, spaces') _ => st = NV_OK /\
    Forall2 (fun v v' => vs_tracking_active v' = false /\
      Forall2 (fun r r' => r' = r \/ range_rel finalized r r') (vs_ranges v) (vs_ranges v'))
      spaces spaces') s) as H.
  { unfold wp in H. destruct (uvm_api_live_migration_finalize _ _ _) as [[st vs'] s'].
    cbn in *. by destruct H. }
  unfold uvm_api_live_migration_finalize. rewrite Hc. cbn [negb].
  apply wp_bind, wp_mod, wp_bind. rewrite list.Forall_forall in Hwf.
  eapply wp_mono; [apply (wp_keach_all (fun _ => False) (fun _ _ => True) (fun v v' =>
    vs_tracking_active v' = false /\ Forall2 (fun r r' => r' = r \/ range_rel finalized r r')
      (vs_ranges v) (vs_ranges v'))); [done|]|].
  - intros v s1 Hv. eapply wp_mono; [by apply finalize_space_spec, Hwf|].
    intros [ex v'] s2 (Hex & _ & H); cbn in *; subst ex. done.
  - intros [[st|] vs'] s1 [_ H]; cbn in H; [done|]. apply wp_bind, wp_mod, wp_ret. done.
Qed.
End Finalize.

Section FinalizeHealthy.
Context `{E : Env} {H : HealthyEnv E} (cfg : va_block -> perm_cfg).

Lemma finalize_block_restores b s :
  block_wf b ->
  wp (finalize_block cfg b) (fun r _ => fst r = None /\ restored cfg b (snd r)) s.
Proof.
  intros Hwf. unfold finalize_block, block_lock_retry. pose proof (finalized_start b Hwf) as H0.
  apply wp_if; intros Hr; bprop.
  { apply wp_ret. split; [done|]. split; [done|]. intros id res Hid. cbn in Hr. set_solver. }
  apply wp_bind, wp_bind, wp_mod, wp_bind, wp_retry_once; [apply map_mask_ok|].
  eapply wp_mono; [apply wp_and; [by apply finalize_map_spec|]|].
  { eapply (wp_succeeds _ (fun x _ => fst x = NV_OK)); [apply map_mask_ok|done]. }
  intros [st b'] s1 [[H1 H2] Hok]; cbn in Hok; subst st. do 4 hstep. split; [done|].
  split; [done|]. intros id res Hid Hen Hres. by apply (H2 eq_refl id res).
Qed.

Lemma finalize_range_restores r s :
  range_all block_wf r ->
  wp (finalize_range cfg r) (fun x _ => fst x = None /\ range_rel (restored cfg) r (snd x)) s.
Proof.
  intros Hwf. unfold finalize_range, uvm_va_block_context_alloc, range_rel.
  destruct (is_managed r) eqn:Hm; hsteps; try done.
  eapply wp_mono; [apply (each_block_spec (fun _ => False) (fun _ _ => True) (restored cfg)); [done|]|].
  - intros b s2 Hb. eapply wp_mono; [apply finalize_block_restores|].
    + apply Hwf; [done|]. by apply elem_of_range_blocks.
    + intros [ex b'] s3 [Hex Hb']; cbn in *. subst ex. done.
  - intros [[st|] slots] s2 [_ Hs]; cbn in Hs; [done|].
    apply wp_bind, wp_any; intros [] s3. apply wp_ret; cbn. eauto.
Qed.

(** C9: FINALIZE when nothing fails: every block is untracked and clean, and every
    processor with resident pages has read-write-atomic access again to each page
    it may be mapped to. *)
Theorem finalize_restores spaces s :
  env_capable = true -> Forall (space_all block_wf) spaces ->
  let '(st, spaces') := fst (uvm_api_live_migration_finalize cfg spaces s) in
  st = NV_OK /\
  Forall2 (fun v v' => vs_tracking_active v' = false /\
    Forall2 (range_rel (restored cfg)) (vs_ranges v) (vs_ranges v')) spaces spaces'.
Proof.
  intros Hc Hwf.
  enough (wp (uvm_api_live_migration_finalize cfg spaces) (fun '(st, spaces') _ => st = NV_OK /\
    Forall2 (fun v v' => vs_tracking_active v' = false /\
      Forall2 (range_rel (restored cfg)) (vs_ranges v) (vs_ranges v')) spaces spaces') s) as Hw.
  { unfold wp in Hw. by destruct (fst _). }
  unfold uvm_api_live_migration_finalize. rewrite Hc. cbn [negb].
  apply wp_bind, wp_mod, wp_bind. rewrite list.Forall_forall in Hwf.
  eapply wp_mono; [apply (wp_keach_all (fun _ => False) (fun _ _ => True) (fun v v' =>
    vs_tracking_active v' = false /\ Forall2 (range_rel (restored cfg)) (vs_ranges v) (vs_ranges v')));
    [done|]|].
  - intros v s1 Hv. unfold finalize_space. apply wp_bind, wp_mod, wp_bind.
    eapply wp_mono; [apply (wp_keach_all (fun _ => False) (fun _ _ => True)
      (range_rel (restored cfg))); [done|]|].
    + intros r s2 Hr. eapply wp_mono; [apply finalize_range_restores; by apply (Hwf v Hv)|].
      intros [ex r'] s3 [Hex Hr']; cbn in *; subst ex. done.
    + intros [[st|] rs] s2 [_ Hs]; cbn in Hs; [done|]. apply wp_bind, wp_mod, wp_ret. done.
  - intros [[st|] vs'] s1 [_ Hs]; cbn in Hs; [done|]. apply wp_bind, wp_mod, wp_ret. done.
Qed.
End FinalizeHealthy.
