(* ===== verification/Accessors.v ===== *)
(** The mappings a serviced page gets on other processors
    ([uvm_va_block_add_mappings_after_migration] of [uvm_va_block.c], step 4 of
    [uvm_va_block_service_finish]): the processors of SetAccessedBy, those a page
    thrashes between, and the UVM-Lite GPUs of the preferred location.

    Also the configuration servicing reads, and what a block keeps while
    processors are mapped to it ([serviced], [grows_by]). *)
From S2P Require Import Prelude Kernel VaBlock Permissions Tracking.

Inductive read_duplication :=
| UVM_READ_DUPLICATION_UNSET | UVM_READ_DUPLICATION_ENABLED | UVM_READ_DUPLICATION_DISABLED.

#[export] Instance read_duplication_eq_dec : EqDecision read_duplication.
Proof. solve_decision. Defined.

(** The state of the VA space, of the range and of the policy that servicing
    consults.  Access types are the driver's codes: [sv_access_prot] is the
    external [uvm_fault_access_type_to_prot].  Policies, range groups and the
    thrashing detection are external too: [sv_preferred_equal] is
    [uvm_va_policy_preferred_location_equal] for the node of the copy,
    [sv_unmigratable] the pages of the block that [uvm_range_group_*] finds in a
    group that may not migrate, [sv_thrashing_processors] the answer of
    [uvm_perf_thrashing_get_thrashing_processors] at an address. *)
Record service_cfg := mk_service_cfg {
  sv_perm           : perm_cfg;
  sv_access_prot    : Z -> uvm_prot;
  sv_atomic_strong  : Z;             (* UVM_FAULT_ACCESS_TYPE_ATOMIC_STRONG *)
  sv_zombie         : bool;          (* uvm_va_range_is_managed_zombie *)
  sv_vm_read        : bool;          (* vma->vm_flags & VM_READ *)
  sv_vm_write       : bool;          (* vma->vm_flags & VM_WRITE *)
  sv_can_read_dup   : bool;          (* uvm_va_space_can_read_duplicate *)
  sv_read_dup       : read_duplication;
  sv_dup_pages      : gset Z;        (* read_duplicated_pages *)
  sv_native_atomics : Z -> gset Z;   (* has_native_atomics[id] *)
  sv_faultable      : gset Z;        (* faultable_processors *)
  sv_sys_atomics    : gset Z;        (* system_wide_atomics_enabled_processors *)
  sv_access_counters : bool;         (* operation == ACCESS_COUNTERS *)
  sv_accessed_by    : gset Z;        (* policy->accessed_by *)
  sv_accessible_from : Z -> gset Z;  (* va_space->accessible_from[id] *)
  sv_preferred_equal : Z -> bool;
  sv_unmigratable   : gset Z;
  sv_thrashing_processors : Z -> gset Z;
  sv_tools          : bool;          (* va_space->tools.enabled *)
  sv_pins           : option (gset Z);
    (* thrashing_pin_mask when thrashing_pin_count > 0 *)
}.

(** Processor ids are not negative. *)
Record processors_ok (cfg : service_cfg) : Prop := {
  po_faultable   : forall id, id ∈ sv_faultable cfg -> 0 <= id;
  po_accessed_by : forall id, id ∈ sv_accessed_by cfg -> 0 <= id;
  po_thrashing   : forall addr id, id ∈ sv_thrashing_processors cfg addr -> 0 <= id;
}.

(** [UVM_ID_*] processors that step 4 may map to pages at [new_residency]. *)
Definition maps_later (cfg : service_cfg) (new_residency : Z) (id : Z) : Prop :=
  (id ∈ sv_accessed_by cfg \/ exists addr, id ∈ sv_thrashing_processors cfg addr) /\
  id ∈ sv_accessible_from cfg new_residency.

(** ** The code *)

Section Accessors.
Context `{E : Env}.

Definition map_after (cfg : service_cfg) (r : region) (mask : gset Z) (prot : Z -> uvm_prot) (b : va_block)
    (id : Z) : K (option nv_status * va_block) :=
  '(st, b) ← uvm_va_block_map (sv_perm cfg) b id r (Some mask) (prot id);
  kret (leave_on_error st, b).

(** The status of a failed mapping is lost: the function ends with
    [return NV_OK]. *)
Definition do_block_add_mappings_after_migration (cfg : service_cfg) (b : va_block)
    (new_residency processor_id : Z) (map_processors : gset Z) (r : region) (map_page_mask : gset Z)
    (max_prot : uvm_prot) : K (nv_status * va_block) :=
  m ← kmalloc;                               (* map_processors_local *)
  if negb m then kret (NV_ERR_NO_MEMORY, b)
  else
    let native := sv_native_atomics cfg new_residency in
    let atomic := bool_decide (max_prot = UVM_PROT_READ_WRITE_ATOMIC) in
    let caller_native := bool_decide (processor_id ∈ native) in
    '(ex, b) ←
      (if atomic && caller_native
       then kfold (map_after cfg r map_page_mask (fun _ => UVM_PROT_READ_WRITE_ATOMIC)) b
              (ids_in_mask (map_processors ∩ native))
       else kret (None, b));
    let map_processors_local := if atomic && caller_native then map_processors ∖ native else map_processors in
    let new_map_prot :=
      if atomic then
        if caller_native || (processor_id =? UVM_ID_CPU) then UVM_PROT_READ_WRITE else UVM_PROT_READ_ONLY
      else max_prot in
    let final_map_prot id :=
      if bool_decide (new_map_prot = UVM_PROT_READ_WRITE) && negb (bool_decide (id ∈ sv_sys_atomics cfg))
      then UVM_PROT_READ_WRITE_ATOMIC else new_map_prot in
    '(_, b) ←
      match ex with
      | Some st => kret (Some st, b)         (* goto out *)
      | None => kfold (map_after cfg r map_page_mask final_map_prot) b (ids_in_mask map_processors_local)
      end;
    kfree m;;
    kret (NV_OK, b).

(** The processors to map, but for the UVM-Lite GPUs treated apart. *)
Definition map_other_processors (cfg : service_cfg) (new_residency processor_id : Z)
    (thrashing_processors : gset Z) : gset Z :=
  let ids := (sv_accessed_by cfg ∪ thrashing_processors) ∩ sv_accessible_from cfg new_residency in
  let ids := ids ∖ {[processor_id]} in
  match pc_preferred (sv_perm cfg) with
  | Some preferred_location =>
      if negb (new_residency =? preferred_location) &&
         bool_decide (preferred_location ∈ pc_has_memory (sv_perm cfg))
      then ids ∖ {[preferred_location]} else ids
  | None => ids
  end.

(** The mappings proper, once both masks are allocated. *)
Definition add_mappings (cfg : service_cfg) (b : va_block) (new_residency processor_id : Z) (r : region)
    (map_page_mask : gset Z) (max_prot : uvm_prot) (thrashing_processors : gset Z)
    : K (nv_status * va_block) :=
  if pc_read_dup (sv_perm cfg) then kret (NV_OK, b)
  else
    let final_page_mask :=
      if bool_decide (sv_read_dup cfg = UVM_READ_DUPLICATION_UNSET)
      then map_page_mask ∖ sv_dup_pages cfg else map_page_mask in
    let others := map_other_processors cfg new_residency processor_id thrashing_processors in
    let lite := others ∩ pc_lite_gpus (sv_perm cfg) in
    '(ex, b) ←
      (if negb (bool_decide (lite = ∅)) && sv_preferred_equal cfg new_residency
       then kfold (map_after cfg r final_page_mask (fun _ => UVM_PROT_READ_WRITE_ATOMIC)) b (ids_in_mask lite)
       else kret (None, b));
    match ex with
    | Some st => kret (st, b)
    | None =>
        let others := others ∖ pc_lite_gpus (sv_perm cfg) in
        let cpu_apart := bool_decide (UVM_ID_CPU ∈ others) &&
                         negb (bool_decide (region_mask r ∩ sv_unmigratable cfg = ∅)) in
        let migratable_mask := (region_mask r ∖ sv_unmigratable cfg) ∩ final_page_mask in
        '(st, b) ←
          (if cpu_apart && negb (bool_decide (migratable_mask = ∅))
           then do_block_add_mappings_after_migration cfg b new_residency processor_id {[UVM_ID_CPU]} r
                  migratable_mask max_prot
           else kret (NV_OK, b));
        if negb (is_ok st) then kret (st, b)
        else
          let others := if cpu_apart then others ∖ {[UVM_ID_CPU]} else others in
          do_block_add_mappings_after_migration cfg b new_residency processor_id others r final_page_mask max_prot
    end.

Definition uvm_va_block_add_mappings_after_migration (cfg : service_cfg) (b : va_block)
    (new_residency processor_id : Z) (r : region) (map_page_mask : gset Z) (max_prot : uvm_prot)
    (thrashing_processors : gset Z) : K (nv_status * va_block) :=
  m1 ← kmalloc;                              (* map_other_processors *)
  '(status, b) ←
    (if negb m1 then kret (NV_ERR_NO_MEMORY, b)
     else
       m2 ← kmalloc;                         (* map_uvm_lite_gpus *)
       if negb m2 then kret (NV_ERR_NO_MEMORY, b)
       else
         '(status, b) ← add_mappings cfg b new_residency processor_id r map_page_mask max_prot
                          thrashing_processors;
         kfree m2;;
         kret (status, b));
  tracker_status ← ext_status;               (* uvm_tracker_add_tracker_safe *)
  kfree m1;;
  kret (if is_ok status then tracker_status else status, b).
End Accessors.

(** ** What a block keeps *)

(** What the revocations and mappings for processor [p] keep: the block's bounds,
    its flags, and the permissions of the other GPUs, which only shrink except
    on the processors [M]. *)
Record serviced (M : Z -> Prop) (p : Z) (b b' : va_block) : Prop := {
  sd_tracking : vb_tracking b' = vb_tracking b;
  sd_dirty    : vb_dirty b' = vb_dirty b;
  sd_wf       : perm_wf b -> perm_wf b';
  sd_others   : forall g q, 0 < g -> g <> p -> ~ M g -> prot_pages b' g q ⊆ prot_pages b g q;
  sd_start    : vb_start b' = vb_start b;
  sd_end      : vb_end b' = vb_end b;
  sd_full     : full_mask b' = full_mask b;
}.

#[export] Instance serviced_preorder M p : PreOrder (serviced M p).
Proof.
  split; [by constructor|]. intros b1 b2 b3 [] []. constructor; auto; try congruence.
  intros g q Hg Hp HM. etransitivity; [by apply sd_others1|by apply sd_others0].
Qed.

Lemma serviced_weaken (M M' : Z -> Prop) p b b' :
  (forall g, M g -> M' g) -> serviced M p b b' -> serviced M' p b b'.
Proof. intros HM []. constructor; auto. Qed.

Lemma serviced_none M p b b' : serviced (fun _ => False) p b b' -> serviced M p b b'.
Proof. by apply serviced_weaken. Qed.

(** Besides, the GPUs gain write access to the pages [W] at most, the UVM-Lite
    GPUs of [M] to those of [V] too. *)
Record grows_by (lite : gset Z) (M : Z -> Prop) (p : Z) (V W : gset Z) (b b' : va_block) : Prop := {
  gb_serviced : serviced M p b b';
  gb_write    : forall g page, 0 < g -> page ∈ prot_pages b' g UVM_PROT_READ_WRITE ->
    page ∈ prot_pages b g UVM_PROT_READ_WRITE \/ (g = p \/ M g) /\ page ∈ W \/
    g <> p /\ M g /\ g ∈ lite /\ page ∈ V;
}.

#[export] Instance grows_by_preorder lite M p V W : PreOrder (grows_by lite M p V W).
Proof.
  split; [split; [done|tauto]|]. intros b1 b2 b3 [H1 G1] [H2 G2]. split; [by etransitivity|].
  intros g page Hg Hp. destruct (G2 g page Hg Hp) as [Hp2|G]; auto.
Qed.

Lemma map_serviced M p id b b' prot P :
  id = p \/ M id -> map_effect b id prot P b' -> serviced M p b b'.
Proof.
  intros Hid [[Hsp Hwf] H2 H3 H4]. constructor; try apply Hsp; try done.
  - intros g q Hg Hp HM. rewrite H4; [done|]. intros ->. tauto.
  - by apply same_pages_full_mask.
Qed.

(** A mapping adds write access on its pages, to its processor. *)
Lemma map_grows lite M p V W id b b' prot P :
  id = p \/ M id ->
  (grants prot UVM_PROT_READ_WRITE = true ->
     P ⊆ W \/ id <> p /\ M id /\ id ∈ lite /\ P ⊆ V) ->
  map_effect b id prot P b' -> grows_by lite M p V W b b'.
Proof.
  intros Hid HP He. split; [by eapply map_serviced|]. intros g page Hg Hpage.
  destruct (decide (g = id)) as [->|Hne]; [|rewrite (me_other _ _ _ _ _ He) in Hpage by done; auto].
  apply (me_new _ _ _ _ _ He) in Hpage. destruct (grants prot UVM_PROT_READ_WRITE); [|set_solver].
  destruct (HP eq_refl) as [HW|(H1 & H2 & H3 & H4)].
  - clear - HW Hpage Hid. set_solver.
  - clear - H1 H2 H3 H4 Hpage. set_solver.
Qed.

(** ** The mappings of step 4 *)

Section Spec.
Context `{E : Env} (cfg : service_cfg) (nr p : Z).
Context (Hids : processors_ok cfg).
Context (r : region) (mask : gset Z) (max_prot : uvm_prot) (V W : gset Z).
Context (Hmax : max_prot <> UVM_PROT_NONE).
Context (HW : writable max_prot = true -> region_mask r ∩ mask ⊆ W) (HV : region_mask r ∩ mask ⊆ V).

Notation lite := (pc_lite_gpus (sv_perm cfg)).
Notation M := (maps_later cfg nr).
Notation grows := (grows_by lite M p V W).

Lemma maps_later_nonneg id : M id -> 0 <= id.
Proof using Hids. intros [[H|[addr H]] _]; [by apply (po_accessed_by _ Hids)|by apply (po_thrashing _ Hids addr)]. Qed.

Lemma map_after_spec m prot ids b s :
  (forall id, id ∈ ids -> M id /\ prot id <> UVM_PROT_NONE /\
     (writable (prot id) = true -> writable max_prot = true \/ id <> p /\ id ∈ lite)) ->
  m ⊆ mask ->
  wp (kfold (map_after cfg r m prot) b ids) (fun res _ => grows b res.2) s.
Proof using Hids HW HV Hmax.
  intros Hid Hm. apply (wp_kfold (fun b' _ => grows b b')); [|done].
  intros b1 id s1 Hin Hb1. destruct (Hid id Hin) as (HM & Hp & Hw). unfold map_after. apply wp_bind.
  eapply wp_mono; [apply uvm_va_block_map_spec; [by apply maps_later_nonneg|done]|].
  intros [st b2] s2 [He _]. apply wp_ret. etransitivity; [exact Hb1|].
  eapply map_grows; [right; exact HM| |exact He]. cbn. unfold grants.
  intros Hg. rewrite orb_false_r in Hg. destruct (Hw Hg) as [Hmx|[Hnp Hl]].
  - left. specialize (HW Hmx). set_solver.
  - right. split; [done|]. split; [done|]. split; [done|]. set_solver.
Qed.

Lemma do_block_spec ids m b s :
  (forall id, id ∈ ids -> M id) -> m ⊆ mask ->
  wp (do_block_add_mappings_after_migration cfg b nr p ids r m max_prot) (fun '(_, b') _ => grows b b') s.
Proof using Hids HW HV Hmax.
  intros Hid Hm. unfold do_block_add_mappings_after_migration.
  apply wp_bind, wp_any; intros k s1. apply wp_if; intros _; [by apply wp_ret|]. cbv zeta.
  set (atomic := bool_decide (max_prot = UVM_PROT_READ_WRITE_ATOMIC)).
  set (callern := bool_decide (p ∈ _)).
  assert (atomic = true -> writable max_prot = true) as Hat by (subst atomic; intros Ha; bprop; by subst).
  apply wp_bind. eapply (wp_mono _ (fun res _ => grows b res.2)).
  { destruct (atomic && callern) eqn:Hc; [|by apply wp_ret]. apply andb_true_iff in Hc as [Ha _].
    apply map_after_spec; [|done]. intros id Hin. apply elem_of_ids_in_mask in Hin.
    split; [apply Hid; clear - Hin; set_solver|]. auto. }
  intros [ex b1] s2 Hb1. cbn in Hb1.
  apply wp_bind. eapply (wp_mono _ (fun res _ => grows b res.2)).
  { destruct ex as [st|]; [by apply wp_ret|]. eapply wp_mono.
    - apply map_after_spec; [|done]. intros id Hin. apply elem_of_ids_in_mask in Hin.
      assert (id ∈ ids) as Hii by (clear - Hin; destruct (atomic && callern); set_solver).
      split; [by apply Hid|].
      set (new := if atomic then _ else max_prot).
      assert (new <> UVM_PROT_NONE /\ (writable new = true -> writable max_prot = true)) as [Hn1 Hn2].
      { subst new. destruct atomic; [|by split]. split; [by destruct (callern || _)|auto]. }
      clearbody new. destruct (bool_decide (new = UVM_PROT_READ_WRITE)) eqn:Hrw; cbn [andb].
      + bprop. rewrite Hrw in *. split; [by destruct (negb _)|]. left. by apply Hn2.
      + split; [done|]. left. by apply Hn2.
    - intros res s3 Hres. by etransitivity. }
  intros [ex' b2] s3 Hb2. by apply wp_bind, wp_any; intros [] s4; apply wp_ret.
Qed.

Context (thr : gset Z) (Hthr : forall id, id ∈ thr -> exists addr, id ∈ sv_thrashing_processors cfg addr).

Lemma map_other_processors_later id : id ∈ map_other_processors cfg nr p thr -> M id /\ id <> p.
Proof using Hthr.
  intros Hid. assert (id ∈ ((sv_accessed_by cfg ∪ thr) ∩ sv_accessible_from cfg nr) ∖ {[p]}) as H.
  { unfold map_other_processors in Hid. repeat case_match; clear - Hid; set_solver. }
  rewrite elem_of_difference, elem_of_intersection, elem_of_union, elem_of_singleton in H.
  destruct H as [[[Ha|Ht] Hacc] Hp]; (split; [split; [|done]|done]); auto.
Qed.

Lemma add_mappings_spec b s :
  wp (uvm_va_block_add_mappings_after_migration cfg b nr p r mask max_prot thr)
    (fun '(_, b') _ => grows b b') s.
Proof using All.
  unfold uvm_va_block_add_mappings_after_migration. apply wp_bind, wp_any; intros m1 s1. apply wp_bind.
  eapply (wp_mono _ (fun '(_, b') _ => grows b b')).
  2: { intros [st b'] s2 Hb. apply wp_bind, wp_any; intros tr s3. apply wp_bind, wp_any; intros [] s4. by apply wp_ret. }
  apply wp_if; intros _; [by apply wp_ret|]. apply wp_bind, wp_any; intros m2 s2.
  apply wp_if; intros _; [by apply wp_ret|]. apply wp_bind.
  eapply (wp_mono _ (fun '(_, b') _ => grows b b')).
  2: { intros [st b'] s3 Hb. by apply wp_bind, wp_any; intros [] s4; apply wp_ret. }
  unfold add_mappings. apply wp_if; intros _; [by apply wp_ret|]. cbv zeta.
  set (fm := if bool_decide _ then _ else mask).
  assert (fm ⊆ mask) as Hfm by (subst fm; clear; case_match; set_solver). clearbody fm.
  set (others := map_other_processors cfg nr p thr).
  pose proof map_other_processors_later as Hoth. fold others in Hoth. clearbody others.
  apply wp_bind. eapply (wp_mono _ (fun res _ => grows b res.2)).
  { apply wp_if; intros _; [|by apply wp_ret]. apply map_after_spec; [|done].
    intros id Hin. apply elem_of_ids_in_mask, elem_of_intersection in Hin as [Hin Hl].
    destruct (Hoth id Hin). auto. }
  intros [ex b1] s3 Hb1. destruct ex as [st|]; [by apply wp_ret|]. cbn in Hb1.
  set (cpu := bool_decide _ && _). apply wp_bind. eapply (wp_mono _ (fun '(_, b') _ => grows b b')).
  { apply wp_if; intros Hc; [|by apply wp_ret]. apply andb_true_iff in Hc as [Hc _].
    subst cpu. apply andb_true_iff in Hc as [Hc _]. bprop. eapply wp_mono.
    - apply do_block_spec; [|clear - Hfm; set_solver]. intros id ->%elem_of_singleton. apply Hoth.
      clear - Hc; set_solver.
    - intros [st b2] s4 H2. by etransitivity. }
  intros [st b2] s4 Hb2. apply wp_if; intros _; [by apply wp_ret|]. eapply wp_mono.
  - apply do_block_spec; [|done]. intros id Hin. apply Hoth. clear - Hin. destruct cpu; set_solver.
  - intros [st' b3] s5 H3. by etransitivity.
Qed.
End Spec.
