(* ===== verification/Service.v ===== *)
(** Fault servicing ([uvm_va_block_service_finish] of [uvm_va_block.c]): the
    permission each serviced page gets, the bulk 2MB write restore and the
    write-fault recording that dirty tracking adds, the revocations and the
    mappings of the faulting processor (steps 1 to 3), and those of other
    processors (step 4, with [Accessors]).

    The residency update before step 1 belongs to the data movement
    ([MigrationService.service_move]): the block given has its new residency.
    HMM blocks are not modelled: managed ranges have none. *)
From S2P Require Import Prelude Kernel VaBlock Permissions Tracking Accessors.

(** [mappings_by_prot[]]: a 32-bit count and a page mask per protection. *)
Record prot_mapping := mk_prot_mapping { pm_count : Z; pm_mask : gset Z }.

Record service_context := mk_service_context {
  sc_region         : region;
  sc_new_residency  : Z;             (* block_context->make_resident.dest_id *)
  sc_residency_mask : gset Z;        (* per_processor_masks[].new_residency *)
  sc_did_migrate    : gset Z;        (* make_resident.pages_changed_residency *)
  sc_access_type    : Z -> Z;
  sc_ro             : prot_mapping;
  sc_rw             : prot_mapping;
  sc_rwa            : prot_mapping;
}.

Definition sc_set_mappings (ro rw rwa : prot_mapping) (c : service_context) : service_context :=
  mk_service_context (sc_region c) (sc_new_residency c) (sc_residency_mask c) (sc_did_migrate c)
    (sc_access_type c) ro rw rwa.
Definition sc_set_access (page code : Z) (c : service_context) : service_context :=
  mk_service_context (sc_region c) (sc_new_residency c) (sc_residency_mask c) (sc_did_migrate c)
    (fun p => if p =? page then code else sc_access_type c p) (sc_ro c) (sc_rw c) (sc_rwa c).
Definition sc_set_region (r : region) (c : service_context) : service_context :=
  mk_service_context r (sc_new_residency c) (sc_residency_mask c) (sc_did_migrate c)
    (sc_access_type c) (sc_ro c) (sc_rw c) (sc_rwa c).

Definition sc_mapping (c : service_context) (p : uvm_prot) : prot_mapping :=
  match p with
  | UVM_PROT_READ_ONLY => sc_ro c
  | UVM_PROT_READ_WRITE => sc_rw c
  | UVM_PROT_READ_WRITE_ATOMIC => sc_rwa c
  | UVM_PROT_NONE => mk_prot_mapping 0 ∅      (* index -1: never used *)
  end.
Definition sc_set_mapping (p : uvm_prot) (m : prot_mapping) (c : service_context)
    : service_context :=
  match p with
  | UVM_PROT_READ_ONLY => sc_set_mappings m (sc_rw c) (sc_rwa c) c
  | UVM_PROT_READ_WRITE => sc_set_mappings (sc_ro c) m (sc_rwa c) c
  | UVM_PROT_READ_WRITE_ATOMIC => sc_set_mappings (sc_ro c) (sc_rw c) m c
  | UVM_PROT_NONE => c
  end.

Definition prot_rank (p : uvm_prot) : Z :=
  match p with
  | UVM_PROT_NONE => 0 | UVM_PROT_READ_ONLY => 1
  | UVM_PROT_READ_WRITE => 2 | UVM_PROT_READ_WRITE_ATOMIC => 3
  end.

(** ** Step 1: permissions *)

Definition compute_logical_prot (cfg : service_cfg) : uvm_prot :=
  if sv_zombie cfg then UVM_PROT_NONE
  else if negb (sv_vm_read cfg) then UVM_PROT_NONE
  else if negb (sv_vm_write cfg) then UVM_PROT_READ_ONLY
  else UVM_PROT_READ_WRITE_ATOMIC.

Definition block_region_might_read_duplicate (cfg : service_cfg) (pages : gset Z) : bool :=
  if negb (sv_can_read_dup cfg) then false
  else if bool_decide (sv_read_dup cfg = UVM_READ_DUPLICATION_DISABLED) then false
  else if bool_decide (sv_read_dup cfg = UVM_READ_DUPLICATION_UNSET) &&
          (Z.of_nat (size (sv_dup_pages cfg ∩ pages)) =? 0) then false
  else true.

Definition block_region_authorized_gpus (b : va_block) (pages : gset Z) (p : uvm_prot)
    : gset Z :=
  filter (fun g => UVM_ID_IS_GPU g &&
                   match uvm_va_block_gpu_state_get b g with
                   | Some gs => negb (bool_decide (gpu_pte_bits gs p ∩ pages = ∅))
                   | None => false
                   end = true) (vb_mapped b).

Definition block_region_authorized_processors (b : va_block) (pages : gset Z) (p : uvm_prot)
    : gset Z :=
  let gpus := block_region_authorized_gpus b pages p in
  let bits := if writable p then vb_cpu_pte_write b else vb_cpu_pte_read b in
  if bool_decide (UVM_ID_CPU ∈ vb_mapped b) && negb (bool_decide (bits ∩ pages = ∅))
  then gpus ∪ {[UVM_ID_CPU]} else gpus.

Definition compute_new_permission (cfg : service_cfg) (b : va_block) (page_index : Z)
    (fault_processor_id new_residency access_type : Z) : uvm_prot :=
  let new_prot := sv_access_prot cfg access_type in
  let logical_prot := compute_logical_prot cfg in
  let new_prot :=
    if (prot_rank UVM_PROT_READ_ONLY <? prot_rank logical_prot) &&
       bool_decide (new_prot = UVM_PROT_READ_ONLY) &&
       negb (block_region_might_read_duplicate cfg {[page_index]})
    then
      let revoke_processors :=
        block_region_authorized_processors b {[page_index]} UVM_PROT_READ_WRITE_ATOMIC
        ∖ sv_native_atomics cfg new_residency in
      let revoke_processors := revoke_processors ∩ sv_faultable cfg in
      if bool_decide (revoke_processors = ∅) then UVM_PROT_READ_WRITE else new_prot
    else new_prot in
  if bool_decide (logical_prot = UVM_PROT_READ_WRITE_ATOMIC) &&
     bool_decide (new_prot = UVM_PROT_READ_WRITE) &&
     bool_decide (fault_processor_id ∈ sv_native_atomics cfg new_residency)
  then UVM_PROT_READ_WRITE_ATOMIC else new_prot.

(** The counts are reset, the masks only on the first page of a protection. *)
Definition reset_counts (c : service_context) : service_context :=
  sc_set_mappings (mk_prot_mapping 0 (pm_mask (sc_ro c)))
    (mk_prot_mapping 0 (pm_mask (sc_rw c))) (mk_prot_mapping 0 (pm_mask (sc_rwa c))) c.

Definition add_page (m : prot_mapping) (page : Z) : prot_mapping :=
  let mask := if pm_count m =? 0 then ∅ else pm_mask m in
  mk_prot_mapping (u32 (pm_count m + 1)) (mask ∪ {[page]}).

Definition service_compute_mappings (cfg : service_cfg) (b : va_block) (processor_id : Z)
    (c : service_context) : service_context :=
  fold_left (fun c page =>
      let new_prot := compute_new_permission cfg b page processor_id (sc_new_residency c)
                        (sc_access_type c page) in
      sc_set_mapping new_prot (add_page (sc_mapping c new_prot) page) c)
    (pages_in_region_mask (sc_region c) (sc_residency_mask c)) (reset_counts c).

(** ** Bulk 2MB write restore *)

Definition move_to_rwa (cfg : service_cfg) (c : service_context) (pi : Z) : service_context :=
  let c := sc_set_mappings (sc_ro c)
             (mk_prot_mapping (u32 (pm_count (sc_rw c) - 1)) (pm_mask (sc_rw c) ∖ {[pi]}))
             (mk_prot_mapping (u32 (pm_count (sc_rwa c) + 1)) (pm_mask (sc_rwa c) ∪ {[pi]})) c in
  sc_set_access pi (sv_atomic_strong cfg) c.

Definition add_to_rwa (cfg : service_cfg) (c : service_context) (pi : Z) : service_context :=
  if bool_decide (pi ∈ pm_mask (sc_rwa c)) then c
  else
    let c := sc_set_mappings
               (mk_prot_mapping (pm_count (sc_ro c)) (pm_mask (sc_ro c) ∖ {[pi]})) (sc_rw c)
               (mk_prot_mapping (u32 (pm_count (sc_rwa c) + 1)) (pm_mask (sc_rwa c) ∪ {[pi]})) c in
    sc_set_access pi (sv_atomic_strong cfg) c.

Definition service_bulk_restore (cfg : service_cfg) (b : va_block) (processor_id : Z)
    (c : service_context) : service_context :=
  if vb_tracking b && UVM_ID_IS_GPU processor_id && (processor_id =? sc_new_residency c) then
    let full_region := uvm_va_block_region_from_block b in
    let gpu_resident := uvm_va_block_resident_mask_get b (sc_new_residency c) in
    let c := fold_left (move_to_rwa cfg)
               (pages_in_region_mask full_region (pm_mask (sc_rw c))) c in
    let c := fold_left (add_to_rwa cfg) (pages_in_region_mask full_region gpu_resident) c in
    sc_set_region full_region c
  else c.

(** ** Write-fault recording *)

Section Service.
Context `{E : Env}.

Definition record_fault_page (b : va_block) (page : Z) : K (option nv_status * va_block) :=
  '(_, ob) ← uvm_live_migration_record_write_fault (Some b)
               (u64 (vb_start b + page * PAGE_SIZE));
  kret (None, default b ob).

Definition service_record_write_faults (b : va_block) (processor_id : Z)
    (c : service_context) : K va_block :=
  if vb_tracking b && UVM_ID_IS_GPU processor_id then
    let write_fault_mask := pm_mask (sc_rw c) ∪ pm_mask (sc_rwa c) in
    '(_, b) ← kfold record_fault_page b
                (pages_in_region_mask (sc_region c) write_fault_mask);
    kret b
  else kret b.

(** ** Step 2: revocations *)

Definition service_revoke (cfg : service_cfg) (processor_id : Z) (c : service_context)
    (did_not_migrate : gset Z) (b : va_block) (new_prot : uvm_prot)
    : K (option nv_status * va_block) :=
  if pm_count (sc_mapping c new_prot) =? 0 then kret (None, b)
  else
    let revocation_mask := did_not_migrate ∩ pm_mask (sc_mapping c new_prot) in
    if bool_decide (revocation_mask = ∅) then kret (None, b)
    else
      let revoke_processors := (vb_mapped b ∩ sv_faultable cfg) ∖ {[processor_id]} in
      let has_enabled_atomics := bool_decide (processor_id ∈ sv_sys_atomics cfg) in
      let native := sv_native_atomics cfg (sc_new_residency c) in
      let revoke_processors :=
        if bool_decide (new_prot = UVM_PROT_READ_WRITE) || negb has_enabled_atomics ||
           bool_decide (processor_id ∈ native)
        then (revoke_processors ∖ native) ∩ sv_sys_atomics cfg
        else revoke_processors in
      let revoke_prot :=
        if processor_id =? UVM_ID_CPU then UVM_PROT_READ_WRITE_ATOMIC
        else if bool_decide (new_prot = UVM_PROT_READ_WRITE_ATOMIC)
        then UVM_PROT_READ_WRITE else UVM_PROT_READ_WRITE_ATOMIC in
      let revoke_processors := revoke_processors ∖ pc_lite_gpus (sv_perm cfg) in
      if bool_decide (revoke_processors = ∅) then kret (None, b)
      else
        '(st, b) ← uvm_va_block_revoke_prot_mask (sv_perm cfg) b revoke_processors
                     (sc_region c) (Some revocation_mask) revoke_prot;
        kret (leave_on_error st, b).

(** ** Step 3: mapping the faulting processor *)

(** Step 3 tells thrashing pages apart only for the tools. *)
Definition sv_thrashing (cfg : service_cfg) : option (gset Z) :=
  if sv_tools cfg then sv_pins cfg else None.

Definition service_map (cfg : service_cfg) (processor_id : Z) (c : service_context)
    (b : va_block) (new_prot : uvm_prot) : K (option nv_status * va_block) :=
  let map_prot_mask := pm_mask (sc_mapping c new_prot) in
  if pm_count (sc_mapping c new_prot) =? 0 then kret (None, b)
  else
    let b := if negb (sv_access_counters cfg) && (processor_id =? UVM_ID_CPU)
             then block_unmap_cpu b (sc_region c) (Some map_prot_mask) else b in
    '(st, b, rest) ←
      match sv_thrashing cfg with
      | Some pins =>
          let helper := map_prot_mask ∩ pins in
          if bool_decide (helper = ∅) then kret (NV_OK, b, Some map_prot_mask)
          else
            '(st, b) ← uvm_va_block_map (sv_perm cfg) b processor_id (sc_region c)
                         (Some helper) new_prot;
            let rest := map_prot_mask ∖ pins in
            kret (st, b, if bool_decide (rest = ∅) then None else Some rest)
      | None => kret (NV_OK, b, Some map_prot_mask)
      end;
    if negb (is_ok st) then kret (Some st, b)
    else
      match rest with
      | None => kret (None, b)               (* continue *)
      | Some mask =>
          '(st, b) ← uvm_va_block_map (sv_perm cfg) b processor_id (sc_region c)
                       (Some mask) new_prot;
          kret (leave_on_error st, b)
      end.

(** ** Step 4: mapping other processors *)

Definition map_thrashing_page (cfg : service_cfg) (processor_id : Z) (c : service_context)
    (caller_page_mask : gset Z) (new_prot : uvm_prot) (b : va_block) (pinned_page_index : Z)
    : K (option nv_status * va_block) :=
  if negb (bool_decide (pinned_page_index ∈ caller_page_mask)) then kret (None, b)
  else
    let page_addr := u64 (vb_start b + pinned_page_index * PAGE_SIZE) in
    '(st, b) ← uvm_va_block_add_mappings_after_migration cfg b (sc_new_residency c) processor_id
                 (mk_region pinned_page_index (pinned_page_index + 1)) caller_page_mask new_prot
                 (sv_thrashing_processors cfg page_addr);
    kret (leave_on_error st, b).

Definition service_map_others (cfg : service_cfg) (processor_id : Z) (c : service_context)
    (b : va_block) (new_prot : uvm_prot) : K (option nv_status * va_block) :=
  let caller_page_mask := sc_residency_mask c ∩ pm_mask (sc_mapping c new_prot) in
  if (pm_count (sc_mapping c new_prot) =? 0) || bool_decide (caller_page_mask = ∅) then kret (None, b)
  else
    '(ex, b) ←
      match sv_pins cfg with
      | Some pins => kfold (map_thrashing_page cfg processor_id c caller_page_mask new_prot) b
                       (pages_in_region_mask (sc_region c) pins)
      | None => kret (None, b)
      end;
    match ex with
    | Some st => kret (Some st, b)
    | None =>
        let rest := match sv_pins cfg with
                    | Some pins => caller_page_mask ∖ pins
                    | None => caller_page_mask
                    end in
        if bool_decide (rest = ∅) then kret (None, b)
        else
          '(st, b) ← uvm_va_block_add_mappings_after_migration cfg b (sc_new_residency c) processor_id
                       (sc_region c) rest new_prot ∅;
          kret (leave_on_error st, b)
    end.

(** The three permissions a page may be mapped with, in the order of the loops. *)
Definition mapped_prots : list uvm_prot :=
  [UVM_PROT_READ_ONLY; UVM_PROT_READ_WRITE; UVM_PROT_READ_WRITE_ATOMIC].

Definition uvm_va_block_service_finish (cfg : service_cfg) (processor_id : Z) (b : va_block)
    (c : service_context) : K (nv_status * va_block * service_context) :=
  let did_not_migrate := sc_residency_mask c ∖ sc_did_migrate c in
  m ← kmalloc;                               (* revoke_processors *)
  if negb m then kret (NV_ERR_NO_MEMORY, b, c)
  else
    let c := service_compute_mappings cfg b processor_id c in
    let c := service_bulk_restore cfg b processor_id c in
    b ← service_record_write_faults b processor_id c;
    '(ex, b) ← kfold (service_revoke cfg processor_id c did_not_migrate) b
                 [UVM_PROT_READ_WRITE; UVM_PROT_READ_WRITE_ATOMIC];
    kfree m;;
    match ex with
    | Some st => kret (st, b, c)
    | None =>
        '(ex, b) ← kfold (service_map cfg processor_id c) b mapped_prots;
        match ex with
        | Some st => kret (st, b, c)
        | None =>
            '(ex, b) ← kfold (service_map_others cfg processor_id c) b mapped_prots;
            kret (loop_status ex, b, c)
        end
    end.
End Service.

(** ** Soundness of dirty tracking *)

(** A tracked clean block gives no GPU of [G] write access to any page. *)
Definition quiet (G : gset Z) (b : va_block) : Prop :=
  vb_tracking b = true -> vb_dirty b = false ->
  forall g, g ∈ G -> 0 < g -> prot_pages b g UVM_PROT_READ_WRITE = ∅.

Section Sound.
Context `{E : Env}.

Lemma record_fault_page_spec b page s :
  vb_tracking b = true ->
  wp (record_fault_page b page)
    (fun r s' => r = (None, vb_set_migration true true b) /\
                 k_faults s' = u64 (k_faults s + 1)) s.
Proof.
  intros Ht. unfold record_fault_page, uvm_live_migration_record_write_fault. rewrite Ht.
  cbn. done.
Qed.

(** Recording: the block becomes dirty exactly when a page of the write masks
    is serviced, and nothing else changes. *)
Lemma record_loop_spec b pages s :
  vb_tracking b = true ->
  wp (kfold record_fault_page b pages)
    (fun r _ => snd r = if bool_decide (pages = []) then b else vb_set_migration true true b) s.
Proof.
  revert b s; induction pages as [|x l IH]; intros b s Ht; [done|]. cbn [kfold].
  apply wp_bind. eapply wp_mono; [by apply record_fault_page_spec|].
  intros [? ?] s' [[= -> ->] _]. eapply wp_mono; [by apply IH|].
  intros [ex b'] s''; cbn. intros ->. by destruct (bool_decide (l = [])).
Qed.

Lemma service_record_spec b p c s :
  wp (service_record_write_faults b p c)
    (fun b' _ => b' =
       if vb_tracking b && UVM_ID_IS_GPU p &&
          negb (bool_decide (pages_in_region_mask (sc_region c)
                               (pm_mask (sc_rw c) ∪ pm_mask (sc_rwa c)) = []))
       then vb_set_migration true true b else b) s.
Proof.
  unfold service_record_write_faults.
  destruct (vb_tracking b) eqn:Ht; [|by apply wp_ret].
  destruct (UVM_ID_IS_GPU p); [|by apply wp_ret]. cbn [andb].
  apply wp_bind. eapply wp_mono; [by apply record_loop_spec|].
  intros [ex b'] s'; cbn. intros ->. by destruct (bool_decide _).
Qed.

(** The pages of the region that get write permission. *)
Definition write_pages (c : service_context) : gset Z :=
  region_mask (sc_region c) ∩ (pm_mask (sc_rw c) ∪ pm_mask (sc_rwa c)).

(** The pages serviced: step 4 maps no others. *)
Definition serviced_pages (c : service_context) : gset Z :=
  region_mask (sc_region c) ∩ sc_residency_mask c.

Section Grows.
Context (lite : gset Z) (M : Z -> Prop) (p : Z) (V W : gset Z).
Notation grows := (grows_by lite M p V W).

(** Only the permissions of the GPUs matter, and these shrink. *)
Lemma shrinks_grows b b' :
  perm_step b b' -> vb_tracking b' = vb_tracking b -> vb_dirty b' = vb_dirty b ->
  (forall g q, 0 < g -> prot_pages b' g q ⊆ prot_pages b g q) -> grows b b'.
Proof.
  intros [Hsp Hwf] Ht Hd Hle. split; [constructor|]; try apply Hsp; try done; auto.
  - by apply same_pages_full_mask.
  - intros g page Hg Hpage. left. by apply (Hle g).
Qed.

Lemma revoke_grows P b b' : revoke_effect b P b' -> grows b b'.
Proof.
  intros H. pose proof (ps_pages _ _ (re_step _ _ _ H)) as Hsp.
  apply shrinks_grows; [apply H|apply Hsp|apply Hsp|].
  intros g q Hg. apply (re_le _ _ _ H). unfold UVM_ID_CPU. lia.
Qed.

Lemma service_revoke_spec cfg c nm b prot s :
  perm_wf b -> (forall id, id ∈ sv_faultable cfg -> 0 <= id) ->
  wp (service_revoke cfg p c nm b prot) (fun r _ => grows b (snd r)) s.
Proof.
  intros Hwf Hid. unfold service_revoke.
  apply wp_if; intros _; [by apply wp_ret|]. apply wp_if; intros _; [by apply wp_ret|].
  set (procs := _ ∖ pc_lite_gpus _). set (rp := if _ =? _ then _ else _).
  apply wp_if; intros _; [by apply wp_ret|]. apply wp_bind.
  assert (writable rp = true) as Hrp by (subst rp; by cases).
  assert (procs ⊆ sv_faultable cfg) as Hsub by (subst procs; cases; set_solver).
  clearbody rp procs.
  pose proof (uvm_va_block_revoke_prot_mask_correct (sv_perm cfg) b procs (sc_region c)
    (Some (nm ∩ pm_mask (sc_mapping c prot))) rp s Hwf Hrp ltac:(set_solver)) as Hr.
  unfold wp. destruct (uvm_va_block_revoke_prot_mask _ _ _ _ _ _ _) as [[st b'] s']; cbn in *.
  by eapply revoke_grows, Hr.
Qed.

Lemma unmap_cpu_grows b r m : perm_wf b -> grows b (block_unmap_cpu b r m).
Proof.
  intros Hwf. destruct (block_unmap_cpu_spec b r m Hwf) as (Hs & _ & _).
  pose proof (cs_pages _ _ Hs) as Hsp. apply shrinks_grows; [|apply Hsp|apply Hsp|].
  - split; [done|]. apply Hs.
  - intros g q Hg. unfold prot_pages, gpu_state_of. rewrite (cs_gpus _ _ Hs).
    by destruct (Z.eqb_spec g UVM_ID_CPU) as [->|].
Qed.

Lemma map_self_grows cfg c b mask prot s :
  0 <= p -> prot <> UVM_PROT_NONE -> mask ⊆ pm_mask (sc_mapping c prot) -> write_pages c ⊆ W ->
  wp (uvm_va_block_map cfg b p (sc_region c) (Some mask) prot) (fun '(_, b') _ => grows b b') s.
Proof.
  intros Hp Hprot Hm HW. eapply wp_mono; [by apply uvm_va_block_map_spec|].
  intros [st b'] s' [He _]. eapply map_grows; [by left| |exact He]. cbn. intros Hg. left.
  unfold write_pages in HW. destruct prot; cbn in *; try done; set_solver.
Qed.

Lemma service_map_spec cfg c b prot s :
  perm_wf b -> 0 <= p -> prot <> UVM_PROT_NONE -> write_pages c ⊆ W ->
  wp (service_map cfg p c b prot) (fun r _ => grows b (snd r)) s.
Proof.
  intros Hwf Hp Hprot HW. unfold service_map.
  apply wp_if; intros _; [by apply wp_ret|].
  set (b0 := if _ && _ then _ else b).
  assert (grows b b0) as H0.
  { subst b0. destruct (_ && _); [by apply unmap_cpu_grows|done]. }
  clearbody b0. apply wp_bind.
  eapply (wp_mono _ (fun '(st, b1, rest) _ => grows b b1 /\
    match rest with Some m => m ⊆ pm_mask (sc_mapping c prot) | None => True end)).
  - destruct (sv_thrashing cfg) as [pins|]; [|apply wp_ret; set_solver].
    apply wp_if; intros _; [apply wp_ret; set_solver|]. apply wp_bind.
    eapply wp_mono; [apply map_self_grows; [done..|clear; set_solver|done]|].
    intros [st b1] s1 H1. apply wp_ret. split; [by etransitivity|].
    destruct (bool_decide _); [done|set_solver].
  - intros [[st b1] rest] s1 [H1 Hr]. apply wp_if; intros _; [by apply wp_ret|].
    destruct rest as [mask|]; [|by apply wp_ret]. apply wp_bind.
    eapply wp_mono; [by apply map_self_grows|].
    intros [st' b2] s2 H2. apply wp_ret. by etransitivity.
Qed.
End Grows.

(** Step 4. *)
Section MapOthers.
Context (cfg : service_cfg) (p : Z) (c : service_context) (Hids : processors_ok cfg).
Context (V W : gset Z) (HV : serviced_pages c ⊆ V) (HW : write_pages c ⊆ W).
Notation grows := (grows_by (pc_lite_gpus (sv_perm cfg)) (maps_later cfg (sc_new_residency c)) p V W).

Lemma add_mappings_grows r mask thr b prot s :
  prot <> UVM_PROT_NONE -> mask ⊆ sc_residency_mask c ∩ pm_mask (sc_mapping c prot) ->
  region_mask r ⊆ region_mask (sc_region c) ->
  (forall id, id ∈ thr -> exists addr, id ∈ sv_thrashing_processors cfg addr) ->
  wp (uvm_va_block_add_mappings_after_migration cfg b (sc_new_residency c) p r mask prot thr)
    (fun '(_, b') _ => grows b b') s.
Proof using Hids HV HW.
  intros Hprot Hm Hr Hthr. apply (add_mappings_spec cfg _ p Hids r mask prot V W Hprot); [| |done].
  - intros Hw. unfold write_pages in HW. destruct prot; cbn in Hw, Hm; try done; set_solver.
  - unfold serviced_pages in HV. set_solver.
Qed.

Lemma service_map_others_spec b prot s :
  prot <> UVM_PROT_NONE ->
  wp (service_map_others cfg p c b prot) (fun r _ => grows b (snd r)) s.
Proof using Hids HV HW.
  intros Hprot. unfold service_map_others. cbv zeta. set (mask := _ ∩ _).
  apply wp_if; intros _; [by apply wp_ret|]. apply wp_bind.
  eapply (wp_mono _ (fun res _ => grows b res.2)).
  - destruct (sv_pins cfg) as [pins|]; [|by apply wp_ret].
    apply (wp_kfold (fun b' _ => grows b b')); [|done]. intros b1 page s1 Hin Hb1.
    unfold map_thrashing_page. cbv zeta. apply wp_if; intros _; [by apply wp_ret|]. apply wp_bind.
    eapply wp_mono; [apply add_mappings_grows; [done|done| |eauto]|].
    + apply elem_of_pages_in_region_mask in Hin as [Hin _]. intros x.
      rewrite !elem_of_region_mask. cbn. intros Hx. by replace x with page by lia.
    + intros [st b2] s2 Hb2. apply wp_ret. by etransitivity.
  - intros [ex b1] s1 Hb1. destruct ex as [st|]; [by apply wp_ret|].
    set (rest := match sv_pins cfg with Some _ => _ | None => _ end).
    assert (rest ⊆ mask) as Hrest by (subst rest; clear; case_match; set_solver). clearbody rest.
    apply wp_if; intros _; [by apply wp_ret|]. apply wp_bind.
    eapply wp_mono; [apply add_mappings_grows; [done|done|done|clear; set_solver]|].
    intros [st b2] s2 Hb2. apply wp_ret. by etransitivity.
Qed.
End MapOthers.

Lemma pages_in_region_mask_nil r m :
  pages_in_region_mask r m = [] <-> region_mask r ∩ m = ∅.
Proof.
  split.
  - intros H. apply set_eq; intros x. split; [|set_solver]. intros Hx.
    assert (x ∈ pages_in_region_mask r m) as Hin.
    { apply elem_of_pages_in_region_mask. rewrite <- elem_of_region_mask. set_solver. }
    rewrite H in Hin. set_solver.
  - intros H. destruct (pages_in_region_mask r m) as [|x l] eqn:Hl; [done|].
    assert (x ∈ pages_in_region_mask r m) as Hin by (rewrite Hl; left).
    apply elem_of_pages_in_region_mask in Hin. rewrite <- elem_of_region_mask in Hin. set_solver.
Qed.

Lemma mapped_prots_not_none prot : prot ∈ mapped_prots -> prot <> UVM_PROT_NONE.
Proof. unfold mapped_prots. set_solver. Qed.

(** The context [uvm_va_block_service_finish] maps from. *)
Definition finish_context (cfg : service_cfg) (p : Z) (b : va_block) (c : service_context) : service_context :=
  service_bulk_restore cfg b p (service_compute_mappings cfg b p c).

Lemma finish_context_frame cfg p b c :
  sc_new_residency (finish_context cfg p b c) = sc_new_residency c /\
  sc_residency_mask (finish_context cfg p b c) = sc_residency_mask c.
Proof.
  assert (forall f l c0, (forall c1 (x : Z), sc_new_residency (f c1 x) = sc_new_residency c1 /\
      sc_residency_mask (f c1 x) = sc_residency_mask c1) ->
    sc_new_residency (fold_left f l c0) = sc_new_residency c0 /\
    sc_residency_mask (fold_left f l c0) = sc_residency_mask c0) as Hfold.
  { intros f l. induction l as [|x l IH]; intros c0 Hf; [done|]. cbn [fold_left].
    destruct (Hf c0 x) as [<- <-]. by apply IH. }
  unfold finish_context, service_bulk_restore. case_match; cbn.
  - rewrite !(proj1 (Hfold (add_to_rwa cfg) _ _ ltac:(intros; unfold add_to_rwa; by case_match))),
      !(proj2 (Hfold (add_to_rwa cfg) _ _ ltac:(intros; unfold add_to_rwa; by case_match))),
      !(proj1 (Hfold (move_to_rwa cfg) _ _ ltac:(done))), !(proj2 (Hfold (move_to_rwa cfg) _ _ ltac:(done))).
    unfold service_compute_mappings. apply (Hfold _ _ (reset_counts c)).
    intros c1 x. cbv zeta. by destruct (compute_new_permission _ _ _ _ _ _).
  - unfold service_compute_mappings. apply (Hfold _ _ (reset_counts c)).
    intros c1 x. cbv zeta. by destruct (compute_new_permission _ _ _ _ _ _).
Qed.

(** What servicing may add, for a fault of [p]: write access to [write_pages], and
    to the UVM-Lite GPUs of step 4 on every serviced page. *)
Definition finish_grows (cfg : service_cfg) (p : Z) (b : va_block) (c : service_context)
    : va_block -> va_block -> Prop :=
  grows_by (pc_lite_gpus (sv_perm cfg)) (maps_later cfg (sc_new_residency c)) p
    (serviced_pages (finish_context cfg p b c)) (write_pages (finish_context cfg p b c)).

(** The block after servicing, whatever status it ends with. *)
Lemma service_finish_spec cfg p b c s :
  perm_wf b -> 0 <= p -> processors_ok cfg ->
  wp (uvm_va_block_service_finish cfg p b c)
    (fun '(st, b', c') _ => st = NV_ERR_NO_MEMORY /\ b' = b /\ c' = c \/
       c' = finish_context cfg p b c /\
       exists b1, finish_grows cfg p b c b1 b' /\
         b1 = if vb_tracking b && UVM_ID_IS_GPU p && negb (bool_decide (write_pages c' = ∅))
              then vb_set_migration true true b else b) s.
Proof.
  intros Hwf Hp Hids. unfold uvm_va_block_service_finish.
  apply wp_bind, wp_any; intros m s1. apply wp_if; intros _; [apply wp_ret; left; done|]. cbv zeta.
  destruct (finish_context_frame cfg p b c) as [Hnr _].
  unfold finish_grows. rewrite <- Hnr. fold (finish_context cfg p b c).
  set (c' := finish_context cfg p b c).
  apply wp_bind. eapply wp_mono; [apply service_record_spec|]. intros b1 s2 Hb1.
  rewrite (bool_decide_ext _ (write_pages c' = ∅)) in Hb1 by apply pages_in_region_mask_nil.
  assert (perm_wf b1) as Hwf1.
  { rewrite Hb1. destruct (_ && _); [by apply perm_wf_set_migration|done]. }
  set (grows := grows_by _ _ _ _ _).
  assert (PreOrder grows) as Hpre by apply grows_by_preorder.
  apply wp_bind. eapply wp_mono.
  { apply (wp_kfold (fun b' _ => grows b1 b')); [|reflexivity].
    intros b2 prot s3 _ H2. eapply wp_mono.
    - eapply (service_revoke_spec (pc_lite_gpus (sv_perm cfg)) (maps_later cfg (sc_new_residency c')) p
        (serviced_pages c') (write_pages c')); [by apply H2|apply Hids].
    - intros [ex b3] s4 H3. by etransitivity. }
  intros [ex b2] s3 H2. cbn in H2. apply wp_bind, wp_any; intros [] s4.
  destruct ex as [st|]; [apply wp_ret; right; split; [done|]; by exists b1|].
  apply wp_bind. eapply wp_mono.
  { apply (wp_kfold (fun b' _ => grows b1 b')); [|done].
    intros b3 prot s5 Hprot H3. eapply wp_mono.
    - eapply service_map_spec; [by apply H3|done| |done]. by apply mapped_prots_not_none.
    - intros [ex b4] s6 H4. by etransitivity. }
  intros [ex b3] s5 H3. destruct ex as [st|]; [apply wp_ret; right; split; [done|]; by exists b1|].
  apply wp_bind. eapply wp_mono.
  { apply (wp_kfold (fun b' _ => grows b1 b')); [|done].
    intros b4 prot s6 Hprot H4. eapply wp_mono.
    - eapply service_map_others_spec; [done|done|done|]. by apply mapped_prots_not_none.
    - intros [ex b5] s7 H5. by etransitivity. }
  intros [ex b4] s6 H4. apply wp_ret. right. split; [done|]. by exists b1.
Qed.

End Sound.

(** *** The life of a block *)

(** GPU and page pairs for which a write would go unreported. *)
Definition exposures := Z -> Z -> Prop.

(** While the block is tracked and clean, what the GPUs can write is exposed. *)
Definition accounted (X : exposures) (b : va_block) : Prop :=
  vb_tracking b = true -> vb_dirty b = false ->
  forall g page, 0 < g -> page ∈ prot_pages b g UVM_PROT_READ_WRITE -> X g page.

(** PREPARE_ALL takes write access from the processors that have pages of the
    block, to pages resident somewhere.  A GPU that maps the block remotely and
    has no page of it is passed over. *)
Definition unrevoked (b : va_block) : exposures := fun g page =>
  page ∈ prot_pages b g UVM_PROT_READ_WRITE /\
  ~ (g ∈ vb_resident b /\ page ∈ full_mask b /\
     exists res, res ∈ vb_resident b /\ page ∈ uvm_va_block_resident_mask_get b res).

Definition writable_pages (b : va_block) : exposures := fun g page =>
  page ∈ prot_pages b g UVM_PROT_READ_WRITE.

(** A fault also maps the processors of step 4: for a fault of the CPU nothing is
    recorded, and for one of a GPU a read does not count the write access that
    UVM-Lite GPUs get. *)
Definition mapped_unrecorded (cfg : service_cfg) (p : Z) (b : va_block) (c : service_context) : exposures :=
  fun g page =>
    g <> p /\ maps_later cfg (sc_new_residency c) g /\
    (p = UVM_ID_CPU /\ page ∈ write_pages (finish_context cfg p b c) \/
     g ∈ pc_lite_gpus (sv_perm cfg) /\ page ∈ serviced_pages (finish_context cfg p b c)).

Lemma prepared_accounted b b' : prepared b b' -> accounted (unrevoked b) b'.
Proof.
  intros [Ha _ _ _ Hp] _ _ g page Hg0 Hpage. pose proof (ps_pages _ _ (re_step _ _ _ Ha)) as Hsp.
  split.
  { apply (re_le _ _ _ Ha) in Hpage; [done|unfold UVM_ID_CPU; lia]. }
  intros (Hres & Hfull & res & Hr & Hpr).
  specialize (Hp g). rewrite (sp_resident _ _ Hsp) in Hp. specialize (Hp Hres).
  unfold revoked_at in Hp.
  destruct (Z.eqb_spec g UVM_ID_CPU) as [He|]; [unfold UVM_ID_CPU in He; lia|].
  specialize (Hp res). rewrite (sp_resident _ _ Hsp), (sp_gpu_res _ _ Hsp) in Hp.
  specialize (Hp Hr). rewrite (same_pages_full_mask _ _ Hsp) in Hp.
  change (uvm_va_block_resident_mask_get (vb_set_migration false true b) res)
    with (uvm_va_block_resident_mask_get b res) in Hp.
  change (full_mask (vb_set_migration false true b)) with (full_mask b) in Hp. set_solver.
Qed.

Lemma armed_accounted b b' : armed b b' -> accounted (writable_pages b) b'.
Proof.
  intros Ha _ _ g page Hg Hpage. apply (re_le _ _ _ Ha) in Hpage; [done|unfold UVM_ID_CPU; lia].
Qed.

(** One event in the life of a block, in any environment, with the exposures it
    leaves.  [Other] is every driver path not modelled here (migration, eviction,
    unmapping): it keeps the flags and gives the GPUs no new write permission. *)
Inductive block_event (b : va_block) (X : exposures) : va_block -> exposures -> Prop :=
| Prepare (E : Env) cfg s ex b' s' :
    block_wf b -> prepare_block cfg b s = ((ex, b'), s') ->
    block_event b X b' (match ex with None => unrevoked b | Some _ => writable_pages b end)
| Fault (E : Env) cfg p c s st b' c' s' :
    perm_wf b -> 0 <= p -> processors_ok cfg ->
    uvm_va_block_service_finish cfg p b c s = ((st, b', c'), s') ->
    block_event b X b' (fun g page => X g page \/ mapped_unrecorded cfg p b c g page)
| Finalize (E : Env) cfg s b' s' :
    block_wf b -> finalize_block cfg b s = ((None, b'), s') ->
    block_event b X b' X
| Other b' :
    vb_tracking b' = vb_tracking b -> vb_dirty b' = vb_dirty b ->
    (forall g, 0 < g -> prot_pages b' g UVM_PROT_READ_WRITE ⊆ prot_pages b g UVM_PROT_READ_WRITE) ->
    block_event b X b' X.

(** Blocks start as [uvm_va_range_block_create] makes them. *)
Inductive reachable_block : va_block -> exposures -> Prop :=
| Created (E : Env) v r index s b r' s' :
    vr_blocks r !! Z.to_nat index = Some None ->
    uvm_va_range_block_create v r index None s = ((NV_OK, Some b, r'), s') ->
    reachable_block b (fun _ _ => False)
| Event b X b' X' : reachable_block b X -> block_event b X b' X' -> reachable_block b' X'.

Lemma service_finish_accounted `{E : Env} X cfg p b c s :
  perm_wf b -> 0 <= p -> processors_ok cfg -> accounted X b ->
  let '(_, b', _) := fst (uvm_va_block_service_finish cfg p b c s) in
  accounted (fun g page => X g page \/ mapped_unrecorded cfg p b c g page) b'.
Proof.
  intros Hwf Hp Hf HX. pose proof (service_finish_spec cfg p b c s Hwf Hp Hf) as H.
  unfold wp in H. destruct (uvm_va_block_service_finish cfg p b c s) as [[[st b'] c'] s'].
  cbn in *. destruct H as [(_ & -> & _)|(-> & b1 & [Hs Hg] & Hb1)]; [intros ?? g page ??; left; by apply HX|].
  intros Htr Hdirty g page Hg0 Hpage.
  rewrite (sd_tracking _ _ _ _ Hs) in Htr. rewrite (sd_dirty _ _ _ _ Hs) in Hdirty.
  assert (b1 = b) as -> by (rewrite Hb1 in Hdirty |- *; by destruct (_ && _)).
  assert (vb_tracking b && UVM_ID_IS_GPU p &&
    negb (bool_decide (write_pages (finish_context cfg p b c) = ∅)) = false) as Hno.
  { destruct (_ && _); [|done]. by rewrite Hb1 in Hdirty. }
  destruct (Hg g page Hg0 Hpage) as [H|[[HM HW]|(Hne & HM & Hl & HV)]].
  - left. by apply HX.
  - assert (p = UVM_ID_CPU) as ->.
    { rewrite Htr, bool_decide_eq_false_2 in Hno by (clear - HW; set_solver).
      unfold UVM_ID_IS_GPU in Hno. cbn [andb negb] in Hno. rewrite andb_true_r in Hno.
      apply Z.ltb_ge in Hno. unfold UVM_ID_CPU. lia. }
    right. assert (g <> UVM_ID_CPU) as Hne by (unfold UVM_ID_CPU; lia). split; [done|].
    destruct HM as [->|HM]; [done|]. split; [done|]. by left.
  - right. split; [done|]. split; [done|]. right. done.
Qed.

Lemma block_event_accounted b X b' X' : accounted X b -> block_event b X b' X' -> accounted X' b'.
Proof.
  intros HX [E cfg s ex b1 s' Hwf Hrun|E cfg p c s st b1 c' s' Hwf Hp Hf Hrun
            |E cfg s b1 s' Hwf Hrun|b1 Ht Hd Hs].
  - pose proof (prepare_block_spec cfg b s Hwf) as H. unfold wp in H. rewrite Hrun in H.
    unfold keach_post in H. cbn in H. destruct ex as [st|].
    + by apply armed_accounted, H.
    + by apply prepared_accounted, H.
  - pose proof (service_finish_accounted X cfg p b c s Hwf Hp Hf HX) as H. by rewrite Hrun in H.
  - pose proof (finalize_block_spec cfg b s Hwf) as H. unfold wp in H. rewrite Hrun in H.
    destruct H as [_ [Htr _ _ _ _]]; cbn in Htr. intros Ht. congruence.
  - intros Ht' Hd' g page Hg0 Hpage. apply HX; [congruence|congruence|done|by apply Hs].
Qed.

Lemma created_accounted `{E : Env} X v r index s b r' s' :
  vr_blocks r !! Z.to_nat index = Some None ->
  uvm_va_range_block_create v r index None s = ((NV_OK, Some b, r'), s') -> accounted X b.
Proof.
  intros Hr. enough (wp (uvm_va_range_block_create v r index None)
    (fun '(st, ob, _) _ => forall b, ob = Some b -> accounted X b) s) as H.
  { unfold wp in H. intros Hrun. rewrite Hrun in H; cbn in H. by apply H. }
  unfold uvm_va_range_block_create, uvm_va_block_create. rewrite Hr. wsteps; try done.
  intros b1 [= <-] _ _ g page Hg. unfold prot_pages, gpu_state_of.
  destruct (Z.eqb_spec g UVM_ID_CPU) as [He|]; [unfold UVM_ID_CPU in He; lia|].
  destruct (vs_tracking_active v); cbn; by rewrite lookup_empty.
Qed.

(** C1: Take any block from its creation through PREPARE_ALL (whatever its
    result), faults, FINALIZE and events that give the GPUs no new access, in any
    environment. While it is tracked and not dirty, a GPU can write to a page of
    it only where the exposures left by these events say: PREPARE_ALL leaves what
    a GPU could write remotely without holding a page of the block, and what it
    could write to pages resident nowhere (everything, if it fails); a CPU fault,
    the pages it maps writable for the accessed-by and thrashing processors; a GPU
    fault, what a UVM-Lite GPU is mapped. Nothing else goes unreported. *)
Theorem tracking_sound b X :
  reachable_block b X -> vb_tracking b = true -> vb_dirty b = false ->
  forall g page, 0 < g -> page ∈ prot_pages b g UVM_PROT_READ_WRITE -> X g page.
Proof.
  intros Hr. change (accounted X b). induction Hr as [E v r index s b r' s' Hs Hrun|b X b' X' _ IH He].
  - by eapply created_accounted.
  - by eapply block_event_accounted.
Qed.

(** ** Step 1 and the bulk restore, exactly *)

Section Mappings.
Context (cfg : service_cfg) (b : va_block) (p : Z).

(** The permission a page of the context is serviced with. *)
Definition page_prot (c : service_context) (page : Z) : uvm_prot :=
  compute_new_permission cfg b page p (sc_new_residency c) (sc_access_type c page).
Definition pages_with (c : service_context) (q : uvm_prot) (pages : list Z) : list Z :=
  filter (fun page => page_prot c page = q) pages.

(** A mapping after the pages [ps] were added to the stale mapping [m]. *)
Definition filled (m : prot_mapping) (ps : list Z) : prot_mapping :=
  mk_prot_mapping (Z.of_nat (length ps))
    (if bool_decide (ps = []) then pm_mask m else list_to_set ps).

Lemma filled_add m ps page :
  Z.of_nat (length ps) + 1 < 2 ^ 32 ->
  add_page (filled m ps) page = filled m (ps ++ [page]).
Proof.
  intros Hl. unfold add_page, filled; cbn [pm_count pm_mask].
  rewrite (bool_decide_eq_false_2 (ps ++ [page] = [])) by by destruct ps.
  rewrite length_app, u32_small by (cbn; lia). f_equal; [cbn; lia|].
  rewrite list_to_set_app_L. cbn. rewrite union_empty_r_L.
  destruct ps as [|x ps]; [done|]. rewrite bool_decide_eq_false_2 by done. by cbn.
Qed.

Lemma pages_with_snoc c q ds x :
  pages_with c q (ds ++ [x]) =
  pages_with c q ds ++ (if decide (page_prot c x = q) then [x] else []).
Proof. unfold pages_with. by rewrite list.filter_app, filter_cons, filter_nil. Qed.

(** For each permission: the count is the number of pages serviced with it,
    and the mask is the set of these pages, or what an earlier fault left
    there when there is none. *)
Lemma compute_mappings_correct c q :
  q <> UVM_PROT_NONE ->
  rg_outer (sc_region c) - rg_first (sc_region c) < 2 ^ 32 ->
  sc_mapping (service_compute_mappings cfg b p c) q
  = filled (sc_mapping c q)
      (pages_with c q (pages_in_region_mask (sc_region c) (sc_residency_mask c))).
Proof.
  intros Hq Hr. unfold service_compute_mappings.
  set (pages := pages_in_region_mask _ _).
  assert (Z.of_nat (length pages) < 2 ^ 32) as Hlen.
  { unfold pages, pages_in_region_mask, region_pages.
    pose proof (length_filter (fun p => p ∈ sc_residency_mask c)
      (seqZ (rg_first (sc_region c)) (rg_outer (sc_region c) - rg_first (sc_region c)))) as Hf.
    rewrite length_seqZ in Hf. lia. }
  clearbody pages.
  enough (forall todo done c1, pages = done ++ todo ->
    sc_new_residency c1 = sc_new_residency c -> sc_access_type c1 = sc_access_type c ->
    (forall q, q <> UVM_PROT_NONE -> sc_mapping c1 q = filled (sc_mapping c q) (pages_with c q done)) ->
    sc_mapping (fold_left (fun c page =>
      let new_prot := compute_new_permission cfg b page p (sc_new_residency c)
                        (sc_access_type c page) in
      sc_set_mapping new_prot (add_page (sc_mapping c new_prot) page) c) todo c1) q
    = filled (sc_mapping c q) (pages_with c q pages)) as H.
  { apply (H pages [] (reset_counts c)); [done..|]. intros q' Hq'. by destruct q'. }
  induction todo as [|x todo IH]; intros ds c1 Hp Hn Ha Hm; cbn [fold_left].
  { rewrite app_nil_r in Hp. subst ds. auto. }
  rewrite Hn, Ha. fold (page_prot c x).
  apply (IH (ds ++ [x])); [by rewrite <- app_assoc|by destruct (page_prot c x)..|].
  intros q' Hq'. rewrite pages_with_snoc.
  assert (Z.of_nat (length (pages_with c q' ds)) + 1 < 2 ^ 32) as Hl.
  { pose proof (length_filter (fun page => page_prot c page = q') ds).
    rewrite Hp, length_app in Hlen. cbn in Hlen. unfold pages_with. lia. }
  destruct (decide (page_prot c x = q')) as [He|He].
  - rewrite <- filled_add, <- Hm, He by done. by destruct q'.
  - rewrite app_nil_r, <- (Hm q') by done. by destruct q', (page_prot c x).
Qed.
End Mappings.

(** The bulk restore. *)
Section BulkRestore.
Context (cfg : service_cfg).

(** Count and mask agree, and fit 32 bits. *)
Definition exact (m : prot_mapping) : Prop := pm_count m = Z.of_nat (size (pm_mask m)).

Lemma size_subset_lt (X Y : gset Z) : X ⊆ Y -> Z.of_nat (size Y) < 2 ^ 32 -> Z.of_nat (size X) < 2 ^ 32.
Proof. intros HX HY. pose proof (subseteq_size X Y HX). lia. Qed.

Lemma exact_add (U X : gset Z) n x :
  n = Z.of_nat (size X) -> x ∉ X -> X ∪ {[x]} ⊆ U -> Z.of_nat (size U) < 2 ^ 32 ->
  u32 (n + 1) = Z.of_nat (size (X ∪ {[x]})).
Proof.
  intros -> Hx HU Hsz. pose proof (size_subset_lt _ _ HU Hsz) as H.
  rewrite size_union, size_singleton in * by set_solver. rewrite u32_small by lia. lia.
Qed.

Lemma exact_remove (X : gset Z) n x :
  n = Z.of_nat (size X) -> x ∈ X -> Z.of_nat (size X) < 2 ^ 32 ->
  u32 (n - 1) = Z.of_nat (size (X ∖ {[x]})).
Proof.
  intros -> Hx Hsz. rewrite size_difference, size_singleton by set_solver.
  assert (size X <> 0%nat) by (apply size_non_empty_iff; set_solver).
  rewrite u32_small by lia. lia.
Qed.

(** Moving the pages [l] from RW to RWA. *)
Lemma move_to_rwa_fold (U : gset Z) l c :
  Z.of_nat (size U) < 2 ^ 32 -> NoDup l ->
  exact (sc_rw c) -> exact (sc_rwa c) ->
  list_to_set l ⊆ pm_mask (sc_rw c) -> pm_mask (sc_rw c) ⊆ U -> pm_mask (sc_rwa c) ⊆ U ->
  pm_mask (sc_rw c) ∩ pm_mask (sc_rwa c) = ∅ ->
  let c' := fold_left (move_to_rwa cfg) l c in
  exact (sc_rw c') /\ exact (sc_rwa c') /\ sc_ro c' = sc_ro c /\
  pm_mask (sc_rw c') = pm_mask (sc_rw c) ∖ list_to_set l /\
  pm_mask (sc_rwa c') = pm_mask (sc_rwa c) ∪ list_to_set l.
Proof.
  intros HU. revert c; induction l as [|x l IH]; intros c Hnd H1 H2 H3 H4 H5 H6; cbn.
  { repeat split; try done; set_solver. }
  apply NoDup_cons in Hnd as [Hx Hnd]. cbn in H3.
  destruct (IH (move_to_rwa cfg c x)) as (G1 & G2 & G3 & G4 & G5).
  all: try done.
  - unfold exact; cbn. apply exact_remove; [done|set_solver|by eapply size_subset_lt].
  - unfold exact; cbn. eapply exact_add; [done|set_solver| |done]. set_solver.
  - cbn. intros y Hy. assert (y <> x) by (intros ->; rewrite elem_of_list_to_set in Hy; done).
    set_solver.
  - cbn. set_solver.
  - cbn. set_solver.
  - cbn. set_solver.
  - split; [done|]. split; [done|]. split; [done|]. rewrite G4, G5. cbn. split; set_solver.
Qed.

(** Adding the resident pages [l] to RWA. *)
Lemma add_to_rwa_fold (U : gset Z) l c :
  Z.of_nat (size U) < 2 ^ 32 -> exact (sc_rwa c) ->
  pm_mask (sc_rwa c) ∪ list_to_set l ⊆ U ->
  let c' := fold_left (add_to_rwa cfg) l c in
  exact (sc_rwa c') /\ sc_rw c' = sc_rw c /\ pm_count (sc_ro c') = pm_count (sc_ro c) /\
  pm_mask (sc_rwa c') = pm_mask (sc_rwa c) ∪ list_to_set l /\
  pm_mask (sc_ro c') = pm_mask (sc_ro c) ∖ (list_to_set l ∖ pm_mask (sc_rwa c)).
Proof.
  intros HU. revert c; induction l as [|x l IH]; intros c H1 H2; cbn.
  { repeat split; try done; set_solver. }
  cbn in H2. unfold add_to_rwa at 2 4 6 8 10. destruct (bool_decide _) eqn:Hb; bprop.
  - destruct (IH c) as (G1 & G2 & G3 & G4 & G5); [done|set_solver|].
    split; [done|]. split; [done|]. split; [done|]. rewrite G4, G5. split; set_solver.
  - match goal with |- context [fold_left _ l ?c1] => destruct (IH c1) as (G1 & G2 & G3 & G4 & G5) end.
    + unfold exact; cbn. eapply exact_add; [done|done| |done]. set_solver.
    + cbn. set_solver.
    + split; [done|]. split; [done|]. split; [done|]. rewrite G4, G5. cbn.
      split; [set_solver|]. apply set_eq; intros y. destruct (decide (y = x)); set_solver.
Qed.

Lemma NoDup_pages r m : NoDup (pages_in_region_mask r m).
Proof. apply NoDup_filter, NoDup_seqZ. Qed.

Lemma list_to_set_pages r m : list_to_set (pages_in_region_mask r m) = region_mask r ∩ m.
Proof.
  apply set_eq; intros x. rewrite elem_of_list_to_set, elem_of_pages_in_region_mask.
  rewrite <- elem_of_region_mask. set_solver.
Qed.

(** From exact, disjoint masks inside the block: every page that got RW and
    every page resident on the faulting GPU is serviced as RWA, the counts of
    RW and RWA stay exact, and the region becomes the whole block. *)
Lemma bulk_restore_correct b p c :
  vb_tracking b = true -> 0 < p -> sc_new_residency c = p ->
  Z.of_nat (size (full_mask b)) < 2 ^ 32 ->
  exact (sc_rw c) -> exact (sc_rwa c) ->
  pm_mask (sc_rw c) ⊆ full_mask b -> pm_mask (sc_rwa c) ⊆ full_mask b ->
  pm_mask (sc_rw c) ∩ pm_mask (sc_rwa c) = ∅ ->
  let c' := service_bulk_restore cfg b p c in
  let resident := full_mask b ∩ uvm_va_block_resident_mask_get b p in
  let writes := pm_mask (sc_rw c) ∪ pm_mask (sc_rwa c) in
  sc_region c' = uvm_va_block_region_from_block b /\
  sc_rw c' = mk_prot_mapping 0 ∅ /\
  exact (sc_rwa c') /\ pm_mask (sc_rwa c') = writes ∪ resident /\
  pm_mask (sc_ro c') = pm_mask (sc_ro c) ∖ (resident ∖ writes) /\
  pm_count (sc_ro c') = pm_count (sc_ro c).
Proof.
  intros Ht Hp Hn Hsz H1 H2 H3 H4 H5. unfold service_bulk_restore, UVM_ID_IS_GPU.
  apply Z.ltb_lt in Hp. rewrite Ht, Hp, Hn, Z.eqb_refl. cbn [andb].
  set (r := uvm_va_block_region_from_block b). set (l1 := pages_in_region_mask r (pm_mask (sc_rw c))).
  set (l2 := pages_in_region_mask r (uvm_va_block_resident_mask_get b p)).
  assert (list_to_set l1 = pm_mask (sc_rw c)) as Hl1.
  { subst l1. rewrite list_to_set_pages. fold (full_mask b). set_solver. }
  assert (list_to_set l2 = full_mask b ∩ uvm_va_block_resident_mask_get b p) as Hl2
    by apply list_to_set_pages.
  destruct (move_to_rwa_fold (full_mask b) l1 c) as (G1 & G2 & G3 & G4 & G5);
    [done|apply NoDup_pages|done|done|by rewrite Hl1|done|done|done|].
  set (c1 := fold_left (move_to_rwa cfg) l1 c) in *. clearbody c1. rewrite Hl1 in G4, G5.
  destruct (add_to_rwa_fold (full_mask b) l2 c1) as (F1 & F2 & F3 & F4 & F5);
    [done|done|rewrite G5, Hl2; set_solver|].
  set (c2 := fold_left (add_to_rwa cfg) l2 c1) in *. clearbody c2. cbn.
  split; [done|]. split.
  { rewrite F2. destruct (sc_rw c1) as [n m] eqn:Hrw. unfold exact in G1. cbn in *.
    rewrite difference_diag_L in G4. subst m. by rewrite size_empty in G1; subst n. }
  split; [done|]. rewrite F4, F5, F3, G3, G5, Hl2. split; [set_solver|]. split; [set_solver|done].
Qed.

(** With a mask left from an earlier fault the RW count wraps around. *)
Lemma move_to_rwa_count l c :
  pm_count (sc_rw (fold_left (move_to_rwa cfg) l c)) = u32 (pm_count (sc_rw c) - Z.of_nat (length l))
  \/ l = [].
Proof.
  revert c. induction l as [|x l IH]; intros c; [by right|left]. cbn [fold_left length].
  destruct (IH (move_to_rwa cfg c x)) as [->| ->]; cbn -[Z.of_nat]; unfold u32.
  - rewrite Zminus_mod_idemp_l. f_equal. lia.
  - done.
Qed.

Lemma add_to_rwa_rw l c : sc_rw (fold_left (add_to_rwa cfg) l c) = sc_rw c.
Proof.
  revert c. induction l as [|x l IH]; intros c; [done|]. cbn [fold_left]. rewrite IH.
  unfold add_to_rwa. by destruct (bool_decide _).
Qed.

(** The bulk restore decrements the READ_WRITE count once per page of the
    mask: when the mask is left from an earlier fault and the count is 0, the
    unsigned count wraps around to 2^32 minus the number of stale pages. *)
Theorem bulk_restore_stale_count b p c :
  vb_tracking b = true -> 0 < p -> sc_new_residency c = p ->
  pm_count (sc_rw c) = 0 -> full_mask b ∩ pm_mask (sc_rw c) <> ∅ ->
  Z.of_nat (size (full_mask b)) < 2 ^ 32 ->
  pm_count (sc_rw (service_bulk_restore cfg b p c)) =
    2 ^ 32 - Z.of_nat (size (full_mask b ∩ pm_mask (sc_rw c))).
Proof.
  intros Ht Hp Hn Hc Hne Hsz. unfold service_bulk_restore, UVM_ID_IS_GPU.
  apply Z.ltb_lt in Hp. rewrite Ht, Hp, Hn, Z.eqb_refl. cbn [andb sc_set_region sc_rw].
  rewrite add_to_rwa_rw.
  set (l := pages_in_region_mask _ _).
  assert (length l = size (full_mask b ∩ pm_mask (sc_rw c))) as Hl.
  { unfold full_mask. rewrite <- list_to_set_pages. symmetry. apply size_list_to_set, NoDup_pages. }
  pose proof (size_subset_lt (full_mask b ∩ pm_mask (sc_rw c)) (full_mask b) ltac:(set_solver) Hsz).
  assert (size (full_mask b ∩ pm_mask (sc_rw c)) <> 0%nat) by (apply size_non_empty_iff; set_solver).
  destruct (move_to_rwa_count l c) as [->|Hnil]; [|rewrite Hnil in Hl; cbn in Hl; lia].
  rewrite Hc, Hl. unfold u32. generalize dependent (size (full_mask b ∩ pm_mask (sc_rw c))).
  intros n _ Hlt Hn0.
  replace (0 - Z.of_nat n) with (2 ^ 32 - Z.of_nat n + (-1) * 2 ^ 32) by lia.
  rewrite Z.mod_add by lia. rewrite Z.mod_small; lia.
Qed.
End BulkRestore.

Lemma compute_mappings_frame cfg b p c :
  sc_region (service_compute_mappings cfg b p c) = sc_region c /\
  sc_new_residency (service_compute_mappings cfg b p c) = sc_new_residency c.
Proof.
  unfold service_compute_mappings. set (pages := pages_in_region_mask _ _). clearbody pages.
  change (sc_region c) with (sc_region (reset_counts c)).
  change (sc_new_residency c) with (sc_new_residency (reset_counts c)).
  generalize (reset_counts c). induction pages as [|x l IH]; intros c1; [done|].
  cbn [fold_left]. destruct (IH (sc_set_mapping
    (compute_new_permission cfg b x p (sc_new_residency c1) (sc_access_type c1 x))
    (add_page (sc_mapping c1 (compute_new_permission cfg b x p (sc_new_residency c1)
       (sc_access_type c1 x))) x) c1)) as [-> ->].
  by destruct (compute_new_permission _ _ _ _ _ _).
Qed.

(** A page mask left by an earlier fault makes the service record a write
    fault: the tracked block ends dirty although every page of it was serviced
    read-only. *)
Theorem stale_masks_report_dirty `{E : Env} cfg p b c s :
  perm_wf b -> processors_ok cfg ->
  vb_tracking b = true -> 0 < p -> sc_new_residency c <> p ->
  rg_outer (sc_region c) - rg_first (sc_region c) < 2 ^ 32 ->
  (forall page, page_prot cfg b p c page = UVM_PROT_READ_ONLY) ->
  region_mask (sc_region c) ∩ pm_mask (sc_rw c) <> ∅ ->
  let '(st, b', _) := fst (uvm_va_block_service_finish cfg p b c s) in
  st = NV_ERR_NO_MEMORY \/ vb_dirty b' = true.
Proof.
  intros Hwf Hf Ht Hp Hn Hr Hro Hst.
  pose proof (service_finish_spec cfg p b c s Hwf ltac:(lia) Hf) as H.
  unfold wp in H. destruct (uvm_va_block_service_finish cfg p b c s) as [[[st b'] c'] s'].
  cbn in *. destruct H as [(-> & _)|(Hc' & b1 & [Hs _] & Hb1)]; [by left|right].
  assert (c' = service_compute_mappings cfg b p c) as ->.
  { rewrite Hc'. unfold finish_context, service_bulk_restore.
    replace (sc_new_residency (service_compute_mappings cfg b p c)) with (sc_new_residency c).
    - apply not_eq_sym, Z.eqb_neq in Hn. by rewrite Hn, andb_false_r.
    - by destruct (compute_mappings_frame cfg b p c). }
  destruct (compute_mappings_frame cfg b p c) as [Hrg _].
  assert (write_pages (service_compute_mappings cfg b p c) <> ∅) as HW.
  { unfold write_pages. rewrite Hrg.
    pose proof (compute_mappings_correct cfg b p c UVM_PROT_READ_WRITE ltac:(done) Hr) as Hm.
    cbn [sc_mapping] in Hm. rewrite Hm. unfold filled, pages_with. cbn [pm_mask].
    rewrite bool_decide_eq_true_2; [clear - Hst; set_solver|].
    apply list_filter_nil. intros x _. by rewrite Hro. }
  rewrite bool_decide_eq_false_2 in Hb1 by done. unfold UVM_ID_IS_GPU in Hb1.
  apply Z.ltb_lt in Hp. rewrite Ht, Hp in Hb1. cbn in Hb1. rewrite (sd_dirty _ _ _ _ Hs). by subst b1.
Qed.

(** *** A first fault on a tracked block *)

(** C17: From masks that no earlier fault has filled, a fault of a GPU on pages
    local to it in a tracked block expands to the whole block: the pages serviced
    read-write-atomic are exactly those that need write access and those resident
    on the GPU, nothing is left to READ_WRITE, and the count is the size of the
    mask. *)
Theorem fault_restores_whole_block cfg b p c :
  vb_tracking b = true -> 0 < p -> sc_new_residency c = p ->
  sc_rw c = mk_prot_mapping 0 ∅ -> sc_rwa c = mk_prot_mapping 0 ∅ ->
  Z.of_nat (size (full_mask b)) < 2 ^ 32 ->
  rg_outer (sc_region c) - rg_first (sc_region c) < 2 ^ 32 ->
  region_mask (sc_region c) ⊆ full_mask b ->
  let pages := pages_in_region_mask (sc_region c) (sc_residency_mask c) in
  let c' := service_bulk_restore cfg b p (service_compute_mappings cfg b p c) in
  sc_region c' = uvm_va_block_region_from_block b /\
  sc_rw c' = mk_prot_mapping 0 ∅ /\
  pm_count (sc_rwa c') = Z.of_nat (size (pm_mask (sc_rwa c'))) /\
  (forall page, page ∈ pm_mask (sc_rwa c') <->
     page ∈ pages /\ writable (page_prot cfg b p c page) = true \/
     page ∈ full_mask b /\ page ∈ uvm_va_block_resident_mask_get b p).
Proof.
  intros Ht Hp Hn Hrw Hrwa Hsz Hr Hsub pages c'.
  destruct (compute_mappings_frame cfg b p c) as [_ Hn1]. rewrite Hn in Hn1.
  set (c1 := service_compute_mappings cfg b p c) in *.
  assert (forall q, q <> UVM_PROT_NONE -> sc_mapping c q = mk_prot_mapping 0 ∅ ->
    exact (sc_mapping c1 q) /\ pm_mask (sc_mapping c1 q) = list_to_set (pages_with cfg b p c q pages))
    as Hm.
  { intros q Hq Hq0. subst c1. rewrite compute_mappings_correct, Hq0 by done. fold pages.
    unfold exact, filled; cbn. destruct (bool_decide _) eqn:He; bprop; [by rewrite He|].
    rewrite size_list_to_set; [done|]. apply NoDup_filter, NoDup_pages. }
  destruct (Hm UVM_PROT_READ_WRITE) as [E1 M1]; [done|done|].
  destruct (Hm UVM_PROT_READ_WRITE_ATOMIC) as [E2 M2]; [done|done|]. cbn in E1, M1, E2, M2.
  assert (forall q x, x ∈ pages_with cfg b p c q pages <-> x ∈ pages /\ page_prot cfg b p c x = q) as Hw.
  { intros q x. unfold pages_with. rewrite list_elem_of_filter. tauto. }
  assert (forall x, x ∈ pages -> x ∈ full_mask b) as Hfull.
  { intros x Hx. apply elem_of_pages_in_region_mask in Hx as [Hx _].
    apply Hsub. by apply elem_of_region_mask. }
  destruct (bulk_restore_correct cfg b p c1 Ht Hp Hn1 Hsz E1 E2) as (B1 & B2 & B3 & B4 & _).
  - rewrite M1. intros x. rewrite elem_of_list_to_set, Hw. intros []; auto.
  - rewrite M2. intros x. rewrite elem_of_list_to_set, Hw. intros []; auto.
  - rewrite M1, M2. apply set_eq; intros x. rewrite elem_of_intersection, !elem_of_list_to_set, !Hw.
    split; [intros [[_ H1] [_ H2]]; congruence|set_solver].
  - split; [done|]. split; [done|]. split; [done|]. intros x. fold c' in B4.
    rewrite B4, M1, M2, !elem_of_union, !elem_of_list_to_set, !Hw, elem_of_intersection.
    destruct (page_prot cfg b p c x); cbn; naive_solver.
Qed.

(** ** Permissions are well-typed *)

(** The operations on the mappings of a block, as other code calls them. *)
Inductive perm_call :=
| CallMap (cfg : perm_cfg) (id : Z) (r : region) (m : option (gset Z)) (p : uvm_prot)
| CallMapMask (cfg : perm_cfg) (ids : gset Z) (r : region) (m : option (gset Z)) (p : uvm_prot)
| CallRevoke (cfg : perm_cfg) (id : Z) (r : region) (m : option (gset Z)) (p : uvm_prot)
| CallRevokeMask (cfg : perm_cfg) (ids : gset Z) (r : region) (m : option (gset Z)) (p : uvm_prot)
| CallUnmapCpu (r : region) (m : option (gset Z))
| CallServiceFinish (cfg : service_cfg) (id : Z) (c : service_context).

(** What the operations assert of their arguments. *)
Definition call_ok (o : perm_call) : Prop :=
  match o with
  | CallMap _ id _ _ p => 0 <= id /\ p <> UVM_PROT_NONE
  | CallMapMask _ ids _ _ p => (forall id, id ∈ ids -> 0 <= id) /\ p <> UVM_PROT_NONE
  | CallRevoke _ id _ _ p => 0 <= id /\ writable p = true
  | CallRevokeMask _ ids _ _ p => (forall id, id ∈ ids -> 0 <= id) /\ writable p = true
  | CallUnmapCpu _ _ => True
  | CallServiceFinish cfg id _ => 0 <= id /\ processors_ok cfg
  end.

Section Calls.
Context `{E : Env}.

Definition perform (o : perm_call) (b : va_block) : K va_block :=
  match o with
  | CallMap cfg id r m p => '(_, b) ← uvm_va_block_map cfg b id r m p; kret b
  | CallMapMask cfg ids r m p => '(_, b) ← uvm_va_block_map_mask cfg b ids r m p; kret b
  | CallRevoke cfg id r m p => '(_, b) ← uvm_va_block_revoke_prot cfg b id r m p; kret b
  | CallRevokeMask cfg ids r m p => '(_, b) ← uvm_va_block_revoke_prot_mask cfg b ids r m p; kret b
  | CallUnmapCpu r m => kret (block_unmap_cpu b r m)
  | CallServiceFinish cfg id c => '(_, b, _) ← uvm_va_block_service_finish cfg id b c; kret b
  end.

Fixpoint perform_all (l : list perm_call) (b : va_block) : K va_block :=
  match l with
  | [] => kret b
  | o :: l' => b ← perform o b; perform_all l' b
  end.

Lemma service_finish_wf cfg p b c s :
  perm_wf b -> 0 <= p -> processors_ok cfg ->
  wp (uvm_va_block_service_finish cfg p b c) (fun '(_, b', _) _ => perm_wf b') s.
Proof.
  intros Hwf Hp Hf. eapply wp_mono; [by apply service_finish_spec|].
  intros [[st b'] c'] s' [(_ & -> & _)|(_ & b1 & [Hs _] & ->)]; [done|]. apply (sd_wf _ _ _ _ Hs).
  destruct (_ && _); [by apply perm_wf_set_migration|done].
Qed.

Lemma perform_wf o b s : perm_wf b -> call_ok o -> wp (perform o b) (fun b' _ => perm_wf b') s.
Proof.
  intros Hwf. destruct o as [cfg id r m p|cfg ids r m p|cfg id r m p|cfg ids r m p|r m|cfg id c]; cbn [perform call_ok].
  - intros [Hid Hp]. apply wp_bind. eapply wp_mono; [by apply uvm_va_block_map_spec|].
    intros [st b'] s' [He _]. apply wp_ret. by apply (ps_wf _ _ (me_step _ _ _ _ _ He)).
  - intros [Hid Hp]. apply wp_bind. pose proof (uvm_va_block_map_mask_correct cfg b ids r m p s Hwf Hp Hid) as Hm.
    unfold wp. destruct (uvm_va_block_map_mask cfg b ids r m p s) as [[st b'] s']. exact (proj1 Hm).
  - intros [Hid Hp]. apply wp_bind. eapply wp_mono; [by apply uvm_va_block_revoke_prot_spec|].
    intros [st b'] s' [He _]. apply wp_ret. by apply (ps_wf _ _ (re_step _ _ _ He)).
  - intros [Hid Hp]. apply wp_bind. pose proof (uvm_va_block_revoke_prot_mask_correct cfg b ids r m p s Hwf Hp Hid) as Hm.
    unfold wp. destruct (uvm_va_block_revoke_prot_mask cfg b ids r m p s) as [[st b'] s']. exact (proj1 Hm).
  - intros _. apply wp_ret. destruct (block_unmap_cpu_spec b r m Hwf) as (Hs & _). by apply Hs.
  - intros [Hid Hf]. apply wp_bind. eapply wp_mono; [by apply service_finish_wf|].
    intros [[st b'] c'] s' Hb. by apply wp_ret.
Qed.

Lemma perform_all_wf l : forall b s, perm_wf b -> Forall call_ok l -> wp (perform_all l b) (fun b' _ => perm_wf b') s.
Proof.
  induction l as [|o l IH]; intros b s Hwf Hl; cbn [perform_all]; [by apply wp_ret|].
  apply Forall_cons in Hl as [Ho Hl]. apply wp_bind. eapply wp_mono; [by apply perform_wf|]. intros b' s' Hb. by apply IH.
Qed.

Lemma prot_pages_nested b g : perm_wf b ->
  prot_pages b g UVM_PROT_READ_WRITE_ATOMIC ⊆ prot_pages b g UVM_PROT_READ_WRITE /\
  prot_pages b g UVM_PROT_READ_WRITE ⊆ prot_pages b g UVM_PROT_READ_ONLY.
Proof.
  intros Hwf. unfold prot_pages. destruct (_ =? _); cbn; [split; [done|apply Hwf]|].
  destruct (perm_wf_gs b g Hwf). by split.
Qed.

(** C13: Well-typed permissions: whatever mapping, revocation, unmapping and fault
    servicing a block goes through, with any pushes and allocations failing
    midway, its PTE bits stay nested (atomic within write within read), and a
    processor that is not in mapped has no bit at all. *)
Theorem permissions_well_typed b l s :
  perm_wf b -> Forall call_ok l ->
  let b' := fst (perform_all l b s) in
  (forall g, prot_pages b' g UVM_PROT_READ_WRITE_ATOMIC ⊆ prot_pages b' g UVM_PROT_READ_WRITE /\
             prot_pages b' g UVM_PROT_READ_WRITE ⊆ prot_pages b' g UVM_PROT_READ_ONLY) /\
  (forall g q, 0 <= g -> g ∉ vb_mapped b' -> prot_pages b' g q = ∅) /\
  (forall g, 0 < g -> g ∈ vb_mapped b' -> is_Some (vb_gpus b' !! g)).
Proof.
  intros Hwf Hl. pose proof (perform_all_wf l b s Hwf Hl : perm_wf (fst (perform_all l b s))) as H'. cbv zeta.
  set (b' := fst _) in *. clearbody b'. split; [by intros g; apply prot_pages_nested|]. split; [|apply H'].
  intros g q Hg Hm. assert (Hr : prot_pages b' g UVM_PROT_READ_ONLY = ∅).
  { unfold prot_pages. destruct (Z.eqb_spec g UVM_ID_CPU) as [->|Hne]; cbn; [by apply H'|].
    apply perm_wf_unmapped; [done| |done]. unfold UVM_ID_CPU in Hne. lia. }
  destruct (prot_pages_nested b' g H') as [H1 H2]. rewrite Hr in H2. pose proof (equiv_empty_L _ H2) as Hw.
  rewrite Hw in H1. pose proof (equiv_empty_L _ H1). destruct q; try done.
  unfold prot_pages in *. by destruct (g =? UVM_ID_CPU).
Qed.
End Calls.
