(* ===== verification/ConfComputing.v ===== *)
(** Confidential-computing services of [uvm_conf_computing.c] and
    [uvm_channel.c]: the pool of DMA staging buffers, IV and key accounting,
    IV and key rotation, push admission, and the encrypted copies between
    video memory and the CPU.

    The cryptographic library of RM (CSL), the copy engine and the video memory
    are parameters, the fields of [CcGpu].  The pool, the calls made on each CSL
    context and the key version of the GPU in use are part of the kernel state. *)
From S2P Require Import Prelude Kernel VaBlock.

Definition UVM_CONF_COMPUTING_DMA_BUFFER_SIZE : Z := UVM_VA_BLOCK_SIZE.
Definition UVM_CONF_COMPUTING_AUTH_TAG_SIZE : Z := 16.
Definition UVM_CONF_COMPUTING_KEY_ROTATION_LOWER_THRESHOLD : Z := 2 ^ 20 * 8.
Definition UVM_CONF_COMPUTING_IV_REMAINING_LIMIT_MIN : Z := 2342.
Definition UVM_CONF_COMPUTING_IV_REMAINING_LIMIT_MAX : Z := 0xfffffffe.
Definition UVM_CONF_COMPUTING_IV_REMAINING_LIMIT_DEFAULT : Z := 2 ^ 31.
Definition UVM_CONF_COMPUTING_IV_REMAINING_LIMIT_TESTS : Z := 2 ^ 32 - 500.
Definition NV_U32_MAX : Z := 2 ^ 32 - 1.

(** One GPU and its CSL contexts: the messages a context has left, the IV of a
    message of a channel, authenticated encryption under the key of the GPU's
    GPU_TO_CPU pool in a given version (the key [k1] of ioctl 112, which any
    channel of the pool decrypts with), and video memory, which holds still while
    a checkpoint reads it.  Counters are 32-bit and full after a rotation
    (uvm_conf_computing.c). *)
Class CcGpu := {
  csl_remaining : Z -> Z;              (* messages left, after [n] since the last rotation *)
  csl_iv      : Z -> Z -> Z -> UvmCslIv;        (* channel, rotations, message number *)
  csl_encrypt : Z -> UvmCslIv -> list Z -> list Z * list Z;
  csl_decrypt : Z -> UvmCslIv -> list Z -> list Z -> option (list Z);
  vidmem      : aperture -> Z -> Z;
  csl_remaining_fresh : csl_remaining 0 = NV_U32_MAX;
  csl_remaining_next : forall n, csl_remaining (n + 1) = csl_remaining n - 1;
  csl_decrypt_encrypt : forall v iv p,
    csl_decrypt v iv (fst (csl_encrypt v iv p)) (snd (csl_encrypt v iv p)) = Some p;
  csl_plain_length : forall v iv c t p, csl_decrypt v iv c t = Some p -> length p = length c;
  csl_cipher_length : forall v iv p, length (fst (csl_encrypt v iv p)) = length p;
  csl_tag_length : forall v iv p,
    Z.of_nat (length (snd (csl_encrypt v iv p))) = UVM_CONF_COMPUTING_AUTH_TAG_SIZE;
  csl_iv_length : forall c e n, length (fst (csl_iv c e n)) = 12%nat;
  csl_iv_fresh : forall c e n, 0 <= snd (csl_iv c e n) < 256;
}.

(** [size] bytes of video memory at a physical address. *)
Definition vid_read `{G : CcGpu} (pa : phys_address) (size : Z) : list Z :=
  (fun i => vidmem (pa_aperture pa) (pa_address pa + i)) <$> seqZ 0 size.

(** Reading and updating one buffer. *)
Definition buf_get (s : kst) (b : Z) : dma_buffer := default dma_buffer_zero (k_bufs s !! b).
Definition buf_set (b : Z) (d : dma_buffer) : kst -> kst := fun s => set_bufs (<[b := d]> (k_bufs s)) s.

(** The kind of a channel pool. *)
Inductive pool_kind := POOL_CE | POOL_SEC2 | POOL_LCIC.

#[export] Instance pool_kind_eq_dec : EqDecision pool_kind.
Proof. solve_decision. Defined.

Section ConfComputing.
Context `{E : Env} `{G : CcGpu}.

(** ** The pool of DMA buffers *)

Definition dma_buffer_destroy_locked (b : Z) : K unit :=
  kmod (fun s => set_bufs (delete b (k_bufs s))
                   (set_pool (filter (fun x => x <> b) (k_free s)) (k_num s) (k_next s) s)).

(** The buffer is allocated, then its two memory areas are allocated and
    mapped; any failure destroys it. *)
Definition dma_buffer_create : K (nv_status * option Z) :=
  n ← tick;
  if negb (env_alloc_ok n) then kret (NV_ERR_NO_MEMORY, None) else
  b ← kget k_next;
  kmod (fun s => buf_set b dma_buffer_zero (set_pool (k_free s) (k_num s) (b + 1) s)) ;;
  '(ex, _) ← kfold (fun (_ : unit) (_ : nat) =>
                      st ← ext_status; kret (leave_on_error st, tt)) tt (seq 0 4);
  match ex with
  | Some st => dma_buffer_destroy_locked b ;; kret (st, None)
  | None => kret (NV_OK, Some b)
  end.

(** [list_add_tail]. *)
Definition dma_buffer_pool_add (b : Z) : K unit :=
  kmod (fun s => set_pool (k_free s ++ [b]) (k_num s) (k_next s) s).

Definition uvm_conf_computing_dma_buffer_pool_sync : K unit :=
  num ← kget k_num;
  if num =? 0 then kret tt else
  lock_acquire LPool ;;
  free ← kget k_free;
  kfold (fun (_ : unit) (_ : Z) => ext_status ;; kret (None, tt)) tt free ;;
  lock_release LPool.

(** Every free buffer is destroyed and uncounted. *)
Definition conf_computing_dma_buffer_pool_deinit : K unit :=
  num ← kget k_num;
  if num =? 0 then kret tt else
  lock_acquire LPool ;;
  free ← kget k_free;
  kfold (fun (_ : unit) b =>
           dma_buffer_destroy_locked b ;;
           kmod (fun s => set_pool (k_free s) (k_num s - 1) (k_next s) s) ;;
           kret (None, tt)) tt free ;;
  lock_release LPool.

(** The loop of [pool_init] and [pool_expand]: create and add [n] buffers,
    stopping at the first failure; the status and the number added. *)
Definition pool_fill (n : Z) : K (nv_status * Z) :=
  '(ex, i) ← kfold (fun i (_ : Z) =>
                      '(st, b) ← dma_buffer_create;
                      match b with
                      | Some b => dma_buffer_pool_add b ;; kret (None, i + 1)
                      | None => kret (Some st, i)
                      end) 0 (seqZ 0 n);
  kret (loop_status ex, i).

Definition conf_computing_dma_buffer_pool_init : K nv_status :=
  let num_dma_buffers := 32 in
  kmod (fun s => set_pool [] num_dma_buffers (k_next s) s) ;;
  lock_acquire LPool ;;
  '(status, i) ← pool_fill num_dma_buffers;
  lock_release LPool ;;
  (if i <? num_dma_buffers then conf_computing_dma_buffer_pool_deinit else kret tt) ;;
  kret status.

Definition dma_buffer_pool_expand_locked : K nv_status :=
  nb_to_alloc ← kget k_num;
  '(status, i) ← pool_fill nb_to_alloc;
  kmod (fun s => set_pool (k_free s) (k_num s + i) (k_next s) s) ;;
  kret (if i =? 0 then status else NV_OK).

Definition uvm_conf_computing_dma_buffer_free (b : option Z) : K unit :=
  match b with
  | None => kret tt
  | Some b => lock_acquire LPool ;; dma_buffer_pool_add b ;; lock_release LPool
  end.

(** [out_tracker] is NULL in every call of this code. *)
Definition uvm_conf_computing_dma_buffer_alloc : K (nv_status * option Z) :=
  lock_acquire LPool ;;
  free ← kget k_free;
  status ← (if bool_decide (free = []) then dma_buffer_pool_expand_locked else kret NV_OK);
  if negb (is_ok status) then lock_release LPool ;; kret (status, None) else
  free ← kget k_free;
  match free with
  | [] => (* excluded: see [dma_buffer_alloc_nonempty] *)
      lock_release LPool ;; kret (NV_ERR_INVALID_OPERATION, None)
  | b :: rest =>
      kmod (fun s => set_pool rest (k_num s) (k_next s) s) ;;
      lock_release LPool ;;
      st1 ← ext_status;
      if negb (is_ok st1) then uvm_conf_computing_dma_buffer_free (Some b) ;; kret (st1, None) else
      st2 ← ext_status;
      if negb (is_ok st2) then uvm_conf_computing_dma_buffer_free (Some b) ;; kret (st2, None) else
      kret (NV_OK, Some b)
  end.

(** ** GPU initialization *)

Definition uvm_conf_computing_gpu_deinit : K unit := conf_computing_dma_buffer_pool_deinit.

Definition clamp_iv_limit (limit : Z) : Z :=
  let limit := if env_tests && (limit =? UVM_CONF_COMPUTING_IV_REMAINING_LIMIT_DEFAULT)
               then UVM_CONF_COMPUTING_IV_REMAINING_LIMIT_TESTS else limit in
  if (limit <? UVM_CONF_COMPUTING_IV_REMAINING_LIMIT_MIN)
     || (UVM_CONF_COMPUTING_IV_REMAINING_LIMIT_MAX <? limit)
  then UVM_CONF_COMPUTING_IV_REMAINING_LIMIT_DEFAULT else limit.

Definition csl_set_limit (l : Z) (c : csl_state) : csl_state :=
  mk_csl_state (cs_decrypt c) (cs_encrypt c) (cs_version c) (cs_encrypted c)
    (cs_decrypted c) (cs_rotation c) l.

Definition uvm_conf_computing_gpu_init : K nv_status :=
  if negb env_cc then kret NV_OK else
  st ← conf_computing_dma_buffer_pool_init;
  if negb (is_ok st) then kret st else
  st ← ext_status;                      (* dummy_iv_mem_init *)
  if negb (is_ok st) then uvm_conf_computing_gpu_deinit ;; kret st else
  kmod (fun s => set_csl (csl_set_limit (clamp_iv_limit (cs_iv_limit (k_csl s))) (k_csl s)) s) ;;
  kret NV_OK.

(** ** Keys *)

Definition key_rotation_is_notifier_driven : bool := negb env_tests.

Definition csl_set_rotation (r : bool) (c : csl_state) : csl_state :=
  mk_csl_state (cs_decrypt c) (cs_encrypt c) (cs_version c) (cs_encrypted c)
    (cs_decrypted c) r (cs_iv_limit c).

Definition uvm_conf_computing_enable_key_rotation : K unit :=
  if negb env_cc then kret tt else
  if negb env_rm_rotation then kret tt else
  kmod (fun s => set_csl (csl_set_rotation true (k_csl s)) s).

Definition uvm_conf_computing_disable_key_rotation : K unit :=
  if negb env_cc then kret tt else
  kmod (fun s => set_csl (csl_set_rotation false (k_csl s)) s).

Definition uvm_conf_computing_is_key_rotation_enabled_in_pool (k : pool_kind) (c : csl_state)
    : bool :=
  if negb (cs_rotation c) then false
  else if bool_decide (k = POOL_SEC2) then false
  else if bool_decide (k = POOL_LCIC) then false
  else true.

Definition conf_computing_is_key_rotation_pending_use_stats (c : csl_state) : bool :=
  if UVM_CONF_COMPUTING_KEY_ROTATION_LOWER_THRESHOLD <? cs_decrypted c then true
  else UVM_CONF_COMPUTING_KEY_ROTATION_LOWER_THRESHOLD <? cs_encrypted c.

Definition uvm_conf_computing_is_key_rotation_pending_in_pool (k : pool_kind) : K bool :=
  c ← kget k_csl;
  if negb (uvm_conf_computing_is_key_rotation_enabled_in_pool k c) then kret false
  else if key_rotation_is_notifier_driven then n ← tick; kret (env_notifier n)
  else kret (conf_computing_is_key_rotation_pending_use_stats c).

Definition csl_rotate_key (c : csl_state) : csl_state :=
  let keep := key_rotation_is_notifier_driven in
  mk_csl_state (cs_decrypt c) (cs_encrypt c) (u32 (cs_version c + 1))
    (if keep then cs_encrypted c else 0) (if keep then cs_decrypted c else 0)
    (cs_rotation c) (cs_iv_limit c).

Definition uvm_conf_computing_rotate_pool_key : K nv_status :=
  st ← ext_status;                      (* nvUvmInterfaceCslRotateKey *)
  (if is_ok st then kmod (fun s => set_csl (csl_rotate_key (k_csl s)) s) else kret tt) ;;
  kret st.

(** [uvm_channel_wait] reports the error of the channel; NV_ERR_STATE_IN_USE is
    the answer of RM's rotation calls alone. *)
Definition uvm_channel_wait : K nv_status :=
  st ← ext_status;
  kret (if bool_decide (st = NV_ERR_STATE_IN_USE) then NV_ERR_OTHER 0 else st).

(** Every channel of the pool is idle before the key changes. *)
Definition channel_pool_rotate_key_locked : K nv_status :=
  '(ex, _) ← kfold (fun (_ : unit) (_ : Z) =>
                      st ← uvm_channel_wait; kret (leave_on_error st, tt)) tt env_channels;
  match ex with
  | Some st => kret st
  | None => uvm_conf_computing_rotate_pool_key
  end.

Definition channel_pool_rotate_key (k : pool_kind) (force_rotation : bool) : K nv_status :=
  lock_acquire LKeyRotation ;;
  pending ← (if force_rotation then kret true
             else uvm_conf_computing_is_key_rotation_pending_in_pool k);
  status ← (if pending : bool then channel_pool_rotate_key_locked else kret NV_OK);
  lock_release LKeyRotation ;;
  kret status.

Definition channel_pool_rotate_key_if_pending (k : pool_kind) : K nv_status :=
  c ← kget k_csl;
  if negb (uvm_conf_computing_is_key_rotation_enabled_in_pool k c) then kret NV_OK else
  status ← channel_pool_rotate_key k false;
  kret (if bool_decide (status = NV_ERR_STATE_IN_USE) then NV_OK else status).

Definition uvm_channel_pool_key_version (s : kst) : Z := cs_version (k_csl s).

(** ** IVs *)

Definition ctr_get (m : gmap Z csl_ctr) (chan : Z) : csl_ctr :=
  default (mk_csl_ctr 0 0) (m !! chan).
Definition ctr_remaining (c : csl_ctr) : Z := csl_remaining (ctr_used c).
Definition ctr_bump (c : csl_ctr) : csl_ctr := mk_csl_ctr (ctr_epoch c) (ctr_used c + 1).
Definition ctr_rotate (c : csl_ctr) : csl_ctr := mk_csl_ctr (ctr_epoch c + 1) 0.

Definition csl_set_decrypt (chan : Z) (ctr : csl_ctr) (c : csl_state) : csl_state :=
  mk_csl_state (<[chan := ctr]> (cs_decrypt c)) (cs_encrypt c) (cs_version c) (cs_encrypted c)
    (cs_decrypted c) (cs_rotation c) (cs_iv_limit c).
Definition csl_set_encrypt (chan : Z) (ctr : csl_ctr) (c : csl_state) : csl_state :=
  mk_csl_state (cs_decrypt c) (<[chan := ctr]> (cs_encrypt c)) (cs_version c) (cs_encrypted c)
    (cs_decrypted c) (cs_rotation c) (cs_iv_limit c).
Definition csl_add_stats (enc dec : Z) (c : csl_state) : csl_state :=
  mk_csl_state (cs_decrypt c) (cs_encrypt c) (cs_version c) (u64 (cs_encrypted c + enc))
    (u64 (cs_decrypted c + dec)) (cs_rotation c) (cs_iv_limit c).

(** A call of [nvUvmInterfaceCslIncrementIv] for the DECRYPT direction: the IV of
    the next message, none when no message is left. *)
Definition csl_increment_decrypt_iv (chan : Z) : K (option UvmCslIv) :=
  c ← kget k_csl;
  let ctr := ctr_get (cs_decrypt c) chan in
  if ctr_remaining ctr <=? 0 then kret None else
  kmod (fun s => set_csl (csl_set_decrypt chan (ctr_bump ctr) c) s) ;;
  kret (Some (csl_iv chan (ctr_epoch ctr) (ctr_used ctr))).

Definition csl_increment_encrypt_iv (chan : Z) : K (option UvmCslIv) :=
  c ← kget k_csl;
  let ctr := ctr_get (cs_encrypt c) chan in
  if ctr_remaining ctr <=? 0 then kret None else
  kmod (fun s => set_csl (csl_set_encrypt chan (ctr_bump ctr) c) s) ;;
  kret (Some (csl_iv chan (ctr_epoch ctr) (ctr_used ctr))).

(** The byte accounting that follows [nvUvmInterfaceCslLogEncryption]. *)
Definition log_stats (enc dec : Z) : K unit :=
  c ← kget k_csl;
  if uvm_conf_computing_is_key_rotation_enabled_in_pool POOL_CE c then
    ext_status ;;
    if negb key_rotation_is_notifier_driven
    then kmod (fun s => set_csl (csl_add_stats enc dec (k_csl s)) s) else kret tt
  else kret tt.

Definition uvm_conf_computing_log_gpu_encryption (chan size : Z) : K (option UvmCslIv) :=
  lock_acquire (LCtx chan) ;;
  log_stats size 0 ;;
  iv ← csl_increment_decrypt_iv chan;
  lock_release (LCtx chan) ;;
  kret iv.

Definition uvm_conf_computing_acquire_encryption_iv (chan : Z) : K (option UvmCslIv) :=
  lock_acquire (LCtx chan) ;;
  iv ← csl_increment_encrypt_iv chan;
  lock_release (LCtx chan) ;;
  kret iv.

(** The ciphertext and tag, none when the IV counter is exhausted. *)
Definition uvm_conf_computing_cpu_encrypt (chan : Z) (src_plain : list Z)
    : K (option (list Z * list Z)) :=
  lock_acquire (LCtx chan) ;;
  ver ← kget uvm_channel_pool_key_version;
  iv ← csl_increment_encrypt_iv chan;
  log_stats 0 (Z.of_nat (length src_plain)) ;;
  lock_release (LCtx chan) ;;
  kret ((fun iv => csl_encrypt ver iv src_plain) <$> iv).

(** The plaintext when the call succeeds and the tag verifies. *)
Definition uvm_conf_computing_cpu_decrypt (chan : Z) (cipher : list Z) (iv : UvmCslIv)
    (key_version : Z) (tag : list Z) : K (nv_status * list Z) :=
  lock_acquire (LCtx chan) ;;
  st ← ext_status;
  lock_release (LCtx chan) ;;
  kret (if negb (is_ok st) then (st, [])
        else match csl_decrypt key_version iv cipher tag with
             | Some p => (NV_OK, p)
             | None => (NV_ERR_INVALID_ARGUMENT, [])
             end).

Definition uvm_conf_computing_query_message_pools (chan : Z) : K (Z * Z) :=
  lock_acquire (LCtx chan) ;;
  c ← kget k_csl;
  lock_release (LCtx chan) ;;
  kret (ctr_remaining (ctr_get (cs_encrypt c) chan),
        ctr_remaining (ctr_get (cs_decrypt c) chan)).

(** A call of [nvUvmInterfaceCslRotateIv], with RM's status. *)
Definition csl_rotate_iv (decrypt : bool) (chan : Z) : K nv_status :=
  st ← ext_status;
  c ← kget k_csl;
  (if is_ok st then
     kmod (set_csl (if decrypt
                    then csl_set_decrypt chan (ctr_rotate (ctr_get (cs_decrypt c) chan)) c
                    else csl_set_encrypt chan (ctr_rotate (ctr_get (cs_encrypt c) chan)) c))
   else kret tt) ;;
  kret st.

Definition uvm_conf_computing_rotate_channel_ivs_below_limit_internal
    (is_ce : bool) (chan limit : Z) : K nv_status :=
  '(remaining_encryptions, remaining_decryptions) ← uvm_conf_computing_query_message_pools chan;
  let rotate_decryption_iv := (remaining_decryptions <=? limit) && is_ce in
  let rotate_encryption_iv := remaining_encryptions <=? limit in
  if negb rotate_encryption_iv && negb rotate_decryption_iv then kret NV_OK else
  status ← uvm_channel_wait;
  if negb (is_ok status) then kret status else
  lock_acquire (LCtx chan) ;;
  status ← (if rotate_encryption_iv then csl_rotate_iv false chan else kret status);
  status ← (if is_ok status && rotate_decryption_iv then csl_rotate_iv true chan else kret status);
  lock_release (LCtx chan) ;;
  kret (if bool_decide (status = NV_ERR_STATE_IN_USE)
           && ((remaining_encryptions <? UVM_CONF_COMPUTING_IV_REMAINING_LIMIT_MIN)
               || (remaining_decryptions <? UVM_CONF_COMPUTING_IV_REMAINING_LIMIT_MIN))
        then NV_ERR_INSUFFICIENT_RESOURCES else status).

(** With [retry_if_busy] the loop is followed for [env_retries] attempts. *)
Fixpoint rotate_retry (fuel : nat) (is_ce : bool) (chan limit : Z) : K nv_status :=
  status ← uvm_conf_computing_rotate_channel_ivs_below_limit_internal is_ce chan limit;
  match fuel with
  | S fuel' => if bool_decide (status = NV_ERR_STATE_IN_USE)
               then rotate_retry fuel' is_ce chan limit else kret status
  | O => kret status
  end.

Definition uvm_conf_computing_rotate_channel_ivs_below_limit
    (is_ce : bool) (chan limit : Z) (retry_if_busy : bool) : K nv_status :=
  status ← rotate_retry (if retry_if_busy then env_retries else 0%nat) is_ce chan limit;
  kret (if negb retry_if_busy && bool_decide (status = NV_ERR_STATE_IN_USE) then NV_OK else status).

Definition uvm_conf_computing_maybe_rotate_channel_ivs (is_ce : bool) (chan : Z) : K nv_status :=
  limit ← kget (fun s => cs_iv_limit (k_csl s));
  uvm_conf_computing_rotate_channel_ivs_below_limit is_ce chan limit false.

Definition uvm_conf_computing_maybe_rotate_channel_ivs_retry_busy (is_ce : bool) (chan : Z)
    : K nv_status :=
  limit ← kget (fun s => cs_iv_limit (k_csl s));
  uvm_conf_computing_rotate_channel_ivs_below_limit is_ce chan limit true.

(** ** Pushes on the GPU_TO_CPU pool *)

(** The search for a channel with room is the environment's: it reports the
    channel claimed, or the error a channel shows while the loop spins. *)
Definition channel_reserve_and_lock_in_pool (k : pool_kind) : K (nv_status * Z) :=
  status ← channel_pool_rotate_key_if_pending k;
  if negb (is_ok status) then kret (status, 0) else
  n ← tick;
  kret (env_status n, env_channel n).

(** The launch channel of another pool is reserved and its IVs rotated by
    calls whose outcome is the environment's. *)
Definition channel_rotate_and_reserve_launch_channel (chan : Z) : K nv_status :=
  status ← uvm_conf_computing_maybe_rotate_channel_ivs true chan;
  if negb (is_ok status) then kret status else ext_status.

Definition uvm_channel_begin_push (chan : Z) : K nv_status :=
  status ← (if env_cc then channel_rotate_and_reserve_launch_channel chan else kret NV_OK);
  if negb (is_ok status) then kret status else ext_status.

(** [uvm_push_begin]: a reserved channel with the push begun on it. *)
Definition uvm_push_begin : K (nv_status * Z) :=
  '(status, chan) ← (if env_cc then channel_reserve_and_lock_in_pool POOL_CE
                     else n ← tick; kret (env_status n, env_channel n));
  if negb (is_ok status) then kret (status, chan) else
  status ← uvm_channel_begin_push chan;
  kret (status, chan).

(** [channel_semaphore_gpu_encrypt_payload], part of ending a push: the
    4-byte semaphore payload is encrypted with an IV of its own. *)
Definition uvm_push_end (chan : Z) : K unit :=
  if env_cc then uvm_conf_computing_log_gpu_encryption chan 4 ;; kret tt else kret tt.

Definition uvm_push_wait : K nv_status := ext_status.

(** ** Encrypted copies *)

(** Writes a prefix of a memory area. *)
Definition overlay (new old : list Z) : list Z := new ++ drop (length new) old.

(** The same in the memory of a DMA buffer, as far as it goes. *)
Definition dma_write (new old : list Z) : list Z :=
  let all := overlay new old in
  if Z.of_nat (length all) <=? UVM_CONF_COMPUTING_DMA_BUFFER_SIZE then all
  else take (Z.to_nat UVM_CONF_COMPUTING_DMA_BUFFER_SIZE) all.

(** The commands of a GPU-to-CPU transfer: log the IV into the buffer, record
    the key version, have the copy engine encrypt [size] bytes of video memory
    into the buffer.  The engine runs with the IV just logged; a channel with
    no IV left transfers nothing. *)
Definition gpu_encrypt_to_buffer (chan b : Z) (pa : phys_address) (size : Z) : K unit :=
  iv ← uvm_conf_computing_log_gpu_encryption chan size;
  kmod (fun s => let d := buf_get s b in
    buf_set b (mk_dma_buffer (db_alloc d) (db_auth_tag d) (default (db_decrypt_iv d) iv)
                 (uvm_channel_pool_key_version s)) s) ;;
  match iv with
  | None => kret tt
  | Some iv =>
      kmod (fun s => let d := buf_get s b in
        let '(cipher, tag) := csl_encrypt (uvm_channel_pool_key_version s) iv (vid_read pa size) in
        buf_set b (mk_dma_buffer (dma_write cipher (db_alloc d)) (overlay tag (db_auth_tag d))
                     (db_decrypt_iv d) (db_key_version d)) s)
  end.

(** What [memcpy] reads of a buffer: [size] bytes of ciphertext and the tag. *)
Definition buf_cipher (d : dma_buffer) (size : Z) : list Z := take (Z.to_nat size) (db_alloc d).
Definition buf_tag (d : dma_buffer) : list Z :=
  take (Z.to_nat UVM_CONF_COMPUTING_AUTH_TAG_SIZE) (db_auth_tag d).

Definition uvm_conf_computing_util_memcopy_gpu_to_cpu (pa : phys_address) (size : Z)
    : K (nv_status * list Z) :=
  '(status, b) ← uvm_conf_computing_dma_buffer_alloc;
  match b with
  | None => kret (status, [])
  | Some b =>
      '(status, chan) ← uvm_push_begin;
      r ← (if negb (is_ok status) then kret (status, []) else
           gpu_encrypt_to_buffer chan b pa size ;;
           uvm_push_end chan ;;
           status ← uvm_push_wait;
           if negb (is_ok status) then kret (status, []) else
           d ← kget (fun s => buf_get s b);
           uvm_conf_computing_cpu_decrypt chan (buf_cipher d size) (db_decrypt_iv d)
             (db_key_version d) (buf_tag d));
      uvm_conf_computing_dma_buffer_free (Some b) ;;
      kret r
  end.

(** The result: ciphertext, tag, IV and key version. *)
Definition uvm_conf_computing_util_memcopy_gpu_to_cpu_encrypted (pa : phys_address) (size : Z)
    : K (nv_status * option (list Z * list Z * UvmCslIv * Z)) :=
  '(status, b) ← uvm_conf_computing_dma_buffer_alloc;
  match b with
  | None => kret (status, None)
  | Some b =>
      '(status, chan) ← uvm_push_begin;
      r ← (if negb (is_ok status) then kret (status, None) else
           gpu_encrypt_to_buffer chan b pa size ;;
           uvm_push_end chan ;;
           status ← uvm_push_wait;
           if negb (is_ok status) then kret (status, None) else
           d ← kget (fun s => buf_get s b);
           kret (NV_OK, Some (buf_cipher d size, buf_tag d, db_decrypt_iv d, db_key_version d)));
      uvm_conf_computing_dma_buffer_free (Some b) ;;
      kret r
  end.
End ConfComputing.

(** ** Frames of the CC operations *)

(** Only the CSL state (and ticks, locks, allocation counts) may change. *)
Definition csl_only (s s' : kst) : Prop :=
  k_user s' = k_user s /\ k_meta s' = k_meta s /\ k_bufs s' = k_bufs s /\
  k_free s' = k_free s /\ k_num s' = k_num s /\ k_next s' = k_next s /\
  k_faults s' = k_faults s /\ k_flog s' = k_flog s.

#[export] Instance csl_only_ambient : Ambient csl_only.
Proof.
  split; [|done|done|done]. split; [done|].
  unfold csl_only; intros x y z H1 H2. intuition congruence.
Qed.

(** A 32-bit key version. *)
Definition version_in (c : csl_state) : Prop := 0 <= cs_version c < 2 ^ 32.

Definition iv_step (s s' : kst) : Prop :=
  cs_iv_limit (k_csl s') = cs_iv_limit (k_csl s) /\ (version_in (k_csl s) -> version_in (k_csl s')).

#[export] Instance iv_step_ambient : Ambient iv_step.
Proof.
  split; [|by split..]. split; [by split|].
  unfold iv_step; intros x y z (?&?) (?&?). split; [congruence|auto].
Qed.

Lemma ctr_get_insert m ch ctr ch' :
  ctr_get (<[ch := ctr]> m) ch' = if decide (ch' = ch) then ctr else ctr_get m ch'.
Proof.
  unfold ctr_get. destruct (decide (ch' = ch)) as [->|Hne].
  - by rewrite lookup_insert_eq.
  - by rewrite lookup_insert_ne by congruence.
Qed.

Ltac iv_same := split; [done|intros; first [done|by apply Z.mod_pos_bound]].

Section CcFrames.
Context `{E : Env} `{G : CcGpu}.

(** Both frames of an operation, by walking its code once. *)
Ltac frame := keeps ltac:(first [by repeat split|iv_same]).

Lemma csl_only_increment chan : Keeps csl_only (csl_increment_decrypt_iv chan).
Proof. unfold csl_increment_decrypt_iv. frame. Qed.
Lemma iv_step_increment chan : Keeps iv_step (csl_increment_decrypt_iv chan).
Proof.
  intros s. unfold csl_increment_decrypt_iv, kbind, kget; cbn. by destruct (_ <=? _).
Qed.
Hint Resolve csl_only_increment iv_step_increment : keeps.

Lemma csl_only_log_stats e d : Keeps csl_only (log_stats e d).
Proof. unfold log_stats. frame. Qed.
Lemma iv_step_log_stats e d : Keeps iv_step (log_stats e d).
Proof. unfold log_stats. frame. Qed.
Hint Resolve csl_only_log_stats iv_step_log_stats : keeps.

Lemma csl_only_log_gpu_encryption chan size :
  Keeps csl_only (uvm_conf_computing_log_gpu_encryption chan size).
Proof. unfold uvm_conf_computing_log_gpu_encryption. frame. Qed.
Lemma iv_step_log_gpu_encryption chan size :
  Keeps iv_step (uvm_conf_computing_log_gpu_encryption chan size).
Proof. unfold uvm_conf_computing_log_gpu_encryption. frame. Qed.
Hint Resolve csl_only_log_gpu_encryption iv_step_log_gpu_encryption : keeps.

Lemma csl_only_push_end chan : Keeps csl_only (uvm_push_end chan).
Proof. unfold uvm_push_end. frame. Qed.
Lemma iv_step_push_end chan : Keeps iv_step (uvm_push_end chan).
Proof. unfold uvm_push_end. frame. Qed.

Lemma csl_only_rotate_key : Keeps csl_only uvm_conf_computing_rotate_pool_key.
Proof. unfold uvm_conf_computing_rotate_pool_key. frame. Qed.
Lemma iv_step_rotate_key : Keeps iv_step uvm_conf_computing_rotate_pool_key.
Proof. unfold uvm_conf_computing_rotate_pool_key. frame. Qed.
Hint Resolve csl_only_rotate_key iv_step_rotate_key : keeps.

Lemma csl_only_channel_wait : Keeps csl_only uvm_channel_wait.
Proof. unfold uvm_channel_wait. frame. Qed.
Lemma iv_step_channel_wait : Keeps iv_step uvm_channel_wait.
Proof. unfold uvm_channel_wait. frame. Qed.
Hint Resolve csl_only_channel_wait iv_step_channel_wait : keeps.

Lemma csl_only_rotate_if_pending k : Keeps csl_only (channel_pool_rotate_key_if_pending k).
Proof.
  unfold channel_pool_rotate_key_if_pending, channel_pool_rotate_key,
    uvm_conf_computing_is_key_rotation_pending_in_pool, channel_pool_rotate_key_locked. frame.
Qed.
Lemma iv_step_rotate_if_pending k : Keeps iv_step (channel_pool_rotate_key_if_pending k).
Proof.
  unfold channel_pool_rotate_key_if_pending, channel_pool_rotate_key,
    uvm_conf_computing_is_key_rotation_pending_in_pool, channel_pool_rotate_key_locked. frame.
Qed.
Hint Resolve csl_only_rotate_if_pending iv_step_rotate_if_pending : keeps.

Lemma csl_only_rotate_iv d chan : Keeps csl_only (csl_rotate_iv d chan).
Proof. unfold csl_rotate_iv. frame. Qed.
Lemma iv_step_rotate_iv d chan : Keeps iv_step (csl_rotate_iv d chan).
Proof.
  intros s. unfold csl_rotate_iv, ext_status, kbind, tick, kget, kmod, kret; cbn.
  destruct (is_ok _); cbn; [|iv_same]. destruct d; iv_same.
Qed.
Hint Resolve csl_only_rotate_iv iv_step_rotate_iv : keeps.

Lemma csl_only_rotate_ivs ce chan limit :
  Keeps csl_only (uvm_conf_computing_rotate_channel_ivs_below_limit_internal ce chan limit).
Proof.
  unfold uvm_conf_computing_rotate_channel_ivs_below_limit_internal,
    uvm_conf_computing_query_message_pools. frame.
Qed.
Lemma iv_step_rotate_ivs ce chan limit :
  Keeps iv_step (uvm_conf_computing_rotate_channel_ivs_below_limit_internal ce chan limit).
Proof.
  unfold uvm_conf_computing_rotate_channel_ivs_below_limit_internal,
    uvm_conf_computing_query_message_pools. frame.
Qed.
Hint Resolve csl_only_rotate_ivs iv_step_rotate_ivs : keeps.

Lemma csl_only_begin_push chan : Keeps csl_only (uvm_channel_begin_push chan).
Proof.
  unfold uvm_channel_begin_push, channel_rotate_and_reserve_launch_channel,
    uvm_conf_computing_maybe_rotate_channel_ivs,
    uvm_conf_computing_rotate_channel_ivs_below_limit; cbn [rotate_retry]. frame.
Qed.
Lemma iv_step_begin_push chan : Keeps iv_step (uvm_channel_begin_push chan).
Proof.
  unfold uvm_channel_begin_push, channel_rotate_and_reserve_launch_channel,
    uvm_conf_computing_maybe_rotate_channel_ivs,
    uvm_conf_computing_rotate_channel_ivs_below_limit; cbn [rotate_retry]. frame.
Qed.
Hint Resolve csl_only_begin_push iv_step_begin_push : keeps.

Lemma csl_only_push_begin : Keeps csl_only uvm_push_begin.
Proof. unfold uvm_push_begin, channel_reserve_and_lock_in_pool. frame. Qed.
Lemma iv_step_push_begin : Keeps iv_step uvm_push_begin.
Proof. unfold uvm_push_begin, channel_reserve_and_lock_in_pool. frame. Qed.

Lemma csl_only_cpu_decrypt chan c iv v t :
  Keeps csl_only (uvm_conf_computing_cpu_decrypt chan c iv v t).
Proof. unfold uvm_conf_computing_cpu_decrypt. frame. Qed.
Lemma iv_step_cpu_decrypt chan c iv v t :
  Keeps iv_step (uvm_conf_computing_cpu_decrypt chan c iv v t).
Proof. unfold uvm_conf_computing_cpu_decrypt. frame. Qed.
End CcFrames.

#[export] Hint Resolve csl_only_log_gpu_encryption iv_step_log_gpu_encryption csl_only_push_end
  iv_step_push_end csl_only_push_begin iv_step_push_begin csl_only_cpu_decrypt
  iv_step_cpu_decrypt csl_only_begin_push iv_step_begin_push csl_only_rotate_if_pending
  iv_step_rotate_if_pending csl_only_rotate_ivs iv_step_rotate_ivs : keeps.

(** ** IV budget and transfers *)

Section Transfers.
Context `{E : Env} `{G : CcGpu}.

(** IVs left to the GPU encryptions of a channel. *)
Definition iv_budget (s : kst) (chan : Z) : Z :=
  ctr_remaining (ctr_get (cs_decrypt (k_csl s)) chan).

(** A push can encrypt at most this many messages. *)
Definition push_budget (s : kst) (chan : Z) : Prop :=
  UVM_CONF_COMPUTING_IV_REMAINING_LIMIT_MIN <= iv_budget s chan.

Definition iv_limit_ok (s : kst) : Prop :=
  UVM_CONF_COMPUTING_IV_REMAINING_LIMIT_MIN <= cs_iv_limit (k_csl s).

Lemma wp_ext_status (Q : nv_status -> kst -> Prop) s :
  (forall st t, Q st (set_tick t s)) -> wp ext_status Q s.
Proof. intros H. apply H. Qed.

Lemma wp_csl_rotate_iv (d : bool) chan (Q : nv_status -> kst -> Prop) s :
  (forall st s', k_csl s' = k_csl s -> st <> NV_OK -> Q st s') ->
  (forall s', iv_budget s' chan = (if d then NV_U32_MAX else iv_budget s chan) -> Q NV_OK s') ->
  wp (csl_rotate_iv d chan) Q s.
Proof.
  intros Herr Hok. unfold wp, csl_rotate_iv, ext_status, kbind, tick, kget, kmod, kret; cbn.
  destruct (is_ok _) eqn:Hst; cbn.
  - apply is_ok_true in Hst. rewrite Hst. apply Hok. unfold iv_budget. destruct d; cbn; [|done].
    rewrite ctr_get_insert, decide_True by done. apply csl_remaining_fresh.
  - apply is_ok_false in Hst. by apply Herr.
Qed.

Lemma wp_channel_wait (Q : nv_status -> kst -> Prop) s :
  (forall st t, st <> NV_ERR_STATE_IN_USE -> Q st (set_tick t s)) -> wp uvm_channel_wait Q s.
Proof.
  intros HQ. apply wp_bind, wp_ext_status. intros st t. apply wp_ret, HQ.
  destruct (bool_decide _) eqn:H; [done|]. by apply bool_decide_eq_false in H.
Qed.

(** A rotation attempt that succeeds, or finds RM busy, leaves the channel a
    push's worth of IVs. *)
Lemma rotate_internal_budget chan limit s :
  UVM_CONF_COMPUTING_IV_REMAINING_LIMIT_MIN <= limit ->
  wp (uvm_conf_computing_rotate_channel_ivs_below_limit_internal true chan limit)
     (fun st s' => st = NV_OK \/ st = NV_ERR_STATE_IN_USE -> push_budget s' chan) s.
Proof.
  intros Hlim. unfold push_budget.
  assert (UVM_CONF_COMPUTING_IV_REMAINING_LIMIT_MIN <= NV_U32_MAX) as Hmax by done.
  unfold uvm_conf_computing_rotate_channel_ivs_below_limit_internal,
    uvm_conf_computing_query_message_pools.
  wdet. cbv iota.
  change (ctr_remaining (ctr_get (cs_decrypt _) chan)) with (iv_budget s chan).
  set (enc := ctr_remaining _). rewrite andb_true_r. cbv zeta.
  destruct (negb _ && _) eqn:Hn.
  { apply wp_ret. intros _. apply andb_prop in Hn as [_ Hn]. btest.
    unfold iv_budget in *; cbn in *. lia. }
  wdet. apply wp_channel_wait. intros st t Hbusy. destruct (is_ok st) eqn:Hst; cbn [negb].
  2:{ apply wp_ret. apply is_ok_false in Hst. by intros [?|?]. }
  apply is_ok_true in Hst as ->. wdet.
  set (s1 := set_locks _ _ _). change (iv_budget s chan) with (iv_budget s1 chan).
  clearbody s1. clearbody enc. clear s t Hbusy Hn.
  apply wp_mono with (Q := fun st s' => iv_budget s' chan = iv_budget s1 chan).
  { destruct (enc <=? limit); [|by apply wp_ret].
    apply wp_csl_rotate_iv; [|done]. intros st s' Hc _. unfold iv_budget. by rewrite Hc. }
  intros st1 s2 Hb2. wdet.
  apply wp_mono with (Q := fun st s' => iv_budget s' chan = NV_U32_MAX \/
    iv_budget s' chan = iv_budget s1 chan /\ (st = NV_OK -> limit < iv_budget s1 chan)).
  { destruct (is_ok st1 && _) eqn:Hr.
    - apply wp_csl_rotate_iv; [|auto]. intros st s' Hc Hst. right.
      split; [|done]. unfold iv_budget in *. by rewrite Hc.
    - apply wp_ret. right. split; [done|]. intros ->. rewrite is_ok_NV_OK in Hr. by apply Z.leb_gt in Hr. }
  intros st2 s3 Hb3. wdet.
  set (bad := (_ <? _) || (_ <? _)). change (iv_budget (set_locks _ _ _) chan) with (iv_budget s3 chan).
  intros Hok. destruct Hb3 as [Hb3|[Hb3 Hgt]]; rewrite Hb3; [done|].
  destruct (bool_decide (st2 = NV_ERR_STATE_IN_USE)) eqn:Hbz; cbn in Hok.
  - destruct bad eqn:Hbad; subst bad; [by destruct Hok|]. btest.
  - apply bool_decide_eq_false in Hbz. destruct Hok as [Hok|Hok]; [|done]. specialize (Hgt Hok). lia.
Qed.

(** A push that has begun in CC mode holds a channel with IVs for all the
    encryptions a push can make. *)
Lemma push_begin_budget s :
  env_cc = true -> iv_limit_ok s ->
  wp uvm_push_begin (fun '(st, chan) s' => st = NV_OK -> push_budget s' chan) s.
Proof.
  intros Hcc Hlim. unfold uvm_push_begin. rewrite Hcc. apply wp_bind.
  apply wp_mono with (Q := fun _ s' => iv_limit_ok s').
  { apply (wp_keeps iv_step); [unfold channel_reserve_and_lock_in_pool; keeps idtac|].
    intros r s' [Hl _]. unfold iv_limit_ok. by rewrite Hl. }
  intros [st chan] s1 Hl1. apply wp_if; intros Hst; [apply wp_ret; bprop; done|].
  apply wp_bind. unfold uvm_channel_begin_push. rewrite Hcc.
  apply wp_bind. unfold channel_rotate_and_reserve_launch_channel,
    uvm_conf_computing_maybe_rotate_channel_ivs. wdet.
  unfold uvm_conf_computing_rotate_channel_ivs_below_limit; cbn [rotate_retry].
  wdet. eapply wp_mono; [by apply rotate_internal_budget|].
  intros st1 s2 Hb. wdet. set (st2 := if _ && _ then NV_OK else st1).
  assert (st2 = NV_OK -> push_budget s2 chan) as Hb2.
  { subst st2. cbn. destruct (bool_decide _) eqn:Hbz; bprop; auto. }
  clearbody st2. apply wp_if; intros Hok; bprop.
  { apply wp_ret. rewrite (proj2 (is_ok_false st2) Hok); cbn [negb]. by wdet. }
  apply wp_ext_status. intros st3 t. apply wp_if; intros H3; [wdet; bprop; done|].
  apply wp_ext_status. intros st4 t4. apply wp_ret. intros _. by apply Hb2.
Qed.

(** An IV as the metadata holds it: 12 bytes and a flag byte. *)
Definition iv_ok (iv : UvmCslIv) : Prop := length (fst iv) = 12%nat /\ 0 <= snd iv < 256.

Lemma csl_iv_ok c e n : iv_ok (csl_iv c e n).
Proof. split; [apply csl_iv_length|apply csl_iv_fresh]. Qed.

(** Encrypting uses one IV of the channel. *)
Lemma wp_log_gpu_encryption chan size (Q : option UvmCslIv -> kst -> Prop) s :
  0 < iv_budget s chan ->
  (forall iv s', csl_only s s' -> iv_step s s' ->
     iv_budget s' chan = iv_budget s chan - 1 -> iv_ok iv -> Q (Some iv) s') ->
  wp (uvm_conf_computing_log_gpu_encryption chan size) Q s.
Proof.
  intros Hb HQ.
  assert (wp (uvm_conf_computing_log_gpu_encryption chan size) (fun iv s' =>
            (exists i, iv = Some i /\ iv_ok i) /\
            iv_budget s' chan = iv_budget s chan - 1) s) as H.
  { unfold uvm_conf_computing_log_gpu_encryption. wdet.
    apply wp_mono with (Q := fun _ s' => iv_budget s' chan = iv_budget s chan).
    { unfold wp, log_stats, kbind, kget, kret, kmod, ext_status, tick; cbn.
      destruct (uvm_conf_computing_is_key_rotation_enabled_in_pool _ _); cbn; [|done].
      by destruct (negb _). }
    intros _ s1 Hb1. unfold csl_increment_decrypt_iv. wdet. cbv zeta.
    change (ctr_remaining _) with (iv_budget s1 chan) at 1.
    apply wp_if; intros Hr; btest. wdet. split; [eauto using csl_iv_ok|].
    unfold iv_budget in *. cbn. rewrite ctr_get_insert, decide_True by done.
    unfold ctr_remaining, ctr_bump in *. cbn. rewrite csl_remaining_next. lia. }
  destruct H as [(iv & Hiv & Hlen) Hb']. unfold wp.
  pose proof (csl_only_log_gpu_encryption chan size s).
  pose proof (iv_step_log_gpu_encryption chan size s).
  rewrite Hiv. by apply HQ.
Qed.

(** A buffer that holds an encrypted copy of [size] bytes at [pa]: its
    metadata decrypts its ciphertext to the video memory. *)
Definition holds_copy (d : dma_buffer) (pa : phys_address) (size : Z) : Prop :=
  csl_decrypt (db_key_version d) (db_decrypt_iv d) (buf_cipher d size) (buf_tag d)
    = Some (vid_read pa size) /\
  Z.of_nat (length (buf_cipher d size)) = size /\
  Z.of_nat (length (buf_tag d)) = UVM_CONF_COMPUTING_AUTH_TAG_SIZE /\
  iv_ok (db_decrypt_iv d) /\ 0 <= db_key_version d < 2 ^ 32.

Lemma length_vid_read pa size : 0 <= size -> Z.of_nat (length (vid_read pa size)) = size.
Proof. intros. unfold vid_read. rewrite length_fmap, length_seqZ. lia. Qed.

(** Everything but the CSL state and the contents of buffer [b]. *)
Definition buf_only (b : Z) (s s' : kst) : Prop :=
  k_user s' = k_user s /\ k_meta s' = k_meta s /\
  k_free s' = k_free s /\ k_num s' = k_num s /\ k_next s' = k_next s /\
  k_faults s' = k_faults s /\ k_flog s' = k_flog s /\
  (exists d, k_bufs s' = <[b := d]> (k_bufs s)) /\ iv_step s s'.

Lemma take_dma_write n new old :
  Z.of_nat n <= UVM_CONF_COMPUTING_DMA_BUFFER_SIZE -> take n (dma_write new old) = take n (overlay new old).
Proof.
  intros Hn. unfold dma_write. case_match; [done|]. rewrite take_take. f_equal. lia.
Qed.

Lemma gpu_encrypt_holds chan b pa size s :
  0 <= size <= UVM_CONF_COMPUTING_DMA_BUFFER_SIZE -> 0 < iv_budget s chan -> version_in (k_csl s) ->
  wp (gpu_encrypt_to_buffer chan b pa size)
     (fun _ s' => holds_copy (buf_get s' b) pa size /\ buf_only b s s' /\
                  iv_budget s' chan = iv_budget s chan - 1) s.
Proof.
  intros Hsz Hb Hver. unfold gpu_encrypt_to_buffer. wdet.
  apply wp_log_gpu_encryption; [done|]. intros iv s1 Hf Hiv Hb1 Hil. wdet.
  set (ver := uvm_channel_pool_key_version _).
  pose proof (csl_cipher_length ver iv (vid_read pa size)) as Hlc.
  pose proof (csl_tag_length ver iv (vid_read pa size)) as Hlt.
  pose proof (csl_decrypt_encrypt ver iv (vid_read pa size)) as Hdec.
  destruct (csl_encrypt ver iv (vid_read pa size)) as [cipher tag] eqn:Henc; cbn [fst snd] in *.
  pose proof (length_vid_read pa size (proj1 Hsz)).
  split_and!; [| |done].
  - unfold buf_get, buf_set at 1; cbn. rewrite !lookup_insert_eq; cbn. unfold holds_copy; cbn.
    unfold buf_cipher, buf_tag; cbn [db_alloc db_auth_tag].
    rewrite take_dma_write by lia. unfold overlay; cbn.
    rewrite !take_app_le, !take_ge by lia. split_and!; [done|lia|lia|apply Hil..|by apply Hiv|by apply Hiv].
  - unfold buf_only. destruct Hf as (?&?&?&?&?&?&?&?). unfold buf_set; cbn.
    split_and!; try congruence; [|by destruct Hiv].
    eexists. rewrite insert_insert_eq. by f_equal.
Qed.
End Transfers.

(** ** The buffer pool *)

(** Only ticks, locks and the allocation count change. *)
Definition quiet (s s' : kst) : Prop := csl_only s s' /\ k_csl s' = k_csl s.

#[export] Instance quiet_ambient : Ambient quiet.
Proof.
  split; [|by repeat split..]. split; [by repeat split|].
  intros x y z [H1 H2] [H3 H4]. split; [|congruence].
  exact (@PreOrder_Transitive _ _ amb_pre _ _ _ H1 H3).
Qed.

(** With the buffers [out] handed out: free and handed-out buffers are distinct
    and are the allocated ones, all with identities already drawn. *)
Record pool_shape (out : list Z) (s : kst) : Prop := {
  po_nodup : NoDup (k_free s ++ out);
  po_alloc : forall b, b ∈ k_free s ++ out <-> is_Some (k_bufs s !! b);
  po_next  : forall b, b ∈ k_free s ++ out -> b < k_next s;
}.

(** The invariant of the pool: also, [num_dma_buffers] counts them. *)
Definition pool_inv (out : list Z) (s : kst) : Prop :=
  pool_shape out s /\ k_num s = Z.of_nat (length (k_free s ++ out)) /\ 0 < k_num s.

(** A pool operation keeps the contents of the buffers handed out and all the
    state outside the pool. *)
Definition pool_frame (out : list Z) (s s' : kst) : Prop :=
  k_user s' = k_user s /\ k_meta s' = k_meta s /\ k_csl s' = k_csl s /\
  k_faults s' = k_faults s /\ k_flog s' = k_flog s /\
  forall b, b ∈ out -> k_bufs s' !! b = k_bufs s !! b.

Lemma pool_frame_trans out s1 s2 s3 :
  pool_frame out s1 s2 -> pool_frame out s2 s3 -> pool_frame out s1 s3.
Proof.
  intros (?&?&?&?&?&Hb1) (?&?&?&?&?&Hb2). repeat split; try congruence.
  intros b Hb. rewrite Hb2, Hb1; done.
Qed.

Lemma pool_frame_sub out out' s s' :
  (forall b, b ∈ out' -> b ∈ out) -> pool_frame out s s' -> pool_frame out' s s'.
Proof. unfold pool_frame. intros Hs H. repeat split; try apply H. intros b Hb; apply H; auto. Qed.

Lemma quiet_pool_frame out s s' : quiet s s' -> pool_frame out s s'.
Proof. intros [(?&?&Hb&?&?&?&?&?) ?]. repeat split; try done. intros b _. by rewrite Hb. Qed.

Lemma quiet_pool_shape out s s' : quiet s s' -> pool_shape out s -> pool_shape out s'.
Proof.
  intros [(?&?&Hb&Hf&?&Hn&?&?) ?] [Ha Hc Hd]. split; rewrite ?Hb, ?Hf, ?Hn; done.
Qed.

(** Handing a buffer out or back is a permutation of the books. *)
Lemma pool_shape_perm out s out' s' :
  k_bufs s' = k_bufs s -> k_next s' = k_next s ->
  k_free s' ++ out' ≡ₚ k_free s ++ out -> pool_shape out s -> pool_shape out' s'.
Proof.
  intros Hb Hn Hp [H1 H2 H3]. split.
  - by rewrite Hp.
  - intros b. rewrite Hp, Hb. apply H2.
  - intros b. rewrite Hp, Hn. apply H3.
Qed.

Section Pool.
Context `{E : Env} `{G : CcGpu}.

Definition create_post (out : list Z) (s : kst) (r : nv_status * option Z) (s' : kst) : Prop :=
  pool_frame out s s' /\ k_free s' = k_free s /\ k_num s' = k_num s /\
  match snd r with
  | Some b => fst r = NV_OK /\ pool_shape (b :: out) s'
  | None => fst r <> NV_OK /\ pool_shape out s'
  end.

(** Allocating a fresh identity. *)
Lemma pool_shape_new out s :
  pool_shape out s ->
  let s' := buf_set (k_next s) dma_buffer_zero (set_pool (k_free s) (k_num s) (k_next s + 1) s) in
  pool_shape (k_next s :: out) s' /\ pool_frame out s s'.
Proof.
  intros [H1 H2 H3]. set (b := k_next s).
  assert (b ∉ k_free s ++ out) as Hfresh by (intros Hin; apply H3 in Hin; subst b; lia).
  cbv zeta. split.
  - split; unfold buf_set; cbn.
    + rewrite <- Permutation_middle. by constructor.
    + intros x. rewrite <- Permutation_middle, elem_of_cons, H2.
      destruct (decide (x = b)) as [->|Hne]; [rewrite lookup_insert_eq; naive_solver|].
      rewrite lookup_insert_ne by done. naive_solver.
    + intros x. rewrite <- Permutation_middle, elem_of_cons. intros [->|Hx]; [lia|].
      apply H3 in Hx. subst b. lia.
  - repeat split; try done. unfold buf_set; cbn. intros x Hx.
    rewrite lookup_insert_ne; [done|]. intros <-. apply Hfresh, elem_of_app. by right.
Qed.

(** Destroying the buffer just allocated. *)
Lemma pool_shape_destroy out b s :
  pool_shape (b :: out) s ->
  wp (dma_buffer_destroy_locked b)
     (fun _ s' => pool_shape out s' /\ pool_frame out s s' /\ k_free s' = k_free s /\
                  k_num s' = k_num s) s.
Proof.
  intros [H1 H2 H3]. unfold dma_buffer_destroy_locked. apply wp_mod; cbn.
  rewrite <- Permutation_middle in H1. apply NoDup_cons in H1 as [Hb H1].
  assert (filter (fun x => x <> b) (k_free s) = k_free s) as Hf.
  { apply list_filter_id. intros x Hx ->. apply Hb, elem_of_app. by left. }
  split_and!; [|repeat split; try done; cbn; intros x Hx; rewrite lookup_delete_ne; [done|];
    intros <-; apply Hb, elem_of_app; by right|done|done].
  split; cbn; rewrite Hf; [done| |].
  - intros x. specialize (H2 x). rewrite <- Permutation_middle, elem_of_cons in H2.
    destruct (decide (x = b)) as [->|Hne].
    + rewrite lookup_delete_eq. split; [done|]. by intros [? ?].
    + rewrite lookup_delete_ne by done. rewrite <- H2. naive_solver.
  - intros x Hx. apply H3. rewrite <- Permutation_middle. by right.
Qed.

Lemma quiet_statuses {A} (xs : list A) s :
  wp (kfold (fun (_ : unit) (_ : A) => st ← ext_status; kret (leave_on_error st, tt)) tt xs)
     (fun r s' => quiet s s' /\ forall st, fst r = Some st -> st <> NV_OK) s.
Proof.
  apply wp_and; [apply (wp_keeps quiet); [keeps idtac|done]|].
  eapply wp_mono; [apply (wp_kfold_prefix (fun _ _ _ => True) (fun st _ _ => st <> NV_OK))|].
  - intros. wdet. apply wp_ext_status. intros st t. wdet. cbn.
    destruct (leave_on_error st) eqn:Hl; [|done]. by apply leave_on_error_Some in Hl as [-> ?].
  - done.
  - intros [[st|] l] s' H st' Hst; cbn in *; congruence.
Qed.

Lemma dma_buffer_create_correct out s :
  pool_shape out s -> wp dma_buffer_create (create_post out s) s.
Proof.
  intros Hs. unfold dma_buffer_create. apply wp_bind.
  apply wp_mono with (Q := fun _ s' => quiet s s'); [apply (wp_keeps quiet); [keeps idtac|done]|].
  intros n s0 Hq. pose proof (quiet_pool_shape _ _ _ Hq Hs) as Hs0.
  pose proof (quiet_pool_frame out _ _ Hq) as Hf0.
  destruct Hq as [(_&_&_&Hfr&Hnm&_&_&_) _].
  apply wp_if; intros Ha; [by wdet|]. wdet.
  destruct (pool_shape_new out s0 Hs0) as [Hs1 Hf1]. cbv zeta in Hs1, Hf1.
  set (s1 := buf_set _ _ _) in *.
  assert (k_free s1 = k_free s0 /\ k_num s1 = k_num s0) as [Hfr1 Hnm1] by done. clearbody s1.
  eapply wp_mono; [apply quiet_statuses|]. intros [[st|] []] s2 [Hq2 Hst]; cbn in Hst.
  all: pose proof (quiet_pool_shape _ _ _ Hq2 Hs1) as Hs2;
    pose proof (quiet_pool_frame out _ _ Hq2) as Hf2; destruct Hq2 as [(_&_&_&Hfr2&Hnm2&_&_&_) _].
  - apply wp_bind. eapply wp_mono; [by apply pool_shape_destroy|].
    intros _ s3 (Hs3 & Hf3 & Hfr3 & Hnm3). wdet.
    split_and!; [|congruence|congruence|split; [by apply Hst|done]].
    eauto using pool_frame_trans.
  - wdet. split_and!; [eauto using pool_frame_trans|congruence|congruence|done].
Qed.

(** Filling the pool: [i] buffers are added behind the free ones; on success
    [i = n], and a failure before the first one leaves the pool as it was. *)
Definition fill_post (out : list Z) (n : Z) (s : kst) (r : nv_status * Z) (s' : kst) : Prop :=
  pool_shape out s' /\ pool_frame out s s' /\ k_num s' = k_num s /\
  0 <= snd r <= n /\ (fst r = NV_OK <-> snd r = n) /\
  exists new, k_free s' = k_free s ++ new /\ Z.of_nat (length new) = snd r.

Lemma pool_fill_correct out n s :
  0 <= n -> pool_shape out s -> wp (pool_fill n) (fill_post out n s) s.
Proof.
  intros Hn Hs. unfold pool_fill. apply wp_bind.
  set (P := fun (i : Z) s' => pool_shape out s' /\ pool_frame out s s' /\ k_num s' = k_num s /\
    exists new, k_free s' = k_free s ++ new /\ Z.of_nat (length new) = i).
  eapply wp_mono; [apply (wp_kfold_prefix
    (fun ys i s' => P i s' /\ i = Z.of_nat (length ys))
    (fun st i s' => P i s' /\ i < n /\ st <> NV_OK))|].
  - intros ys x zs i s1 Hxs [(Hs1 & Hf1 & Hn1 & new & Hfr & Hlen) Hi]. wdet.
    assert (i < n) as Hlt.
    { apply (f_equal length) in Hxs. rewrite length_seqZ, length_app in Hxs. cbn in Hxs. lia. }
    eapply wp_mono; [by apply dma_buffer_create_correct|].
    intros [st [b|]] s2 (Hf2 & Hfr2 & Hn2 & Hst & Hs2); cbn in Hst, Hs2; wdet.
    + unfold dma_buffer_pool_add. wdet. cbn [fst snd].
      split; [|rewrite length_app; cbn; lia]. split_and!.
      * eapply pool_shape_perm; [..|exact Hs2]; [done|done|]. cbn.
        by rewrite <- app_assoc.
      * eapply pool_frame_trans; [exact Hf1|]. exact Hf2.
      * cbn. congruence.
      * exists (new ++ [b]). cbn. rewrite Hfr2, Hfr, app_assoc, length_app; cbn. split; [done|lia].
    + cbn [fst snd]. split_and!; [|lia|done]. split_and!; [done| |congruence|].
      * eauto using pool_frame_trans.
      * exists new. rewrite Hfr2. done.
  - split; [|done]. split_and!; [done|by repeat split|done|].
    exists []. by rewrite app_nil_r.
  - intros [[st|] i] s'; cbn [fst snd]; intros H; wdet; unfold fill_post; cbn [fst snd].
    + destruct H as [(Hs1 & Hf1 & Hn1 & new & Hfr & Hlen) [Hle Hst]].
      split_and!; try done; try lia; [|eauto]. split; [done|intros; cbn in *; lia].
    + rewrite length_seqZ in H. destruct H as [(Hs1 & Hf1 & Hn1 & new & Hfr & Hlen) Hi].
      split_and!; try done; try lia; [|eauto]. split; [intros; cbn in *; lia|done].
Qed.
End Pool.

Section PoolOps.
Context `{E : Env} `{G : CcGpu}.

Lemma pool_inv_perm out s out' s' :
  k_bufs s' = k_bufs s -> k_next s' = k_next s -> k_num s' = k_num s ->
  k_free s' ++ out' ≡ₚ k_free s ++ out -> pool_inv out s -> pool_inv out' s'.
Proof.
  intros Hb Hn Hm Hp (Hs & Hc & Hpos). split; [by eapply pool_shape_perm|].
  rewrite Hm, Hc, Hp. split; [done|lia].
Qed.

Lemma quiet_pool_inv out s s' : quiet s s' -> pool_inv out s -> pool_inv out s'.
Proof.
  intros [(?&?&Hb&Hf&Hm&Hn&?&?) ?]. apply pool_inv_perm; try done. by rewrite Hf.
Qed.

(** Expansion doubles the pool, as far as memory allows. *)
Lemma dma_buffer_pool_expand_correct out s :
  pool_inv out s ->
  wp dma_buffer_pool_expand_locked (fun st s' =>
    pool_inv out s' /\ pool_frame out s s' /\ (st = NV_OK -> k_free s' <> [])) s.
Proof.
  intros (Hs & Hc & Hpos). unfold dma_buffer_pool_expand_locked. wdet.
  eapply wp_mono; [apply pool_fill_correct; [|exact Hs]; lia|].
  intros [st i] s1 (Hs1 & Hf1 & Hn1 & Hi & Hok & new & Hfr & Hlen); cbn [fst snd] in *. wdet.
  split_and!.
  - split_and!; cbn.
    + by eapply pool_shape_perm; [..|exact Hs1].
    + rewrite Hn1, Hfr, Hc, !length_app in *. lia.
    + lia.
  - done.
  - destruct (i =? 0) eqn:Hz; btest; intros Hst; cbn; rewrite Hfr.
    + apply Hok in Hst. lia.
    + destruct new; [cbn in *; lia|]. by destruct (k_free s).
Qed.

Lemma dma_buffer_free_inv out out' b s :
  out ≡ₚ b :: out' -> pool_inv out s ->
  wp (uvm_conf_computing_dma_buffer_free (Some b))
     (fun _ s' => pool_inv out' s' /\ pool_frame out s s') s.
Proof.
  intros Hp Hi. unfold uvm_conf_computing_dma_buffer_free, dma_buffer_pool_add. wdet.
  split; [|by repeat split]. eapply pool_inv_perm; [..|exact Hi]; try done. cbn.
  rewrite Hp, <- app_assoc. done.
Qed.

Definition alloc_post (out : list Z) (s : kst) (r : nv_status * option Z) (s' : kst) : Prop :=
  pool_frame out s s' /\
  match snd r with
  | Some b => fst r = NV_OK /\ pool_inv (b :: out) s'
  | None => fst r <> NV_OK /\ pool_inv out s'
  end.

Lemma dma_buffer_alloc_inv out s :
  pool_inv out s -> wp uvm_conf_computing_dma_buffer_alloc (alloc_post out s) s.
Proof.
  intros Hi. unfold uvm_conf_computing_dma_buffer_alloc. wdet.
  set (s0 := set_locks _ _ s). assert (quiet s s0) as Hq by done. clearbody s0.
  pose proof (quiet_pool_inv _ _ _ Hq Hi) as Hi0.
  pose proof (quiet_pool_frame out _ _ Hq) as Hf0.
  apply wp_mono with (Q := fun st s' => pool_inv out s' /\ pool_frame out s0 s' /\
                                        (st = NV_OK -> k_free s' <> [])).
  { apply wp_if; intros He; bprop; [by apply dma_buffer_pool_expand_correct|].
    wdet. split_and!; [done|by repeat split|done]. }
  intros st s1 (Hi1 & Hf1 & Hne). pose proof (pool_frame_trans _ _ _ _ Hf0 Hf1) as Hf.
  apply wp_if; intros Hst; bprop; wdet.
  { split; [done|]. cbn. split; [done|]. by apply (quiet_pool_inv _ s1). }
  specialize (Hne Hst). destruct (k_free s1) as [|b rest] eqn:Hfr; [done|]. wdet.
  set (s2 := set_locks _ _ _).
  assert (pool_inv (b :: out) s2 /\ pool_frame out s s2) as [Hi2 Hf2].
  { split; [|exact Hf]. eapply pool_inv_perm; [..|exact Hi1]; try done.
    rewrite Hfr. cbn. symmetry. apply Permutation_middle. }
  clearbody s2. assert (forall st s3, st <> NV_OK -> quiet s2 s3 ->
    wp (uvm_conf_computing_dma_buffer_free (Some b) ;; kret (st, None))
       (alloc_post out s) s3) as Hback.
  { intros st' s3 Hst' Hq3. apply wp_bind. eapply wp_mono.
    - apply (dma_buffer_free_inv (b :: out) out); [done|]. by eapply quiet_pool_inv.
    - intros _ s4 [Hi4 Hf4]. wdet. split; [|by split].
      eapply pool_frame_trans; [exact Hf2|]. eapply pool_frame_trans; [by apply quiet_pool_frame|].
      eapply pool_frame_sub; [|exact Hf4]. intros; by right. }
  apply wp_ext_status. intros st1 t1. apply wp_if; intros H1; bprop; [by apply Hback|].
  wdet. apply wp_ext_status. intros st2 t2. apply wp_if; intros H2; bprop; [by apply Hback|].
  wdet. split; [done|]. split; [done|]. by apply (quiet_pool_inv _ s2).
Qed.

(** Tearing down destroys the free buffers and uncounts them. *)
Lemma pool_deinit_correct s :
  pool_shape [] s -> k_num s <> 0 ->
  wp conf_computing_dma_buffer_pool_deinit (fun _ s' =>
    k_free s' = [] /\ k_bufs s' = ∅ /\ k_num s' = k_num s - Z.of_nat (length (k_free s))) s.
Proof.
  intros Hs Hnz. unfold conf_computing_dma_buffer_pool_deinit. wdet.
  apply wp_if; intros Hz; bprop; [done|]. wdet.
  set (s0 := set_locks _ _ s). assert (pool_shape [] s0) as Hs0 by (by apply (quiet_pool_shape _ s)).
  change (k_num s) with (k_num s0). change (k_free s) with (k_free s0). clearbody s0.
  eapply wp_mono; [apply (wp_kfold_prefix
    (fun ys (_ : unit) s' => pool_shape [] s' /\ k_free s0 = ys ++ k_free s' /\
                             k_num s' = k_num s0 - Z.of_nat (length ys)) (fun _ _ _ => False))|].
  - intros ys b zs [] s1 Hxs (Hs1 & Hfr & Hn). wdet. unfold dma_buffer_destroy_locked. wdet.
    assert (k_free s1 = b :: zs) as Hz1.
    { rewrite Hfr in Hxs. by apply app_inv_head in Hxs. }
    assert (pool_shape [b] (set_pool zs (k_num s1) (k_next s1) s1)) as Hs2.
    { eapply pool_shape_perm; [..|exact Hs1]; try done. rewrite Hz1. cbn. rewrite app_nil_r.
      symmetry. apply Permutation_cons_append. }
    destruct (pool_shape_destroy [] b _ Hs2) as (Hs3 & _ & Hf3 & _). cbn in Hf3.
    destruct Hs2 as [Hnd _ _]. cbn in Hnd. apply NoDup_app in Hnd as (_ & Hni & _).
    assert (filter (fun x => x <> b) (k_free s1) = zs) as Hflt.
    { rewrite Hz1, filter_cons_False by naive_solver. apply list_filter_id.
      intros x Hx ->. apply (Hni b Hx). by left. }
    cbn. rewrite Hflt. split_and!.
    + eapply pool_shape_perm; [..|exact Hs3]; try done. cbn. by rewrite Hf3.
    + rewrite <- app_assoc. cbn. by rewrite Hfr, Hz1.
    + rewrite length_app; cbn. lia.
  - split_and!; [done|done|cbn; lia].
  - intros [[st|] []] s' H; cbn in H; [done|]. destruct H as (Hs' & Hfr & Hn). wdet. cbn.
    assert (k_free s' = []) as Hnil.
    { apply (f_equal length) in Hfr. rewrite length_app in Hfr. destruct (k_free s'); [done|].
      cbn in Hfr. lia. }
    split_and!; [done| |done]. apply map_empty. intros b. apply eq_None_not_Some.
    rewrite <- (po_alloc _ _ Hs'), Hnil. cbn. set_solver.
Qed.

(** The pool before its first initialization, or after a teardown. *)
Definition pool_empty (s : kst) : Prop := k_free s = [] /\ k_bufs s = ∅.

Lemma pool_init_correct s :
  pool_empty s ->
  wp conf_computing_dma_buffer_pool_init (fun st s' =>
    if is_ok st then pool_inv [] s' /\ length (k_free s') = 32%nat
    else pool_empty s' /\ 0 < k_num s' <= 32) s.
Proof.
  intros [Hf Hb]. unfold conf_computing_dma_buffer_pool_init. wdet.
  set (s0 := set_locks _ _ _).
  assert (pool_shape [] s0) as Hs0.
  { split; cbn; [constructor| |set_solver]. intros b. rewrite Hb, lookup_empty.
    split; [set_solver|]. by intros [? ?]. }
  assert (k_free s0 = [] /\ k_num s0 = 32) as [Hfr Hnum] by done. clearbody s0.
  eapply wp_mono; [by apply pool_fill_correct|].
  intros [st i] s1 (Hs1 & Hf1 & Hn1 & Hi & Hok & new & Hfr1 & Hlen); cbn [fst snd] in *.
  rewrite Hfr in Hfr1; cbn in Hfr1. wdet. set (s2 := set_locks _ _ s1).
  assert (pool_shape [] s2) as Hs2 by (by apply (quiet_pool_shape _ s1)).
  assert (k_free s2 = new /\ k_num s2 = 32) as [Hfr2 Hn2] by (cbn; split; congruence). clearbody s2.
  apply wp_if; intros Hlt; btest.
  - eapply wp_mono; [apply pool_deinit_correct; [done|lia]|].
    intros _ s3 (Hf3 & Hb3 & Hn3). wdet. destruct (is_ok st) eqn:Hst; bprop.
    + apply Hok in Hst. lia.
    + split; [by split|]. rewrite Hn3, Hfr2. lia.
  - wdet. destruct (is_ok st) eqn:Hst; bprop.
    + split; [|rewrite Hfr2; lia]. split; [done|]. rewrite Hfr2, app_nil_r. split; lia.
    + destruct Hst. apply Hok. lia.
Qed.
End PoolOps.

(** ** When nothing fails *)

(** A loop whose body never leaves it. *)
Lemma wp_kfold_none {L A} (f : L -> A -> K (option nv_status * L)) xs l s :
  (forall l x s, x ∈ xs -> wp (f l x) (fun r _ => fst r = None) s) ->
  wp (kfold f l xs) (fun r _ => fst r = None) s.
Proof.
  revert l s. induction xs as [|x xs IH]; intros l s Hf; cbn; [done|].
  apply wp_bind. eapply wp_mono; [apply Hf; left|]. intros [ex l'] s'; cbn. intros ->.
  apply IH. intros; apply Hf; by right.
Qed.

Section CcHealthy.
Context `{E : Env} `{G : CcGpu} {H : HealthyEnv E}.

Lemma wp_tick (Q : N -> kst -> Prop) s : Q (k_tick s) (set_tick (k_tick s + 1)%N s) -> wp tick Q s.
Proof. done. Qed.

Ltac status_ok := apply wp_ext_status_ok; intros ?; rewrite ?is_ok_NV_OK; cbn [negb]; wdet.

Lemma dma_buffer_create_ok s :
  wp dma_buffer_create (fun r _ => fst r = NV_OK /\ is_Some (snd r)) s.
Proof.
  unfold dma_buffer_create. wdet. apply wp_tick. rewrite healthy_alloc. cbn [negb]. wdet.
  eapply wp_mono; [apply wp_kfold_none; intros; wdet; by status_ok|].
  intros [ex []] s'; cbn. intros ->. wdet. eauto.
Qed.

Lemma pool_fill_ok n s : wp (pool_fill n) (fun r _ => fst r = NV_OK) s.
Proof.
  unfold pool_fill. wdet. eapply wp_mono; [apply wp_kfold_none|].
  - intros. wdet. eapply wp_mono; [apply dma_buffer_create_ok|].
    intros [st b] s' [_ [b' Hb]]; cbn in Hb; subst b. unfold dma_buffer_pool_add. by wdet.
  - intros [ex i] s'; cbn. intros ->. by wdet.
Qed.

Lemma dma_buffer_alloc_ok out s :
  pool_inv out s ->
  wp uvm_conf_computing_dma_buffer_alloc (fun r s' =>
    exists b, r = (NV_OK, Some b) /\ pool_inv (b :: out) s' /\ pool_frame out s s') s.
Proof.
  intros Hi.
  assert (wp uvm_conf_computing_dma_buffer_alloc (fun r _ => fst r = NV_OK) s) as Hok.
  { unfold uvm_conf_computing_dma_buffer_alloc. wdet. set (s0 := set_locks _ _ s).
    apply wp_mono with (Q := fun st s' => st = NV_OK /\ k_free s' <> []).
    - apply wp_if; intros He; bprop; [|by wdet].
      eapply wp_mono; [eapply (wp_and _ _ (fun st _ => st = NV_OK));
        [apply (dma_buffer_pool_expand_correct out); by apply (quiet_pool_inv _ s)|]|].
      + unfold dma_buffer_pool_expand_locked. wdet. eapply wp_mono; [apply pool_fill_ok|].
        intros [st i] s' Hst; cbn in Hst; subst. wdet.
        by destruct (i =? 0).
      + intros st s' [(_ & _ & Hne) Hst]. cbn in Hst. auto.
    - intros st s1 [-> Hne]. rewrite is_ok_NV_OK; cbn [negb]. wdet.
      destruct (k_free s1) as [|b rest]; [done|]. wdet. by do 2 status_ok. }
  eapply wp_mono; [apply wp_and; [by apply dma_buffer_alloc_inv|exact Hok]|].
  intros [st [b|]] s' [[Hf Hp] Hst]; cbn in *; subst; [|naive_solver].
  exists b. naive_solver.
Qed.

Lemma csl_rotate_iv_ok d chan s : wp (csl_rotate_iv d chan) (fun st _ => st = NV_OK) s.
Proof. unfold csl_rotate_iv. wdet. status_ok. by wdet. Qed.

Lemma uvm_channel_wait_ok s : wp uvm_channel_wait (fun st _ => st = NV_OK) s.
Proof. unfold uvm_channel_wait. wdet. by status_ok. Qed.

Lemma rotate_internal_ok ce chan limit s :
  wp (uvm_conf_computing_rotate_channel_ivs_below_limit_internal ce chan limit)
     (fun st _ => st = NV_OK) s.
Proof.
  unfold uvm_conf_computing_rotate_channel_ivs_below_limit_internal,
    uvm_conf_computing_query_message_pools. wdet. cbv zeta.
  apply wp_if; intros _; [by wdet|]. wdet. eapply wp_mono; [apply uvm_channel_wait_ok|].
  intros st s' ->. rewrite is_ok_NV_OK. cbn [negb]. wdet.
  apply wp_mono with (Q := fun st _ => st = NV_OK).
  { apply wp_if; intros _; [apply csl_rotate_iv_ok|by wdet]. }
  intros st2 s2 ->. wdet. apply wp_mono with (Q := fun st _ => st = NV_OK).
  { apply wp_if; intros _; [apply csl_rotate_iv_ok|by wdet]. }
  intros st3 s3 ->. by wdet.
Qed.

Lemma rotate_key_if_pending_ok k s :
  wp (channel_pool_rotate_key_if_pending k) (fun st _ => st = NV_OK) s.
Proof.
  unfold channel_pool_rotate_key_if_pending, channel_pool_rotate_key. wdet.
  apply wp_if; intros _; wdet; [done|].
  apply wp_mono with (Q := fun _ _ => True); [by apply wp_any|]. intros p s1 _. wdet.
  apply wp_mono with (Q := fun st _ => st = NV_OK).
  { apply wp_if; intros _; [|by wdet]. unfold channel_pool_rotate_key_locked. wdet.
    eapply wp_mono; [apply wp_kfold_none; intros; wdet|].
    - eapply wp_mono; [apply uvm_channel_wait_ok|]. intros st s' ->. by wdet.
    - intros [ex []] s'; cbn. intros ->. unfold uvm_conf_computing_rotate_pool_key. wdet.
      status_ok. by wdet. }
  intros st s2 ->. by wdet.
Qed.

Lemma uvm_push_begin_ok s : wp uvm_push_begin (fun r _ => fst r = NV_OK) s.
Proof.
  unfold uvm_push_begin. wdet. apply wp_mono with (Q := fun r _ => fst r = NV_OK).
  { apply wp_if; intros _; wdet; [|apply wp_tick; wdet; apply healthy_status].
    unfold channel_reserve_and_lock_in_pool. wdet.
    eapply wp_mono; [apply rotate_key_if_pending_ok|]. intros st s' ->.
    rewrite is_ok_NV_OK; cbn [negb]. wdet. apply wp_tick. wdet. apply healthy_status. }
  intros [st chan] s1 Hst; cbn in Hst; subst. rewrite is_ok_NV_OK; cbn [negb]. wdet.
  unfold uvm_channel_begin_push. wdet.
  apply wp_mono with (Q := fun st _ => st = NV_OK).
  { apply wp_if; intros _; [|by wdet].
    unfold channel_rotate_and_reserve_launch_channel, uvm_conf_computing_maybe_rotate_channel_ivs,
      uvm_conf_computing_rotate_channel_ivs_below_limit; cbn [rotate_retry]. wdet.
    eapply wp_mono; [apply rotate_internal_ok|]. intros st s' ->. wdet. cbn. by status_ok. }
  intros st s2 ->. rewrite is_ok_NV_OK; cbn [negb]. by status_ok.
Qed.
End CcHealthy.

(** ** Composed steps *)

(** A step of the CC code around the buffers [out] handed out to others: user
    memory, metadata and those buffers are kept, and the IV accounting holds. *)
Definition cc_frame (out : list Z) (s s' : kst) : Prop :=
  k_user s' = k_user s /\ k_meta s' = k_meta s /\
  k_faults s' = k_faults s /\ k_flog s' = k_flog s /\
  (forall b, b ∈ out -> k_bufs s' !! b = k_bufs s !! b) /\ iv_step s s'.

#[export] Instance cc_frame_ambient out : Ambient (cc_frame out).
Proof.
  split; [|by intros; split_and!..]. split; [by intros s; split_and!|].
  intros s1 s2 s3 (?&?&?&?&Hb1&Hi1) (?&?&?&?&Hb2&Hi2). unfold cc_frame. split_and!; try congruence.
  - intros b Hb. by rewrite Hb2, Hb1.
  - exact (@PreOrder_Transitive _ _ amb_pre _ _ _ Hi1 Hi2).
Qed.

Lemma cc_frame_trans out s1 s2 s3 :
  cc_frame out s1 s2 -> cc_frame out s2 s3 -> cc_frame out s1 s3.
Proof. apply (@PreOrder_Transitive _ _ amb_pre). Qed.

Lemma cc_frame_sub out out' s s' :
  (forall b, b ∈ out' -> b ∈ out) -> cc_frame out s s' -> cc_frame out' s s'.
Proof. intros Hs (?&?&?&?&Hb&?). unfold cc_frame. split_and!; auto. Qed.

Lemma csl_only_cc_frame out s s' : csl_only s s' -> iv_step s s' -> cc_frame out s s'.
Proof. intros (?&?&Hb&?&?&?&?&?) ?. unfold cc_frame. split_and!; try done. intros. by rewrite Hb. Qed.

Lemma pool_frame_cc_frame out s s' : pool_frame out s s' -> cc_frame out s s'.
Proof.
  intros (?&?&Hc&?&?&Hb). unfold cc_frame, iv_step. rewrite Hc. by split_and!.
Qed.

Lemma buf_only_cc_frame out b s s' : b ∉ out -> buf_only b s s' -> cc_frame out s s'.
Proof.
  intros Hb (?&?&?&?&?&?&?&[d Hd]&?). unfold cc_frame. split_and!; try done.
  intros x Hx. rewrite Hd, lookup_insert_ne; [done|]. by intros <-.
Qed.

Lemma csl_only_pool_inv out s s' : csl_only s s' -> pool_inv out s -> pool_inv out s'.
Proof. intros (?&?&Hb&Hf&Hm&Hn&?&?). apply pool_inv_perm; try done. by rewrite Hf. Qed.

Lemma buf_only_pool_inv out b s s' : b ∈ out -> buf_only b s s' -> pool_inv out s -> pool_inv out s'.
Proof.
  intros Hb (_&_&Hf&Hm&Hn&_&_&[d Hd]&_) ([H1 H2 H3] & Hc & Hpos).
  split; [split|]; rewrite ?Hf, ?Hm, ?Hn; try done.
  intros x. rewrite Hd. destruct (decide (x = b)) as [->|Hne].
  - rewrite lookup_insert_eq. split; [eauto|]. intros _. apply elem_of_app. by right.
  - rewrite lookup_insert_ne by done. apply H2.
Qed.

Lemma pool_inv_notin out b s : pool_inv (b :: out) s -> b ∉ out.
Proof.
  intros ([H1 _ _] & _). rewrite <- Permutation_middle in H1. apply NoDup_cons in H1 as [Hn _].
  intros Hin. apply Hn, elem_of_app. by right.
Qed.

(** The IV limit leaves room for a push, and the key version is a 32-bit value. *)
Definition limit_ok (s : kst) : Prop := iv_limit_ok s /\ version_in (k_csl s).

Lemma limit_ok_step s s' : iv_step s s' -> limit_ok s -> limit_ok s'.
Proof. unfold limit_ok, iv_limit_ok. intros (-> & Hv) [? ?]. auto. Qed.

Section CcSteps.
Context `{E : Env} `{G : CcGpu}.

Lemma wp_push_begin s (Q : nv_status * Z -> kst -> Prop) :
  env_cc = true -> limit_ok s ->
  (forall st chan s', csl_only s s' -> iv_step s s' ->
     (st = NV_OK -> push_budget s' chan) -> (HealthyEnv E -> st = NV_OK) -> Q (st, chan) s') ->
  wp uvm_push_begin Q s.
Proof.
  intros Hcc Hl HQ. pose proof (push_begin_budget s Hcc (proj1 Hl)) as Hb.
  pose proof (csl_only_push_begin s). pose proof (iv_step_push_begin s).
  assert (HealthyEnv E -> fst (fst (uvm_push_begin s)) = NV_OK) as Hok
    by (intros; by apply uvm_push_begin_ok).
  unfold wp in *. destruct (uvm_push_begin s) as [[st chan] s']; cbn in *. by apply HQ.
Qed.

Lemma wp_alloc out s (Q : nv_status * option Z -> kst -> Prop) :
  pool_inv out s ->
  (forall st s', st <> NV_OK -> ~ HealthyEnv E -> pool_inv out s' -> cc_frame out s s' ->
     Q (st, None) s') ->
  (forall b s', pool_inv (b :: out) s' -> cc_frame out s s' -> Q (NV_OK, Some b) s') ->
  wp uvm_conf_computing_dma_buffer_alloc Q s.
Proof.
  intros Hi Herr Hok. pose proof (dma_buffer_alloc_inv out s Hi) as Ha.
  assert (HealthyEnv E -> fst (fst (uvm_conf_computing_dma_buffer_alloc s)) = NV_OK) as Hh.
  { intros HE. destruct (dma_buffer_alloc_ok out s Hi) as (b & Hb & _). by rewrite Hb. }
  unfold wp in *. destruct (uvm_conf_computing_dma_buffer_alloc s) as [[st [b|]] s'];
    destruct Ha as [Hf [Hst Hp]]; cbn in *; subst; apply pool_frame_cc_frame in Hf; auto.
Qed.

Lemma wp_free out out' b s (Q : unit -> kst -> Prop) :
  out ≡ₚ b :: out' -> pool_inv out s ->
  (forall s', pool_inv out' s' -> cc_frame out s s' -> Q tt s') ->
  wp (uvm_conf_computing_dma_buffer_free (Some b)) Q s.
Proof.
  intros Hp Hi HQ. eapply wp_mono; [by apply dma_buffer_free_inv|].
  intros [] s' [Hi' Hf]. apply HQ; [done|]. by apply pool_frame_cc_frame.
Qed.

Lemma wp_gpu_encrypt {A} out chan b pa size s (k : K A) (Q : A -> kst -> Prop) :
  0 <= size <= UVM_CONF_COMPUTING_DMA_BUFFER_SIZE -> push_budget s chan -> version_in (k_csl s) -> pool_inv (b :: out) s ->
  (forall s', holds_copy (buf_get s' b) pa size -> pool_inv (b :: out) s' ->
     cc_frame out s s' -> wp k Q s') ->
  wp (gpu_encrypt_to_buffer chan b pa size ;; uvm_push_end chan ;; k) Q s.
Proof.
  intros Hsz Hb Hver Hi HQ. wdet. eapply wp_mono; [apply gpu_encrypt_holds; [done| |done]|].
  { unfold push_budget, UVM_CONF_COMPUTING_IV_REMAINING_LIMIT_MIN in Hb. lia. }
  intros [] s1 (Hh & Hbo & Hb1). pose proof (pool_inv_notin _ _ _ Hi) as Hn.
  assert (pool_inv (b :: out) s1) as Hi1 by (eapply buf_only_pool_inv; [left|done..]).
  apply (buf_only_cc_frame out) in Hbo; [|done].
  wdet. apply (wp_keeps (fun s s' => csl_only s s' /\ iv_step s s'));
    [intros s'; split; [apply csl_only_push_end|apply iv_step_push_end]|].
  intros [] s2 [Hc Hv]. apply HQ.
  - unfold buf_get in *. by rewrite (proj1 (proj2 (proj2 Hc))).
  - by eapply csl_only_pool_inv.
  - eapply cc_frame_trans; [done|]. by apply csl_only_cc_frame.
Qed.

(** An external status with what a healthy environment makes of it. *)
Lemma wp_and_healthy_status (Q : nv_status -> kst -> Prop) s :
  (forall st t, (HealthyEnv E -> st = NV_OK) -> Q st (set_tick t s)) -> wp ext_status Q s.
Proof. intros HQ. apply HQ. intros HE. apply healthy_status. Qed.

Lemma wp_cpu_decrypt_full chan cipher iv v tag p0 (Q : nv_status * list Z -> kst -> Prop) s :
  csl_decrypt v iv cipher tag = Some p0 ->
  (forall st p s', (st = NV_OK -> p = p0) -> (HealthyEnv E -> st = NV_OK) ->
     csl_only s s' -> iv_step s s' -> Q (st, p) s') ->
  wp (uvm_conf_computing_cpu_decrypt chan cipher iv v tag) Q s.
Proof.
  intros Hd HQ. unfold uvm_conf_computing_cpu_decrypt. wdet.
  apply wp_and_healthy_status. intros st t Hh. wdet. rewrite Hd.
  destruct (is_ok st) eqn:Hst; cbn [negb]; bprop; apply HQ; done.
Qed.
End CcSteps.

(** ** Theorems *)

(** States of the pool reachable from its initialization by handing buffers out
    and back, whatever fails, with any use of the buffers in between. *)
Inductive pool_reach `{E : Env} : list Z -> kst -> Prop :=
| reach_init s s' : pool_empty s -> conf_computing_dma_buffer_pool_init s = (NV_OK, s') ->
    pool_reach [] s'
| reach_alloc out s b s' : pool_reach out s ->
    uvm_conf_computing_dma_buffer_alloc s = ((NV_OK, Some b), s') -> pool_reach (b :: out) s'
| reach_alloc_err out s st s' : pool_reach out s ->
    uvm_conf_computing_dma_buffer_alloc s = ((st, None), s') -> pool_reach out s'
| reach_free out b out' s s' : pool_reach out s -> out ≡ₚ b :: out' ->
    uvm_conf_computing_dma_buffer_free (Some b) s = (tt, s') -> pool_reach out' s'
| reach_use out b d s : pool_reach out s -> b ∈ out -> pool_reach out (buf_set b d s).

Lemma pool_reach_inv `{E : Env} out s : pool_reach out s -> pool_inv out s.
Proof.
  induction 1 as [s s' He Hi|out s b s' _ IH Ha|out s st s' _ IH Ha
                 |out b out' s s' _ IH Hp Hf|out b d s _ IH Hb].
  - pose proof (pool_init_correct s He) as H. unfold wp in H. rewrite Hi in H. apply H.
  - pose proof (dma_buffer_alloc_inv out s IH) as H. unfold wp in H. rewrite Ha in H. apply H.
  - pose proof (dma_buffer_alloc_inv out s IH) as H. unfold wp in H. rewrite Ha in H. apply H.
  - pose proof (dma_buffer_free_inv out out' b s Hp IH) as H. unfold wp in H. rewrite Hf in H. apply H.
  - eapply buf_only_pool_inv; [exact Hb| |exact IH]. unfold buf_only. split_and!; try done. by eexists.
Qed.

(** C20: In every state reachable by initializing the DMA buffer pool and then
    allocating and freeing buffers in any order and any environment, the buffers
    handed out are distinct, exist and are not on the free list, and
    num_dma_buffers is the number of free plus handed-out buffers and is positive. *)
Theorem dma_pool_reachable `{E : Env} out s :
  pool_reach out s ->
  NoDup out /\ (forall b, b ∈ out -> b ∉ k_free s /\ is_Some (k_bufs s !! b)) /\
  k_num s = Z.of_nat (length (k_free s)) + Z.of_nat (length out) /\ 0 < k_num s.
Proof.
  intros ([Hn Ha _] & Hc & Hpos)%pool_reach_inv. apply NoDup_app in Hn as (_ & Hd & Ho).
  split_and!; [done| |rewrite Hc, length_app; lia|done].
  intros b Hb. split; [by intros Hf; apply (Hd b Hf)|]. apply Ha, elem_of_app. by right.
Qed.

(** Initializing the pool either succeeds with 32 free buffers and the pool
    invariant, or fails with every buffer destroyed; in the second case
    num_dma_buffers is not back to 0. *)
Theorem pool_init_outcome `{E : Env} s :
  pool_empty s ->
  let '(st, s') := conf_computing_dma_buffer_pool_init s in
  if is_ok st then pool_inv [] s' /\ length (k_free s') = 32%nat
  else pool_empty s' /\ 0 < k_num s' <= 32.
Proof.
  intros He. pose proof (pool_init_correct s He) as H. unfold wp in H.
  by destruct (conf_computing_dma_buffer_pool_init s) as [st s'].
Qed.

(** [n] successive encryptions of one push. *)
Fixpoint log_n `{E : Env} `{G : CcGpu} (n : nat) (chan size : Z) : K (list (option UvmCslIv)) :=
  match n with
  | O => kret []
  | S n' => iv ← uvm_conf_computing_log_gpu_encryption chan size;
            ivs ← log_n n' chan size; kret (iv :: ivs)
  end.

(** C21: After a successful GPU initialization, whatever the IV rotation limit it
    was configured with, a push that begins successfully leaves its channel at
    least IV_REMAINING_LIMIT_MIN messages: that many encryptions logged on it all
    get an IV. *)
Theorem push_never_exhausts_ivs `{E : Env} `{G : CcGpu} s0 n size :
  env_cc = true ->
  (n <= Z.to_nat UVM_CONF_COMPUTING_IV_REMAINING_LIMIT_MIN)%nat ->
  let '(st0, s) := uvm_conf_computing_gpu_init s0 in
  st0 = NV_OK ->
  let '(st, chan, s') := uvm_push_begin s in
  st = NV_OK -> Forall is_Some (fst (log_n n chan size s')).
Proof.
  intros Hcc Hn. destruct (uvm_conf_computing_gpu_init s0) as [st0 s] eqn:Hi. intros ->.
  assert (iv_limit_ok s) as Hl.
  { revert Hi. unfold uvm_conf_computing_gpu_init. rewrite Hcc; cbn [negb]. unfold kbind.
    destruct (conf_computing_dma_buffer_pool_init s0) as [st1 s1].
    destruct (negb (is_ok st1)) eqn:H1; [intros [= -> _]; by bprop|].
    destruct (ext_status s1) as [st2 s2]. destruct (negb (is_ok st2)) eqn:H2.
    { destruct (uvm_conf_computing_gpu_deinit s2). intros [= -> _]; by bprop. }
    cbn. intros [= <-]. unfold iv_limit_ok, clamp_iv_limit; cbn.
    set (l := if _ && _ then _ else _). destruct (_ || _) eqn:Hb; btest; done. }
  pose proof (push_begin_budget s Hcc Hl) as Hb. unfold wp in Hb.
  destruct (uvm_push_begin s) as [[st chan] s']; cbn in Hb. intros Hst. specialize (Hb Hst).
  assert (Z.of_nat n <= iv_budget s' chan) as Hle.
  { unfold push_budget, UVM_CONF_COMPUTING_IV_REMAINING_LIMIT_MIN in *. lia. }
  clear -Hle. revert s' Hle.
  change (forall s', Z.of_nat n <= iv_budget s' chan -> wp (log_n n chan size) (fun l _ => Forall is_Some l) s').
  induction n as [|n IH]; intros s' Hle; cbn [log_n]; wdet; [constructor|].
  apply wp_log_gpu_encryption; [lia|]. intros iv s1 _ _ Hb _. wdet.
  eapply wp_mono; [apply IH; lia|]. intros l s2 Hl. wdet. constructor; eauto.
Qed.

(** What both copies do between taking a buffer and giving it back. *)
Definition copy_post `{E : Env} `{G : CcGpu} {A} (good : A -> Prop) (out : list Z) (s : kst)
    (r : nv_status * A) (s' : kst) : Prop :=
  pool_inv out s' /\ cc_frame out s s' /\
  (fst r = NV_OK -> good (snd r)) /\ (HealthyEnv E -> fst r = NV_OK).

Lemma encrypted_copy_correct `{E : Env} `{G : CcGpu} {A} (z : A) good
    (fin : Z -> dma_buffer -> K (nv_status * A)) pa size out s :
  env_cc = true -> limit_ok s -> 0 <= size <= UVM_CONF_COMPUTING_DMA_BUFFER_SIZE -> pool_inv out s ->
  (forall chan d s1, holds_copy d pa size ->
    wp (fin chan d) (fun r s2 => csl_only s1 s2 /\ iv_step s1 s2 /\
      (fst r = NV_OK -> good (snd r)) /\ (HealthyEnv E -> fst r = NV_OK)) s1) ->
  wp ('(status, b) ← uvm_conf_computing_dma_buffer_alloc;
      match b with
      | None => kret (status, z)
      | Some b =>
          '(status, chan) ← uvm_push_begin;
          r ← (if negb (is_ok status) then kret (status, z) else
               gpu_encrypt_to_buffer chan b pa size ;;
               uvm_push_end chan ;;
               status ← uvm_push_wait;
               if negb (is_ok status) then kret (status, z) else
               d ← kget (fun s => buf_get s b);
               fin chan d);
          uvm_conf_computing_dma_buffer_free (Some b) ;;
          kret r
      end) (copy_post good out s) s.
Proof.
  intros Hcc Hl Hsz Hi Hfin. apply wp_bind, (wp_alloc out); [done| |].
  { intros st s1 Hst Hh Hi1 Hf1. wdet. split_and!; done. }
  intros b s1 Hi1 Hf1. apply wp_bind, wp_push_begin; [done|by eapply limit_ok_step; [apply Hf1|]|].
  intros st chan s2 Hc2 Hv2 Hb2 Hh2.
  pose proof (csl_only_pool_inv _ _ _ Hc2 Hi1) as Hi2.
  assert (cc_frame out s s2) as Hf2 by (eapply cc_frame_trans; [done|by apply csl_only_cc_frame]).
  apply wp_bind. apply wp_mono with (Q := fun r s' => pool_inv (b :: out) s' /\ cc_frame out s s' /\
    (fst r = NV_OK -> good (snd r)) /\ (HealthyEnv E -> fst r = NV_OK)).
  - apply wp_if; intros Hst; bprop; [wdet; split_and!; [done..| |]; naive_solver|].
    apply (wp_gpu_encrypt out); [done|by apply Hb2| |done|].
    { eapply limit_ok_step; [apply Hf2|exact Hl]. } intros s3 Hh3 Hi3 Hf3. wdet.
    unfold uvm_push_wait. apply wp_and_healthy_status. intros st4 t4 Hh4.
    assert (cc_frame out s (set_tick t4 s3)) as Hf4
      by (eapply cc_frame_trans; [exact Hf2|exact Hf3]).
    assert (pool_inv (b :: out) (set_tick t4 s3)) as Hi4 by (by apply (quiet_pool_inv _ s3)).
    apply wp_if; intros H4; bprop; wdet; [split_and!; [done..| |]; naive_solver|].
    eapply wp_mono; [by apply Hfin|]. intros r s5 (Hc5 & Hv5 & Hg5 & Hok5).
    split_and!; [by eapply csl_only_pool_inv| |done|done].
    eapply cc_frame_trans; [exact Hf4|]. by apply csl_only_cc_frame.
  - intros r s3 (Hi3 & Hf3 & Hg & Hok). wdet. apply (wp_free (b :: out) out); [done..|].
    intros s4 Hi4 Hf4. wdet. split_and!; try done. eapply cc_frame_trans; [done|].
    eapply cc_frame_sub; [|done]. intros; by right.
Qed.

(** The encrypted staging copy of video memory to the CPU returns the
    plaintext of exactly the bytes asked for whenever it returns OK, returns OK
    when nothing fails, and gives its buffer back to the pool and keeps the IV
    budget on every path. *)
Theorem memcopy_gpu_to_cpu_correct `{E : Env} `{G : CcGpu} pa size out s :
  env_cc = true -> limit_ok s -> 0 <= size <= UVM_CONF_COMPUTING_DMA_BUFFER_SIZE -> pool_inv out s ->
  wp (uvm_conf_computing_util_memcopy_gpu_to_cpu pa size)
     (copy_post (fun plain => plain = vid_read pa size) out s) s.
Proof.
  intros Hcc Hl Hsz Hi. apply encrypted_copy_correct; [done..|].
  intros chan d s1 (Hd & _). eapply wp_cpu_decrypt_full; [exact Hd|]. by intros st p s2 Hst Hh Hc Hv.
Qed.

(** C22: For a size within the DMA buffer's capacity, which the code asserts, the
    ciphertext variant returns, whenever it returns OK, a ciphertext, tag, IV and
    key version that decrypt to exactly the bytes asked for, with the lengths the
    caller's buffers have; the buffer goes back to the pool on every path. *)
Theorem memcopy_gpu_to_cpu_encrypted_correct `{E : Env} `{G : CcGpu} pa size out s :
  env_cc = true -> limit_ok s -> 0 <= size <= UVM_CONF_COMPUTING_DMA_BUFFER_SIZE -> pool_inv out s ->
  wp (uvm_conf_computing_util_memcopy_gpu_to_cpu_encrypted pa size)
     (copy_post (fun r => exists cipher tag iv v, r = Some (cipher, tag, iv, v) /\
        csl_decrypt v iv cipher tag = Some (vid_read pa size) /\
        Z.of_nat (length cipher) = size /\
        Z.of_nat (length tag) = UVM_CONF_COMPUTING_AUTH_TAG_SIZE) out s) s.
Proof.
  intros Hcc Hl Hsz Hi.
  apply (encrypted_copy_correct None _
    (fun _ d => kret (NV_OK, Some (buf_cipher d size, buf_tag d, db_decrypt_iv d, db_key_version d))));
    [done..|].
  intros chan d s1 (Hd & Hc & Ht & _ & _). wdet. cbn.
  split_and!; [by repeat split|by split|by eauto 10|done].
Qed.

(** ** Locks and allocations *)

Section CcResources.
Context `{E : Env} `{G : CcGpu}.

Lemma lock_channel_wait ls : LockSpec ls uvm_channel_wait ls.
Proof. unfold uvm_channel_wait. locks. Qed.
Lemma live_channel_wait : LiveSpec uvm_channel_wait (fun _ => 0).
Proof. unfold uvm_channel_wait. live0. Qed.
Hint Resolve lock_channel_wait : locks.
Hint Resolve live_channel_wait : live.

Lemma lock_create : LockSpec [LPool] dma_buffer_create [LPool].
Proof. unfold dma_buffer_create, dma_buffer_destroy_locked. locks. Qed.
Lemma live_create : LiveSpec dma_buffer_create (fun _ => 0).
Proof. unfold dma_buffer_create, dma_buffer_destroy_locked. live0. Qed.
Hint Resolve lock_create : locks.
Hint Resolve live_create : live.

Lemma lock_free b : LockSpec [] (uvm_conf_computing_dma_buffer_free b) [].
Proof. unfold uvm_conf_computing_dma_buffer_free, dma_buffer_pool_add. locks. Qed.
Lemma live_free b : LiveSpec (uvm_conf_computing_dma_buffer_free b) (fun _ => 0).
Proof. unfold uvm_conf_computing_dma_buffer_free, dma_buffer_pool_add. live0. Qed.
Hint Resolve lock_free : locks.
Hint Resolve live_free : live.

Lemma lock_pool_fill n : LockSpec [LPool] (pool_fill n) [LPool].
Proof. unfold pool_fill, dma_buffer_pool_add. locks. Qed.
Lemma live_pool_fill n : LiveSpec (pool_fill n) (fun _ => 0).
Proof. unfold pool_fill, dma_buffer_pool_add. live0. Qed.
Hint Resolve lock_pool_fill : locks.
Hint Resolve live_pool_fill : live.

Lemma lock_expand : LockSpec [LPool] dma_buffer_pool_expand_locked [LPool].
Proof. unfold dma_buffer_pool_expand_locked. locks. Qed.
Lemma live_expand : LiveSpec dma_buffer_pool_expand_locked (fun _ => 0).
Proof. unfold dma_buffer_pool_expand_locked. live0. Qed.
Hint Resolve lock_expand : locks.
Hint Resolve live_expand : live.

Lemma lock_alloc : LockSpec [] uvm_conf_computing_dma_buffer_alloc [].
Proof. unfold uvm_conf_computing_dma_buffer_alloc. locks. Qed.
Lemma live_alloc : LiveSpec uvm_conf_computing_dma_buffer_alloc (fun _ => 0).
Proof. unfold uvm_conf_computing_dma_buffer_alloc. live0. Qed.
Hint Resolve lock_alloc : locks.
Hint Resolve live_alloc : live.

Lemma lock_log chan size : LockSpec [] (uvm_conf_computing_log_gpu_encryption chan size) [].
Proof.
  unfold uvm_conf_computing_log_gpu_encryption, log_stats, csl_increment_decrypt_iv. locks.
Qed.
Lemma live_log chan size :
  LiveSpec (uvm_conf_computing_log_gpu_encryption chan size) (fun _ => 0).
Proof.
  unfold uvm_conf_computing_log_gpu_encryption, log_stats, csl_increment_decrypt_iv. live0.
Qed.
Hint Resolve lock_log : locks.
Hint Resolve live_log : live.

Lemma lock_rotate_iv d chan ls : LockSpec ls (csl_rotate_iv d chan) ls.
Proof. unfold csl_rotate_iv. locks. Qed.
Lemma live_rotate_iv d chan : LiveSpec (csl_rotate_iv d chan) (fun _ => 0).
Proof. unfold csl_rotate_iv. live0. Qed.
Hint Resolve lock_rotate_iv : locks.
Hint Resolve live_rotate_iv : live.

Lemma lock_query chan : LockSpec [] (uvm_conf_computing_query_message_pools chan) [].
Proof. unfold uvm_conf_computing_query_message_pools. locks. Qed.
Lemma live_query chan : LiveSpec (uvm_conf_computing_query_message_pools chan) (fun _ => 0).
Proof. unfold uvm_conf_computing_query_message_pools. live0. Qed.
Hint Resolve lock_query : locks.
Hint Resolve live_query : live.

Lemma lock_rotate_internal ce chan limit : LockSpec [] (uvm_conf_computing_rotate_channel_ivs_below_limit_internal ce chan limit) [].
Proof. unfold uvm_conf_computing_rotate_channel_ivs_below_limit_internal. locks. Qed.
Lemma live_rotate_internal ce chan limit : LiveSpec (uvm_conf_computing_rotate_channel_ivs_below_limit_internal ce chan limit) (fun _ => 0).
Proof. unfold uvm_conf_computing_rotate_channel_ivs_below_limit_internal. live0. Qed.
Hint Resolve lock_rotate_internal : locks.
Hint Resolve live_rotate_internal : live.

Lemma lock_rotate_key ls : LockSpec ls uvm_conf_computing_rotate_pool_key ls.
Proof. unfold uvm_conf_computing_rotate_pool_key. locks. Qed.
Lemma live_rotate_key : LiveSpec uvm_conf_computing_rotate_pool_key (fun _ => 0).
Proof. unfold uvm_conf_computing_rotate_pool_key. live0. Qed.
Hint Resolve lock_rotate_key : locks.
Hint Resolve live_rotate_key : live.

Lemma lock_rotate_key_locked ls : LockSpec ls channel_pool_rotate_key_locked ls.
Proof. unfold channel_pool_rotate_key_locked. locks. Qed.
Lemma live_rotate_key_locked : LiveSpec channel_pool_rotate_key_locked (fun _ => 0).
Proof. unfold channel_pool_rotate_key_locked. live0. Qed.
Hint Resolve lock_rotate_key_locked : locks.
Hint Resolve live_rotate_key_locked : live.

Lemma lock_pending k ls : LockSpec ls (uvm_conf_computing_is_key_rotation_pending_in_pool k) ls.
Proof. unfold uvm_conf_computing_is_key_rotation_pending_in_pool. locks. Qed.
Lemma live_pending k : LiveSpec (uvm_conf_computing_is_key_rotation_pending_in_pool k) (fun _ => 0).
Proof. unfold uvm_conf_computing_is_key_rotation_pending_in_pool. live0. Qed.
Hint Resolve lock_pending : locks.
Hint Resolve live_pending : live.

Lemma lock_pool_rotate k f : LockSpec [] (channel_pool_rotate_key k f) [].
Proof. unfold channel_pool_rotate_key. locks. Qed.
Lemma live_pool_rotate k f : LiveSpec (channel_pool_rotate_key k f) (fun _ => 0).
Proof. unfold channel_pool_rotate_key. live0. Qed.
Hint Resolve lock_pool_rotate : locks.
Hint Resolve live_pool_rotate : live.

Lemma lock_reserve k : LockSpec [] (channel_reserve_and_lock_in_pool k) [].
Proof. unfold channel_reserve_and_lock_in_pool, channel_pool_rotate_key_if_pending. locks. Qed.
Lemma live_reserve k : LiveSpec (channel_reserve_and_lock_in_pool k) (fun _ => 0).
Proof. unfold channel_reserve_and_lock_in_pool, channel_pool_rotate_key_if_pending. live0. Qed.
Hint Resolve lock_reserve : locks.
Hint Resolve live_reserve : live.

Lemma lock_begin_push chan : LockSpec [] (uvm_channel_begin_push chan) [].
Proof. unfold uvm_channel_begin_push, channel_rotate_and_reserve_launch_channel,
  uvm_conf_computing_maybe_rotate_channel_ivs, uvm_conf_computing_rotate_channel_ivs_below_limit, rotate_retry. locks. Qed.
Lemma live_begin_push chan : LiveSpec (uvm_channel_begin_push chan) (fun _ => 0).
Proof. unfold uvm_channel_begin_push, channel_rotate_and_reserve_launch_channel,
  uvm_conf_computing_maybe_rotate_channel_ivs, uvm_conf_computing_rotate_channel_ivs_below_limit, rotate_retry. live0. Qed.
Hint Resolve lock_begin_push : locks.
Hint Resolve live_begin_push : live.

Lemma lock_push_begin : LockSpec [] uvm_push_begin [].
Proof. unfold uvm_push_begin. locks. Qed.
Lemma live_push_begin : LiveSpec uvm_push_begin (fun _ => 0).
Proof. unfold uvm_push_begin. live0. Qed.
Hint Resolve lock_push_begin : locks.
Hint Resolve live_push_begin : live.

Lemma lock_push_end chan : LockSpec [] (uvm_push_end chan) [].
Proof. unfold uvm_push_end. locks. Qed.
Lemma live_push_end chan : LiveSpec (uvm_push_end chan) (fun _ => 0).
Proof. unfold uvm_push_end. live0. Qed.
Lemma lock_gpu_encrypt chan b pa size : LockSpec [] (gpu_encrypt_to_buffer chan b pa size) [].
Proof.
  unfold gpu_encrypt_to_buffer. locks.
  apply lock_mod. intros s. cbv zeta. by destruct (csl_encrypt _ _ _).
Qed.
Lemma live_gpu_encrypt chan b pa size :
  LiveSpec (gpu_encrypt_to_buffer chan b pa size) (fun _ => 0).
Proof.
  unfold gpu_encrypt_to_buffer. live0.
  eapply live_weaken; [apply live_mod; intros s; cbv zeta; by destruct (csl_encrypt _ _ _)|done].
Qed.
Lemma lock_cpu_decrypt chan c iv v t : LockSpec [] (uvm_conf_computing_cpu_decrypt chan c iv v t) [].
Proof. unfold uvm_conf_computing_cpu_decrypt. locks. Qed.
Lemma live_cpu_decrypt chan c iv v t :
  LiveSpec (uvm_conf_computing_cpu_decrypt chan c iv v t) (fun _ => 0).
Proof. unfold uvm_conf_computing_cpu_decrypt. live0. Qed.
Hint Resolve lock_push_end lock_gpu_encrypt lock_cpu_decrypt : locks.
Hint Resolve live_push_end live_gpu_encrypt live_cpu_decrypt : live.

Lemma lock_memcopy pa size : LockSpec [] (uvm_conf_computing_util_memcopy_gpu_to_cpu pa size) [].
Proof. unfold uvm_conf_computing_util_memcopy_gpu_to_cpu, uvm_push_wait. locks. Qed.
Lemma live_memcopy pa size :
  LiveSpec (uvm_conf_computing_util_memcopy_gpu_to_cpu pa size) (fun _ => 0).
Proof. unfold uvm_conf_computing_util_memcopy_gpu_to_cpu, uvm_push_wait. live0. Qed.
Lemma lock_memcopy_encrypted pa size :
  LockSpec [] (uvm_conf_computing_util_memcopy_gpu_to_cpu_encrypted pa size) [].
Proof. unfold uvm_conf_computing_util_memcopy_gpu_to_cpu_encrypted, uvm_push_wait. locks. Qed.
Lemma live_memcopy_encrypted pa size :
  LiveSpec (uvm_conf_computing_util_memcopy_gpu_to_cpu_encrypted pa size) (fun _ => 0).
Proof. unfold uvm_conf_computing_util_memcopy_gpu_to_cpu_encrypted, uvm_push_wait. live0. Qed.
End CcResources.

#[export] Hint Resolve lock_channel_wait lock_free lock_alloc lock_log lock_push_begin
  lock_push_end lock_gpu_encrypt lock_cpu_decrypt lock_memcopy lock_memcopy_encrypted : locks.
#[export] Hint Resolve live_channel_wait live_free live_alloc live_log live_push_begin
  live_push_end live_gpu_encrypt live_cpu_decrypt live_memcopy live_memcopy_encrypted : live.
