(* ===== verification/Gpfifo.v ===== *)
(** The GPFIFO ring of a channel ([uvm_channel.c]): entries queued between
    [gpu_get] and [cpu_put], claims on free entries, push infos, and the tracking
    semaphore whose value tells which entries are done.

    [ch_completed] is what the GPU has released; reading it is
    [uvm_gpu_tracking_semaphore_update_completed_value].  A failed [UVM_ASSERT] is
    recorded in [ch_bug].  The pushbuffer's own accounting, the hardware entries
    and GPPUT are not modelled; [ch_gpu_put] is the driver's copy of GPPUT
    ([conf_computing.gpu_put]). *)
From S2P Require Import Prelude Kernel.

Inductive gpfifo_type := UVM_GPFIFO_ENTRY_TYPE_NORMAL | UVM_GPFIFO_ENTRY_TYPE_CONTROL.

#[export] Instance gpfifo_type_eq_dec : EqDecision gpfifo_type.
Proof. solve_decision. Defined.

Inductive uvm_channel_update_mode :=
| UVM_CHANNEL_UPDATE_MODE_COMPLETED
| UVM_CHANNEL_UPDATE_MODE_FORCE_ALL.

#[export] Instance update_mode_eq_dec : EqDecision uvm_channel_update_mode.
Proof. solve_decision. Defined.

(** [uvm_gpfifo_entry_t]; [ge_push_info] is the index of the push info, if any. *)
Record gpfifo_entry := mk_gpfifo_entry {
  ge_type      : gpfifo_type;
  ge_tracking  : Z;             (* tracking_semaphore_value *)
  ge_pb_offset : Z;
  ge_pb_size   : Z;
  ge_push_info : option Z;
  ge_control   : Z;
}.

Definition entry_zero : gpfifo_entry := mk_gpfifo_entry UVM_GPFIFO_ENTRY_TYPE_NORMAL 0 0 0 None 0.

Record channel := mk_channel {
  ch_num       : Z;                  (* num_gpfifo_entries *)
  ch_entries   : list gpfifo_entry;
  ch_cpu_put   : Z;
  ch_gpu_get   : Z;
  ch_current   : Z;                  (* current_gpfifo_count *)
  ch_queued    : Z;                  (* tracking_sem.queued_value *)
  ch_completed : Z;
  ch_infos     : list Z;             (* available_push_infos *)
  ch_gpu_put   : Z;
  ch_notifier  : Z;                  (* errorNotifier->status *)
  ch_lcic      : bool;               (* an LCIC channel, the WLC schedule being up *)
  ch_bug       : bool;
}.

Definition ch_set_ring (entries : list gpfifo_entry) (put get : Z) (infos : list Z) (c : channel) : channel :=
  mk_channel (ch_num c) entries put get (ch_current c) (ch_queued c) (ch_completed c) infos
    (ch_gpu_put c) (ch_notifier c) (ch_lcic c) (ch_bug c).
Definition ch_set_get (get : Z) (infos : list Z) (c : channel) : channel :=
  ch_set_ring (ch_entries c) (ch_cpu_put c) get infos c.
Definition ch_set_current (n : Z) (c : channel) : channel :=
  mk_channel (ch_num c) (ch_entries c) (ch_cpu_put c) (ch_gpu_get c) n (ch_queued c) (ch_completed c)
    (ch_infos c) (ch_gpu_put c) (ch_notifier c) (ch_lcic c) (ch_bug c).
Definition ch_set_queued (v : Z) (c : channel) : channel :=
  mk_channel (ch_num c) (ch_entries c) (ch_cpu_put c) (ch_gpu_get c) (ch_current c) v (ch_completed c)
    (ch_infos c) (ch_gpu_put c) (ch_notifier c) (ch_lcic c) (ch_bug c).
Definition ch_set_completed (v : Z) (c : channel) : channel :=
  mk_channel (ch_num c) (ch_entries c) (ch_cpu_put c) (ch_gpu_get c) (ch_current c) (ch_queued c) v
    (ch_infos c) (ch_gpu_put c) (ch_notifier c) (ch_lcic c) (ch_bug c).
Definition ch_set_gpu_put (v : Z) (c : channel) : channel :=
  mk_channel (ch_num c) (ch_entries c) (ch_cpu_put c) (ch_gpu_get c) (ch_current c) (ch_queued c)
    (ch_completed c) (ch_infos c) v (ch_notifier c) (ch_lcic c) (ch_bug c).
Definition ch_set_notifier (v : Z) (c : channel) : channel :=
  mk_channel (ch_num c) (ch_entries c) (ch_cpu_put c) (ch_gpu_get c) (ch_current c) (ch_queued c)
    (ch_completed c) (ch_infos c) (ch_gpu_put c) v (ch_lcic c) (ch_bug c).
(** [UVM_ASSERT(b)]. *)
Definition ch_assert (b : bool) (c : channel) : channel :=
  mk_channel (ch_num c) (ch_entries c) (ch_cpu_put c) (ch_gpu_get c) (ch_current c) (ch_queued c)
    (ch_completed c) (ch_infos c) (ch_gpu_put c) (ch_notifier c) (ch_lcic c) (ch_bug c || negb b).

(** ** Operations *)

(** The state [channel_create] leaves, with [num] entries. *)
Definition channel_create (num : Z) (lcic : bool) : channel :=
  mk_channel num (replicate (Z.to_nat num) entry_zero) 0 0 0 0 0 (seqZ 0 num) 0 0 lcic false.

Definition entry_at (c : channel) (i : Z) : gpfifo_entry := default entry_zero (ch_entries c !! Z.to_nat i).
Definition ring_next (c : channel) (i : Z) : Z := (i + 1) mod ch_num c.

(** The loop of [uvm_channel_update_progress_with_max], [max] the entries it may
    still complete. *)
Fixpoint complete_entries (max : nat) (mode : uvm_channel_update_mode) (completed_value : Z) (c : channel)
    : channel :=
  match max with
  | O => c
  | S max' =>
      if ch_gpu_get c =? ch_cpu_put c then c else
      let entry := entry_at c (ch_gpu_get c) in
      if bool_decide (mode = UVM_CHANNEL_UPDATE_MODE_COMPLETED) && (completed_value <? ge_tracking entry)
      then c else
      let infos := match ge_type entry with
                   | UVM_GPFIFO_ENTRY_TYPE_NORMAL => ch_infos c ++ option_list (ge_push_info entry)
                   | UVM_GPFIFO_ENTRY_TYPE_CONTROL => ch_infos c
                   end in
      complete_entries max' mode completed_value (ch_set_get (ring_next c (ch_gpu_get c)) infos c)
  end.

Definition pending_gpfifos (c : channel) : Z :=
  if ch_gpu_get c <=? ch_cpu_put c then ch_cpu_put c - ch_gpu_get c
  else u32 (ch_num c - ch_gpu_get c + ch_cpu_put c).

(** [completed_value] was read from the semaphore before the pool lock was taken. *)
Definition uvm_channel_update_progress_with_max (max : nat) (mode : uvm_channel_update_mode)
    (completed_value : Z) (c : channel) : Z * channel :=
  if ch_lcic c then (if ch_completed c =? ch_queued c then 0 else 1, c) else
  let c := ch_assert (completed_value <=? ch_queued c) c in
  let c := complete_entries max mode completed_value c in
  (pending_gpfifos c, c).

Definition uvm_channel_update_progress (completed_value : Z) (c : channel) : Z * channel :=
  uvm_channel_update_progress_with_max 8 UVM_CHANNEL_UPDATE_MODE_COMPLETED completed_value c.

Definition channel_update_progress_all (mode : uvm_channel_update_mode) (completed_value : Z) (c : channel)
    : Z * channel :=
  uvm_channel_update_progress_with_max (Z.to_nat (ch_num c)) mode completed_value c.

Definition channel_get_available_gpfifo_entries (c : channel) : Z :=
  let available := u32 (ch_num c - 1) in
  let available := u32 (available - ch_current c) in
  if ch_gpu_get c <=? ch_cpu_put c then u32 (available - (ch_cpu_put c - ch_gpu_get c))
  else u32 (available - u32 (ch_cpu_put c + ch_num c - ch_gpu_get c)).

Definition try_claim_channel_locked (num_gpfifo_entries : Z) (c : channel) : bool * channel :=
  let available := channel_get_available_gpfifo_entries c in
  let c := ch_assert ((0 <? num_gpfifo_entries) && (num_gpfifo_entries <? ch_num c) &&
                      (available <? ch_num c)) c in
  if num_gpfifo_entries <=? available
  then (true, ch_set_current (u32 (ch_current c + num_gpfifo_entries)) c)
  else (false, c).

Definition channel_get_available_push_info_index (c : channel) : Z * channel :=
  match ch_infos c with
  | [] => (0, ch_assert false c)
  | i :: infos => (i, ch_set_ring (ch_entries c) (ch_cpu_put c) (ch_gpu_get c) infos c)
  end.

Definition UVM_CONF_COMPUTING_BUF_ALIGNMENT : Z := 32.
Definition UVM_ALIGN_UP (x a : Z) : Z := (x + (a - 1)) / a * a.

(** A push's place and size in the pushbuffer. *)
Record push_bytes := mk_push_bytes { pu_offset : Z; pu_size : Z }.

(** What [uvm_channel_end_push] does to the ring: the entry is queued under the
    next tracking value and, with confidential computing, submitted through a
    launch channel before the lock is released.  [max_push_size] is
    [UVM_MAX_PUSH_SIZE], a constant of [uvm_pushbuffer.h]. *)
Definition end_push_entry (max_push_size : Z) (cc : bool) (push_info_index : Z) (pb : push_bytes) (c : channel)
    : channel :=
  let new_tracking_value := u64 (ch_queued c + 1) in
  let c := ch_assert (pu_size pb <=? max_push_size) c in
  let cpu_put := ch_cpu_put c in
  let new_cpu_put := ring_next c cpu_put in
  let entry := mk_gpfifo_entry UVM_GPFIFO_ENTRY_TYPE_NORMAL new_tracking_value (pu_offset pb)
                 (if cc then UVM_ALIGN_UP (pu_size pb) UVM_CONF_COMPUTING_BUF_ALIGNMENT else pu_size pb)
                 (Some push_info_index) (ge_control (entry_at c cpu_put)) in
  let c := ch_assert (0 <? ch_current c) c in
  let c := ch_set_queued new_tracking_value c in
  let c := ch_set_current (u32 (ch_current c - 1)) c in
  let c := (if cc then ch_set_gpu_put new_cpu_put (ch_assert (ch_gpu_put c =? cpu_put) c) else c) in
  ch_set_ring (<[Z.to_nat cpu_put := entry]> (ch_entries c)) new_cpu_put (ch_gpu_get c) (ch_infos c) c.

(** [write_ctrl_gpfifo] up to the release of the lock; [submit_ctrl_entry] is the
    rest of it. *)
Definition write_ctrl_entry (control_value : Z) (c : channel) : channel :=
  let cpu_put := ch_cpu_put c in
  let entry := mk_gpfifo_entry UVM_GPFIFO_ENTRY_TYPE_CONTROL (u64 (ch_queued c + 1)) 0 0 None control_value in
  let c := ch_assert (1 <? ch_current c) c in
  let c := ch_set_current (u32 (ch_current c - 1)) c in
  ch_set_ring (<[Z.to_nat cpu_put := entry]> (ch_entries c)) (ring_next c cpu_put) (ch_gpu_get c)
    (ch_infos c) c.

(** [submit_ctrl_gpfifo_indirect]: it spins while GPPUT is not the entry's index
    ([None]), then a launch channel submits the entry; [begin_status] and
    [end_status] are those of the launch's [uvm_push_begin] and
    [uvm_push_end_and_wait]. *)
Definition submit_ctrl_gpfifo_indirect (begin_status end_status : nv_status) (old_cpu_put new_gpu_put : Z)
    (c : channel) : option (nv_status * channel) :=
  if negb (ch_gpu_put c =? old_cpu_put) then None else
  if negb (is_ok begin_status) then Some (begin_status, c) else
  if negb (is_ok end_status) then Some (end_status, c) else
  Some (NV_OK, ch_set_gpu_put new_gpu_put c).

(** The submission of [write_ctrl_gpfifo], which asserts that it succeeds. *)
Definition submit_ctrl_entry (begin_status end_status : nv_status) (old_cpu_put new_cpu_put : Z) (c : channel)
    : option channel :=
  match submit_ctrl_gpfifo_indirect begin_status end_status old_cpu_put new_cpu_put c with
  | None => None
  | Some (status, c) => Some (ch_assert (is_ok status) c)
  end.

Definition release_entries (num_gpfifo_entries : Z) (c : channel) : channel :=
  ch_set_current (u32 (ch_current c - num_gpfifo_entries)) (ch_assert (num_gpfifo_entries <=? ch_current c) c).

Definition uvm_channel_get_first_pending_entry (completed_value : Z) (c : channel)
    : option gpfifo_entry * channel :=
  let '(pending_count, c) := channel_update_progress_all UVM_CHANNEL_UPDATE_MODE_COMPLETED completed_value c in
  if pending_count =? 0 then (None, c) else
  (if ch_gpu_get c =? ch_cpu_put c then None else Some (entry_at c (ch_gpu_get c)), c).

(** [ecc_error]: ECC is enabled and its notifier is set. *)
Definition uvm_channel_get_status (ecc_error : bool) (c : channel) : nv_status :=
  if ch_notifier c =? 0 then NV_OK
  else if ecc_error then NV_ERR_ECC_ERROR else NV_ERR_RC_ERROR.

(** The fatal entry is only printed. *)
Definition uvm_channel_check_errors (ecc_error : bool) (completed_value : Z) (c : channel)
    : nv_status * channel :=
  let status := uvm_channel_get_status ecc_error c in
  if is_ok status then (NV_OK, c) else
  let '(_, c) := uvm_channel_get_first_pending_entry completed_value c in
  (status, c).

(** ** The ring as a queue *)

(** [k] entries of a ring of [n] slots from slot [get] on. *)
Fixpoint ring_take (n : Z) (es : list gpfifo_entry) (get : Z) (k : nat) : list gpfifo_entry :=
  match k with
  | O => []
  | S k' => default entry_zero (es !! Z.to_nat get) :: ring_take n es ((get + 1) mod n) k'
  end.

Lemma length_ring_take n es get k : length (ring_take n es get k) = k.
Proof. revert get; induction k; intros; cbn; [done|]. by f_equal. Qed.

Lemma mod_ne n i j k : 0 < n -> i < j -> j - i < n -> (k + i) mod n <> (k + j) mod n.
Proof.
  intros Hn Hi Hj He. rewrite !Z.mod_eq in He by lia.
  assert (j - i = n * ((k + j) / n - (k + i) / n)) as Heq by lia.
  assert (0 < (k + j) / n - (k + i) / n < 1) by nia. lia.
Qed.

Lemma mod_succ n k i : 0 < n -> ((k + 1) mod n + i) mod n = (k + (i + 1)) mod n.
Proof. intros Hn. rewrite Zplus_mod_idemp_l. f_equal. lia. Qed.

(** Writing the slot behind the last of [k] entries appends an entry. *)
Lemma ring_take_push n es e k : forall get,
  0 <= get < n -> Z.of_nat k < n -> Z.of_nat (length es) = n ->
  ring_take n (<[Z.to_nat ((get + Z.of_nat k) mod n) := e]> es) get (S k) = ring_take n es get k ++ [e].
Proof.
  induction k as [|k IH]; intros get Hg Hk Hl.
  - cbn. rewrite Z.add_0_r, Z.mod_small by lia. by rewrite list_lookup_insert_eq by lia.
  - replace ((get + Z.of_nat (S k)) mod n) with (((get + 1) mod n + Z.of_nat k) mod n)
      by (rewrite mod_succ by lia; f_equal; lia).
    cbn [ring_take app]. f_equal; [|apply IH; [apply Z.mod_pos_bound; lia|lia|done]].
    rewrite list_lookup_insert_ne; [done|]. intros He. apply (f_equal Z.of_nat) in He.
    rewrite !Z2Nat.id in He by (try apply Z.mod_pos_bound; lia). rewrite mod_succ in He by lia.
    apply (mod_ne n 0 (Z.of_nat k + 1) get); [lia..|]. rewrite Z.add_0_r, He. by rewrite Z.mod_small.
Qed.

(** The entries between [gpu_get] and [cpu_put], oldest first. *)
Definition pending_count (c : channel) : Z := (ch_cpu_put c - ch_gpu_get c) mod ch_num c.
Definition pending (c : channel) : list gpfifo_entry :=
  ring_take (ch_num c) (ch_entries c) (ch_gpu_get c) (Z.to_nat (pending_count c)).

(** A ring in range. *)
Record ring_wf (c : channel) : Prop := {
  rw_num : 1 < ch_num c < 2 ^ 31;
  rw_len : Z.of_nat (length (ch_entries c)) = ch_num c;
  rw_put : 0 <= ch_cpu_put c < ch_num c;
  rw_get : 0 <= ch_gpu_get c < ch_num c;
}.

Lemma pending_count_range c : ring_wf c -> 0 <= pending_count c < ch_num c.
Proof. intros H. apply Z.mod_pos_bound. destruct H; lia. Qed.

Lemma length_pending c : ring_wf c -> Z.of_nat (length (pending c)) = pending_count c.
Proof. intros H. pose proof (pending_count_range c H). unfold pending. rewrite length_ring_take. lia. Qed.

Lemma pending_count_cases c : ring_wf c ->
  pending_count c = if ch_gpu_get c <=? ch_cpu_put c then ch_cpu_put c - ch_gpu_get c
                    else ch_cpu_put c + ch_num c - ch_gpu_get c.
Proof.
  intros [Hn _ Hp Hg]. unfold pending_count. destruct (Z.leb_spec (ch_gpu_get c) (ch_cpu_put c)).
  - apply Z.mod_small. lia.
  - rewrite <- (Z.mod_small (ch_cpu_put c + ch_num c - ch_gpu_get c) (ch_num c)) by lia.
    replace (ch_cpu_put c + ch_num c - ch_gpu_get c) with (ch_cpu_put c - ch_gpu_get c + 1 * ch_num c) by lia.
    by rewrite Z.mod_add by lia.
Qed.

Lemma pending_gpfifos_count c : ring_wf c -> pending_gpfifos c = pending_count c.
Proof.
  intros H. rewrite pending_count_cases by done. unfold pending_gpfifos. destruct H.
  destruct (Z.leb_spec (ch_gpu_get c) (ch_cpu_put c)); [done|]. rewrite u32_small by lia. lia.
Qed.

Lemma pending_count_zero c : ring_wf c -> pending_count c = 0 <-> ch_gpu_get c = ch_cpu_put c.
Proof.
  intros H. rewrite pending_count_cases by done. destruct H.
  destruct (Z.leb_spec (ch_gpu_get c) (ch_cpu_put c)); lia.
Qed.

Lemma pending_nil c : ring_wf c -> pending c = [] <-> ch_gpu_get c = ch_cpu_put c.
Proof.
  intros H. rewrite <- pending_count_zero by done. rewrite <- length_pending by done.
  destruct (pending c); cbn; split; intros; (done || lia).
Qed.

(** The free entries, one slot being kept as a sentinel. *)
Lemma available_count c : ring_wf c -> 0 <= ch_current c -> ch_current c + pending_count c < ch_num c ->
  channel_get_available_gpfifo_entries c = ch_num c - 1 - ch_current c - pending_count c.
Proof.
  intros H Hc Hr. pose proof (pending_count_range c H) as Hp. rewrite pending_count_cases in * by done.
  unfold channel_get_available_gpfifo_entries. destruct H.
  destruct (Z.leb_spec (ch_gpu_get c) (ch_cpu_put c));
    rewrite ?(u32_small (ch_num c - 1)), ?(u32_small (ch_num c - 1 - ch_current c)) by lia;
    rewrite ?(u32_small (ch_cpu_put c + ch_num c - ch_gpu_get c)) by lia; rewrite u32_small by lia; lia.
Qed.

Lemma ring_next_range c i : ring_wf c -> 0 <= ring_next c i < ch_num c.
Proof. intros H. apply Z.mod_pos_bound. destruct H; lia. Qed.

(** Dropping the oldest entry. *)
Lemma ring_wf_pop c infos : ring_wf c -> ring_wf (ch_set_get (ring_next c (ch_gpu_get c)) infos c).
Proof. intros H. pose proof (ring_next_range c (ch_gpu_get c) H). destruct H. by split. Qed.

Lemma pending_pop c infos : ring_wf c -> ch_gpu_get c <> ch_cpu_put c ->
  pending c = entry_at c (ch_gpu_get c) :: pending (ch_set_get (ring_next c (ch_gpu_get c)) infos c).
Proof.
  intros H Hne. pose proof (pending_count_range c H) as Hp.
  assert (pending_count c <> 0) as Hnz by (by rewrite pending_count_zero).
  assert (pending_count (ch_set_get (ring_next c (ch_gpu_get c)) infos c) = pending_count c - 1) as Hc.
  { unfold pending_count, ring_next in *; cbn. rewrite Zminus_mod_idemp_r. destruct H.
    replace (ch_cpu_put c - (ch_gpu_get c + 1)) with (ch_cpu_put c - ch_gpu_get c - 1) by lia.
    rewrite <- Zminus_mod_idemp_l. by rewrite Z.mod_small by lia. }
  unfold pending. rewrite Hc. by replace (Z.to_nat (pending_count c)) with (S (Z.to_nat (pending_count c - 1))) by lia.
Qed.

(** Queueing an entry at [cpu_put]: the ring has a free slot. *)
Definition ring_push (e : gpfifo_entry) (c : channel) : channel :=
  ch_set_ring (<[Z.to_nat (ch_cpu_put c) := e]> (ch_entries c)) (ring_next c (ch_cpu_put c))
    (ch_gpu_get c) (ch_infos c) c.

Lemma ring_wf_push e c : ring_wf c -> ring_wf (ring_push e c).
Proof.
  intros H. pose proof (ring_next_range c (ch_cpu_put c) H). destruct H.
  split; cbn; try done. by rewrite length_insert.
Qed.

Lemma pending_push e c : ring_wf c -> pending_count c + 1 < ch_num c ->
  pending (ring_push e c) = pending c ++ [e] /\ pending_count (ring_push e c) = pending_count c + 1.
Proof.
  intros H Hr. pose proof (pending_count_range c H) as Hp. pose proof H as [Hn Hl Hput Hget].
  assert (pending_count (ring_push e c) = pending_count c + 1) as Hc.
  { unfold pending_count, ring_push, ring_next in *; cbn. rewrite Zminus_mod_idemp_l.
    replace (ch_cpu_put c + 1 - ch_gpu_get c) with (ch_cpu_put c - ch_gpu_get c + 1) by lia.
    rewrite <- Zplus_mod_idemp_l. by rewrite Z.mod_small by lia. }
  split; [|done]. unfold pending at 1. rewrite Hc. cbn [ring_push ch_set_ring ch_num ch_entries ch_gpu_get].
  replace (Z.to_nat (pending_count c + 1)) with (S (Z.to_nat (pending_count c))) by lia.
  assert (ch_cpu_put c = (ch_gpu_get c + Z.of_nat (Z.to_nat (pending_count c))) mod ch_num c) as ->.
  { rewrite Z2Nat.id by lia. unfold pending_count. rewrite Zplus_mod_idemp_r.
    replace (ch_gpu_get c + (ch_cpu_put c - ch_gpu_get c)) with (ch_cpu_put c) by lia. by rewrite Z.mod_small. }
  by apply ring_take_push; lia.
Qed.

(** ** The channel invariant *)

(** Along the pending entries the tracking values are consecutive, a control entry
    having the value of the push after it: [lo] is the value before the first
    pending entry and [hi] that of the last push. *)
Fixpoint chain (lo : Z) (es : list gpfifo_entry) (hi : Z) : Prop :=
  match es with
  | [] => lo = hi
  | e :: es' => ge_tracking e = lo + 1 /\
      chain (match ge_type e with UVM_GPFIFO_ENTRY_TYPE_NORMAL => lo + 1
             | UVM_GPFIFO_ENTRY_TYPE_CONTROL => lo end) es' hi
  end.

Lemma chain_le es : forall lo hi, chain lo es hi -> lo <= hi.
Proof.
  induction es as [|e es IH]; cbn; intros lo hi; [lia|]. intros [_ H]. apply IH in H. destruct (ge_type e); lia.
Qed.

Lemma chain_push_normal es e : forall lo hi,
  chain lo es hi -> ge_type e = UVM_GPFIFO_ENTRY_TYPE_NORMAL -> ge_tracking e = hi + 1 -> chain lo (es ++ [e]) (hi + 1).
Proof.
  induction es as [|x es IH]; cbn; intros lo hi; [intros -> -> ->; done|]. intros [H1 H2] Ht Hv. split; [done|]. auto.
Qed.

Lemma chain_push_control es e : forall lo hi,
  chain lo es hi -> ge_type e = UVM_GPFIFO_ENTRY_TYPE_CONTROL -> ge_tracking e = hi + 1 -> chain lo (es ++ [e]) hi.
Proof.
  induction es as [|x es IH]; cbn; intros lo hi; [intros -> -> ->; done|]. intros [H1 H2] Ht Hv. split; [done|]. auto.
Qed.

(** Every value up to the last is that of a push, done or pending. *)
Lemma chain_values es : forall lo hi v, chain lo es hi -> lo < v <= hi ->
  exists e, e ∈ es /\ ge_type e = UVM_GPFIFO_ENTRY_TYPE_NORMAL /\ ge_tracking e = v.
Proof.
  induction es as [|e es IH]; cbn; intros lo hi v; [lia|]. intros [Ht Hc] Hv.
  destruct (ge_type e) eqn:He.
  - destruct (decide (v = lo + 1)) as [->|]; [exists e; split; [by left|done]|].
    destruct (IH _ _ v Hc) as (e' & H1 & H2); [lia|]. exists e'. split; [by right|done].
  - destruct (IH _ _ v Hc) as (e' & H1 & H2); [lia|]. exists e'. split; [by right|done].
Qed.

(** The push infos of entries. *)
Definition entry_infos (e : gpfifo_entry) : list Z :=
  match ge_type e with
  | UVM_GPFIFO_ENTRY_TYPE_NORMAL => option_list (ge_push_info e)
  | UVM_GPFIFO_ENTRY_TYPE_CONTROL => []
  end.
Definition infos_of (es : list gpfifo_entry) : list Z := mjoin (entry_infos <$> es).

Lemma infos_of_app es es' : infos_of (es ++ es') = infos_of es ++ infos_of es'.
Proof. unfold infos_of. by rewrite fmap_app, join_app. Qed.

Lemma length_infos_of es : (length (infos_of es) <= length es)%nat.
Proof.
  induction es as [|e es IH]; [done|]. change (infos_of (e :: es)) with (entry_infos e ++ infos_of es).
  rewrite length_app. cbn [length]. unfold entry_infos. destruct (ge_type e), (ge_push_info e); cbn; lia.
Qed.

(** [held]: the push infos of the pushes that have begun on the channel. *)
Record ch_inv (held : list Z) (c : channel) : Prop := {
  ci_wf    : ring_wf c;
  ci_room  : ch_current c + pending_count c < ch_num c;
  ci_held  : Z.of_nat (length held) <= ch_current c;
  ci_infos : ch_infos c ++ held ++ infos_of (pending c) ≡ₚ seqZ 0 (ch_num c);
  ci_track : exists lo, lo <= ch_completed c /\ chain lo (pending c) (ch_queued c);
  ci_sem   : 0 <= ch_completed c <= ch_queued c;
  ci_lcic  : ch_lcic c = false;
  ci_nobug : ch_bug c = false;
}.

Lemma ch_inv_perm held held' c : held ≡ₚ held' -> ch_inv held c -> ch_inv held' c.
Proof. intros Hp [?? Hh Hi ????]. split; try done; by rewrite <- Hp. Qed.

Lemma ch_assert_true c : ch_assert true c = c.
Proof. destruct c. unfold ch_assert; cbn. by rewrite orb_false_r. Qed.

Lemma ch_inv_create num : 1 < num < 2 ^ 31 -> ch_inv [] (channel_create num false).
Proof.
  intros Hn. assert (pending_count (channel_create num false) = 0) as Hp by done.
  assert (ring_wf (channel_create num false)) as Hw.
  { split; cbn; [lia| |lia|lia]. rewrite length_replicate. lia. }
  assert (pending (channel_create num false) = []) as He by (by apply pending_nil).
  split; try done; rewrite ?Hp, ?He; cbn; [lia|..].
  - by rewrite app_nil_r.
  - by exists 0.
Qed.

(** *** Progress *)

(** How many of the oldest entries are done at [v], at most [max]. *)
Fixpoint done_count (max : nat) (v : Z) (es : list gpfifo_entry) : nat :=
  match max, es with
  | S max', e :: es' => if v <? ge_tracking e then O else S (done_count max' v es')
  | _, _ => O
  end.

(** What updating the progress leaves alone. *)
Definition same_claims (c c' : channel) : Prop :=
  ch_num c' = ch_num c /\ ch_cpu_put c' = ch_cpu_put c /\ ch_current c' = ch_current c /\
  ch_queued c' = ch_queued c /\ ch_completed c' = ch_completed c /\ ch_gpu_put c' = ch_gpu_put c /\
  ch_notifier c' = ch_notifier c.

Lemma same_claims_refl c : same_claims c c.
Proof. done. Qed.

Lemma same_claims_trans c1 c2 c3 : same_claims c1 c2 -> same_claims c2 c3 -> same_claims c1 c3.
Proof. unfold same_claims. intuition congruence. Qed.

Lemma ch_inv_pop held c :
  ch_inv held c -> ch_gpu_get c <> ch_cpu_put c -> ge_tracking (entry_at c (ch_gpu_get c)) <= ch_completed c ->
  ch_inv held (ch_set_get (ring_next c (ch_gpu_get c)) (ch_infos c ++ entry_infos (entry_at c (ch_gpu_get c))) c).
Proof.
  intros [Hw Hr Hh Hi (lo & Hlo & Hch) Hs Hlc Hb] Hne Ht.
  set (infos := ch_infos c ++ _). set (c' := ch_set_get _ infos c).
  assert (ring_wf c') as Hw' by by apply ring_wf_pop.
  pose proof (pending_pop c infos Hw Hne) as Hpop. fold c' in Hpop.
  pose proof (length_pending c Hw) as Hlp. pose proof (length_pending c' Hw') as Hlp'.
  rewrite Hpop in Hlp, Hi, Hch. cbn [length] in Hlp. split; try done.
  - change (ch_current c') with (ch_current c). change (ch_num c') with (ch_num c). lia.
  - change (ch_num c') with (ch_num c). change (ch_infos c') with infos. rewrite <- Hi. subst infos.
    unfold infos_of. cbn [fmap list_fmap mjoin list_join]. fold (entry_infos (entry_at c (ch_gpu_get c))).
    rewrite <- !app_assoc. f_equiv. apply Permutation_app_swap_app.
  - destruct Hch as [Hv Hch]. change (ch_completed c') with (ch_completed c). change (ch_queued c') with (ch_queued c).
    destruct (ge_type (entry_at c (ch_gpu_get c))); [exists (lo + 1)|exists lo]; (split; [lia|done]).
Qed.

Lemma complete_entries_spec held max : forall v c,
  ch_inv held c -> v <= ch_completed c ->
  let c' := complete_entries max UVM_CHANNEL_UPDATE_MODE_COMPLETED v c in
  ch_inv held c' /\ same_claims c c' /\ pending c' = drop (done_count max v (pending c)) (pending c).
Proof.
  induction max as [|max IH]; intros v c Hi Hv; cbn [complete_entries done_count]; [done|].
  rewrite bool_decide_true by done. cbn [andb].
  destruct (Z.eqb_spec (ch_gpu_get c) (ch_cpu_put c)) as [He|Hne].
  { rewrite (proj2 (pending_nil c (ci_wf _ _ Hi)) He). done. }
  set (infos := match ge_type (entry_at c (ch_gpu_get c)) with UVM_GPFIFO_ENTRY_TYPE_NORMAL => _ | _ => _ end).
  assert (infos = ch_infos c ++ entry_infos (entry_at c (ch_gpu_get c))) as Hinf.
  { unfold infos, entry_infos. destruct (ge_type _); [done|]. by rewrite app_nil_r. }
  rewrite (pending_pop c infos (ci_wf _ _ Hi) Hne).
  destruct (Z.ltb_spec v (ge_tracking (entry_at c (ch_gpu_get c)))) as [Hlt|Hle].
  { rewrite drop_0. split_and!; [done|done|]. by apply pending_pop; [apply (ci_wf _ _ Hi)|]. }
  cbn [drop]. pose proof (ch_inv_pop held c Hi Hne ltac:(lia)) as Hi'. rewrite <- Hinf in Hi'.
  destruct (IH v _ Hi' Hv) as (H1 & H2 & H3). done.
Qed.

Lemma update_progress_spec held max v c :
  ch_inv held c -> v <= ch_completed c ->
  let '(n, c') := uvm_channel_update_progress_with_max max UVM_CHANNEL_UPDATE_MODE_COMPLETED v c in
  ch_inv held c' /\ same_claims c c' /\ n = pending_count c' /\
  pending c' = drop (done_count max v (pending c)) (pending c).
Proof.
  intros Hi Hv. unfold uvm_channel_update_progress_with_max. rewrite (ci_lcic _ _ Hi).
  pose proof (ci_sem _ _ Hi). rewrite (proj2 (Z.leb_le _ _)) by lia. rewrite ch_assert_true.
  destruct (complete_entries_spec held max v c Hi Hv) as (H1 & H2 & H3).
  split_and!; [done|done| |done]. apply pending_gpfifos_count, H1.
Qed.

(** An idle channel: everything queued is done. *)
Lemma idle_completed held c : ch_inv held c -> pending_count c = 0 -> ch_completed c = ch_queued c.
Proof.
  intros Hi Hp. pose proof (ci_sem _ _ Hi). destruct (ci_track _ _ Hi) as (lo & Hlo & Hch).
  rewrite (proj2 (pending_nil c (ci_wf _ _ Hi))) in Hch.
  - cbn in Hch. lia.
  - apply pending_count_zero; [apply Hi|done].
Qed.

(** *** Claims and pushes *)

(** A change of the claims alone. *)
Lemma ch_inv_current held n c : ch_inv held c ->
  n + pending_count c < ch_num c -> Z.of_nat (length held) <= n -> ch_inv held (ch_set_current n c).
Proof. intros [Hw ???????] ??. destruct Hw. by split. Qed.

Lemma ch_inv_gpu_put held v c : ch_inv held c -> ch_inv held (ch_set_gpu_put v c).
Proof. intros [Hw ???????]. destruct Hw. by split. Qed.

Lemma ch_inv_notifier held v c : ch_inv held c -> ch_inv held (ch_set_notifier v c).
Proof. intros [Hw ???????]. destruct Hw. by split. Qed.

Lemma ch_inv_available held c : ch_inv held c ->
  channel_get_available_gpfifo_entries c = ch_num c - 1 - ch_current c - pending_count c /\
  0 <= ch_current c < ch_num c.
Proof.
  intros [Hw Hr Hh ?????]. pose proof (pending_count_range c Hw). split; [apply available_count; [done|lia|lia]|lia].
Qed.

Lemma try_claim_spec held n c : ch_inv held c -> 0 < n < ch_num c ->
  let '(ok, c') := try_claim_channel_locked n c in
  ch_inv held c' /\ ok = (n <=? ch_num c - 1 - ch_current c - pending_count c) /\
  c' = if ok then ch_set_current (ch_current c + n) c else c.
Proof.
  intros Hi Hn. destruct (ch_inv_available held c Hi) as [Ha Hc]. unfold try_claim_channel_locked.
  pose proof (ci_wf _ _ Hi) as Hw. pose proof (pending_count_range c Hw). pose proof (ci_held _ _ Hi).
  rewrite Ha, (proj2 (Z.ltb_lt 0 n)), (proj2 (Z.ltb_lt n _)), (proj2 (Z.ltb_lt _ (ch_num c))) by lia.
  cbn [andb]. rewrite ch_assert_true. destruct (Z.leb_spec n (ch_num c - 1 - ch_current c - pending_count c)).
  - destruct Hw. rewrite u32_small by lia. split_and!; [|done|done]. apply ch_inv_current; [done|lia|lia].
  - done.
Qed.

Lemma push_info_spec held c : ch_inv held c -> Z.of_nat (length held) < ch_current c ->
  let '(i, c') := channel_get_available_push_info_index c in
  ch_inv (i :: held) c' /\ same_claims c c' /\ 0 <= i < ch_num c /\ i ∉ held /\ pending c' = pending c.
Proof.
  intros Hi Hl. pose proof (ci_wf _ _ Hi) as Hw. pose proof (ci_infos _ _ Hi) as Hp.
  unfold channel_get_available_push_info_index. destruct (ch_infos c) as [|i infos] eqn:He.
  - exfalso. apply Permutation_length in Hp. revert Hp.
    pose proof (length_infos_of (pending c)) as Hle.
    cbn. rewrite length_app, length_seqZ.
    pose proof (length_pending c Hw). pose proof (ci_room _ _ Hi). lia.
  - assert (NoDup (i :: infos ++ held ++ infos_of (pending c))) as Hnd.
    { change (NoDup ((i :: infos) ++ held ++ infos_of (pending c))). rewrite Hp. apply NoDup_seqZ. }
    apply NoDup_cons in Hnd as [Hni _]. split_and!.
    + destruct Hi as [? Hr Hh Hpi Ht Hs Hlc Hb]. split; try done.
      * by destruct Hw.
      * change (Z.of_nat (S (length held)) <= ch_current c). lia.
      * change (infos ++ (i :: held) ++ infos_of (pending c) ≡ₚ seqZ 0 (ch_num c)). rewrite <- Hp.
        cbn. by rewrite <- Permutation_middle.
    + done.
    + assert (i ∈ seqZ 0 (ch_num c)) as Hin%elem_of_seqZ by (rewrite <- Hp; left). lia.
    + assert (i ∈ seqZ 0 (ch_num c)) as Hin%elem_of_seqZ by (rewrite <- Hp; left). lia.
    + intros Hin. apply Hni. rewrite !elem_of_app. tauto.
    + done.
Qed.

Lemma push_inv held held' e c : ch_inv held c ->
  pending_count c + 1 < ch_num c ->
  entry_infos e ++ held' ≡ₚ held ->
  forall q, (exists lo, lo <= ch_completed c /\ chain lo (pending c ++ [e]) q) -> ch_queued c <= q ->
  forall n, Z.of_nat (length held') <= n -> n + pending_count c + 1 < ch_num c ->
  ch_inv held' (ring_push e (ch_set_current n (ch_set_queued q c))).
Proof.
  intros [Hw Hr Hh Hi Ht Hs Hlc Hb] Hroom Hheld q Hq Hle n Hn Hnr.
  set (c1 := ch_set_current n (ch_set_queued q c)).
  assert (ring_wf c1) as Hw1 by (by destruct Hw).
  destruct (pending_push e c1 Hw1 Hroom) as [Hpe Hpc]. change (pending c1) with (pending c) in Hpe.
  change (pending_count c1) with (pending_count c) in Hpc. split; try done.
  - by apply ring_wf_push.
  - rewrite Hpc. change (n + (pending_count c + 1) < ch_num c). lia.
  - rewrite Hpe, infos_of_app. change (ch_infos c ++ held' ++ infos_of (pending c) ++ infos_of [e] ≡ₚ seqZ 0 (ch_num c)).
    rewrite <- Hi, <- Hheld. unfold infos_of at 2; cbn. rewrite app_nil_r. f_equiv.
    rewrite (Permutation_app_comm (infos_of (pending c))), <- app_assoc. apply Permutation_app_swap_app.
  - rewrite Hpe. done.
  - change (0 <= ch_completed c <= q). lia.
Qed.

Lemma end_push_spec held max_push i pb c :
  ch_inv (i :: held) c -> ch_gpu_put c = ch_cpu_put c -> ch_queued c + 1 < 2 ^ 64 -> pu_size pb <= max_push ->
  let c' := end_push_entry max_push true i pb c in
  ch_inv held c' /\ ch_num c' = ch_num c /\ ch_current c' = ch_current c - 1 /\ ch_gpu_put c' = ch_cpu_put c' /\
  ch_queued c' = ch_queued c + 1 /\ ch_completed c' = ch_completed c /\ ch_notifier c' = ch_notifier c /\
  exists e, pending c' = pending c ++ [e] /\ ge_tracking e = ch_queued c' /\ ge_push_info e = Some i.
Proof.
  intros Hi Hg Hq Hsz. pose proof (ci_wf _ _ Hi) as Hw. pose proof (ci_held _ _ Hi) as Hh. cbn [length] in Hh.
  pose proof (ci_sem _ _ Hi) as Hs. pose proof (ci_room _ _ Hi) as Hr. pose proof (pending_count_range c Hw) as Hp.
  pose proof (ci_wf _ _ Hi) as [Hnum _ _ _].
  unfold end_push_entry. rewrite (proj2 (Z.leb_le (pu_size pb) max_push) Hsz), ch_assert_true, (u64_small (ch_queued c + 1)) by lia.
  rewrite (proj2 (Z.ltb_lt 0 (ch_current c))) by lia. rewrite ch_assert_true.
  set (e := mk_gpfifo_entry _ _ _ _ _ _). rewrite u32_small by (cbn; lia).
  rewrite (proj2 (Z.eqb_eq _ _)) by done. rewrite ch_assert_true.
  cbn [ch_set_queued ch_current].
  set (c1 := ch_set_current (ch_current c - 1) (ch_set_queued (ch_queued c + 1) c)).
  assert (ch_inv held (ring_push e c1)) as Hi'.
  { apply (push_inv (i :: held)); [done|lia|done| |lia|lia|lia]. destruct (ci_track _ _ Hi) as (lo & Hlo & Hch).
    exists lo. split; [done|]. by apply chain_push_normal. }
  destruct (pending_push e c1) as [Hpe _]; [by destruct Hw|change (pending_count c + 1 < ch_num c); lia|].
  split_and!; try done.
  { apply (ch_inv_gpu_put held _ (ring_push e c1)), Hi'. }
  exists e. split; [exact Hpe|done].
Qed.

Lemma write_ctrl_spec held v c :
  ch_inv held c -> Z.of_nat (length held) + 1 <= ch_current c -> 1 < ch_current c -> ch_queued c + 1 < 2 ^ 64 ->
  let c' := write_ctrl_entry v c in
  ch_inv held c' /\ ch_num c' = ch_num c /\ ch_current c' = ch_current c - 1 /\ ch_gpu_put c' = ch_gpu_put c /\
  ch_queued c' = ch_queued c /\ ch_completed c' = ch_completed c /\ ch_notifier c' = ch_notifier c /\
  ch_cpu_put c' = ring_next c (ch_cpu_put c).
Proof.
  intros Hi Hl H1 Hq. pose proof (ci_wf _ _ Hi) as Hw. pose proof (ci_room _ _ Hi) as Hr.
  pose proof (pending_count_range c Hw) as Hp. pose proof (ci_wf _ _ Hi) as [Hnum _ _ _]. pose proof (ci_sem _ _ Hi).
  unfold write_ctrl_entry. rewrite (u64_small (ch_queued c + 1)) by lia.
  rewrite (proj2 (Z.ltb_lt 1 (ch_current c))) by lia. rewrite ch_assert_true, u32_small by lia.
  set (e := mk_gpfifo_entry _ _ _ _ _ _). split_and!; try done.
  assert (ch_set_queued (ch_queued c) c = c) as Hc by by destruct c.
  destruct (ci_track _ _ Hi) as (lo & Hlo & Hch).
  pose proof (push_inv held held e c Hi ltac:(lia) ltac:(done) (ch_queued c)) as Hpi. rewrite Hc in Hpi.
  apply Hpi; [|lia..]. exists lo. split; [done|]. by apply chain_push_control.
Qed.

Lemma release_spec held n c : ch_inv held c -> 0 <= n -> Z.of_nat (length held) + n <= ch_current c ->
  ch_inv held (release_entries n c) /\ release_entries n c = ch_set_current (ch_current c - n) c.
Proof.
  intros Hi Hn Hl. pose proof (ci_room _ _ Hi). pose proof (ci_wf _ _ Hi) as Hw.
  pose proof (pending_count_range c Hw). destruct Hw. unfold release_entries.
  rewrite (proj2 (Z.leb_le _ _)) by lia. rewrite ch_assert_true, u32_small by lia.
  split; [|done]. apply ch_inv_current; [done|lia|lia].
Qed.

(** The GPU releases the semaphore. *)
Lemma ch_inv_completed held v c :
  ch_inv held c -> ch_completed c <= v <= ch_queued c -> ch_inv held (ch_set_completed v c).
Proof.
  intros [Hw Hr Hh Hi (lo & Hlo & Hch) Hs Hlc Hb] Hv. destruct Hw. split; try done.
  - exists lo. split; [cbn; lia|done].
  - cbn. lia.
Qed.
