(* ===== verification/Channels.v ===== *)
(** A pool of secure channels and the threads that use it ([uvm_channel.c], with
    confidential computing enabled): reservation through the push semaphore and
    the lock bits, pushes and control entries, and key rotation, which first
    reserves the whole pool and waits for every channel.

    A thread is a state machine over its position in that code; one step is what
    it does under the pool lock, or between two such stretches.  [choice] is what
    the thread and the GPU may decide; the semaphore of a channel and its error
    notifier change between steps ([pool_step]).  Reservation of the launch channel
    happens in another pool, in the same way; the pools of WLC and LCIC channels,
    in which rotation waits for the paired channel, are not modelled. *)
From S2P Require Import Prelude Kernel Gpfifo.

Record channel_pool := mk_pool {
  pl_channels : list channel;
  pl_locks    : gset nat;       (* conf_computing.push_locks *)
  pl_sem      : Z;              (* conf_computing.push_sem *)
  pl_rotating : bool;           (* key_rotation.mutex is held *)
  pl_fatal    : nv_status;      (* the global fatal error *)
  pl_bug      : bool;           (* a UVM_ASSERT on the pool failed *)
}.

Definition pl_set_channels (l : list channel) (p : channel_pool) : channel_pool :=
  mk_pool l (pl_locks p) (pl_sem p) (pl_rotating p) (pl_fatal p) (pl_bug p).
Definition pl_set_chan (c : nat) (ch : channel) (p : channel_pool) : channel_pool :=
  pl_set_channels (<[c := ch]> (pl_channels p)) p.
Definition pl_set_locks (l : gset nat) (b : bool) (p : channel_pool) : channel_pool :=
  mk_pool (pl_channels p) l (pl_sem p) (pl_rotating p) (pl_fatal p) (pl_bug p || negb b).
Definition pl_set_rotating (b : bool) (p : channel_pool) : channel_pool :=
  mk_pool (pl_channels p) (pl_locks p) (pl_sem p) b (pl_fatal p) (pl_bug p).
(** [uvm_down] and [uvm_up] of the push semaphore. *)
Definition pl_add_sem (d : Z) (p : channel_pool) : channel_pool :=
  mk_pool (pl_channels p) (pl_locks p) (pl_sem p + d) (pl_rotating p) (pl_fatal p) (pl_bug p).
(** [uvm_global_set_fatal_error]: the first one is kept. *)
Definition uvm_global_set_fatal_error (st : nv_status) (p : channel_pool) : channel_pool :=
  mk_pool (pl_channels p) (pl_locks p) (pl_sem p) (pl_rotating p) (first_err (pl_fatal p) st) (pl_bug p).

Definition num_channels (p : channel_pool) : Z := Z.of_nat (length (pl_channels p)).

(** ** Locking a channel for a push *)

Definition uvm_channel_is_locked_for_push (c : nat) (p : channel_pool) : bool := bool_decide (c ∈ pl_locks p).

Definition unlock_channel_for_push (c : nat) (p : channel_pool) : channel_pool :=
  pl_add_sem 1 (pl_set_locks (pl_locks p ∖ {[c]}) (uvm_channel_is_locked_for_push c p) p).

Definition lock_channel_for_push (c : nat) (p : channel_pool) : channel_pool :=
  pl_set_locks ({[c]} ∪ pl_locks p) (negb (uvm_channel_is_locked_for_push c p)) p.

(** [try_claim_channel_locked] and, when it succeeds, [lock_channel_for_push]. *)
Definition claim_and_lock (c : nat) (n : Z) (p : channel_pool) : bool * channel_pool :=
  match pl_channels p !! c with
  | None => (false, p)
  | Some ch =>
      let '(claimed, ch) := try_claim_channel_locked n ch in
      let p := pl_set_chan c ch p in
      if claimed then (true, lock_channel_for_push c p) else (false, p)
  end.

Definition test_claim_and_lock_channel (c : nat) (n : Z) (p : channel_pool) : bool * channel_pool :=
  if uvm_channel_is_locked_for_push c p then (false, p) else claim_and_lock c n p.

(** The [for_each_clear_bit] loop of [channel_reserve_and_lock_in_pool]. *)
Fixpoint claim_first (cs : list nat) (p : channel_pool) : option nat * channel_pool :=
  match cs with
  | [] => (None, p)
  | c :: cs' =>
      let '(ok, p) := claim_and_lock c 1 p in
      if ok then (Some c, p) else claim_first cs' p
  end.
Definition clear_bits (p : channel_pool) : list nat :=
  filter (fun c => c ∉ pl_locks p) (seq 0 (length (pl_channels p))).

Definition uvm_channel_release (c : nat) (n : Z) (ch : channel) (p : channel_pool) : channel_pool :=
  pl_set_chan c (release_entries n ch) (unlock_channel_for_push c p).

(** ** Threads *)

(** A reservation of any channel for a push, or of one channel for a push or for
    a control entry and the push after it. *)
Inductive request := RAny | ROn (c : nat) (ctrl : bool).

Definition rq_count (rq : request) : Z := match rq with ROn _ true => 2 | _ => 1 end.

Inductive client :=
| CIdle
| CLocate (rq : request)                  (* push_sem taken; the first attempt *)
| CSpin (rq : request) (c : nat)          (* in the loop, at a channel: update its progress, *)
| CTest (rq : request) (c : nat)          (* try to claim it, *)
| CCheck (rq : request) (c : nat)         (* check it for errors *)
| CReserved (c : nat) (n : Z)             (* locked, with n entries claimed *)
| CCtrl (c : nat) (old_put new_put : Z)   (* control entry written, not submitted *)
| CPush (c : nat) (info : Z)              (* a push has begun *)
| CRotate (k : Z)                         (* key rotation: units of push_sem taken *)
| CWait (c : nat) (first : bool)          (* the whole pool reserved; waiting for a channel *)
| CRelease (k : Z).                       (* units to give back *)

Record choice := mk_choice {
  co_rotate  : bool;        (* an idle thread rotates the key rather than push *)
  co_request : request;
  co_seen    : Z;           (* the semaphore value read *)
  co_ecc     : bool;
  co_ok      : bool;        (* the fallible calls on a reserved channel succeed *)
  co_begin   : nv_status;   (* the launch of a control entry: its uvm_push_begin, *)
  co_end     : nv_status;   (* its uvm_push_end_and_wait *)
  co_pb      : push_bytes;
  co_ctrl    : Z;
}.

(** The channel after [c] in the loop of a reservation. *)
Definition spin_next (rq : request) (c : nat) (p : channel_pool) : nat :=
  match rq with
  | ROn c _ => c
  | RAny => if bool_decide (S c < length (pl_channels p))%nat then S c else 0%nat
  end.

(** On a channel that the thread has locked. *)
Definition reserved_step (x : choice) (p : channel_pool) (c : nat) (n : Z) (ch : channel)
    : channel_pool * client :=
  if negb (co_ok x) then (uvm_channel_release c n ch p, CIdle)
  else if n =? 1
  then let '(info, ch) := channel_get_available_push_info_index ch in
       (pl_set_chan c ch p, CPush c info)
  else let ch' := write_ctrl_entry (co_ctrl x) ch in
       (pl_set_chan c ch' p, CCtrl c (ch_cpu_put ch) (ch_cpu_put ch')).

(** [uvm_channel_wait] in [channel_pool_rotate_key_locked]: the test before its
    loop ([first]), or one round of the loop and, when it ends in an error, the
    update in the loop's test. *)
Definition wait_step (x : choice) (p : channel_pool) (c : nat) (first : bool) (ch : channel)
    : channel_pool * client :=
  let failed p := (p, CRelease (num_channels p)) in
  let last_update ch := if first then ch else snd (uvm_channel_update_progress (co_seen x) ch) in
  let '(pending, ch) := uvm_channel_update_progress (co_seen x) ch in
  if first && negb (is_ok (pl_fatal p)) then
    let '(_, ch) := uvm_channel_update_progress (co_seen x) ch in failed (pl_set_chan c ch p)
  else if negb first && (pending =? 0) then (pl_set_chan c ch p, CWait (S c) true)
  else if first && negb (pending =? 0) then (pl_set_chan c ch p, CWait c false)
  else if negb (is_ok (pl_fatal p)) then failed (pl_set_chan c (last_update ch) p)
  else
    let '(status, ch) := uvm_channel_check_errors (co_ecc x) (co_seen x) ch in
    if negb (is_ok status) then failed (uvm_global_set_fatal_error status (pl_set_chan c (last_update ch) p))
    else (pl_set_chan c ch p, if first then CWait (S c) true else CWait c false).

(** [UVM_MAX_PUSH_SIZE] is a constant of [uvm_pushbuffer.h]. *)
Section Pool.
Context (UVM_MAX_PUSH_SIZE : Z).

(** One step; [None] when the thread has to wait. *)
Definition client_step (x : choice) (p : channel_pool) (cl : client) : option (channel_pool * client) :=
  match cl with
  | CIdle =>
      if co_rotate x then
        if pl_rotating p then None else Some (pl_set_rotating true p, CRotate 0)
      else if 0 <? pl_sem p then Some (pl_add_sem (-1) p, CLocate (co_request x)) else None
  | CLocate RAny =>
      let '(r, p) := claim_first (clear_bits p) p in
      Some (p, match r with Some c => CReserved c 1 | None => CSpin RAny 0 end)
  | CLocate (ROn c ctrl) =>
      let '(ok, p) := test_claim_and_lock_channel c (rq_count (ROn c ctrl)) p in
      Some (p, if ok then CReserved c (rq_count (ROn c ctrl)) else CSpin (ROn c ctrl) c)
  | CSpin rq c =>
      ch ← pl_channels p !! c;
      Some (pl_set_chan c (snd (uvm_channel_update_progress (co_seen x) ch)) p, CTest rq c)
  | CTest rq c =>
      let '(ok, p) := test_claim_and_lock_channel c (rq_count rq) p in
      Some (p, if ok then CReserved c (rq_count rq) else CCheck rq c)
  | CCheck rq c =>
      ch ← pl_channels p !! c;
      let '(status, ch) := uvm_channel_check_errors (co_ecc x) (co_seen x) ch in
      let p := pl_set_chan c ch p in
      Some (if is_ok status then (p, CSpin rq (spin_next rq c p))
            else (pl_add_sem 1 (uvm_global_set_fatal_error status p), CIdle))
  | CReserved c n => ch ← pl_channels p !! c; Some (reserved_step x p c n ch)
  | CCtrl c old_put new_put =>
      ch ← pl_channels p !! c;
      ch ← submit_ctrl_entry (co_begin x) (co_end x) old_put new_put ch;
      Some (pl_set_chan c ch p, CReserved c 1)
  | CPush c info =>
      ch ← pl_channels p !! c;
      Some (unlock_channel_for_push c (pl_set_chan c (end_push_entry UVM_MAX_PUSH_SIZE true info (co_pb x) ch) p), CIdle)
  | CRotate k =>
      if k =? num_channels p then Some (p, CWait 0 true)
      else if 0 <? pl_sem p then Some (pl_add_sem (-1) p, CRotate (k + 1)) else None
  | CWait c first =>
      (* all waited for: [uvm_conf_computing_rotate_pool_key] is called here *)
      if bool_decide (c = length (pl_channels p)) then Some (p, CRelease (num_channels p))
      else ch ← pl_channels p !! c; Some (wait_step x p c first ch)
  | CRelease k =>
      if k =? 0 then Some (pl_set_rotating false p, CIdle) else Some (pl_add_sem 1 p, CRelease (k - 1))
  end%stdpp.

(** The launch of a control entry succeeds. *)
Definition launches (x : choice) : Prop := co_begin x = NV_OK /\ co_end x = NV_OK.

(** What the code relies on: the value a thread reads is one the semaphore has
    had, the methods of a push fit the pushbuffer, and launches succeed ("all
    failures are globally fatal", [write_ctrl_gpfifo]). *)
Definition choice_ok (x : choice) (p : channel_pool) (cl : client) : Prop :=
  match cl with
  | CCtrl _ _ _ => launches x
  | CPush _ _ => pu_size (co_pb x) <= UVM_MAX_PUSH_SIZE
  | CSpin _ c | CCheck _ c | CWait c _ =>
      forall ch, pl_channels p !! c = Some ch -> co_seen x <= ch_completed ch
  | _ => True
  end.

(** A thread steps, the GPU releases a semaphore up to the queued value, or it
    reports an error. *)
Inductive pool_step : list client * channel_pool -> list client * channel_pool -> Prop :=
| step_client i x cls p cl cl' p' :
    cls !! i = Some cl -> choice_ok x p cl -> client_step x p cl = Some (p', cl') ->
    pool_step (cls, p) (<[i := cl']> cls, p')
| step_gpu c v cls p ch :
    pl_channels p !! c = Some ch -> ch_completed ch <= v <= ch_queued ch ->
    pool_step (cls, p) (cls, pl_set_chan c (ch_set_completed v ch) p)
| step_error c v cls p ch :
    pl_channels p !! c = Some ch ->
    pool_step (cls, p) (cls, pl_set_chan c (ch_set_notifier v ch) p).

(** [n] channels of [num] entries and [k] threads. *)
Definition pool_start (n : nat) (num : Z) (k : nat) : list client * channel_pool :=
  (replicate k CIdle, mk_pool (replicate n (channel_create num false)) ∅ (Z.of_nat n) false NV_OK false).

(** Reachable in a number of steps. *)
Inductive reach (s0 : list client * channel_pool) : nat -> list client * channel_pool -> Prop :=
| reach_start : reach s0 0 s0
| reach_next k s s' : reach s0 k s -> pool_step s s' -> reach s0 (S k) s'.

(** ** The invariant of the pool *)

Definition owns (cl : client) : option nat :=
  match cl with CReserved c _ | CCtrl c _ _ | CPush c _ => Some c | _ => None end.

(** The units of [push_sem] a thread has taken, of [n]. *)
Definition units (n : Z) (cl : client) : Z :=
  match cl with
  | CIdle => 0
  | CRotate k | CRelease k => k
  | CWait _ _ => n
  | _ => 1
  end.

Definition rotates (cl : client) : Z :=
  match cl with CRotate _ | CWait _ _ | CRelease _ => 1 | _ => 0 end.

Definition total (f : client -> Z) (cls : list client) : Z := foldr Z.add 0 (f <$> cls).

Lemma total_perm f cls cls' : cls ≡ₚ cls' -> total f cls = total f cls'.
Proof. unfold total. induction 1; cbn in *; lia. Qed.

Lemma total_nonneg f cls : Forall (fun cl => 0 <= f cl) cls -> 0 <= total f cls.
Proof. unfold total. induction 1; cbn; lia. Qed.

Lemma total_ge f cls cl : Forall (fun cl => 0 <= f cl) cls -> cl ∈ cls -> f cl <= total f cls.
Proof.
  intros Hf (l1 & l2 & ->)%list_elem_of_split. rewrite (total_perm f _ (cl :: l1 ++ l2)) by by rewrite Permutation_middle.
  apply Forall_app in Hf as [H1 [H2 H3]%Forall_cons].
  assert (0 <= total f (l1 ++ l2)) by by apply total_nonneg, Forall_app. unfold total in *; cbn. lia.
Qed.

(** A channel with [n] entries claimed by its owner, whose pushes are [held]. *)
Definition owned (held : list Z) (n : Z) (ch : channel) : Prop := ch_inv held ch /\ ch_current ch = n.
(** GPPUT is where the next entry goes. *)
Definition in_step (ch : channel) : Prop := ch_gpu_put ch = ch_cpu_put ch.

Definition client_ok (chs : list channel) (cl : client) : Prop :=
  match cl with
  | CReserved c n => (n = 1 \/ n = 2) /\ exists ch, chs !! c = Some ch /\ owned [] n ch /\ in_step ch
  | CCtrl c old_put new_put =>
      exists ch, chs !! c = Some ch /\ owned [] 1 ch /\ ch_gpu_put ch = old_put /\ ch_cpu_put ch = new_put
  | CPush c info => exists ch, chs !! c = Some ch /\ owned [info] 1 ch /\ in_step ch
  | CRotate k | CRelease k => 0 <= k <= Z.of_nat (length chs)
  | CWait w _ => (w <= length chs)%nat /\ forall j ch, (j < w)%nat -> chs !! j = Some ch -> pending ch = []
  | _ => True
  end.

(** The pool but for one thread, which owns [own], has [un] units and holds the
    rotation mutex [rot] times; [b] bounds the tracking values. *)
Record others (b : Z) (rest : list client) (own : option nat) (un rot : Z) (p : channel_pool) : Prop := {
  ot_num   : Forall (fun ch => 2 < ch_num ch /\ ch_queued ch <= b) (pl_channels p);
  ot_sem   : 0 <= pl_sem p;
  ot_units : pl_sem p + un + total (units (num_channels p)) rest = num_channels p;
  ot_nodup : NoDup (option_list own ++ omap owns rest);
  ot_locks : pl_locks p = list_to_set (option_list own ++ omap owns rest);
  ot_rest  : Forall (client_ok (pl_channels p)) rest;
  ot_free  : forall c ch, pl_channels p !! c = Some ch -> c ∉ pl_locks p -> owned [] 0 ch /\ in_step ch;
  ot_rot   : rot + total rotates rest = if pl_rotating p then 1 else 0;
  ot_bug   : pl_bug p = false;
}.

Definition pool_ok (b : Z) (cls : list client) (p : channel_pool) : Prop :=
  Forall (client_ok (pl_channels p)) cls /\ others b cls None 0 0 p.

Lemma pool_ok_cons b cl rest p :
  pool_ok b (cl :: rest) p <->
  client_ok (pl_channels p) cl /\ others b rest (owns cl) (units (num_channels p) cl) (rotates cl) p.
Proof.
  unfold pool_ok. rewrite Forall_cons.
  assert (omap owns (cl :: rest) = option_list (owns cl) ++ omap owns rest) as Ho by by cbn; destruct (owns cl).
  assert (forall f, total f (cl :: rest) = f cl + total f rest) as Ht by done.
  split.
  - intros [[Hcl _] [? ? Hu Hnd Hl Hr ? Hrot ?]]. split; [done|]. rewrite Ht in Hu, Hrot. cbn [option_list app] in *.
    rewrite Ho in Hnd, Hl. apply Forall_cons in Hr as [_ Hr]. split; try done; lia.
  - intros [Hcl [? ? Hu Hnd Hl Hr ? Hrot ?]]. split; [done|]. split; rewrite ?Ht, ?Ho; cbn [option_list app]; try done; try lia.
    by apply Forall_cons.
Qed.

Lemma omap_perm {A B} (f : A -> option B) l l' : l ≡ₚ l' -> omap f l ≡ₚ omap f l'.
Proof. by intros ->. Qed.

Lemma pool_ok_perm b cls cls' p : cls ≡ₚ cls' -> pool_ok b cls p -> pool_ok b cls' p.
Proof.
  intros Hp [Hc [? ? Hu Hnd Hl Hr ? Hrot ?]]. split; [by rewrite <- Hp|]. cbn [option_list app] in *.
  split; cbn [option_list app]; try done.
  - by rewrite <- (total_perm _ _ _ Hp).
  - by rewrite <- (omap_perm owns _ _ Hp).
  - rewrite Hl. apply list_to_set_perm_L. by apply omap_perm.
  - by rewrite <- Hp.
  - by rewrite <- (total_perm _ _ _ Hp).
Qed.

Lemma units_nonneg b rest own un rot p : others b rest own un rot p ->
  Forall (fun cl => 0 <= units (num_channels p) cl) rest.
Proof.
  intros H. eapply Forall_impl; [apply (ot_rest _ _ _ _ _ _ H)|]. intros [] Hok; cbn in *; unfold num_channels; lia.
Qed.

(** A thread with a unit keeps the others from reserving the whole pool. *)
Lemma no_waiter b rest own un rot p w f : others b rest own un rot p -> 0 < un -> CWait w f ∉ rest.
Proof.
  intros H Hu Hin. pose proof (total_ge _ _ _ (units_nonneg _ _ _ _ _ _ H) Hin) as Ht. cbn in Ht.
  pose proof (ot_units _ _ _ _ _ _ H). pose proof (ot_sem _ _ _ _ _ _ H). lia.
Qed.

(** ** How the rest of the pool is kept *)

Lemma num_channels_set_chan c ch p : num_channels (pl_set_chan c ch p) = num_channels p.
Proof. unfold num_channels; cbn. by rewrite length_insert. Qed.

(** Progress of a channel. *)
Record advances (ch ch' : channel) : Prop := {
  ad_inv     : forall held, ch_inv held ch -> ch_inv held ch';
  ad_num     : ch_num ch' = ch_num ch;
  ad_current : ch_current ch' = ch_current ch;
  ad_put     : ch_cpu_put ch' = ch_cpu_put ch;
  ad_gpu_put : ch_gpu_put ch' = ch_gpu_put ch;
  ad_queued  : ch_queued ch' = ch_queued ch;
  ad_seen    : ch_completed ch <= ch_completed ch';
  ad_idle    : pending ch = [] -> pending ch' = [];
}.

Lemma advances_refl ch : advances ch ch.
Proof. by split; auto with lia. Qed.

Lemma advances_trans c1 c2 c3 : advances c1 c2 -> advances c2 c3 -> advances c1 c3.
Proof. intros [] []. split; auto; try congruence. lia. Qed.

Lemma owned_advances held n ch ch' : advances ch ch' -> owned held n ch -> owned held n ch'.
Proof. intros [] [? <-]. split; [auto|done]. Qed.

Lemma in_step_advances ch ch' : advances ch ch' -> in_step ch -> in_step ch'.
Proof. unfold in_step. intros []. congruence. Qed.

#[local] Hint Resolve owned_advances in_step_advances : core.

Lemma lookup_set_chan c c' ch p ch' : pl_channels (pl_set_chan c ch' p) !! c' = Some ch ->
  (c' = c /\ ch = ch' /\ is_Some (pl_channels p !! c)) \/ (c' <> c /\ pl_channels p !! c' = Some ch).
Proof.
  cbn. intros H. destruct (decide (c' = c)) as [->|Hne].
  - left. apply list_lookup_insert_Some in H as [(_ & <- & Hl)|[? _]]; [|done].
    split_and!; [done|done|by apply lookup_lt_is_Some].
  - right. by rewrite list_lookup_insert_ne in H by done.
Qed.

Lemma lookup_set_chan_ne c c' ch p : c' <> c -> pl_channels (pl_set_chan c ch p) !! c' = pl_channels p !! c'.
Proof. intros. by apply list_lookup_insert_ne. Qed.

Lemma lookup_set_chan_eq c ch ch0 p : pl_channels p !! c = Some ch0 -> pl_channels (pl_set_chan c ch p) !! c = Some ch.
Proof. intros. apply list_lookup_insert_eq. by eapply lookup_lt_Some. Qed.

Lemma client_ok_advances c ch ch' p cl :
  pl_channels p !! c = Some ch -> advances ch ch' ->
  client_ok (pl_channels p) cl -> client_ok (pl_channels (pl_set_chan c ch' p)) cl.
Proof.
  intros Hc Ha.
  assert (forall d x, pl_channels p !! d = Some x -> exists y, pl_channels (pl_set_chan c ch' p) !! d = Some y /\ advances x y) as Hd.
  { intros d x Hx. destruct (decide (d = c)) as [->|Hne].
    - exists ch'. rewrite Hc in Hx. injection Hx as <-. split; [by eapply lookup_set_chan_eq|done].
    - exists x. rewrite lookup_set_chan_ne by done. split; [done|apply advances_refl]. }
  destruct cl; cbn [client_ok]; try done.
  - intros (Hn & x & Hx & Ho & Hs). split; [done|]. destruct (Hd _ _ Hx) as (y & Hy & Hay). exists y. eauto.
  - intros (x & Hx & Ho & H1 & H2). destruct (Hd _ _ Hx) as (y & Hy & Hay). exists y. destruct Hay as [] eqn:?.
    split_and!; [done|eauto|congruence|congruence].
  - intros (x & Hx & Ho & Hs). destruct (Hd _ _ Hx) as (y & Hy & Hay). exists y. eauto.
  - cbn. by rewrite length_insert.
  - intros [Hl Hw]. split; [cbn; by rewrite length_insert|]. intros j x Hj Hx.
    apply lookup_set_chan in Hx as [(-> & -> & _)|[_ Hx]]; [|eauto]. destruct Ha. eauto.
  - cbn. by rewrite length_insert.
Qed.

Lemma Forall_set_chan (P : channel -> Prop) c ch p :
  Forall P (pl_channels p) -> P ch -> Forall P (pl_channels (pl_set_chan c ch p)).
Proof. intros. cbn. by apply Forall_insert. Qed.

Lemma others_advances b rest own un rot p c ch ch' :
  others b rest own un rot p -> pl_channels p !! c = Some ch -> advances ch ch' ->
  others b rest own un rot (pl_set_chan c ch' p).
Proof.
  intros [Hn ? Hu ? ? Hr Hf ? ?] Hc Ha. split; try done.
  - apply Forall_set_chan; [done|]. pose proof (Forall_lookup_1 _ _ _ _ Hn Hc) as [? ?]. destruct Ha. split; [congruence|lia].
  - by rewrite num_channels_set_chan.
  - eapply Forall_impl; [exact Hr|]. intros cl. by apply client_ok_advances with ch.
  - intros d x Hx Hd. apply lookup_set_chan in Hx as [(-> & -> & _)|[_ Hx]]; [|eauto].
    destruct (Hf _ _ Hc Hd). eauto.
Qed.

Lemma pool_ok_advances b cls p c ch ch' :
  pool_ok b cls p -> pl_channels p !! c = Some ch -> advances ch ch' -> pool_ok b cls (pl_set_chan c ch' p).
Proof.
  intros [Hc Ho] Hl Ha. split; [|by eapply others_advances].
  eapply Forall_impl; [exact Hc|]. intros cl. by eapply client_ok_advances.
Qed.

(** *** A thread that owns a channel *)

Lemma client_ok_other c ch p cl : owns cl <> Some c -> (forall w f, cl <> CWait w f) ->
  client_ok (pl_channels p) cl -> client_ok (pl_channels (pl_set_chan c ch p)) cl.
Proof.
  intros Ho Hw. assert (forall d x, d <> c -> pl_channels p !! d = Some x -> pl_channels (pl_set_chan c ch p) !! d = Some x) as Hd.
  { intros d x Hne. by rewrite lookup_set_chan_ne. }
  destruct cl; cbn [client_ok owns] in *; try done.
  - intros (Hn & x & Hx & ?). split; [done|]. exists x. split; [|done]. apply Hd; congruence.
  - intros (x & Hx & ?). exists x. split; [|done]. apply Hd; congruence.
  - intros (x & Hx & ?). exists x. split; [|done]. apply Hd; congruence.
  - cbn. by rewrite length_insert.
  - by destruct (Hw c0 first).
  - cbn. by rewrite length_insert.
Qed.

(** What the owner of a channel does to it. *)
Lemma others_own b b' rest c un rot p ch :
  others b rest (Some c) un rot p -> 0 < un -> b <= b' -> 2 < ch_num ch -> ch_queued ch <= b' ->
  others b' rest (Some c) un rot (pl_set_chan c ch p).
Proof.
  intros H Hu Hb Hn Hq. pose proof H as [Hnum ? Hun Hnd Hl Hr Hf ? ?].
  assert (Forall (fun ch => 2 < ch_num ch /\ ch_queued ch <= b') (pl_channels p)) as Hnum'.
  { eapply Forall_impl; [exact Hnum|]. cbn. intros x ?. lia. }
  split; try done.
  - by apply Forall_set_chan.
  - by rewrite num_channels_set_chan.
  - apply Forall_forall. intros cl Hin. pose proof (proj1 (Forall_forall _ _) Hr cl Hin) as Hok.
    apply client_ok_other; [|intros w f ->; by eapply no_waiter|done].
    intros Ho. cbn in Hnd. apply NoDup_cons in Hnd as [Hni _]. apply Hni, list_elem_of_omap. eauto.
  - intros d x Hx Hd. apply lookup_set_chan in Hx as [(-> & _ & _)|[_ Hx]]; [|eauto].
    exfalso. apply Hd. cbn. rewrite Hl. cbn. set_solver.
Qed.

Lemma others_lock b rest c un rot p :
  others b rest None un rot p -> c ∉ pl_locks p -> others b rest (Some c) un rot (lock_channel_for_push c p).
Proof.
  intros [? ? Hun Hnd Hl ? Hf ? Hb] Hc. unfold lock_channel_for_push, uvm_channel_is_locked_for_push.
  rewrite bool_decide_false by done. cbn [option_list app] in *. split; try done; cbn.
  - constructor; [|done]. intros Hin. apply Hc. rewrite Hl. by apply elem_of_list_to_set.
  - rewrite Hl. set_solver.
  - intros d x Hx Hd. apply (Hf d x); [done|set_solver].
  - by rewrite Hb.
Qed.

Lemma others_unlock b rest c un rot p ch :
  others b rest (Some c) un rot p -> pl_channels p !! c = Some ch -> owned [] 0 ch -> in_step ch ->
  others b rest None (un - 1) rot (unlock_channel_for_push c p).
Proof.
  intros [? ? Hun Hnd Hl ? Hf ? Hb] Hch Ho Hs. unfold unlock_channel_for_push, uvm_channel_is_locked_for_push.
  cbn [option_list app] in Hnd, Hl. apply NoDup_cons in Hnd as [Hni Hnd].
  assert (c ∈ pl_locks p) as Hin by (rewrite Hl; cbn; set_solver). rewrite bool_decide_true by done.
  split; try done; cbn.
  - lia.
  - change (num_channels _) with (num_channels p). change (pl_sem p + 1 + (un - 1) + total (units (num_channels p)) rest = num_channels p). lia.
  - rewrite Hl. cbn. set_solver.
  - intros d x Hx Hd. destruct (decide (d = c)) as [->|Hne].
    + rewrite Hch in Hx. by injection Hx as <-.
    + apply (Hf d x); [done|set_solver].
  - by rewrite Hb.
Qed.

Lemma others_add_sem b rest own un rot p d :
  others b rest own un rot p -> 0 <= pl_sem p + d -> others b rest own (un - d) rot (pl_add_sem d p).
Proof.
  intros [] ?. split; try done. cbn. change (num_channels _) with (num_channels p). lia.
Qed.

Lemma others_set_rotating b rest own un (r : bool) p :
  others b rest own un (if pl_rotating p then 1 else 0) p -> others b rest own un (if r then 1 else 0) (pl_set_rotating r p).
Proof.
  intros [? ? ? ? ? ? ? Hr ?]. split; try done. cbn. destruct (pl_rotating p), r; lia.
Qed.

Lemma others_fatal b rest own un rot st p :
  others b rest own un rot p -> others b rest own un rot (uvm_global_set_fatal_error st p).
Proof. by intros []. Qed.

(** A claim of an unlocked channel. *)
Lemma claim_and_lock_spec b rest un rot p c n :
  others b rest None un rot p -> 0 < un -> c ∉ pl_locks p -> n = 1 \/ n = 2 ->
  let '(ok, p') := claim_and_lock c n p in
  if ok then others b rest (Some c) un rot p' /\ client_ok (pl_channels p') (CReserved c n) /\
             num_channels p' = num_channels p
  else p' = p /\ forall ch, pl_channels p !! c = Some ch -> ch_num ch - 1 - pending_count ch < n.
Proof.
  intros H Hu Hc Hn. unfold claim_and_lock. destruct (pl_channels p !! c) as [ch|] eqn:Hch; [|by split].
  destruct (ot_free _ _ _ _ _ _ H c ch Hch Hc) as [[Hi Hcur] Hs].
  pose proof (Forall_lookup_1 _ _ _ _ (ot_num _ _ _ _ _ _ H) Hch) as [Hnum Hq].
  pose proof (try_claim_spec [] n ch Hi ltac:(lia)) as Hcl.
  destruct (try_claim_channel_locked n ch) as [[] ch'] eqn:Ht; destruct Hcl as (Hi' & Hok & ->).
  - split_and!; [| |by apply num_channels_set_chan].
    + assert (others b rest (Some c) un rot (lock_channel_for_push c p)) as Hl by by apply others_lock.
      change (others b rest (Some c) un rot (pl_set_chan c (ch_set_current (ch_current ch + n) ch) (lock_channel_for_push c p))).
      by eapply others_own.
    + cbn [client_ok]. split; [done|]. eexists. split; [by eapply lookup_set_chan_eq|].
      split; [|done]. split; [done|]. cbn. lia.
  - split.
    + unfold pl_set_chan, pl_set_channels. rewrite list_insert_id by done. by destruct p.
    + intros ? [= <-]. symmetry in Hok. apply Z.leb_gt in Hok. lia.
Qed.

Lemma test_claim_spec b rest un rot p c n :
  others b rest None un rot p -> 0 < un -> n = 1 \/ n = 2 ->
  let '(ok, p') := test_claim_and_lock_channel c n p in
  if ok then others b rest (Some c) un rot p' /\ client_ok (pl_channels p') (CReserved c n) /\
             num_channels p' = num_channels p
  else p' = p.
Proof.
  intros H Hu Hn. unfold test_claim_and_lock_channel, uvm_channel_is_locked_for_push.
  destruct (bool_decide_reflect (c ∈ pl_locks p)) as [|Hc]; [done|].
  pose proof (claim_and_lock_spec b rest un rot p c n H Hu Hc Hn) as Hcl.
  destruct (claim_and_lock c n p) as [[] p']; [done|]. by destruct Hcl.
Qed.

Lemma claim_first_spec b rest un rot p cs :
  others b rest None un rot p -> 0 < un -> Forall (fun c => c ∉ pl_locks p) cs ->
  let '(r, p') := claim_first cs p in
  match r with
  | Some c => c ∈ cs /\ others b rest (Some c) un rot p' /\ client_ok (pl_channels p') (CReserved c 1) /\
              num_channels p' = num_channels p
  | None => p' = p /\ forall c ch, c ∈ cs -> pl_channels p !! c = Some ch -> ch_num ch - 1 - pending_count ch < 1
  end.
Proof.
  intros H Hu. induction cs as [|c cs IH]; intros Hcs; cbn [claim_first].
  { split; [done|]. intros c ch Hin. by apply not_elem_of_nil in Hin. }
  apply Forall_cons in Hcs as [Hc Hcs].
  pose proof (claim_and_lock_spec b rest un rot p c 1 H Hu Hc ltac:(by left)) as Hcl.
  destruct (claim_and_lock c 1 p) as [[] p'].
  - split; [by left|done].
  - destruct Hcl as [-> Hfull]. specialize (IH Hcs). destruct (claim_first cs p) as [[d|] p'].
    + destruct IH as (? & ?). split; [by right|done].
    + destruct IH as [-> IH]. split; [done|]. intros d ch [->|Hin]%elem_of_cons; [apply Hfull|by apply IH].
Qed.

(** *** Every step keeps the invariant *)

Lemma pool_ok_chan b cls p c ch : pool_ok b cls p -> pl_channels p !! c = Some ch -> exists held, ch_inv held ch.
Proof.
  intros [Hc Ho] Hch. destruct (decide (c ∈ pl_locks p)) as [Hin|Hni].
  - rewrite (ot_locks _ _ _ _ _ _ Ho) in Hin. cbn in Hin. apply elem_of_list_to_set in Hin.
    apply list_elem_of_omap in Hin as (cl & Hcl & Hown).
    pose proof (proj1 (Forall_forall _ _) Hc cl Hcl) as Hok.
    destruct cl; cbn in Hown; try done; injection Hown as ->; cbn [client_ok] in Hok.
    + destruct Hok as (_ & x & Hx & [Hi _] & _). rewrite Hch in Hx. injection Hx as <-. eauto.
    + destruct Hok as (x & Hx & [Hi _] & _). rewrite Hch in Hx. injection Hx as <-. eauto.
    + destruct Hok as (x & Hx & [Hi _] & _). rewrite Hch in Hx. injection Hx as <-. eauto.
  - destruct (ot_free _ _ _ _ _ _ Ho c ch Hch Hni) as [[Hi _] _]. eauto.
Qed.

Lemma update_advances held max v ch : ch_inv held ch -> v <= ch_completed ch ->
  advances ch (snd (uvm_channel_update_progress_with_max max UVM_CHANNEL_UPDATE_MODE_COMPLETED v ch)).
Proof.
  intros Hi Hv. pose proof (update_progress_spec held max v ch Hi Hv) as H.
  destruct (uvm_channel_update_progress_with_max max _ v ch) as [n ch'] eqn:He.
  destruct H as (_ & (H1 & H2 & H3 & H4 & H5 & H6 & H7) & _ & Hp).
  split; cbn; try done; [|lia|].
  - intros held' Hi'. pose proof (update_progress_spec held' max v ch Hi' Hv) as H. rewrite He in H. apply H.
  - intros Hn. rewrite Hp, Hn. apply drop_nil.
Qed.

Lemma check_errors_advances held ecc v ch : ch_inv held ch -> v <= ch_completed ch ->
  advances ch (snd (uvm_channel_check_errors ecc v ch)).
Proof.
  intros Hi Hv. unfold uvm_channel_check_errors. destruct (is_ok _); [apply advances_refl|].
  unfold uvm_channel_get_first_pending_entry, channel_update_progress_all.
  pose proof (update_advances held (Z.to_nat (ch_num ch)) v ch Hi Hv) as Ha.
  destruct (uvm_channel_update_progress_with_max _ _ v ch) as [n ch']. cbn in Ha |- *. by destruct (n =? 0).
Qed.

(** Both, one after the other. *)
Lemma update_check_advances held ecc v ch : ch_inv held ch -> v <= ch_completed ch ->
  advances ch (snd (uvm_channel_check_errors ecc v (snd (uvm_channel_update_progress v ch)))).
Proof.
  intros Hi Hv. pose proof (update_progress_spec held 8 v ch Hi Hv) as H.
  pose proof (update_advances held 8 v ch Hi Hv) as Ha. unfold uvm_channel_update_progress in *.
  destruct (uvm_channel_update_progress_with_max 8 _ v ch) as [n ch']. cbn [snd] in *.
  destruct H as (Hi' & (_ & _ & _ & _ & Hc & _) & _). eapply advances_trans; [exact Ha|].
  apply (check_errors_advances held); [done|congruence].
Qed.

Lemma last_update_advances held (first : bool) v ch ch' : ch_inv held ch -> v <= ch_completed ch -> advances ch ch' ->
  advances ch (if first then ch' else snd (uvm_channel_update_progress v ch')).
Proof.
  intros Hi Hv Ha. destruct first; [done|]. eapply advances_trans; [exact Ha|].
  apply (update_advances held); [by apply (ad_inv _ _ Ha)|]. pose proof (ad_seen _ _ Ha). lia.
Qed.

Lemma update_twice_advances held v ch : ch_inv held ch -> v <= ch_completed ch ->
  advances ch (snd (uvm_channel_update_progress v (snd (uvm_channel_update_progress v ch)))).
Proof.
  intros Hi Hv. pose proof (update_progress_spec held 8 v ch Hi Hv) as H.
  pose proof (update_advances held 8 v ch Hi Hv) as Ha. unfold uvm_channel_update_progress in *.
  destruct (uvm_channel_update_progress_with_max 8 _ v ch) as [n ch']. cbn [snd] in *.
  destruct H as (Hi' & (_ & _ & _ & _ & Hc & _) & _). eapply advances_trans; [exact Ha|].
  apply (update_advances held); [done|congruence].
Qed.

(** The state of a thread that owns nothing and has the same units. *)
Lemma pool_ok_goto b cl cl' rest p : pool_ok b (cl :: rest) p ->
  owns cl' = owns cl -> units (num_channels p) cl' = units (num_channels p) cl -> rotates cl' = rotates cl ->
  client_ok (pl_channels p) cl' -> pool_ok b (cl' :: rest) p.
Proof. rewrite !pool_ok_cons. intros [_ H] -> -> ->. done. Qed.

Lemma reserved_step_ok b rest x p c n ch p' cl' :
  pool_ok b (CReserved c n :: rest) p -> pl_channels p !! c = Some ch -> b + 1 < 2 ^ 64 ->
  reserved_step x p c n ch = (p', cl') -> pool_ok (b + 1) (cl' :: rest) p'.
Proof.
  rewrite pool_ok_cons. intros [(Hn & ch0 & Hc0 & [Hi Hcur] & Hs) Ho] Hc Hb. rewrite Hc in Hc0. injection Hc0 as <-.
  pose proof (Forall_lookup_1 _ _ _ _ (ot_num _ _ _ _ _ _ Ho) Hc) as [Hnum Hq]. cbn [owns units rotates] in Ho.
  unfold reserved_step. destruct (co_ok x); cbn [negb].
  - destruct (Z.eqb_spec n 1) as [->|Hn1].
    + pose proof (push_info_spec [] ch Hi ltac:(cbn; lia)) as Hpi.
      destruct (channel_get_available_push_info_index ch) as [info ch']. intros [= <- <-].
      destruct Hpi as (Hi' & (H1 & H2 & H3 & H4 & H5 & H6 & H7) & _). rewrite pool_ok_cons. split.
      * exists ch'. split; [by eapply lookup_set_chan_eq|]. split; [split; [done|congruence]|]. unfold in_step. congruence.
      * rewrite num_channels_set_chan. cbn [owns units rotates]. eapply others_own; [done|lia|lia|congruence|lia].
    + destruct Hn as [ | -> ]; [done|].
      destruct (write_ctrl_spec [] (co_ctrl x) ch Hi ltac:(cbn; lia) ltac:(lia) ltac:(lia)) as (Hi' & H1 & H2 & H3 & H4 & H5 & H6 & H7).
      intros [= <- <-]. rewrite pool_ok_cons. split.
      * exists (write_ctrl_entry (co_ctrl x) ch). split; [by eapply lookup_set_chan_eq|].
        split; [split; [done|lia]|]. unfold in_step in Hs. split; [congruence|done].
      * rewrite num_channels_set_chan. cbn [owns units rotates]. eapply others_own; [done|lia|lia|congruence|lia].
  - intros [= <- <-]. destruct (release_spec [] n ch Hi ltac:(lia) ltac:(cbn; lia)) as [Hi' Hr].
    rewrite pool_ok_cons. split; [done|]. cbn [owns units rotates]. unfold uvm_channel_release.
    change (pl_set_chan c (release_entries n ch) (unlock_channel_for_push c p))
      with (unlock_channel_for_push c (pl_set_chan c (release_entries n ch) p)).
    replace 0 with (1 - 1) by lia. eapply others_unlock.
    + eapply (others_own b); [done|lia|lia|by rewrite Hr|]. rewrite Hr. cbn. lia.
    + by eapply lookup_set_chan_eq.
    + split; [done|]. rewrite Hr. cbn. lia.
    + rewrite Hr. exact Hs.
Qed.

Lemma CWait_next p c ch w : (w < length (pl_channels p))%nat -> c = w -> pending ch = [] ->
  client_ok (pl_channels p) (CWait w true) ->
  client_ok (pl_channels (pl_set_chan c ch p)) (CWait (S w) true).
Proof.
  intros Hw -> Hp [Hl H]. split; [cbn; rewrite length_insert; lia|]. intros j x Hj Hx.
  apply lookup_set_chan in Hx as [(-> & -> & _)|[Hne Hx]]; [done|]. apply (H j); [lia|done].
Qed.

Lemma wait_step_ok b rest x p c first ch p' cl' :
  pool_ok b (CWait c first :: rest) p -> pl_channels p !! c = Some ch -> co_seen x <= ch_completed ch ->
  wait_step x p c first ch = (p', cl') -> pool_ok b (cl' :: rest) p'.
Proof.
  intros Hp Hc Hv. destruct (pool_ok_chan _ _ _ _ _ Hp Hc) as [held Hi].
  pose proof (update_progress_spec held 8 (co_seen x) ch Hi Hv) as Hu. unfold wait_step.
  pose proof (update_advances held 8 (co_seen x) ch Hi Hv) as Ha1. fold (uvm_channel_update_progress (co_seen x) ch) in Ha1, Hu.
  pose proof (update_check_advances held (co_ecc x) (co_seen x) ch Hi Hv) as Ha2.
  pose proof (update_twice_advances held (co_seen x) ch Hi Hv) as Ha3.
  destruct (uvm_channel_update_progress (co_seen x) ch) as [n ch'].
  destruct Hu as (Hi' & (_ & _ & _ & _ & Hcc & _) & -> & _). cbn [snd] in *.
  assert (forall ch1 q, advances ch ch1 -> q = pl_set_chan c ch1 p \/ (exists st, q = uvm_global_set_fatal_error st (pl_set_chan c ch1 p)) ->
          pool_ok b (CRelease (num_channels q) :: rest) q) as Hfail.
  { intros ch1 q Ha Hq. pose proof (pool_ok_advances _ _ _ _ _ _ Hp Hc Ha) as Hp1.
    apply pool_ok_cons in Hp1 as [_ Ho1]. rewrite pool_ok_cons.
    destruct Hq as [->|[st ->]]; (split; [cbn; unfold num_channels; cbn; lia|]); [done|]. by apply others_fatal. }
  assert (forall ch1, advances ch ch1 -> pending_count ch' = 0 -> advances ch' ch1 ->
          pool_ok b (CWait (S c) true :: rest) (pl_set_chan c ch1 p)) as Hnext.
  { intros ch1 Ha Hz Ha'. pose proof (pool_ok_advances _ _ _ _ _ _ Hp Hc Ha) as Hp1.
    apply pool_ok_cons in Hp1 as [_ Ho1]. apply pool_ok_cons in Hp as [Hok _]. rewrite pool_ok_cons. split; [|done].
    apply CWait_next; [by eapply lookup_lt_Some|done| |done].
    apply (ad_idle _ _ Ha'), pending_nil; [apply Hi'|]. apply pending_count_zero; [apply Hi'|done]. }
  assert (forall ch1, advances ch ch1 -> pool_ok b (CWait c false :: rest) (pl_set_chan c ch1 p)) as Hstay.
  { intros ch1 Ha. eapply pool_ok_goto; [by eapply pool_ok_advances|done..|].
    eapply (client_ok_advances c ch ch1 p (CWait c first)); [done|done|]. by apply pool_ok_cons in Hp as [Hok _]. }
  destruct (first && negb (is_ok (pl_fatal p))) eqn:Hff.
  { destruct (uvm_channel_update_progress (co_seen x) ch') as [? ch2]. cbn [snd] in Ha3. intros [= <- <-]. eauto. }
  destruct (negb first && (pending_count ch' =? 0)) eqn:Hd.
  { apply andb_true_iff in Hd as [_ Hd%Z.eqb_eq]. intros [= <- <-]. apply Hnext; [done|done|apply advances_refl]. }
  destruct (first && negb (pending_count ch' =? 0)) eqn:Hst; [intros [= <- <-]; eauto|].
  pose proof (fun ch1 => last_update_advances held first (co_seen x) ch ch1 Hi Hv) as Hlast.
  destruct (negb (is_ok (pl_fatal p))); [intros [= <- <-]; eauto|].
  assert (advances ch' (snd (uvm_channel_check_errors (co_ecc x) (co_seen x) ch'))) as Ha4.
  { apply (check_errors_advances held); [done|congruence]. }
  destruct (uvm_channel_check_errors (co_ecc x) (co_seen x) ch') as [status ch2]. cbn [snd] in *.
  destruct (negb (is_ok status)); [intros [= <- <-]; eauto|]. destruct first; intros [= <- <-]; [|eauto].
  apply Hnext; [done| |done]. cbn in Hst. by apply negb_false_iff, Z.eqb_eq in Hst.
Qed.

Lemma pool_ok_mono b b' cls p : b <= b' -> pool_ok b cls p -> pool_ok b' cls p.
Proof.
  intros Hb [Hc [Hn ? ? ? ? ? ? ? ?]]. split; [done|]. split; try done.
  eapply Forall_impl; [exact Hn|]. cbn. intros. lia.
Qed.

Lemma idle_step_ok b rest x p p' cl' :
  pool_ok b (CIdle :: rest) p -> client_step x p CIdle = Some (p', cl') -> pool_ok b (cl' :: rest) p'.
Proof.
  rewrite pool_ok_cons. cbn [client_step owns units rotates]. intros [_ H]. destruct (co_rotate x).
  - destruct (pl_rotating p) eqn:Hr; [done|]. intros [= <- <-]. rewrite pool_ok_cons.
    split; [cbn; lia|]. apply (others_set_rotating _ _ _ _ true). by rewrite Hr.
  - destruct (Z.ltb_spec 0 (pl_sem p)); [|done]. intros [= <- <-]. rewrite pool_ok_cons. split; [done|].
    apply (others_add_sem _ _ _ 0 _ _ (-1)); [done|lia].
Qed.

(** A reservation attempt that a thread with a unit makes. *)
Lemma locate_step_ok b rest x p rq p' cl' :
  pool_ok b (CLocate rq :: rest) p -> client_step x p (CLocate rq) = Some (p', cl') -> pool_ok b (cl' :: rest) p'.
Proof.
  intros Hp. pose proof (proj1 (pool_ok_cons _ _ _ _) Hp) as [_ H]. cbn [client_step owns units rotates] in *.
  destruct rq as [|c ctrl].
  - pose proof (claim_first_spec b rest 1 0 p (clear_bits p) H ltac:(lia)) as Hcl.
    destruct (claim_first (clear_bits p) p) as [[c|] q]; intros [= <- <-].
    + destruct Hcl as (_ & Ho & Hok & Hn); [apply Forall_forall; intros d Hd; by apply list_elem_of_filter in Hd as [Hd _]|].
      rewrite pool_ok_cons. by split.
    + destruct Hcl as [-> _]; [apply Forall_forall; intros d Hd; by apply list_elem_of_filter in Hd as [Hd _]|].
      by eapply pool_ok_goto.
  - pose proof (test_claim_spec b rest 1 0 p c (rq_count (ROn c ctrl)) H ltac:(lia) ltac:(destruct ctrl; auto)) as Hcl.
    destruct (test_claim_and_lock_channel c _ p) as [[] q]; intros [= <- <-].
    + destruct Hcl as (Ho & Hok & Hn). rewrite pool_ok_cons. by split.
    + subst q. by eapply pool_ok_goto.
Qed.

Lemma test_step_ok b rest x p rq c p' cl' :
  pool_ok b (CTest rq c :: rest) p -> client_step x p (CTest rq c) = Some (p', cl') -> pool_ok b (cl' :: rest) p'.
Proof.
  intros Hp. pose proof (proj1 (pool_ok_cons _ _ _ _) Hp) as [_ H]. cbn [client_step owns units rotates] in *.
  pose proof (test_claim_spec b rest 1 0 p c (rq_count rq) H ltac:(lia) ltac:(destruct rq as [|? []]; auto)) as Hcl.
  destruct (test_claim_and_lock_channel c _ p) as [[] q]; intros [= <- <-].
  - destruct Hcl as (Ho & Hok & Hn). rewrite pool_ok_cons. by split.
  - subst q. by eapply pool_ok_goto.
Qed.

Lemma check_step_ok b rest x p rq c p' cl' :
  pool_ok b (CCheck rq c :: rest) p -> choice_ok x p (CCheck rq c) ->
  client_step x p (CCheck rq c) = Some (p', cl') -> pool_ok b (cl' :: rest) p'.
Proof.
  intros Hp Hv. cbn in Hv |- *. destruct (pl_channels p !! c) as [ch|] eqn:Hc; [|done]. cbn. specialize (Hv _ eq_refl).
  destruct (pool_ok_chan _ _ _ _ _ Hp Hc) as [held Hi].
  pose proof (check_errors_advances held (co_ecc x) (co_seen x) ch Hi Hv) as Ha.
  destruct (uvm_channel_check_errors (co_ecc x) (co_seen x) ch) as [status ch']. cbn in Ha.
  pose proof (pool_ok_advances _ _ _ _ _ _ Hp Hc Ha) as Hp'. destruct (is_ok status); intros [= <- <-].
  - by eapply pool_ok_goto.
  - apply pool_ok_cons in Hp' as [_ Ho]. rewrite pool_ok_cons. split; [done|]. cbn [owns units rotates] in *.
    apply (others_add_sem _ _ _ 1 _ _ 1); [by apply others_fatal|]. pose proof (ot_sem _ _ _ _ _ _ Ho). cbn in *. lia.
Qed.

Lemma ctrl_step_ok b rest x p c o n p' cl' :
  pool_ok b (CCtrl c o n :: rest) p -> launches x ->
  client_step x p (CCtrl c o n) = Some (p', cl') -> pool_ok b (cl' :: rest) p'.
Proof.
  rewrite pool_ok_cons. intros [(ch & Hc & [Hi Hcur] & Hg & Hput) H] [Hb He]. cbn [client_step]. rewrite Hc. cbn.
  unfold submit_ctrl_entry, submit_ctrl_gpfifo_indirect. rewrite (proj2 (Z.eqb_eq _ _)), Hb, He by done.
  change (is_ok NV_OK) with true. cbn [negb mbind option_bind]. rewrite ch_assert_true. intros [= <- <-].
  pose proof (Forall_lookup_1 _ _ _ _ (ot_num _ _ _ _ _ _ H) Hc) as [Hnum Hq].
  rewrite pool_ok_cons. split.
  - cbn [client_ok]. split; [by left|]. exists (ch_set_gpu_put n ch). split; [by eapply lookup_set_chan_eq|].
    split; [split; [by apply ch_inv_gpu_put|done]|]. unfold in_step. cbn. congruence.
  - cbn [owns units rotates] in *. eapply others_own; [done|lia|lia|done|done].
Qed.

Lemma push_step_ok b rest x p c i p' cl' :
  pool_ok b (CPush c i :: rest) p -> b + 1 < 2 ^ 64 -> pu_size (co_pb x) <= UVM_MAX_PUSH_SIZE ->
  client_step x p (CPush c i) = Some (p', cl') -> pool_ok (b + 1) (cl' :: rest) p'.
Proof.
  rewrite pool_ok_cons. intros [(ch & Hc & [Hi Hcur] & Hs) H] Hb Hsz. cbn [client_step]. rewrite Hc. cbn [mbind option_bind].
  pose proof (Forall_lookup_1 _ _ _ _ (ot_num _ _ _ _ _ _ H) Hc) as [Hnum Hq].
  destruct (end_push_spec [] UVM_MAX_PUSH_SIZE i (co_pb x) ch Hi Hs ltac:(lia) Hsz) as (Hi' & H1 & H2 & H3 & H4 & _).
  intros [= <- <-]. rewrite pool_ok_cons. split; [done|]. cbn [owns units rotates] in *. replace 0 with (1 - 1) by lia.
  eapply others_unlock; [|by eapply lookup_set_chan_eq|split; [done|lia]|done].
  eapply others_own; [done|lia|lia|congruence|lia].
Qed.

Lemma client_step_ok b rest x p cl p' cl' :
  pool_ok b (cl :: rest) p -> b + 1 < 2 ^ 64 -> choice_ok x p cl ->
  client_step x p cl = Some (p', cl') -> pool_ok (b + 1) (cl' :: rest) p'.
Proof.
  intros Hp Hb Hv Hs. pose proof Hp as Hp0. rewrite pool_ok_cons in Hp0. destruct Hp0 as [Hok H].
  assert (forall q, pool_ok b (cl' :: rest) q -> pool_ok (b + 1) (cl' :: rest) q) as Hmono
    by (intros q; apply pool_ok_mono; lia).
  destruct cl.
  - apply Hmono. by eapply idle_step_ok.
  - apply Hmono. by eapply locate_step_ok.
  - cbn in Hs, Hv. destruct (pl_channels p !! c) as [ch|] eqn:Hc; [|done]. injection Hs as <- <-.
    destruct (pool_ok_chan _ _ _ _ _ Hp Hc) as [held Hi].
    pose proof (pool_ok_advances _ _ _ _ _ _ Hp Hc (update_advances held 8 _ ch Hi (Hv _ eq_refl))) as Hp'.
    apply Hmono. by eapply pool_ok_goto.
  - apply Hmono. by eapply test_step_ok.
  - apply Hmono. by eapply check_step_ok.
  - cbn in Hs. destruct (pl_channels p !! c) as [ch|] eqn:Hc; [|done]. injection Hs as Hs.
    by eapply reserved_step_ok.
  - apply Hmono. by eapply ctrl_step_ok.
  - by eapply push_step_ok.
  - cbn in Hs, Hok, H. destruct (Z.eqb_spec k (num_channels p)) as [->|Hk].
    + injection Hs as <- <-. apply Hmono, pool_ok_cons. split; [|done]. split; [lia|]. intros; lia.
    + destruct (Z.ltb_spec 0 (pl_sem p)); [|done]. injection Hs as <- <-. apply Hmono, pool_ok_cons.
      split; [cbn; unfold num_channels in Hk; lia|]. cbn [owns units rotates].
      replace (k + 1) with (k - -1) by lia. apply others_add_sem; [done|lia].
  - cbn [client_step] in Hs. apply Hmono. destruct (bool_decide_reflect (c = length (pl_channels p))) as [->|Hne].
    + injection Hs as <- <-. apply pool_ok_cons. split; [cbn; unfold num_channels; lia|done].
    + destruct (pl_channels p !! c) as [ch|] eqn:Hc; [|done]. injection Hs as Hs. eapply wait_step_ok; [done|done|by apply Hv|done].
  - cbn in Hs, Hok, H. pose proof (ot_sem _ _ _ _ _ _ H). destruct (Z.eqb_spec k 0) as [->|Hk].
    + injection Hs as <- <-. apply Hmono, pool_ok_cons. split; [done|].
      apply (others_set_rotating _ _ _ _ false). assert (pl_rotating p = true) as ->; [|done].
      pose proof (ot_rot _ _ _ _ _ _ H) as Hr. destruct (pl_rotating p); [done|].
      assert (0 <= total rotates rest); [|lia]. apply total_nonneg, Forall_true. by intros [].
    + injection Hs as <- <-. apply Hmono, pool_ok_cons. split; [cbn; unfold num_channels in *; cbn; lia|].
      cbn [owns units rotates]. apply others_add_sem; [done|lia].
Qed.

Lemma pool_step_ok b cls p cls' p' :
  pool_ok b cls p -> b + 1 < 2 ^ 64 -> pool_step (cls, p) (cls', p') -> pool_ok (b + 1) cls' p'.
Proof.
  intros Hp Hb Hs. remember (cls, p) as s eqn:Es. remember (cls', p') as s' eqn:Es'.
  destruct Hs as [i x cls0 p0 cl cl' q Hi Hv Hs|c v cls0 p0 ch Hc Hv|c v cls0 p0 ch Hc]; simplify_eq.
  - eapply pool_ok_perm; [symmetry; apply insert_Permutation; by eapply lookup_lt_Some|].
    eapply client_step_ok; [|done|exact Hv|exact Hs]. eapply pool_ok_perm; [by apply delete_Permutation|done].
  - apply (pool_ok_mono b); [lia|]. eapply pool_ok_advances; [done|done|]. split; try done; [|cbn; lia].
    intros held Hi. by apply ch_inv_completed.
  - apply (pool_ok_mono b); [lia|]. eapply pool_ok_advances; [done|done|]. split; try done.
    intros held Hi. by apply ch_inv_notifier.
Qed.

Lemma pool_start_ok n num k : 2 < num < 2 ^ 31 -> pool_ok 0 (fst (pool_start n num k)) (snd (pool_start n num k)).
Proof.
  intros Hn. cbn. assert (forall f, f CIdle = 0 -> total f (replicate k CIdle) = 0) as Ht.
  { intros f Hf. unfold total. induction k; cbn; lia. }
  assert (omap owns (replicate k CIdle) = []) as Ho by (clear; induction k as [|k IH]; [done|exact IH]).
  assert (forall chs, Forall (client_ok chs) (replicate k CIdle)) as Hc by (intros chs; by apply Forall_replicate).
  split; [apply Hc|]. split; cbn; rewrite ?Ho; try done; try lia.
  - apply Forall_replicate. cbn. lia.
  - unfold num_channels; cbn. rewrite length_replicate, Ht by done. lia.
  - constructor.
  - intros c ch Hch _. apply lookup_replicate in Hch as [-> _]. split; [split; [|done]|done]. apply ch_inv_create. lia.
  - rewrite Ht by done. done.
Qed.

Lemma reach_ok n num nthreads k s : 2 < num < 2 ^ 31 -> Z.of_nat k < 2 ^ 63 ->
  reach (pool_start n num nthreads) k s -> pool_ok (Z.of_nat k) (fst s) (snd s).
Proof.
  intros Hn. induction 2 as [|k s s' Hr IH Hs]; [by apply pool_start_ok|].
  destruct s as [cls p], s' as [cls' p']. cbn [fst snd] in *. replace (Z.of_nat (S k)) with (Z.of_nat k + 1) by lia.
  eapply pool_step_ok; [apply IH; lia|lia|exact Hs].
Qed.

(** ** What the pool guarantees *)

(** The push infos of the pushes that threads have begun on a channel. *)
Definition begun_by (c : nat) (cl : client) : list Z :=
  match cl with CPush d i => if decide (d = c) then [i] else [] | _ => [] end.
Definition begun (c : nat) (cls : list client) : list Z := mjoin (begun_by c <$> cls).

Lemma begun_cons c cl cls : begun c (cl :: cls) = begun_by c cl ++ begun c cls.
Proof. done. Qed.

Lemma begun_perm c cls cls' : cls ≡ₚ cls' -> begun c cls ≡ₚ begun c cls'.
Proof.
  induction 1; rewrite ?begun_cons; [done| |apply Permutation_app_swap_app|by etrans]. by f_equiv.
Qed.

Lemma begun_none c cls : c ∉ omap owns cls -> begun c cls = [].
Proof.
  intros Hni. induction cls as [|cl cls IH]; [done|]. rewrite begun_cons, IH.
  - rewrite app_nil_r. destruct cl; try done. cbn. destruct (decide (c0 = c)) as [->|]; [|done].
    exfalso. apply Hni, list_elem_of_omap. eexists. split; [by left|done].
  - intros (x & Hx & Ho)%list_elem_of_omap. apply Hni, list_elem_of_omap. exists x. split; [by right|done].
Qed.

(** Ring and claims of every channel, by its owner. *)
Lemma pool_ok_ring b cls p c ch : pool_ok b cls p -> pl_channels p !! c = Some ch ->
  ch_inv (begun c cls) ch /\ (c ∉ pl_locks p -> ch_current ch = 0) /\
  (c ∈ pl_locks p -> exists cl, cl ∈ cls /\ owns cl = Some c).
Proof.
  intros Hp Hch. pose proof Hp as [Hc Ho]. pose proof (ot_locks _ _ _ _ _ _ Ho) as Hl. cbn in Hl.
  destruct (decide (c ∈ pl_locks p)) as [Hin|Hni].
  - split_and!; [|done|]; rewrite Hl, elem_of_list_to_set in Hin; apply list_elem_of_omap in Hin as (cl & Hcl & Hown); [|eauto].
    apply list_elem_of_split in Hcl as (l1 & l2 & ->).
    assert (l1 ++ cl :: l2 ≡ₚ cl :: l1 ++ l2) as Hperm by by rewrite Permutation_middle.
    apply (ch_inv_perm (begun c (cl :: l1 ++ l2))); [by apply begun_perm|].
    pose proof (pool_ok_perm _ _ _ _ Hperm Hp) as [Hok Hot]%pool_ok_cons. rewrite Hown in Hot.
    pose proof (ot_nodup _ _ _ _ _ _ Hot) as [Hni _]%NoDup_cons.
    rewrite begun_cons, begun_none, app_nil_r by done.
    destruct cl; cbn in Hown; try done; injection Hown as ->; cbn [client_ok] in Hok.
    + destruct Hok as (_ & x & Hx & [Hi _] & _). rewrite Hch in Hx. by injection Hx as <-.
    + destruct Hok as (x & Hx & [Hi _] & _). rewrite Hch in Hx. by injection Hx as <-.
    + destruct Hok as (x & Hx & [Hi _] & _). rewrite Hch in Hx. injection Hx as <-. cbn. by rewrite decide_True.
  - destruct (ot_free _ _ _ _ _ _ Ho c ch Hch Hni) as [[Hi Hcur] _]. split_and!; [|done|done].
    rewrite begun_none; [done|]. intros Hin. apply Hni. rewrite Hl. by apply elem_of_list_to_set.
Qed.

(** Threads that own a channel hold a unit each. *)
Lemma owners_units n cls : Forall (fun cl => 0 <= units n cl) cls ->
  Z.of_nat (length (omap owns cls)) <= total (units n) cls.
Proof.
  unfold total. induction 1 as [|cl cls Hu _ IH]; [done|]. cbn.
  destruct cl; cbn in *; lia.
Qed.

Lemma pool_ok_units b cls p : pool_ok b cls p ->
  0 <= pl_sem p /\ pl_sem p + total (units (num_channels p)) cls = num_channels p /\
  Forall (fun cl => 0 <= units (num_channels p) cl) cls.
Proof.
  intros [Hc Ho]. pose proof (units_nonneg _ _ _ _ _ _ Ho). pose proof (ot_units _ _ _ _ _ _ Ho).
  pose proof (ot_sem _ _ _ _ _ _ Ho). split_and!; [done|lia|done].
Qed.

(** A thread that has a unit and owns no channel leaves one unlocked. *)
Lemma unlocked_channel b cls p cl : pool_ok b cls p -> cl ∈ cls -> owns cl = None -> 0 < units (num_channels p) cl ->
  exists c, (c < length (pl_channels p))%nat /\ c ∉ pl_locks p.
Proof.
  intros Hp Hcl Hown Hu. apply list_elem_of_split in Hcl as (l1 & l2 & ->).
  assert (l1 ++ cl :: l2 ≡ₚ cl :: l1 ++ l2) as Hperm by by rewrite Permutation_middle.
  pose proof (pool_ok_perm _ _ _ _ Hperm Hp) as [_ Ho]%pool_ok_cons. rewrite Hown in Ho.
  pose proof (owners_units _ _ (units_nonneg _ _ _ _ _ _ Ho)) as Hle. destruct Ho as [_ Hsem Hun _ Hl _ _ _ _].
  cbn [option_list app] in Hl. destruct (decide (Exists (fun c => c ∉ pl_locks p) (seq 0 (length (pl_channels p))))) as [He|Hne].
  - apply Exists_exists in He as (c & Hc & Hni). apply elem_of_seq in Hc. exists c. split; [lia|done].
  - exfalso. assert (length (pl_channels p) <= length (omap owns (l1 ++ l2)))%nat as Hlen.
    { rewrite <- (length_seq (length (pl_channels p)) 0). apply submseteq_length, NoDup_submseteq; [apply NoDup_seq|].
      intros c Hc. destruct (decide (c ∈ pl_locks p)) as [Hin|Hni].
      - rewrite Hl in Hin. by apply elem_of_list_to_set in Hin.
      - exfalso. apply Hne, Exists_exists. eauto. }
    unfold num_channels in *. lia.
Qed.

Lemma chain_sorted es : forall lo hi, chain lo es hi -> Forall (fun e => lo < ge_tracking e) es.
Proof.
  induction es as [|e es IH]; cbn; intros lo hi; [constructor|]. intros [Ht Hc]. constructor; [lia|].
  eapply Forall_impl; [by eapply IH|]. cbn. intros x. destruct (ge_type e); lia.
Qed.

(** [done_count] takes entries that are done, and stops at its limit or when
    nothing more is done. *)
Lemma done_count_spec max v es : forall lo hi, chain lo es hi ->
  Forall (fun e => ge_tracking e <= v) (take (done_count max v es) es) /\
  (done_count max v es = max \/ Forall (fun e => v < ge_tracking e) (drop (done_count max v es) es)).
Proof.
  revert es; induction max as [|max IH]; intros es lo hi Hc; [split; [constructor|by left]|].
  destruct es as [|e es]; cbn; [split; [constructor|right; constructor]|].
  pose proof (chain_sorted _ _ _ Hc) as Hs. destruct Hc as [Ht Hc]. destruct (Z.ltb_spec v (ge_tracking e)).
  - split; [constructor|]. right. cbn. eapply Forall_impl; [exact Hs|]. cbn. lia.
  - destruct (IH es _ _ Hc) as [H1 H2]. cbn. split; [by constructor|]. destruct H2 as [->|]; [by left|by right].
Qed.

Lemma done_count_all max v es : Forall (fun e => ge_tracking e <= v) es -> done_count max v es = Nat.min max (length es).
Proof.
  intros H. revert max. induction H as [|e es He _ IH]; intros [|max]; cbn; try done.
  rewrite (proj2 (Z.ltb_ge _ _)) by done. by rewrite IH.
Qed.

Section Reachable.
Context (n : nat) (num : Z) (nthreads k : nat) (cls : list client) (p : channel_pool).
Hypothesis (Hnum : 2 < num < 2 ^ 31) (Hk : Z.of_nat k < 2 ^ 63).
Hypothesis Hreach : reach (pool_start n num nthreads) k (cls, p).

Lemma reach_pool_ok : pool_ok (Z.of_nat k) cls p.
Proof. exact (reach_ok n num nthreads k (cls, p) Hnum Hk Hreach). Qed.

(** C35: Along every interleaving of clients that reserve, push, submit and
    release on a pool of CE channels with the pool's own completions and key
    rotation, as long as launches of control entries succeed and pushes fit the
    pushbuffer: no assertion of the code fails, the semaphore count is never
    negative, every lock has its owner, the available GPFIFO entries are those
    neither claimed nor pending, and the push infos are partitioned between the
    free list and the pushes in flight. In any such state a launch that fails
    breaks the release assertion of write_ctrl_gpfifo and changes nothing else. *)
Theorem channel_pool_sound :
  pl_bug p = false /\ 0 <= pl_sem p /\
  NoDup (omap owns cls) /\ (forall c, c ∈ pl_locks p <-> c ∈ omap owns cls) /\
  forall c ch, pl_channels p !! c = Some ch ->
    ch_bug ch = false /\
    channel_get_available_gpfifo_entries ch = ch_num ch - 1 - ch_current ch - Z.of_nat (length (pending ch)) /\
    0 <= channel_get_available_gpfifo_entries ch /\
    ch_infos ch ++ begun c cls ++ infos_of (pending ch) ≡ₚ seqZ 0 (ch_num ch) /\
    forall x old_put new_put p' cl',
      CCtrl c old_put new_put ∈ cls -> client_step x p (CCtrl c old_put new_put) = Some (p', cl') -> ~ launches x ->
      p' = pl_set_chan c (ch_assert false ch) p /\ cl' = CReserved c 1.
Proof.
  pose proof reach_pool_ok as Hp. pose proof Hp as [Hc Ho]. pose proof Ho as [_ Hs _ Hnd Hl _ _ _ Hb].
  cbn [option_list app] in *. split_and!; try done.
  { intros c. rewrite Hl. apply elem_of_list_to_set. }
  intros c ch Hch. destruct (pool_ok_ring _ _ _ _ _ Hp Hch) as [Hi _].
  destruct (ch_inv_available _ _ Hi) as [Ha _]. pose proof (ci_room _ _ Hi).
  rewrite (length_pending ch (ci_wf _ _ Hi)), Ha. split_and!; [apply Hi|done|lia|apply Hi|].
  intros x o m p' cl' _. cbn [client_step]. rewrite Hch. cbn [mbind option_bind].
  unfold submit_ctrl_entry, submit_ctrl_gpfifo_indirect, launches. destruct (ch_gpu_put ch =? o); [|done]. cbn [negb].
  destruct (is_ok (co_begin x)) eqn:Hbe; [destruct (is_ok (co_end x)) eqn:Hen|]; cbn [negb];
    rewrite ?Hbe, ?Hen; intros [= <- <-] Hf; [|done..].
  apply bool_decide_eq_true_1 in Hbe, Hen. by destruct Hf.
Qed.

(** C36: When a thread that rotates the key of a pool has waited for its last
    channel, the pool is idle: no channel is locked, every unit of the pool's
    semaphore is its own, and no channel has an entry claimed or pending. *)
Theorem rotation_finds_pool_idle first :
  CWait (length (pl_channels p)) first ∈ cls ->
  pl_locks p = ∅ /\ pl_sem p = 0 /\
  forall c ch, pl_channels p !! c = Some ch ->
    pending ch = [] /\ ch_completed ch = ch_queued ch /\ ch_current ch = 0.
Proof.
  pose proof reach_pool_ok as Hp. intros (l1 & l2 & ->)%list_elem_of_split.
  assert (l1 ++ CWait (length (pl_channels p)) first :: l2 ≡ₚ CWait (length (pl_channels p)) first :: l1 ++ l2) as Hperm
    by by rewrite Permutation_middle.
  pose proof (pool_ok_perm _ _ _ _ Hperm Hp) as [[_ Hidle] Ho]%pool_ok_cons. cbn [owns units rotates] in Ho.
  pose proof (owners_units _ _ (units_nonneg _ _ _ _ _ _ Ho)) as Hle.
  pose proof (total_nonneg _ _ (units_nonneg _ _ _ _ _ _ Ho)) as Hnn.
  destruct Ho as [_ Hsem Hun _ Hl _ Hfree _ _]. cbn [option_list app] in Hl.
  assert (pl_locks p = ∅) as Hno.
  { rewrite Hl. destruct (omap owns (l1 ++ l2)); [done|]. cbn [length] in Hle. lia. }
  split_and!; [done|lia|]. intros c ch Hch. pose proof (Hidle c ch ltac:(by eapply lookup_lt_Some) Hch) as Hpe.
  destruct (Hfree c ch Hch) as [[Hi Hcur] _]; [by rewrite Hno; apply not_elem_of_empty|].
  split_and!; [done| |done]. apply (idle_completed _ _ Hi), pending_count_zero; [apply Hi|].
  apply pending_nil; [apply Hi|done].
Qed.

(** Updating the progress of a channel completes the GPFIFO entries in the
    order they were submitted: it removes the longest prefix, of at most 8
    entries, whose tracking values the semaphore has reached, leaves the rest of
    the queue as it was, and returns how many remain. *)
Theorem update_progress_fifo c ch v :
  pl_channels p !! c = Some ch -> v <= ch_completed ch ->
  let '(n_left, ch') := uvm_channel_update_progress v ch in
  n_left = Z.of_nat (length (pending ch')) /\
  (exists gone, pending ch = gone ++ pending ch' /\ Forall (fun e => ge_tracking e <= v) gone /\
     (length gone = 8%nat \/ Forall (fun e => v < ge_tracking e) (pending ch'))) /\
  (n_left = 0 -> ch_completed ch' = ch_queued ch').
Proof.
  intros Hch Hv. destruct (pool_ok_ring _ _ _ _ _ reach_pool_ok Hch) as [Hi _].
  pose proof (update_progress_spec _ 8 v ch Hi Hv) as H. unfold uvm_channel_update_progress.
  destruct (uvm_channel_update_progress_with_max 8 _ v ch) as [m ch']. destruct H as (Hi' & _ & -> & Hp).
  split; [by rewrite length_pending by apply Hi'|]. split; [|by apply (idle_completed _ _ Hi')].
  destruct (ci_track _ _ Hi) as (lo & _ & Hc). destruct (done_count_spec 8 v _ _ _ Hc) as [H1 H2].
  exists (take (done_count 8 v (pending ch)) (pending ch)). rewrite Hp. split_and!; [by rewrite take_drop|done|].
  destruct H2 as [H2|H2]; [|by right]. left. rewrite length_take, H2.
  assert (done_count 8 v (pending ch) <= length (pending ch))%nat; [|lia].
  generalize (pending ch). generalize 8%nat. clear. intros m es. revert m.
  induction es as [|e es IH]; intros [|m]; cbn; try lia. destruct (v <? ge_tracking e); [lia|]. specialize (IH m). lia.
Qed.

(** A client that spins for a channel always finds some channel unlocked, and
    if the one it looks at is unlocked and the GPU has completed its pending
    entries, the client's next two steps update the progress of that channel and
    reserve it. *)
Theorem reservation_succeeds rq c x x' :
  CSpin rq c ∈ cls ->
  (exists d, (d < length (pl_channels p))%nat /\ d ∉ pl_locks p) /\
  forall ch, pl_channels p !! c = Some ch -> c ∉ pl_locks p -> co_seen x = ch_completed ch ->
    (forall e, e ∈ pending ch -> ge_tracking e <= ch_completed ch) ->
    exists p1 p2, client_step x p (CSpin rq c) = Some (p1, CTest rq c) /\
      client_step x' p1 (CTest rq c) = Some (p2, CReserved c (rq_count rq)) /\ c ∈ pl_locks p2.
Proof.
  pose proof reach_pool_ok as Hp. intros Hin.
  split; [by eapply unlocked_channel|]. intros ch Hch Hni Hseen Hdone.
  destruct (pool_ok_ring _ _ _ _ _ Hp Hch) as (Hi & Hcur & _). specialize (Hcur Hni).
  pose proof Hp as [_ Ho]. pose proof (Forall_lookup_1 _ _ _ _ (ot_num _ _ _ _ _ _ Ho) Hch) as [Hn3 _].
  pose proof (update_progress_spec _ 8 (co_seen x) ch Hi ltac:(lia)) as Hu.
  cbn [client_step]. rewrite Hch. cbn [mbind option_bind]. unfold uvm_channel_update_progress.
  destruct (uvm_channel_update_progress_with_max 8 _ (co_seen x) ch) as [m ch']. cbn [snd].
  destruct Hu as (Hi' & (Hn & _ & Hc' & _) & _ & Hpe).
  exists (pl_set_chan c ch' p).
  assert (exists p2, client_step x' (pl_set_chan c ch' p) (CTest rq c) = Some (p2, CReserved c (rq_count rq)) /\
    c ∈ pl_locks p2) as (p2 & H1 & H2); [|by exists p2].
  cbn [client_step]. unfold test_claim_and_lock_channel, uvm_channel_is_locked_for_push.
  change (pl_locks (pl_set_chan c ch' p)) with (pl_locks p). rewrite bool_decide_false by done.
  unfold claim_and_lock. rewrite (lookup_set_chan_eq c ch' ch p Hch).
  pose proof (try_claim_spec _ (rq_count rq) ch' Hi' ltac:(destruct rq as [|? []]; cbn; lia)) as Hcl.
  pose proof (length_pending ch' (ci_wf _ _ Hi')) as Hlp. pose proof (length_pending ch (ci_wf _ _ Hi)) as Hlp0.
  pose proof (ci_room _ _ Hi).
  rewrite Hpe, done_count_all, length_drop in Hlp by (apply Forall_forall; intros e He; rewrite Hseen; by apply Hdone).
  destruct (try_claim_channel_locked (rq_count rq) ch') as [ok ch'']. destruct Hcl as (_ & Hok & _).
  rewrite (proj2 (Z.leb_le _ _)) in Hok by (destruct rq as [|? []]; cbn; lia). subst ok.
  eexists. split; [reflexivity|]. unfold lock_channel_for_push. cbn. set_solver.
Qed.
End Reachable.
End Pool.
