(* ===== verification/FaultBuffer.v ===== *)
(** The replayable fault buffer ([uvm_gpu_replayable_faults.c]): fetching the
    faults between the cached GET and PUT pointers into the batch context,
    coalescing duplicates on the way, and flushing the buffer.

    [UVM_FAULT_TYPE_FATAL], the access type codes, the layout of a buffer entry
    and the GPU's side of the ring are external: codes are a class whose law is
    the order the code checks at build time, and what the GPU shows during one
    call is a record of answers per ring index. *)
From stdpp Require Import functions.
From S2P Require Import Prelude Kernel VaBlock.

(** [uvm_fault_type_t] and [uvm_fault_access_type_t]: the codes the code names.
    The order is the one [cmp_access_type] checks with BUILD_BUG_ON. *)
Class FaultCodes := {
  UVM_FAULT_TYPE_FATAL : Z;
  UVM_FAULT_ACCESS_TYPE_PREFETCH : Z;
  UVM_FAULT_ACCESS_TYPE_READ : Z;
  UVM_FAULT_ACCESS_TYPE_WRITE : Z;
  UVM_FAULT_ACCESS_TYPE_ATOMIC_WEAK : Z;
  UVM_FAULT_ACCESS_TYPE_ATOMIC_STRONG : Z;
  UVM_FAULT_ACCESS_TYPE_COUNT : Z;
  access_types_ordered :
    0 <= UVM_FAULT_ACCESS_TYPE_PREFETCH < UVM_FAULT_ACCESS_TYPE_READ /\
    UVM_FAULT_ACCESS_TYPE_READ < UVM_FAULT_ACCESS_TYPE_WRITE < UVM_FAULT_ACCESS_TYPE_ATOMIC_WEAK /\
    UVM_FAULT_ACCESS_TYPE_ATOMIC_WEAK < UVM_FAULT_ACCESS_TYPE_ATOMIC_STRONG < UVM_FAULT_ACCESS_TYPE_COUNT;
}.

Inductive uvm_fault_cancel_va_mode :=
| UVM_FAULT_CANCEL_VA_MODE_ALL
| UVM_FAULT_CANCEL_VA_MODE_WRITE_AND_ATOMIC.

#[export] Instance cancel_va_mode_eq_dec : EqDecision uvm_fault_cancel_va_mode.
Proof. solve_decision. Defined.

(** What the GPU writes in a buffer entry. *)
Record fault_packet := mk_fault_packet {
  fp_instance_ptr  : Z;       (* as uvm_gpu_phys_addr_cmp orders them *)
  fp_ve_id         : Z;
  fp_utlb_id       : Z;
  fp_fault_address : Z;
  fp_fault_type    : Z;
  fp_access_type   : Z;
}.

(** [uvm_fault_buffer_entry_t]: the packet and the driver's own fields. *)
Record fault_entry := mk_fault_entry {
  fe_packet         : fault_packet;
  fe_is_fatal       : bool;
  fe_va_space       : option Z;
  fe_filtered       : bool;
  fe_num_instances  : Z;
  fe_access_mask    : gset Z;      (* access_type_mask *)
  fe_cancel_va_mode : uvm_fault_cancel_va_mode;
  fe_throttled      : bool;
  fe_prefetch       : bool;        (* is_invalid_prefetch *)
}.

Definition fe_address (e : fault_entry) : Z := fp_fault_address (fe_packet e).
Definition fe_access (e : fault_entry) : Z := fp_access_type (fe_packet e).
Definition fe_utlb (e : fault_entry) : Z := fp_utlb_id (fe_packet e).

Definition fe_set_merge (filtered : bool) (num : Z) (mask : gset Z) (e : fault_entry) : fault_entry :=
  mk_fault_entry (fe_packet e) (fe_is_fatal e) (fe_va_space e) filtered num mask
    (fe_cancel_va_mode e) (fe_throttled e) (fe_prefetch e).
Definition fe_set_va_space (vs : option Z) (e : fault_entry) : fault_entry :=
  mk_fault_entry (fe_packet e) (fe_is_fatal e) vs (fe_filtered e) (fe_num_instances e)
    (fe_access_mask e) (fe_cancel_va_mode e) (fe_throttled e) (fe_prefetch e).
Definition fe_set_flags (throttled prefetch : bool) (e : fault_entry) : fault_entry :=
  mk_fault_entry (fe_packet e) (fe_is_fatal e) (fe_va_space e) (fe_filtered e) (fe_num_instances e)
    (fe_access_mask e) (fe_cancel_va_mode e) throttled prefetch.
Definition fe_set_fatal (mode : uvm_fault_cancel_va_mode) (e : fault_entry) : fault_entry :=
  mk_fault_entry (fe_packet e) true (fe_va_space e) (fe_filtered e) (fe_num_instances e)
    (fe_access_mask e) mode (fe_throttled e) (fe_prefetch e).

(** [uvm_fault_utlb_info_t]; pointers into the fault cache are indices. *)
Record utlb_info := mk_utlb_info {
  ut_pending : Z;                  (* num_pending_faults *)
  ut_fatal   : bool;               (* has_fatal_faults *)
  ut_last    : option nat;         (* last_fault *)
}.

(** [uvm_fault_service_batch_context_t]: the first [num_cached_faults] entries
    of the fault cache, the ordered view, and the counters of the batch.  The
    list of merged instances, kept for event reporting, is left out. *)
Record batch := mk_batch {
  bc_cache         : list fault_entry;
  bc_ordered       : list nat;             (* ordered_fault_cache *)
  bc_num_coalesced : Z;
  bc_last_fault    : option nat;
  bc_single        : bool;                 (* is_single_instance_ptr *)
  bc_utlbs         : Z -> utlb_info;
  bc_max_utlb      : Z;
  bc_fatal_space   : option Z;
  bc_has_throttled : bool;
  bc_num_prefetch  : Z;                    (* num_invalid_prefetch_faults *)
  bc_num_duplicate : Z;
  bc_num_replays   : Z;
  bc_bug           : bool;                 (* an assertion failed *)
}.

Definition bc_set_cache (cache : list fault_entry) (b : batch) : batch :=
  mk_batch cache (bc_ordered b) (bc_num_coalesced b) (bc_last_fault b) (bc_single b) (bc_utlbs b)
    (bc_max_utlb b) (bc_fatal_space b) (bc_has_throttled b) (bc_num_prefetch b) (bc_num_duplicate b)
    (bc_num_replays b) (bc_bug b).
Definition bc_set_ordered (l : list nat) (b : batch) : batch :=
  mk_batch (bc_cache b) l (bc_num_coalesced b) (bc_last_fault b) (bc_single b) (bc_utlbs b)
    (bc_max_utlb b) (bc_fatal_space b) (bc_has_throttled b) (bc_num_prefetch b) (bc_num_duplicate b)
    (bc_num_replays b) (bc_bug b).
Definition bc_set_fetch (n : Z) (last : option nat) (single : bool) (b : batch) : batch :=
  mk_batch (bc_cache b) (bc_ordered b) n last single (bc_utlbs b)
    (bc_max_utlb b) (bc_fatal_space b) (bc_has_throttled b) (bc_num_prefetch b) (bc_num_duplicate b)
    (bc_num_replays b) (bc_bug b).
Definition bc_set_utlbs (u : Z -> utlb_info) (m : Z) (b : batch) : batch :=
  mk_batch (bc_cache b) (bc_ordered b) (bc_num_coalesced b) (bc_last_fault b) (bc_single b) u
    m (bc_fatal_space b) (bc_has_throttled b) (bc_num_prefetch b) (bc_num_duplicate b)
    (bc_num_replays b) (bc_bug b).
Definition bc_set_marks (fatal : option Z) (throttled : bool) (prefetch duplicate : Z) (b : batch) : batch :=
  mk_batch (bc_cache b) (bc_ordered b) (bc_num_coalesced b) (bc_last_fault b) (bc_single b) (bc_utlbs b)
    (bc_max_utlb b) fatal throttled prefetch duplicate (bc_num_replays b) (bc_bug b).
Definition bc_set_replays (n : Z) (b : batch) : batch :=
  mk_batch (bc_cache b) (bc_ordered b) (bc_num_coalesced b) (bc_last_fault b) (bc_single b) (bc_utlbs b)
    (bc_max_utlb b) (bc_fatal_space b) (bc_has_throttled b) (bc_num_prefetch b) (bc_num_duplicate b)
    n (bc_bug b).
(** [UVM_ASSERT(ok)]. *)
Definition bc_assert (ok : bool) (b : batch) : batch :=
  mk_batch (bc_cache b) (bc_ordered b) (bc_num_coalesced b) (bc_last_fault b) (bc_single b) (bc_utlbs b)
    (bc_max_utlb b) (bc_fatal_space b) (bc_has_throttled b) (bc_num_prefetch b) (bc_num_duplicate b)
    (bc_num_replays b) (bc_bug b || negb ok).

(** [uvm_replayable_fault_buffer_info_t]. *)
Record fault_buffer := mk_fault_buffer {
  fb_get         : Z;              (* cached_get *)
  fb_put         : Z;              (* cached_put *)
  fb_max_faults  : Z;
  fb_max_batch   : Z;              (* fault_buffer_info.max_batch_size *)
  fb_gpu_get     : Z;              (* GET as written on the GPU *)
  fb_valid       : gset Z;         (* entries whose valid bit is set *)
  fb_decrypt_iv  : Z;              (* decryption IV of the fault buffer *)
}.

Definition fb_set_get (get : Z) (fb : fault_buffer) : fault_buffer :=
  mk_fault_buffer get (fb_put fb) (fb_max_faults fb) (fb_max_batch fb) get (fb_valid fb) (fb_decrypt_iv fb).
Definition fb_set_put (put : Z) (fb : fault_buffer) : fault_buffer :=
  mk_fault_buffer (fb_get fb) put (fb_max_faults fb) (fb_max_batch fb) (fb_gpu_get fb) (fb_valid fb)
    (fb_decrypt_iv fb).
Definition fb_set_valid (valid : gset Z) (iv : Z) (fb : fault_buffer) : fault_buffer :=
  mk_fault_buffer (fb_get fb) (fb_put fb) (fb_max_faults fb) (fb_max_batch fb) (fb_gpu_get fb) valid iv.

(** What the GPU and the rest of the driver answer during one call.  An entry
    before PUT becomes valid after finitely many reads of its valid bit. *)
Record fault_hw := mk_fault_hw {
  hw_put    : Z;                               (* read_put *)
  hw_polls  : Z -> nat;                        (* reads of the valid bit that still find it clear *)
  hw_status : Z -> nat -> nv_status;           (* the status polled after each of them *)
  hw_parse  : Z -> nv_status * fault_entry;    (* parse_replayable_entry: the packet it decodes; the
                                                  other fields are whatever the cache entry held *)
}.

(** ** Fetching *)

Definition UVM_CMP_DEFAULT (a b : Z) : Z := if a <? b then -1 else if b <? a then 1 else 0.

Definition cmp_fault_instance_ptr (a b : fault_entry) : Z :=
  let result := UVM_CMP_DEFAULT (fp_instance_ptr (fe_packet a)) (fp_instance_ptr (fe_packet b)) in
  if negb (result =? 0) then result
  else UVM_CMP_DEFAULT (fp_ve_id (fe_packet a)) (fp_ve_id (fe_packet b)).

Inductive fault_fetch_mode := FAULT_FETCH_MODE_BATCH_READY | FAULT_FETCH_MODE_ALL.

#[export] Instance fault_fetch_mode_eq_dec : EqDecision fault_fetch_mode.
Proof. solve_decision. Defined.

Definition write_get (get : Z) (fb : fault_buffer) : fault_buffer :=
  if fb_get fb =? get then fb else fb_set_get get fb.

(** The new values of the current and the last entry, and whether the
    assertions hold. *)
Definition fetch_fault_buffer_merge_entry (cur last : fault_entry) : fault_entry * fault_entry * bool :=
  let num := u32 (fe_num_instances last + 1) in
  let mask := fe_access_mask last ∪ {[fe_access cur]} in
  let ok := 0 <? fe_num_instances last in
  if fe_access last <? fe_access cur
  then (fe_set_merge (fe_filtered cur) num mask cur, fe_set_merge true num mask last,
        ok && (fe_utlb cur =? fe_utlb last))
  else (fe_set_merge true (fe_num_instances cur) (fe_access_mask cur) cur,
        fe_set_merge (fe_filtered last) num mask last, ok).

(** Merging the new entry into entry [j] of the cache. *)
Definition merge_into (j : nat) (last cur : fault_entry) (b : batch) : batch :=
  let '(cur, last, ok) := fetch_fault_buffer_merge_entry cur last in
  bc_assert ok (bc_set_cache (<[j := last]> (bc_cache b) ++ [cur]) b).

(** Can [cur] be merged into the last fault of its uTLB? *)
Definition is_last_tlb_fault (cur : fault_entry) (b : batch) : option (nat * fault_entry) :=
  (let tlb := bc_utlbs b (fe_utlb cur) in
   if 0 <? ut_pending tlb then
     j ← ut_last tlb; last ← bc_cache b !! j;
     if (cmp_fault_instance_ptr cur last =? 0) && (fe_address cur =? fe_address last)
     then Some (j, last) else None
   else None)%stdpp.

(** ... or into the last fault of the batch? *)
Definition is_last_fault (cur : fault_entry) (is_same_instance_ptr : bool) (b : batch)
    : option (nat * fault_entry) :=
  (j ← bc_last_fault b; last ← bc_cache b !! j;
   if is_same_instance_ptr && (fe_address cur =? fe_address last) && (fe_access cur <=? fe_access last)
   then Some (j, last) else None)%stdpp.

Definition fetch_fault_buffer_try_merge_entry (cur : fault_entry) (is_same_instance_ptr : bool)
    (b : batch) : option batch :=
  let i := length (bc_cache b) in
  match is_last_tlb_fault cur b with
  | Some (j, last) =>
      let b' := merge_into j last cur b in
      Some (if fe_access last <? fe_access cur
            then let tlb := bc_utlbs b (fe_utlb cur) in
                 bc_set_utlbs (<[fe_utlb cur := mk_utlb_info (ut_pending tlb) (ut_fatal tlb) (Some i)]>
                                 (bc_utlbs b)) (bc_max_utlb b) b'
            else b')
  | None =>
      match is_last_fault cur is_same_instance_ptr b with
      | Some (j, last) =>
          let b' := merge_into j last cur b in
          Some (if fe_access last <? fe_access cur
                then bc_set_fetch (bc_num_coalesced b) (Some i) (bc_single b) b' else b')
      | None => None
      end
  end.

Definition UVM_PAGE_ALIGN_DOWN (a : Z) : Z := a / PAGE_SIZE * PAGE_SIZE.

(** The fields set on every entry that was parsed. *)
Definition init_entry `{FaultCodes} (e : fault_entry) : fault_entry :=
  let p := fe_packet e in
  mk_fault_entry
    (mk_fault_packet (fp_instance_ptr p) (fp_ve_id p) (fp_utlb_id p)
       (UVM_PAGE_ALIGN_DOWN (fp_fault_address p)) (fp_fault_type p) (fp_access_type p))
    (UVM_FAULT_TYPE_FATAL <=? fp_fault_type p) None false (fe_num_instances e) (fe_access_mask e)
    UVM_FAULT_CANCEL_VA_MODE_ALL (fe_throttled e) (fe_prefetch e).

(** A new representative. *)
Definition append_entry (cur : fault_entry) (is_same_instance_ptr : bool) (b : batch) : batch :=
  let i := length (bc_cache b) in
  let tlb := bc_utlbs b (fe_utlb cur) in
  let b' := bc_set_cache (bc_cache b ++ [fe_set_merge (fe_filtered cur) 1 {[fe_access cur]} cur]) b in
  let b' := bc_set_utlbs (<[fe_utlb cur := mk_utlb_info (u32 (ut_pending tlb + 1)) (ut_fatal tlb) (Some i)]>
                            (bc_utlbs b)) (bc_max_utlb b) b' in
  bc_set_fetch (u32 (bc_num_coalesced b + 1)) (Some i) (bc_single b && is_same_instance_ptr) b'.

(** One iteration, from the entry just parsed to [next_fault]. *)
Definition fetch_one `{FaultCodes} (may_filter : bool) (e : fault_entry) (b : batch) : batch :=
  let cur := init_entry e in
  let b := if bc_max_utlb b <? fe_utlb cur then bc_set_utlbs (bc_utlbs b) (fe_utlb cur) b else b in
  match bc_cache b with
  | [] => append_entry cur true b
  | _ =>
      let last := bc_last_fault b ≫= (fun j => bc_cache b !! j) in
      let b := bc_assert (bool_decide (is_Some last)) b in
      let same := match last with Some l => cmp_fault_instance_ptr cur l =? 0 | None => false end in
      let merged := if may_filter && negb (fe_is_fatal cur)
                    then fetch_fault_buffer_try_merge_entry cur same b else None in
      match merged with Some b' => b' | None => append_entry cur same b end
  end.

(** The spin on the valid bit: [None] when it is seen set, [Some st] when the
    fetch is left with status [st].  [polls] is when the hardware sets it: the code
    relies on every entry before PUT becoming valid. *)
Fixpoint wait_valid (leave : bool) (polls : nat) (status : nat -> nv_status) : option nv_status :=
  match polls with
  | O => None
  | S polls' =>
      if leave then Some NV_OK
      else if negb (is_ok (status O)) then Some (status O)
      else wait_valid leave polls' (fun n => status (S n))
  end.

Definition next_get (fb : fault_buffer) (get : Z) : Z :=
  let get := u32 (get + 1) in if get =? fb_max_faults fb then 0 else get.

(** The loop; [None] when the fuel is not enough. *)
Fixpoint fetch_loop `{FaultCodes} (fuel : nat) (hw : fault_hw) (fb : fault_buffer) (mode : fault_fetch_mode)
    (may_filter : bool) (get : Z) (b : batch) : option (nv_status * Z * batch) :=
  if negb (get =? fb_put fb) &&
     (bool_decide (mode = FAULT_FETCH_MODE_ALL) || (Z.of_nat (length (bc_cache b)) <? fb_max_batch fb))
  then
    match fuel with
    | O => None
    | S fuel' =>
        match wait_valid (bool_decide (mode = FAULT_FETCH_MODE_BATCH_READY) && (0 <? Z.of_nat (length (bc_cache b))))
                (hw_polls hw get) (hw_status hw get) with
        | Some st => Some (st, get, b)
        | None =>
            let '(st, e) := hw_parse hw get in
            if negb (is_ok st) then Some (st, get, b)
            else fetch_loop fuel' hw fb mode may_filter (next_get fb get) (fetch_one may_filter e b)
        end
    end
  else Some (NV_OK, get, b).

Definition clear_utlbs (max_utlb_id : Z) (u : Z -> utlb_info) : Z -> utlb_info :=
  fold_left (fun u id => <[id := mk_utlb_info 0 false (ut_last (u id))]> u) (seqZ 0 (max_utlb_id + 1)) u.

(** [coalesce] is [uvm_perf_fault_coalesce], [cancel_va] is
    [fault_cancel_va_supported]. *)
Definition fetch_fault_buffer_entries `{FaultCodes} (hw : fault_hw) (coalesce cancel_va : bool)
    (mode : fault_fetch_mode) (fb : fault_buffer) (b : batch) : option (nv_status * fault_buffer * batch) :=
  let in_pascal_cancel_path := negb cancel_va && bool_decide (mode = FAULT_FETCH_MODE_ALL) in
  let may_filter := coalesce && negb in_pascal_cancel_path in
  let fb := if fb_get fb =? fb_put fb then fb_set_put (hw_put hw) fb else fb in
  let b := bc_set_fetch 0 None true b in
  let b := bc_set_utlbs (clear_utlbs (bc_max_utlb b) (bc_utlbs b)) 0 (bc_set_cache [] b) in
  (fun '(st, get, b) => (st, write_get get fb, b)) <$>
    fetch_loop (Z.to_nat (fb_max_faults fb)) hw fb mode may_filter (fb_get fb) b.

(** ** Flushing and replaying *)

Inductive uvm_gpu_buffer_flush_mode :=
| UVM_GPU_BUFFER_FLUSH_MODE_CACHED_PUT
| UVM_GPU_BUFFER_FLUSH_MODE_UPDATE_PUT
| UVM_GPU_BUFFER_FLUSH_MODE_WAIT_UPDATE_PUT.

#[export] Instance flush_mode_eq_dec : EqDecision uvm_gpu_buffer_flush_mode.
Proof. solve_decision. Defined.

Inductive uvm_fault_replay_type := UVM_FAULT_REPLAY_TYPE_START | UVM_FAULT_REPLAY_TYPE_START_ACK_ALL.

#[export] Instance fault_replay_type_eq_dec : EqDecision uvm_fault_replay_type.
Proof. solve_decision. Defined.

(** The statuses of the external calls a flush makes. *)
Record flush_calls := mk_flush_calls {
  fc_wait    : nv_status;       (* uvm_tracker_wait on the replay tracker *)
  fc_rm      : nv_status;       (* nvUvmInterfaceFlushReplayableFaultBuffer *)
  fc_begin   : nv_status;       (* uvm_push_begin_acquire *)
  fc_track   : nv_status;       (* uvm_tracker_add_push_safe *)
}.

Definition hw_fault_buffer_flush_locked (cc : bool) (rm : nv_status) : nv_status :=
  if cc then rm else NV_OK.

(** The IV advances by one RM call, whose status the code asserts
    ([uvm_conf_computing_fault_increment_decrypt_iv]): it "should not fail". *)
Definition fault_buffer_skip_replayable_entry (cc : bool) (index : Z) (fb : fault_buffer) : fault_buffer :=
  fb_set_valid (fb_valid fb ∖ {[index]}) (if cc then fb_decrypt_iv fb + 1 else fb_decrypt_iv fb) fb.

(** The batch is optional: [uvm_gpu_fault_buffer_flush] passes none. *)
Definition push_replay_on_gpu (calls : flush_calls) (type : uvm_fault_replay_type) (b : option batch)
    : nv_status * option batch :=
  if negb (is_ok (fc_begin calls)) then (fc_begin calls, b)
  else
    let b := match b with
             | Some b => Some (if bool_decide (type = UVM_FAULT_REPLAY_TYPE_START_ACK_ALL) then b
                               else bc_set_replays (u32 (bc_num_replays b + 1)) b)
             | None => None
             end in
    (fc_track calls, b).

Fixpoint flush_loop (fuel : nat) (cc : bool) (hw : fault_hw) (get : Z) (fb : fault_buffer)
    : option (nv_status * Z * fault_buffer) :=
  if get =? fb_put fb then Some (NV_OK, get, fb)
  else
    match fuel with
    | O => None
    | S fuel' =>
        match wait_valid false (hw_polls hw get) (hw_status hw get) with
        | Some st => Some (st, get, fb)
        | None => flush_loop fuel' cc hw (next_get fb get) (fault_buffer_skip_replayable_entry cc get fb)
        end
    end.

Definition fault_buffer_flush_locked (cc : bool) (hw : fault_hw) (calls : flush_calls)
    (flush_mode : uvm_gpu_buffer_flush_mode) (fault_replay : uvm_fault_replay_type)
    (fb : fault_buffer) (b : option batch) : option (nv_status * fault_buffer * option batch) :=
  if bool_decide (flush_mode = UVM_GPU_BUFFER_FLUSH_MODE_WAIT_UPDATE_PUT) && negb (is_ok (fc_wait calls))
  then Some (fc_wait calls, fb, b)
  else
    let update := negb (bool_decide (flush_mode = UVM_GPU_BUFFER_FLUSH_MODE_CACHED_PUT)) in
    let status := if update then hw_fault_buffer_flush_locked cc (fc_rm calls) else NV_OK in
    if negb (is_ok status) then Some (status, fb, b)
    else
      let fb := if update then fb_set_put (hw_put hw) fb else fb in
      match flush_loop (Z.to_nat (fb_max_faults fb)) cc hw (fb_get fb) fb with
      | None => None
      | Some (status, get, fb) =>
          if negb (is_ok status) then Some (status, write_get get fb, b)
          else
            let '(status, b) := push_replay_on_gpu calls fault_replay b in
            Some (status, write_get get fb, b)
      end.

(** ** The ring *)

(** Positions are in range; the GPU's GET is the cached one. *)
Record fb_wf (fb : fault_buffer) : Prop := {
  fw_max   : 0 < fb_max_faults fb < 2 ^ 32;
  fw_get   : 0 <= fb_get fb < fb_max_faults fb;
  fw_put   : 0 <= fb_put fb < fb_max_faults fb;
  fw_gpu   : fb_gpu_get fb = fb_get fb;
}.

Record hw_wf (fb : fault_buffer) (hw : fault_hw) : Prop := {
  hwf_put  : 0 <= hw_put hw < fb_max_faults fb;
  hwf_utlb : forall i, 0 <= fe_utlb (snd (hw_parse hw i));
}.

(** The number of entries from [get] to PUT. *)
Definition distance (fb : fault_buffer) (get : Z) : Z := (fb_put fb - get) mod fb_max_faults fb.

(** The ring index [n] entries after [get]. *)
Definition ring_at (fb : fault_buffer) (get n : Z) : Z := (get + n) mod fb_max_faults fb.

Section Ring.
Context (fb : fault_buffer) (Hm : 0 < fb_max_faults fb < 2 ^ 32) (Hput : 0 <= fb_put fb < fb_max_faults fb).

Lemma next_get_ring get : 0 <= get < fb_max_faults fb -> next_get fb get = ring_at fb get 1.
Proof.
  intros Hg. unfold next_get, ring_at. rewrite u32_small by lia. destruct (_ =? _) eqn:Heq; btest.
  - rewrite Heq. by rewrite Z_mod_same_full.
  - by rewrite Z.mod_small by lia.
Qed.

Lemma next_get_range get : 0 <= get < fb_max_faults fb -> 0 <= next_get fb get < fb_max_faults fb.
Proof. intros Hg. rewrite next_get_ring by done. apply Z.mod_pos_bound. lia. Qed.

Lemma ring_next get n : 0 <= get < fb_max_faults fb -> ring_at fb (next_get fb get) n = ring_at fb get (n + 1).
Proof.
  intros Hg. rewrite next_get_ring by done. unfold ring_at. rewrite Z.add_mod_idemp_l by lia. f_equal. lia.
Qed.

Lemma distance_range get : 0 <= distance fb get < fb_max_faults fb.
Proof. apply Z.mod_pos_bound. lia. Qed.

Lemma distance_0 get : 0 <= get < fb_max_faults fb -> distance fb get = 0 -> get = fb_put fb.
Proof.
  intros Hg Hd. unfold distance in Hd. apply Z.mod_divide in Hd as [k Hk]; [|lia]. assert (k = 0) by nia. lia.
Qed.

Lemma distance_next get :
  0 <= get < fb_max_faults fb -> get <> fb_put fb -> distance fb (next_get fb get) = distance fb get - 1.
Proof.
  intros Hg Hne. rewrite next_get_ring by done. unfold ring_at, distance. rewrite Zminus_mod_idemp_r.
  replace (fb_put fb - (get + 1)) with ((fb_put fb - get) - 1) by lia.
  pose proof (distance_range get) as Hr. unfold distance in Hr.
  assert ((fb_put fb - get) mod fb_max_faults fb <> 0) as Hnz
    by (intros H0; apply Hne; by apply (distance_0 get)).
  rewrite <- (Z.mod_small ((fb_put fb - get) mod fb_max_faults fb - 1) (fb_max_faults fb)) by lia.
  by rewrite Zminus_mod_idemp_l.
Qed.

Lemma ring_at_distance get : 0 <= get < fb_max_faults fb -> ring_at fb get (distance fb get) = fb_put fb.
Proof.
  intros Hg. unfold ring_at, distance. rewrite Zplus_mod_idemp_r.
  replace (get + (fb_put fb - get)) with (fb_put fb) by lia. by apply Z.mod_small.
Qed.

Lemma ring_at_0 get : 0 <= get < fb_max_faults fb -> ring_at fb get 0 = get.
Proof. intros. unfold ring_at. rewrite Z.add_0_r. by apply Z.mod_small. Qed.
End Ring.

Lemma wait_valid_status leave polls status st :
  wait_valid leave polls status = Some st -> (0 < polls)%nat /\ (st = NV_OK -> leave = true).
Proof.
  revert status. induction polls as [|n IH]; intros status; cbn; [done|].
  destruct leave; [intros; split; [lia|done]|].
  destruct (is_ok (status 0%nat)) eqn:Hok; cbn.
  - intros H. apply IH in H as [_ H]. split; [lia|done].
  - intros [= <-]. apply is_ok_false in Hok. split; [lia|done].
Qed.

(** ** What a fetched batch satisfies *)

Definition same_instance (e r : fault_entry) : Prop :=
  fp_instance_ptr (fe_packet e) = fp_instance_ptr (fe_packet r) /\ fp_ve_id (fe_packet e) = fp_ve_id (fe_packet r).

Definition unfiltered (e : fault_entry) : bool := negb (fe_filtered e).

Lemma UVM_CMP_DEFAULT_0 a b : UVM_CMP_DEFAULT a b = 0 <-> a = b.
Proof. unfold UVM_CMP_DEFAULT. cases; btest. Qed.

Lemma cmp_fault_instance_ptr_0 a b : cmp_fault_instance_ptr a b = 0 <-> same_instance a b.
Proof.
  unfold cmp_fault_instance_ptr, same_instance. destruct (_ =? 0) eqn:H; cbn; btest.
  - rewrite UVM_CMP_DEFAULT_0 in *. split; [by split|]. by intros [_ ?].
  - rewrite UVM_CMP_DEFAULT_0 in *. split; [done|]. by intros [? _].
Qed.

#[export] Instance same_instance_equiv : Equivalence same_instance.
Proof. unfold same_instance. split; [done|by intros ?? [-> ->]|by intros ??? [-> ->] [-> ->]]. Qed.

(** [r] answers for [e]: same page of the same instance, and no weaker access. *)
Definition covers (r e : fault_entry) : Prop :=
  same_instance e r /\ fe_address e = fe_address r /\ fe_access e <= fe_access r.

Lemma covers_refl e : covers e e.
Proof. by repeat split. Qed.

Lemma covers_trans a b c : covers a b -> covers b c -> covers a c.
Proof. intros (H1 & H2 & H3) (K1 & K2 & K3). split; [by transitivity b|]. split; [congruence|lia]. Qed.

(** An entry that is, or was, the representative of its page. *)
Record head_ok (n : nat) (e : fault_entry) : Prop := {
  ho_num  : 1 <= fe_num_instances e <= Z.of_nat n;
  ho_mask : fe_access e ∈ fe_access_mask e \/ fe_filtered e = true;
  ho_max  : fe_filtered e = false -> forall t, t ∈ fe_access_mask e -> t <= fe_access e;
}.

(** The invariant of the fetch loop, for the batch cached so far. *)
Record fetch_inv (b : batch) : Prop := {
  fi_rep     : forall e, e ∈ bc_cache b -> exists r, r ∈ bc_cache b /\ unfiltered r = true /\ covers r e;
  fi_head    : forall e, e ∈ bc_cache b -> unfiltered e = true -> head_ok (length (bc_cache b)) e;
  fi_count   : bc_num_coalesced b = countb unfiltered (bc_cache b);
  fi_pending : forall u, ut_pending (bc_utlbs b u) =
                         countb (fun e => unfiltered e && (fe_utlb e =? u)) (bc_cache b);
  fi_tlb     : forall u, 0 < ut_pending (bc_utlbs b u) ->
                 exists j r, ut_last (bc_utlbs b u) = Some j /\ bc_cache b !! j = Some r /\
                             unfiltered r = true /\ fe_utlb r = u;
  fi_last    : bc_cache b = [] \/
                 exists j r, bc_last_fault b = Some j /\ bc_cache b !! j = Some r /\
                             head_ok (length (bc_cache b)) r;
  fi_single  : bc_single b = true -> forall e e', e ∈ bc_cache b -> e' ∈ bc_cache b -> same_instance e e';
  fi_utlb    : 0 <= bc_max_utlb b /\ forall e, e ∈ bc_cache b -> 0 <= fe_utlb e <= bc_max_utlb b;
  fi_bug     : bc_bug b = false;
}.

(** Two entries that agree on what the hardware reported. *)
Definition same_fault (e e' : fault_entry) : Prop := fe_packet e = fe_packet e'.

Lemma merge_entry_spec cur last n :
  head_ok n last -> Z.of_nat n < 2 ^ 32 - 1 -> fe_filtered cur = false ->
  (fe_access last < fe_access cur -> fe_utlb cur = fe_utlb last) ->
  let '(cur', last', ok) := fetch_fault_buffer_merge_entry cur last in
  ok = true /\ fe_packet cur' = fe_packet cur /\ fe_packet last' = fe_packet last /\
  head_ok (S n) last' /\
  (if fe_access last <? fe_access cur
   then fe_filtered cur' = false /\ fe_filtered last' = true /\ (fe_filtered last = false -> head_ok (S n) cur')
   else fe_filtered cur' = true /\ fe_filtered last' = fe_filtered last).
Proof.
  intros [Hn Hk Hx] Hlt Hf Hu. unfold fetch_fault_buffer_merge_entry. destruct (_ <? _) eqn:Hc; btest; cbn.
  - rewrite (proj2 (Z.ltb_lt 0 (fe_num_instances last))), (proj2 (Z.eqb_eq _ _) (Hu Hc)) by lia. repeat split; cbn; try done.
    all: try (rewrite ?u32_small by lia; lia). all: try by right.
    all: try (left; set_solver).
    intros _ t [Ht| ->%elem_of_singleton]%elem_of_union; [|done].
    transitivity (fe_access last); [by apply Hx|]. change (fe_access last <= fe_access cur). lia.
  - rewrite (proj2 (Z.ltb_lt 0 (fe_num_instances last))) by lia. repeat split; cbn; try done.
    all: try (rewrite ?u32_small by lia; lia).
    { destruct Hk; [left; set_solver|by right]. }
    intros Hfl t [Ht| ->%elem_of_singleton]%elem_of_union; [by apply Hx|]. done.
Qed.

Lemma head_ok_mono n m e : head_ok n e -> (n <= m)%nat -> head_ok m e.
Proof. intros [] ?. split; [lia|done..]. Qed.

Lemma covers_packet r e r' e' :
  fe_packet r' = fe_packet r -> fe_packet e' = fe_packet e -> covers r e -> covers r' e'.
Proof. unfold covers, same_instance, fe_address, fe_access. by intros -> ->. Qed.

(** What the hardware reported of an entry, and what parsing made of it. *)
Definition fe_core (e : fault_entry) : fault_packet * bool * option Z :=
  (fe_packet e, fe_is_fatal e, fe_va_space e).

Lemma fe_core_packet e e' : fe_core e = fe_core e' -> fe_packet e = fe_packet e'.
Proof. by intros [= ? _ _]. Qed.

(** Merging [cur] into the entry [last], entry [j] of the cache. *)
Section Merge.
Context (b : batch) (Hi : fetch_inv b) (Hlen : Z.of_nat (length (bc_cache b)) < 2 ^ 32 - 1).
Context (cur : fault_entry) (Hcf : fe_filtered cur = false) (Hcu : 0 <= fe_utlb cur <= bc_max_utlb b).
Context (j : nat) (last : fault_entry) (Hj : bc_cache b !! j = Some last).
Context (Hh : head_ok (length (bc_cache b)) last).
Context (Hs : same_instance cur last) (Ha : fe_address cur = fe_address last).
Context (Hup : fe_access last < fe_access cur ->
               unfiltered last = true /\ fe_utlb cur = fe_utlb last).

Let upgrade : bool := fe_access last <? fe_access cur.
Let tlb : utlb_info := bc_utlbs b (fe_utlb cur).
Let utlbs' : Z -> utlb_info :=
  <[fe_utlb cur := mk_utlb_info (ut_pending tlb) (ut_fatal tlb) (Some (length (bc_cache b)))]> (bc_utlbs b).

Definition merged : batch :=
  let b' := merge_into j last cur b in
  if upgrade then bc_set_utlbs utlbs' (bc_max_utlb b) b' else b'.

(** The batch after a merge, and what is known of its two changed entries. *)
Record merge_result (m : batch) (cur' last' : fault_entry) : Prop := {
  mr_cache : bc_cache m = <[j := last']> (bc_cache b) ++ [cur'];
  mr_count : bc_num_coalesced m = bc_num_coalesced b;
  mr_last  : bc_last_fault m = bc_last_fault b;
  mr_single : bc_single m = bc_single b;
  mr_max   : bc_max_utlb m = bc_max_utlb b;
  mr_bug   : bc_bug m = false;
  mr_cur   : fe_core cur' = fe_core cur;
  mr_lastc : fe_core last' = fe_core last;
  mr_head  : head_ok (S (length (bc_cache b))) last';
  mr_case  :
    if upgrade
    then unfiltered last = true /\ fe_utlb cur = fe_utlb last /\ unfiltered cur' = true /\
         unfiltered last' = false /\ head_ok (S (length (bc_cache b))) cur' /\ bc_utlbs m = utlbs'
    else unfiltered cur' = false /\ unfiltered last' = unfiltered last /\ bc_utlbs m = bc_utlbs b;
}.

Lemma merged_result : exists cur' last', merge_result merged cur' last'.
Proof using Hi Hlen Hcf Hh Hup.
  pose proof (merge_entry_spec cur last _ Hh Hlen Hcf (fun H => proj2 (Hup H))) as Hm.
  unfold merged, merge_into, fetch_fault_buffer_merge_entry in *.
  assert (Hbug : bc_bug b = false) by apply Hi.
  destruct upgrade eqn:Hc; unfold upgrade in Hc; rewrite Hc in Hm |- *; btest;
    destruct Hm as (Hok & _ & _ & Hl & Hr); rewrite Hok; eexists _, _; (split; [reflexivity|..]); try done.
  all: try (cbn; by rewrite Hbug). all: unfold upgrade; rewrite ?(proj2 (Z.ltb_lt _ _) Hc), ?(proj2 (Z.ltb_ge _ _) Hc).
  - destruct (Hup Hc) as [Hu Ht]. destruct Hr as (H1 & H2 & H3). unfold unfiltered in *.
    apply negb_true_iff in Hu. cbn. rewrite Hcf in H3 |- *. rewrite Hu. split_and!; try done. by apply H3.
  - done.
Qed.

Context (m : batch) (cur' last' : fault_entry) (Hm : merge_result m cur' last').
Let rest : list fault_entry := delete j (bc_cache b).

Lemma merge_perm : bc_cache b ≡ₚ last :: rest.
Proof using Hj. by apply delete_Permutation. Qed.

Lemma merged_perm : bc_cache m ≡ₚ last' :: cur' :: rest.
Proof using Hj Hm.
  rewrite (mr_cache _ _ _ Hm), (insert_Permutation _ _ _ (lookup_lt_Some _ _ _ Hj)).
  fold rest. by rewrite <- Permutation_cons_append, perm_swap.
Qed.

Lemma merged_length : length (bc_cache m) = S (length (bc_cache b)).
Proof using Hm. by rewrite (mr_cache _ _ _ Hm), length_app, length_insert, Nat.add_comm. Qed.

Lemma merged_elem e : e ∈ bc_cache m <-> e = last' \/ e = cur' \/ e ∈ rest.
Proof using Hj Hm. by rewrite merged_perm, !elem_of_cons. Qed.

Lemma rest_elem e : e ∈ rest -> e ∈ bc_cache b.
Proof using Hj. intros. rewrite merge_perm. by right. Qed.

Lemma merged_lookup i e :
  bc_cache b !! i = Some e -> bc_cache m !! i = Some (if decide (i = j) then last' else e).
Proof using Hj Hm.
  intros He. pose proof (lookup_lt_Some _ _ _ He).
  rewrite (mr_cache _ _ _ Hm), lookup_app_l by by rewrite length_insert.
  case_decide as Hij; [subst; by rewrite list_lookup_insert_eq|by rewrite list_lookup_insert_ne].
Qed.

Lemma merged_lookup_new : bc_cache m !! length (bc_cache b) = Some cur'.
Proof using Hm.
  rewrite (mr_cache _ _ _ Hm), lookup_app_r by (rewrite length_insert; lia).
  by rewrite length_insert, Nat.sub_diag.
Qed.

Lemma merged_core : fe_core <$> bc_cache m = (fe_core <$> bc_cache b) ++ [fe_core cur].
Proof using Hj Hm.
  destruct Hm. rewrite mr_cache0, fmap_app, list_fmap_insert. cbn. rewrite mr_cur0. f_equal.
  apply list_insert_id. by rewrite list_lookup_fmap, Hj, mr_lastc0.
Qed.

(** Every fault that had a representative still has one. *)
Lemma merged_represented x :
  (exists r, r ∈ bc_cache b /\ unfiltered r = true /\ covers r x) ->
  exists r, r ∈ bc_cache m /\ unfiltered r = true /\ covers r x.
Proof using All.
  intros (r & Hr & Hu & Hx). rewrite merge_perm in Hr. setoid_rewrite merged_elem.
  apply elem_of_cons in Hr as [->|Hr]; [|exists r; auto].
  pose proof (fe_core_packet _ _ (mr_cur _ _ _ Hm)). pose proof (fe_core_packet _ _ (mr_lastc _ _ _ Hm)).
  pose proof (mr_case _ _ _ Hm) as Hc. destruct upgrade eqn:Hcmp; unfold upgrade in Hcmp; btest.
  - exists cur'. split; [auto|]. split; [apply Hc|].
    apply (covers_trans _ last); [|done]. apply (covers_packet cur last); [done..|].
    split; [by symmetry|]. split; [done|lia].
  - exists last'. split; [auto|]. split; [by destruct Hc as (_ & -> & _)|]. by apply (covers_packet last x).
Qed.

Lemma merged_rep e : e ∈ bc_cache m -> exists r, r ∈ bc_cache m /\ unfiltered r = true /\ covers r e.
Proof using All.
  pose proof (fe_core_packet _ _ (mr_cur _ _ _ Hm)). pose proof (fe_core_packet _ _ (mr_lastc _ _ _ Hm)).
  assert (Hlb : last ∈ bc_cache b) by (rewrite merge_perm; left).
  intros [->|[->|He]]%merged_elem; [| |by apply merged_represented, Hi, rest_elem].
  { destruct (merged_represented last) as (r & ? & ? & ?); [by apply Hi|]. exists r. split_and!; [done..|].
    by apply (covers_packet r last). }
  pose proof (mr_case _ _ _ Hm) as Hc. destruct upgrade eqn:Hcmp; unfold upgrade in Hcmp; btest.
  { exists cur'. rewrite merged_elem. split; [auto|]. split; [apply Hc|apply covers_refl]. }
  destruct (fi_rep _ Hi _ Hlb) as (r0 & Hr0 & Hu0 & Hx0).
  destruct (merged_represented cur) as (r & ? & ? & ?).
  { exists r0. split_and!; [done..|]. apply (covers_trans _ last); [done|]. by split. }
  exists r. split_and!; [done..|]. by apply (covers_packet r cur).
Qed.

Lemma merged_pending u : ut_pending (bc_utlbs m u) = ut_pending (bc_utlbs b u).
Proof using Hm.
  pose proof (mr_case _ _ _ Hm) as Hc. destruct upgrade.
  - destruct Hc as (_ & _ & _ & _ & _ & ->). unfold utlbs'. destruct (decide (u = fe_utlb cur)) as [->|].
    + by rewrite fn_lookup_insert.
    + by rewrite fn_lookup_insert_ne.
  - by destruct Hc as (_ & _ & ->).
Qed.

(** The representatives with a property of what was reported are as many. *)
Lemma merged_countb (p : fault_packet -> bool) :
  (upgrade = true -> p (fe_packet cur) = p (fe_packet last)) ->
  countb (fun e => unfiltered e && p (fe_packet e)) (bc_cache m) =
  countb (fun e => unfiltered e && p (fe_packet e)) (bc_cache b).
Proof using Hj Hm.
  intros Hpp. rewrite merged_perm, merge_perm, !countb_cons.
  rewrite (fe_core_packet _ _ (mr_cur _ _ _ Hm)), (fe_core_packet _ _ (mr_lastc _ _ _ Hm)).
  pose proof (mr_case _ _ _ Hm) as Hc. destruct upgrade.
  - destruct Hc as (-> & _ & -> & -> & _). rewrite Hpp by done. cbn. lia.
  - destruct Hc as (-> & -> & _). cbn. lia.
Qed.

Lemma merged_tlb u :
  0 < ut_pending (bc_utlbs m u) ->
  exists i r, ut_last (bc_utlbs m u) = Some i /\ bc_cache m !! i = Some r /\ unfiltered r = true /\ fe_utlb r = u.
Proof using All.
  rewrite merged_pending. intros Hu. pose proof (fi_tlb _ Hi u Hu) as (i & r & H1 & H2 & H3 & H4).
  pose proof (merged_lookup _ _ H2) as Hl. pose proof (mr_case _ _ _ Hm) as Hc.
  destruct upgrade.
  - destruct Hc as (Hul & Hut & Huc & _ & _ & ->). unfold utlbs'. destruct (decide (u = fe_utlb cur)) as [->|Hd].
    + rewrite fn_lookup_insert. exists (length (bc_cache b)), cur'. split; [done|].
      split; [apply merged_lookup_new|]. split; [done|].
      unfold fe_utlb in *. by rewrite (fe_core_packet _ _ (mr_cur _ _ _ Hm)).
    + rewrite fn_lookup_insert_ne by done. rewrite decide_False in Hl by (intros ->; congruence). by exists i, r.
  - destruct Hc as (_ & Hul & ->). destruct (decide (i = j)) as [->|]; [|by exists i, r].
    exists j, last'. split_and!; try done; [congruence|].
    unfold fe_utlb in *. rewrite (fe_core_packet _ _ (mr_lastc _ _ _ Hm)). congruence.
Qed.

Lemma merge_result_inv : fetch_inv m.
Proof using All.
  pose proof (fe_core_packet _ _ (mr_cur _ _ _ Hm)) as Hpc.
  pose proof (fe_core_packet _ _ (mr_lastc _ _ _ Hm)) as Hpl.
  pose proof (mr_case _ _ _ Hm) as Hc. split; rewrite ?merged_length.
  - apply merged_rep.
  - intros e [->|[->|He]]%merged_elem Hu; [by apply Hm| |].
    + destruct upgrade; [by apply Hc|]. destruct Hc as [Hc _]. congruence.
    + eapply head_ok_mono; [by apply Hi; [apply rest_elem|]|lia].
  - rewrite (mr_count _ _ _ Hm), (fi_count _ Hi).
    pose proof (merged_countb (fun _ => true) (fun _ => eq_refl)) as Hct.
    unfold countb in *. rewrite !(List.filter_ext (fun e => unfiltered e && true) unfiltered) in Hct
      by (intros; apply andb_true_r). lia.
  - intros u. rewrite merged_pending, (fi_pending _ Hi). symmetry.
    apply (merged_countb (fun p => fp_utlb_id p =? u)). intros Hupg.
    unfold upgrade, fe_utlb in *. apply Z.ltb_lt in Hupg. by rewrite (proj2 (Hup Hupg)).
  - apply merged_tlb.
  - right. rewrite (mr_last _ _ _ Hm).
    destruct (fi_last _ Hi) as [Hnil|(i & r & H1 & H2 & H3)]; [by rewrite Hnil in Hj|].
    eexists i, _. split; [done|]. split; [by apply merged_lookup|].
    case_decide; [apply Hm|]. eapply head_ok_mono; [done|lia].
  - rewrite (mr_single _ _ _ Hm). intros Ht.
    assert (Hx : forall x, x ∈ bc_cache m -> same_instance x last).
    { intros x [->|[->|Hx]]%merged_elem; [unfold same_instance; by rewrite Hpl|unfold same_instance in *; by rewrite Hpc|].
      apply (fi_single _ Hi); [done|by apply rest_elem|]. rewrite merge_perm. left. }
    intros e e' He He'. etransitivity; [by apply Hx|]. symmetry. by apply Hx.
  - rewrite (mr_max _ _ _ Hm). split; [apply Hi|]. unfold fe_utlb in *.
    intros e [->|[->|He]]%merged_elem; [rewrite Hpl|by rewrite Hpc|by apply Hi, rest_elem].
    apply (fi_utlb _ Hi). rewrite merge_perm. left.
  - apply Hm.
Qed.
End Merge.

Lemma append_entry_inv b cur same :
  fetch_inv b -> Z.of_nat (length (bc_cache b)) < 2 ^ 32 - 1 ->
  fe_filtered cur = false -> 0 <= fe_utlb cur <= bc_max_utlb b ->
  (same = true -> forall l, head (bc_cache b) = Some l -> bc_single b = true -> same_instance cur l) ->
  fetch_inv (append_entry cur same b).
Proof.
  intros Hi Hlen Hf Hu Hsame. unfold append_entry. set (cur' := fe_set_merge _ _ _ _).
  assert (Hun : unfiltered cur' = true) by (unfold unfiltered; cbn; by rewrite Hf).
  assert (Hhead : head_ok (S (length (bc_cache b))) cur').
  { split; cbn; [lia|left; set_solver|]. intros _ t ->%elem_of_singleton. done. }
  destruct Hi as [Hrep Hhd Hct Hpd Htlb Hlast Hsing Hutl Hbug].
  split; cbn [bc_cache bc_num_coalesced bc_utlbs bc_last_fault bc_single bc_max_utlb bc_bug
              bc_set_fetch bc_set_utlbs bc_set_cache]; rewrite ?length_app, ?Nat.add_1_r; cbn [length].
  - intros e [He| ->%list_elem_of_singleton]%elem_of_app.
    + destruct (Hrep e He) as (r & ? & ?). exists r. split; [set_solver|done].
    + exists cur'. split; [set_solver|]. split; [done|apply covers_refl].
  - intros e [He| ->%list_elem_of_singleton]%elem_of_app Hue; [|done].
    eapply head_ok_mono; [by apply Hhd|]. lia.
  - rewrite Hct, countb_snoc, Hun. pose proof (countb_bounds unfiltered (bc_cache b)).
    rewrite u32_small by lia. lia.
  - intros u. rewrite countb_snoc, Hun. cbn [andb].
    destruct (decide (u = fe_utlb cur)) as [->|Hne].
    + rewrite fn_lookup_insert. cbn [ut_pending]. rewrite Hpd.
      pose proof (countb_bounds (fun e => unfiltered e && (fe_utlb e =? fe_utlb cur)) (bc_cache b)).
      rewrite u32_small by lia. change (fe_utlb cur') with (fe_utlb cur). rewrite Z.eqb_refl. lia.
    + rewrite fn_lookup_insert_ne, Hpd by done. change (fe_utlb cur') with (fe_utlb cur).
      rewrite (proj2 (Z.eqb_neq _ _)) by done. lia.
  - intros u. destruct (decide (u = fe_utlb cur)) as [->|Hne].
    + rewrite fn_lookup_insert. exists (length (bc_cache b)), cur'.
      rewrite lookup_app_r, Nat.sub_diag by lia. done.
    + rewrite fn_lookup_insert_ne by done. intros (i & r & ? & H2 & ?)%Htlb. exists i, r.
      by rewrite (lookup_app_l_Some _ _ _ _ H2).
  - right. exists (length (bc_cache b)), cur'. rewrite lookup_app_r, Nat.sub_diag by lia. done.
  - intros [Hs1 Hs2]%andb_prop. specialize (Hsame Hs2).
    assert (Hx : forall e, e ∈ bc_cache b -> same_instance e cur').
    { destruct (bc_cache b) as [|l c]; [set_solver|]. intros e He. symmetry.
      etransitivity; [by apply (Hsame l)|]. apply Hsing; [done|left|done]. }
    intros e e' [He| ->%list_elem_of_singleton]%elem_of_app [He'| ->%list_elem_of_singleton]%elem_of_app;
      [by apply Hsing|by apply Hx|by symmetry; apply Hx|done].
  - split; [lia|]. intros e [He| ->%list_elem_of_singleton]%elem_of_app; [by apply Hutl|done].
  - done.
Qed.

Lemma append_entry_core b cur same :
  fe_core <$> bc_cache (append_entry cur same b) = (fe_core <$> bc_cache b) ++ [fe_core cur] /\
  bc_num_coalesced (append_entry cur same b) = u32 (bc_num_coalesced b + 1).
Proof. split; [|done]. cbn. by rewrite fmap_app. Qed.

Lemma fetch_inv_max b m :
  fetch_inv b -> bc_max_utlb b <= m -> fetch_inv (bc_set_utlbs (bc_utlbs b) m b).
Proof.
  intros [Hrep Hhd Hct Hpd Htlb Hlast Hsing Hutl Hbug] Hm. split; cbn; try done.
  split; [lia|]. intros e He. pose proof (proj2 Hutl e He). lia.
Qed.

Section Fetch.
Context `{FaultCodes}.

Lemma try_merge_spec b cur same b' :
  fetch_inv b -> Z.of_nat (length (bc_cache b)) < 2 ^ 32 - 1 ->
  fe_filtered cur = false -> 0 <= fe_utlb cur <= bc_max_utlb b ->
  (same = true -> exists j l, bc_last_fault b = Some j /\ bc_cache b !! j = Some l /\ same_instance cur l) ->
  fetch_fault_buffer_try_merge_entry cur same b = Some b' ->
  fetch_inv b' /\ fe_core <$> bc_cache b' = (fe_core <$> bc_cache b) ++ [fe_core cur].
Proof.
  intros Hi Hlen Hf Hu Hsame. unfold fetch_fault_buffer_try_merge_entry.
  destruct (is_last_tlb_fault cur b) as [[j last]|] eqn:Ht.
  - intros [= <-]. unfold is_last_tlb_fault in Ht. destruct (0 <? _) eqn:Hp; [|done]. btest.
    destruct (fi_tlb _ Hi _ Hp) as (j' & r & Hl & Hj & Hun & Hur). rewrite Hl in Ht. cbn in Ht.
    rewrite Hj in Ht. cbn in Ht. destruct (_ && _) eqn:Hc; [|done]. injection Ht as -> ->.
    btest. rewrite cmp_fault_instance_ptr_0 in *.
    assert (head_ok (length (bc_cache b)) last) by (apply (fi_head _ Hi); [by eapply list_elem_of_lookup_2|done]).
    destruct (merged_result b Hi Hlen cur Hf j last) as (cur' & last' & Hm); [done..|].
    split; [by eapply merge_result_inv|by eapply merged_core].
  - destruct (is_last_fault cur same b) as [[j last]|] eqn:Hl; [|done]. intros [= <-].
    unfold is_last_fault in Hl. destruct (bc_last_fault b) as [j'|] eqn:Hb; [|done]. cbn in Hl.
    destruct (bc_cache b !! j') as [r|] eqn:Hj; [|done]. cbn in Hl.
    destruct (_ && _ && _) eqn:Hc; [|done]. injection Hl as -> ->. btest.
    destruct (Hsame ltac:(done)) as (j0 & l0 & [= <-] & Hl0 & Hs). assert (l0 = last) as -> by congruence.
    rewrite (proj2 (Z.ltb_ge _ _)) by lia.
    destruct (fi_last _ Hi) as [Hnil|(j1 & r1 & Hf1 & Hf2 & Hf3)]; [by rewrite Hnil in Hj|].
    assert (j1 = j) as -> by congruence. assert (r1 = last) as -> by congruence.
    destruct (merged_result b Hi Hlen cur Hf j last) as (cur' & last' & Hm); [done|lia|].
    unfold merged in Hm. rewrite (proj2 (Z.ltb_ge _ _)) in Hm by lia.
    split; [eapply (merge_result_inv b Hi Hlen cur Hf Hu j last); try done; lia|by eapply merged_core].
Qed.

Lemma fetch_one_spec b e may_filter :
  fetch_inv b -> Z.of_nat (length (bc_cache b)) < 2 ^ 32 - 1 -> 0 <= fe_utlb e ->
  let b' := fetch_one may_filter e b in
  fetch_inv b' /\ fe_core <$> bc_cache b' = (fe_core <$> bc_cache b) ++ [fe_core (init_entry e)] /\
  (may_filter = false -> bc_num_coalesced b' = u32 (bc_num_coalesced b + 1)).
Proof.
  intros Hi Hlen Hu. unfold fetch_one. set (cur := init_entry e).
  set (b1 := if bc_max_utlb b <? fe_utlb cur then _ else b).
  assert (Hi1 : fetch_inv b1).
  { unfold b1. destruct (_ <? _) eqn:Hc; btest; [|done]. apply fetch_inv_max; [done|lia]. }
  assert (Hu1 : 0 <= fe_utlb cur <= bc_max_utlb b1).
  { assert (Hcu : fe_utlb cur = fe_utlb e) by done. rewrite Hcu. split; [done|]. unfold b1. rewrite Hcu.
    destruct (_ <? _) eqn:Hc; btest; cbn [bc_max_utlb bc_set_utlbs]; lia. }
  assert (Heq : bc_cache b1 = bc_cache b /\ bc_num_coalesced b1 = bc_num_coalesced b)
    by (unfold b1; by destruct (_ <? _)).
  destruct Heq as [Hc1 Hn1]. rewrite <- Hc1, <- Hn1 in *. clearbody b1. clear b Hi Hc1 Hn1.
  destruct (bc_cache b1) as [|x c] eqn:Hcache.
  { rewrite <- Hcache. split; [|split; [|intros _]; apply append_entry_core]. apply append_entry_inv; rewrite ?Hcache; try done. }
  destruct (fi_last _ Hi1) as [Hnil|(j & l & Hl & Hj & _)]; [by rewrite Hnil in Hcache|].
  rewrite Hl. cbn [mbind option_bind]. rewrite <- Hcache, Hj. rewrite bool_decide_eq_true_2 by done.
  assert (Hba : bc_assert true b1 = b1).
  { unfold bc_assert. cbn. rewrite orb_false_r. by destruct b1. }
  rewrite Hba. set (same := cmp_fault_instance_ptr cur l =? 0).
  assert (Hsame : same = true -> same_instance cur l)
    by (unfold same; intros Hs%Z.eqb_eq; by apply cmp_fault_instance_ptr_0).
  assert (Happ : fetch_inv (append_entry cur same b1)).
  { apply append_entry_inv; try done; [by rewrite Hcache|]. intros Hs l0 Hl0 Hsing.
    etransitivity; [by apply Hsame|]. apply (fi_single _ Hi1); [done| |].
    - eapply list_elem_of_lookup_2; exact Hj.
    - rewrite Hcache in Hl0 |- *. injection Hl0 as ->. left. }
  pose proof (append_entry_core b1 cur same) as [Hac Han].
  destruct (may_filter && negb (fe_is_fatal cur)) eqn:Hmf; [|done].
  destruct (fetch_fault_buffer_try_merge_entry cur same b1) as [b'|] eqn:Htm; [|done].
  apply try_merge_spec in Htm as [Hi' Hcore]; try done; [|by rewrite Hcache|by intros; exists j, l; auto].
  split; [done|]. split; [done|]. by intros ->.
Qed.

(** The entries the loop adds from [get] on, as they come from the ring. *)
Definition ring_cores (hw : fault_hw) (fb : fault_buffer) (get n : Z) : list (fault_packet * bool * option Z) :=
  (fun i => fe_core (init_entry (snd (hw_parse hw (ring_at fb get i))))) <$> seqZ 0 n.

Lemma ring_cores_cons hw fb get n :
  0 < fb_max_faults fb < 2 ^ 32 -> 0 <= get < fb_max_faults fb -> 0 <= n ->
  ring_cores hw fb get (n + 1) =
  fe_core (init_entry (snd (hw_parse hw get))) :: ring_cores hw fb (next_get fb get) n.
Proof.
  intros Hm Hg Hn. unfold ring_cores. rewrite (seqZ_cons 0) by lia. cbn [fmap list_fmap].
  rewrite ring_at_0 by done. f_equal.
  replace (Z.pred (n + 1)) with n by lia. change (Z.succ 0) with (1 + 0).
  rewrite <- (fmap_add_seqZ 1 0 n), <- list_fmap_compose. apply list_fmap_ext. intros i x _. cbn.
  by rewrite ring_next, Z.add_comm by done.
Qed.

(** Why a fetch stopped. *)
Definition fetch_stop (hw : fault_hw) (fb : fault_buffer) (mode : fault_fetch_mode) (st : nv_status)
    (get n : Z) : Prop :=
  st <> NV_OK \/ get = fb_put fb \/ mode = FAULT_FETCH_MODE_BATCH_READY /\
    (fb_max_batch fb <= n \/ 0 < n /\ (0 < hw_polls hw get)%nat).

(** What fetching from [get] on, into the batch [b], ends with. *)
Definition fetched (hw : fault_hw) (fb : fault_buffer) (mode : fault_fetch_mode) (may_filter : bool)
    (get : Z) (b : batch) (r : nv_status * Z * batch) : Prop :=
  exists n, let '(st, get', b') := r in
    0 <= n <= distance fb get /\ get' = ring_at fb get n /\ fetch_inv b' /\
    fe_core <$> bc_cache b' = (fe_core <$> bc_cache b) ++ ring_cores hw fb get n /\
    fetch_stop hw fb mode st get' (Z.of_nat (length (bc_cache b) + Z.to_nat n)) /\
    (may_filter = false -> bc_num_coalesced b' = Z.of_nat (length (bc_cache b'))).

Section Loop.
Context (hw : fault_hw) (fb : fault_buffer) (mode : fault_fetch_mode) (may_filter : bool).
Context (Hm : 0 < fb_max_faults fb < 2 ^ 32) (Hput : 0 <= fb_put fb < fb_max_faults fb).
Context (Hut : forall i, 0 <= fe_utlb (snd (hw_parse hw i))).

Lemma fetched_stop st get b :
  0 <= get < fb_max_faults fb -> fetch_inv b ->
  (may_filter = false -> bc_num_coalesced b = Z.of_nat (length (bc_cache b))) ->
  fetch_stop hw fb mode st get (Z.of_nat (length (bc_cache b))) ->
  fetched hw fb mode may_filter get b (st, get, b).
Proof using Hm Hput.
  intros Hg Hi Hnf Hs. exists 0. pose proof (distance_range fb Hm get).
  rewrite ring_at_0, app_nil_r, Nat.add_0_r by done. split_and!; done || lia.
Qed.

Lemma fetched_step get b e r :
  0 <= get < fb_max_faults fb -> get <> fb_put fb -> snd (hw_parse hw get) = e ->
  let b1 := fetch_one may_filter e b in
  fe_core <$> bc_cache b1 = (fe_core <$> bc_cache b) ++ [fe_core (init_entry e)] ->
  fetched hw fb mode may_filter (next_get fb get) b1 r -> fetched hw fb mode may_filter get b r.
Proof using Hm Hput.
  intros Hg Hne <- b1 Hcore (n & Hr). destruct r as [[st get'] b']. destruct Hr as (Hn & Hget & Hi & Hcr & Hs & Hnf).
  assert (Hl : length (bc_cache b1) = S (length (bc_cache b))).
  { rewrite <- (length_fmap fe_core), Hcore, length_app, length_fmap. cbn. lia. }
  rewrite distance_next in Hn by done. rewrite ring_next in Hget by done.
  exists (n + 1). split_and!; try done; [lia..| |].
  - by rewrite Hcr, Hcore, ring_cores_cons, <- app_assoc by (done || lia).
  - rewrite Hl in Hs. by replace (length (bc_cache b) + Z.to_nat (n + 1))%nat
      with (S (length (bc_cache b)) + Z.to_nat n)%nat by lia.
Qed.

Lemma fetch_loop_spec fuel get b :
  0 <= get < fb_max_faults fb -> distance fb get <= Z.of_nat fuel ->
  Z.of_nat (length (bc_cache b)) + distance fb get < fb_max_faults fb -> fetch_inv b ->
  (may_filter = false -> bc_num_coalesced b = Z.of_nat (length (bc_cache b))) ->
  exists r, fetch_loop fuel hw fb mode may_filter get b = Some r /\
            fetched hw fb mode may_filter get b r.
Proof using Hm Hput Hut.
  revert get b. induction fuel as [|fuel IH]; intros get b Hg Hd Hlen Hi Hnf; cbn [fetch_loop];
    pose proof (distance_range fb Hm get) as Hdr.
  all: destruct (negb (get =? fb_put fb) && _) eqn:Hc;
    [|eexists; split; [done|]; apply fetched_stop; try done; right;
      apply andb_false_iff in Hc as [Hc|Hc]; [btest; by left|];
      apply orb_false_iff in Hc as [Hc1 Hc2]; apply bool_decide_eq_false in Hc1; btest;
      right; split; [by destruct mode|left; lia]].
  all: apply andb_prop in Hc as [Hne _]; btest.
  { exfalso. apply Hne, (distance_0 fb); done || lia. }
  destruct (wait_valid _ _ _) as [st|] eqn:Hw.
  { eexists. split; [done|]. apply fetched_stop; try done.
    apply wait_valid_status in Hw as [Hp Hst]. destruct (decide (st = NV_OK)) as [->|]; [|by left].
    specialize (Hst eq_refl). apply andb_prop in Hst as [Hmode%bool_decide_eq_true Hpos]. btest.
    right; right. split; [done|]. by right. }
  destruct (hw_parse hw get) as [st e] eqn:Hparse. destruct (is_ok st) eqn:Hok; cbn [negb].
  2:{ eexists. split; [done|]. apply fetched_stop; try done. left. by apply is_ok_false. }
  assert (Hdn : distance fb (next_get fb get) = distance fb get - 1) by by apply distance_next.
  assert (Hue : 0 <= fe_utlb e) by (specialize (Hut get); by rewrite Hparse in Hut).
  destruct (fetch_one_spec b e may_filter Hi) as (Hi' & Hcore & Hco); [lia|done|].
  assert (Hl : length (bc_cache (fetch_one may_filter e b)) = S (length (bc_cache b))).
  { rewrite <- (length_fmap fe_core), Hcore, length_app, length_fmap. cbn. lia. }
  destruct (IH (next_get fb get) (fetch_one may_filter e b)) as (r & Heq & Hr).
  { by apply next_get_range. } { lia. } { rewrite Hl. lia. } { done. }
  { intros Hmf. rewrite Hl, Hco, Hnf by done. rewrite u32_small by lia. lia. }
  exists r. split; [done|]. apply (fetched_step get b e); try done. by rewrite Hparse.
Qed.
End Loop.

(** Counters of uTLBs above [max_utlb_id] are zero, so that clearing the others
    clears all. *)
Record batch_wf (b : batch) : Prop := {
  bw_bug   : bc_bug b = false;
  bw_utlbs : forall u, ~ (0 <= u <= bc_max_utlb b) -> ut_pending (bc_utlbs b u) = 0;
}.

Lemma clear_utlbs_pending l (u : Z -> utlb_info) id :
  ut_pending (fold_left (fun u id => <[id := mk_utlb_info 0 false (ut_last (u id))]> u) l u id) =
  (if decide (id ∈ l) then 0 else ut_pending (u id)).
Proof.
  revert u. induction l as [|x l IH]; intros u; [done|]. cbn [fold_left]. rewrite IH.
  destruct (decide (id ∈ l)) as [Hin|Hnin]; [by rewrite decide_True by (by right)|].
  destruct (decide (id = x)) as [->|Hne].
  - rewrite fn_lookup_insert, decide_True by left. done.
  - rewrite fn_lookup_insert_ne by done. by rewrite decide_False by by intros [?|?]%elem_of_cons.
Qed.

Lemma batch_wf_clear b u : batch_wf b -> ut_pending (clear_utlbs (bc_max_utlb b) (bc_utlbs b) u) = 0.
Proof.
  intros [_ Hu]. unfold clear_utlbs. rewrite clear_utlbs_pending. case_decide as Hin; [done|].
  apply Hu. intros ?. apply Hin, elem_of_seqZ. lia.
Qed.

Lemma fetch_inv_wf b : fetch_inv b -> batch_wf b.
Proof.
  intros Hi. split; [apply Hi|]. intros u Hu. rewrite (fi_pending _ Hi).
  assert (~ 0 < countb (fun e => unfiltered e && (fe_utlb e =? u)) (bc_cache b)).
  { intros (e & He & [_ Heq]%andb_prop)%countb_pos. btest. pose proof (proj2 (fi_utlb _ Hi) e He). lia. }
  pose proof (countb_bounds (fun e => unfiltered e && (fe_utlb e =? u)) (bc_cache b)). lia.
Qed.

Lemma write_get_spec get fb :
  fb_gpu_get fb = fb_get fb ->
  fb_get (write_get get fb) = get /\ fb_gpu_get (write_get get fb) = get /\
  fb_put (write_get get fb) = fb_put fb /\ fb_max_faults (write_get get fb) = fb_max_faults fb /\
  fb_valid (write_get get fb) = fb_valid fb /\ fb_decrypt_iv (write_get get fb) = fb_decrypt_iv fb.
Proof. intros Hg. unfold write_get. destruct (_ =? _) eqn:He; btest; cbn; split_and!; done || congruence. Qed.

Lemma fetch_fault_buffer_entries_spec hw coalesce cancel_va mode fb b :
  fb_wf fb -> hw_wf fb hw -> batch_wf b ->
  exists st fb' b', fetch_fault_buffer_entries hw coalesce cancel_va mode fb b = Some (st, fb', b') /\
    let n := Z.of_nat (length (bc_cache b')) in
    fb_wf fb' /\ fb_get fb' = ring_at fb (fb_get fb) n /\ fb_max_faults fb' = fb_max_faults fb /\
    (fb_get fb <> fb_put fb -> fb_put fb' = fb_put fb) /\ n <= distance fb' (fb_get fb) /\
    fe_core <$> bc_cache b' = ring_cores hw fb (fb_get fb) n /\
    (coalesce && (cancel_va || bool_decide (mode = FAULT_FETCH_MODE_BATCH_READY)) = false ->
     bc_num_coalesced b' = n) /\
    fetch_stop hw fb' mode st (fb_get fb') n /\ fetch_inv b'.
Proof.
  intros [Hm Hg Hp Hgg] [Hhp Hhu] Hb. unfold fetch_fault_buffer_entries.
  set (fb0 := if fb_get fb =? fb_put fb then fb_set_put (hw_put hw) fb else fb).
  assert (Hf0 : fb_max_faults fb0 = fb_max_faults fb /\ fb_get fb0 = fb_get fb /\ fb_gpu_get fb0 = fb_get fb /\
    0 <= fb_put fb0 < fb_max_faults fb /\ (fb_get fb <> fb_put fb -> fb_put fb0 = fb_put fb)).
  { unfold fb0. destruct (_ =? _) eqn:He; btest; cbn; split_and!; (done || lia). }
  destruct Hf0 as (Hf1 & Hf2 & Hf3 & Hf4 & Hf5). clearbody fb0.
  set (b0 := bc_set_utlbs _ _ _). set (mf := coalesce && _).
  assert (Hi0 : fetch_inv b0).
  { pose proof (fun u => batch_wf_clear b u Hb) as Hz.
    split; cbn -[clear_utlbs]; [set_solver|set_solver|done|intros u; by rewrite Hz|intros u Hu; rewrite Hz in Hu; lia
      |by left|set_solver|split; [done|set_solver]|apply Hb]. }
  destruct (fetch_loop_spec hw fb0 mode mf ltac:(lia) ltac:(lia) Hhu (Z.to_nat (fb_max_faults fb0)) (fb_get fb0) b0)
    as ([[st get'] b'] & -> & n & Hn & Hget & Hi & Hcr & Hst & Hnf); try done.
  {  lia. }
  {  pose proof (distance_range fb0 ltac:(lia) (fb_get fb0)). lia. }
  { pose proof (distance_range fb0 ltac:(lia) (fb_get fb0)). cbn. lia. }
  assert (Hring : forall k, ring_at fb0 (fb_get fb0) k = ring_at fb (fb_get fb) k)
    by (intros k; unfold ring_at; congruence).
  assert (Hlen : Z.of_nat (length (bc_cache b')) = n).
  { rewrite <- (length_fmap fe_core), Hcr. cbn. unfold ring_cores. rewrite length_fmap, length_seqZ. lia. }
  destruct (write_get_spec get' fb0 ltac:(congruence)) as (Hw1 & Hw2 & Hw3 & Hw4 & _).
  exists st, (write_get get' fb0), b'. split; [done|]. cbv zeta. rewrite Hlen, Hw1, Hw3.
  split. { split; rewrite ?Hw1, ?Hw2, ?Hw3, ?Hw4, ?Hf1; try done. rewrite Hget. unfold ring_at. rewrite Hf1.
           apply Z.mod_pos_bound. lia. }
  split; [by rewrite Hget, Hring|]. split; [by rewrite Hw4|]. split; [done|].
  split. { unfold distance in *. rewrite Hw3, Hw4. rewrite Hf2 in Hn. lia. }
  split. { rewrite Hcr. cbn. unfold ring_cores. apply list_fmap_ext. intros ? k _. by rewrite Hring. }
  split. { intros Hmf. rewrite <- Hlen. apply Hnf. unfold mf. destruct coalesce, cancel_va, mode; done. }
  split; [|done]. unfold fetch_stop, write_get in *. cbn in Hst.
  replace (Z.of_nat (Z.to_nat n)) with n in Hst by lia.
  destruct (_ =? _); cbn; [done|]. done.
Qed.

(** C38: Fetching terminates and caches the entries from GET on, in ring order,
    one per slot, advancing GET past them and never past PUT; each cached fault
    has an unfiltered representative of the same page and instance with an access
    at least as strong, whose mask holds its own access and none stronger; the
    count is that of the representatives; it stops at PUT, at the batch size, at
    an entry not ready yet, or with an error. *)
Theorem fetch_fault_buffer_entries_correct hw coalesce cancel_va mode fb b :
  fb_wf fb -> hw_wf fb hw -> batch_wf b ->
  exists st fb' b', fetch_fault_buffer_entries hw coalesce cancel_va mode fb b = Some (st, fb', b') /\
    let n := Z.of_nat (length (bc_cache b')) in
    fb_wf fb' /\ fb_get fb' = ring_at fb (fb_get fb) n /\
    (fb_get fb <> fb_put fb -> fb_put fb' = fb_put fb) /\ n <= distance fb' (fb_get fb) /\
    fe_core <$> bc_cache b' = ring_cores hw fb (fb_get fb) n /\
    (forall e, e ∈ bc_cache b' -> exists r, r ∈ bc_cache b' /\ fe_filtered r = false /\ covers r e) /\
    (forall r, r ∈ bc_cache b' -> fe_filtered r = false ->
       fe_access r ∈ fe_access_mask r /\ forall t, t ∈ fe_access_mask r -> t <= fe_access r) /\
    bc_num_coalesced b' = countb unfiltered (bc_cache b') /\
    (coalesce && (cancel_va || bool_decide (mode = FAULT_FETCH_MODE_BATCH_READY)) = false ->
     bc_num_coalesced b' = n) /\
    (bc_single b' = true -> forall e e', e ∈ bc_cache b' -> e' ∈ bc_cache b' -> same_instance e e') /\
    fetch_stop hw fb' mode st (fb_get fb') n /\ bc_bug b' = false.
Proof.
  intros Hfb Hhw Hb.
  destruct (fetch_fault_buffer_entries_spec hw coalesce cancel_va mode fb b Hfb Hhw Hb)
    as (st & fb' & b' & Heq & Hwf & Hget & _ & Hput & Hn & Hcore & Hnc & Hstop & Hi).
  exists st, fb', b'. do 6 (split; [done|]). split; [|split; [|split; [apply Hi|split; [done|split; [apply Hi|split; [done|apply Hi]]]]]].
  - intros e He. destruct (fi_rep _ Hi e He) as (r & ? & Hu & ?). exists r. by apply negb_true_iff in Hu.
  - intros r Hr Hf. destruct (fi_head _ Hi r Hr) as [_ Hk Hx]; [by unfold unfiltered; rewrite Hf|].
    rewrite Hf in Hk. split; [by destruct Hk|by apply Hx].
Qed.
End Fetch.

(** ** What a flush does *)

(** The flush has skipped [n] entries from [get] on. *)
Record flushed (cc : bool) (fb : fault_buffer) (get n get' : Z) (fb' : fault_buffer) : Prop := {
  fl_count : 0 <= n <= distance fb get;
  fl_get   : get' = ring_at fb get n;
  fl_valid : fb_valid fb' = fb_valid fb ∖ list_to_set (ring_at fb get <$> seqZ 0 n);
  fl_iv    : fb_decrypt_iv fb' = fb_decrypt_iv fb + (if cc then n else 0);
  fl_same  : fb_get fb' = fb_get fb /\ fb_put fb' = fb_put fb /\ fb_max_faults fb' = fb_max_faults fb /\
             fb_gpu_get fb' = fb_gpu_get fb;
}.

Definition flush_looped (cc : bool) (fb : fault_buffer) (get : Z) (r : nv_status * Z * fault_buffer) : Prop :=
  exists n, let '(st, get', fb') := r in
    flushed cc fb get n get' fb' /\ (st = NV_OK -> get' = fb_put fb /\ n = distance fb get).

Lemma flush_looped_stop cc fb get st :
  0 < fb_max_faults fb < 2 ^ 32 -> 0 <= get < fb_max_faults fb -> (st = NV_OK -> get = fb_put fb) ->
  flush_looped cc fb get (st, get, fb).
Proof.
  intros Hm Hg Hst. exists 0. pose proof (distance_range fb Hm get). split.
  - split; [lia|by rewrite ring_at_0|cbn; set_solver|destruct cc; lia|done].
  - intros Hok. unfold distance. rewrite <- (Hst Hok), Z.sub_diag. done.
Qed.

Lemma flush_loop_spec fuel cc hw get fb :
  0 < fb_max_faults fb < 2 ^ 32 -> 0 <= fb_put fb < fb_max_faults fb -> 0 <= get < fb_max_faults fb ->
  distance fb get <= Z.of_nat fuel ->
  exists r, flush_loop fuel cc hw get fb = Some r /\ flush_looped cc fb get r.
Proof.
  revert get fb. induction fuel as [|fuel IH]; intros get fb Hm Hp Hg Hd; cbn [flush_loop];
    pose proof (distance_range fb Hm get) as Hdr.
  all: destruct (get =? fb_put fb) eqn:He; btest;
    [eexists; split; [done|]; by apply flush_looped_stop|].
  { exfalso. apply He, (distance_0 fb); done || lia. }
  destruct (wait_valid _ _ _) as [st|] eqn:Hw.
  { eexists; split; [done|]. apply flush_looped_stop; [done..|]. intros ->.
    apply wait_valid_status in Hw as [_ Hw]. by specialize (Hw eq_refl). }
  set (fb1 := fault_buffer_skip_replayable_entry cc get fb).
  assert (Hdn : distance fb (next_get fb get) = distance fb get - 1) by by apply distance_next.
  destruct (IH (next_get fb get) fb1) as ([[st get'] fb'] & -> & n & [Hn Hget Hv Hiv Hsame] & Hok).
  { done. } { done. } { change (0 <= next_get fb get < fb_max_faults fb). by apply next_get_range. } { change (distance fb (next_get fb get) <= Z.of_nat fuel). lia. }
  change (distance fb1) with (distance fb) in *. change (ring_at fb1) with (ring_at fb) in *.
  change (fb_put fb1) with (fb_put fb) in *.
  eexists; split; [done|]. exists (n + 1). split.
  - split; [lia|by rewrite Hget, ring_next| |rewrite Hiv; cbn; destruct cc; lia|done].
    rewrite Hv. cbn [fb_valid fb1 fault_buffer_skip_replayable_entry fb_set_valid].
    rewrite (seqZ_cons 0 (n + 1)) by (clear -Hn; lia). cbn [fmap list_fmap list_to_set]. rewrite ring_at_0 by done.
    replace (Z.pred (n + 1)) with n by lia. change (Z.succ 0) with (1 + 0).
    rewrite <- (fmap_add_seqZ 1 0 n), <- list_fmap_compose.
    assert (ring_at fb get ∘ Z.add 1 <$> seqZ 0 n = ring_at fb (next_get fb get) <$> seqZ 0 n) as ->.
    { apply list_fmap_ext. intros i x _. cbn. by rewrite ring_next, Z.add_comm by done. }
    by rewrite difference_difference_l_L.
  - intros Hst. destruct (Hok Hst) as [-> ->]. split; [done|lia].
Qed.

(** What a flush leaves: it skipped [n] entries, each once. *)
Definition flush_post (cc : bool) (hw : fault_hw) (flush_mode : uvm_gpu_buffer_flush_mode)
    (type : uvm_fault_replay_type) (fb : fault_buffer) (b : option batch)
    (r : nv_status * fault_buffer * option batch) : Prop :=
  exists n, let '(st, fb', b') := r in
    fb_wf fb' /\ 0 <= n <= distance fb' (fb_get fb) /\ fb_get fb' = ring_at fb (fb_get fb) n /\
    fb_valid fb' = fb_valid fb ∖ list_to_set (ring_at fb (fb_get fb) <$> seqZ 0 n) /\
    fb_decrypt_iv fb' = fb_decrypt_iv fb + (if cc then n else 0) /\
    (st = NV_OK ->
       fb_get fb' = fb_put fb' /\ n = distance fb' (fb_get fb) /\
       (flush_mode <> UVM_GPU_BUFFER_FLUSH_MODE_CACHED_PUT -> fb_put fb' = hw_put hw) /\
       (type = UVM_FAULT_REPLAY_TYPE_START ->
        b' = (fun b => bc_set_replays (u32 (bc_num_replays b + 1)) b) <$> b)).

Lemma flush_post_early cc hw flush_mode type fb b st :
  fb_wf fb -> st <> NV_OK -> flush_post cc hw flush_mode type fb b (st, fb, b).
Proof.
  intros Hwf Hst. pose proof Hwf as [Hm Hg Hp Hgg]. exists 0. pose proof (distance_range fb Hm (fb_get fb)).
  rewrite ring_at_0 by done. split_and!; try done; [lia|cbn; set_solver|destruct cc; lia].
Qed.

Lemma fault_buffer_flush_spec cc hw calls flush_mode type fb b :
  fb_wf fb -> 0 <= hw_put hw < fb_max_faults fb ->
  exists r, fault_buffer_flush_locked cc hw calls flush_mode type fb b = Some r /\
            flush_post cc hw flush_mode type fb b r.
Proof.
  intros Hwf Hhp. pose proof Hwf as [Hm Hg Hp Hgg]. unfold fault_buffer_flush_locked.
  destruct (bool_decide _ && _) eqn:Hw.
  { eexists; split; [done|]. apply flush_post_early; [done|]. apply andb_prop in Hw as [_ Hw]. btest. by apply is_ok_false. }
  set (update := negb (bool_decide (flush_mode = UVM_GPU_BUFFER_FLUSH_MODE_CACHED_PUT))).
  destruct (negb (is_ok (if update then _ else _))) eqn:Hst.
  { eexists; split; [done|]. apply flush_post_early; [done|]. btest. by apply is_ok_false. }
  set (fb0 := if update then fb_set_put (hw_put hw) fb else fb).
  assert (Hf0 : fb_max_faults fb0 = fb_max_faults fb /\ fb_get fb0 = fb_get fb /\ fb_gpu_get fb0 = fb_get fb /\
    fb_valid fb0 = fb_valid fb /\ fb_decrypt_iv fb0 = fb_decrypt_iv fb /\ 0 <= fb_put fb0 < fb_max_faults fb /\
    (flush_mode <> UVM_GPU_BUFFER_FLUSH_MODE_CACHED_PUT -> fb_put fb0 = hw_put hw)).
  { unfold fb0, update. destruct (decide (flush_mode = UVM_GPU_BUFFER_FLUSH_MODE_CACHED_PUT)) as [Hc|Hc].
    - rewrite bool_decide_eq_true_2 by done. cbn. split_and!; (done || lia || by intros).
    - rewrite bool_decide_eq_false_2 by done. cbn. split_and!; (done || lia). }
  destruct Hf0 as (Hf1 & Hf2 & Hf3 & Hf4 & Hf5 & Hf6 & Hf7). clearbody fb0.
  assert (Hring : forall k, ring_at fb0 (fb_get fb0) k = ring_at fb (fb_get fb) k)
    by (intros k; unfold ring_at; congruence).
  destruct (flush_loop_spec (Z.to_nat (fb_max_faults fb0)) cc hw (fb_get fb0) fb0)
    as ([[st get'] fb'] & -> & n & [Hn Hget Hv Hiv (Hs1 & Hs2 & Hs3 & Hs4)] & Hok); try lia.
  { pose proof (distance_range fb0 ltac:(lia) (fb_get fb0)). lia. }
  destruct (write_get_spec get' fb' ltac:(congruence)) as (Hw1 & Hw2 & Hw3 & Hw4 & Hw5 & Hw6).
  assert (Hwf' : fb_wf (write_get get' fb')).
  { split; rewrite ?Hw1, ?Hw2, ?Hw3, ?Hw4, ?Hs2, ?Hs3, ?Hf1; try done. rewrite Hget. unfold ring_at.
    rewrite Hf1. apply Z.mod_pos_bound. lia. }
  assert (Hd : distance (write_get get' fb') (fb_get fb) = distance fb0 (fb_get fb0))
    by (unfold distance; congruence).
  assert (Hvr : (list_to_set (ring_at fb0 (fb_get fb0) <$> seqZ 0 n) : gset Z) =
                list_to_set (ring_at fb (fb_get fb) <$> seqZ 0 n)).
  { f_equal. apply list_fmap_ext. intros ? k _. apply Hring. }
  destruct (is_ok st) eqn:Hso; cbn [negb].
  2:{ eexists; split; [done|]. exists n. rewrite Hw1, Hw5, Hw6, Hd.
      split_and!; try done; try lia; try congruence; intros ->; done. }
  apply is_ok_true in Hso as ->. destruct (Hok eq_refl) as [Hgp Hnd].
  unfold push_replay_on_gpu. destruct (is_ok (fc_begin calls)) eqn:Hb; cbn [negb].
  - eexists; split; [done|]. exists n. rewrite Hw1, Hw3, Hw5, Hw6, Hd.
    split_and!; try done; try lia; try congruence. intros _. split_and!; try congruence.
    + intros. rewrite Hs2. auto.
    + intros ->. by destruct b.
  - eexists; split; [done|]. exists n. rewrite Hw1, Hw3, Hw5, Hw6, Hd.
    split_and!; try done; try lia; try congruence. intros Hx. by rewrite Hx in Hb.
Qed.

(** C40: Flushing the fault buffer terminates and skips entries from GET on, each
    once: their valid bits are cleared and, under confidential computing, the
    decryption IV advances by exactly their number; with status OK everything up
    to PUT was skipped and a replay of type START is counted. *)
Theorem fault_buffer_flush_correct cc hw calls flush_mode type fb b :
  fb_wf fb -> 0 <= hw_put hw < fb_max_faults fb ->
  exists st fb' b' n, fault_buffer_flush_locked cc hw calls flush_mode type fb b = Some (st, fb', b') /\
    fb_wf fb' /\ 0 <= n <= distance fb' (fb_get fb) /\ fb_get fb' = ring_at fb (fb_get fb) n /\
    fb_valid fb' = fb_valid fb ∖ list_to_set (ring_at fb (fb_get fb) <$> seqZ 0 n) /\
    fb_decrypt_iv fb' = fb_decrypt_iv fb + (if cc then n else 0) /\
    (st = NV_OK ->
       fb_get fb' = fb_put fb' /\ n = distance fb' (fb_get fb) /\
       (flush_mode <> UVM_GPU_BUFFER_FLUSH_MODE_CACHED_PUT -> fb_put fb' = hw_put hw) /\
       (type = UVM_FAULT_REPLAY_TYPE_START ->
        b' = (fun b => bc_set_replays (u32 (bc_num_replays b + 1)) b) <$> b)).
Proof.
  intros Hwf Hp.
  destruct (fault_buffer_flush_spec cc hw calls flush_mode type fb b Hwf Hp) as ([[st fb'] b'] & Heq & n & Hf).
  by exists st, fb', b', n.
Qed.
