(* ===== verification/FaultBatch.v ===== *)
(** Preprocessing a batch of faults ([uvm_gpu_replayable_faults.c]): the ordered
    view of the fault cache, the translation of instance pointers to VA spaces,
    and the two sorts.

    The kernel's [sort] and [uvm_parent_gpu_fault_entry_to_va_space] are
    external; the former is a class with its documented law. *)
From stdpp Require Import functions sorting.
From S2P Require Import Prelude Kernel VaBlock FaultBuffer.

(** [sort] of the Linux kernel: it permutes the array, and orders it by any
    comparator that is a total preorder. *)
Class KernelSort := {
  ksort : (nat -> nat -> Z) -> list nat -> list nat;
  ksort_perm cmp l : ksort cmp l ≡ₚ l;
  ksort_sorted cmp l :
    (forall a b, 0 < cmp a b -> cmp b a < 0) ->
    (forall a b c, cmp a b <= 0 -> cmp b c <= 0 -> cmp a c <= 0) ->
    StronglySorted (fun a b => cmp a b <= 0) (ksort cmp l);
}.

Definition fault_entry_zero : fault_entry :=
  mk_fault_entry (mk_fault_packet 0 0 0 0 0 0) false None true 0 ∅ UVM_FAULT_CANCEL_VA_MODE_ALL false false.

(** [&batch_context->fault_cache[i]]. *)
Definition entry_at (b : batch) (i : nat) : fault_entry := default fault_entry_zero (bc_cache b !! i).
Definition set_entry (i : nat) (f : fault_entry -> fault_entry) (b : batch) : batch :=
  bc_set_cache (alter f i (bc_cache b)) b.

(** Pointers to VA spaces compare as the ids do. *)
Definition cmp_va_space (a b : option Z) : Z := UVM_CMP_DEFAULT (default 0 a) (default 0 b).
Definition cmp_addr (a b : Z) : Z := UVM_CMP_DEFAULT a b.
(** The more intrusive access first; both are access types, which the code
    asserts and [answers_ok] gives. *)
Definition cmp_access_type (a b : Z) : Z := b - a.

Definition cmp_sort_fault_entry_by_instance_ptr (b : batch) (i j : nat) : Z :=
  cmp_fault_instance_ptr (entry_at b i) (entry_at b j).

Definition cmp_sort_fault_entry_by_va_space_address_access_type (b : batch) (i j : nat) : Z :=
  let x := entry_at b i in
  let y := entry_at b j in
  let result := cmp_va_space (fe_va_space x) (fe_va_space y) in
  if negb (result =? 0) then result
  else
    let result := cmp_addr (fe_address x) (fe_address y) in
    if negb (result =? 0) then result
    else cmp_access_type (fe_access x) (fe_access y).

(** The external calls of the translation. *)
Record translate_calls := mk_translate_calls {
  tc_to_va_space : fault_entry -> nv_status * option Z;   (* uvm_parent_gpu_fault_entry_to_va_space *)
  tc_cancel      : nv_status;                             (* push_cancel_on_gpu_targeted or _global *)
  tc_cc          : bool;
  tc_hw          : fault_hw;
  tc_flush       : flush_calls;
}.

Section Preprocess.
Context (calls : translate_calls).

(** The fault of a gone channel or subcontext: cancel it if the subcontext was
    torn down, then flush the buffer. *)
Definition translate_failed (status : nv_status) (fb : fault_buffer) (b : batch)
    : option (nv_status * fault_buffer * batch) :=
  let not_avail := bool_decide (status = NV_ERR_PAGE_TABLE_NOT_AVAIL) in
  let b := bc_assert (not_avail || bool_decide (status = NV_ERR_INVALID_CHANNEL)) b in
  if not_avail && negb (is_ok (tc_cancel calls)) then Some (tc_cancel calls, fb, b)
  else
    match fault_buffer_flush_locked (tc_cc calls) (tc_hw calls) (tc_flush calls)
            UVM_GPU_BUFFER_FLUSH_MODE_UPDATE_PUT UVM_FAULT_REPLAY_TYPE_START fb (Some b) with
    | Some (status, fb, b') =>
        Some (if is_ok status then NV_WARN_MORE_PROCESSING_REQUIRED else status, fb, default b b')
    | None => None
    end.

(** The VA space already found for the entry before, if it has the same instance
    pointer. *)
Definition copied_va_space (prev : option nat) (i : nat) (b : batch) : option (option Z) :=
  match prev with
  | Some p => if cmp_fault_instance_ptr (entry_at b i) (entry_at b p) =? 0
              then Some (fe_va_space (entry_at b p)) else None
  | None => None
  end.

(** The loop over the ordered view, [prev] being the entry before [l]. *)
Fixpoint translate_loop (prev : option nat) (l : list nat) (fb : fault_buffer) (b : batch)
    : option (nv_status * fault_buffer * batch) :=
  match l with
  | [] => Some (NV_OK, fb, b)
  | i :: l' =>
      match copied_va_space prev i b with
      | Some vs => translate_loop (Some i) l' fb (set_entry i (fe_set_va_space vs) b)
      | None =>
          let '(status, vs) := tc_to_va_space calls (entry_at b i) in
          let b := set_entry i (fe_set_va_space vs) b in
          if is_ok status
          then translate_loop (Some i) l' fb (bc_assert (bool_decide (is_Some vs)) b)
          else translate_failed status fb b
      end
  end.

Definition translate_instance_ptrs (fb : fault_buffer) (b : batch) : option (nv_status * fault_buffer * batch) :=
  translate_loop None (bc_ordered b) fb b.

Context `{KernelSort}.

Definition preprocess_fault_batch (fb : fault_buffer) (b : batch) : option (nv_status * fault_buffer * batch) :=
  let b := bc_assert ((0 <? bc_num_coalesced b) && (bc_num_coalesced b <=? Z.of_nat (length (bc_cache b)))) b in
  let ordered := List.filter (fun i => unfiltered (entry_at b i)) (seq 0 (length (bc_cache b))) in
  let b := bc_assert (Z.of_nat (length ordered) =? bc_num_coalesced b) b in
  let ordered := if bc_single b then ordered else ksort (cmp_sort_fault_entry_by_instance_ptr b) ordered in
  match translate_instance_ptrs fb (bc_set_ordered ordered b) with
  | Some (NV_OK, fb, b) =>
      Some (NV_OK, fb,
            bc_set_ordered (ksort (cmp_sort_fault_entry_by_va_space_address_access_type b) (bc_ordered b)) b)
  | r => r
  end.
End Preprocess.

(** ** Correctness *)

#[export] Instance ksort_elem `{KernelSort} cmp : Proper (Permutation ==> Permutation) (ksort cmp).
Proof. intros l k Hl. by rewrite !ksort_perm. Qed.

(** The order of the second sort. *)
Definition fault_le (x y : fault_entry) : Prop :=
  default 0 (fe_va_space x) < default 0 (fe_va_space y) \/
  default 0 (fe_va_space x) = default 0 (fe_va_space y) /\
  (fe_address x < fe_address y \/ fe_address x = fe_address y /\ fe_access y <= fe_access x).

Lemma UVM_CMP_DEFAULT_cases a b :
  (a < b /\ UVM_CMP_DEFAULT a b = -1) \/ (a = b /\ UVM_CMP_DEFAULT a b = 0) \/ (b < a /\ UVM_CMP_DEFAULT a b = 1).
Proof. unfold UVM_CMP_DEFAULT. cases; btest. Qed.

Lemma cmp_sort_le b i j :
  cmp_sort_fault_entry_by_va_space_address_access_type b i j <= 0 <-> fault_le (entry_at b i) (entry_at b j).
Proof.
  unfold cmp_sort_fault_entry_by_va_space_address_access_type, fault_le, cmp_va_space, cmp_addr, cmp_access_type.
  destruct (UVM_CMP_DEFAULT_cases (default 0 (fe_va_space (entry_at b i))) (default 0 (fe_va_space (entry_at b j))))
    as [[? ->]|[[? ->]|[? ->]]]; cbn; [lia| |lia].
  destruct (UVM_CMP_DEFAULT_cases (fe_address (entry_at b i)) (fe_address (entry_at b j)))
    as [[? ->]|[[? ->]|[? ->]]]; cbn; lia.
Qed.

Lemma UVM_CMP_DEFAULT_opp a b : UVM_CMP_DEFAULT b a = - UVM_CMP_DEFAULT a b.
Proof.
  destruct (UVM_CMP_DEFAULT_cases a b) as [[? ->]|[[? ->]|[? ->]]],
    (UVM_CMP_DEFAULT_cases b a) as [[? ->]|[[? ->]|[? ->]]]; lia.
Qed.

Lemma cmp_sort_opp b i j :
  cmp_sort_fault_entry_by_va_space_address_access_type b j i =
  - cmp_sort_fault_entry_by_va_space_address_access_type b i j.
Proof.
  assert (Hneg : (- 0 =? 0) = true /\ (- (-1) =? 0) = false /\ (- (1) =? 0) = false) by done.
  destruct Hneg as (H1 & H2 & H3).
  unfold cmp_sort_fault_entry_by_va_space_address_access_type, cmp_va_space, cmp_addr, cmp_access_type.
  rewrite (UVM_CMP_DEFAULT_opp (default 0 (fe_va_space (entry_at b i)))), (UVM_CMP_DEFAULT_opp (fe_address (entry_at b i))).
  destruct (UVM_CMP_DEFAULT_cases (default 0 (fe_va_space (entry_at b i))) (default 0 (fe_va_space (entry_at b j))))
    as [[_ ->]|[[_ ->]|[_ ->]]]; rewrite ?H1, ?H2, ?H3; cbn; [done| |done].
  destruct (UVM_CMP_DEFAULT_cases (fe_address (entry_at b i)) (fe_address (entry_at b j)))
    as [[_ ->]|[[_ ->]|[_ ->]]]; rewrite ?H1, ?H2, ?H3; cbn; lia.
Qed.

Lemma StronglySorted_mono {A} (R S : A -> A -> Prop) (l : list A) :
  (forall x y, R x y -> S x y) -> StronglySorted R l -> StronglySorted S l.
Proof.
  intros HRS. induction 1 as [|x l Hl IH Hx]; constructor; [done|]. eapply Forall_impl; [done|]. auto.
Qed.

Lemma cmp_sort_sorted `{KernelSort} b l :
  StronglySorted (fun i j => fault_le (entry_at b i) (entry_at b j))
    (ksort (cmp_sort_fault_entry_by_va_space_address_access_type b) l).
Proof.
  eapply StronglySorted_mono; [|apply ksort_sorted]; cbv beta.
  - intros i j. apply cmp_sort_le.
  - intros i j. rewrite (cmp_sort_opp b i j). lia.
  - intros i j k. rewrite !cmp_sort_le. unfold fault_le. lia.
Qed.

Lemma bc_assert_true b : bc_bug b = false -> bc_assert true b = b.
Proof. intros Hb. unfold bc_assert. cbn. rewrite orb_false_r. by destruct b. Qed.

Section Translate.
Context (calls : translate_calls).
(** Two faults of one channel and subcontext are in one VA space, and a
    successful translation yields one. *)
Context (Hvs : forall e e', same_instance e e' -> tc_to_va_space calls e = tc_to_va_space calls e').
Context (Hsome : forall e, fst (tc_to_va_space calls e) = NV_OK -> is_Some (snd (tc_to_va_space calls e))).

(** The entry with its VA space filled in. *)
Definition translated (e : fault_entry) : fault_entry := fe_set_va_space (snd (tc_to_va_space calls e)) e.

Lemma translated_instance e : same_instance (translated e) e.
Proof. done. Qed.

Lemma entry_at_lookup b i e : bc_cache b !! i = Some e -> entry_at b i = e.
Proof. unfold entry_at. by intros ->. Qed.

Lemma set_entry_lookup b i f k :
  bc_cache (set_entry i f b) !! k = (if decide (k = i) then f <$> bc_cache b !! k else bc_cache b !! k).
Proof.
  unfold set_entry. cbn. case_decide as Hk; [subst; by rewrite list_lookup_alter_eq|by rewrite list_lookup_alter_ne].
Qed.

(** The batch after the entries of [l] were translated. *)
Definition translates (l : list nat) (b b' : batch) : Prop :=
  b' = bc_set_cache (bc_cache b') b /\
  (forall k, bc_cache b' !! k = (if decide (k ∈ l) then translated <$> bc_cache b !! k else bc_cache b !! k)) /\
  (forall i e, i ∈ l -> bc_cache b !! i = Some e -> fst (tc_to_va_space calls e) = NV_OK).

Lemma translates_cons i l b b1 b2 :
  i ∉ l -> translates [i] b b1 -> translates l b1 b2 -> translates (i :: l) b b2.
Proof.
  intros Hi (E1 & L1 & O1) (E2 & L2 & O2). split; [rewrite E2, E1; done|]. split.
  - intros k. rewrite L2, L1. destruct (decide (k = i)) as [->|Hk].
    + rewrite decide_False, !decide_True by (done || left). done.
    + rewrite (decide_False (P := k ∈ [i])) by by intros ?%list_elem_of_singleton.
      destruct (decide (k ∈ l)); [by rewrite decide_True by (by right)|].
      by rewrite decide_False by (by intros [?|?]%elem_of_cons).
  - intros k e [->|Hk]%elem_of_cons He; [apply (O1 i); [left|done]|]. apply (O2 k); [done|].
    rewrite L1, decide_False; [done|]. intros ->%list_elem_of_singleton. done.
Qed.

Lemma translates_one i b e vs :
  bc_bug b = false -> bc_cache b !! i = Some e -> tc_to_va_space calls e = (NV_OK, vs) ->
  translates [i] b (set_entry i (fe_set_va_space vs) b).
Proof.
  intros Hb Hi He. split; [done|]. split.
  - intros k. rewrite set_entry_lookup. destruct (decide (k = i)) as [->|Hk].
    + rewrite decide_True by left. rewrite Hi. cbn. unfold translated. by rewrite He.
    + rewrite decide_False; [done|]. by intros ?%list_elem_of_singleton.
  - intros k e' ->%list_elem_of_singleton Hk. rewrite Hi in Hk. injection Hk as <-. by rewrite He.
Qed.

Lemma translate_loop_ok prev l fb b fb' b' :
  NoDup l -> bc_bug b = false -> (forall i, i ∈ l -> is_Some (bc_cache b !! i)) ->
  (forall p, prev = Some p -> exists e, p ∉ l /\ bc_cache b !! p = Some e /\
     tc_to_va_space calls e = (NV_OK, fe_va_space e)) ->
  translate_loop calls prev l fb b = Some (NV_OK, fb', b') -> fb' = fb /\ translates l b b'.
Proof.
  revert prev b. induction l as [|i l IH]; intros prev b Hnd Hb Hin Hprev; cbn [translate_loop].
  { intros [= <- <-]. split; [done|]. split; [by destruct b|]. split; [done|]. intros i e Hi. by apply elem_of_nil in Hi. }
  apply NoDup_cons in Hnd as [Hil Hnd]. destruct (Hin i ltac:(left)) as [e He].
  rewrite (entry_at_lookup _ _ _ He).
  assert (Hstep : forall vs, tc_to_va_space calls e = (NV_OK, vs) ->
    translate_loop calls (Some i) l fb (set_entry i (fe_set_va_space vs) b) = Some (NV_OK, fb', b') ->
    fb' = fb /\ translates (i :: l) b b').
  { intros vs Hte Hrun. apply IH in Hrun as [-> Ht]; [|done|done| |].
    - split; [done|]. eapply translates_cons; [done|by eapply translates_one|done].
    - intros k Hk. rewrite set_entry_lookup. destruct (Hin k ltac:(by right)) as [x Hx].
      rewrite Hx. case_decide; cbn; eauto.
    - intros p [= <-]. exists (fe_set_va_space vs e). split; [done|].
      rewrite set_entry_lookup, decide_True, He by done. split; [done|].
      by rewrite (Hvs (fe_set_va_space vs e) e). }
  destruct (copied_va_space prev i b) as [vs|] eqn:Hc.
  - unfold copied_va_space in Hc. destruct prev as [p|]; [|done].
    destruct (Hprev p eq_refl) as (x & _ & Hx & Htx). rewrite (entry_at_lookup _ _ _ He), (entry_at_lookup _ _ _ Hx) in Hc.
    destruct (_ =? 0) eqn:Hcmp; [|done]. injection Hc as <-. apply Hstep. btest.
    rewrite cmp_fault_instance_ptr_0 in Hcmp. by rewrite (Hvs e x).
  - destruct (tc_to_va_space calls e) as [st vs] eqn:Hte. destruct (is_ok st) eqn:Hok.
    + apply is_ok_true in Hok as ->. pose proof (Hsome e) as Hs. rewrite Hte in Hs. cbn in Hs.
      rewrite bool_decide_eq_true_2 by by apply Hs. unfold bc_assert. cbn. rewrite orb_false_r. by apply Hstep.
    + unfold translate_failed. cbn zeta. destruct (_ && _) eqn:Hn.
      * intros [= Hbad _ _]. apply andb_prop in Hn as [_ Hn]. btest. rewrite Hbad in Hn. done.
      * destruct (fault_buffer_flush_locked _ _ _ _ _ _ _) as [[[st' fb2] b2]|]; [|done].
        destruct (is_ok st') eqn:Hst; [done|]. intros [= Hbad _ _]. by rewrite Hbad in Hst.
Qed.

(** The loop returns: a flush always does. *)
Lemma translate_loop_total prev l fb b :
  fb_wf fb -> 0 <= hw_put (tc_hw calls) < fb_max_faults fb ->
  exists st fb' b', translate_loop calls prev l fb b = Some (st, fb', b') /\ fb_wf fb'.
Proof.
  intros Hwf Hp. revert prev b. induction l as [|i l IH]; intros prev b; cbn [translate_loop]; [by eauto|].
  destruct (copied_va_space prev i b) as [vs|]; [apply IH|].
  destruct (tc_to_va_space calls (entry_at b i)) as [st vs]. destruct (is_ok st); [apply IH|].
  unfold translate_failed. cbn zeta. destruct (_ && _); [by eauto|].
  match goal with |- context [fault_buffer_flush_locked ?a ?b ?c ?d ?e ?f ?g] =>
    destruct (fault_buffer_flush_spec a b c d e f g Hwf Hp) as ([[st' fb'] b'] & -> & n & Hwf' & _) end.
  eauto.
Qed.

(** The places of the representatives. *)
Definition representatives (b : batch) : list nat :=
  List.filter (fun i => unfiltered (entry_at b i)) (seq 0 (length (bc_cache b))).

Lemma elem_of_representatives b i :
  i ∈ representatives b <-> exists e, bc_cache b !! i = Some e /\ unfiltered e = true.
Proof.
  unfold representatives. rewrite list_elem_of_In, List.filter_In, <- list_elem_of_In, elem_of_seq. split.
  - intros [Hi Hu]. destruct (bc_cache b !! i) as [e|] eqn:He; [|apply lookup_ge_None in He; lia].
    exists e. by rewrite (entry_at_lookup _ _ _ He) in Hu.
  - intros (e & He & Hu). rewrite (entry_at_lookup _ _ _ He). split; [|done].
    apply lookup_lt_Some in He. lia.
Qed.

Lemma length_representatives b : Z.of_nat (length (representatives b)) = countb unfiltered (bc_cache b).
Proof.
  unfold representatives, countb, entry_at. induction (bc_cache b) as [|e c IH] using rev_ind; [done|].
  rewrite length_app, Nat.add_1_r, seq_S, !List.filter_app, !length_app. cbn [List.filter].
  rewrite lookup_app_r, Nat.sub_diag by lia. cbn.
  rewrite (filter_ext_in _ (fun i => unfiltered (default fault_entry_zero (c !! i)))).
  { destruct (unfiltered e); cbn; lia. }
  intros i Hi%in_seq. by rewrite lookup_app_l by lia.
Qed.

Lemma NoDup_representatives b : NoDup (representatives b).
Proof. apply NoDup_ListNoDup, List.NoDup_filter, NoDup_ListNoDup, NoDup_seq. Qed.

Context `{KernelSort}.

(** A preprocessed batch: the view holds the representatives in order, with
    their VA spaces filled in. *)
Record preprocessed (b b' : batch) : Prop := {
  pp_bug     : bc_bug b' = false;
  pp_ordered : bc_ordered b' ≡ₚ representatives b;
  pp_sorted  : StronglySorted (fun i j => fault_le (entry_at b' i) (entry_at b' j)) (bc_ordered b');
  pp_entries : forall i e, bc_cache b !! i = Some e ->
                 bc_cache b' !! i = Some (if unfiltered e then translated e else e);
  pp_length  : length (bc_cache b') = length (bc_cache b);
  pp_cover   : forall e, e ∈ bc_cache b -> exists i r, i ∈ bc_ordered b' /\ bc_cache b' !! i = Some r /\
                 covers r e /\ tc_to_va_space calls e = (NV_OK, fe_va_space r);
}.

Lemma preprocess_fault_batch_spec fb b :
  fb_wf fb -> 0 <= hw_put (tc_hw calls) < fb_max_faults fb -> fetch_inv b -> bc_cache b <> [] ->
  exists st fb' b', preprocess_fault_batch calls fb b = Some (st, fb', b') /\
    (st = NV_OK -> fb' = fb /\ preprocessed b b').
Proof using All.
  intros Hwf Hp Hi Hne. unfold preprocess_fault_batch.
  assert (Hbug : bc_bug b = false) by apply Hi.
  assert (Hpos : 0 < bc_num_coalesced b <= Z.of_nat (length (bc_cache b))).
  { rewrite (fi_count _ Hi). pose proof (countb_bounds unfiltered (bc_cache b)). split; [|lia].
    apply countb_pos. destruct (bc_cache b) as [|e c] eqn:Hc; [done|].
    destruct (fi_rep _ Hi e) as (r & Hr & Hu & _); [rewrite Hc; left|]. exists r. by rewrite <- Hc. }
  rewrite (proj2 (Z.ltb_lt _ _)), (proj2 (Z.leb_le _ _)) by lia. cbn [andb]. rewrite (bc_assert_true b Hbug).
  fold (representatives b). rewrite length_representatives, (fi_count _ Hi), Z.eqb_refl, (bc_assert_true b Hbug).
  set (l := if bc_single b then _ else _).
  assert (Hl : l ≡ₚ representatives b) by (unfold l; destruct (bc_single b); [done|apply ksort_perm]).
  clearbody l. unfold translate_instance_ptrs. cbn [bc_ordered bc_set_ordered].
  destruct (translate_loop_total None l fb (bc_set_ordered l b) Hwf Hp) as (st & fb1 & b1 & Heq & Hwf1).
  rewrite Heq. destruct (decide (st = NV_OK)) as [->|Hst].
  2:{ exists st, fb1, b1. split; [by destruct st|done]. }
  eexists NV_OK, _, _. split; [done|]. intros _.
  apply translate_loop_ok in Heq as (-> & Hb1 & Hlk & Hok).
  2:{ rewrite Hl. apply NoDup_representatives. } 2:{ done. }
  2:{ intros i Hil. rewrite Hl, elem_of_representatives in Hil. destruct Hil as (e & He & _). by exists e. } 2:{ done. }
  assert (Ho : bc_ordered b1 = l) by by rewrite Hb1.
  assert (Hlook : forall i e, bc_cache b !! i = Some e -> bc_cache b1 !! i = Some (if unfiltered e then translated e else e)).
  { intros i e He. rewrite Hlk. cbn [bc_cache bc_set_ordered]. rewrite He.
    destruct (unfiltered e) eqn:Hu.
    - rewrite decide_True; [done|]. rewrite Hl. apply elem_of_representatives. by exists e.
    - rewrite decide_False; [done|]. rewrite Hl. intros (e' & He' & Hu')%elem_of_representatives. congruence. }
  split; [done|]. split; cbn [bc_bug bc_ordered bc_cache bc_set_ordered]; rewrite ?Ho.
  { by rewrite Hb1. } { by rewrite ksort_perm. } { by eapply StronglySorted_mono; [|apply (cmp_sort_sorted b1)]. } { done. }
  { apply length_lookup. intros k. rewrite Hlk. case_decide; [|done]. by rewrite fmap_is_Some. }
  intros e He. destruct (fi_rep _ Hi e He) as (r & Hr & Hu & Hcov).
  apply list_elem_of_lookup_1 in Hr as [i Hir].
  assert (Hil : i ∈ l) by (rewrite Hl; apply elem_of_representatives; by exists r).
  exists i, (translated r). split; [by rewrite ksort_perm|].
  split; [pose proof (Hlook _ _ Hir) as Hlr; by rewrite Hu in Hlr|]. split; [done|].
  rewrite (Hvs e r) by apply Hcov. specialize (Hok i r Hil Hir). unfold translated. cbn.
  by destruct (tc_to_va_space calls r); cbn in *; subst.
Qed.

(** C39: Preprocessing a fetched batch terminates; with status OK no assertion
    failed, the ordered view holds each representative once, sorted by VA space,
    address and decreasing access, the other entries are unchanged, and every
    cached fault has a representative in the view that covers it and carries the
    VA space of its own instance. *)
Theorem preprocess_fault_batch_correct fb b :
  fb_wf fb -> 0 <= hw_put (tc_hw calls) < fb_max_faults fb -> fetch_inv b -> bc_cache b <> [] ->
  exists st fb' b', preprocess_fault_batch calls fb b = Some (st, fb', b') /\
    (st = NV_OK ->
       fb' = fb /\ bc_bug b' = false /\
       bc_ordered b' ≡ₚ representatives b /\
       StronglySorted (fun i j => fault_le (entry_at b' i) (entry_at b' j)) (bc_ordered b') /\
       (forall i e, bc_cache b !! i = Some e ->
          bc_cache b' !! i = Some (if unfiltered e then translated e else e)) /\
       forall e, e ∈ bc_cache b -> exists i r, i ∈ bc_ordered b' /\ bc_cache b' !! i = Some r /\ covers r e /\
         tc_to_va_space calls e = (NV_OK, fe_va_space r)).
Proof using All.
  intros Hwf Hp Hi Hne. destruct (preprocess_fault_batch_spec fb b Hwf Hp Hi Hne) as (st & fb' & b' & Heq & Hok).
  exists st, fb', b'. split; [done|]. intros Hst. destruct (Hok Hst) as [-> []]. done.
Qed.
End Translate.
