(* ===== verification/FaultService.v ===== *)
(** Servicing the faults of one VA block ([service_fault_batch_block] of
    [uvm_gpu_replayable_faults.c], and from [uvm_va_block.c] the permission
    check, the choice of the new residency and [uvm_va_block_service_locked]).

    What is external or not modelled is in [fault_cfg]: the VA space, range and
    policy as these functions read them, the range-group, thrashing and prefetch
    heuristics, and in the parameter [service_copy], which stands for
    [uvm_va_block_service_copy] with the residency update after it:
    [MigrationService.service_move] is the code's, and keeps what is asked of
    it here.  The block is not an HMM block. *)
From stdpp Require Import functions sorting.
From S2P Require Import Prelude Kernel VaBlock Permissions Tracking Accessors Service FaultBuffer FaultBatch.

Inductive thrashing_hint :=
| UVM_PERF_THRASHING_HINT_TYPE_NONE
| UVM_PERF_THRASHING_HINT_TYPE_PIN (residency : Z)
| UVM_PERF_THRASHING_HINT_TYPE_THROTTLE.

#[export] Instance thrashing_hint_eq_dec : EqDecision thrashing_hint.
Proof. solve_decision. Defined.

Record fault_cfg := mk_fault_cfg {
  ft_service         : service_cfg;
  ft_va_space        : Z;                 (* the VA space of the block *)
  ft_check_vma       : bool;              (* uvm_enable_builtin_tests *)
  ft_migratable      : Z -> bool;         (* the migratability iterator, at an address *)
  ft_remote_atomics  : bool;              (* uvm_perf_map_remote_on_native_atomics_fault *)
  ft_remote_mm       : bool;              (* va_block_context->mm != current->mm *)
  ft_thrashing       : Z -> thrashing_hint;          (* uvm_perf_thrashing_get_hint *)
  ft_prefetch        : Z -> gset Z -> region -> option (gset Z);
    (* uvm_perf_prefetch_get_hint_va_block: the pages, or an invalid residency *)
  ft_cancel          : nv_status;         (* uvm_va_block_set_cancel *)
}.

Definition ft_perm (cfg : fault_cfg) : perm_cfg := sv_perm (ft_service cfg).
Definition ft_accessed_by (cfg : fault_cfg) : gset Z := sv_accessed_by (ft_service cfg).
Definition ft_accessible_from (cfg : fault_cfg) : Z -> gset Z := sv_accessible_from (ft_service cfg).

(** [uvm_service_block_context_t], the part fault servicing uses. *)
Record block_ctx := mk_block_ctx {
  bk_retries     : Z;               (* num_retries *)
  bk_region      : region;
  bk_resident    : gset Z;          (* resident_processors *)
  bk_residency   : Z -> gset Z;     (* per_processor_masks[id].new_residency *)
  bk_access      : Z -> Z;          (* access_type[page] *)
  bk_pin_count   : Z;
  bk_pin_mask    : gset Z;
  bk_dup_count   : Z;               (* read_duplicate_count *)
  bk_dup_mask    : gset Z;
  bk_ro          : prot_mapping;    (* mappings_by_prot[] *)
  bk_rw          : prot_mapping;
  bk_rwa         : prot_mapping;
}.

Definition bk_set_retries (n : Z) (k : block_ctx) : block_ctx :=
  mk_block_ctx n (bk_region k) (bk_resident k) (bk_residency k) (bk_access k) (bk_pin_count k)
    (bk_pin_mask k) (bk_dup_count k) (bk_dup_mask k) (bk_ro k) (bk_rw k) (bk_rwa k).
Definition bk_set_region (r : region) (k : block_ctx) : block_ctx :=
  mk_block_ctx (bk_retries k) r (bk_resident k) (bk_residency k) (bk_access k) (bk_pin_count k)
    (bk_pin_mask k) (bk_dup_count k) (bk_dup_mask k) (bk_ro k) (bk_rw k) (bk_rwa k).
Definition bk_set_residency (m : gset Z) (res : Z -> gset Z) (k : block_ctx) : block_ctx :=
  mk_block_ctx (bk_retries k) (bk_region k) m res (bk_access k) (bk_pin_count k)
    (bk_pin_mask k) (bk_dup_count k) (bk_dup_mask k) (bk_ro k) (bk_rw k) (bk_rwa k).
Definition bk_set_access (a : Z -> Z) (k : block_ctx) : block_ctx :=
  mk_block_ctx (bk_retries k) (bk_region k) (bk_resident k) (bk_residency k) a (bk_pin_count k)
    (bk_pin_mask k) (bk_dup_count k) (bk_dup_mask k) (bk_ro k) (bk_rw k) (bk_rwa k).
Definition bk_set_pins (n : Z) (m : gset Z) (k : block_ctx) : block_ctx :=
  mk_block_ctx (bk_retries k) (bk_region k) (bk_resident k) (bk_residency k) (bk_access k) n
    m (bk_dup_count k) (bk_dup_mask k) (bk_ro k) (bk_rw k) (bk_rwa k).
Definition bk_set_dups (n : Z) (m : gset Z) (k : block_ctx) : block_ctx :=
  mk_block_ctx (bk_retries k) (bk_region k) (bk_resident k) (bk_residency k) (bk_access k) (bk_pin_count k)
    (bk_pin_mask k) n m (bk_ro k) (bk_rw k) (bk_rwa k).

(** ** Permission checks *)

Section Codes.
Context `{FaultCodes}.

Definition uvm_va_block_check_logical_permissions (cfg : fault_cfg) (processor_id access_type : Z)
    (allow_migration : bool) : nv_status :=
  let sv := ft_service cfg in
  let access_prot := sv_access_prot sv access_type in
  if UVM_ID_IS_GPU processor_id && sv_zombie sv then NV_ERR_INVALID_ADDRESS
  else if UVM_ID_IS_GPU processor_id && ft_check_vma cfg &&
          (prot_rank (compute_logical_prot sv) <? prot_rank access_prot)
  then NV_ERR_INVALID_ACCESS_TYPE
  else if negb allow_migration then
    if processor_id =? UVM_ID_CPU then NV_ERR_INVALID_OPERATION
    else match pc_preferred (ft_perm cfg) with
         | Some preferred_location =>
             if bool_decide (processor_id ∈ ft_accessible_from cfg preferred_location) then NV_OK
             else NV_ERR_INVALID_ACCESS_TYPE
         | None => NV_ERR_INVALID_ACCESS_TYPE   (* a non-migratable range has a preferred location *)
         end
  else NV_OK.

Definition block_is_gpu_authorized_on_whole_region (b : va_block) (r : region) (gpu_id : Z)
    (required_prot : uvm_prot) : bool :=
  match uvm_va_block_gpu_state_get b gpu_id with
  | Some gs => bool_decide (region_mask r ⊆ gpu_pte_bits gs required_prot)
  | None => false
  end.

Definition uvm_va_block_page_is_gpu_authorized (b : va_block) (page_index gpu_id : Z)
    (required_prot : uvm_prot) : bool :=
  block_is_gpu_authorized_on_whole_region b (mk_region page_index (page_index + 1)) gpu_id required_prot.

(** ** Marks on a fault *)

Definition mark_fault_invalid_prefetch (i : nat) (b : batch) : batch :=
  let b := set_entry i (fun e => fe_set_flags (fe_throttled e) true e) b in
  bc_set_marks (bc_fatal_space b) (bc_has_throttled b)
    (u32 (bc_num_prefetch b + fe_num_instances (entry_at b i))) (bc_num_duplicate b) b.

Definition mark_fault_throttled (i : nat) (b : batch) : batch :=
  let b := set_entry i (fun e => fe_set_flags true (fe_prefetch e) e) b in
  bc_set_marks (bc_fatal_space b) true (bc_num_prefetch b) (bc_num_duplicate b) b.

Definition mark_fault_fatal (i : nat) (mode : uvm_fault_cancel_va_mode) (b : batch) : batch :=
  let e := entry_at b i in
  let b := set_entry i (fe_set_fatal mode) b in
  let u := bc_utlbs b (fe_utlb e) in
  let b := bc_set_utlbs (<[fe_utlb e := mk_utlb_info (ut_pending u) true (ut_last u)]> (bc_utlbs b))
             (bc_max_utlb b) b in
  match bc_fatal_space b with
  | Some _ => b
  | None => bc_set_marks (fe_va_space e) (bc_has_throttled b) (bc_num_prefetch b) (bc_num_duplicate b)
              (bc_assert (bool_decide (is_Some (fe_va_space e))) b)
  end.

Definition check_fault_entry_duplicate (cur prev : fault_entry) : bool :=
  bool_decide (fe_va_space cur = fe_va_space prev) && (fe_address cur =? fe_address prev).

Definition update_batch_and_notify_fault (i : nat) (is_duplicate : bool) (b : batch) : batch :=
  let n := fe_num_instances (entry_at b i) in
  bc_set_marks (bc_fatal_space b) (bc_has_throttled b) (bc_num_prefetch b)
    (u32 (bc_num_duplicate b + (if is_duplicate then n else n - 1))) b.

Definition fault_entry_duplicate_flags (i prev : nat) (b : batch) : batch :=
  let b := if fe_prefetch (entry_at b prev) then mark_fault_invalid_prefetch i b else b in
  if fe_throttled (entry_at b prev) then mark_fault_throttled i b else b.

(** The highest access type of the entry that can be serviced,
    [UVM_FAULT_ACCESS_TYPE_COUNT] when none can. *)
Definition check_fault_access_permissions (cfg : fault_cfg) (gpu_id num_retries : Z) (i : nat)
    (allow_migration : bool) (b : batch) : Z * batch :=
  let e := entry_at b i in
  let check access := is_ok (uvm_va_block_check_logical_permissions cfg gpu_id access allow_migration) in
  if check (fe_access e) then (fe_access e, b)
  else if fe_access e =? UVM_FAULT_ACCESS_TYPE_PREFETCH
  then (UVM_FAULT_ACCESS_TYPE_COUNT, if num_retries =? 0 then mark_fault_invalid_prefetch i b else b)
  else
    let '(ret, cancel_va_mode) :=
      if UVM_FAULT_ACCESS_TYPE_READ <? fe_access e then
        if bool_decide (UVM_FAULT_ACCESS_TYPE_READ ∈ fe_access_mask e) then
          if check UVM_FAULT_ACCESS_TYPE_READ
          then (UVM_FAULT_ACCESS_TYPE_READ, UVM_FAULT_CANCEL_VA_MODE_WRITE_AND_ATOMIC)
          else (UVM_FAULT_ACCESS_TYPE_COUNT, UVM_FAULT_CANCEL_VA_MODE_ALL)
        else (UVM_FAULT_ACCESS_TYPE_COUNT, UVM_FAULT_CANCEL_VA_MODE_WRITE_AND_ATOMIC)
      else (UVM_FAULT_ACCESS_TYPE_COUNT, UVM_FAULT_CANCEL_VA_MODE_ALL) in
    (ret, mark_fault_fatal i cancel_va_mode b).

(** ** The new residency *)

(** [uvm_fault_access_type_mask_highest] and [_lowest]. *)
Definition access_type_mask_highest (m : gset Z) : Z := foldr Z.max (-1) (elements m).
Definition access_type_mask_lowest (m : gset Z) : Z := foldr Z.min UVM_FAULT_ACCESS_TYPE_COUNT (elements m).

Definition can_read_duplicate (cfg : fault_cfg) (page_index : Z) (hint : thrashing_hint) : bool :=
  if pc_read_dup (ft_perm cfg) then true
  else negb (bool_decide (sv_read_dup (ft_service cfg) = UVM_READ_DUPLICATION_DISABLED)) &&
       bool_decide (page_index ∈ sv_dup_pages (ft_service cfg)) &&
       match hint with UVM_PERF_THRASHING_HINT_TYPE_PIN _ => false | _ => true end.

Definition map_remote_on_atomic_fault (cfg : fault_cfg) (access_type_mask : gset Z)
    (processor_id residency : Z) : bool :=
  if negb (ft_remote_atomics cfg) then false
  else if access_type_mask_lowest access_type_mask <? UVM_FAULT_ACCESS_TYPE_ATOMIC_WEAK then false
  else if processor_id =? UVM_ID_CPU then false
  else if residency =? UVM_ID_CPU then false
  else bool_decide (processor_id ∈ sv_native_atomics (ft_service cfg) residency).

Context `{E : Env}.

Definition uvm_va_block_page_get_closest_resident (b : va_block) (page_index processor : Z) : option Z :=
  head (filter (fun id => page_index ∈ uvm_va_block_resident_mask_get b id)
          (env_closest processor (vb_resident b))).

(** The processor and [*read_duplicate]; managed blocks only, so that
    [hmm_migratable] plays no part and no block must use sysmem. *)
Definition block_select_processor_residency (cfg : fault_cfg) (b : va_block) (page_index processor_id : Z)
    (access_type_mask : gset Z) (hint : thrashing_hint) : Z * bool :=
  let preferred := pc_preferred (ft_perm cfg) in
  let accessible from := bool_decide (processor_id ∈ ft_accessible_from cfg from) in
  if pc_force_sysmem (ft_perm cfg) then (UVM_ID_CPU, false)
  else
    let may_read_duplicate := can_read_duplicate cfg page_index hint in
    if may_read_duplicate && (access_type_mask_highest access_type_mask <=? UVM_FAULT_ACCESS_TYPE_READ)
    then (processor_id, true)
    else if may_read_duplicate then (processor_id, false)
    else if bool_decide (preferred = Some processor_id) then (processor_id, false)
    else
      match hint with
      | UVM_PERF_THRASHING_HINT_TYPE_PIN residency => (residency, false)
      | _ =>
          match uvm_va_block_page_get_closest_resident b page_index processor_id with
          | None =>
              match preferred with
              | Some p => (if accessible p then p else processor_id, false)
              | None => (processor_id, false)
              end
          | Some closest =>
              if bool_decide (processor_id ∈ ft_accessed_by cfg) && accessible closest &&
                 negb (sv_access_counters (ft_service cfg))
              then (closest, false)
              else if map_remote_on_atomic_fault cfg access_type_mask processor_id closest
              then (closest, false)
              else
                let stay := (processor_id =? UVM_ID_CPU) && negb (sv_access_counters (ft_service cfg)) &&
                            accessible closest && ft_remote_mm cfg in
                let other := if stay then closest else processor_id in
                match preferred with
                | Some p => (if negb (closest =? processor_id) && accessible p then p else other, false)
                | None => (other, false)
                end
          end
      end.

Definition uvm_va_block_select_residency (cfg : fault_cfg) (b : va_block) (page_index processor_id : Z)
    (access_type_mask : gset Z) (hint : thrashing_hint) : Z * bool :=
  let '(id, read_duplicate) :=
    block_select_processor_residency cfg b page_index processor_id access_type_mask hint in
  if bool_decide (id ∈ pc_has_memory (ft_perm cfg)) then (id, read_duplicate) else (UVM_ID_CPU, false).

(** ** The scan of the block's faults *)

Record scan := mk_scan {
  sn_ctx   : block_ctx;
  sn_batch : batch;
  sn_first : Z;                  (* first_page_index *)
  sn_last  : Z;                  (* last_page_index *)
  sn_count : Z;                  (* page_fault_count *)
}.

(** Recording a page to be serviced with [access_type] at [new_residency]. *)
Definition record_page (page_index access_type new_residency : Z) (read_duplicate : bool) (s : scan) : scan :=
  let k := sn_ctx s in
  let old := if bool_decide (new_residency ∈ bk_resident k) then bk_residency k new_residency else ∅ in
  let k := bk_set_residency (bk_resident k ∪ {[new_residency]})
             (<[new_residency := old ∪ {[page_index]}]> (bk_residency k)) k in
  let k := if read_duplicate
           then bk_set_dups (u32 (bk_dup_count k + 1))
                  ((if bk_dup_count k =? 0 then ∅ else bk_dup_mask k) ∪ {[page_index]}) k
           else k in
  let k := bk_set_access (<[page_index := access_type]> (bk_access k)) k in
  mk_scan k (sn_batch s) (Z.min (sn_first s) page_index) (Z.max (sn_last s) page_index) (u32 (sn_count s + 1)).

Definition sn_set_batch (b : batch) (s : scan) : scan :=
  mk_scan (sn_ctx s) b (sn_first s) (sn_last s) (sn_count s).
Definition sn_set_ctx (k : block_ctx) (s : scan) : scan :=
  mk_scan k (sn_batch s) (sn_first s) (sn_last s) (sn_count s).

(** The rest of an iteration once the access to service is known. *)
Definition scan_select (cfg : fault_cfg) (gpu_id : Z) (blk : va_block) (i : nat) (service_access_type : Z)
    (s : scan) : scan :=
  let retries := bk_retries (sn_ctx s) in
  let e := entry_at (sn_batch s) i in
  let address := fe_address e in
  let page_index := uvm_va_block_cpu_page_index blk address in
  let mask := if service_access_type =? fe_access e then fe_access_mask e else {[service_access_type]} in
  let prot := sv_access_prot (ft_service cfg) service_access_type in
  if uvm_va_block_page_is_gpu_authorized blk page_index gpu_id prot then s
  else
    let hint := ft_thrashing cfg address in
    let select s :=
      let '(new_residency, read_duplicate) :=
        uvm_va_block_select_residency cfg blk page_index gpu_id mask hint in
      record_page page_index service_access_type new_residency read_duplicate s in
    match hint with
    | UVM_PERF_THRASHING_HINT_TYPE_THROTTLE =>
        if retries =? 0 then sn_set_batch (mark_fault_throttled i (sn_batch s)) s else s
    | UVM_PERF_THRASHING_HINT_TYPE_PIN _ =>
        let k := sn_ctx s in
        select (sn_set_ctx (bk_set_pins (u32 (bk_pin_count k + 1))
                  ((if bk_pin_count k =? 0 then ∅ else bk_pin_mask k) ∪ {[page_index]}) k) s)
    | UVM_PERF_THRASHING_HINT_TYPE_NONE => select s
    end.

(** The rest of an iteration once the fault is known not to be waived. *)
Definition scan_service (cfg : fault_cfg) (gpu_id : Z) (blk : va_block) (i : nat) (s : scan) : scan :=
  let address := fe_address (entry_at (sn_batch s) i) in
  let '(service_access_type, batch) :=
    check_fault_access_permissions cfg gpu_id (bk_retries (sn_ctx s)) i (ft_migratable cfg address)
      (sn_batch s) in
  let s := sn_set_batch batch s in
  if service_access_type =? UVM_FAULT_ACCESS_TYPE_COUNT then s
  else scan_select cfg gpu_id blk i service_access_type s.

(** One iteration; [prev] is the entry before, if it is one of this block. *)
Definition scan_entry (cfg : fault_cfg) (gpu_id : Z) (blk : va_block) (prev : option nat) (i : nat)
    (s : scan) : scan :=
  let b := sn_batch s in
  let cur := entry_at b i in
  let b := bc_assert ((fe_access cur =? access_type_mask_highest (fe_access_mask cur)) &&
                      negb (fe_is_fatal cur)) b in
  let b := set_entry i (fe_set_flags false false) b in
  let duplicate_of := match prev with
                      | Some p => if check_fault_entry_duplicate cur (entry_at b p) then Some p else None
                      | None => None
                      end in
  let b := if bk_retries (sn_ctx s) =? 0
           then update_batch_and_notify_fault i (bool_decide (is_Some duplicate_of)) b else b in
  match duplicate_of with
  | Some p =>
      let b := fault_entry_duplicate_flags i p b in
      if negb (fe_is_fatal (entry_at b p)) then sn_set_batch b s
      else scan_service cfg gpu_id blk i (sn_set_batch b s)
  | None => scan_service cfg gpu_id blk i (sn_set_batch b s)
  end.

(** Is the fault one of the block? *)
Definition in_block (cfg : fault_cfg) (blk : va_block) (e : fault_entry) : bool :=
  bool_decide (fe_va_space e = Some (ft_va_space cfg)) && (fe_address e <=? vb_end blk).

Fixpoint scan_faults (cfg : fault_cfg) (gpu_id : Z) (blk : va_block) (prev : option nat) (l : list nat)
    (s : scan) : Z * scan :=
  match l with
  | [] => (0, s)
  | i :: l' =>
      if in_block cfg blk (entry_at (sn_batch s) i)
      then let '(n, s) := scan_faults cfg gpu_id blk (Some i) l' (scan_entry cfg gpu_id blk prev i s) in
           (n + 1, s)
      else (0, s)
  end.

(** ** Servicing the block *)

Context (service_copy : Z -> Z -> block_ctx -> va_block -> K (nv_status * va_block * gset Z)).

(** The pages pinned for this fault. *)
Definition sv_with_pins (pins : option (gset Z)) (c : service_cfg) : service_cfg :=
  mk_service_cfg (sv_perm c) (sv_access_prot c) (sv_atomic_strong c) (sv_zombie c) (sv_vm_read c)
    (sv_vm_write c) (sv_can_read_dup c) (sv_read_dup c) (sv_dup_pages c) (sv_native_atomics c)
    (sv_faultable c) (sv_sys_atomics c) (sv_access_counters c) (sv_accessed_by c) (sv_accessible_from c)
    (sv_preferred_equal c) (sv_unmigratable c) (sv_thrashing_processors c) (sv_tools c) pins.

(** The block context as [uvm_va_block_service_finish] sees it, and what it
    leaves there. *)
Definition finish_ctx (k : block_ctx) (new_residency : Z) (did_migrate : gset Z) : service_context :=
  mk_service_context (bk_region k) new_residency (bk_residency k new_residency) did_migrate (bk_access k)
    (bk_ro k) (bk_rw k) (bk_rwa k).
Definition bk_from_finish (c : service_context) (k : block_ctx) : block_ctx :=
  mk_block_ctx (bk_retries k) (sc_region c) (bk_resident k) (bk_residency k) (sc_access_type c)
    (bk_pin_count k) (bk_pin_mask k) (bk_dup_count k) (bk_dup_mask k) (sc_ro c) (sc_rw c) (sc_rwa c).

(** From the first to the last page of the block in the mask. *)
Definition uvm_va_block_region_from_mask (b : va_block) (m : gset Z) : region :=
  let pages := pages_in_region_mask (uvm_va_block_region_from_block b) m in
  match head pages, last pages with
  | Some first, Some last => mk_region first (last + 1)
  | _, _ => mk_region 0 0
  end.

(** [uvm_va_block_get_prefetch_hint]. *)
Definition uvm_va_block_get_prefetch_hint (cfg : fault_cfg) (b : va_block) (k : block_ctx) : block_ctx :=
  match ids_in_mask (bk_resident k) with
  | [new_residency] =>
      let mask := bk_residency k new_residency in
      match ft_prefetch cfg new_residency mask (bk_region k) with
      | None => k
      | Some pages =>
          let in_block := pages ∩ region_mask (uvm_va_block_region_from_block b) in
          let dup := if pc_read_dup (ft_perm cfg) then in_block
                     else if bool_decide (sv_read_dup (ft_service cfg) = UVM_READ_DUPLICATION_DISABLED)
                     then ∅ else in_block ∩ sv_dup_pages (ft_service cfg) in
          let k := bk_set_access (fun p => if bool_decide (p ∈ in_block) then UVM_FAULT_ACCESS_TYPE_PREFETCH
                                           else bk_access k p) k in
          let k := if bool_decide (dup = ∅) then k
                   else bk_set_dups (u32 (bk_dup_count k + Z.of_nat (size dup)))
                          ((if bk_dup_count k =? 0 then ∅ else bk_dup_mask k) ∪ dup) k in
          let mask := mask ∪ pages in
          let k := bk_set_residency (bk_resident k) (<[new_residency := mask]> (bk_residency k)) k in
          bk_set_region (uvm_va_block_region_from_mask b mask) k
      end
  | _ => k
  end.

(** The loop over the residencies is left at the first error. *)
Definition service_residency (cfg : fault_cfg) (processor_id : Z) (bk : va_block * block_ctx)
    (new_residency : Z) : K (option nv_status * (va_block * block_ctx)) :=
  let '(b, k) := bk in
  '(st, b, did_migrate) ← service_copy processor_id new_residency k b;
  if negb (is_ok st) then kret (Some st, (b, k))
  else
    let pins := if 0 <? bk_pin_count k then Some (bk_pin_mask k) else None in
    '(st, b, c) ← uvm_va_block_service_finish (sv_with_pins pins (ft_service cfg)) processor_id b
                    (finish_ctx k new_residency did_migrate);
    kret (leave_on_error st, (b, bk_from_finish c k)).

Definition uvm_va_block_service_locked (cfg : fault_cfg) (processor_id : Z) (b : va_block) (k : block_ctx)
    : K (nv_status * va_block * block_ctx) :=
  (* no prefetching while the block is tracked *)
  let k := if vb_tracking b then k else uvm_va_block_get_prefetch_hint cfg b k in
  '(ex, (b, k)) ← kfold (service_residency cfg processor_id) (b, k) (ids_in_mask (bk_resident k));
  kret (loop_status ex, b, k).

(** The block, its context, the batch and [*block_faults]. *)
Record block_work := mk_block_work {
  bw_block  : va_block;
  bw_ctx    : block_ctx;
  bw_batch  : batch;
  bw_faults : Z;
}.

Definition service_fault_batch_block_locked (cfg : fault_cfg) (gpu_id : Z) (first_fault_index : nat)
    (w : block_work) : K (nv_status * block_work) :=
  let b := bw_block w in
  let k := bk_set_dups 0 (bk_dup_mask (bw_ctx w)) (bk_set_pins 0 (bk_pin_mask (bw_ctx w))
             (bk_set_residency ∅ (bk_residency (bw_ctx w)) (bw_ctx w))) in
  let l := drop first_fault_index (bc_ordered (bw_batch w)) in
  let batch := bc_assert (match l with
                          | i :: _ => in_block cfg b (entry_at (bw_batch w) i) &&
                                      (vb_start b <=? fe_address (entry_at (bw_batch w) i))
                          | [] => false
                          end) (bw_batch w) in
  let '(n, s) := scan_faults cfg gpu_id b None l (mk_scan k batch PAGES_PER_UVM_VA_BLOCK 0 0) in
  '(status, b, k) ←
    (if 0 <? sn_count s
     then uvm_va_block_service_locked cfg gpu_id b
            (bk_set_region (mk_region (sn_first s) (sn_last s + 1)) (sn_ctx s))
     else kret (NV_OK, b, sn_ctx s));
  let k := bk_set_retries (u32 (bk_retries k + 1)) k in
  let status := if is_ok status && bool_decide (is_Some (bc_fatal_space (sn_batch s)))
                then ft_cancel cfg else status in
  kret (status, mk_block_work b k (sn_batch s) n).

Definition service_fault_batch_block (cfg : fault_cfg) (gpu_id : Z) (first_fault_index : nat)
    (w : block_work) : K (nv_status * block_work) :=
  let w := mk_block_work (bw_block w) (bk_set_retries 0 (bw_ctx w)) (bw_batch w) (bw_faults w) in
  let lock := LBlock (vb_start (bw_block w)) in
  lock_acquire lock;;
  '(status, w) ← retry_loop env_retries (service_fault_batch_block_locked cfg gpu_id first_fault_index) w;
  tracker_status ← ext_status;
  lock_release lock;;
  kret (if is_ok status then tracker_status else status, w).
End Codes.

(** ** What the scan does to the entries *)

(** The fields servicing never changes. *)
Definition same_key (e e' : fault_entry) : Prop :=
  fe_packet e' = fe_packet e /\ fe_va_space e' = fe_va_space e /\ fe_access_mask e' = fe_access_mask e.

#[export] Instance same_key_equiv : Equivalence same_key.
Proof. unfold same_key. split; [done|by intros ?? (-> & -> & ->)|by intros ??? (-> & -> & ->) (-> & -> & ->)]. Qed.

(** [b'] is [b] up to the counters and the marks of entry [i]. *)
Record touches (i : nat) (b b' : batch) : Prop := {
  tk_ordered : bc_ordered b' = bc_ordered b;
  tk_length  : length (bc_cache b') = length (bc_cache b);
  tk_key     : forall k, same_key (entry_at b k) (entry_at b' k);
  tk_other   : forall k, k <> i -> entry_at b' k = entry_at b k;
  tk_fatal   : fe_is_fatal (entry_at b i) = true -> fe_is_fatal (entry_at b' i) = true;
}.

#[export] Instance touches_preorder i : PreOrder (touches i).
Proof.
  split; [by constructor|]. intros b1 b2 b3 [] []. constructor; try congruence; [|auto..].
  - intros k. etransitivity; [apply tk_key0|apply tk_key1].
  - intros k Hk. rewrite tk_other1 by done. auto.
Qed.

(** [b'] differs from [b] in its counters and marks only. *)
Definition same_entries (b b' : batch) : Prop := bc_cache b' = bc_cache b /\ bc_ordered b' = bc_ordered b.

Lemma same_entries_touches i b b' : same_entries b b' -> touches i b b'.
Proof. intros [Hc Ho]. constructor; unfold entry_at; rewrite ?Hc; done. Qed.

Lemma entry_at_set_entry i f b k :
  (i < length (bc_cache b))%nat ->
  entry_at (set_entry i f b) k = (if decide (k = i) then f (entry_at b i) else entry_at b k).
Proof.
  intros Hi. unfold entry_at. rewrite set_entry_lookup. case_decide; [|done]. subst.
  destruct (bc_cache b !! i) eqn:He; [done|]. apply lookup_ge_None in He. lia.
Qed.

Lemma set_entry_touches i f b :
  (i < length (bc_cache b))%nat ->
  (forall e, same_key e (f e) /\ (fe_is_fatal e = true -> fe_is_fatal (f e) = true)) ->
  touches i b (set_entry i f b).
Proof.
  intros Hi Hf. constructor; [done|cbn; by rewrite length_alter| | |].
  - intros k. rewrite entry_at_set_entry by done. case_decide; [subst; apply Hf|done].
  - intros k Hk. by rewrite entry_at_set_entry, decide_False.
  - rewrite entry_at_set_entry, decide_True by done. apply Hf.
Qed.

Section Marks.
Context `{FaultCodes} (i : nat).
Notation in_range b := (i < length (bc_cache b))%nat.

Lemma mark_prefetch_touches b : in_range b -> touches i b (mark_fault_invalid_prefetch i b).
Proof.
  intros Hi. etransitivity; [by eapply (set_entry_touches i (fun e => fe_set_flags (fe_throttled e) true e))|].
  by apply same_entries_touches.
Qed.

Lemma mark_throttled_touches b : in_range b -> touches i b (mark_fault_throttled i b).
Proof.
  intros Hi. etransitivity; [by eapply (set_entry_touches i (fun e => fe_set_flags true (fe_prefetch e) e))|].
  by apply same_entries_touches.
Qed.

Lemma mark_fatal_entries mode b : same_entries (set_entry i (fe_set_fatal mode) b) (mark_fault_fatal i mode b).
Proof. unfold mark_fault_fatal, same_entries. cbn. by destruct (bc_fatal_space b). Qed.

Lemma mark_fatal_touches mode b :
  in_range b -> touches i b (mark_fault_fatal i mode b) /\
                fe_is_fatal (entry_at (mark_fault_fatal i mode b) i) = true.
Proof.
  intros Hi. pose proof (mark_fatal_entries mode b) as Hs. split.
  - etransitivity; [by apply (set_entry_touches i (fe_set_fatal mode))|by apply same_entries_touches].
  - destruct Hs as [Hs _]. unfold entry_at. rewrite Hs.
    change (fe_is_fatal (entry_at (set_entry i (fe_set_fatal mode) b) i) = true).
    by rewrite entry_at_set_entry, decide_True by done.
Qed.

Lemma duplicate_flags_touches p b : in_range b -> touches i b (fault_entry_duplicate_flags i p b).
Proof.
  intros Hi. unfold fault_entry_duplicate_flags.
  set (b1 := if fe_prefetch (entry_at b p) then _ else b).
  assert (touches i b b1) as H1 by (unfold b1; destruct (fe_prefetch _); [by apply mark_prefetch_touches|done]).
  etransitivity; [exact H1|]. destruct (fe_throttled _); [|done]. apply mark_throttled_touches.
  by rewrite (tk_length _ _ _ H1).
Qed.

(** A write the check does not refuse is serviced as the write it is. *)
Lemma check_permissions_spec cfg gpu retries allow b :
  in_range b ->
  let '(t, b') := check_fault_access_permissions cfg gpu retries i allow b in
  touches i b b' /\
  (UVM_FAULT_ACCESS_TYPE_WRITE <= fe_access (entry_at b i) ->
   fe_is_fatal (entry_at b' i) = true \/ t = fe_access (entry_at b i)) /\
  (fe_is_fatal (entry_at b' i) = true -> fe_is_fatal (entry_at b i) = true \/
   uvm_va_block_check_logical_permissions cfg gpu (fe_access (entry_at b i)) allow <> NV_OK).
Proof.
  intros Hi. unfold check_fault_access_permissions.
  pose proof access_types_ordered as Ho.
  destruct (is_ok (uvm_va_block_check_logical_permissions _ _ (fe_access (entry_at b i)) _)) eqn:Hok.
  { split; [done|]. split; [by right|by left]. }
  apply is_ok_false in Hok.
  destruct (fe_access (entry_at b i) =? UVM_FAULT_ACCESS_TYPE_PREFETCH) eqn:Hp; btest.
  { split; [|split; [lia|by right]]. destruct (_ =? 0); [by apply mark_prefetch_touches|done]. }
  destruct (if UVM_FAULT_ACCESS_TYPE_READ <? fe_access (entry_at b i) then _ else _) as [ret md].
  pose proof (mark_fatal_touches md b Hi) as [H1 H2]. split; [done|]. split; [by left|by right].
Qed.
End Marks.

(** The bounds of a block: whole pages, at most 2MB. *)
Record block_range (b : va_block) : Prop := {
  br_size  : vb_start b <= vb_end b < vb_start b + UVM_VA_BLOCK_SIZE;
  br_pages : (vb_end b + 1 - vb_start b) mod PAGE_SIZE = 0;
}.

(** ** No write fault is waived *)

Section Scan.
Context `{FaultCodes} `{E : Env} (cfg : fault_cfg) (gpu : Z) (blk : va_block).
Context (Hgpu : 0 < gpu) (Hwf : perm_wf blk) (Hrange : block_range blk)
  (Hclean : vb_dirty blk = false -> prot_pages blk gpu UVM_PROT_READ_WRITE = ∅).
(** [uvm_fault_access_type_to_prot] asks for write access for writes and atomics. *)
Context (Hprot : forall t, UVM_FAULT_ACCESS_TYPE_WRITE <= t ->
                   writable (sv_access_prot (ft_service cfg) t) = true).

Definition page_of (e : fault_entry) : Z := uvm_va_block_cpu_page_index blk (fe_address e).

(** The page is to be serviced with write access. *)
Record recorded (s : scan) (page : Z) : Prop := {
  rc_res    : exists r, r ∈ bk_resident (sn_ctx s) /\ page ∈ bk_residency (sn_ctx s) r;
  rc_access : UVM_FAULT_ACCESS_TYPE_WRITE <= bk_access (sn_ctx s) page;
  rc_region : sn_first s <= page <= sn_last s;
  rc_count  : 0 < sn_count s;
}.

(** The range does not permit the access. *)
Definition denied (e : fault_entry) : Prop :=
  uvm_va_block_check_logical_permissions cfg gpu (fe_access e) (ft_migratable cfg (fe_address e)) <> NV_OK.

(** What became of fault [i]: cancelled, throttled, or to be serviced, unless
    the block was dirty already. *)
Definition claim (s : scan) (i : nat) : Prop :=
  vb_dirty blk = true \/ fe_is_fatal (entry_at (sn_batch s) i) = true \/
  ft_thrashing cfg (fe_address (entry_at (sn_batch s) i)) = UVM_PERF_THRASHING_HINT_TYPE_THROTTLE \/
  recorded s (page_of (entry_at (sn_batch s) i)).

Lemma not_authorized page prot :
  vb_dirty blk = false -> writable prot = true -> uvm_va_block_page_is_gpu_authorized blk page gpu prot = false.
Proof.
  intros Hd Hw. unfold uvm_va_block_page_is_gpu_authorized, block_is_gpu_authorized_on_whole_region.
  destruct (uvm_va_block_gpu_state_get blk gpu) as [gs|] eqn:Hgs; [|done].
  apply bool_decide_eq_false. intros Hsub.
  assert (page ∈ gpu_pte_bits gs prot) as Hp by (apply Hsub, elem_of_region_mask; cbn; lia).
  unfold uvm_va_block_gpu_state_get in Hgs. pose proof (pw_gpu _ Hwf _ _ Hgs) as [Haw _].
  assert (page ∈ prot_pages blk gpu UVM_PROT_READ_WRITE) as Hin; [|rewrite Hclean in Hin by done; set_solver].
  unfold prot_pages, gpu_state_of. destruct (Z.eqb_spec gpu UVM_ID_CPU) as [He|]; [unfold UVM_ID_CPU in He; lia|].
  rewrite Hgs. destruct prot; cbn in *; try done. by apply Haw.
Qed.

Lemma record_page_spec s page t r dup :
  0 <= sn_count s < 2 ^ 32 - 1 ->
  let s' := record_page page t r dup s in
  sn_batch s' = sn_batch s /\ bk_retries (sn_ctx s') = bk_retries (sn_ctx s) /\
  sn_count s' = sn_count s + 1 /\
  sn_first s' = Z.min (sn_first s) page /\ sn_last s' = Z.max (sn_last s) page /\
  (UVM_FAULT_ACCESS_TYPE_WRITE <= t -> recorded s' page) /\
  (forall q, q <> page -> recorded s q -> recorded s' q).
Proof.
  intros Hc. cbv zeta. unfold record_page. set (old := if bool_decide _ then _ else _).
  set (k := bk_set_residency _ _ _). set (k' := if dup then _ else k).
  assert (Hk : bk_resident k' = bk_resident k /\ bk_residency k' = bk_residency k /\ bk_access k' = bk_access k /\
               bk_retries k' = bk_retries (sn_ctx s)) by (unfold k'; by destruct dup).
  destruct Hk as (Hk1 & Hk2 & Hk3 & Hk4). clearbody k'.
  split; [done|]. split; [done|]. cbn [sn_count]. rewrite u32_small by lia. split; [done|]. split; [done|]. split; [done|]. split.
  - intros Ht. split; cbn [sn_ctx sn_first sn_last sn_count bk_resident bk_residency bk_set_access bk_access].
    + exists r. rewrite Hk1, Hk2. cbn. rewrite fn_lookup_insert. split; set_solver.
    + by rewrite fn_lookup_insert.
    + lia.
    + lia.
  - intros q Hq [(r' & Hr1 & Hr2) Ha Hr Hn].
    split; cbn [sn_ctx sn_first sn_last sn_count bk_resident bk_residency bk_set_access bk_access].
    + exists r'. rewrite Hk1, Hk2. cbn. split; [set_solver|].
      destruct (decide (r' = r)) as [->|Hne]; [|by rewrite fn_lookup_insert_ne].
      rewrite fn_lookup_insert. unfold old. rewrite bool_decide_eq_true_2 by done. set_solver.
    + rewrite fn_lookup_insert_ne, Hk3 by done. done.
    + lia.
    + lia.
Qed.

(** Context changes that keep what was recorded. *)
Lemma recorded_ext s s' page :
  bk_resident (sn_ctx s') = bk_resident (sn_ctx s) -> bk_residency (sn_ctx s') = bk_residency (sn_ctx s) ->
  bk_access (sn_ctx s') = bk_access (sn_ctx s) -> sn_first s' = sn_first s -> sn_last s' = sn_last s ->
  sn_count s' = sn_count s -> recorded s page -> recorded s' page.
Proof. intros H1 H2 H3 H4 H5 H6 []. split; rewrite ?H1, ?H2, ?H3, ?H4, ?H5, ?H6; done. Qed.

(** Entry [i] may get marks; it becomes fatal only when its access is denied. *)
Definition settles (i : nat) (b b' : batch) : Prop :=
  touches i b b' /\
  (fe_is_fatal (entry_at b' i) = true -> fe_is_fatal (entry_at b i) = true \/ denied (entry_at b i)).

Lemma touches_fields i b b' k :
  touches i b b' ->
  fe_address (entry_at b' k) = fe_address (entry_at b k) /\ fe_access (entry_at b' k) = fe_access (entry_at b k) /\
  fe_va_space (entry_at b' k) = fe_va_space (entry_at b k).
Proof. intros Ht. destruct (tk_key _ _ _ Ht k) as (Hk & Hv & _). unfold fe_address, fe_access. by rewrite Hk. Qed.

Lemma touches_denied i b b' k : touches i b b' -> denied (entry_at b' k) <-> denied (entry_at b k).
Proof. intros Ht. unfold denied. by destruct (touches_fields i b b' k Ht) as (-> & -> & _). Qed.

Lemma settles_trans i b1 b2 b3 : settles i b1 b2 -> settles i b2 b3 -> settles i b1 b3.
Proof.
  intros [T1 F1] [T2 F2]. split; [by etransitivity|]. intros Hf.
  destruct (F2 Hf) as [?|Hd]; [auto|]. right. by apply (touches_denied i b1 b2).
Qed.

Lemma settles_throttled i b : (i < length (bc_cache b))%nat -> settles i b (mark_fault_throttled i b).
Proof.
  intros Hi. split; [by apply mark_throttled_touches|]. left. revert H0.
  unfold mark_fault_throttled. change (fe_is_fatal (entry_at (set_entry i (fun e => fe_set_flags true (fe_prefetch e) e) b) i) = true -> fe_is_fatal (entry_at b i) = true).
  by rewrite entry_at_set_entry, decide_True by done.
Qed.

(** A step of the scan that concerns entry [i]. *)
Record scanned (i : nat) (s s' : scan) : Prop := {
  sc_settles : settles i (sn_batch s) (sn_batch s');
  sc_count   : sn_count s <= sn_count s' <= sn_count s + 1;
  sc_first   : Z.min (sn_first s) (page_of (entry_at (sn_batch s) i)) <= sn_first s';
  sc_last    : sn_last s' <= Z.max (sn_last s) (page_of (entry_at (sn_batch s) i));
  sc_kept    : forall page, page <> page_of (entry_at (sn_batch s) i) -> recorded s page -> recorded s' page;
}.

Lemma scanned_batch i s b : settles i (sn_batch s) b -> scanned i s (sn_set_batch b s).
Proof. intros Ht. split; [done|cbn; lia..|]. intros page _. by apply recorded_ext. Qed.

Lemma scanned_pre i s b s' :
  settles i (sn_batch s) b -> scanned i (sn_set_batch b s) s' -> scanned i s s'.
Proof.
  intros Ht [H1 H2 H3 H4 H5]. destruct (touches_fields _ _ _ i (proj1 Ht)) as (Ha & _).
  assert (Hp : page_of (entry_at b i) = page_of (entry_at (sn_batch s) i)) by (unfold page_of; by rewrite Ha).
  cbn [sn_batch sn_set_batch sn_first sn_last sn_count] in *. rewrite Hp in *.
  split; [by eapply settles_trans|done..|]. intros page Hne Hr. apply H5; [done|].
  eapply recorded_ext; [..|done]; done.
Qed.

Lemma select_spec i s s0 t mask hint :
  0 <= sn_count s < 2 ^ 32 - 1 -> sn_batch s0 = sn_batch s ->
  sn_first s0 = sn_first s -> sn_last s0 = sn_last s -> sn_count s0 = sn_count s ->
  (forall page, recorded s page -> recorded s0 page) ->
  let page := page_of (entry_at (sn_batch s) i) in
  let s' := (let '(r, dup) := uvm_va_block_select_residency cfg blk page gpu mask hint in
             record_page page t r dup s0) in
  scanned i s s' /\ (UVM_FAULT_ACCESS_TYPE_WRITE <= t -> claim s' i).
Proof.
  intros Hc Hb Hf Hl Hn Hrec page. destruct (uvm_va_block_select_residency _ _ _ _ _ _) as [r dup]. cbv zeta.
  destruct (record_page_spec s0 page t r dup ltac:(by rewrite Hn)) as (H1 & H2 & H3 & H4 & H5 & H6 & H7).
  rewrite Hb in H1. split.
  - split; [by rewrite H1; split; [|left]|lia|fold page; lia|fold page; lia|]. auto.
  - intros Ht. unfold claim. rewrite H1. fold page. auto.
Qed.

Lemma scan_select_spec i s t :
  (i < length (bc_cache (sn_batch s)))%nat -> 0 <= sn_count s < 2 ^ 32 - 1 ->
  scanned i s (scan_select cfg gpu blk i t s) /\
  (UVM_FAULT_ACCESS_TYPE_WRITE <= t -> claim (scan_select cfg gpu blk i t s) i).
Proof.
  intros Hi Hc. unfold scan_select. set (e := entry_at (sn_batch s) i).
  assert (Hrefl : scanned i s s) by (by split; [split; [|left]|lia..|]).
  destruct (uvm_va_block_page_is_gpu_authorized _ _ _ _) eqn:Hauth.
  { split; [done|]. intros Ht. left. apply not_false_is_true. intros Hd.
    rewrite not_authorized in Hauth; [done..|]. by apply Hprot. }
  destruct (ft_thrashing cfg (fe_address e)) as [|res|] eqn:Hth.
  1,2: match goal with |- context [record_page _ _ _ _ ?s0] => apply (select_spec i s s0) end; [done..|].
  1,2: intros page; by apply recorded_ext.
  destruct (_ =? 0); [|by split; [|right; right; left]].
  pose proof (settles_throttled i _ Hi) as Hm. split; [by apply scanned_batch|]. intros _. right; right; left. cbn.
  by destruct (touches_fields _ _ _ i (proj1 Hm)) as (-> & _).
Qed.

Lemma scan_service_spec i s :
  (i < length (bc_cache (sn_batch s)))%nat -> 0 <= sn_count s < 2 ^ 32 - 1 ->
  fe_access (entry_at (sn_batch s) i) < UVM_FAULT_ACCESS_TYPE_COUNT ->
  let s' := scan_service cfg gpu blk i s in
  scanned i s s' /\
  (UVM_FAULT_ACCESS_TYPE_WRITE <= fe_access (entry_at (sn_batch s) i) -> claim s' i).
Proof.
  intros Hi Hc Hcount. cbv zeta. unfold scan_service. set (e := entry_at (sn_batch s) i) in *.
  pose proof (check_permissions_spec i cfg gpu (bk_retries (sn_ctx s)) (ft_migratable cfg (fe_address e))
    (sn_batch s) Hi) as Hp.
  destruct (check_fault_access_permissions _ _ _ _ _ _) as [t b]. destruct Hp as (Ht & Hw & Hd). fold e in Hw, Hd.
  assert (Hs : settles i (sn_batch s) b) by done. pose proof (scanned_batch i s b Hs) as Hsb.
  destruct (t =? UVM_FAULT_ACCESS_TYPE_COUNT) eqn:Htc; btest.
  { split; [done|]. intros He. destruct (Hw He) as [Hf|Heq]; [by right; left|lia]. }
  destruct (scan_select_spec i (sn_set_batch b s) t) as [H1 H2]; [cbn; by rewrite (tk_length _ _ _ Ht)|done|].
  split; [by eapply scanned_pre|]. intros He. destruct (Hw He) as [Hf|Heq]; [|apply H2; lia].
  right; left. by apply (tk_fatal _ _ _ (proj1 (sc_settles _ _ _ H1))).
Qed.

(** What one iteration does before it decides whether to service the entry. *)
Definition marks (i : nat) (b b' : batch) : Prop :=
  touches i b b' /\ fe_is_fatal (entry_at b' i) = fe_is_fatal (entry_at b i).

Lemma marks_trans i b1 b2 b3 : marks i b1 b2 -> marks i b2 b3 -> marks i b1 b3.
Proof. intros [H1 E1] [H2 E2]. split; [by etransitivity|congruence]. Qed.

Lemma marks_same i b b' : same_entries b b' -> marks i b b'.
Proof. intros Hs. split; [by apply same_entries_touches|]. unfold entry_at. by rewrite (proj1 Hs). Qed.

Lemma marks_settles i b b' : marks i b b' -> settles i b b'.
Proof. intros [Ht Hf]. split; [done|]. rewrite Hf. by left. Qed.

Lemma marks_set i f b :
  (i < length (bc_cache b))%nat -> (forall e, same_key e (f e) /\ fe_is_fatal (f e) = fe_is_fatal e) ->
  marks i b (set_entry i f b).
Proof.
  intros Hi Hf. split.
  - apply set_entry_touches; [done|]. intros e. destruct (Hf e) as [? ->]. done.
  - rewrite entry_at_set_entry, decide_True by done. apply Hf.
Qed.

Lemma marks_flags i p b :
  (i < length (bc_cache b))%nat -> marks i b (fault_entry_duplicate_flags i p b).
Proof.
  intros Hi. unfold fault_entry_duplicate_flags.
  set (b1 := if fe_prefetch (entry_at b p) then _ else b).
  assert (marks i b b1) as H1.
  { unfold b1. destruct (fe_prefetch _); [|by apply marks_same].
    eapply marks_trans; [by apply (marks_set i (fun e => fe_set_flags (fe_throttled e) true e))|by apply marks_same]. }
  eapply marks_trans; [exact H1|]. destruct (fe_throttled _); [|by apply marks_same].
  eapply marks_trans; [apply (marks_set i (fun e => fe_set_flags true (fe_prefetch e) e))|by apply marks_same].
  - by rewrite (tk_length _ _ _ (proj1 H1)).
  - done.
Qed.


(** The sorted faults the scan goes through.  The fatal ones of a page come
    first: each fault is checked only when the one before is fatal. *)
Definition same_page (e e' : fault_entry) : Prop :=
  fe_va_space e = fe_va_space e' /\ fe_address e = fe_address e'.

Definition ordered_by {A} (R : A -> A -> Prop) (l : list A) : Prop :=
  forall p q i j, (p < q)%nat -> l !! p = Some i -> l !! q = Some j -> R i j.

Record seg_ok (b : batch) (l : list nat) : Prop := {
  so_range   : forall i, i ∈ l -> (i < length (bc_cache b))%nat;
  so_nodup   : NoDup l;
  so_sorted  : ordered_by (fun i j => fault_le (entry_at b i) (entry_at b j)) l;
  so_access  : forall i, i ∈ l -> fe_access (entry_at b i) < UVM_FAULT_ACCESS_TYPE_COUNT;
  so_start   : forall i, i ∈ l -> fe_va_space (entry_at b i) = Some (ft_va_space cfg) ->
                 vb_start blk <= fe_address (entry_at b i);
  so_aligned : forall i, i ∈ l -> fe_address (entry_at b i) mod PAGE_SIZE = 0;
  so_fatal   : ordered_by (fun i j => in_block cfg blk (entry_at b i) = true ->
                 same_page (entry_at b i) (entry_at b j) ->
                 fe_is_fatal (entry_at b j) = true -> fe_is_fatal (entry_at b i) = true) l;
}.

(** [b'] is [b] up to marks, and its fatal entries are fatal in [b] or denied. *)
Record marked (b b' : batch) : Prop := {
  md_length : length (bc_cache b') = length (bc_cache b);
  md_order  : bc_ordered b' = bc_ordered b;
  md_key    : forall k, same_key (entry_at b k) (entry_at b' k);
  md_fatal  : forall k, fe_is_fatal (entry_at b' k) = true ->
                fe_is_fatal (entry_at b k) = true \/ denied (entry_at b k);
}.

Lemma marked_refl b : marked b b.
Proof. split; auto. done. Qed.

Lemma marked_trans b1 b2 b3 : marked b1 b2 -> marked b2 b3 -> marked b1 b3.
Proof.
  intros [H1 H2 H3 H4] [G1 G2 G3 G4]. split; [congruence..| |].
  - intros k. etransitivity; [apply H3|apply G3].
  - intros k Hf. destruct (G4 k Hf) as [?|Hd]; [auto|]. right. revert Hd. unfold denied, fe_access, fe_address.
    by destruct (H3 k) as (-> & _).
Qed.

Lemma settles_marked i b b' : settles i b b' -> marked b b'.
Proof.
  intros [Ht Hf]. split; try apply Ht. intros k. destruct (decide (k = i)) as [->|Hne]; [done|].
  rewrite (tk_other _ _ _ Ht k Hne). by left.
Qed.

Lemma in_block_true e :
  in_block cfg blk e = true -> fe_va_space e = Some (ft_va_space cfg) /\ fe_address e <= vb_end blk.
Proof. unfold in_block. intros [H1 H2]%andb_prop. btest. bprop. done. Qed.

Lemma page_bounds a : vb_start blk <= a -> a <= vb_end blk ->
  0 <= uvm_va_block_cpu_page_index blk a < uvm_va_block_num_cpu_pages blk /\
  uvm_va_block_num_cpu_pages blk <= PAGES_PER_UVM_VA_BLOCK.
Proof.
  destruct Hrange as [H1 H2]. unfold uvm_va_block_cpu_page_index, uvm_va_block_num_cpu_pages, uvm_va_block_size.
  intros H3 H4. unfold UVM_VA_BLOCK_SIZE, PAGES_PER_UVM_VA_BLOCK in *. rewrite u64_small by lia.
  unfold PAGE_SIZE in *. zlia.
Qed.

Record scan_inv (b0 : batch) (ps l : list nat) (s : scan) : Prop := {
  si_marked : marked b0 (sn_batch s);
  si_pages : 0 <= sn_first s /\ sn_last s < PAGES_PER_UVM_VA_BLOCK;
  si_seg   : seg_ok (sn_batch s) (ps ++ l);
  si_block : forall i, i ∈ ps -> in_block cfg blk (entry_at (sn_batch s) i) = true;
  si_claim : forall i, i ∈ ps -> UVM_FAULT_ACCESS_TYPE_WRITE <= fe_access (entry_at (sn_batch s) i) -> claim s i;
  si_count : 0 <= sn_count s <= Z.of_nat (length ps);
  si_other : forall k, k ∉ ps -> entry_at (sn_batch s) k = entry_at b0 k;
}.

Lemma seg_ok_touches i b b' l :
  touches i b b' -> seg_ok b l ->
  (forall p q k, (p < q)%nat -> l !! p = Some k -> l !! q = Some i -> 
     in_block cfg blk (entry_at b k) = true -> same_page (entry_at b k) (entry_at b i) ->
     fe_is_fatal (entry_at b' i) = true -> fe_is_fatal (entry_at b k) = true) ->
  seg_ok b' l.
Proof.
  intros Ht [Hr Hn Hs Ha Hst Hal Hf] Hc. pose proof (fun k => touches_fields i b b' k Ht) as Hk.
  assert (Hmono : forall k, fe_is_fatal (entry_at b k) = true -> fe_is_fatal (entry_at b' k) = true).
  { intros k. destruct (decide (k = i)) as [->|Hne]; [apply Ht|]. by rewrite (tk_other _ _ _ Ht k Hne). }
  split; [by rewrite (tk_length _ _ _ Ht)|done| | | | |].
  - intros p q x y Hpq Hx Hy. specialize (Hs p q x y Hpq Hx Hy). unfold fault_le in *.
    destruct (Hk x) as (-> & -> & ->), (Hk y) as (-> & -> & ->). done.
  - intros x Hx. destruct (Hk x) as (_ & -> & _). auto.
  - intros x Hx. destruct (Hk x) as (-> & _ & ->). auto.
  - intros x Hx. destruct (Hk x) as (-> & _). auto.
  - intros p q x y Hpq Hx Hy. unfold same_page, in_block. destruct (Hk x) as (-> & _ & ->), (Hk y) as (-> & _ & ->).
    intros Hin Hsp Hfy. apply Hmono. destruct (decide (y = i)) as [->|Hne]; [by apply (Hc p q)|].
    rewrite (tk_other _ _ _ Ht y Hne) in Hfy. by apply (Hf p q x y).
Qed.

Lemma page_inj b l i j :
  seg_ok b l -> i ∈ l -> j ∈ l -> fe_address (entry_at b i) <> fe_address (entry_at b j) ->
  page_of (entry_at b i) <> page_of (entry_at b j).
Proof.
  intros Hs Hi Hj. pose proof (so_aligned _ _ Hs i Hi). pose proof (so_aligned _ _ Hs j Hj).
  unfold page_of, uvm_va_block_cpu_page_index, PAGE_SIZE in *. zlia.
Qed.

(** One step: either every earlier fault of the page is fatal, or the entry is
    waived and nothing but its flags changes. *)
Lemma scan_step b0 ps i l s s' :
  scan_inv b0 ps (i :: l) s -> in_block cfg blk (entry_at (sn_batch s) i) = true ->
  scanned i s s' -> (UVM_FAULT_ACCESS_TYPE_WRITE <= fe_access (entry_at (sn_batch s) i) -> claim s' i) ->
  (forall k, k ∈ ps -> fe_address (entry_at (sn_batch s) k) = fe_address (entry_at (sn_batch s) i) ->
     fe_is_fatal (entry_at (sn_batch s) k) = true) \/
  fe_is_fatal (entry_at (sn_batch s') i) = fe_is_fatal (entry_at (sn_batch s) i) /\
  (forall page, recorded s page -> recorded s' page) ->
  scan_inv b0 (ps ++ [i]) l s'.
Proof.
  intros [Hmk Hpg Hseg Hblk Hcl Hct Hot] Hib [Hst Hcount Hfirst Hlast Hkept] Hci Hor. pose proof (proj1 Hst) as Ht.
  pose proof (so_nodup _ _ Hseg) as Hnd. apply NoDup_app in Hnd as (_ & Hdis & _).
  assert (Hne : forall k, k ∈ ps -> k <> i) by (intros k Hk ->; apply (Hdis i Hk); left).
  assert (Hpos : (ps ++ i :: l) !! length ps = Some i) by by rewrite lookup_app_r, Nat.sub_diag by lia.
  split; rewrite <- ?app_assoc; cbn [app].
  - eapply marked_trans; [done|by eapply settles_marked].
  - destruct (in_block_true _ Hib) as [Hv He].
    pose proof (page_bounds (fe_address (entry_at (sn_batch s) i)) (so_start _ _ Hseg i ltac:(set_solver) Hv) He) as Hp.
    unfold page_of in Hfirst, Hlast. lia.
  - eapply seg_ok_touches; [done|done|]. intros p q k Hpq Hk Hi Hin Hsp Hf.
    assert (q = length ps) as -> by (eapply NoDup_lookup; [apply Hseg|done|done]).
    rewrite lookup_app_l in Hk by done. destruct Hor as [Hor|[Heq _]].
    + apply Hor; [by eapply list_elem_of_lookup_2|apply Hsp].
    + rewrite Heq in Hf. eapply (so_fatal _ _ Hseg p (length ps)); [done| |done|done|done|done].
      by rewrite lookup_app_l.
  - intros k [Hk| ->%list_elem_of_singleton]%elem_of_app; unfold in_block in *.
    + rewrite (tk_other _ _ _ Ht k (Hne k Hk)). by apply Hblk.
    + by destruct (touches_fields i _ _ i Ht) as (-> & _ & ->).
  - intros k [Hk| ->%list_elem_of_singleton]%elem_of_app Hw.
    2:{ apply Hci. by destruct (touches_fields i _ _ i Ht) as (_ & <- & _). }
    unfold claim in *. rewrite (tk_other _ _ _ Ht k (Hne k Hk)) in *.
    destruct (Hcl k Hk Hw) as [?|[?|[?|Hrec]]]; [by left|by right; left|by right; right; left|].
    destruct Hor as [Hor|[_ Hor]]; [|by right; right; right; apply Hor].
    destruct (decide (fe_address (entry_at (sn_batch s) k) = fe_address (entry_at (sn_batch s) i))) as [Ha|Ha].
    + right; left. by apply Hor.
    + right; right; right. apply Hkept; [|done]. eapply page_inj; [done|set_solver|set_solver|done].
  - rewrite length_app. cbn. lia.
  - intros k Hk. rewrite (tk_other _ _ _ Ht k) by set_solver. apply Hot. set_solver.
Qed.
(** The entry of [ps] before the current one. *)
Lemma last_before b0 ps l p s :
  scan_inv b0 ps l s -> last ps = Some p ->
  p ∈ ps /\ forall k, k ∈ ps -> k = p \/
    fault_le (entry_at (sn_batch s) k) (entry_at (sn_batch s) p) /\
    (in_block cfg blk (entry_at (sn_batch s) k) = true -> same_page (entry_at (sn_batch s) k) (entry_at (sn_batch s) p) ->
     fe_is_fatal (entry_at (sn_batch s) p) = true -> fe_is_fatal (entry_at (sn_batch s) k) = true).
Proof.
  intros Hi Hl. apply last_Some in Hl as [ps' ->]. split; [set_solver|].
  intros k [Hk| ->%list_elem_of_singleton]%elem_of_app; [right|by left].
  apply list_elem_of_lookup_1 in Hk as [q Hq].
  assert (Hpos : ((ps' ++ [p]) ++ l) !! length ps' = Some p)
    by by rewrite <- app_assoc, lookup_app_r, Nat.sub_diag by lia.
  assert (Hposk : ((ps' ++ [p]) ++ l) !! q = Some k)
    by (rewrite <- app_assoc; by apply lookup_app_l_Some).
  pose proof (lookup_lt_Some _ _ _ Hq). pose proof (si_seg _ _ _ _ Hi) as Hseg. split.
  - by apply (so_sorted _ _ Hseg q (length ps')).
  - by apply (so_fatal _ _ Hseg q (length ps')).
Qed.

Lemma next_after b0 ps i l k s :
  scan_inv b0 ps (i :: l) s -> k ∈ ps ->
  fault_le (entry_at (sn_batch s) k) (entry_at (sn_batch s) i) /\ k <> i.
Proof.
  intros Hi [q Hq]%list_elem_of_lookup_1. pose proof (lookup_lt_Some _ _ _ Hq).
  assert (Hpos : (ps ++ i :: l) !! length ps = Some i) by by rewrite lookup_app_r, Nat.sub_diag by lia.
  assert (Hposk : (ps ++ i :: l) !! q = Some k) by by apply lookup_app_l_Some.
  pose proof (si_seg _ _ _ _ Hi) as Hseg. split.
  - by apply (so_sorted _ _ Hseg q (length ps)).
  - intros ->. pose proof (NoDup_lookup _ _ _ _ (so_nodup _ _ Hseg) Hpos Hposk). lia.
Qed.


(** The entry is on another page than the earlier ones. *)
Lemma no_duplicate b0 ps i l s k :
  scan_inv b0 ps (i :: l) s -> in_block cfg blk (entry_at (sn_batch s) i) = true -> k ∈ ps ->
  (forall p, last ps = Some p ->
     check_fault_entry_duplicate (entry_at (sn_batch s) i) (entry_at (sn_batch s) p) = false) ->
  fe_address (entry_at (sn_batch s) k) <> fe_address (entry_at (sn_batch s) i).
Proof.
  intros Hi [Hv _]%in_block_true Hk Hd.
  destruct (last ps) as [p|] eqn:Hl; [|apply last_None in Hl as ->; set_solver].
  specialize (Hd p eq_refl).
  destruct (last_before _ _ _ _ _ Hi Hl) as [Hp Hall]. destruct (next_after _ _ _ _ _ _ Hi Hp) as [Hle _].
  destruct (in_block_true _ (si_block _ _ _ _ Hi p Hp)) as [Hvp _].
  destruct (in_block_true _ (si_block _ _ _ _ Hi k Hk)) as [Hvk _].
  unfold check_fault_entry_duplicate in Hd. rewrite Hv, Hvp, bool_decide_eq_true_2 in Hd by done.
  cbn [andb] in Hd. btest.
  destruct (Hall k Hk) as [->|[Hlek _]]; unfold fault_le in *; rewrite ?Hv, ?Hvp, ?Hvk in *; cbn in *; lia.
Qed.

(** The entry is on the page of the one before. *)
Lemma duplicate_fatal b0 ps i p l s k :
  scan_inv b0 ps (i :: l) s -> last ps = Some p -> k ∈ ps ->
  same_page (entry_at (sn_batch s) i) (entry_at (sn_batch s) p) ->
  fe_is_fatal (entry_at (sn_batch s) p) = true ->
  fe_address (entry_at (sn_batch s) k) = fe_address (entry_at (sn_batch s) i) ->
  fe_is_fatal (entry_at (sn_batch s) k) = true.
Proof.
  intros Hi Hl Hk [_ Hsp] Hf Ha. destruct (last_before _ _ _ _ _ Hi Hl) as [Hp Hall].
  destruct (Hall k Hk) as [->|[_ Hfk]]; [done|]. apply Hfk; [by apply (si_block _ _ _ _ Hi)| |done]. split; [|congruence].
  destruct (in_block_true _ (si_block _ _ _ _ Hi k Hk)) as [-> _].
  by destruct (in_block_true _ (si_block _ _ _ _ Hi p Hp)) as [-> _].
Qed.

Lemma duplicate_claim b0 ps i p l s :
  scan_inv b0 ps (i :: l) s -> last ps = Some p ->
  same_page (entry_at (sn_batch s) i) (entry_at (sn_batch s) p) ->
  fe_is_fatal (entry_at (sn_batch s) p) = false ->
  UVM_FAULT_ACCESS_TYPE_WRITE <= fe_access (entry_at (sn_batch s) i) -> claim s i.
Proof.
  intros Hi Hl [Hv Ha] Hf Hw. destruct (last_before _ _ _ _ _ Hi Hl) as [Hp _].
  destruct (next_after _ _ _ _ _ _ Hi Hp) as [Hle _]. unfold fault_le in Hle. rewrite Hv, Ha in Hle.
  destruct (si_claim _ _ _ _ Hi p Hp ltac:(lia)) as [Hc|[Hc|Hc]]; [by left|congruence|].
  unfold claim, page_of in *. rewrite Ha. by right; right.
Qed.

Lemma claim_marks s i b :
  marks i (sn_batch s) b -> claim s i -> claim (sn_set_batch b s) i.
Proof.
  intros [Ht Hf] Hc. destruct (touches_fields _ _ _ i Ht) as (Ha & _ & _). unfold claim, page_of in *. cbn.
  rewrite Hf, Ha. destruct Hc as [?|[?|[?|?]]]; [by left|by right; left|by right; right; left|right; right; right].
  by eapply recorded_ext; [..|done].
Qed.

Lemma scan_service_step b0 ps i l s b :
  scan_inv b0 ps (i :: l) s -> in_block cfg blk (entry_at (sn_batch s) i) = true ->
  Z.of_nat (length ps) < 2 ^ 32 - 1 -> marks i (sn_batch s) b ->
  (forall k, k ∈ ps -> fe_address (entry_at (sn_batch s) k) = fe_address (entry_at (sn_batch s) i) ->
     fe_is_fatal (entry_at (sn_batch s) k) = true) ->
  scan_inv b0 (ps ++ [i]) l (scan_service cfg gpu blk i (sn_set_batch b s)).
Proof.
  intros Hi Hib Hlen Hmk Hf. pose proof (proj1 Hmk) as Ht. pose proof (si_seg _ _ _ _ Hi) as Hseg. pose proof (si_count _ _ _ _ Hi) as Hct.
  pose proof (touches_fields _ _ _ i Ht) as (_ & Hacc & _).
  destruct (scan_service_spec i (sn_set_batch b s)) as [Hs Hc].
  - cbn. rewrite (tk_length _ _ _ Ht). apply (so_range _ _ Hseg). set_solver.
  - cbn. lia.
  - cbn. rewrite Hacc. apply (so_access _ _ Hseg). set_solver.
  - cbn [sn_batch sn_set_batch] in Hc. rewrite Hacc in Hc.
    eapply scan_step; [done|done|by eapply scanned_pre; [by apply marks_settles|]|done|by left].
Qed.

Lemma scan_entry_step b0 ps i l s :
  scan_inv b0 ps (i :: l) s -> in_block cfg blk (entry_at (sn_batch s) i) = true ->
  Z.of_nat (length ps) < 2 ^ 32 - 1 ->
  scan_inv b0 (ps ++ [i]) l (scan_entry cfg gpu blk (last ps) i s).
Proof.
  intros Hi Hib Hlen. pose proof (si_seg _ _ _ _ Hi) as Hseg.
  assert (Hin : (i < length (bc_cache (sn_batch s)))%nat) by (apply (so_range _ _ Hseg); set_solver).
  unfold scan_entry. set (ba := bc_assert _ (sn_batch s)). set (b1 := set_entry i _ ba).
  assert (Hm1 : marks i (sn_batch s) b1).
  { eapply marks_trans; [by apply (marks_same _ _ ba)|]. by apply marks_set. }
  set (dup := match last ps with Some p => _ | None => None end).
  set (b2 := if _ =? 0 then _ else b1).
  assert (Hm2 : marks i (sn_batch s) b2).
  { eapply marks_trans; [exact Hm1|]. unfold b2. destruct (_ =? 0); by apply marks_same. }
  assert (Hprev : forall p, last ps = Some p -> p <> i /\ entry_at b1 p = entry_at (sn_batch s) p).
  { intros p Hl. destruct (last_before _ _ _ _ _ Hi Hl) as [Hp _]. destruct (next_after _ _ _ _ _ _ Hi Hp) as [_ Hne].
    split; [done|]. by apply (tk_other _ _ _ (proj1 Hm1)). }
  destruct dup as [p|] eqn:Hdup; unfold dup in Hdup; clearbody b2.
  - assert (Hl : last ps = Some p) by (destruct (last ps) as [p'|]; [|done]; by case_match; simplify_eq).
    rewrite Hl in Hdup. destruct (Hprev p Hl) as [Hne Hp1]. rewrite Hp1 in Hdup.
    assert (Hsp : same_page (entry_at (sn_batch s) i) (entry_at (sn_batch s) p)).
    { case_match eqn:Hc; [|done]. unfold check_fault_entry_duplicate in Hc.
      apply andb_prop in Hc as [H1 H2]. bprop. btest. done. }
    set (b3 := fault_entry_duplicate_flags i p b2).
    assert (Hm3 : marks i (sn_batch s) b3).
    { eapply marks_trans; [exact Hm2|]. apply marks_flags. by rewrite (tk_length _ _ _ (proj1 Hm2)). }
    clearbody b3. rewrite (tk_other _ _ _ (proj1 Hm3)) by done.
    destruct (fe_is_fatal (entry_at (sn_batch s) p)) eqn:Hf; cbn [negb].
    + apply scan_service_step; [done..|]. intros k Hk. by apply (duplicate_fatal b0 ps i p l).
    + eapply scan_step; [done|done|by apply scanned_batch, marks_settles| |].
      * intros Hw. apply claim_marks; [done|]. by eapply duplicate_claim.
      * right. split; [apply Hm3|]. intros page. by apply recorded_ext.
  - apply scan_service_step; [done..|]. intros k Hk Ha. destruct (no_duplicate b0 ps i l s k); [done..| |done].
    intros p Hl. rewrite Hl in Hdup. destruct (Hprev p Hl) as [_ Hp1]. rewrite Hp1 in Hdup. by case_match.
Qed.

(** The scan ends at the first fault of another block. *)
Lemma scan_faults_step b0 l : forall ps s,
  scan_inv b0 ps l s -> Z.of_nat (length (ps ++ l)) < 2 ^ 32 ->
  let '(n, s') := scan_faults cfg gpu blk (last ps) l s in
  exists l1 l2, l = l1 ++ l2 /\ n = Z.of_nat (length l1) /\ scan_inv b0 (ps ++ l1) l2 s' /\
    forall h, head l2 = Some h -> in_block cfg blk (entry_at b0 h) = false.
Proof.
  induction l as [|i l IH]; intros ps s Hi Hlen; cbn [scan_faults].
  { exists [], []. by rewrite (app_nil_r ps). }
  rewrite length_app in Hlen. cbn [length] in Hlen.
  destruct (in_block cfg blk (entry_at (sn_batch s) i)) eqn:Hib.
  - pose proof (scan_entry_step b0 ps i l s Hi Hib ltac:(lia)) as H1.
    specialize (IH (ps ++ [i]) _ H1). rewrite last_snoc in IH.
    destruct (scan_faults cfg gpu blk (Some i) l _) as [n s'].
    destruct IH as (l1 & l2 & -> & -> & H2 & H3); [rewrite !length_app; cbn [length]; lia|].
    exists (i :: l1), l2. rewrite <- app_assoc in H2. split; [done|]. split; [cbn [length]; lia|done].
  - exists [], (i :: l). rewrite app_nil_r. split; [done|]. split; [done|]. split; [done|].
    intros h [= <-]. unfold in_block, fe_address in *.
    by destruct (md_key _ _ (si_marked _ _ _ _ Hi) i) as (Hp & Hv & _); rewrite Hp, Hv in Hib.
Qed.

(** The first [n] faults of [l] are the ones of the block before the first of
    another block. *)
Definition block_prefix (b : batch) (l : list nat) (n : Z) : Prop :=
  exists l1 l2, l = l1 ++ l2 /\ n = Z.of_nat (length l1) /\
    (forall i, i ∈ l1 -> in_block cfg blk (entry_at b i) = true) /\
    forall h, head l2 = Some h -> in_block cfg blk (entry_at b h) = false.

Lemma scan_all b0 k l :
  seg_ok b0 l -> Z.of_nat (length l) < 2 ^ 32 -> 0 < ft_va_space cfg ->
  (forall h, head l = Some h -> in_block cfg blk (entry_at b0 h) = true) ->
  let '(n, s') := scan_faults cfg gpu blk None l (mk_scan k b0 PAGES_PER_UVM_VA_BLOCK 0 0) in
  marked b0 (sn_batch s') /\ seg_ok (sn_batch s') l /\
  (0 <= sn_first s' /\ sn_last s' < PAGES_PER_UVM_VA_BLOCK) /\
  block_prefix b0 l n /\
  (forall i, i ∉ l \/ in_block cfg blk (entry_at b0 i) = false -> entry_at (sn_batch s') i = entry_at b0 i) /\
  forall i, i ∈ l -> in_block cfg blk (entry_at b0 i) = true ->
    UVM_FAULT_ACCESS_TYPE_WRITE <= fe_access (entry_at b0 i) -> claim s' i.
Proof.
  intros Hseg Hlen Hvs Hhead.
  assert (Hi : scan_inv b0 [] l (mk_scan k b0 PAGES_PER_UVM_VA_BLOCK 0 0)).
  { split; cbn; [apply marked_refl|done|done|set_solver|set_solver|lia|done]. }
  pose proof (scan_faults_step b0 l [] _ Hi Hlen) as Hs. cbn [last app] in Hs.
  destruct (scan_faults _ _ _ _ _ _) as [n s']. destruct Hs as (l1 & l2 & -> & Hn & H2 & H3).
  assert (Hib1 : forall i, i ∈ l1 -> in_block cfg blk (entry_at b0 i) = true).
  { intros i Hil. pose proof (si_block _ _ _ _ H2 i Hil) as Hib. unfold in_block, fe_address in *.
    by destruct (md_key _ _ (si_marked _ _ _ _ H2) i) as (Hp & Hv & _); rewrite Hp, Hv in Hib. }
  split; [apply H2|]. split; [apply H2|]. split; [apply H2|]. split; [by exists l1, l2|].
  split. { intros i Hor. apply (si_other _ _ _ _ H2). intros Hil. destruct Hor as [Hor|Hor]; [set_solver|].
    by rewrite Hib1 in Hor. }
  intros i Hil Hib Hw. destruct (md_key _ _ (si_marked _ _ _ _ H2) i) as (Hp & _).
  apply elem_of_app in Hil as [Hil|Hil].
  { apply (si_claim _ _ _ _ H2 i Hil). unfold fe_access in *. by rewrite Hp. }
  (* nothing of the block comes after the end of the scan *)
  exfalso. destruct l2 as [|h l2]; [by apply elem_of_nil in Hil|]. specialize (H3 h eq_refl).
  apply elem_of_cons in Hil as [->|Hil]; [congruence|]. apply list_elem_of_lookup_1 in Hil as [q Hq].
  destruct l1 as [|f l1]; [by rewrite (Hhead h eq_refl) in H3|].
  destruct (in_block_true _ (Hhead f eq_refl)) as [Hvf _]. destruct (in_block_true _ Hib) as [Hvi Hai].
  assert (Hl1 : fault_le (entry_at b0 f) (entry_at b0 h)).
  { apply (so_sorted _ _ Hseg 0%nat (length (f :: l1))); [cbn; lia|done|]. by rewrite lookup_app_r, Nat.sub_diag by lia. }
  assert (Hl2 : fault_le (entry_at b0 h) (entry_at b0 i)).
  { apply (so_sorted _ _ Hseg (length (f :: l1)) (length (f :: l1) + S q)%nat); [lia| |].
    - by rewrite lookup_app_r, Nat.sub_diag by lia.
    - rewrite lookup_app_r by lia. by replace (_ + S q - _)%nat with (S q) by lia. }
  unfold fault_le in Hl1, Hl2. rewrite Hvf in Hl1. rewrite Hvi in Hl2. cbn [default] in Hl1, Hl2.
  unfold in_block in H3. destruct (fe_va_space (entry_at b0 h)) as [v|] eqn:Hv; cbn in Hl1, Hl2; [|lia].
  assert (v = ft_va_space cfg) as -> by lia. rewrite bool_decide_eq_true_2 in H3 by done. cbn in H3. btest.
Qed.
End Scan.
