(* ===== verification/FaultReport.v ===== *)
(** Fault servicing and dirty tracking together: on a tracked block, every write
    fault that the range permits and that is not throttled leaves the block
    dirty, from the scan of the block's faults ([FaultService]) through
    [uvm_va_block_service_finish] ([Service]), and from the fault buffer
    ([FaultBuffer], [FaultBatch]) to the block. *)
From stdpp Require Import functions sorting.
From S2P Require Import Prelude Kernel VaBlock Permissions Tracking Accessors Service FaultBuffer FaultBatch FaultService.

Section BulkRestore.
Context (cfg : service_cfg).

(** What the bulk restore keeps of the context. *)
Record restored (c c' : service_context) : Prop := {
  rs_access : forall page, sc_access_type c' page = sc_access_type c page \/
                           sc_access_type c' page = sv_atomic_strong cfg;
  rs_writes : pm_mask (sc_rw c) ∪ pm_mask (sc_rwa c) ⊆ pm_mask (sc_rw c') ∪ pm_mask (sc_rwa c');
}.

#[export] Instance restored_preorder : PreOrder restored.
Proof.
  split; [intros c; split; [by left|done]|]. intros c1 c2 c3 [A1 W1] [A2 W2]. split; [|set_solver].
  intros page. destruct (A2 page) as [->| ->]; [apply A1|by right].
Qed.

Lemma move_to_rwa_restored l c : restored c (fold_left (move_to_rwa cfg) l c).
Proof.
  revert c. induction l as [|x l IH]; intros c; [done|]. cbn [fold_left]. etransitivity; [|apply IH]. split.
  - intros page. cbn. destruct (page =? x); auto.
  - cbn. intros y. destruct (decide (y = x)); set_solver.
Qed.

Lemma add_to_rwa_restored l c : restored c (fold_left (add_to_rwa cfg) l c).
Proof.
  revert c. induction l as [|x l IH]; intros c; [done|]. cbn [fold_left]. etransitivity; [|apply IH].
  unfold add_to_rwa. destruct (bool_decide _); [done|]. split; [intros page; cbn; destruct (page =? x); auto|].
  cbn. set_solver.
Qed.

Lemma bulk_restore_restored b p c :
  restored c (service_bulk_restore cfg b p c) /\
  (sc_region (service_bulk_restore cfg b p c) = sc_region c \/
   sc_region (service_bulk_restore cfg b p c) = uvm_va_block_region_from_block b).
Proof.
  unfold service_bulk_restore. destruct (_ && _); [|split; [done|by left]]. split; [|by right].
  etransitivity; [apply move_to_rwa_restored|].
  etransitivity; [apply (add_to_rwa_restored (pages_in_region_mask (uvm_va_block_region_from_block b)
    (uvm_va_block_resident_mask_get b (sc_new_residency c))))|]. split; [by left|done].
Qed.
End BulkRestore.

Lemma compute_mappings_access cfg b p c :
  sc_access_type (service_compute_mappings cfg b p c) = sc_access_type c.
Proof.
  unfold service_compute_mappings. set (pages := pages_in_region_mask _ _). clearbody pages.
  change (sc_access_type c) with (sc_access_type (reset_counts c)).
  generalize (reset_counts c). induction pages as [|x l IH]; intros c1; [done|].
  cbn [fold_left]. rewrite IH. by destruct (compute_new_permission _ _ _ _ _ _).
Qed.

(** A page that asks for write access gets it. *)
Lemma new_permission_writable cfg b page p res t :
  writable (sv_access_prot cfg t) = true -> writable (compute_new_permission cfg b page p res t) = true.
Proof.
  intros Hw. unfold compute_new_permission. destruct (sv_access_prot cfg t) eqn:He; try done;
    rewrite andb_false_r; cbn [andb]; by case_match.
Qed.

Lemma recorded_write_page cfg b p c page :
  page ∈ region_mask (sc_region c) -> page ∈ sc_residency_mask c -> page ∈ full_mask b ->
  rg_outer (sc_region c) - rg_first (sc_region c) < 2 ^ 32 ->
  writable (sv_access_prot cfg (sc_access_type c page)) = true ->
  page ∈ write_pages (service_bulk_restore cfg b p (service_compute_mappings cfg b p c)).
Proof.
  intros Hr Hres Hfull Hsz Hw. set (c1 := service_compute_mappings cfg b p c).
  assert (Hin : page ∈ pm_mask (sc_rw c1) ∪ pm_mask (sc_rwa c1)).
  { pose proof (new_permission_writable cfg b page p (sc_new_residency c) _ Hw) as Hp.
    assert (Hpage : page ∈ pages_in_region_mask (sc_region c) (sc_residency_mask c))
      by (apply elem_of_pages_in_region_mask; by rewrite <- elem_of_region_mask).
    assert (forall q, q <> UVM_PROT_NONE -> page_prot cfg b p c page = q -> page ∈ pm_mask (sc_mapping c1 q)) as Hm.
    { intros q Hq Hpq. unfold c1. rewrite compute_mappings_correct by done. unfold filled. cbn [pm_mask].
      assert (page ∈ pages_with cfg b p c q (pages_in_region_mask (sc_region c) (sc_residency_mask c))) as Hpw
        by (unfold pages_with; by apply list_elem_of_filter).
      rewrite bool_decide_eq_false_2 by (intros Hnil; rewrite Hnil in Hpw; by apply elem_of_nil in Hpw).
      by apply elem_of_list_to_set. }
    change (writable (page_prot cfg b p c page) = true) in Hp.
    destruct (page_prot cfg b p c page) eqn:Hpp; cbn in Hp; try done.
    - specialize (Hm UVM_PROT_READ_WRITE ltac:(done) eq_refl). cbn in Hm. set_solver.
    - specialize (Hm UVM_PROT_READ_WRITE_ATOMIC ltac:(done) eq_refl). cbn in Hm. set_solver. }
  destruct (bulk_restore_restored cfg b p c1) as [[_ Hrw] Hrg]. unfold write_pages.
  destruct (compute_mappings_frame cfg b p c) as [Hcr _]. fold c1 in Hcr.
  destruct Hrg as [->| ->]; [rewrite Hcr; set_solver|]. fold (full_mask b). set_solver.
Qed.

(** What servicing keeps of a block: its bounds, its flags (dirty may be set),
    and while the block is tracked and clean, no new writable page of the GPU. *)
Record follows (gpu : Z) (b b' : va_block) : Prop := {
  fo_start    : vb_start b' = vb_start b;
  fo_end      : vb_end b' = vb_end b;
  fo_tracking : vb_tracking b' = vb_tracking b;
  fo_dirty    : vb_dirty b = true -> vb_dirty b' = true;
  fo_wf       : perm_wf b -> perm_wf b';
  fo_prot     : vb_tracking b = true -> vb_dirty b' = false ->
                prot_pages b' gpu UVM_PROT_READ_WRITE ⊆ prot_pages b gpu UVM_PROT_READ_WRITE;
}.

#[export] Instance follows_preorder gpu : PreOrder (follows gpu).
Proof.
  split; [by constructor|]. intros b1 b2 b3 [] []. constructor; auto; try congruence.
  intros Ht Hd. assert (vb_dirty b2 = false).
  { destruct (vb_dirty b2); [|done]. rewrite fo_dirty1 in Hd by done. done. }
  etransitivity; [apply fo_prot1; congruence|auto].
Qed.

Lemma follows_full_mask gpu b b' : follows gpu b b' -> full_mask b' = full_mask b.
Proof.
  intros []. unfold full_mask, uvm_va_block_region_from_block, uvm_va_block_num_cpu_pages, uvm_va_block_size.
  congruence.
Qed.

Section Serve.
Context `{FaultCodes} `{E : Env} (cfg : fault_cfg) (gpu : Z) (Hgpu : 0 < gpu).
Context (Hprot : forall t, UVM_FAULT_ACCESS_TYPE_WRITE <= t ->
                   writable (sv_access_prot (ft_service cfg) t) = true).
Context (Hatomic : sv_atomic_strong (ft_service cfg) = UVM_FAULT_ACCESS_TYPE_ATOMIC_STRONG).
Context (Hids : processors_ok (ft_service cfg)).
(** The copy moves data and changes residency: it maps nothing writable for the
    GPU and keeps the flags of the block. *)
Context (service_copy : Z -> Z -> block_ctx -> va_block -> K (nv_status * va_block * gset Z)).
Context (Hcopy : forall r k b s, perm_wf b ->
  wp (service_copy gpu r k b) (fun '(_, b', _) _ => follows gpu b b') s).

Lemma finish_follows pins b c s :
  perm_wf b -> vb_tracking b = true ->
  let sv := sv_with_pins pins (ft_service cfg) in
  wp (uvm_va_block_service_finish sv gpu b c)
    (fun '(st, b', c') _ => follows gpu b b' /\
       (st = NV_OK -> c' = service_bulk_restore sv b gpu (service_compute_mappings sv b gpu c) /\
          (write_pages c' <> ∅ -> vb_dirty b' = true))) s.
Proof.
  intros Hwf Ht sv.
  assert (processors_ok sv) as Hsv by (destruct Hids; by constructor).
  pose proof (service_finish_spec sv gpu b c s Hwf ltac:(lia) Hsv) as Hs.
  eapply wp_mono; [exact Hs|]. intros [[st b'] c'] s' [(-> & -> & _)|(Hc & b1 & [Hsd Hg] & Hb1)].
  { split; [done|discriminate]. }
  rewrite Ht in Hb1. unfold UVM_ID_IS_GPU in Hb1.
  rewrite (proj2 (Z.ltb_lt _ _) Hgpu) in Hb1. cbn [andb] in Hb1. rewrite <- Hc in Hg. split.
  - assert (Hb : follows gpu b b1).
    { rewrite Hb1. case_match; [|done]. split; try done. by apply perm_wf_set_migration. }
    etransitivity; [exact Hb|]. destruct Hsd. split; auto; [congruence|]. intros _ Hd page Hpage.
    destruct (Hg gpu page Hgpu Hpage) as [H1|[[_ HW]|[[] _]]]; [done| |done].
    rewrite bool_decide_eq_false_2 in Hb1 by (clear - HW; set_solver). by rewrite sd_dirty, Hb1 in Hd.
  - intros _. split; [done|]. intros Hne. rewrite (sd_dirty _ _ _ _ Hsd), Hb1.
    by rewrite bool_decide_eq_false_2.
Qed.

(** The context when some residencies are done. *)
Record ctx_inv (b0 : va_block) (k0 : block_ctx) (rs : list Z) (bk : va_block * block_ctx) : Prop := {
  ci_block     : follows gpu b0 bk.1;
  ci_residency : bk_residency bk.2 = bk_residency k0;
  ci_access    : forall page, UVM_FAULT_ACCESS_TYPE_WRITE <= bk_access k0 page ->
                   UVM_FAULT_ACCESS_TYPE_WRITE <= bk_access bk.2 page;
  ci_region    : bk_region bk.2 = bk_region k0 \/ bk_region bk.2 = uvm_va_block_region_from_block b0;
  ci_done      : forall r page, r ∈ rs -> page ∈ bk_residency k0 r -> page ∈ full_mask b0 ->
                   page ∈ region_mask (bk_region k0) ->
                   UVM_FAULT_ACCESS_TYPE_WRITE <= bk_access k0 page -> vb_dirty bk.1 = true;
}.

Lemma service_residency_step b0 k0 rs r bk s :
  perm_wf b0 -> vb_tracking b0 = true -> block_range b0 ->
  rg_outer (bk_region k0) - rg_first (bk_region k0) < 2 ^ 32 ->
  ctx_inv b0 k0 rs bk ->
  wp (service_residency service_copy cfg gpu bk r)
    (fun res _ => follows gpu b0 res.2.1 /\
                  (res.1 = None -> ctx_inv b0 k0 (rs ++ [r]) res.2) /\ res.1 <> Some NV_OK) s.
Proof.
  intros Hwf Ht Hbr Hsz [Hb Hres Hac Hrg Hd]. destruct bk as [b k]. cbn [fst snd] in *.
  pose proof (fo_wf _ _ _ Hb Hwf) as Hwfb. unfold service_residency. apply wp_bind.
  eapply wp_mono; [by apply Hcopy|]. intros [[st b1] did] s1 Hb1. cbn in Hb1.
  assert (Hb01 : follows gpu b0 b1) by by etransitivity.
  apply wp_if; intros Hst.
  { apply wp_ret. split; [done|]. split; [done|]. intros [= ->]. done. }
  apply wp_bind. eapply wp_mono.
  { apply finish_follows; [by apply (fo_wf _ _ _ Hb1)|]. by rewrite (fo_tracking _ _ _ Hb01). }
  intros [[st2 b2] c] s2 [Hb2 Hok]. apply wp_ret. cbn [fst snd]. split; [by etransitivity|].
  split; [|intros [-> ?]%leave_on_error_Some; done].
  intros ->%leave_on_error_None. destruct (Hok eq_refl) as [Hc Hdirty]. clear Hok.
  set (pins := if 0 <? _ then _ else None) in *. set (sv := sv_with_pins pins (ft_service cfg)) in *.
  set (c0 := finish_ctx k r did) in *.
  destruct (bulk_restore_restored sv b1 gpu (service_compute_mappings sv b1 gpu c0)) as [[Ha _] Hr].
  rewrite <- Hc in Ha, Hr. rewrite compute_mappings_access in Ha.
  rewrite (proj1 (compute_mappings_frame sv b1 gpu c0)) in Hr.
  split; cbn [fst snd bk_from_finish bk_residency bk_access bk_region].
  - by etransitivity.
  - done.
  - intros page Hp. pose proof access_types_ordered.
    destruct (Ha page) as [->| ->]; [by apply Hac|]. change (sv_atomic_strong sv) with (sv_atomic_strong (ft_service cfg)). lia.
  - destruct Hr as [->| ->]; [done|right]. unfold uvm_va_block_region_from_block, uvm_va_block_num_cpu_pages, uvm_va_block_size.
    by rewrite (fo_start _ _ _ Hb01), (fo_end _ _ _ Hb01).
  - intros q page [Hq| ->%list_elem_of_singleton]%elem_of_app Hp Hfull Hreg Hw.
    { apply (fo_dirty _ _ _ Hb2), (fo_dirty _ _ _ Hb1). by eapply Hd. }
    apply Hdirty. intros Hnil. cut (page ∈ write_pages c); [rewrite Hnil; set_solver|]. rewrite Hc.
    apply recorded_write_page.
    + cbn. destruct Hrg as [->| ->]; done.
    + cbn. by rewrite Hres.
    + by rewrite (follows_full_mask _ _ _ Hb01).
    + cbn. destruct Hrg as [->| ->]; [done|]. cbn.
      pose proof (page_bounds b0 Hbr (vb_start b0)) as Hpb. destruct Hbr as [Hs _].
      unfold PAGES_PER_UVM_VA_BLOCK in Hpb. lia.
    + cbn. apply Hprot. by apply Hac.
Qed.

Lemma service_locked_spec b k s :
  perm_wf b -> vb_tracking b = true -> block_range b ->
  rg_outer (bk_region k) - rg_first (bk_region k) < 2 ^ 32 ->
  wp (uvm_va_block_service_locked service_copy cfg gpu b k)
    (fun '(st, b', _) _ => follows gpu b b' /\
       (st = NV_OK -> forall r page, r ∈ bk_resident k -> page ∈ bk_residency k r -> page ∈ full_mask b ->
          page ∈ region_mask (bk_region k) -> UVM_FAULT_ACCESS_TYPE_WRITE <= bk_access k page ->
          vb_dirty b' = true)) s.
Proof.
  intros Hwf Ht Hbr Hsz. unfold uvm_va_block_service_locked. rewrite Ht. apply wp_bind.
  eapply wp_mono.
  { apply (wp_kfold_prefix (fun rs bk _ => ctx_inv b k rs bk) (fun st bk _ => follows gpu b bk.1 /\ st <> NV_OK)).
    - intros ys x zs bk s1 _ Hi. eapply wp_mono; [by apply (service_residency_step b k ys)|].
      intros [[st|] bk'] s2 (H1 & H2 & H3); cbn in *; [|by apply H2]. split; [done|]. congruence.
    - split; cbn; [done|done|done|by left|]. intros r page Hr. by apply elem_of_nil in Hr. }
  intros [ex [b' k']] s1 He. apply wp_ret. cbn [fst snd] in *. destruct ex as [st|]; cbn [loop_status].
  - destruct He as [He Hne]. split; [done|]. intros Hst. by destruct (Hne Hst).
  - split; [apply He|]. intros _ r page Hr Hp Hf Hreg Hw.
    eapply (ci_done _ _ _ _ He r page); [|done..]. by apply elem_of_ids_in_mask.
Qed.

(** The faults of the block from [first_fault_index] on: [b0] is the batch when
    servicing starts. *)
Record work_inv (b0 : batch) (blk0 : va_block) (l : list nat) (w : block_work) : Prop := {
  wi_block  : follows gpu blk0 (bw_block w);
  wi_marked : marked cfg gpu b0 (bw_batch w);
  wi_seg    : seg_ok cfg blk0 (bw_batch w) l;
  wi_other  : forall i, i ∉ l \/ in_block cfg blk0 (entry_at b0 i) = false ->
                entry_at (bw_batch w) i = entry_at b0 i;
}.

(** Every fault of the block that asks to write was refused by the range, or is
    throttled, or made the block dirty. *)
Definition writes_reported (b0 : batch) (blk0 : va_block) (l : list nat) (w : block_work) : Prop :=
  forall i, i ∈ l -> in_block cfg blk0 (entry_at b0 i) = true ->
    UVM_FAULT_ACCESS_TYPE_WRITE <= fe_access (entry_at b0 i) ->
    fe_is_fatal (entry_at (bw_batch w) i) = true \/
    ft_thrashing cfg (fe_address (entry_at b0 i)) = UVM_PERF_THRASHING_HINT_TYPE_THROTTLE \/
    vb_dirty (bw_block w) = true.

Lemma seg_ok_block blk blk' b l : follows gpu blk blk' \/ follows gpu blk' blk -> seg_ok cfg blk b l -> seg_ok cfg blk' b l.
Proof.
  intros Hf []. assert (vb_start blk' = vb_start blk /\ vb_end blk' = vb_end blk) as [Hs He] by (by destruct Hf as [[]|[]]).
  split; unfold in_block in *; rewrite ?Hs, ?He; auto.
Qed.

Lemma in_block_ext blk blk' e e' :
  vb_end blk' = vb_end blk -> same_key e e' -> in_block cfg blk' e' = in_block cfg blk e.
Proof. intros He (Hp & Hv & _). unfold in_block, fe_address. by rewrite He, Hp, Hv. Qed.

Lemma follows_clean blk0 b :
  vb_tracking blk0 = true -> quiet {[gpu]} blk0 -> follows gpu blk0 b ->
  vb_dirty b = false -> prot_pages b gpu UVM_PROT_READ_WRITE = ∅.
Proof.
  intros Ht Hq Hfw Hd. pose proof (fo_prot _ _ _ Hfw Ht Hd) as Hsub.
  rewrite Hq in Hsub; [set_solver|done| |set_solver|done].
  destruct (vb_dirty blk0) eqn:Hd0; [|done]. by rewrite (fo_dirty _ _ _ Hfw Hd0) in Hd.
Qed.

Lemma follows_range blk0 b : block_range blk0 -> follows gpu blk0 b -> block_range b.
Proof. intros [] Hfw. split; by rewrite (fo_start _ _ _ Hfw), (fo_end _ _ _ Hfw). Qed.

(** The second half of an attempt: the recorded pages are serviced. *)
Lemma serve_recorded b sc s :
  perm_wf b -> vb_tracking b = true -> block_range b ->
  0 <= sn_first sc -> sn_last sc < PAGES_PER_UVM_VA_BLOCK ->
  wp (if 0 <? sn_count sc
      then uvm_va_block_service_locked service_copy cfg gpu b
             (bk_set_region (mk_region (sn_first sc) (sn_last sc + 1)) (sn_ctx sc))
      else kret (NV_OK, b, sn_ctx sc))
    (fun '(st, b', _) _ => follows gpu b b' /\
       (st = NV_OK -> forall page, page ∈ full_mask b -> recorded sc page -> vb_dirty b' = true)) s.
Proof.
  intros Hwf Ht Hbr Hf Hl. unfold PAGES_PER_UVM_VA_BLOCK in *. apply wp_if; intros Hc; btest.
  - eapply wp_mono; [apply service_locked_spec; [done..|cbn; lia]|].
    intros [[st b'] k'] s' [Hb Hd]. split; [done|]. intros Hst page Hfull [(r & Hr & Hp) Ha Hreg Hn].
    apply (Hd Hst r page); [done..| |done]. apply elem_of_region_mask. cbn. lia.
  - apply wp_ret. split; [done|]. intros _ page _ [_ _ _ Hn]. lia.
Qed.

(** The first half: what the scan of block [b] leaves to be serviced. *)
Lemma block_scan b0 blk0 l w b bt k :
  perm_wf blk0 -> vb_tracking blk0 = true -> block_range blk0 ->
  quiet {[gpu]} blk0 -> 0 < ft_va_space cfg -> Z.of_nat (length l) < 2 ^ 32 ->
  (forall h, head l = Some h -> in_block cfg blk0 (entry_at b0 h) = true) ->
  work_inv b0 blk0 l w -> b = bw_block w -> bc_cache bt = bc_cache (bw_batch w) ->
  bc_ordered bt = bc_ordered (bw_batch w) ->
  let '(n, sc) := scan_faults cfg gpu b None l (mk_scan k bt PAGES_PER_UVM_VA_BLOCK 0 0) in
  0 <= sn_first sc /\ sn_last sc < PAGES_PER_UVM_VA_BLOCK /\
  forall b' k', follows gpu b b' ->
    let w' := mk_block_work b' k' (sn_batch sc) n in
    work_inv b0 blk0 l w' /\ block_prefix cfg blk0 b0 l n /\
    ((forall page, page ∈ full_mask b -> recorded sc page -> vb_dirty b' = true) ->
     writes_reported b0 blk0 l w').
Proof.
  intros Hwf0 Ht0 Hbr0 Hq Hvs Hlen Hhead [Hfw Hmk Hseg Hot] -> Hcache Hord. set (b := bw_block w) in *.
  assert (Hbt : marked cfg gpu b0 bt).
  { destruct Hmk as [M1 M2 M3 M4]. unfold entry_at in *. split; unfold entry_at; rewrite ?Hcache; auto. congruence. }
  assert (Hsb : seg_ok cfg b bt l).
  { apply (seg_ok_block blk0); [by left|].
    destruct Hseg. split; unfold entry_at in *; rewrite ?Hcache; auto. }
  assert (Hib : forall i, in_block cfg b (entry_at bt i) = in_block cfg blk0 (entry_at b0 i)).
  { intros i. apply in_block_ext; [by rewrite (fo_end _ _ _ Hfw)|]. apply Hbt. }
  pose proof (scan_all cfg gpu b Hgpu (fo_wf _ _ _ Hfw Hwf0) (follows_range _ _ Hbr0 Hfw)
    (follows_clean _ _ Ht0 Hq Hfw) Hprot bt k l Hsb Hlen Hvs) as Hs.
  destruct (scan_faults _ _ _ _ _ _) as [n sc].
  destruct Hs as (Hm & Hsg & [Hp1 Hp2] & Hpre & Hso & Hcl). { intros h Hh. rewrite Hib. by apply Hhead. }
  split; [done|]. split; [done|]. intros b' k' Hb'. split.
  { split; cbn; [by etransitivity|by eapply marked_trans| |].
    - eapply seg_ok_block; [|exact Hsg]. by right.
    - intros i Hi. rewrite Hso by by rewrite Hib. unfold entry_at in *. rewrite Hcache. by apply Hot. }
  split.
  { destruct Hpre as (l1 & l2 & Hl1 & Hn & H1 & H2). exists l1, l2.
    split_and!; [done|done| |]; intros i; rewrite <- Hib; auto. }
  intros Hrec i Hi Hin Hw. destruct (md_key _ _ _ _ Hbt i) as (Hp & Hv & _).
  assert (Ha : fe_address (entry_at (sn_batch sc) i) = fe_address (entry_at b0 i)).
  { unfold fe_address. rewrite (proj1 (md_key _ _ _ _ Hm i)). by rewrite Hp. }
  destruct (Hcl i Hi) as [Hc|[Hc|[Hc|Hc]]]; [by rewrite Hib|unfold fe_access in *; by rewrite Hp|..]; cbn.
  - right; right. by apply (fo_dirty _ _ _ Hb').
  - by left.
  - right; left. by rewrite <- Ha.
  - right; right. refine (Hrec _ _ Hc). unfold page_of. rewrite Ha.
    rewrite <- Hib in Hin. apply in_block_true in Hin as [Hv1 He].
    pose proof (so_start _ _ _ _ Hsb i Hi Hv1) as Hst. unfold fe_address in *. rewrite Hp in *.
    destruct (page_bounds b (follows_range _ _ Hbr0 Hfw) _ Hst He). apply elem_of_region_mask. cbn. lia.
Qed.

Lemma block_locked_spec b0 blk0 first w s :
  let l := drop first (bc_ordered b0) in
  perm_wf blk0 -> vb_tracking blk0 = true -> block_range blk0 ->
  quiet {[gpu]} blk0 -> 0 < ft_va_space cfg -> Z.of_nat (length l) < 2 ^ 32 ->
  (forall h, head l = Some h -> in_block cfg blk0 (entry_at b0 h) = true) ->
  work_inv b0 blk0 l w ->
  wp (service_fault_batch_block_locked service_copy cfg gpu first w)
    (fun '(st, w') _ => work_inv b0 blk0 l w' /\
       (st = NV_OK -> writes_reported b0 blk0 l w' /\ block_prefix cfg blk0 b0 l (bw_faults w'))) s.
Proof.
  intros l Hwf0 Ht0 Hbr0 Hq Hvs Hlen Hhead Hi. pose proof (wi_block _ _ _ _ Hi) as Hfw.
  unfold service_fault_batch_block_locked. cbv zeta.
  rewrite (md_order _ _ _ _ (wi_marked _ _ _ _ Hi)). fold l.
  set (k := bk_set_dups _ _ _). set (bt := bc_assert _ (bw_batch w)).
  pose proof (block_scan b0 blk0 l w (bw_block w) bt k Hwf0 Ht0 Hbr0 Hq Hvs Hlen Hhead Hi
    eq_refl eq_refl eq_refl) as Hs.
  destruct (scan_faults _ _ _ _ _ _) as [n sc]. destruct Hs as (Hp1 & Hp2 & Hw). apply wp_bind.
  eapply wp_mono; [apply serve_recorded; [by apply (fo_wf _ _ _ Hfw)|by rewrite (fo_tracking _ _ _ Hfw)
    |by eapply follows_range|done|done]|].
  intros [[st b'] k'] s' [Hb' Hd]. apply wp_ret. destruct (Hw b' (bk_set_retries (u32 (bk_retries k' + 1)) k') Hb') as (Hw1 & Hpre & Hw2).
  split; [done|]. intros Hst. split; [|done]. apply Hw2, Hd. case_match eqn:Hc; [|done].
  apply andb_prop in Hc as [Hc _]. by apply is_ok_true.
Qed.

Lemma wp_lock_acquire l (Q : unit -> kst -> Prop) s : (forall s', Q tt s') -> wp (lock_acquire l) Q s.
Proof. intros HQ. apply wp_any. by intros []. Qed.

(** A batch as preprocessing leaves it: the ordered view holds entries of the
    cache once, in order; addresses are those of pages. *)
Record ordered_batch (b : batch) : Prop := {
  ob_range   : forall i, i ∈ bc_ordered b -> (i < length (bc_cache b))%nat;
  ob_nodup   : NoDup (bc_ordered b);
  ob_sorted  : StronglySorted (fun i j => fault_le (entry_at b i) (entry_at b j)) (bc_ordered b);
  ob_access  : forall i, i ∈ bc_ordered b -> fe_access (entry_at b i) < UVM_FAULT_ACCESS_TYPE_COUNT;
  ob_aligned : forall i, i ∈ bc_ordered b -> fe_address (entry_at b i) mod PAGE_SIZE = 0;
}.

(** [first] is the first fault of the block, none of whose faults is of a fatal
    type. *)
Record block_faults_ok (blk : va_block) (b : batch) (first : nat) : Prop := {
  bf_first : forall h, bc_ordered b !! first = Some h ->
               in_block cfg blk (entry_at b h) = true /\ vb_start blk <= fe_address (entry_at b h);
  bf_fatal : forall i, i ∈ drop first (bc_ordered b) -> in_block cfg blk (entry_at b i) = true ->
               fe_is_fatal (entry_at b i) = false;
}.

Lemma StronglySorted_ordered_by {A} (R : A -> A -> Prop) l : StronglySorted R l -> ordered_by R l.
Proof.
  induction 1 as [|x l Hl IH Hx]; intros p q i j Hpq Hi Hj; [done|].
  destruct q as [|q]; [lia|]. cbn in Hj. destruct p as [|p]; cbn in Hi.
  - injection Hi as <-. rewrite Forall_forall in Hx. apply Hx. by eapply list_elem_of_lookup_2.
  - apply (IH p q); [lia|done|done].
Qed.

Lemma ordered_by_drop {A} (R : A -> A -> Prop) n l : ordered_by R l -> ordered_by R (drop n l).
Proof. intros Hl p q i j Hpq. rewrite !lookup_drop. apply Hl. lia. Qed.

Lemma seg_ok_start blk b first :
  ordered_batch b -> block_faults_ok blk b first -> 0 < ft_va_space cfg ->
  seg_ok cfg blk b (drop first (bc_ordered b)).
Proof.
  intros [Hr Hn Hs Ha Hal] [Hf Hft] Hvs.
  assert (Hsub : forall i, i ∈ drop first (bc_ordered b) -> i ∈ bc_ordered b) by (intros i; apply list.subseteq_drop).
  pose proof (ordered_by_drop _ first _ (StronglySorted_ordered_by _ _ Hs)) as Hd.
  split; auto.
  - eapply sublist_NoDup; [exact Hn|apply sublist_drop].
  - intros i Hi Hv. apply list_elem_of_lookup_1 in Hi as [q Hq].
    destruct (drop first (bc_ordered b)) as [|h l] eqn:Hl; [done|].
    assert (Hh : bc_ordered b !! first = Some h) by by rewrite <- (Nat.add_0_r first), <- lookup_drop, Hl.
    destruct (Hf h Hh) as [Hib Hst]. destruct (in_block_true _ _ _ Hib) as [Hvh _].
    destruct q as [|q]; [by injection Hq as <-|].
    specialize (Hd 0%nat (S q) h i ltac:(lia) eq_refl Hq). unfold fault_le in Hd.
    rewrite Hvh, Hv in Hd. cbn in Hd. lia.
  - intros p q i j Hpq Hi Hj Hib [Hv Haij] Hfj. exfalso. rewrite Hft in Hfj; [done|by eapply list_elem_of_lookup_2|].
    unfold in_block in *. by rewrite <- Hv, <- Haij.
Qed.

(** What servicing the block ends with. *)
Record block_serviced (first : nat) (w : block_work) (st : nv_status) (w' : block_work) : Prop := {
  bs_follows  : follows gpu (bw_block w) (bw_block w');
  bs_marked   : marked cfg gpu (bw_batch w) (bw_batch w');
  bs_other    : forall i, i ∉ drop first (bc_ordered (bw_batch w)) \/
                  in_block cfg (bw_block w) (entry_at (bw_batch w) i) = false ->
                  entry_at (bw_batch w') i = entry_at (bw_batch w) i;
  bs_seg      : seg_ok cfg (bw_block w) (bw_batch w') (drop first (bc_ordered (bw_batch w)));
  bs_quiet    : quiet {[gpu]} (bw_block w');
  bs_faults   : st = NV_OK -> block_prefix cfg (bw_block w) (bw_batch w)
                  (drop first (bc_ordered (bw_batch w))) (bw_faults w');
  bs_writes   : st = NV_OK ->
    forall i, i ∈ drop first (bc_ordered (bw_batch w)) -> in_block cfg (bw_block w) (entry_at (bw_batch w) i) = true ->
      UVM_FAULT_ACCESS_TYPE_WRITE <= fe_access (entry_at (bw_batch w) i) ->
      fe_is_fatal (entry_at (bw_batch w') i) = true \/
      ft_thrashing cfg (fe_address (entry_at (bw_batch w) i)) = UVM_PERF_THRASHING_HINT_TYPE_THROTTLE \/
      vb_dirty (bw_block w') = true;
}.

Lemma service_fault_batch_block_spec first w s :
  let l := drop first (bc_ordered (bw_batch w)) in
  perm_wf (bw_block w) -> vb_tracking (bw_block w) = true -> block_range (bw_block w) ->
  quiet {[gpu]} (bw_block w) -> 0 < ft_va_space cfg -> Z.of_nat (length l) < 2 ^ 32 ->
  seg_ok cfg (bw_block w) (bw_batch w) l ->
  (forall h, head l = Some h -> in_block cfg (bw_block w) (entry_at (bw_batch w) h) = true) ->
  wp (service_fault_batch_block service_copy cfg gpu first w)
    (fun '(st, w') _ => block_serviced first w st w') s.
Proof using All.
  intros l. set (blk := bw_block w). set (b := bw_batch w). intros Hwf Ht Hbr Hq Hvs Hl Hseg Hh.
  unfold service_fault_batch_block. set (w0 := mk_block_work _ _ _ _).
  assert (Hi : work_inv b blk l w0) by (split; cbn; [done|apply marked_refl|done|done]).
  apply wp_bind, wp_lock_acquire. intros s1. apply wp_bind.
  eapply wp_mono; [apply (wp_retry_loop (work_inv b blk l)
    (fun w' => writes_reported b blk l w' /\ block_prefix cfg blk b l (bw_faults w'))); [exact Hi|]|].
  { intros w1 s2 Hw1. by apply block_locked_spec. }
  intros [st w'] s3 [[Hf Hm Hs Hot] Hrep]. apply wp_bind, wp_any. intros tst s4. apply wp_bind, wp_any. intros [] s5.
  assert (Hok : (if is_ok st then tst else st) = NV_OK -> st = NV_OK).
  { intros Hst. destruct (is_ok st) eqn:Hst'; [by apply is_ok_true|by rewrite Hst in Hst']. }
  apply wp_ret. split; [done|done|done|done| |intros Hst; by apply Hrep, Hok|intros Hst; by apply Hrep, Hok].
  intros _ Hd g ->%elem_of_singleton _. by eapply follows_clean.
Qed.

(** The faults of a block none of which is fatal when servicing starts. *)
Lemma fresh_block_spec first w s :
  perm_wf (bw_block w) -> vb_tracking (bw_block w) = true -> block_range (bw_block w) ->
  quiet {[gpu]} (bw_block w) -> 0 < ft_va_space cfg ->
  ordered_batch (bw_batch w) -> Z.of_nat (length (bc_ordered (bw_batch w))) < 2 ^ 32 ->
  block_faults_ok (bw_block w) (bw_batch w) first ->
  wp (service_fault_batch_block service_copy cfg gpu first w)
    (fun '(st, w') _ => block_serviced first w st w' /\ (st = NV_OK ->
       forall i, i ∈ drop first (bc_ordered (bw_batch w)) -> in_block cfg (bw_block w) (entry_at (bw_batch w) i) = true ->
         UVM_FAULT_ACCESS_TYPE_WRITE <= fe_access (entry_at (bw_batch w) i) ->
         (denied cfg gpu (entry_at (bw_batch w) i) /\ fe_is_fatal (entry_at (bw_batch w') i) = true) \/
         ft_thrashing cfg (fe_address (entry_at (bw_batch w) i)) = UVM_PERF_THRASHING_HINT_TYPE_THROTTLE \/
         vb_dirty (bw_block w') = true)) s.
Proof using All.
  intros Hwf Ht Hbr Hq Hvs Hb Hlen Hfirst. eapply wp_mono.
  { apply service_fault_batch_block_spec; [done..|rewrite length_drop; lia|by apply seg_ok_start|].
    intros h Hh. apply Hfirst. by rewrite head_lookup, lookup_drop, Nat.add_0_r in Hh. }
  intros [st w'] s' Hs. split; [done|]. intros Hst i Hil Hin Hw.
  destruct (bs_writes _ _ _ _ Hs Hst i Hil Hin Hw) as [Hc|[Hc|Hc]]; [left|by right; left|by right; right].
  split; [|done]. destruct (md_fatal _ _ _ _ (bs_marked _ _ _ _ Hs) i Hc) as [Hc0|]; [|done].
  by rewrite (bf_fatal _ _ _ Hfirst i Hil Hin) in Hc0.
Qed.

(** Servicing the faults of a tracked block, with any number of retries: a
    clean block stays write-protected on the GPU, the tracking and dirty flags are
    kept, and status OK means that each write fault of the block was denied by the
    range's permissions and marked fatal, or is throttled, or left the block
    dirty. *)
Theorem service_fault_batch_block_reports_writes first w s :
  let blk := bw_block w in
  let b := bw_batch w in
  perm_wf blk -> vb_tracking blk = true -> block_range blk -> quiet {[gpu]} blk -> 0 < ft_va_space cfg ->
  ordered_batch b -> Z.of_nat (length (bc_ordered b)) < 2 ^ 32 -> block_faults_ok blk b first ->
  wp (service_fault_batch_block service_copy cfg gpu first w)
    (fun '(st, w') _ =>
       quiet {[gpu]} (bw_block w') /\
       vb_tracking (bw_block w') = true /\ (vb_dirty blk = true -> vb_dirty (bw_block w') = true) /\
       (st = NV_OK ->
        forall i, i ∈ drop first (bc_ordered b) -> in_block cfg blk (entry_at b i) = true ->
          UVM_FAULT_ACCESS_TYPE_WRITE <= fe_access (entry_at b i) ->
          (denied cfg gpu (entry_at b i) /\ fe_is_fatal (entry_at (bw_batch w') i) = true) \/
          ft_thrashing cfg (fe_address (entry_at b i)) = UVM_PERF_THRASHING_HINT_TYPE_THROTTLE \/
          vb_dirty (bw_block w') = true)) s.
Proof using All.
  intros blk b Hwf Ht Hbr Hq Hvs Hb Hlen Hfirst. eapply wp_mono; [by apply fresh_block_spec|].
  intros [st w'] s' [[Hf _ _ _ Hq' _ _] Hw]. split; [done|]. split; [by rewrite (fo_tracking _ _ _ Hf)|].
  split; [apply Hf|done].
Qed.
End Serve.

(** ** From the fault buffer to the block *)

Section Path.
Context `{FaultCodes} `{E : Env} `{KernelSort} (cfg : fault_cfg) (gpu : Z) (Hgpu : 0 < gpu).
Context (Hprot : forall t, UVM_FAULT_ACCESS_TYPE_WRITE <= t ->
                   writable (sv_access_prot (ft_service cfg) t) = true).
Context (Hatomic : sv_atomic_strong (ft_service cfg) = UVM_FAULT_ACCESS_TYPE_ATOMIC_STRONG).
Context (Hids : processors_ok (ft_service cfg)).
Context (service_copy : Z -> Z -> block_ctx -> va_block -> K (nv_status * va_block * gset Z)).
Context (Hcopy : forall r k b s, perm_wf b ->
  wp (service_copy gpu r k b) (fun '(_, b', _) _ => follows gpu b b') s).
Context (calls : translate_calls).
Context (Hvs : forall e e', same_instance e e' -> tc_to_va_space calls e = tc_to_va_space calls e').
Context (Hsome : forall e, fst (tc_to_va_space calls e) = NV_OK -> is_Some (snd (tc_to_va_space calls e))).
Context (hw : fault_hw).
Context (Hcodes : forall i, fe_access (snd (hw_parse hw i)) < UVM_FAULT_ACCESS_TYPE_COUNT).

(** The fault the GPU wrote [k] entries after GET, with its address rounded to
    the page. *)
Definition fault_at (fb : fault_buffer) (k : Z) : fault_entry :=
  init_entry (snd (hw_parse hw (ring_at fb (fb_get fb) k))).

(** The cache holds the packets of the ring. *)
Definition cached (fb : fault_buffer) (b : batch) : Prop :=
  fe_core <$> bc_cache b = ring_cores hw fb (fb_get fb) (Z.of_nat (length (bc_cache b))).

Lemma cached_lookup fb b i e :
  cached fb b -> bc_cache b !! i = Some e -> fe_packet e = fe_packet (fault_at fb (Z.of_nat i)).
Proof.
  intros Hc Hi. assert (Hl : (fe_core <$> bc_cache b) !! i = Some (fe_core e)) by by rewrite list_lookup_fmap, Hi.
  rewrite Hc in Hl. unfold ring_cores in Hl. apply list_lookup_fmap_Some in Hl as (k & Hk & Hl).
  apply lookup_seqZ in Hl as [-> _]. by apply fe_core_packet.
Qed.

Lemma fault_at_bounds fb k :
  fe_access (fault_at fb k) < UVM_FAULT_ACCESS_TYPE_COUNT /\ fe_address (fault_at fb k) mod PAGE_SIZE = 0.
Proof.
  split; [apply Hcodes|]. unfold fe_address. cbn. unfold UVM_PAGE_ALIGN_DOWN. by apply Z.mod_mul.
Qed.

(** A fetched and preprocessed batch is one the block can be serviced from. *)
Lemma preprocessed_ordered fb b b' :
  cached fb b -> preprocessed calls b b' ->
  ordered_batch b' /\ (length (bc_ordered b') <= length (bc_cache b))%nat.
Proof.
  intros Hc [_ Ho Hs He Hlen _].
  assert (Hrep : forall i, i ∈ bc_ordered b' -> exists e, bc_cache b !! i = Some e /\
    fe_packet (entry_at b' i) = fe_packet (fault_at fb (Z.of_nat i))).
  { intros i Hi. rewrite Ho, elem_of_representatives in Hi. destruct Hi as (e & Hi & Hu). exists e. split; [done|].
    rewrite (entry_at_lookup _ _ _ (He i e Hi)), Hu. exact (cached_lookup fb b i e Hc Hi). }
  split.
  - split; [| |done| |].
    + intros i Hi. destruct (Hrep i Hi) as (e & Hi' & _). rewrite Hlen. by eapply lookup_lt_Some.
    + rewrite Ho. apply NoDup_representatives.
    + intros i Hi. destruct (Hrep i Hi) as (e & _ & Hp). unfold fe_access. rewrite Hp. apply fault_at_bounds.
    + intros i Hi. destruct (Hrep i Hi) as (e & _ & Hp). unfold fe_address. rewrite Hp. apply fault_at_bounds.
  - rewrite Ho. unfold representatives. etransitivity; [apply List.filter_length_le|].
    by rewrite length_seq.
Qed.

(** [first] is the place of the first fault of the block. *)
Definition block_first (blk : va_block) (b : batch) (first : nat) : Prop :=
  forall j h, bc_ordered b !! j = Some h -> fe_va_space (entry_at b h) = Some (ft_va_space cfg) ->
    vb_start blk <= fe_address (entry_at b h) <= vb_end blk -> (first <= j)%nat.

(** From the fault buffer to the dirty flag: after a batch is fetched and
    preprocessed, servicing the faults of a tracked block with status OK settles
    every write or atomic fault the GPU wrote for that block, whichever other
    fault it was coalesced with: the block is dirty, or the page is throttled, or
    the range does not permit an access at least as strong. *)
Theorem every_write_fault_reported coalesce cancel_va mode fb b0 st1 fb1 b1 fb2 first w s :
  let blk := bw_block w in
  fb_wf fb -> hw_wf fb hw -> 0 <= hw_put (tc_hw calls) < fb_max_faults fb -> batch_wf b0 ->
  fetch_fault_buffer_entries hw coalesce cancel_va mode fb b0 = Some (st1, fb1, b1) ->
  preprocess_fault_batch calls fb1 b1 = Some (NV_OK, fb2, bw_batch w) ->
  perm_wf blk -> vb_tracking blk = true -> block_range blk -> quiet {[gpu]} blk -> 0 < ft_va_space cfg ->
  block_faults_ok cfg blk (bw_batch w) first -> block_first blk (bw_batch w) first ->
  wp (service_fault_batch_block service_copy cfg gpu first w)
    (fun '(st, w') _ => st = NV_OK ->
       forall k, 0 <= k < Z.of_nat (length (bc_cache b1)) ->
       let e := fault_at fb k in
       tc_to_va_space calls e = (NV_OK, Some (ft_va_space cfg)) ->
       vb_start blk <= fe_address e <= vb_end blk -> UVM_FAULT_ACCESS_TYPE_WRITE <= fe_access e ->
       vb_dirty (bw_block w') = true \/
       ft_thrashing cfg (fe_address e) = UVM_PERF_THRASHING_HINT_TYPE_THROTTLE \/
       exists t, fe_access e <= t /\
         uvm_va_block_check_logical_permissions cfg gpu t (ft_migratable cfg (fe_address e)) <> NV_OK) s.
Proof using All.
  intros blk Hfb Hhw Hput Hb0 Hfetch Hpre Hwf Ht Hbr Hq Hv Hok Hfirst. set (b2 := bw_batch w) in *.
  destruct (fetch_fault_buffer_entries_spec hw coalesce cancel_va mode fb b0 Hfb Hhw Hb0)
    as (st & fb' & b & Heq & Hwf1 & _ & Hmax & _ & Hn & Hcore & _ & _ & Hi).
  rewrite Hfetch in Heq. injection Heq as <- <- <-. fold (cached fb b1) in Hcore.
  destruct (decide (bc_cache b1 = [])) as [Hnil|Hne].
  { apply wp_any. intros [st w'] s' _ k Hk. rewrite Hnil in Hk. cbn in Hk. lia. }
  rewrite <- Hmax in Hput.
  destruct (preprocess_fault_batch_spec calls Hvs Hsome fb1 b1 Hwf1 Hput Hi Hne) as (st' & fb' & b' & Heq & Hpp).
  rewrite Hpre in Heq. injection Heq as <- <- <-. destruct (Hpp eq_refl) as [_ Hp]. clear Hpp.
  destruct (preprocessed_ordered fb b1 b2 Hcore Hp) as [Hob Hlen].
  eapply wp_mono; [apply (fresh_block_spec cfg gpu Hgpu Hprot Hatomic Hids service_copy Hcopy first);
    try done|].
  { pose proof (distance_range fb1 (fw_max _ Hwf1) (fb_get fb)). pose proof (fw_max _ Hwf1). fold b2. lia. }
  intros [st' w'] s' [_ Hrep] Hst k Hk e Hte Ha Hw. specialize (Hrep Hst).
  destruct (lookup_lt_is_Some_2 (bc_cache b1) (Z.to_nat k) ltac:(lia)) as [x Hx].
  pose proof (cached_lookup fb b1 _ _ Hcore Hx) as Hpk. rewrite Z2Nat.id in Hpk by lia. fold e in Hpk.
  destruct (pp_cover _ _ _ Hp x (list_elem_of_lookup_2 _ _ _ Hx)) as (i & r & Hio & Hir & (Hsi & Hadr & Hacc) & Hvr).
  assert (Hxa : fe_address x = fe_address e /\ fe_access x = fe_access e)
    by (unfold fe_address, fe_access; by rewrite Hpk).
  destruct Hxa as [Hxa Hxt]. rewrite (Hvs x e) in Hvr by (unfold same_instance; by rewrite Hpk).
  rewrite Hte in Hvr. injection Hvr as Hvr.
  pose proof (entry_at_lookup _ _ _ Hir) as Her.
  apply list_elem_of_lookup_1 in Hio as [j Hj].
  assert (Hfj : (first <= j)%nat) by (apply (Hfirst j i); [done|by rewrite Her|rewrite Her; lia]).
  destruct (Hrep i) as [[Hd _]|[Hc|Hc]]; fold blk b2; rewrite ?Her.
  - apply list_elem_of_lookup. exists (j - first)%nat. rewrite lookup_drop. by replace (first + (j - first))%nat with j by lia.
  - unfold in_block. rewrite <- Hvr, bool_decide_eq_true_2 by done. cbn. apply Z.leb_le. lia.
  - lia.
  - right; right. exists (fe_access r). split; [lia|]. unfold denied in Hd. fold b2 in Hd. rewrite Her in Hd. congruence.
  - right; left. fold b2 in Hc. rewrite Her in Hc. congruence.
  - by left.
Qed.
End Path.
