(* ===== verification/MigrationService.v ===== *)
(** What servicing a fault does to the residency of the pages
    ([uvm_va_block_service_copy] of [uvm_va_block.c] and the residency update
    [uvm_va_block_service_finish] begins with), and that it is a copy the fault
    handlers are proved for.  Read-duplicated pages are duplicated, the others
    copied; the ECC checks after a migration to the CPU are decisions of the
    environment. *)
From stdpp Require Import functions sorting.
From S2P Require Import Prelude Kernel VaBlock Permissions Tracking Accessors Service FaultBuffer FaultBatch FaultService FaultReport Migration MigrationFrame.

(** ** Locks *)

Section Locks.
Context `{E : Env} (cfg : mig_cfg).
#[local] Hint Resolve gpu_state_get_alloc_lock uvm_va_block_revoke_prot_lock : locks.

Lemma begin_push_lock src dst c ls : LockSpec ls (block_copy_begin_push src dst c) ls.
Proof. unfold block_copy_begin_push. locks. Qed.
#[local] Hint Resolve begin_push_lock : locks.
Lemma finish_lock y m ls : LockSpec ls (conf_computing_copy_pages_finish y m) ls.
Proof. unfold conf_computing_copy_pages_finish. locks. Qed.
#[local] Hint Resolve finish_lock : locks.
Lemma end_push_lock st y m c ls : LockSpec ls (block_copy_end_push st y m c) ls.
Proof. unfold block_copy_end_push. locks. Qed.
Lemma copy_pages_lock rg y m ls : LockSpec ls (block_copy_pages cfg rg y m) ls.
Proof. unfold block_copy_pages. locks. Qed.
#[local] Hint Resolve end_push_lock copy_pages_lock : locks.
Lemma copy_region_lock rg g ls : LockSpec ls (copy_region cfg rg g) ls.
Proof. unfold copy_region. locks. Qed.
Lemma copy_begin_lock src dst g ls : LockSpec ls (copy_begin cfg src dst g) ls.
Proof. unfold copy_begin. locks. Qed.
#[local] Hint Resolve copy_region_lock copy_begin_lock : locks.
Lemma copy_page_lock src dst r pf g p ls : LockSpec ls (copy_page cfg src dst r pf g p) ls.
Proof. unfold copy_page, copy_run. locks. Qed.
#[local] Hint Resolve copy_page_lock : locks.
Lemma between_lock src dst r pf mask migrated m c ls :
  LockSpec ls (block_copy_resident_pages_between cfg src dst r pf mask migrated m c) ls.
Proof. unfold block_copy_resident_pages_between, copy_rest. locks. Qed.
#[local] Hint Resolve between_lock : locks.
Lemma from_lock dst r pm pf migrated src st ls : LockSpec ls (block_copy_resident_pages_from cfg dst r pm pf migrated src st) ls.
Proof. unfold block_copy_resident_pages_from. locks. Qed.
#[local] Hint Resolve from_lock : locks.
Lemma mask_lock dst r pm pf migrated srcs max m c ls : LockSpec ls (block_copy_resident_pages_mask cfg dst r pm pf migrated srcs max m c) ls.
Proof. unfold block_copy_resident_pages_mask, copy_from_source. locks. Qed.
#[local] Hint Resolve mask_lock : locks.
Lemma resident_pages_lock dst r pm pf m c ls : LockSpec ls (block_copy_resident_pages cfg dst r pm pf m c) ls.
Proof. unfold block_copy_resident_pages, copy_to_destination, copy_through_cpu, copy_staged. locks. Qed.
#[local] Hint Resolve resident_pages_lock : locks.
Lemma unmap_mask_lock pc b mask r pm ls : LockSpec ls (uvm_va_block_unmap_mask pc b mask r pm) ls.
Proof. unfold uvm_va_block_unmap_mask, for_processors, uvm_va_block_unmap, block_unmap_gpu. locks. Qed.
#[local] Hint Resolve unmap_mask_lock : locks.
Lemma lift_block_lock f m ls : (forall b, LockSpec ls (f b) ls) -> LockSpec ls (lift_block f m) ls.
Proof. intros Hf. pose proof (Hf (mg_block m)). unfold lift_block. locks. Qed.

Context `{A : ChunkAllocator} {HA : ChunkAllocatorSpec cfg}.
#[local] Hint Extern 0 (LockSpec _ (block_populate_pages_cpu _ _ _ _ _) _) => apply populate_cpu_lock : locks.
#[local] Hint Extern 0 (LockSpec _ (block_populate_pages_gpu _ _ _ _) _) => apply populate_gpu_lock : locks.
#[local] Hint Extern 0 (LockSpec _ (lift_block _ _) _) => apply lift_block_lock; locks : locks.

Lemma populate_lock dst r pm m c ls : LockSpec ls (block_populate_pages cfg dst r pm m c) ls.
Proof using HA. unfold block_populate_pages, block_resident_mask_get_alloc. locks. Qed.
#[local] Hint Resolve populate_lock : locks.
Lemma make_resident_copy_lock dst r pm pf cause m c ls :
  LockSpec ls (uvm_va_block_make_resident_copy cfg dst r pm pf cause m c) ls.
Proof using HA. unfold uvm_va_block_make_resident_copy, block_resident_mask_get_alloc. locks. Qed.
Lemma prep_lock b id r pages ls : LockSpec ls (block_prep_read_duplicate_mapping cfg b id r pages) ls.
Proof. unfold block_prep_read_duplicate_mapping, uvm_va_block_unmap, block_unmap_gpu. locks. Qed.
#[local] Hint Resolve prep_lock : locks.
Lemma read_duplicate_lock dst r pm pf cause m c ls :
  LockSpec ls (uvm_va_block_make_resident_read_duplicate cfg dst r pm pf cause m c) ls.
Proof using HA. unfold uvm_va_block_make_resident_read_duplicate, prepare_duplication. locks. Qed.
End Locks.

(** ** [uvm_va_block_service_copy] *)

Inductive uvm_service_operation :=
| UVM_SERVICE_OPERATION_REPLAYABLE_FAULTS | UVM_SERVICE_OPERATION_NON_REPLAYABLE_FAULTS
| UVM_SERVICE_OPERATION_ACCESS_COUNTERS.

#[export] Instance operation_eq_dec : EqDecision uvm_service_operation.
Proof. solve_decision. Defined.

(** [service_context->cpu_fault]. *)
Record cpu_fault_info := mk_cpu_fault_info {
  cf_did_migrate : bool;
  cf_ecc_gpus    : gset Z;          (* gpus_to_check_for_ecc *)
}.

Definition cause_of (op : uvm_service_operation) : make_resident_cause :=
  match op with
  | UVM_SERVICE_OPERATION_REPLAYABLE_FAULTS => UVM_MAKE_RESIDENT_CAUSE_REPLAYABLE_FAULT
  | UVM_SERVICE_OPERATION_NON_REPLAYABLE_FAULTS => UVM_MAKE_RESIDENT_CAUSE_NON_REPLAYABLE_FAULT
  | UVM_SERVICE_OPERATION_ACCESS_COUNTERS => UVM_MAKE_RESIDENT_CAUSE_ACCESS_COUNTER
  end.

Section ServiceCopy.
Context `{E : Env} `{A : ChunkAllocator} (cfg : mig_cfg).

(** The ECC check of one GPU; a check that needs RM is left to the caller. *)
Definition check_ecc (info : cpu_fault_info) (gpu : Z) : K (option nv_status * cpu_fault_info) :=
  st ← ext_status;                         (* uvm_gpu_check_ecc_error_no_rm *)
  if bool_decide (st = NV_WARN_MORE_PROCESSING_REQUIRED)
  then kret (None, mk_cpu_fault_info (cf_did_migrate info) (cf_ecc_gpus info ∪ {[gpu]}))
  else kret (leave_on_error st, info).

Definition check_ecc_errors (op : uvm_service_operation) (new_residency : Z) (c : move_ctx) (info : cpu_fault_info)
    : K (nv_status * cpu_fault_info) :=
  if bool_decide (op = UVM_SERVICE_OPERATION_REPLAYABLE_FAULTS) && (new_residency =? UVM_ID_CPU) &&
     negb (bool_decide (mv_involved c = ∅))
  then
    st ← ext_status;                       (* uvm_tracker_wait *)
    if negb (is_ok st) then kret (st, info)
    else
      '(ex, info) ← kfold check_ecc info (filter (fun id => UVM_ID_IS_GPU id = true) (ids_in_mask (mv_involved c)));
      kret (loop_status ex, info)
  else kret (NV_OK, info).

Definition mv_reset (c : move_ctx) : move_ctx :=
  mv_set_push ∅ (mv_pushes c) (mv_buffers c) (mv_set_changed ∅ c).

Definition copy_duplicates (op : uvm_service_operation) (new_residency : Z) (prefetch : gset Z) (k : block_ctx)
    (m : migration) (c : move_ctx) : K (nv_status * migration * move_ctx) :=
  let mask := bk_residency k new_residency ∩ bk_dup_mask k in
  if negb (bk_dup_count k =? 0) && negb (bool_decide (mask = ∅))
  then uvm_va_block_make_resident_read_duplicate cfg new_residency (bk_region k) (Some mask) (Some prefetch) (cause_of op) m c
  else kret (NV_OK, m, c).

Definition copy_others (op : uvm_service_operation) (new_residency : Z) (prefetch : gset Z) (k : block_ctx)
    (m : migration) (c : move_ctx) : K (nv_status * migration * move_ctx) :=
  let mask := bk_residency k new_residency ∖ bk_dup_mask k in
  if (bk_dup_count k =? 0) || negb (bool_decide (mask = ∅))
  then
    let mask := if bk_dup_count k =? 0 then bk_residency k new_residency else mask in
    uvm_va_block_make_resident_copy cfg new_residency (bk_region k) (Some mask) (Some prefetch) (cause_of op) m c
  else kret (NV_OK, m, c).

Definition uvm_va_block_service_copy (op : uvm_service_operation) (processor_id new_residency : Z) (prefetch : gset Z)
    (k : block_ctx) (m : migration) (c : move_ctx) (info : cpu_fault_info)
    : K (nv_status * migration * move_ctx * cpu_fault_info) :=
  '(status, m, c) ← copy_duplicates op new_residency prefetch k m (mv_reset c);
  if negb (is_ok status) then kret (status, m, c, info)
  else
    '(status, m, c) ← copy_others op new_residency prefetch k m c;
    if negb (is_ok status) then kret (status, m, c, info)
    else
      let info := if (processor_id =? UVM_ID_CPU) && negb (bool_decide (mv_involved c = ∅))
                  then mk_cpu_fault_info true (cf_ecc_gpus info) else info in
      '(status, info) ← check_ecc_errors op new_residency c info;
      kret (status, m, c, info).

(** The mask [uvm_va_block_service_copy] leaves in [caller_page_mask]. *)
Definition service_caller_mask (new_residency : Z) (k : block_ctx) : gset Z :=
  if bk_dup_count k =? 0 then bk_residency k new_residency else bk_residency k new_residency ∖ bk_dup_mask k.

(** The first step of [uvm_va_block_service_finish]. *)
Definition service_update_residency (new_residency : Z) (k : block_ctx) (m : migration) (c : move_ctx)
    : migration * move_ctx :=
  let mask := service_caller_mask new_residency k in
  if (bk_dup_count k =? 0) || negb (bool_decide (mask = ∅))
  then uvm_va_block_make_resident_finish cfg (bk_region k) (Some mask) m c else (m, c).

(** The copy and, when it succeeds, the update. *)
Definition service_move (op : uvm_service_operation) (processor_id new_residency : Z) (prefetch : gset Z)
    (k : block_ctx) (m : migration) (c : move_ctx) (info : cpu_fault_info)
    : K (nv_status * migration * move_ctx * cpu_fault_info) :=
  '(status, m, c, info) ← uvm_va_block_service_copy op processor_id new_residency prefetch k m c info;
  if negb (is_ok status) then kret (status, m, c, info)
  else let '(m, c) := service_update_residency new_residency k m c in kret (NV_OK, m, c, info).
End ServiceCopy.

(** ** Its contract *)

Lemma moved_follows gpu b b' : gpu <> UVM_ID_CPU -> moved b b' -> follows gpu b b'.
Proof.
  intros Hg []. constructor; try done; [congruence|]. intros _ _. by apply md_gpu.
Qed.

Lemma moved_serviced p b b' : moved b b' -> serviced (fun _ => False) p b b'.
Proof.
  intros []. constructor; try done.
  - intros g q Hg _ _. apply md_gpu. unfold UVM_ID_CPU. lia.
  - unfold full_mask, uvm_va_block_region_from_block, uvm_va_block_num_cpu_pages, uvm_va_block_size. by rewrite md_start, md_end.
Qed.

Section Contract.
Context `{E : Env} `{A : ChunkAllocator} (cfg : mig_cfg) {HA : ChunkAllocatorSpec cfg}.
Context (op : uvm_service_operation) (processor_id new_residency : Z) (prefetch : gset Z) (k : block_ctx).

(** Processors with pages are real processors when pages are read-duplicated. *)
Definition duplicable (m : migration) : Prop :=
  bk_dup_count k <> 0 -> forall id, id ∈ vb_resident (mg_block m) -> 0 <= id.

Lemma ecc_lock c info ls : LockSpec ls (check_ecc_errors op new_residency c info) ls.
Proof. unfold check_ecc_errors, check_ecc. locks. Qed.

Lemma service_copy_lock m c info ls :
  LockSpec ls (uvm_va_block_service_copy cfg op processor_id new_residency prefetch k m c info) ls.
Proof using HA.
  unfold uvm_va_block_service_copy, copy_duplicates, copy_others.
  pose proof (fun d r pm pf cs m c ls => read_duplicate_lock cfg d r pm pf cs m c ls).
  pose proof (fun d r pm pf cs m c ls => make_resident_copy_lock cfg d r pm pf cs m c ls).
  pose proof ecc_lock. locks.
Qed.

Lemma service_copy_moved m c info s :
  perm_wf (mg_block m) -> duplicable m ->
  wp (uvm_va_block_service_copy cfg op processor_id new_residency prefetch k m c info)
    (fun '(_, m', _, _) _ => mg_moved m m') s.
Proof using HA.
  intros Hwf Hdup. unfold uvm_va_block_service_copy. apply wp_bind.
  apply (wp_mono _ (fun '(_, m', _) _ => mg_moved m m')).
  { unfold copy_duplicates. cbv zeta. apply wp_if; intros Hc; bprop; [|by apply wp_ret].
    apply read_duplicate_moved; try done. by apply Hdup. }
  intros [[st1 m1] c1] s1 H1. apply wp_if; intros _; [by apply wp_ret|]. apply wp_bind.
  apply (wp_mono _ (fun '(_, m', _) _ => mg_moved m m')).
  { unfold copy_others. cbv zeta. apply wp_if; intros _; [|by apply wp_ret].
    eapply wp_mono; [apply make_resident_copy_moved; [done|by apply (md_wf _ _ H1)]|]. intros [[st2 m2] c2] s2 H2. by etransitivity. }
  intros [[st2 m2] c2] s2 H2. apply wp_if; intros _; [by apply wp_ret|]. cbv zeta. apply wp_bind, wp_any.
  intros [st3 info3] s3. by apply wp_ret.
Qed.

Lemma service_move_moved m c info s :
  perm_wf (mg_block m) -> duplicable m ->
  wp (service_move cfg op processor_id new_residency prefetch k m c info) (fun '(_, m', _, _) _ => mg_moved m m') s.
Proof using HA.
  intros Hwf Hdup. unfold service_move. apply wp_bind. eapply wp_mono; [by apply service_copy_moved|].
  intros [[[st m1] c1] info1] s1 Hm. apply wp_if; intros _; [by apply wp_ret|]. unfold service_update_residency. cbv zeta.
  destruct (_ || _); [|by apply wp_ret].
  pose proof (make_resident_finish_moved cfg (bk_region k) (Some (service_caller_mask new_residency k)) m1 c1) as H2.
  destruct (uvm_va_block_make_resident_finish _ _ _ m1 c1) as [m2 c2]. apply wp_ret. by etransitivity.
Qed.

Lemma service_move_lock m c info ls :
  LockSpec ls (service_move cfg op processor_id new_residency prefetch k m c info) ls.
Proof using HA. unfold service_move. pose proof service_copy_lock. locks. Qed.

(** Moving the pages of a fault, in every environment, keeps what the fault
    handlers ask of it: the locks, the block's bounds and flags and its
    well-formedness stay, no GPU gains a permission and the CPU gains no write
    permission, a GPU fault finds the block following, and a CPU fault finds it
    serviced. *)
Theorem service_move_correct m c info s :
  perm_wf (mg_block m) -> duplicable m -> k_lock_bug s = false ->
  let '((_, m', _, _), s') := service_move cfg op processor_id new_residency prefetch k m c info s in
  k_locks s' = k_locks s /\ k_lock_bug s' = false /\
  moved (mg_block m) (mg_block m') /\
  (forall gpu, gpu <> UVM_ID_CPU -> follows gpu (mg_block m) (mg_block m')) /\
  serviced (fun _ => False) UVM_ID_CPU (mg_block m) (mg_block m').
Proof using HA.
  intros Hwf Hdup Hb. pose proof (service_move_moved m c info s Hwf Hdup) as Hm.
  pose proof (service_move_lock m c info (k_locks s) s eq_refl Hb) as Hl. unfold wp in Hm.
  destruct (service_move _ _ _ _ _ _ _ _ _ s) as [[[[st m'] c'] info'] s']. cbn in Hm, Hl. destruct Hl as [Hl1 Hl2].
  split; [done|]. split; [done|]. split; [done|]. split; [|by apply moved_serviced].
  intros gpu Hg. by apply moved_follows.
Qed.
End Contract.
