(* ===== verification/FaultSpace.v ===== *)
(** The blocks of a VA space as the fault handler finds, creates and updates them
    ([uvm_va_block_find] and [uvm_va_block_find_create_in_range] of
    [uvm_va_block.c], the range iterator of [uvm_va_range.c]).

    A space whose blocks are all tracked and, while clean, write-protected on the
    GPU is [space_guarded]; [space_follows] is what servicing faults keeps of a
    space: its ranges, and every block it already has, up to [follows]. *)
From stdpp Require Import functions sorting.
From S2P Require Import Prelude Kernel VaBlock Permissions Tracking Accessors Service FaultBuffer FaultBatch FaultService FaultReport.

(** The first range, in address order, that meets [start, end]; with its place. *)
Definition uvm_va_space_iter_first (v : va_space) (start end_ : Z) : option (nat * va_range) :=
  list_find (fun r => ((vr_start r <=? end_) && (start <=? vr_end r)) = true) (vs_ranges v).

(** The space has no HMM blocks. *)
Definition uvm_va_block_find (v : va_space) (addr : Z) : nv_status * option va_block :=
  match uvm_va_range_find v addr with
  | None => (NV_ERR_INVALID_ADDRESS, None)
  | Some r =>
      if negb (is_managed r) then (NV_ERR_INVALID_ADDRESS, None)
      else match vr_blocks r !! Z.to_nat (uvm_va_range_block_index r addr) with
           | Some (Some b) => (NV_OK, Some b)
           | _ => (NV_ERR_OBJECT_NOT_FOUND, None)
           end
  end.

Section Create.
Context `{E : Env}.

(** [race]: the block another thread published meanwhile.  The error injected by
    the built-in tests is an external decision. *)
Definition uvm_va_block_find_create_in_range (v : va_space) (r : va_range) (addr : Z)
    (race : option va_block) : K (nv_status * option va_block * va_range) :=
  fail ← (if env_tests then st ← ext_status; kret (negb (is_ok st)) else kret false);
  if (fail : bool) then kret (NV_ERR_NO_MEMORY, None, r)
  else if negb (is_managed r) then kret (NV_ERR_INVALID_ADDRESS, None, r)
  else uvm_va_range_block_create v r (uvm_va_range_block_index r addr) race.
End Create.

(** Writing a block back to its slot. *)
Definition put_block (index : nat) (b : va_block) (r : va_range) : va_range :=
  vr_set_blocks (<[index := Some b]> (vr_blocks r)) r.
Definition put_range (j : nat) (r : va_range) (v : va_space) : va_space :=
  vs_set_ranges (<[j := r]> (vs_ranges v)) v.

(** ** Looking up *)

Section Lookup.
Context (v : va_space) (Hv : va_space_wf v).

Lemma range_before j k r r' :
  (j < k)%nat -> vs_ranges v !! j = Some r -> vs_ranges v !! k = Some r' -> vr_end r < vr_start r'.
Proof using Hv. intros Hjk Hj Hk. by apply (StronglySorted_ordered_by _ _ (vw_sorted _ Hv) j k). Qed.

(** The iterator finds the managed range of an address. *)
Lemma iter_first_managed j r addr :
  vs_ranges v !! j = Some r -> is_managed r = true -> range_holds addr r = true ->
  uvm_va_space_iter_first v addr (2 ^ 64 - 1) = Some (j, r).
Proof using Hv.
  intros Hj Hm Ha. apply andb_prop in Ha as [H1 H2]. btest.
  destruct (rw_bounds _ (vw_ranges _ Hv r (list_elem_of_lookup_2 _ _ _ Hj) Hm)).
  apply list_find_Some. split; [done|]. split.
  - apply andb_true_iff. split; apply Z.leb_le; lia.
  - intros k r' Hk Hlt [_ Hc]%andb_prop. btest. pose proof (range_before _ _ _ _ Hlt Hk Hj). lia.
Qed.

Lemma range_find_managed j r addr :
  vs_ranges v !! j = Some r -> is_managed r = true -> range_holds addr r = true ->
  uvm_va_range_find v addr = Some r.
Proof using Hv.
  intros Hj Hm Ha. unfold uvm_va_range_find.
  assert (Hl : vs_ranges v = take j (vs_ranges v) ++ r :: drop (S j) (vs_ranges v)) by (by rewrite take_drop_middle).
  rewrite Hl, filter_app, filter_cons_True by done.
  replace (filter _ (take j (vs_ranges v))) with (@nil va_range); [done|]. symmetry.
  apply elem_of_nil_inv. intros r' [[_ Hc]%andb_prop Hr']%list_elem_of_filter. btest.
  apply list_elem_of_lookup_1 in Hr' as [k Hk]. apply lookup_take_Some in Hk as [Hk Hlt].
  pose proof (range_before _ _ _ _ Hlt Hk Hj). apply andb_prop in Ha as [Ha _]. btest.
Qed.

Lemma block_find_inv addr b :
  uvm_va_block_find v addr = (NV_OK, Some b) ->
  exists j r, uvm_va_range_find v addr = Some r /\ vs_ranges v !! j = Some r /\ is_managed r = true /\
    range_holds addr r = true /\ vr_blocks r !! Z.to_nat (uvm_va_range_block_index r addr) = Some (Some b).
Proof.
  unfold uvm_va_block_find. intros Hf. destruct (uvm_va_range_find v addr) as [r|] eqn:Hr; [|done].
  destruct (is_managed r) eqn:Hm; cbn in Hf; [|done]. case_match eqn:Hb; [|done].
  case_match; simplify_eq. unfold uvm_va_range_find in Hr. apply head_Some_elem_of in Hr.
  apply list_elem_of_filter in Hr as [Ha Hin]. apply list_elem_of_lookup_1 in Hin as [j Hj]. by exists j, r.
Qed.

Lemma block_find_managed j r addr b :
  vs_ranges v !! j = Some r -> is_managed r = true -> range_holds addr r = true ->
  vr_blocks r !! Z.to_nat (uvm_va_range_block_index r addr) = Some (Some b) ->
  uvm_va_block_find v addr = (NV_OK, Some b).
Proof using Hv.
  intros Hj Hm Ha Hb. unfold uvm_va_block_find. by rewrite (range_find_managed j r), Hm, Hb.
Qed.
End Lookup.

(** ** Guarded spaces *)

Section Guard.
Context (gpu : Z).

(** A tracked block, write-protected on the GPU while it is clean. *)
Record guarded (b : va_block) : Prop := {
  gd_wf       : perm_wf b;
  gd_tracking : vb_tracking b = true;
  gd_quiet    : quiet {[gpu]} b;
}.

(** The state PREPARE_ALL establishes and block creation keeps. *)
Record space_guarded (v : va_space) : Prop := {
  sg_wf     : va_space_wf v;
  sg_active : vs_tracking_active v = true;
  sg_block  : forall r (i : nat) b, r ∈ vs_ranges v -> is_managed r = true ->
                vr_blocks r !! i = Some (Some b) -> guarded b;
}.

Record range_follows (r r' : va_range) : Prop := {
  rf_start  : vr_start r' = vr_start r;
  rf_end    : vr_end r' = vr_end r;
  rf_type   : vr_type r' = vr_type r;
  rf_block  : forall (i : nat) b, vr_blocks r !! i = Some (Some b) ->
                exists b', vr_blocks r' !! i = Some (Some b') /\ follows gpu b b';
}.

#[export] Instance range_follows_preorder : PreOrder range_follows.
Proof.
  split; [intros r; split; eauto; intros i b Hb; by exists b|].
  intros r1 r2 r3 [] []. split; try congruence. intros i b Hb.
  destruct (rf_block0 i b Hb) as (b2 & Hb2 & ?). destruct (rf_block1 i b2 Hb2) as (b3 & ? & ?).
  exists b3. split; [done|by etransitivity].
Qed.

Record space_follows (v v' : va_space) : Prop := {
  sf_id     : vs_id v' = vs_id v;
  sf_active : vs_tracking_active v' = vs_tracking_active v;
  sf_ranges : Forall2 range_follows (vs_ranges v) (vs_ranges v');
}.

#[export] Instance space_follows_preorder : PreOrder space_follows.
Proof. split; [by intros v|]. intros v1 v2 v3 [] []. split; try congruence. by etransitivity. Qed.

Lemma is_managed_ext r r' : vr_type r' = vr_type r -> is_managed r' = is_managed r.
Proof. intros Ht. unfold is_managed. by rewrite Ht. Qed.

Lemma range_holds_ext r r' addr :
  vr_start r' = vr_start r -> vr_end r' = vr_end r -> range_holds addr r' = range_holds addr r.
Proof. intros Hs He. unfold range_holds. by rewrite Hs, He. Qed.

Lemma block_find_follows v v' addr b :
  va_space_wf v' -> space_follows v v' -> uvm_va_block_find v addr = (NV_OK, Some b) ->
  exists b', uvm_va_block_find v' addr = (NV_OK, Some b') /\ follows gpu b b'.
Proof.
  intros Hv' [_ _ Hr] (j & r & _ & Hj & Hm & Ha & Hb)%block_find_inv.
  destruct (Forall2_lookup_l _ _ _ _ _ Hr Hj) as (r' & Hj' & [Hs He Ht Hbl]).
  destruct (Hbl _ _ Hb) as (b' & Hb' & Hf). exists b'. split; [|done].
  apply (block_find_managed v' Hv' j r'); [done|by rewrite (is_managed_ext r)|by rewrite (range_holds_ext r)|].
  unfold uvm_va_range_block_index in *. by rewrite Hs.
Qed.

(** The range of an address keeps its place. *)
Lemma range_find_follows v v' j r' addr :
  va_space_wf v -> space_follows v v' -> vs_ranges v' !! j = Some r' -> is_managed r' = true ->
  range_holds addr r' = true ->
  exists r, uvm_va_range_find v addr = Some r /\ vr_start r' = vr_start r.
Proof.
  intros Hv [_ _ Hr] Hj Hm Ha. destruct (Forall2_lookup_r _ _ _ _ _ Hr Hj) as (r & Hj' & [Hs He Ht _]).
  exists r. split; [|done]. apply (range_find_managed v Hv j); [done| |].
  - by rewrite <- (is_managed_ext r r').
  - by rewrite <- (range_holds_ext r r').
Qed.

(** Block [b] is the one of slot [i] of range [r]. *)
Definition in_slot (r : va_range) (i : nat) (b : va_block) : Prop :=
  (i < length (vr_blocks r))%nat /\ vb_start b = block_calc_start r (Z.of_nat i) /\ vb_end b = block_calc_end r (Z.of_nat i).

Lemma in_slot_range r i b : range_wf r -> in_slot r i b ->
  block_range b /\ vr_start r <= vb_start b /\ vb_end b <= vr_end r.
Proof.
  intros [Hb Hs _] (Hi & Hst & He). destruct (block_calc_nonempty r (Z.of_nat i) Hb) as (H1 & H2 & H3 & H4 & _); [lia|].
  rewrite <- Hst, <- He in *. split; [split; [lia|]|].
  - replace (vb_end b + 1 - vb_start b) with (vb_end b + 1 + - vb_start b) by lia. unfold PAGE_SIZE in *. zlia.
  - rewrite Hst, He, block_calc_start_eq, block_calc_end_eq by (done || lia). lia.
Qed.

Lemma in_slot_index r i b addr :
  range_wf r -> in_slot r i b -> vb_start b <= addr <= vb_end b ->
  uvm_va_range_block_index r addr = Z.of_nat i.
Proof.
  intros [Hb Hs _] (Hi & Hst & He) Ha. apply block_index_calc; [done|lia|]. by rewrite <- Hst, <- He.
Qed.

Lemma block_index_follows r0 r addr : range_follows r0 r -> uvm_va_range_block_index r addr = uvm_va_range_block_index r0 addr.
Proof. intros [Hs _ _ _]. unfold uvm_va_range_block_index. by rewrite Hs. Qed.

Lemma in_slot_follows r0 r i b : range_wf r0 -> range_wf r -> range_follows r0 r -> in_slot r0 i b -> in_slot r i b.
Proof.
  intros Hwf0 Hwf [Hst He _ _]. unfold in_slot, block_calc_end, block_calc_start. rewrite Hst, He. intros (H1 & H2).
  split; [|done]. pose proof (rw_slots _ Hwf) as Hl. pose proof (rw_slots _ Hwf0) as Hl0.
  unfold uvm_va_range_num_blocks in Hl, Hl0. rewrite Hst, He in Hl. lia.
Qed.

Lemma put_block_wf r i b : range_wf r -> in_slot r i b -> range_wf (put_block i b r).
Proof.
  intros [Hb Hs Hk] (Hi & Hst & He). split.
  - by destruct Hb.
  - cbn. by rewrite length_insert.
  - intros k b' Hb'. cbn in Hb'. apply list_lookup_insert_Some in Hb' as [(<- & [= <-] & _)|(_ & Hb')]; [done|].
    by apply Hk.
Qed.

Lemma elem_of_insert_list {A} (l : list A) i (x y : A) : y ∈ <[i := x]> l -> y = x \/ y ∈ l.
Proof.
  intros [k Hk]%list_elem_of_lookup_1. apply list_lookup_insert_Some in Hk as [(_ & -> & _)|(_ & Hk)]; [by left|].
  right. by eapply list_elem_of_lookup_2.
Qed.

Lemma ranges_sorted_follows l l' :
  Forall2 range_follows l l' ->
  StronglySorted (fun r r' => vr_end r < vr_start r') l -> StronglySorted (fun r r' => vr_end r < vr_start r') l'.
Proof.
  induction 1 as [|r r' l l' [Hs He _ _] Hl IH]; [done|]. intros [Hsort Hall]%StronglySorted_inv.
  constructor; [by apply IH|]. apply Forall_forall. intros y' [k Hk]%list_elem_of_lookup_1.
  destruct (Forall2_lookup_r _ _ _ _ _ Hl Hk) as (y & Hy & [Hys _ _ _]). rewrite He, Hys.
  rewrite Forall_forall in Hall. by apply Hall, (list_elem_of_lookup_2 _ k).
Qed.

(** Writing back a block that follows the one of the slot, if there was one. *)
Lemma put_guarded v j r i b :
  space_guarded v -> vs_ranges v !! j = Some r -> is_managed r = true -> in_slot r i b -> guarded b ->
  (forall b0, vr_blocks r !! i = Some (Some b0) -> follows gpu b0 b) ->
  let v' := put_range j (put_block i b r) v in
  space_guarded v' /\ space_follows v v' /\
  forall addr, vb_start b <= addr <= vb_end b -> uvm_va_block_find v' addr = (NV_OK, Some b).
Proof.
  intros [Hv Ha Hg] Hj Hm Hi Hb Hf v'. pose proof (list_elem_of_lookup_2 _ _ _ Hj) as Hin.
  pose proof (vw_ranges _ Hv r Hin Hm) as Hwf.
  assert (Hfol : range_follows r (put_block i b r)).
  { split; [done..|]. intros k b0 Hb0. cbn. destruct (decide (k = i)) as [->|Hne].
    - exists b. rewrite list_lookup_insert_eq by apply Hi. auto.
    - exists b0. by rewrite list_lookup_insert_ne. }
  assert (Hsf : space_follows v v').
  { split; [done..|]. unfold v'. cbn. rewrite <- (list_insert_id (vs_ranges v) j r Hj) at 1. by apply Forall2_insert. }
  assert (Hblk : forall r' k b', r' ∈ vs_ranges v' -> is_managed r' = true -> vr_blocks r' !! k = Some (Some b') ->
    guarded b').
  { intros r' k b' Hr' Hm' Hb'. apply elem_of_insert_list in Hr' as [->|Hr']; [|by eapply Hg].
    cbn in Hb'. apply list_lookup_insert_Some in Hb' as [(<- & [= <-] & _)|(_ & Hb')]; [done|by eapply Hg]. }
  assert (Hv' : va_space_wf v').
  { split; [eapply ranges_sorted_follows; [apply Hsf|apply Hv]|].
    intros r' Hr' Hm'. apply elem_of_insert_list in Hr' as [->|Hr']; [by apply put_block_wf|by apply Hv]. }
  split; [by split|]. split; [done|]. intros addr Haddr.
  assert (Hj' : vs_ranges v' !! j = Some (put_block i b r)) by (apply list_lookup_insert_eq; by eapply lookup_lt_Some).
  destruct (in_slot_range r i b Hwf Hi) as (_ & H1 & H2).
  apply (block_find_managed v' Hv' j (put_block i b r)); [done|done| |].
  - apply andb_true_iff. cbn. split; apply Z.leb_le; lia.
  - change (uvm_va_range_block_index (put_block i b r) addr) with (uvm_va_range_block_index r addr).
    rewrite (in_slot_index r i b addr Hwf Hi Haddr), Nat2Z.id. apply list_lookup_insert_eq, Hi.
Qed.
End Guard.

(** ** Creating a block *)

Section Created.
Context `{E : Env} (gpu : Z) (Hgpu : 0 < gpu) (Htests : env_tests = false).

Lemma fresh_guarded start end_ : guarded gpu (vb_set_migration false true (fresh_block start end_)).
Proof using Hgpu.
  split; [|done|].
  - apply perm_wf_set_migration. by split.
  - intros _ _ g _ Hg. unfold prot_pages, gpu_state_of.
    by destruct (Z.eqb_spec g UVM_ID_CPU) as [He|]; [unfold UVM_ID_CPU in He; lia|].
Qed.

(** The block of the slot: the one there, one just created, or another
    thread's; or none, when there is no slot or its creation failed. *)
Lemma find_create_spec v j r addr race s :
  space_guarded gpu v -> vs_ranges v !! j = Some r -> range_holds addr r = true ->
  let i := Z.to_nat (uvm_va_range_block_index r addr) in
  (is_managed r = true -> forall b, race = Some b -> guarded gpu b /\ in_slot r i b) ->
  wp (uvm_va_block_find_create_in_range v r addr race)
    (fun '(st, ob, r') _ =>
       (exists b, st = NV_OK /\ ob = Some b /\ is_managed r = true /\ r' = put_block i b r /\ guarded gpu b /\
          in_slot r i b /\ vb_start b <= addr <= vb_end b /\
          forall b0, vr_blocks r !! i = Some (Some b0) -> b0 = b) \/
       (ob = None /\ r' = r /\ forall b0, is_managed r = true -> vr_blocks r !! i <> Some (Some b0))) s.
Proof using All.
  intros [Hv Ha Hg] Hj Haddr i Hrace. pose proof (list_elem_of_lookup_2 _ _ _ Hj) as Hin.
  unfold uvm_va_block_find_create_in_range. rewrite Htests. apply wp_bind, wp_ret. cbv beta iota.
  apply wp_if; intros Hm; bprop; [by apply wp_ret; right; split_and!; try done; congruence|].
  pose proof (vw_ranges _ Hv r Hin Hm) as [Hb Hs Hk]. unfold range_holds in Haddr. btest.
  destruct (address_slot r addr Hb ltac:(lia)) as [Hidx Hcalc].
  assert (Hi : Z.of_nat i = uvm_va_range_block_index r addr) by (unfold i; lia).
  unfold uvm_va_range_block_create. fold i. destruct (vr_blocks r !! i) as [[b0|]|] eqn:Hbi.
  - apply wp_ret. left. exists b0. destruct (Hk i b0 Hbi) as [Hst He]. rewrite Hi in Hst, He. rewrite Hst, He.
    split; [done|]. split; [done|]. split; [done|]. split.
    { unfold put_block. rewrite list_insert_id by done. by destruct r. }
    split; [by eapply Hg|]. split; [|split; [lia|by intros ? [= ->]]].
    split; [by eapply lookup_lt_Some|]. by rewrite Hi, Hst, He.
  - unfold uvm_va_block_create. rewrite Ha.
    assert (Hlt : (i < length (vr_blocks r))%nat) by (by eapply lookup_lt_Some).
    assert (Hnew : forall b, guarded gpu b -> in_slot r i b ->
      exists b', NV_OK = NV_OK /\ Some b = Some b' /\ is_managed r = true /\ put_block i b r = put_block i b' r /\
        guarded gpu b' /\ in_slot r i b' /\ vb_start b' <= addr <= vb_end b' /\
        forall b0, Some (@None va_block) = Some (Some b0) -> b0 = b').
    { intros b Hgd Hsl. exists b. repeat (split; [done|]). split; [|done].
      destruct Hsl as (_ & -> & ->). by rewrite Hi. }
    repeat (wstep; try (right; done)); left; [by apply Hnew; apply Hrace|].
    apply (Hnew (vb_set_migration false true _)); [apply fresh_guarded|].
    split; [done|]. by rewrite Hi.
  - apply lookup_ge_None in Hbi. lia.
Qed.
End Created.
