(* ===== verification/RangeSplit.v ===== *)
(** Creating, splitting and destroying managed ranges ([uvm_va_range.c]), the
    split of a block ([uvm_va_block_split] of [uvm_va_block.c]), and the calls of
    [uvm.c] the kernel makes when a mapping is split or closed.

    What a block split pre-allocates - PTEs split on the GPUs, CPU and GPU chunks
    split to the size of the cut - only succeeds or fails here: each is a decision
    of the environment.  Evicted and read-duplicated pages, the policy copied to
    the new range, performance events and errors injected by tests are left out;
    the slots of a blocks array past the last block are not represented, so that
    shrinking the array cannot be seen to fail.  The ranges of a space are kept by the
    range tree, which is other code: an interface with its laws. *)
From stdpp Require Import sorting.
From S2P Require Import Prelude Kernel VaBlock Permissions Tracking Accessors Service FaultSpace.

(** ** Splitting a block *)

Definition uvm_page_mask_shift_right (mask : gset Z) (shift : Z) : gset Z :=
  set_map (fun p => p - shift) (filter (fun p => shift <= p) mask).

(** What is left of the mask, and the mask of the new block. *)
Definition block_split_page_mask (existing_mask : gset Z) (existing_pages new_pages : Z) : gset Z * gset Z :=
  (existing_mask ∖ region_mask (mk_region existing_pages (existing_pages + new_pages)),
   uvm_page_mask_shift_right existing_mask existing_pages).

Definition vb_set_end (end_ : Z) (b : va_block) : va_block :=
  mk_va_block (vb_start b) end_ (vb_cpu_resident b) (vb_cpu_page b) (vb_cpu_pte_read b) (vb_cpu_pte_write b)
    (vb_gpus b) (vb_resident b) (vb_mapped b) (vb_maybe_mapped b) (vb_dirty b) (vb_tracking b).
Definition vb_set_cpu (resident : gset Z) (page : Z -> list Z) (r w : gset Z) (b : va_block) : va_block :=
  mk_va_block (vb_start b) (vb_end b) resident page r w (vb_gpus b) (vb_resident b) (vb_mapped b)
    (vb_maybe_mapped b) (vb_dirty b) (vb_tracking b).
Definition vb_set_processors (resident mapped : gset Z) (b : va_block) : va_block :=
  mk_va_block (vb_start b) (vb_end b) (vb_cpu_resident b) (vb_cpu_page b) (vb_cpu_pte_read b) (vb_cpu_pte_write b)
    (vb_gpus b) resident mapped (vb_maybe_mapped b) (vb_dirty b) (vb_tracking b).

(** Pages of [existing] below the new block. *)
Definition split_pages (existing new : va_block) : Z := (vb_start new - vb_start existing) / PAGE_SIZE.

(** The CPU chunks of the pages of the new block move to it. *)
Definition block_split_cpu (bs : va_block * va_block) : va_block * va_block :=
  let '(existing, new) := bs in
  let n := split_pages existing new in
  let new_pages := uvm_va_block_num_cpu_pages new in
  let '(res, res') := block_split_page_mask (vb_cpu_resident existing) n new_pages in
  let '(r, r') := block_split_page_mask (vb_cpu_pte_read existing) n new_pages in
  let '(w, w') := block_split_page_mask (vb_cpu_pte_write existing) n new_pages in
  (vb_set_cpu res (vb_cpu_page existing) r w existing,
   vb_set_cpu res' (fun p => vb_cpu_page existing (p + n)) r' w' new).

(** The state of one GPU, with its chunks. *)
Definition block_split_gpu (bs : va_block * va_block) (gpu : Z) : va_block * va_block :=
  let '(existing, new) := bs in
  match uvm_va_block_gpu_state_get existing gpu with
  | None => bs
  | Some gs =>
      let n := split_pages existing new in
      let new_pages := uvm_va_block_num_cpu_pages new in
      let split m := block_split_page_mask m n new_pages in
      (vb_set_gpu gpu (mk_gpu_state (fst (split (gs_resident gs))) (gs_phys gs) (fst (split (gs_pte_read gs)))
                         (fst (split (gs_pte_write gs))) (fst (split (gs_pte_atomic gs)))) existing,
       vb_set_gpu gpu (mk_gpu_state (snd (split (gs_resident gs))) (fun p => gs_phys gs (p + n))
                         (snd (split (gs_pte_read gs))) (snd (split (gs_pte_write gs)))
                         (snd (split (gs_pte_atomic gs)))) new)
  end.

(** [gpus]: the processors with a state. *)
Definition block_gpus (b : va_block) : list Z := ids_in_mask (dom (vb_gpus b)).

(** Setting or clearing the bit of [id] as [pages] has pages of the block. *)
Definition update_processor (b : va_block) (pages : gset Z) (id : Z) (mask : gset Z) : gset Z :=
  if bool_decide (pages ∩ region_mask (mk_region 0 (uvm_va_block_num_cpu_pages b)) = ∅)
  then mask ∖ {[id]} else mask ∪ {[id]}.

Definition block_set_processor_masks (b : va_block) : va_block :=
  let mapped := update_processor b (vb_cpu_pte_read b) UVM_ID_CPU (vb_mapped b) in
  let resident := update_processor b (vb_cpu_resident b) UVM_ID_CPU (vb_resident b) in
  let '(resident, mapped) :=
    fold_left (fun '(resident, mapped) id =>
                 match uvm_va_block_gpu_state_get b id with
                 | Some gs => (update_processor b (gs_resident gs) id resident,
                               update_processor b (gs_pte_read gs) id mapped)
                 | None => (resident, mapped)
                 end) (block_gpus b) (resident, mapped) in
  vb_set_processors resident mapped b.

(** Past all failure points. *)
Definition block_split_state (existing new : va_block) (new_end : Z) : va_block * va_block :=
  let '(existing, new) := fold_left block_split_gpu (block_gpus existing) (block_split_cpu (existing, new)) in
  let existing := vb_set_end new_end existing in
  let '(maybe, maybe') := block_split_page_mask (vb_maybe_mapped existing) (uvm_va_block_num_cpu_pages existing)
                            (uvm_va_block_num_cpu_pages new) in
  (block_set_processor_masks (vb_set_mapped (vb_mapped existing) maybe existing),
   block_set_processor_masks (vb_set_mapped (vb_mapped new) maybe' new)).

Section Split.
Context `{E : Env}.

(** One external decision per GPU with a state; the loop is left at the first
    error. *)
Fixpoint presplit_gpus (gpus : list Z) : K nv_status :=
  match gpus with
  | [] => kret NV_OK
  | _ :: gpus' => status ← ext_status; if is_ok status then presplit_gpus gpus' else kret status
  end.
Definition block_split_presplit_ptes (existing : va_block) : K nv_status := presplit_gpus (block_gpus existing).

(** Chunks of [existing] are split, and the new block gets its GPU states. *)
Fixpoint preallocate_gpus (gpus : list Z) (new : va_block) : K (nv_status * va_block) :=
  match gpus with
  | [] => kret (NV_OK, new)
  | id :: gpus' =>
      status ← ext_status;                                 (* block_presplit_gpu_chunks *)
      if negb (is_ok status) then kret (status, new)
      else
        ob ← block_gpu_state_get_alloc new id;
        match ob with
        | None => kret (NV_ERR_NO_MEMORY, new)
        | Some new => preallocate_gpus gpus' new
        end
  end.
Definition block_split_preallocate_no_retry (existing new : va_block) : K (nv_status * va_block) :=
  status ← ext_status;                                     (* block_presplit_cpu_chunks *)
  if negb (is_ok status) then kret (status, new) else preallocate_gpus (block_gpus existing) new.

Definition uvm_va_block_split_locked (existing : va_block) (new_end : Z) (new : va_block)
    : K (nv_status * (va_block * va_block)) :=
  lock_acquire (LBlock (vb_start new));;
  '(status, new1) ←
    ('(status, _) ← retry_loop env_retries (fun u => st ← block_split_presplit_ptes existing; kret (st, u)) tt;
     if negb (is_ok status) then kret (status, new)
     else
       '(status, new1) ← block_split_preallocate_no_retry existing new;
       if negb (is_ok status) then kret (status, new1)
       else status ← ext_status; kret (status, new1));      (* uvm_tracker_wait *)
  lock_release (LBlock (vb_start new));;
  kret (status, if is_ok status then block_split_state existing new1 new_end else (existing, new1)).

(** [uvm_va_block_release] of a block that was not published, with the states
    its GPUs have. *)
Fixpoint release_states (gpus : list Z) : K unit :=
  match gpus with
  | [] => kret tt
  | _ :: gpus' => kfree true;; kfree true;; release_states gpus'
  end.
Definition release_new_block (new : va_block) : K unit :=
  release_states (block_gpus new);; uvm_va_block_release_new.

(** The status, the existing block, and the new one on success. *)
Definition uvm_va_block_split (existing : va_block) (new_end : Z) : K (nv_status * va_block * option va_block) :=
  '(status, ob) ← uvm_va_block_create (new_end + 1) (vb_end existing);
  match ob with
  | None => kret (status, existing, None)
  | Some new =>
      lock_acquire (LBlock (vb_start existing));;
      '(status, (existing1, new)) ← uvm_va_block_split_locked existing new_end new;
      lock_release (LBlock (vb_start existing));;
      if negb (is_ok status) then release_new_block new;; kret (status, existing1, None)
      else kret (NV_OK, existing1, Some new)
  end.

End Split.

(** ** Ranges *)

(** The range tree, which belongs to other code, over the ranges in address order:
    adding a range keeps the order, or fails when a range meets the new one, and
    a node is split in place. *)
Definition disjoint_from (r x : va_range) : Prop := vr_end x < vr_start r \/ vr_end r < vr_start x.
Class RangeTree := {
  range_tree_add   : va_range -> list va_range -> nv_status * list va_range;
  range_tree_split : nat -> va_range -> list va_range -> list va_range;
  range_tree_add_free  : forall r l, (forall x, x ∈ l -> disjoint_from r x) ->
    range_tree_add r l = (NV_OK, filter (fun x => vr_end x < vr_start r) l ++ r :: filter (fun x => vr_end r < vr_start x) l);
  range_tree_add_taken : forall r l x, x ∈ l -> ~ disjoint_from r x -> exists st, st <> NV_OK /\ range_tree_add r l = (st, l);
  range_tree_split_at  : forall j existing new l, l !! j = Some existing ->
    range_tree_split j new l =
      take j l ++ mk_va_range (vr_start existing) (vr_start new - 1) (vr_type existing) (vr_blocks existing) :: new :: drop (S j) l;
}.

#[export] Instance disjoint_from_dec r x : Decision (disjoint_from r x).
Proof. unfold disjoint_from. apply _. Defined.

(** The tree as a list. *)
#[export] Program Instance list_range_tree : RangeTree := {|
  range_tree_add r l :=
    if decide (Forall (disjoint_from r) l)
    then (NV_OK, filter (fun x => vr_end x < vr_start r) l ++ r :: filter (fun x => vr_end r < vr_start x) l)
    else (NV_ERR_UVM_ADDRESS_IN_USE, l);
  range_tree_split j new l :=
    match l !! j with
    | Some e => take j l ++ mk_va_range (vr_start e) (vr_start new - 1) (vr_type e) (vr_blocks e) :: new :: drop (S j) l
    | None => l
    end;
|}.
Next Obligation. intros r l Hl. cbv beta. rewrite decide_True; [done|]. by apply Forall_forall. Qed.
Next Obligation.
  intros r l x Hx Hd. exists NV_ERR_UVM_ADDRESS_IN_USE. split; [done|]. cbv beta. rewrite decide_False; [done|].
  rewrite Forall_forall. intros Hl. by apply Hd, Hl.
Qed.
Next Obligation. intros j e new l He. cbv beta. by rewrite He. Qed.

Section Ranges.
Context `{E : Env} `{T : RangeTree}.

Definition clear_block (index : nat) (r : va_range) : va_range :=
  vr_set_blocks (<[index := None]> (vr_blocks r)) r.

Definition uvm_va_range_alloc_managed (start end_ : Z) : K (option va_range) :=
  p ← kmalloc;                                             (* uvm_va_range_alloc *)
  if negb p then kret None
  else
    let r := mk_va_range start end_ UVM_VA_RANGE_TYPE_MANAGED [] in
    blocks ← kvmalloc_array (uvm_va_range_num_blocks r) 8;
    if negb blocks then kfree true;; kret None
    else kret (Some (vr_set_blocks (replicate (Z.to_nat (uvm_va_range_num_blocks r)) None) r)).

(** [uvm_va_range_destroy] of a range with no blocks that is not in the tree. *)
Definition destroy_new_range : K unit := kfree true;; kfree true.

(** The blocks from [split_index + new_index] on move to the new range. *)
Fixpoint move_blocks (n : nat) (split_index new_index : nat) (existing new : va_range) : K (va_range * va_range) :=
  match n with
  | O => kret (existing, new)
  | S n' =>
      match vr_blocks existing !! (split_index + new_index)%nat with
      | Some (Some block) =>
          lock_acquire (LBlock (vb_start block));;         (* block->va_range = new *)
          lock_release (LBlock (vb_start block));;
          move_blocks n' split_index (S new_index) (clear_block (split_index + new_index) existing)
            (put_block new_index block new)
      | _ => move_blocks n' split_index (S new_index) existing new
      end
  end.

(** The block that spans the split point is split; the place the moved blocks
    start from is returned. *)
Definition split_spanning_block (split_index : nat) (existing new : va_range)
    : K (nv_status * nat * (va_range * va_range)) :=
  if block_calc_start existing (Z.of_nat split_index) =? vr_start new then kret (NV_OK, 0%nat, (existing, new))
  else
    match vr_blocks existing !! split_index with
    | Some (Some old_block) =>
        '(status, old_block, block) ← uvm_va_block_split old_block (vr_start new - 1);
        let existing := put_block split_index old_block existing in
        kret (status, 1%nat, (existing, match block with Some b => put_block 0 b new | None => new end))
    | _ => kret (NV_OK, 1%nat, (existing, new))
    end.

Definition uvm_va_range_split_blocks (existing new : va_range) : K (nv_status * (va_range * va_range)) :=
  let split_index := Z.to_nat (uvm_va_range_block_index existing (vr_start new)) in
  '(status, new_index, (existing, new)) ← split_spanning_block split_index existing new;
  if negb (is_ok status) then kret (status, (existing, new))
  else
    '(existing, new) ← move_blocks (Z.to_nat (uvm_va_range_num_blocks new) - new_index) split_index new_index existing new;
    let existing_blocks := (split_index + new_index)%nat in
    kret (NV_OK, (vr_set_blocks (take existing_blocks (vr_blocks existing)) existing, new)).

(** [existing] is the range at place [j] of the space. *)
Definition uvm_va_range_split (v : va_space) (j : nat) (existing : va_range) (new_end : Z) : K (nv_status * va_space) :=
  o ← uvm_va_range_alloc_managed (new_end + 1) (vr_end existing);
  match o with
  | None => kret (NV_ERR_NO_MEMORY, v)
  | Some new =>
      '(status, (existing, new)) ← uvm_va_range_split_blocks existing new;
      if negb (is_ok status) then destroy_new_range;; kret (status, put_range j existing v)
      else kret (NV_OK, vs_set_ranges (range_tree_split j new (vs_ranges (put_range j existing v))) v)
  end.

Definition uvm_va_range_create_mmap (v : va_space) (vm_start vm_end : Z) : K (nv_status * va_space) :=
  status ← ext_status;                                     (* uvm_hmm_va_block_reclaim *)
  if negb (is_ok status) then kret (status, v)
  else
    o ← uvm_va_range_alloc_managed vm_start (vm_end - 1);
    match o with
    | None => kret (NV_ERR_NO_MEMORY, v)
    | Some r =>
        let '(status, ranges) := range_tree_add r (vs_ranges v) in
        if negb (is_ok status) then destroy_new_range;; kret (status, v) else kret (NV_OK, vs_set_ranges ranges v)
    end.

(** ** The calls of the kernel *)

(** The managed ranges of a mapping. *)
Definition in_vma (vm_start vm_end : Z) (r : va_range) : bool :=
  is_managed r && (vr_start r <=? vm_end - 1) && (vm_start <=? vr_end r).
Definition uvm_destroy_vma_managed (vm_start vm_end : Z) (v : va_space) : va_space :=
  vs_set_ranges (filter (fun r => in_vma vm_start vm_end r = false) (vs_ranges v)) v.

(** A mapping [original] of which [vma] is one side of a split, or a copy made
    by fork or a move; [same_mm] tells whether it is in the same process.  The
    ranges do not point back to their mapping. *)
Definition uvm_vm_open_managed (v : va_space) (same_mm : bool) (original vma : Z * Z) : K va_space :=
  if negb same_mm || (negb (fst vma =? fst original) && negb (snd vma =? snd original)) then kret v
  else
    let new_end := if fst vma =? fst original then snd vma - 1 else fst vma - 1 in
    let failure v := uvm_destroy_vma_managed (fst original) (snd original) v in
    lock_acquire (LSpaceWrite (vs_id v));;
    wrapper ← kmalloc;
    v' ← (if negb wrapper then kret (failure v)
          else
            match uvm_va_space_iter_first v new_end new_end with      (* uvm_va_range_find *)
            | None => kret v
            | Some (j, r) =>
                if vr_end r =? new_end then kret v
                else
                  '(status, v) ← uvm_va_range_split v j r new_end;
                  kret (if is_ok status then v else failure v)
            end);
    lock_release (LSpaceWrite (vs_id v));;
    kret v'.

(** A mapping closed by its process. *)
Definition uvm_vm_close_managed (v : va_space) (vma : Z * Z) : K va_space :=
  lock_acquire (LSpaceWrite (vs_id v));;
  lock_release (LSpaceWrite (vs_id v));;
  kret (uvm_destroy_vma_managed (fst vma) (snd vma) v).
End Ranges.
