(* ===== verification/RangeSplitSpec.v ===== *)
(** What splitting and creating ranges guarantees: a split keeps the space
    well-formed and what every processor sees at every address; a failed one
    changes nothing; and the block on the far side of the cut is not tracked. *)
From stdpp Require Import sorting.
From S2P Require Import Prelude Kernel VaBlock Permissions Tracking Accessors Service FaultService FaultSpace RangeSplit.

(** ** Masks *)

Lemma elem_of_shift_right m n p : 0 <= p -> p ∈ uvm_page_mask_shift_right m n <-> p + n ∈ m.
Proof.
  intros Hp. unfold uvm_page_mask_shift_right. rewrite elem_of_map. split.
  - intros (q & -> & Hq). apply elem_of_filter in Hq as [_ Hq]. by replace (q - n + n) with q by lia.
  - intros Hq. exists (p + n). split; [lia|]. apply elem_of_filter. split; [lia|done].
Qed.

Lemma shift_right_range m n p : p ∈ uvm_page_mask_shift_right m n -> 0 <= p /\ p + n ∈ m.
Proof.
  unfold uvm_page_mask_shift_right. rewrite elem_of_map. intros (q & -> & Hq). apply elem_of_filter in Hq as [H1 Hq].
  split; [lia|]. by replace (q - n + n) with q by lia.
Qed.

Lemma elem_of_lower m n k p : p < n -> p ∈ fst (block_split_page_mask m n k) <-> p ∈ m.
Proof. intros Hp. cbn. rewrite elem_of_difference, elem_of_region_mask. cbn. intuition lia. Qed.

Lemma lower_upper_subset m m' n k :
  m ⊆ m' -> fst (block_split_page_mask m n k) ⊆ fst (block_split_page_mask m' n k) /\
            snd (block_split_page_mask m n k) ⊆ snd (block_split_page_mask m' n k).
Proof.
  intros Hm. cbn. split; [set_solver|]. intros p Hp. destruct (shift_right_range _ _ _ Hp) as [H0 Hq].
  apply elem_of_shift_right; [done|set_solver].
Qed.

(** ** The states of the GPUs *)

Definition vb_set_gpus (gpus : gmap Z gpu_state) (b : va_block) : va_block :=
  mk_va_block (vb_start b) (vb_end b) (vb_cpu_resident b) (vb_cpu_page b) (vb_cpu_pte_read b) (vb_cpu_pte_write b)
    gpus (vb_resident b) (vb_mapped b) (vb_maybe_mapped b) (vb_dirty b) (vb_tracking b).

Section Gpus.
Context (n k : Z).

Definition gs_lower (gs : gpu_state) : gpu_state :=
  let split m := fst (block_split_page_mask m n k) in
  mk_gpu_state (split (gs_resident gs)) (gs_phys gs) (split (gs_pte_read gs)) (split (gs_pte_write gs))
    (split (gs_pte_atomic gs)).
Definition gs_upper (gs : gpu_state) : gpu_state :=
  let split m := snd (block_split_page_mask m n k) in
  mk_gpu_state (split (gs_resident gs)) (fun p => gs_phys gs (p + n)) (split (gs_pte_read gs))
    (split (gs_pte_write gs)) (split (gs_pte_atomic gs)).

Lemma gs_halves_wf gs : gs_wf gs -> gs_wf (gs_lower gs) /\ gs_wf (gs_upper gs).
Proof.
  intros [H1 H2]. destruct (lower_upper_subset _ _ n k H1), (lower_upper_subset _ _ n k H2). by split; split.
Qed.

(** The states once the GPUs [l] are split. *)
Lemma split_gpus_fold l : forall e w,
  NoDup l -> split_pages e w = n -> uvm_va_block_num_cpu_pages w = k ->
  exists ge gw, fold_left block_split_gpu l (e, w) = (vb_set_gpus ge e, vb_set_gpus gw w) /\
    (forall g, ge !! g = if decide (g ∈ l) then gs_lower <$> vb_gpus e !! g else vb_gpus e !! g) /\
    (forall g, gw !! g = if decide (g ∈ l /\ is_Some (vb_gpus e !! g)) then gs_upper <$> vb_gpus e !! g else vb_gpus w !! g).
Proof.
  induction l as [|i l IH]; intros e w Hnd Hn Hk.
  { exists (vb_gpus e), (vb_gpus w). split; [by destruct e, w|]. split; intros g.
    - by rewrite decide_False by set_solver.
    - rewrite decide_False; [done|]. intros [Hg _]. by apply elem_of_nil in Hg. }
  apply NoDup_cons in Hnd as [Hi Hnd]. cbn [fold_left block_split_gpu]. unfold uvm_va_block_gpu_state_get.
  destruct (vb_gpus e !! i) as [gs|] eqn:Hgs.
  - rewrite Hn, Hk. set (e1 := vb_set_gpu i _ e). set (w1 := vb_set_gpu i _ w).
    destruct (IH e1 w1) as (ge & gw & Heq & Hge & Hgw); [done|done|done|]. rewrite Heq. exists ge, gw. split; [done|].
    split; intros g; rewrite ?Hge, ?Hgw; cbn [e1 w1 vb_gpus vb_set_gpu].
    + destruct (decide (g = i)) as [->|Hne].
      * rewrite decide_False, decide_True, lookup_insert_eq, Hgs by (done || set_solver). done.
      * rewrite lookup_insert_ne by done. destruct (decide (g ∈ l)), (decide (g ∈ i :: l)); try done; set_solver.
    + destruct (decide (g = i)) as [->|Hne].
      * rewrite decide_False by (intros [? _]; done). rewrite decide_True by (split; [left|rewrite Hgs; eauto]).
        by rewrite lookup_insert_eq, Hgs.
      * rewrite !lookup_insert_ne by done. destruct (decide (g ∈ l /\ _)) as [[H1 H2]|H1], (decide (g ∈ i :: l /\ _)) as [H3|H3];
          try done; exfalso; [apply H3; split; [by right|done]|]. apply H1. destruct H3 as [[?|?]%elem_of_cons ?]; done.
  - destruct (IH e w) as (ge & gw & Heq & Hge & Hgw); [done|done|done|]. rewrite Heq. exists ge, gw. split; [done|].
    split; intros g; rewrite ?Hge, ?Hgw.
    + destruct (decide (g = i)) as [->|Hne]; [rewrite decide_False, decide_True by (done || left); by rewrite Hgs|].
      destruct (decide (g ∈ l)), (decide (g ∈ i :: l)); try done; set_solver.
    + destruct (decide (g ∈ l /\ _)) as [[H1 H2]|H1], (decide (g ∈ i :: l /\ _)) as [H3|H3];
        try done; exfalso; [apply H3; split; [by right|done]|]. apply H1. destruct H3 as [[->|?]%elem_of_cons H3]; [|done].
      rewrite Hgs in H3. by destruct H3.
Qed.
End Gpus.

(** ** The processor masks *)

Lemma update_processor_other b m id mask g : g <> id -> g ∈ update_processor b m id mask <-> g ∈ mask.
Proof. intros Hg. unfold update_processor. case_bool_decide; set_solver. Qed.

(** [id] has pages of the block in [m]. *)
Definition has_pages (b : va_block) (m : gset Z) : Prop := m ∩ full_mask b <> ∅.

Lemma update_processor_self b m id mask : id ∈ update_processor b m id mask <-> has_pages b m.
Proof.
  unfold update_processor, has_pages, full_mask, uvm_va_block_region_from_block. case_bool_decide as Hm; set_solver.
Qed.

(** What the mask of a processor becomes. *)
Definition masked (b : va_block) (f : gpu_state -> gset Z) (cpu : gset Z) (mask : gset Z) (g : Z) : Prop :=
  if decide (g = UVM_ID_CPU) then has_pages b cpu
  else match vb_gpus b !! g with Some gs => has_pages b (f gs) | None => g ∈ mask end.

Lemma set_processor_masks_spec b :
  (forall g, is_Some (vb_gpus b !! g) -> 0 < g) ->
  exists resident mapped, block_set_processor_masks b = vb_set_processors resident mapped b /\
    (forall g, g ∈ resident <-> masked b gs_resident (vb_cpu_resident b) (vb_resident b) g) /\
    (forall g, g ∈ mapped <-> masked b gs_pte_read (vb_cpu_pte_read b) (vb_mapped b) g).
Proof.
  intros Hpos. unfold block_set_processor_masks. set (upd := fun '(resident, mapped) id => _).
  set (r0 := update_processor b (vb_cpu_resident b) UVM_ID_CPU (vb_resident b)).
  set (m0 := update_processor b (vb_cpu_pte_read b) UVM_ID_CPU (vb_mapped b)).
  assert (Hfold : forall l r m, let '(r', m') := fold_left upd l (r, m) in
    forall g, (g ∈ r' <-> match (if decide (g ∈ l) then vb_gpus b !! g else None) with
                          | Some gs => has_pages b (gs_resident gs) | None => g ∈ r end) /\
              (g ∈ m' <-> match (if decide (g ∈ l) then vb_gpus b !! g else None) with
                          | Some gs => has_pages b (gs_pte_read gs) | None => g ∈ m end)).
  { induction l as [|i l IH]; intros r m; cbn [fold_left]; [intros g; by rewrite decide_False by set_solver|].
    destruct (upd (r, m) i) as [r1 m1] eqn:Hu. specialize (IH r1 m1). destruct (fold_left upd l (r1, m1)) as [r' m'].
    intros g. destruct (IH g) as [H1 H2]. rewrite H1, H2. unfold upd, uvm_va_block_gpu_state_get in Hu.
    destruct (decide (g ∈ l)) as [Hl|Hl].
    - rewrite (decide_True (P := g ∈ i :: l)) by by right. destruct (vb_gpus b !! g) as [gs|] eqn:Hg; [done|].
      destruct (vb_gpus b !! i) as [gi|] eqn:Hgi; injection Hu as <- <-; [|done].
      assert (g <> i) by congruence. by rewrite !update_processor_other.
    - destruct (decide (g = i)) as [->|Hne].
      + rewrite decide_True by left. destruct (vb_gpus b !! i) as [gi|] eqn:Hgi; injection Hu as <- <-; [|done].
        by rewrite !update_processor_self.
      + rewrite decide_False by (intros [?|?]%elem_of_cons; done).
        destruct (vb_gpus b !! i) as [gi|] eqn:Hgi; injection Hu as <- <-; [|done]. by rewrite !update_processor_other. }
  specialize (Hfold (block_gpus b) r0 m0). destruct (fold_left upd (block_gpus b) (r0, m0)) as [r m].
  exists r, m. split; [done|].
  assert (Hl : forall g, (if decide (g ∈ block_gpus b) then vb_gpus b !! g else None) = vb_gpus b !! g).
  { intros g. case_decide as Hg; [done|]. symmetry. apply not_elem_of_dom. unfold block_gpus in Hg.
    by rewrite elem_of_ids_in_mask in Hg. }
  assert (Hcpu : vb_gpus b !! UVM_ID_CPU = None).
  { destruct (vb_gpus b !! UVM_ID_CPU) eqn:Hc; [|done]. pose proof (Hpos UVM_ID_CPU ltac:(eauto)). by unfold UVM_ID_CPU in *. }
  split; intros g; destruct (Hfold g) as [H1 H2]; rewrite Hl in H1, H2; [rewrite H1|rewrite H2]; unfold masked;
    destruct (decide (g = UVM_ID_CPU)) as [->|Hg].
  1,3: rewrite Hcpu; apply update_processor_self.
  all: destruct (vb_gpus b !! g); [done|]; by apply update_processor_other.
Qed.

(** ** Splitting a block *)

Lemma NoDup_ids_in_mask m : NoDup (ids_in_mask m).
Proof. unfold ids_in_mask. rewrite merge_sort_Permutation. apply NoDup_elements. Qed.

(** Page [p] of [b] and page [p'] of [b'] look the same to every processor. *)
Record page_kept (b : va_block) (p : Z) (b' : va_block) (p' : Z) : Prop := {
  pk_contents : vb_cpu_page b' p' = vb_cpu_page b p;
  pk_prot     : forall g q, p' ∈ prot_pages b' g q <-> p ∈ prot_pages b g q;
  pk_resident : forall g, p' ∈ uvm_va_block_resident_mask_get b' g <-> p ∈ uvm_va_block_resident_mask_get b g;
  pk_phys     : forall g gs, vb_gpus b !! g = Some gs ->
                  exists gs', vb_gpus b' !! g = Some gs' /\ gs_phys gs' p' = gs_phys gs p;
}.

Lemma page_kept_refl b p : page_kept b p b p.
Proof. split; try done. intros g gs Hg. by exists gs. Qed.

(** A block with its masks within its pages, and truthful processor masks. *)
Record block_ok (b : va_block) : Prop := {
  bk_range    : block_range b;
  bk_start    : 0 <= vb_start b /\ vb_end b < 2 ^ 63;
  bk_perm     : perm_wf b;
  bk_ids      : forall g, is_Some (vb_gpus b !! g) -> 0 < g;
  bk_cpu      : vb_cpu_pte_read b ⊆ full_mask b;
  bk_gpu      : forall g gs, vb_gpus b !! g = Some gs -> gs_pte_read gs ⊆ full_mask b;
}.

(** A new block of the pages above [new_end], with the states preallocated. *)
Record prepared_new (b : va_block) (new_end : Z) (w : va_block) : Prop := {
  pn_start  : vb_start w = new_end + 1;
  pn_end    : vb_end w = vb_end b;
  pn_gpus   : forall g, is_Some (vb_gpus w !! g) -> is_Some (vb_gpus b !! g);
  pn_masks  : vb_resident w = ∅ /\ vb_mapped w = ∅;
  pn_flags  : vb_dirty w = false /\ vb_tracking w = false;
}.

Section BlockSplit.
Context (b : va_block) (new_end : Z) (Hb : block_ok b).
Context (Hin : vb_start b <= new_end < vb_end b) (Hal : (new_end + 1 - vb_start b) mod PAGE_SIZE = 0).
Context (w : va_block) (Hw : prepared_new b new_end w).

(** Pages below and above the cut. *)
Let n := (new_end + 1 - vb_start b) / PAGE_SIZE.
Let k := (vb_end b - new_end) / PAGE_SIZE.

Lemma split_counts :
  split_pages b w = n /\ uvm_va_block_num_cpu_pages w = k /\ uvm_va_block_num_cpu_pages b = n + k /\ 1 <= n /\ 1 <= k.
Proof using Hb Hin Hal Hw.
  destruct Hb as [[Hsz Hpg] [H0 Htop] _ _ _ _]. unfold split_pages, uvm_va_block_num_cpu_pages, uvm_va_block_size, n, k.
  rewrite (pn_start _ _ _ Hw), (pn_end _ _ _ Hw). unfold UVM_VA_BLOCK_SIZE, PAGE_SIZE in *.
  rewrite !u64_small by lia. replace (vb_end b - (new_end + 1) + 1) with (vb_end b - new_end) by lia.
  split; [done|]. split; [done|]. zlia.
Qed.

(** The two halves before their processor masks are computed. *)
Definition halves : va_block * va_block :=
  let '(e, w) := fold_left block_split_gpu (block_gpus b) (block_split_cpu (b, w)) in
  let e := vb_set_end new_end e in
  let '(m, m') := block_split_page_mask (vb_maybe_mapped e) (uvm_va_block_num_cpu_pages e) (uvm_va_block_num_cpu_pages w) in
  (vb_set_mapped (vb_mapped e) m e, vb_set_mapped (vb_mapped w) m' w).

Lemma split_state_halves :
  block_split_state b w new_end = (block_set_processor_masks (fst halves), block_set_processor_masks (snd halves)).
Proof.
  unfold block_split_state, halves. destruct (fold_left _ _ _) as [e w1]. by destruct (block_split_page_mask _ _ _).
Qed.

(** Their fields. *)
Record is_halves (e h : va_block) : Prop := {
  ih_start   : vb_start e = vb_start b /\ vb_start h = new_end + 1;
  ih_end     : vb_end e = new_end /\ vb_end h = vb_end b;
  ih_page    : vb_cpu_page e = vb_cpu_page b /\ forall p, vb_cpu_page h p = vb_cpu_page b (p + n);
  ih_res     : vb_cpu_resident e = fst (block_split_page_mask (vb_cpu_resident b) n k) /\
               vb_cpu_resident h = snd (block_split_page_mask (vb_cpu_resident b) n k);
  ih_read    : vb_cpu_pte_read e = fst (block_split_page_mask (vb_cpu_pte_read b) n k) /\
               vb_cpu_pte_read h = snd (block_split_page_mask (vb_cpu_pte_read b) n k);
  ih_write   : vb_cpu_pte_write e = fst (block_split_page_mask (vb_cpu_pte_write b) n k) /\
               vb_cpu_pte_write h = snd (block_split_page_mask (vb_cpu_pte_write b) n k);
  ih_gpus    : forall g, vb_gpus e !! g = gs_lower n k <$> vb_gpus b !! g /\
                         vb_gpus h !! g = gs_upper n k <$> vb_gpus b !! g;
  ih_mapped  : vb_mapped e = vb_mapped b /\ vb_mapped h = ∅;
  ih_flags   : vb_dirty e = vb_dirty b /\ vb_tracking e = vb_tracking b /\ vb_dirty h = false /\ vb_tracking h = false;
}.

Lemma halves_spec : is_halves (fst halves) (snd halves).
Proof using Hb Hin Hal Hw.
  destruct split_counts as (Hn & Hk & _). destruct Hw as [Hs He Hg [Hr Hm] [Hd Ht]]. unfold halves. cbn [block_split_cpu].
  cbn [block_split_page_mask]. rewrite Hn, Hk. match goal with |- context [fold_left _ _ (?x, ?y)] => set (e0 := x); set (w0 := y) end.
  destruct (split_gpus_fold n k (block_gpus b) e0 w0) as (ge & gw & -> & Hge & Hgw); [apply NoDup_ids_in_mask|done|done|].
  cbn. split; cbn; try done.
  intros g. rewrite Hge, Hgw. cbn [e0 w0 vb_set_cpu vb_gpus].
  assert (Hdom : g ∈ block_gpus b <-> is_Some (vb_gpus b !! g)).
  { unfold block_gpus. by rewrite elem_of_ids_in_mask, elem_of_dom. }
  destruct (vb_gpus b !! g) as [gs|] eqn:Hgs.
  - rewrite !decide_True by (rewrite ?Hdom; eauto). done.
  - assert (Hnot : g ∉ block_gpus b) by (rewrite Hdom; by intros []).
    rewrite decide_False by done. rewrite decide_False by (by intros [? _]). split; [done|].
    destruct (vb_gpus w !! g) eqn:Hwg; [|done]. destruct (Hg g ltac:(eauto)). congruence.
Qed.

Lemma full_mask_pages c m : uvm_va_block_num_cpu_pages c = m -> full_mask c = region_mask (mk_region 0 m).
Proof. intros Hm. unfold full_mask, uvm_va_block_region_from_block. by rewrite Hm. Qed.

Lemma halves_pages e h : is_halves e h -> uvm_va_block_num_cpu_pages e = n /\ uvm_va_block_num_cpu_pages h = k.
Proof using Hb Hin Hal.
  intros [[Hs1 Hs2] [He1 He2] _ _ _ _ _ _ _]. destruct Hb as [[Hsz Hpg] [H0 Htop] _ _ _ _].
  unfold uvm_va_block_num_cpu_pages, uvm_va_block_size, n, k. rewrite Hs1, Hs2, He1, He2.
  unfold UVM_VA_BLOCK_SIZE, PAGE_SIZE in *. rewrite !u64_small by lia. split; f_equal; lia.
Qed.

Lemma split_mask_full e h m :
  is_halves e h -> m ⊆ full_mask b ->
  fst (block_split_page_mask m n k) ⊆ full_mask e /\ snd (block_split_page_mask m n k) ⊆ full_mask h.
Proof using Hb Hin Hal Hw.
  intros Hh Hm. destruct (halves_pages e h Hh) as [He1 He2]. destruct split_counts as (_ & _ & Hnk & Hn & Hk).
  rewrite (full_mask_pages e n), (full_mask_pages h k) by done. rewrite (full_mask_pages b (n + k)) in Hm by done.
  split; intros p Hp.
  - cbn in Hp. apply elem_of_difference in Hp as [Hp Hq]. apply Hm in Hp.
    rewrite elem_of_region_mask in *. cbn in *. lia.
  - destruct (shift_right_range _ _ _ Hp) as [H0 Hq]. apply Hm in Hq. rewrite elem_of_region_mask in *. cbn in *. lia.
Qed.

(** Pages of the halves are pages of the block. *)
Lemma halves_kept e h :
  is_halves e h ->
  (forall p, p < n -> page_kept b p e p) /\ (forall p, 0 <= p -> page_kept b (p + n) h p).
Proof.
  intros [_ _ [Hp1 Hp2] [Hr1 Hr2] [Hc1 Hc2] [Hw1 Hw2] Hg _ _]. split; intros p Hp; split.
  - by rewrite Hp1.
  - intros g q. unfold prot_pages. destruct (g =? UVM_ID_CPU).
    + rewrite Hc1, Hw1. destruct (writable q); by apply elem_of_lower.
    + unfold gpu_state_of. rewrite (proj1 (Hg g)). destruct (vb_gpus b !! g) as [gs|]; [|destruct q; cbn; set_solver].
      destruct q; cbn [gpu_pte_bits get_gpu_pte_bit_index from_option fmap option_fmap option_map default gs_lower
        gs_pte_read gs_pte_write gs_pte_atomic]; try done; by apply elem_of_lower.
  - intros g. unfold uvm_va_block_resident_mask_get, uvm_va_block_gpu_state_get. destruct (g =? UVM_ID_CPU).
    + rewrite Hr1. by apply elem_of_lower.
    + rewrite (proj1 (Hg g)). destruct (vb_gpus b !! g) as [gs|]; [|done]. by apply elem_of_lower.
  - intros g gs Hgs. exists (gs_lower n k gs). by rewrite (proj1 (Hg g)), Hgs.
  - by rewrite Hp2.
  - intros g q. unfold prot_pages. destruct (g =? UVM_ID_CPU).
    + rewrite Hc2, Hw2. destruct (writable q); by apply elem_of_shift_right.
    + unfold gpu_state_of. rewrite (proj2 (Hg g)). destruct (vb_gpus b !! g) as [gs|]; [|destruct q; cbn; set_solver].
      destruct q; cbn [gpu_pte_bits get_gpu_pte_bit_index from_option fmap option_fmap option_map default gs_upper
        gs_pte_read gs_pte_write gs_pte_atomic]; try done; by apply elem_of_shift_right.
  - intros g. unfold uvm_va_block_resident_mask_get, uvm_va_block_gpu_state_get. destruct (g =? UVM_ID_CPU).
    + rewrite Hr2. by apply elem_of_shift_right.
    + rewrite (proj2 (Hg g)). destruct (vb_gpus b !! g) as [gs|]; [|set_solver]. by apply elem_of_shift_right.
  - intros g gs Hgs. exists (gs_upper n k gs). by rewrite (proj2 (Hg g)), Hgs.
Qed.

(** Computing the processor masks of a half makes it well-formed. *)
Lemma set_masks_ok c :
  block_range c -> 0 <= vb_start c /\ vb_end c < 2 ^ 63 ->
  (forall g gs, vb_gpus c !! g = Some gs -> gs_wf gs /\ 0 < g /\ gs_pte_read gs ⊆ full_mask c) ->
  vb_cpu_pte_write c ⊆ vb_cpu_pte_read c -> vb_cpu_pte_read c ⊆ full_mask c ->
  (forall g, 0 < g -> g ∈ vb_mapped c -> is_Some (vb_gpus c !! g)) ->
  block_ok (block_set_processor_masks c) /\
  (forall p, page_kept c p (block_set_processor_masks c) p) /\
  vb_start (block_set_processor_masks c) = vb_start c /\ vb_end (block_set_processor_masks c) = vb_end c /\
  vb_dirty (block_set_processor_masks c) = vb_dirty c /\ vb_tracking (block_set_processor_masks c) = vb_tracking c.
Proof.
  intros Hr Hst Hg Hcw Hcr Hm.
  destruct (set_processor_masks_spec c) as (res & mapped & -> & _ & Hmap); [intros g [gs Hgs]; by destruct (Hg g gs Hgs) as (_ & ? & _)|].
  assert (Hno : forall m, m ⊆ full_mask c -> ~ has_pages c m -> m = ∅).
  { intros m Hsub Hn. destruct (decide (m = ∅)) as [|Hne]; [done|]. exfalso. apply Hn. unfold has_pages.
    by replace (m ∩ full_mask c) with m by set_solver. }
  split; [|split; [intros p; split; try done; intros g gs Hgs; by exists gs|done]].
  split; [destruct Hr; by split|done| |intros g [gs Hgs]; by destruct (Hg g gs Hgs) as (_ & ? & _)|done|intros g gs Hgs; by destruct (Hg g gs Hgs) as (_ & _ & ?)].
  split; cbn.
  - intros g gs Hgs. apply (Hg g gs Hgs).
  - intros g gs Hgs H0 Hnm. destruct (Hg g gs Hgs) as (_ & _ & Hsub). apply Hno; [done|]. intros Hp. apply Hnm, Hmap.
    unfold masked. rewrite decide_False by (unfold UVM_ID_CPU; lia). by rewrite Hgs.
  - intros Hnm. apply Hno; [done|]. intros Hp. apply Hnm, Hmap. unfold masked. by rewrite decide_True.
  - done.
  - intros g H0 Hgm. apply Hmap in Hgm. unfold masked in Hgm. rewrite decide_False in Hgm by (unfold UVM_ID_CPU; lia).
    destruct (vb_gpus c !! g) eqn:Hgs; [eauto|]. rewrite <- Hgs. by apply Hm.
Qed.

(** What a block becomes. *)
Record block_split (e h : va_block) : Prop := {
  bp_ok     : block_ok e /\ block_ok h;
  bp_start  : vb_start e = vb_start b /\ vb_start h = new_end + 1;
  bp_end    : vb_end e = new_end /\ vb_end h = vb_end b;
  bp_low    : forall p, p < n -> page_kept b p e p;
  bp_high   : forall p, 0 <= p -> page_kept b (p + n) h p;
  bp_flags  : vb_dirty e = vb_dirty b /\ vb_tracking e = vb_tracking b /\ vb_dirty h = false /\ vb_tracking h = false;
}.

Lemma page_kept_trans b1 p1 b2 p2 b3 p3 : page_kept b1 p1 b2 p2 -> page_kept b2 p2 b3 p3 -> page_kept b1 p1 b3 p3.
Proof.
  intros [H1 H2 H3 H4] [G1 G2 G3 G4]. split; [congruence| | |].
  - intros g q. by rewrite G2.
  - intros g. by rewrite G3.
  - intros g gs Hgs. destruct (H4 g gs Hgs) as (gs2 & Hgs2 & Hp2). destruct (G4 g gs2 Hgs2) as (gs3 & Hgs3 & Hp3).
    exists gs3. split; [done|congruence].
Qed.

Lemma split_state_spec : block_split (fst (block_split_state b w new_end)) (snd (block_split_state b w new_end)).
Proof using Hb Hin Hal Hw.
  rewrite split_state_halves. cbn [fst snd]. pose proof halves_spec as Hh. destruct halves as [e h]. cbn [fst snd] in Hh |- *.
  destruct (halves_kept e h Hh) as [Hlow Hhigh]. pose proof (fun m => split_mask_full e h m Hh) as Hfull.
  destruct Hh as [[Hs1 Hs2] [He1 He2] _ _ [Hr1 Hr2] [Hw1 Hw2] Hg [Hm1 Hm2] (Hd1 & Ht1 & Hd2 & Ht2)].
  destruct Hb as [[Hsz Hpg] [H0 Htop] Hperm Hids Hcpu Hgpu].
  destruct (lower_upper_subset _ _ n k (pw_cpu _ Hperm)) as [Hc1 Hc2]. destruct (Hfull _ Hcpu) as [Hf1 Hf2].
  assert (Hgs : forall g gs, vb_gpus b !! g = Some gs -> gs_wf (gs_lower n k gs) /\ gs_wf (gs_upper n k gs) /\ 0 < g /\
    gs_pte_read (gs_lower n k gs) ⊆ full_mask e /\ gs_pte_read (gs_upper n k gs) ⊆ full_mask h).
  { intros g gs Hgs. destruct (gs_halves_wf n k gs (pw_gpu _ Hperm g gs Hgs)). destruct (Hfull _ (Hgpu g gs Hgs)).
    split_and!; try done. eauto. }
  destruct (set_masks_ok e) as (Hok1 & Hk1 & Hst1 & Hen1 & Hdi1 & Htr1).
  { split; rewrite Hs1, He1; [lia|done]. } { rewrite Hs1, He1. lia. }
  { intros g gs He. rewrite (proj1 (Hg g)) in He. apply fmap_Some in He as (gs0 & Hgs0 & ->). by destruct (Hgs g gs0 Hgs0) as (? & _ & ? & ? & _). }
  { by rewrite Hr1, Hw1. } { by rewrite Hr1. }
  { intros g Hg0. rewrite Hm1, (proj1 (Hg g)). intros Hm. rewrite fmap_is_Some. by apply (pw_state _ Hperm). }
  destruct (set_masks_ok h) as (Hok2 & Hk2 & Hst2 & Hen2 & Hdi2 & Htr2).
  { split; rewrite Hs2, He2; [lia|]. unfold PAGE_SIZE in *. zlia. } { rewrite Hs2, He2. lia. }
  { intros g gs He. rewrite (proj2 (Hg g)) in He. apply fmap_Some in He as (gs0 & Hgs0 & ->). by destruct (Hgs g gs0 Hgs0) as (_ & ? & ? & _ & ?). }
  { by rewrite Hr2, Hw2. } { by rewrite Hr2. }
  { intros g _. rewrite Hm2. set_solver. }
  split; [done|by rewrite Hst1, Hst2|by rewrite Hen1, Hen2| | |].
  - intros p Hp. eapply page_kept_trans; [by apply Hlow|apply Hk1].
  - intros p Hp. eapply page_kept_trans; [by apply Hhigh|apply Hk2].
  - rewrite Hdi1, Htr1, Hdi2, Htr2. by split_and!.
Qed.
End BlockSplit.

(** ** The split of a block, run *)

Section RunSplit.
Context `{E : Env} (b : va_block) (new_end : Z) (Hb : block_ok b).
Context (Hin : vb_start b <= new_end < vb_end b) (Hal : (new_end + 1 - vb_start b) mod PAGE_SIZE = 0).

Lemma preallocate_gpus_spec l : forall w s,
  l ⊆ block_gpus b -> prepared_new b new_end w ->
  wp (preallocate_gpus l w) (fun '(_, w') _ => prepared_new b new_end w') s.
Proof.
  induction l as [|id l IH]; intros w s Hl Hw; cbn [preallocate_gpus]; [by apply wp_ret|].
  assert (Hid : is_Some (vb_gpus b !! id)).
  { apply elem_of_dom, elem_of_ids_in_mask, Hl. by left. }
  wstep. wstep. wstep; [by apply wp_ret|]. apply wp_bind.
  unfold block_gpu_state_get_alloc. destruct (uvm_va_block_gpu_state_get w id); [apply wp_ret, IH; [set_solver|done]|].
  repeat (wstep; try done). apply IH; [set_solver|]. destruct Hw as [Hs He Hg Hm Hf]. split; try done.
  intros g. cbn. destruct (decide (g = id)) as [->|Hne]; [done|]. rewrite lookup_insert_ne by done. apply Hg.
Qed.

Lemma split_locked_spec w s :
  prepared_new b new_end w ->
  wp (uvm_va_block_split_locked b new_end w)
    (fun '(st, (e, h)) _ => (st = NV_OK /\ block_split b new_end e h) \/ (st <> NV_OK /\ e = b)) s.
Proof using Hb Hin Hal.
  intros Hw. unfold uvm_va_block_split_locked. apply wp_bind, wp_mod, wp_bind.
  apply (wp_mono _ (fun '(_, w') _ => prepared_new b new_end w')).
  - wstep. apply wp_any. intros [st u] s1. wstep; [by apply wp_ret|].
    unfold block_split_preallocate_no_retry. apply wp_bind.
    apply (wp_mono _ (fun '(_, w') _ => prepared_new b new_end w')).
    + repeat (wstep; try done). by apply preallocate_gpus_spec.
    + intros [st' w'] s2 Hw'. wsteps; done.
  - intros [st w'] s1 Hw'. apply wp_bind, wp_mod, wp_ret. destruct (is_ok st) eqn:?; bprop; cbv beta iota; [|by right].
    pose proof (split_state_spec b new_end Hb Hin Hal w' Hw') as Hsp.
    destruct (block_split_state b w' new_end). by left.
Qed.

Lemma block_split_spec s :
  wp (uvm_va_block_split b new_end)
    (fun '(st, e, o) _ => (st = NV_OK /\ exists h, o = Some h /\ block_split b new_end e h) \/
                          (st <> NV_OK /\ e = b /\ o = None)) s.
Proof using Hb Hin Hal.
  unfold uvm_va_block_split. apply wp_bind.
  apply (wp_mono _ (fun '(st, ob) _ => (st <> NV_OK /\ ob = None) \/
                                       (st = NV_OK /\ ob = Some (fresh_block (new_end + 1) (vb_end b))))).
  { unfold uvm_va_block_create. repeat (wstep; try (by left)). by right. }
  intros [st ob] s1 [[Hst ->]|[-> ->]]; [apply wp_ret; right; by split_and!|]. apply wp_bind, wp_mod, wp_bind.
  eapply wp_mono; [apply split_locked_spec; split; try done; intros g [? Hg]; done|]. intros [st [e h]] s2 He. apply wp_bind, wp_mod.
  wstep; bprop; destruct He as [[Hst Hsp]|[Hst ->]]; try done.
  - wstep. apply wp_any. intros ? ?. by right.
  - apply wp_ret. left. eauto.
Qed.

End RunSplit.

(** C15: A block split loses dirty tracking: the new block is neither tracked nor
    dirty whatever the split block was, while each processor may write its pages
    exactly as before, so that writes to them are not reported. *)
Theorem split_drops_tracking `{E : Env} (b : va_block) (new_end : Z) s :
  block_ok b -> vb_start b <= new_end < vb_end b -> (new_end + 1 - vb_start b) mod PAGE_SIZE = 0 ->
  let '(st, _, o) := fst (uvm_va_block_split b new_end s) in
  st = NV_OK ->
  exists h, o = Some h /\ vb_tracking h = false /\ vb_dirty h = false /\
    forall g q p, 0 <= p ->
      p ∈ prot_pages h g q <-> p + (new_end + 1 - vb_start b) / PAGE_SIZE ∈ prot_pages b g q.
Proof.
  intros Hb Hin Hal. pose proof (block_split_spec b new_end Hb Hin Hal s) as H. unfold wp in H.
  destruct (fst (uvm_va_block_split b new_end s)) as [[st e] o]. intros ->.
  destruct H as [[_ (h & -> & Hsp)]|[? _]]; [|done]. destruct Hsp as [_ _ _ _ Hhigh (_ & _ & Hd & Ht)].
  exists h. split_and!; try done. intros g q p Hp. apply (pk_prot _ _ _ _ (Hhigh p Hp)).
Qed.
