(* ===== verification/RangeSpec.v ===== *)
(** What splitting and creating ranges guarantees of a VA space: the ranges stay
    ordered and their blocks in place, every address keeps its block and what
    every processor sees there, and a failed split changes nothing. *)
From stdpp Require Import sorting.
From S2P Require Import Prelude Kernel VaBlock Permissions Tracking Accessors Service FaultService FaultReport FaultSpace RangeSplit RangeSplitSpec.

(** ** Cutting a range: geometry *)

Section Cut.
Context (s m e : Z) (bl bl1 bl2 : list (option va_block)).

(** The range, and its parts below and from [m]. *)
Let r := mk_va_range s e UVM_VA_RANGE_TYPE_MANAGED bl.
Let lo := mk_va_range s (m - 1) UVM_VA_RANGE_TYPE_MANAGED bl1.
Let up := mk_va_range m e UVM_VA_RANGE_TYPE_MANAGED bl2.

Context (Hr : range_bounds r) (Hm : s < m <= e) (Hal : m mod PAGE_SIZE = 0).

Lemma cut_bounds : range_bounds lo /\ range_bounds up.
Proof using All.
  destruct Hr as [H1 H2 H3 H4]. cbn in *. split; split; cbn; try done; try lia.
  by replace (m - 1 + 1) with m by lia.
Qed.

Let q := uvm_va_range_block_index r m.
(** Whether a block spans the cut. *)
Let d := if decide (m mod UVM_VA_BLOCK_SIZE = 0) then 0 else 1.

Lemma index_eq addr : s <= addr <= e -> uvm_va_range_block_index r addr = addr / UVM_VA_BLOCK_SIZE - s / UVM_VA_BLOCK_SIZE.
Proof using All.
  intros Ha. unfold uvm_va_range_block_index. cbn. destruct Hr as [_ _ H3 H4]. cbn in *.
  unfold UVM_VA_BLOCK_SIZE. change (2 ^ 21) with 2097152. rewrite u64_small; [done|]. zlia.
Qed.

Lemma cut_counts :
  0 <= q /\ q + d = uvm_va_range_num_blocks lo /\ q + uvm_va_range_num_blocks up = uvm_va_range_num_blocks r /\
  d <= uvm_va_range_num_blocks up.
Proof using All.
  destruct cut_bounds as [Hlo Hup]. rewrite !num_blocks_eq by done. unfold q. rewrite index_eq by lia. cbn.
  destruct Hr as [H1 H2 H3 H4]. cbn in *. unfold d. case_decide as Hd; geom.
Qed.

Lemma cut_spans : block_calc_start r q = m <-> d = 0.
Proof using All.
  destruct cut_counts as (H0 & _ & Hq & Hu). destruct cut_bounds as [_ Hup].
  rewrite block_calc_start_eq; [|done|rewrite (num_blocks_eq up) in Hq by done; cbn in Hq; geom].
  unfold q. rewrite index_eq by lia. cbn. destruct Hr as [H1 H2 H3 H4]. cbn in *.
  unfold d. case_decide as Hd; split; intros; try done; geom.
Qed.

(** The slots below the cut. *)
Lemma cut_lower i :
  0 <= i < q -> block_calc_start lo i = block_calc_start r i /\ block_calc_end lo i = block_calc_end r i.
Proof using All.
  intros Hi. destruct cut_counts as (H0 & Hlo & Hq & Hu). destruct cut_bounds as [Hbl Hbu].
  assert (0 <= d <= 1) by (unfold d; case_decide; lia).
  rewrite !block_calc_start_eq, !block_calc_end_eq by (done || lia). cbn. split; [done|].
  unfold q in Hi. rewrite index_eq in Hi by lia. destruct Hr as [H1 H2 H3 H4]. cbn in *. geom.
Qed.

(** The slot of a block that spans it. *)
Lemma cut_spanning :
  d = 1 -> block_calc_start lo q = block_calc_start r q /\ block_calc_end lo q = m - 1 /\
           block_calc_start up 0 = m /\ block_calc_end up 0 = block_calc_end r q /\
           block_calc_start r q < m <= block_calc_end r q.
Proof using All.
  intros Hd. destruct cut_counts as (H0 & Hlo & Hq & Hu). destruct cut_bounds as [Hbl Hbu].
  rewrite block_calc_start_0 by done. rewrite !block_calc_start_eq, !block_calc_end_eq by (done || lia). cbn.
  unfold q. rewrite index_eq by lia. destruct Hr as [H1 H2 H3 H4]. cbn in *.
  unfold d in Hd. case_decide as Hz; [done|]. geom.
Qed.

(** The slots past it. *)
Lemma cut_upper i :
  d <= i < uvm_va_range_num_blocks up ->
  block_calc_start up i = block_calc_start r (q + i) /\ block_calc_end up i = block_calc_end r (q + i).
Proof using All.
  intros Hi. destruct cut_counts as (H0 & Hlo & Hq & Hu). destruct cut_bounds as [Hbl Hbu].
  assert (0 <= d) by (unfold d; case_decide; lia).
  rewrite !block_calc_start_eq, !block_calc_end_eq by (done || lia). cbn.
  unfold q. rewrite index_eq by lia. destruct Hr as [H1 H2 H3 H4]. cbn in *.
  unfold d in Hi. case_decide as Hz; geom.
Qed.

(** The slot of an address. *)
Lemma cut_index addr :
  s <= addr <= e ->
  (addr < m -> uvm_va_range_block_index lo addr = uvm_va_range_block_index r addr /\
               uvm_va_range_block_index r addr < q + d) /\
  (m <= addr -> uvm_va_range_block_index r addr = q + uvm_va_range_block_index up addr /\
                0 <= uvm_va_range_block_index up addr).
Proof using All.
  intros Ha. unfold q. rewrite !index_eq by lia. destruct Hr as [H1 H2 H3 H4]. cbn in *. split; intros Hlt.
  - split; [by rewrite <- index_eq by lia|]. unfold d. case_decide as Hz; geom.
  - unfold uvm_va_range_block_index. cbn. rewrite u64_small by geom. geom.
Qed.
End Cut.

(** ** Moving the blocks *)

(** The blocks of [bl] from place [q] on moved to places [k] to [n] of [bl2]. *)
Lemma move_blocks_spec n : forall q k ex nw s,
  (forall i, (k <= i < k + n)%nat -> vr_blocks nw !! i = Some None) ->
  (forall i, (k <= i < k + n)%nat -> is_Some (vr_blocks ex !! (q + i)%nat)) ->
  wp (move_blocks n q k ex nw)
    (fun '(ex', nw') _ => exists bl bl2, ex' = vr_set_blocks bl ex /\ nw' = vr_set_blocks bl2 nw /\
       length bl = length (vr_blocks ex) /\ length bl2 = length (vr_blocks nw) /\
       (forall i, (i < q + k)%nat -> bl !! i = vr_blocks ex !! i) /\
       forall i, bl2 !! i = if decide (k <= i < k + n)%nat then vr_blocks ex !! (q + i)%nat else vr_blocks nw !! i) s.
Proof.
  induction n as [|n IH]; intros q k ex nw s Hn He; cbn [move_blocks].
  { apply wp_ret. exists (vr_blocks ex), (vr_blocks nw). split_and!; try done; [by destruct ex|by destruct nw|].
    intros i. by rewrite decide_False by lia. }
  pose proof (Hn k ltac:(lia)) as Hk. destruct (He k ltac:(lia)) as [o Ho]. rewrite Ho.
  destruct o as [blk|].
  - apply wp_bind, wp_mod, wp_bind, wp_mod. eapply wp_mono; [apply IH; cbn|].
    + intros i Hi. rewrite list_lookup_insert_ne by lia. apply Hn. lia.
    + intros i Hi. rewrite list_lookup_insert_ne by lia. apply He. lia.
    + intros [ex' nw'] s'. cbn. rewrite !length_insert. intros (bl & bl2 & -> & -> & Hl1 & Hl2 & Hb1 & Hb2).
      exists bl, bl2. split_and!; try done.
      * intros i Hi. rewrite Hb1 by lia. by rewrite list_lookup_insert_ne by lia.
      * intros i. rewrite Hb2. destruct (decide (i = k)) as [->|Hne].
        -- rewrite decide_False, decide_True by lia. rewrite Ho. apply list_lookup_insert_eq. by eapply lookup_lt_Some.
        -- rewrite !list_lookup_insert_ne by lia. by do 2 case_decide; try lia.
  - eapply wp_mono; [apply IH; intros i Hi; [apply Hn|apply He]; lia|].
    intros [ex' nw'] s' (bl & bl2 & -> & -> & Hl1 & Hl2 & Hb1 & Hb2). exists bl, bl2. split_and!; try done.
    + intros i Hi. apply Hb1. lia.
    + intros i. rewrite Hb2. destruct (decide (i = k)) as [->|Hne]; [|by do 2 case_decide; try lia].
      rewrite decide_False, decide_True by lia. by rewrite Ho.
Qed.

(** The blocks of a range cut at [m]: [q] slots below the one of the cut, and
    [d] of one block spanning it. *)
Record blocks_cut (m : Z) (q d : nat) (bl bl1 bl2 : list (option va_block)) : Prop := {
  bc_lower_len : length bl1 = (q + d)%nat;
  bc_upper_len : (q + length bl2)%nat = length bl;
  bc_lower : forall i, (i < q)%nat -> bl1 !! i = bl !! i;
  bc_upper : forall i, (d <= i)%nat -> bl2 !! i = bl !! (q + i)%nat;
  bc_spanning : d = 1%nat ->
    match bl !! q with
    | Some (Some b) => exists e h, bl1 !! q = Some (Some e) /\ bl2 !! 0%nat = Some (Some h) /\ block_split b (m - 1) e h
    | _ => bl1 !! q = Some None /\ bl2 !! 0%nat = Some None
    end;
}.

Section SplitRange.
Context `{E : Env} (r : va_range) (m : Z).
Context (Hwf : range_wf r) (Hman : is_managed r = true) (Hm : vr_start r < m <= vr_end r) (Hal : m mod PAGE_SIZE = 0).
Context (Hok : forall (i : nat) b, vr_blocks r !! i = Some (Some b) -> block_ok b).

Let q := Z.to_nat (uvm_va_range_block_index r m).
Let d : nat := if decide (m mod UVM_VA_BLOCK_SIZE = 0) then 0%nat else 1%nat.
Let up n := mk_va_range m (vr_end r) UVM_VA_RANGE_TYPE_MANAGED (replicate n None).

Lemma range_eta : r = mk_va_range (vr_start r) (vr_end r) UVM_VA_RANGE_TYPE_MANAGED (vr_blocks r).
Proof using All. apply bool_decide_eq_true in Hman. destruct r. cbn in *. by rewrite Hman. Qed.

Lemma r_bounds : range_bounds (mk_va_range (vr_start r) (vr_end r) UVM_VA_RANGE_TYPE_MANAGED (vr_blocks r)).
Proof using All. rewrite <- range_eta. apply Hwf. Qed.

Lemma r_counts n :
  Z.of_nat q = uvm_va_range_block_index r m /\
  Z.of_nat (q + d) = uvm_va_range_num_blocks (mk_va_range (vr_start r) (m - 1) UVM_VA_RANGE_TYPE_MANAGED []) /\
  Z.of_nat q + uvm_va_range_num_blocks (up n) = Z.of_nat (length (vr_blocks r)) /\
  Z.of_nat d <= uvm_va_range_num_blocks (up n) /\
  (block_calc_start r (Z.of_nat q) = m <-> d = 0%nat).
Proof using All.
  pose proof (cut_counts _ _ _ (vr_blocks r) [] (replicate n None) r_bounds Hm Hal) as (H0 & H1 & H2 & H3).
  pose proof (cut_spans _ _ _ (vr_blocks r) [] (replicate n None) r_bounds Hm Hal) as Hs.
  rewrite <- range_eta in H0, H1, H2, Hs. rewrite (rw_slots _ Hwf). unfold q, d, up.
  rewrite Z2Nat.id by done. case_decide; (split; [done|]; split; [lia|]; split; [lia|]; split; [lia|]); rewrite Hs; lia.
Qed.

Lemma split_spanning_spec n s :
  Z.of_nat n = uvm_va_range_num_blocks (up n) ->
  wp (split_spanning_block q r (up n))
    (fun '(st, k, (ex, nw)) _ =>
       (st <> NV_OK /\ ex = r) \/
       (st = NV_OK /\ k = d /\ exists bl1 bl2, ex = vr_set_blocks bl1 r /\ nw = vr_set_blocks bl2 (up n) /\
          length bl1 = length (vr_blocks r) /\ length bl2 = n /\
          (forall i, i <> q \/ d = 0%nat -> bl1 !! i = vr_blocks r !! i) /\
          (forall i, (d <= i < n)%nat -> bl2 !! i = Some None) /\
          (d = 1%nat -> match vr_blocks r !! q with
                        | Some (Some b) => exists e h, bl1 !! q = Some (Some e) /\ bl2 !! 0%nat = Some (Some h) /\
                                             block_split b (m - 1) e h
                        | _ => bl1 !! q = Some None /\ bl2 !! 0%nat = Some None
                        end))) s.
Proof using All.
  intros Hn. destruct (r_counts n) as (Hq & _ & Hlen & Hd & Hsp). rewrite <- Hn in Hlen, Hd.
  assert (Hd1 : d = 0%nat \/ d = 1%nat) by (unfold d; case_decide; auto).
  assert (Hlq : (0 < n)%nat -> is_Some (vr_blocks r !! q)) by (intros; apply lookup_lt_is_Some; lia).
  assert (Hset : forall k, r = vr_set_blocks (vr_blocks r) r /\ up k = vr_set_blocks (vr_blocks (up k)) (up k)) by (by destruct r).
  assert (Hnone : forall i, (i < n)%nat -> replicate n (@None va_block) !! i = Some None) by (intros; by apply lookup_replicate_2).
  unfold split_spanning_block. change (vr_start (up n)) with m. apply wp_if; intros Hc.
  - apply Z.eqb_eq in Hc. apply Hsp in Hc. apply wp_ret. right. split; [done|]. split; [done|].
    exists (vr_blocks r), (replicate n None). split_and!; try done; [by apply Hset| |intros i Hi; apply Hnone; lia|lia].
    by rewrite length_replicate.
  - apply Z.eqb_neq in Hc. assert (Hd2 : d = 1%nat) by (destruct Hd1; [tauto|done]).
    destruct (Hlq ltac:(lia)) as [o Ho]. rewrite Ho. destruct o as [b|].
    + destruct (rw_block _ Hwf _ _ Ho) as [Hst Hen]. pose proof (Hok _ _ Ho) as Hb.
      assert (Hcut : vb_start b < m <= vb_end b).
      { pose proof (cut_spanning _ _ _ (vr_blocks r) [] (replicate n None) r_bounds Hm Hal) as Hs.
        rewrite <- range_eta in Hs. rewrite <- Hq in Hs. rewrite Hst, Hen. apply Hs. unfold d in Hd2. by case_decide. }
      apply wp_bind. eapply wp_mono; [apply (block_split_spec b (m - 1) Hb)|].
      * lia.
      * destruct (in_slot_range r q b Hwf) as [_ _]; [split; [by eapply lookup_lt_Some|done]|].
        destruct (block_calc_nonempty r (Z.of_nat q)) as (_ & _ & Hpg & _); [apply Hwf| |].
        { rewrite <- (rw_slots _ Hwf). pose proof (lookup_lt_Some _ _ _ Ho). lia. }
        rewrite <- Hst in Hpg. unfold PAGE_SIZE in *. zlia.
      * intros [[st e] ob] s' [(-> & h & -> & Hb2)|(Hst2 & -> & ->)]; apply wp_ret.
        -- right. split; [done|]. split; [done|]. cbn.
           exists (<[q := Some e]> (vr_blocks r)), (<[0%nat := Some h]> (replicate n None)). split_and!; try done.
           ++ by rewrite length_insert.
           ++ by rewrite length_insert, length_replicate.
           ++ intros i [Hi|Hi]; [by rewrite list_lookup_insert_ne|congruence].
           ++ intros i Hi. rewrite list_lookup_insert_ne by lia. apply Hnone. lia.
           ++ intros _. exists e, h. split_and!; [apply list_lookup_insert_eq; by eapply lookup_lt_Some| |done].
              apply list_lookup_insert_eq. rewrite length_replicate. lia.
        -- left. split; [done|]. unfold put_block. rewrite list_insert_id by done. symmetry. by apply Hset.
    + apply wp_ret. right. split; [done|]. split; [done|]. exists (vr_blocks r), (replicate n None).
      split_and!; try done; [by apply Hset|by rewrite length_replicate|intros i Hi; apply Hnone; lia|].
      intros _. split; [done|]. apply Hnone. lia.
Qed.

Lemma split_blocks_spec n s :
  Z.of_nat n = uvm_va_range_num_blocks (up n) ->
  wp (uvm_va_range_split_blocks r (up n))
    (fun '(st, (ex, nw)) _ =>
       (st <> NV_OK /\ ex = r) \/
       (st = NV_OK /\ exists bl1 bl2, ex = vr_set_blocks bl1 r /\ nw = vr_set_blocks bl2 (up n) /\
          blocks_cut m q d (vr_blocks r) bl1 bl2)) s.
Proof using All.
  intros Hn. destruct (r_counts n) as (Hq & _ & Hlen & Hd & _). rewrite <- Hn in Hlen, Hd.
  unfold uvm_va_range_split_blocks. fold q. apply wp_bind. eapply wp_mono; [by apply split_spanning_spec|].
  intros [[st k] [ex nw]] s1 [[Hst ->]|(-> & -> & bl1 & bl2 & -> & -> & Hl1 & Hl2 & Hb1 & Hb2 & Hd1)].
  { apply wp_if; intros Hc; bprop; [|done]. apply wp_ret. by left. }
  cbn [negb is_ok]. apply wp_bind.
  change (uvm_va_range_num_blocks (vr_set_blocks bl2 (up n))) with (uvm_va_range_num_blocks (up n)).
  rewrite <- Hn, Nat2Z.id. eapply wp_mono; [apply move_blocks_spec; cbn|].
  - intros i Hi. apply Hb2. lia.
  - intros i Hi. apply lookup_lt_is_Some. lia.
  - intros [ex nw] s2 (bl & bl3 & -> & -> & Hl & Hl3 & Hlo & Hup). cbn in Hl, Hl3, Hlo, Hup. fold q in Hlo, Hup. cbv beta iota.
    apply wp_ret. right. split; [done|]. exists (take (q + d) bl), bl3. split; [by destruct r|]. split; [done|]. split.
    + rewrite length_take. lia.
    + lia.
    + intros i Hi. rewrite lookup_take_lt by lia. rewrite Hlo by lia. apply Hb1. lia.
    + intros i Hi. rewrite Hup. case_decide; [apply Hb1|].
      * lia.
      * rewrite !lookup_ge_None_2 by lia. done.
    + intros Hd2. specialize (Hd1 Hd2). rewrite lookup_take_lt, Hlo by lia. rewrite Hup, decide_False by lia. done.
Qed.
(** *** The parts *)

Section Parts.
Context (bl1 bl2 : list (option va_block)) (Hbc : blocks_cut m q d (vr_blocks r) bl1 bl2).

Let lo := mk_va_range (vr_start r) (m - 1) UVM_VA_RANGE_TYPE_MANAGED bl1.
Let hi := mk_va_range m (vr_end r) UVM_VA_RANGE_TYPE_MANAGED bl2.

(** A block that spans the cut, and the parts it becomes. *)
Lemma spanning_split i b :
  d = 1%nat -> vr_blocks r !! i = Some (Some b) -> i = q ->
  vb_start b < m <= vb_end b /\ (m - vb_start b) mod PAGE_SIZE = 0 /\
  vb_start b = block_calc_start lo (Z.of_nat q) /\ vb_end b = block_calc_end hi 0 /\
  block_calc_end lo (Z.of_nat q) = m - 1 /\ block_calc_start hi 0 = m /\
  exists e h, bl1 !! q = Some (Some e) /\ bl2 !! 0%nat = Some (Some h) /\ block_split b (m - 1) e h.
Proof using All.
  intros Hd Hbi ->. destruct (r_counts 0) as (Hq & _).
  pose proof (cut_spanning _ _ _ (vr_blocks r) bl1 bl2 r_bounds Hm Hal) as Hs.
  rewrite <- range_eta in Hs. rewrite <- Hq in Hs. destruct Hs as (Hs1 & Hs2 & Hs3 & Hs4 & Hs5).
  { unfold d in Hd. by case_decide. }
  destruct (rw_block _ Hwf _ _ Hbi) as [Hst Hen]. pose proof (bc_spanning _ _ _ _ _ _ Hbc Hd) as Hsp. rewrite Hbi in Hsp.
  rewrite Hst, Hen. split; [done|]. split; [|by split_and!].
  destruct (block_calc_nonempty r (Z.of_nat q)) as (_ & _ & Hpg & _); [apply Hwf| |].
  { rewrite <- (rw_slots _ Hwf). pose proof (lookup_lt_Some _ _ _ Hbi). lia. }
  rewrite <- Hst in Hpg |- *. unfold PAGE_SIZE in *. zlia.
Qed.

(** A slot of the lower part. *)
Lemma lower_slot i b1 :
  bl1 !! i = Some (Some b1) ->
  ((i < q)%nat /\ vr_blocks r !! i = Some (Some b1)) \/
  (i = q /\ d = 1%nat /\ exists b h, vr_blocks r !! q = Some (Some b) /\ bl2 !! 0%nat = Some (Some h) /\ block_split b (m - 1) b1 h).
Proof using All.
  intros Hb. destruct (decide (i < q)%nat) as [Hi|Hi].
  - left. split; [done|]. by rewrite <- (bc_lower _ _ _ _ _ _ Hbc) by done.
  - right. pose proof (lookup_lt_Some _ _ _ Hb) as Hlt. rewrite (bc_lower_len _ _ _ _ _ _ Hbc) in Hlt.
    assert (Hd : d = 1%nat) by (unfold d in *; case_decide; lia). assert (i = q) as -> by lia.
    split; [done|]. split; [done|]. pose proof (bc_spanning _ _ _ _ _ _ Hbc Hd) as Hs.
    destruct (vr_blocks r !! q) as [[b|]|]; [|destruct Hs; congruence..].
    destruct Hs as (e & h & He & Hh & Hsp). assert (e = b1) as -> by congruence. by exists b, h.
Qed.

Lemma upper_slot i b2 :
  bl2 !! i = Some (Some b2) ->
  ((d <= i)%nat /\ vr_blocks r !! (q + i)%nat = Some (Some b2)) \/
  (i = 0%nat /\ d = 1%nat /\ exists b e, vr_blocks r !! q = Some (Some b) /\ bl1 !! q = Some (Some e) /\ block_split b (m - 1) e b2).
Proof using All.
  intros Hb. destruct (decide (d <= i)%nat) as [Hi|Hi].
  - left. split; [done|]. by rewrite <- (bc_upper _ _ _ _ _ _ Hbc) by done.
  - right. assert (d = 1%nat /\ i = 0%nat) as [Hd ->] by (unfold d in *; case_decide; lia).
    split; [done|]. split; [done|]. pose proof (bc_spanning _ _ _ _ _ _ Hbc Hd) as Hs.
    destruct (vr_blocks r !! q) as [[b|]|]; [|destruct Hs; congruence..].
    destruct Hs as (e & h & He & Hh & Hsp). assert (h = b2) as -> by congruence. by exists b, e.
Qed.

Lemma parts_wf : range_wf lo /\ range_wf hi.
Proof using All.
  destruct (r_counts 0) as (Hq & Hlo & Hup & Hd & _).
  destruct (cut_bounds _ _ _ (vr_blocks r) bl1 bl2 r_bounds Hm Hal) as [B1 B2].
  assert (Hqi : uvm_va_range_block_index (mk_va_range (vr_start r) (vr_end r) UVM_VA_RANGE_TYPE_MANAGED (vr_blocks r)) m = Z.of_nat q)
    by (by rewrite <- range_eta).
  split; split; try done; cbn [vr_blocks lo hi].
  - rewrite (bc_lower_len _ _ _ _ _ _ Hbc). exact Hlo.
  - intros i b1 Hb1. destruct (lower_slot i b1 Hb1) as [[Hi Hbi]|(-> & Hd1 & b & h & Hbi & Hh & Hsp)].
    + destruct (cut_lower _ _ _ (vr_blocks r) bl1 bl2 r_bounds Hm Hal (Z.of_nat i)) as [H1 H2]; [rewrite Hqi; lia|].
      rewrite <- range_eta in H1, H2. unfold lo. rewrite H1, H2. by apply Hwf.
    + destruct (spanning_split q b Hd1 Hbi eq_refl) as (_ & _ & H1 & _ & H2 & _).
      destruct (bp_start _ _ _ _ Hsp), (bp_end _ _ _ _ Hsp). split; congruence.
  - change (uvm_va_range_num_blocks hi) with (uvm_va_range_num_blocks (up 0)).
    pose proof (bc_upper_len _ _ _ _ _ _ Hbc). lia.
  - intros i b2 Hb2. destruct (upper_slot i b2 Hb2) as [[Hi Hbi]|(-> & Hd1 & b & e & Hbi & He & Hsp)].
    + destruct (cut_upper _ _ _ (vr_blocks r) bl1 bl2 r_bounds Hm Hal (Z.of_nat i)) as [H1 H2].
      { pose proof (lookup_lt_Some _ _ _ Hb2). pose proof (bc_upper_len _ _ _ _ _ _ Hbc).
        change (uvm_va_range_num_blocks _) with (uvm_va_range_num_blocks (up 0)). unfold d in *. case_decide; lia. }
      rewrite Hqi, <- Nat2Z.inj_add in H1, H2. rewrite <- range_eta in H1, H2. unfold hi. rewrite H1, H2. by apply Hwf.
    + destruct (spanning_split q b Hd1 Hbi eq_refl) as (_ & _ & _ & H1 & _ & H2 & _).
      destruct (bp_start _ _ _ _ Hsp), (bp_end _ _ _ _ Hsp). change (Z.of_nat 0) with 0. split; [|congruence].
      rewrite H2. lia.
Qed.

Lemma parts_ok (i : nat) b' : bl1 !! i = Some (Some b') \/ bl2 !! i = Some (Some b') -> block_ok b'.
Proof using All.
  intros [Hb'|Hb'].
  - destruct (lower_slot i b' Hb') as [[_ Hbi]|(_ & _ & b & h & _ & _ & Hsp)]; [by eapply Hok|apply (bp_ok _ _ _ _ Hsp)].
  - destruct (upper_slot i b' Hb') as [[_ Hbi]|(_ & _ & b & e & _ & _ & Hsp)]; [by eapply Hok|apply (bp_ok _ _ _ _ Hsp)].
Qed.

(** The slot of an address, and what its page holds. *)
Definition slot_at (x : va_range) (addr : Z) : option va_block :=
  mjoin (vr_blocks x !! Z.to_nat (uvm_va_range_block_index x addr)).

Definition slot_kept (addr : Z) (o o' : option va_block) : Prop :=
  match o with
  | Some b => exists b', o' = Some b' /\ page_kept b (uvm_va_block_cpu_page_index b addr) b' (uvm_va_block_cpu_page_index b' addr)
  | None => o' = None
  end.

Lemma slot_kept_refl addr o : slot_kept addr o o.
Proof. destruct o as [b|]; [|done]. exists b. split; [done|apply page_kept_refl]. Qed.

Lemma parts_kept addr :
  vr_start r <= addr <= vr_end r -> slot_kept addr (slot_at r addr) (slot_at (if decide (addr < m) then lo else hi) addr).
Proof using All.
  intros Ha. destruct (cut_index _ _ _ (vr_blocks r) bl1 bl2 r_bounds Hm Hal addr Ha) as [H1 H2].
  rewrite <- range_eta in H1, H2. destruct (r_counts 0) as (Hq & _). rewrite <- Hq in H1, H2.
  assert (H0 : 0 <= uvm_va_range_block_index r addr) by (destruct (address_slot r addr); [apply Hwf|done|lia]).
  unfold slot_at.
  assert (Hdz : Z.of_nat d = if decide (m mod UVM_VA_BLOCK_SIZE = 0) then 0 else 1) by (unfold d; by case_decide).
  rewrite <- Hdz in H1. clear Hdz.
  destruct (decide (addr < m)) as [Hlt|Hlt].
  - destruct (H1 Hlt) as [H3 H4]. clear H1 H2. fold lo in H3. rewrite H3. cbn [lo vr_blocks].
    remember (Z.to_nat (uvm_va_range_block_index r addr)) as i eqn:Hi0. destruct (decide (i < q)%nat) as [Hi|Hi].
    { rewrite (bc_lower _ _ _ _ _ _ Hbc) by done. apply slot_kept_refl. }
    assert (d = 1%nat /\ i = q) as [Hd Hiq] by (unfold d in *; case_decide; lia).
    rewrite Hiq. destruct (vr_blocks r !! q) as [[b|]|] eqn:Hbq;
      [|pose proof (bc_spanning _ _ _ _ _ _ Hbc Hd) as Hs; rewrite Hbq in Hs; destruct Hs as [-> _]; exact (slot_kept_refl addr None)..].
    destruct (spanning_split q b Hd Hbq eq_refl) as (Hin & Hpg & _ & _ & _ & _ & e & h & He & Hh & Hsp).
    rewrite He. exists e. split; [done|]. unfold uvm_va_block_cpu_page_index. rewrite (proj1 (bp_start _ _ _ _ Hsp)).
    apply (bp_low _ _ _ _ Hsp). replace (m - 1 + 1 - vb_start b) with (m - vb_start b) by lia.
    unfold PAGE_SIZE in *. zlia.
  - destruct (H2 ltac:(lia)) as [H3 H4]. clear H1 H2. fold hi in H3, H4. rewrite H3. cbn [hi vr_blocks].
    rewrite Z2Nat.inj_add, Nat2Z.id by lia. remember (Z.to_nat (uvm_va_range_block_index hi addr)) as i eqn:Hi0. destruct (decide (d <= i)%nat) as [Hi|Hi].
    { rewrite (bc_upper _ _ _ _ _ _ Hbc) by done. apply slot_kept_refl. }
    assert (d = 1%nat /\ i = 0%nat) as [Hd Hz] by (unfold d in *; case_decide; lia). rewrite Hz, Nat.add_0_r.
    destruct (vr_blocks r !! q) as [[b|]|] eqn:Hbq;
      [|pose proof (bc_spanning _ _ _ _ _ _ Hbc Hd) as Hs; rewrite Hbq in Hs; destruct Hs as [_ ->]; exact (slot_kept_refl addr None)..].
    destruct (spanning_split q b Hd Hbq eq_refl) as (Hin & Hpg & _ & _ & _ & _ & e & h & He & Hh & Hsp).
    rewrite Hh. exists h. split; [done|]. unfold uvm_va_block_cpu_page_index. rewrite (proj2 (bp_start _ _ _ _ Hsp)).
    replace ((addr - vb_start b) / PAGE_SIZE) with ((addr - (m - 1 + 1)) / PAGE_SIZE + (m - 1 + 1 - vb_start b) / PAGE_SIZE)
      by (unfold PAGE_SIZE in *; zlia).
    apply (bp_high _ _ _ _ Hsp). unfold PAGE_SIZE in *. zlia.
Qed.
End Parts.
End SplitRange.

(** ** Spaces *)

(** A space whose ranges are non-empty and whose blocks are well-formed. *)
Record space_ok (v : va_space) : Prop := {
  so_wf     : va_space_wf v;
  so_bounds : forall r, r ∈ vs_ranges v -> vr_start r <= vr_end r;
  so_block  : forall r (i : nat) b, r ∈ vs_ranges v -> is_managed r = true -> vr_blocks r !! i = Some (Some b) -> block_ok b;
}.

(** A lookup of an address gives the same answer, on a block that shows every
    processor the same page there. *)
Definition address_kept (v v' : va_space) (addr : Z) : Prop :=
  fst (uvm_va_block_find v' addr) = fst (uvm_va_block_find v addr) /\
  slot_kept addr (snd (uvm_va_block_find v addr)) (snd (uvm_va_block_find v' addr)).

Lemma address_kept_refl v addr : address_kept v v addr.
Proof. split; [done|apply slot_kept_refl]. Qed.

Lemma find_slot v r addr :
  uvm_va_range_find v addr = Some r -> is_managed r = true ->
  uvm_va_block_find v addr = match slot_at r addr with Some b => (NV_OK, Some b) | None => (NV_ERR_OBJECT_NOT_FOUND, None) end.
Proof.
  intros Hf Hm. unfold uvm_va_block_find, slot_at. rewrite Hf, Hm. cbn [negb].
  by destruct (vr_blocks r !! _) as [[b|]|].
Qed.

(** What another range at the address changes. *)
Lemma address_kept_slots v v' r r' addr :
  uvm_va_range_find v addr = Some r -> is_managed r = true ->
  uvm_va_range_find v' addr = Some r' -> is_managed r' = true ->
  slot_kept addr (slot_at r addr) (slot_at r' addr) -> address_kept v v' addr.
Proof.
  intros H1 H2 H3 H4 Hk. unfold address_kept. rewrite (find_slot v r), (find_slot v' r') by done.
  destruct (slot_at r addr) as [b|]; cbn in Hk; [destruct Hk as (b' & -> & Hk)|by rewrite Hk]. split; [done|]. by exists b'.
Qed.

Lemma address_kept_same v v' addr : uvm_va_range_find v' addr = uvm_va_range_find v addr -> address_kept v v' addr.
Proof. intros Hf. unfold address_kept, uvm_va_block_find. rewrite Hf. split; [done|apply slot_kept_refl]. Qed.

Section SplitSpace.
Context (v : va_space) (j : nat) (r lo hi : va_range) (m : Z).
Context (Hv : space_ok v) (Hj : vs_ranges v !! j = Some r) (Hman : is_managed r = true).
Context (Hm : vr_start r < m <= vr_end r).
Context (Hlo : vr_start lo = vr_start r /\ vr_end lo = m - 1 /\ is_managed lo = true /\ range_wf lo).
Context (Hhi : vr_start hi = m /\ vr_end hi = vr_end r /\ is_managed hi = true /\ range_wf hi).
Context (Hok : forall (i : nat) b, vr_blocks lo !! i = Some (Some b) \/ vr_blocks hi !! i = Some (Some b) -> block_ok b).
Context (Hkept : forall addr, vr_start r <= addr <= vr_end r ->
  slot_kept addr (slot_at r addr) (slot_at (if decide (addr < m) then lo else hi) addr)).

Let v' := vs_set_ranges (take j (vs_ranges v) ++ lo :: hi :: drop (S j) (vs_ranges v)) v.

Lemma elem_of_cut x : x ∈ vs_ranges v' -> x = lo \/ x = hi \/ x ∈ vs_ranges v.
Proof.
  unfold v'. cbn. rewrite elem_of_app, !elem_of_cons. intros [Hx|[->|[->|Hx]]]; auto; right; right.
  - by apply (subseteq_take j).
  - by apply (subseteq_drop (S j)).
Qed.

Lemma cut_sorted : StronglySorted (fun x y => vr_end x < vr_start y) (vs_ranges v').
Proof using All.
  pose proof (vw_sorted _ (so_wf _ Hv)) as Hs. rewrite <- (take_drop_middle _ _ _ Hj) in Hs.
  apply StronglySorted_app in Hs as (H1 & H2 & [H3 H4]%StronglySorted_cons).
  rewrite Forall_forall in H3. destruct Hlo as (L1 & L2 & _), Hhi as (U1 & U2 & _).
  unfold v'. cbn. apply StronglySorted_app. split; [|split; [done|]].
  - intros x y Hx [->|[->|Hy]%elem_of_cons]%elem_of_cons; [| |apply H1; [done|by right]];
      pose proof (H1 x r Hx ltac:(left)); lia.
  - apply StronglySorted_cons. split; [|apply StronglySorted_cons; split; [|done]]; apply Forall_forall.
    + intros y [->|Hy]%elem_of_cons; [lia|]. pose proof (H3 y Hy). lia.
    + intros y Hy. pose proof (H3 y Hy). lia.
Qed.

Lemma cut_ok : space_ok v'.
Proof using All.
  destruct Hv as [[_ Hw] Hbd Hbk]. destruct Hlo as (L1 & L2 & Lm & Lw), Hhi as (U1 & U2 & Um & Uw).
  split; [split; [apply cut_sorted|]| |].
  - intros x [->|[->|Hx]]%elem_of_cut Hxm; auto.
  - intros x [->|[->|Hx]]%elem_of_cut; [lia..|auto].
  - intros x i b [->|[->|Hx]]%elem_of_cut Hxm Hxb; eauto.
Qed.

Lemma cut_kept addr : address_kept v v' addr.
Proof using All.
  pose proof Hlo as (L1 & L2 & Lm & Lw). pose proof Hhi as (U1 & U2 & Um & Uw).
  pose proof (lookup_lt_Some _ _ _ Hj) as Hlen.
  destruct (range_holds addr r) eqn:Ha.
  - pose proof Ha as [H1 H2]%andb_prop. btest.
    apply (address_kept_slots v v' r (if decide (addr < m) then lo else hi)); [|done| | |by apply Hkept; lia].
    + by apply (range_find_managed v (so_wf _ Hv) j).
    + destruct (decide (addr < m)).
      * apply (range_find_managed v' (so_wf _ cut_ok) j); [|done|apply andb_true_iff; split; apply Z.leb_le; lia].
        unfold v'. cbn. rewrite lookup_app_r; rewrite length_take; [|lia]. by replace (j - _)%nat with 0%nat by lia.
      * apply (range_find_managed v' (so_wf _ cut_ok) (S j)); [|done|apply andb_true_iff; split; apply Z.leb_le; lia].
        unfold v'. cbn. rewrite lookup_app_r; rewrite length_take; [|lia]. by replace (S j - _)%nat with 1%nat by lia.
    + by destruct (decide (addr < m)).
  - apply address_kept_same. unfold uvm_va_range_find, v'. cbn [vs_ranges vs_set_ranges].
    transitivity (head (filter (fun x => range_holds addr x = true) (take j (vs_ranges v) ++ r :: drop (S j) (vs_ranges v))));
      [|by rewrite take_drop_middle]. rewrite !filter_app. f_equal. f_equal.
    assert (range_holds addr lo = false /\ range_holds addr hi = false) as [Hn1 Hn2].
    { unfold range_holds in *. rewrite L1, L2, U1, U2. apply andb_false_iff in Ha.
      split; apply andb_false_iff; destruct Ha as [Ha|Ha]; btest; (left; apply Z.leb_gt; lia) || (right; apply Z.leb_gt; lia). }
    rewrite !filter_cons_False by congruence. done.
Qed.
End SplitSpace.

Lemma alloc_managed_spec `{E : Env} start end_ s :
  wp (uvm_va_range_alloc_managed start end_) (fun o _ => o = None \/ exists n,
    let r := mk_va_range start end_ UVM_VA_RANGE_TYPE_MANAGED (replicate n None) in
    Z.of_nat n = uvm_va_range_num_blocks r /\ o = Some r) s.
Proof.
  unfold uvm_va_range_alloc_managed. wstep. wstep. wstep; [by left|]. apply wp_bind, wp_any. intros blocks s1.
  wstep; [wstep; apply wp_any; intros; apply wp_ret; by left|]. apply wp_ret. right. eexists. split; [|done].
  rewrite Z2Nat.id; [done|]. unfold uvm_va_range_num_blocks. apply Z.div_pos; [apply u64_range|done].
Qed.

Lemma range_split_spec `{E : Env} `{T : RangeTree} (v : va_space) (j : nat) (r : va_range) (new_end : Z) s :
  space_ok v -> vs_ranges v !! j = Some r -> is_managed r = true ->
  vr_start r <= new_end < vr_end r -> (new_end + 1) mod PAGE_SIZE = 0 ->
  wp (uvm_va_range_split v j r new_end)
    (fun '(st, v') _ => space_ok v' /\ (forall addr, address_kept v v' addr) /\ (st <> NV_OK -> v' = v) /\
      (st = NV_OK -> exists lo hi,
         vs_ranges v' = take j (vs_ranges v) ++ lo :: hi :: drop (S j) (vs_ranges v) /\
         vr_start lo = vr_start r /\ vr_end lo = new_end /\ vr_start hi = new_end + 1 /\ vr_end hi = vr_end r)) s.
Proof.
  intros Hv Hj Hman Hm Hal. pose proof (list_elem_of_lookup_2 _ _ _ Hj) as Hin.
  pose proof (vw_ranges _ (so_wf _ Hv) r Hin Hman) as Hwf.
  assert (Hok : forall (i : nat) b, vr_blocks r !! i = Some (Some b) -> block_ok b) by (intros; by eapply (so_block _ Hv)).
  assert (Hsame : space_ok v /\ (forall addr, address_kept v v addr)) by (split; [done|intros; apply address_kept_refl]).
  unfold uvm_va_range_split. apply wp_bind.
  eapply wp_mono; [apply alloc_managed_spec|].
  intros o s1 [->|(n & Hn & ->)]; [apply wp_ret; by destruct Hsame|]. apply wp_bind.
  eapply wp_mono; [apply (split_blocks_spec r (new_end + 1) Hwf Hman ltac:(lia) Hal Hok n _ Hn)|].
  intros [st [ex nw]] s2 [[Hst ->]|(-> & bl1 & bl2 & -> & -> & Hbc)].
  - apply wp_if; intros Hc; bprop; [|done]. wstep. apply wp_any. intros _ s3. apply wp_ret.
    unfold put_range. rewrite list_insert_id by done. replace (vs_set_ranges (vs_ranges v) v) with v by (by destruct v).
    by destruct Hsame.
  - cbn [negb is_ok]. apply wp_ret.
    assert (Hty : vr_type r = UVM_VA_RANGE_TYPE_MANAGED) by (by apply bool_decide_eq_true in Hman).
    rewrite (range_tree_split_at j (vr_set_blocks bl1 r)); [|by apply list_lookup_insert_eq; eapply lookup_lt_Some].
    cbn [vr_start vr_end vr_type vr_blocks vr_set_blocks vs_ranges vs_set_ranges put_range]. rewrite Hty.
    rewrite take_insert_ge, drop_insert_lt by lia.
    destruct (parts_wf r (new_end + 1) Hwf Hman ltac:(lia) Hal Hok bl1 bl2 Hbc) as [W1 W2].
    set (lo := mk_va_range (vr_start r) (new_end + 1 - 1) UVM_VA_RANGE_TYPE_MANAGED bl1) in *.
    set (hi := mk_va_range (new_end + 1) (vr_end r) UVM_VA_RANGE_TYPE_MANAGED bl2) in *.
    assert (L : vr_start lo = vr_start r /\ vr_end lo = new_end + 1 - 1 /\ is_managed lo = true /\ range_wf lo) by (split_and!; done || exact W1).
    assert (U : vr_start hi = new_end + 1 /\ vr_end hi = vr_end r /\ is_managed hi = true /\ range_wf hi) by (split_and!; done || exact W2).
    pose proof (parts_ok r (new_end + 1) Hwf Hman ltac:(lia) Hal Hok bl1 bl2 Hbc) as Hbk.
    pose proof (parts_kept r (new_end + 1) Hwf Hman ltac:(lia) Hal Hok bl1 bl2 Hbc) as Hpk.
    split; [exact (cut_ok v j r lo hi (new_end + 1) Hv Hj Hman ltac:(lia) L U Hbk Hpk)|]. split; [exact (cut_kept v j r lo hi (new_end + 1) Hv Hj Hman ltac:(lia) L U Hbk Hpk)|].
    split; [done|]. intros _. exists lo, hi. cbn. split_and!; try done. lia.
Qed.

(** C14: Splitting a range at a page of it, whichever allocation or push fails:
    the space stays well-formed, and a lookup at every address gives the same
    answer on a block that shows every processor the same page with the same
    permissions; a failure changes nothing, and success leaves two ranges that
    meet at the split. *)
Theorem uvm_va_range_split_correct `{E : Env} `{T : RangeTree} (v : va_space) (j : nat) (r : va_range) (new_end : Z) s :
  space_ok v -> vs_ranges v !! j = Some r -> is_managed r = true ->
  vr_start r <= new_end < vr_end r -> (new_end + 1) mod PAGE_SIZE = 0 ->
  let '(st, v') := fst (uvm_va_range_split v j r new_end s) in
  space_ok v' /\ (forall addr, address_kept v v' addr) /\
  (st <> NV_OK -> v' = v) /\
  (st = NV_OK -> exists lo hi,
     vs_ranges v' = take j (vs_ranges v) ++ lo :: hi :: drop (S j) (vs_ranges v) /\
     vr_start lo = vr_start r /\ vr_end lo = new_end /\ vr_start hi = new_end + 1 /\ vr_end hi = vr_end r).
Proof.
  intros Hv Hj Hman Hm Hal. pose proof (range_split_spec v j r new_end s Hv Hj Hman Hm Hal) as H. unfold wp in H.
  by destruct (fst (uvm_va_range_split v j r new_end s)).
Qed.

(** ** Adding and removing ranges *)

(** Two ranges of a space that hold an address are the same. *)
Lemma range_unique v x y addr :
  space_ok v -> x ∈ vs_ranges v -> y ∈ vs_ranges v ->
  vr_start x <= addr <= vr_end x -> vr_start y <= addr <= vr_end y -> x = y.
Proof.
  intros Hv [i Hi]%list_elem_of_lookup_1 [k Hk]%list_elem_of_lookup_1 Hx Hy.
  pose proof (range_before v (so_wf _ Hv)) as Hb. destruct (decide (i = k)) as [->|Hne]; [congruence|].
  destruct (decide (i < k)%nat) as [Hlt|Hlt]; [pose proof (Hb i k x y Hlt Hi Hk)|pose proof (Hb k i y x ltac:(lia) Hk Hi)]; lia.
Qed.

Lemma filter_ranges_ok (P : va_range -> Prop) `{!forall x, Decision (P x)} v :
  space_ok v -> space_ok (vs_set_ranges (filter P (vs_ranges v)) v).
Proof.
  intros [[Hs Hw] Hb Hk]. split; [split|..]; cbn.
  - by apply sorted_filter.
  - intros r [_ Hr]%list_elem_of_filter. by apply Hw.
  - intros r [_ Hr]%list_elem_of_filter. by apply Hb.
  - intros r i b [_ Hr]%list_elem_of_filter. by apply Hk.
Qed.

(** Ranges none of which meets [start, end] are before or after it. *)
Lemma before_after (l : list va_range) start end_ :
  start <= end_ -> StronglySorted (fun x y => vr_end x < vr_start y) l -> (forall x, x ∈ l -> vr_start x <= vr_end x) ->
  (forall x, x ∈ l -> vr_end x < start \/ end_ < vr_start x) ->
  filter (fun x => vr_end x < start) l ++ filter (fun x => end_ < vr_start x) l = l.
Proof.
  intros Hse. induction l as [|x l IH]; intros Hs Hb Hout; [done|]. apply StronglySorted_cons in Hs as [Hx Hs].
  rewrite Forall_forall in Hx. pose proof (Hb x ltac:(left)). destruct (Hout x ltac:(left)) as [Hlt|Hlt].
  - rewrite filter_cons_True, filter_cons_False by lia. cbn. f_equal. apply IH; [done|set_solver..].
  - assert (Hall : forall y, y ∈ x :: l -> end_ < vr_start y /\ vr_start y <= vr_end y).
    { intros y Hy. split; [|by apply Hb]. apply elem_of_cons in Hy as [->|Hy]; [done|]. pose proof (Hx y Hy). lia. }
    replace (filter (fun x => vr_end x < start) (x :: l)) with (@nil va_range).
    + cbn [app]. apply list_filter_id. intros y Hy. by apply Hall.
    + symmetry. apply elem_of_nil_inv. intros y [Hy1 Hy2]%list_elem_of_filter. pose proof (Hall y Hy2). lia.
Qed.

Section Add.
Context (v : va_space) (r : va_range) (Hv : space_ok v) (Hr : range_wf r).
Context (Hok : forall (i : nat) b, vr_blocks r !! i = Some (Some b) -> block_ok b).

Let before := filter (fun x => vr_end x < vr_start r) (vs_ranges v).
Let after := filter (fun x => vr_end r < vr_start x) (vs_ranges v).
Let v' := vs_set_ranges (before ++ r :: after) v.

Context (Hout : forall x, x ∈ vs_ranges v -> vr_end x < vr_start r \/ vr_end r < vr_start x).

Lemma add_ok : space_ok v'.
Proof using All.
  destruct Hv as [[Hs Hw] Hb Hk]. pose proof (rb_le _ (rw_bounds _ Hr)) as Hle.
  assert (Hel : forall x, x ∈ vs_ranges v' -> x = r \/ x ∈ vs_ranges v).
  { unfold v', before, after. cbn. intros x. rewrite elem_of_app, elem_of_cons, !list_elem_of_filter. tauto. }
  split; [split|..].
  - unfold v'. cbn. apply StronglySorted_app. split.
    + intros x y [Hx _]%list_elem_of_filter [->|[Hy Hy2]%list_elem_of_filter]%elem_of_cons; [done|]. lia.
    + split; [by apply sorted_filter|]. apply StronglySorted_cons. split; [|by apply sorted_filter].
      apply Forall_forall. by intros y [Hy _]%list_elem_of_filter.
  - intros x [->|Hx]%Hel; [done|by apply Hw].
  - intros x [->|Hx]%Hel; [lia|by apply Hb].
  - intros x i b [->|Hx]%Hel Hxm Hxb; eauto.
Qed.

(** Lookups find the new range, or what they found before. *)
Lemma add_find addr :
  uvm_va_range_find v' addr = if range_holds addr r then Some r else uvm_va_range_find v addr.
Proof using All.
  destruct Hv as [[Hs Hw] Hb Hk]. pose proof (rb_le _ (rw_bounds _ Hr)) as Hle.
  unfold uvm_va_range_find, v'. cbn [vs_ranges vs_set_ranges]. rewrite filter_app.
  destruct (range_holds addr r) eqn:Ha.
  - rewrite filter_cons_True by done. replace (filter _ before) with (@nil va_range); [done|].
    symmetry. apply elem_of_nil_inv. intros x [Hx1 [Hx2 _]%list_elem_of_filter]%list_elem_of_filter.
    apply andb_prop in Ha as [? ?], Hx1 as [? ?]. btest.
  - rewrite filter_cons_False by congruence. rewrite <- filter_app. unfold before, after.
    by rewrite before_after by (done || lia).
Qed.
End Add.

(** A mapping of the tool: a range with no blocks is added when its addresses are
    free, and nothing changes otherwise. *)
Theorem uvm_va_range_create_mmap_correct `{E : Env} `{T : RangeTree} (v : va_space) (vm_start vm_end : Z) s :
  space_ok v -> vm_start mod PAGE_SIZE = 0 -> vm_end mod PAGE_SIZE = 0 -> 0 <= vm_start < vm_end -> vm_end <= 2 ^ 63 ->
  let '(st, v') := fst (uvm_va_range_create_mmap v vm_start vm_end s) in
  space_ok v' /\ (st <> NV_OK -> v' = v) /\
  (st = NV_OK ->
     (forall x, x ∈ vs_ranges v -> vr_end x < vm_start \/ vm_end <= vr_start x) /\
     (forall addr, vm_start <= addr < vm_end -> uvm_va_block_find v' addr = (NV_ERR_OBJECT_NOT_FOUND, None)) /\
     (forall addr, ~ (vm_start <= addr < vm_end) -> uvm_va_range_find v' addr = uvm_va_range_find v addr)).
Proof.
  intros Hv Hs He Hse Htop.
  enough (H : wp (uvm_va_range_create_mmap v vm_start vm_end) (fun '(st, v') _ =>
    space_ok v' /\ (st <> NV_OK -> v' = v) /\ (st = NV_OK ->
     (forall x, x ∈ vs_ranges v -> vr_end x < vm_start \/ vm_end <= vr_start x) /\
     (forall addr, vm_start <= addr < vm_end -> uvm_va_block_find v' addr = (NV_ERR_OBJECT_NOT_FOUND, None)) /\
     (forall addr, ~ (vm_start <= addr < vm_end) -> uvm_va_range_find v' addr = uvm_va_range_find v addr))) s).
  { unfold wp in H. by destruct (fst (uvm_va_range_create_mmap v vm_start vm_end s)). }
  unfold uvm_va_range_create_mmap. wstep. wstep. wstep; [apply wp_ret; bprop; by split_and!|]. apply wp_bind.
  eapply wp_mono; [apply alloc_managed_spec|].
  intros o s1 [->|(n & Hn & ->)]; [apply wp_ret; by split_and!|].
  set (r := mk_va_range vm_start (vm_end - 1) UVM_VA_RANGE_TYPE_MANAGED (replicate n None)) in *.
  assert (Hnone : forall (i : nat) b, vr_blocks r !! i <> Some (Some b)).
  { intros i b Hi. cbn in Hi. apply lookup_replicate in Hi as [? _]. done. }
  assert (Hr : range_wf r).
  { split; [|cbn [r vr_blocks]; by rewrite length_replicate|by intros i b ?%Hnone].
    split; cbn; try done; try lia. by replace (vm_end - 1 + 1) with vm_end by lia. }
  destruct (decide (Forall (disjoint_from r) (vs_ranges v))) as [Hout|Hin].
  - rewrite Forall_forall in Hout. rewrite range_tree_add_free by done. cbn [negb is_ok]. apply wp_ret.
    split; [apply add_ok; try done; by intros i b ?%Hnone|]. split; [done|]. intros _. split_and!.
    + intros x Hx. destruct (Hout x Hx) as [?|Ho]; [by left|right; cbn in Ho; lia].
    + intros addr Ha. assert (Hh : range_holds addr r = true) by (apply andb_true_iff; split; apply Z.leb_le; cbn; lia).
      rewrite (find_slot _ r); [|rewrite add_find by (done || by intros i b ?%Hnone); by rewrite Hh|done].
      unfold slot_at. destruct (vr_blocks r !! _) as [[b|]|] eqn:Hb; [by apply Hnone in Hb|done..].
    + intros addr Ha. rewrite add_find by (done || by intros i b ?%Hnone).
      destruct (range_holds addr r) eqn:Hh; [|done]. apply andb_prop in Hh as [H1 H2]. btest. cbn in H1, H2. lia.
  - apply not_Forall_Exists, Exists_exists in Hin as (x & Hx & Hd); [|apply _].
    destruct (range_tree_add_taken r _ x Hx Hd) as (st & Hst & ->). rewrite (proj2 (is_ok_false st) Hst). cbn [negb].
    wstep. apply wp_any. intros _ s2. apply wp_ret. by split_and!.
Qed.

(** ** The calls of the kernel *)

Lemma iter_first_at v addr j r :
  uvm_va_space_iter_first v addr addr = Some (j, r) -> vs_ranges v !! j = Some r /\ vr_start r <= addr <= vr_end r.
Proof. intros (Hj & [H1 H2]%andb_prop & _)%list_find_Some. btest. done. Qed.

Lemma iter_first_none v addr x :
  uvm_va_space_iter_first v addr addr = None -> x ∈ vs_ranges v -> ~ vr_start x <= addr <= vr_end x.
Proof.
  intros Hn Hx Ha. apply list_find_None in Hn. rewrite Forall_forall in Hn. apply (Hn x Hx).
  apply andb_true_iff. split; apply Z.leb_le; lia.
Qed.

Section Locks.
Context `{E : Env}.

#[local] Hint Resolve lock_ext_status : locks.

Lemma presplit_lock ls l : LockSpec ls (presplit_gpus l) ls.
Proof. induction l; cbn [presplit_gpus]; locks. Qed.
#[local] Hint Resolve presplit_lock : locks.

Lemma preallocate_lock ls l : forall w, LockSpec ls (preallocate_gpus l w) ls.
Proof. induction l as [|i l IH]; intros w; cbn [preallocate_gpus]; [locks|]. unfold block_gpu_state_get_alloc. locks; apply IH. Qed.
#[local] Hint Resolve preallocate_lock : locks.

Lemma release_states_lock ls l : LockSpec ls (release_states l) ls.
Proof. induction l; cbn [release_states]; locks. Qed.
#[local] Hint Resolve release_states_lock : locks.

(** Sequencing past a call whose result has property [P]. *)
Lemma lock_bind_wp {A B} (P : A -> Prop) ls ls1 ls2 (m : K A) (f : A -> K B) :
  LockSpec ls m ls1 -> (forall s, wp m (fun a _ => P a) s) -> (forall a, P a -> LockSpec ls1 (f a) ls2) ->
  LockSpec ls (kbind m f) ls2.
Proof.
  intros Hm Hp Hf s Hl Hb. unfold kbind. destruct (Hm s Hl Hb) as [H1 H2]. specialize (Hp s). unfold wp in Hp.
  destruct (m s) as [a s']; cbn in *. by apply Hf.
Qed.

Lemma split_locked_lock ls b ne w :
  LBlock (vb_start w) ∉ ls -> LockSpec ls (uvm_va_block_split_locked b ne w) ls.
Proof. intros Hls. unfold uvm_va_block_split_locked, block_split_presplit_ptes, block_split_preallocate_no_retry. locks. Qed.

Lemma block_split_lock ls b ne :
  LBlock (vb_start b) ∉ ls -> LBlock (ne + 1) ∉ ls -> ne + 1 <> vb_start b ->
  LockSpec ls (uvm_va_block_split b ne) ls.
Proof.
  intros H1 H2 H3. unfold uvm_va_block_split.
  eapply (lock_bind_wp (fun '(_, ob) => forall w, ob = Some w -> vb_start w = ne + 1)).
  - unfold uvm_va_block_create. locks.
  - intros s. unfold uvm_va_block_create. repeat (wstep; try done). by intros w [= <-].
  - intros [st [w|]] Hw; [|locks]. specialize (Hw w eq_refl). eapply lock_bind; [by apply lock_acq|]. intros _.
    eapply lock_bind; [apply split_locked_lock; rewrite Hw, not_elem_of_cons; split; [congruence|done]|].
    unfold release_new_block, uvm_va_block_release_new. locks.
Qed.

Lemma move_blocks_lock vid n : forall q k ex nw, LockSpec [LSpaceWrite vid] (move_blocks n q k ex nw) [LSpaceWrite vid].
Proof. induction n as [|n IH]; intros q k ex nw; cbn [move_blocks]; [locks|]. locks; apply IH. Qed.

Lemma range_split_lock `{T : RangeTree} v j r ne :
  range_wf r -> is_managed r = true -> vr_start r <= ne < vr_end r -> (ne + 1) mod PAGE_SIZE = 0 ->
  LockSpec [LSpaceWrite (vs_id v)] (uvm_va_range_split v j r ne) [LSpaceWrite (vs_id v)].
Proof.
  intros Hwf Hman Hm Hal. unfold uvm_va_range_split, uvm_va_range_alloc_managed, uvm_va_range_split_blocks.
  eapply (lock_bind_wp (fun o => forall nw, o = Some nw -> vr_start nw = ne + 1)).
  - locks.
  - intros s. eapply wp_mono; [apply alloc_managed_spec|]. intros o s' [->|(n & _ & ->)] nw Hnw; by simplify_eq.
  - intros [nw|] Hnw; [|locks]. specialize (Hnw nw eq_refl). eapply lock_bind; [|unfold destroy_new_range; locks].
    eapply lock_bind.
    + unfold split_spanning_block. destruct (Z.eqb_spec (block_calc_start r (Z.of_nat (Z.to_nat (uvm_va_range_block_index r (vr_start nw))))) (vr_start nw)) as [|Hne]; [locks|].
      destruct (vr_blocks r !! _) as [[b|]|] eqn:Hb; [|locks..]. destruct (rw_block _ Hwf _ _ Hb) as [Hst _].
      eapply lock_bind; [apply block_split_lock|locks].
      * set_solver.
      * set_solver.
      * replace (vr_start nw - 1 + 1) with (vr_start nw) by lia. congruence.
    + intros [[st k] [ex nw']]. apply lock_if; [locks|]. eapply lock_bind; [apply move_blocks_lock|]. locks.
Qed.
End Locks.

(** Where nothing fails, neither does a split. *)
Section Healthy.
Context `{E : Env} {H : HealthyEnv E}.

Lemma presplit_succeeds gpus s : wp (presplit_gpus gpus) (fun st _ => st = NV_OK) s.
Proof.
  revert s; induction gpus as [|g gpus IH]; intros s; cbn [presplit_gpus]; [by apply wp_ret|].
  hstep. hstep. rewrite is_ok_NV_OK. apply IH.
Qed.

Lemma preallocate_succeeds gpus : forall new s, wp (preallocate_gpus gpus new) (fun r _ => fst r = NV_OK) s.
Proof.
  induction gpus as [|g gpus IH]; intros new s; cbn [preallocate_gpus]; [by apply wp_ret|].
  hstep. hstep. rewrite is_ok_NV_OK; cbn [negb]. apply wp_bind. unfold block_gpu_state_get_alloc.
  destruct (uvm_va_block_gpu_state_get new g); [apply wp_ret, IH|].
  do 3 (hstep; hstep; cbn [negb]). rewrite is_ok_NV_OK; cbn [negb]. apply wp_ret, IH.
Qed.

Lemma block_split_succeeds b ne s : wp (uvm_va_block_split b ne) (fun r _ => fst (fst r) = NV_OK) s.
Proof.
  unfold uvm_va_block_split, uvm_va_block_create. apply wp_bind. do 3 (hstep; hstep; cbn [negb]). apply wp_ret.
  hstep. hstep. apply wp_bind. unfold uvm_va_block_split_locked. hstep. hstep. do 2 apply wp_bind.
  assert (forall u, Succeeds (st ← block_split_presplit_ptes b; kret (st, u : unit))) as Hpre.
  { intros u s1. apply (wp_bind (block_split_presplit_ptes b) (fun st => kret (st, u)) (fun r _ => fst r = NV_OK) s1).
    eapply wp_mono; [apply presplit_succeeds|]. intros st s2 ->. by apply wp_ret. }
  apply wp_succeeds; [by apply retry_loop_ok|]. intros _ s1. rewrite is_ok_NV_OK; cbn [negb].
  apply wp_bind. unfold block_split_preallocate_no_retry. hstep. hstep. rewrite is_ok_NV_OK; cbn [negb].
  eapply wp_mono; [apply preallocate_succeeds|]. intros [st new] s3 Hst. cbn [fst] in Hst. subst st.
  rewrite is_ok_NV_OK; cbn [negb]. hstep. hstep. apply wp_ret. hstep. hstep. apply wp_ret.
  rewrite is_ok_NV_OK. destruct (block_split_state b new ne) as [e1 n1]. hstep. hstep. cbn. by apply wp_ret.
Qed.

Lemma range_num_blocks_fit r : uvm_va_range_num_blocks r * 8 < 2 ^ 64.
Proof.
  unfold uvm_va_range_num_blocks, UVM_VA_BLOCK_SIZE. pose proof (u64_range (UVM_VA_BLOCK_ALIGN_UP (vr_end r) - UVM_VA_BLOCK_ALIGN_DOWN (vr_start r))).
  set (d := u64 _) in *. clearbody d. pose proof (Z.mul_div_le d (2 ^ 21)). lia.
Qed.

Lemma range_split_succeeds `{T : RangeTree} v j r ne s : wp (uvm_va_range_split v j r ne) (fun res _ => fst res = NV_OK) s.
Proof.
  unfold uvm_va_range_split, uvm_va_range_alloc_managed. apply wp_bind. hstep. hstep. cbn [negb]. hstep.
  unfold kvmalloc_array. rewrite (proj2 (Z.leb_gt _ _)) by apply range_num_blocks_fit. hstep. cbn [negb]. apply wp_ret.
  apply wp_bind. unfold uvm_va_range_split_blocks. apply wp_bind.
  assert (forall i ex nw s, wp (split_spanning_block i ex nw) (fun r _ => fst (fst r) = NV_OK) s) as Hspan.
  { intros i ex nw s1. unfold split_spanning_block. destruct (_ =? _); [by apply wp_ret|].
    destruct (vr_blocks ex !! i) as [[ob|]|]; [|by apply wp_ret..]. apply wp_bind.
    eapply wp_mono; [apply block_split_succeeds|]. intros [[st ob'] nb] s2 Hst. by apply wp_ret. }
  eapply wp_mono; [apply Hspan|]. intros [[st k] [ex nw]] s2 Hst. cbn [fst] in Hst. subst st.
  rewrite is_ok_NV_OK; cbn [negb]. apply wp_bind, wp_any. intros [ex' nw'] s3. apply wp_ret.
  rewrite is_ok_NV_OK; cbn [negb]. by apply wp_ret.
Qed.
End Healthy.

Lemma wp_kmalloc_healthy `{E : Env} (Q : bool -> kst -> Prop) s :
  (forall p s', (HealthyEnv E -> p = true) -> Q p s') -> wp kmalloc Q s.
Proof.
  intros HQ. unfold wp, kmalloc, kbind, tick. destruct (env_alloc_ok (k_tick s)) eqn:Ha; apply HQ; [done|].
  intros HE. by rewrite healthy_alloc in Ha.
Qed.

Lemma wp_and_if {A} (P : Prop) (m : K A) (R Q : A -> kst -> Prop) s :
  (P -> wp m R s) -> wp m Q s -> wp m (fun a s' => (P -> R a s') /\ Q a s') s.
Proof. by split. Qed.

(** C16: When the kernel splits a mapping, the locks are released and the space
    stays well-formed on every path; either every address keeps its page and no
    range crosses the split any more, or, only in an environment where some
    allocation or call fails, exactly the managed ranges of the original mapping
    are destroyed. When nothing fails, nothing is destroyed. *)
Theorem uvm_vm_open_managed_correct `{E : Env} `{T : RangeTree} (v : va_space) (original vma : Z * Z) s :
  space_ok v -> k_locks s = [] -> k_lock_bug s = false ->
  fst vma = fst original \/ snd vma = snd original ->
  let new_end := if fst vma =? fst original then snd vma - 1 else fst vma - 1 in
  (new_end + 1) mod PAGE_SIZE = 0 ->
  (forall r, r ∈ vs_ranges v -> vr_start r <= new_end <= vr_end r -> is_managed r = true) ->
  let v' := fst (uvm_vm_open_managed v true original vma s) in
  let s' := snd (uvm_vm_open_managed v true original vma s) in
  k_locks s' = [] /\ k_lock_bug s' = false /\ space_ok v' /\
  (((forall addr, address_kept v v' addr) /\ forall r, r ∈ vs_ranges v' -> ~ (vr_start r <= new_end < vr_end r)) \/
   (v' = uvm_destroy_vma_managed (fst original) (snd original) v /\ ~ HealthyEnv E)).
Proof.
  intros Hv Hl Hbug Hside new_end Hal Hman.
  assert (Hg : (negb true || (negb (fst vma =? fst original) && negb (snd vma =? snd original))) = false).
  { cbn. destruct Hside as [->| ->]; rewrite Z.eqb_refl; cbn; [done|by rewrite andb_false_r]. }
  assert (Hfail : space_ok (uvm_destroy_vma_managed (fst original) (snd original) v)) by (by apply filter_ranges_ok).
  set (Q := fun v' => space_ok v' /\
    (((forall addr, address_kept v v' addr) /\ forall r, r ∈ vs_ranges v' -> ~ (vr_start r <= new_end < vr_end r)) \/
     (v' = uvm_destroy_vma_managed (fst original) (snd original) v /\ ~ HealthyEnv E))).
  assert (Hq : wp (uvm_vm_open_managed v true original vma) (fun v' _ => Q v') s).
  { unfold uvm_vm_open_managed. rewrite Hg. fold new_end. apply wp_bind, wp_mod. apply wp_bind, wp_kmalloc_healthy. intros wrapper s1 Hwr. apply wp_bind.
    eapply wp_mono; [|intros v1 s3 Hv'; apply wp_bind, wp_mod, wp_ret; exact Hv'].
    apply wp_if; intros Hw; [apply wp_ret; split; [done|right; split; [done|intros HE; by rewrite (Hwr HE) in Hw]]|].
    destruct (uvm_va_space_iter_first v new_end new_end) as [[j r]|] eqn:Hf.
    - destruct (iter_first_at _ _ _ _ Hf) as [Hj Hr]. pose proof (list_elem_of_lookup_2 _ _ _ Hj) as Hin.
      apply wp_if; intros Hc; bprop.
      + apply wp_ret. split; [done|]. left. split; [intros; apply address_kept_refl|]. intros x Hx Hcr.
        assert (x = r) as -> by (apply (range_unique v x r new_end Hv Hx Hin); lia). lia.
      + apply wp_bind. pose proof (range_split_spec v j r new_end) as Hsp.
        assert (HE : HealthyEnv E -> wp (uvm_va_range_split v j r new_end) (fun res _ => fst res = NV_OK) s1)
          by (intros HE; apply range_split_succeeds).
        pose proof (wp_and_if _ _ _ _ _ HE (Hsp s1 Hv Hj (Hman r Hin Hr) ltac:(lia) Hal)) as Hboth.
        eapply wp_mono; [exact Hboth|].
        intros [st v'] s2 [Hst0 (Hok & Hk & Herr & Hsuc)]. apply wp_ret. destruct (is_ok st) eqn:Hst; bprop;
          [|rewrite (Herr Hst); split; [done|right; split; [done|intros HE1; by apply Hst, Hst0]]].
        split; [done|]. left. split; [done|]. destruct (Hsuc Hst) as (lo & hi & Hrs & L1 & L2 & U1 & U2).
        intros x Hx Hcr. assert (x = lo) as ->; [|lia].
        assert (Hlo : lo ∈ vs_ranges v') by (rewrite Hrs; set_solver).
        apply (range_unique v' x lo new_end Hok Hx Hlo); lia.
    - apply wp_ret. split; [done|]. left. split; [intros; apply address_kept_refl|].
      intros x Hx Hcr. apply (iter_first_none v new_end x Hf Hx). lia. }
  assert (Hlock : LockSpec [] (uvm_vm_open_managed v true original vma) []).
  { unfold uvm_vm_open_managed. rewrite Hg. fold new_end. eapply lock_bind; [apply lock_acq, not_elem_of_nil|]. intros _.
    eapply lock_bind; [apply lock_kmalloc|]. intros wr. eapply lock_bind; [|intros v1; eapply lock_bind; [apply lock_rel, not_elem_of_nil|intros _; apply lock_ret]].
    apply lock_if; [apply lock_ret|]. destruct (uvm_va_space_iter_first v new_end new_end) as [[j r]|] eqn:Hf; [|apply lock_ret].
    destruct (iter_first_at _ _ _ _ Hf) as [Hj Hr]. pose proof (list_elem_of_lookup_2 _ _ _ Hj) as Hin.
    destruct (Z.eqb_spec (vr_end r) new_end); [apply lock_ret|]. eapply lock_bind; [|intros [? ?]; apply lock_ret].
    apply range_split_lock; [|by apply Hman|lia|done]. apply (vw_ranges _ (so_wf _ Hv)); [done|by apply Hman]. }
  destruct (Hlock s Hl Hbug) as [H1 H2]. cbv zeta. destruct Hq as [Hq1 Hq2]. by split_and!.
Qed.

(** A mapping closed: its managed ranges are gone, every other address is as it
    was. *)
Theorem uvm_vm_close_managed_correct (v : va_space) (vma : Z * Z) s :
  space_ok v ->
  let v' := fst (uvm_vm_close_managed v vma s) in
  space_ok v' /\ (forall r, r ∈ vs_ranges v' <-> r ∈ vs_ranges v /\ in_vma (fst vma) (snd vma) r = false) /\
  forall addr r, uvm_va_range_find v addr = Some r ->
    uvm_va_range_find v' addr = if in_vma (fst vma) (snd vma) r then None else Some r.
Proof.
  intros Hv. cbn. split; [by apply filter_ranges_ok|]. split; [intros r; cbn; rewrite list_elem_of_filter; tauto|].
  intros addr r Hf. assert (Hfind : forall w, uvm_va_range_find w addr = match filter (fun x => range_holds addr x = true) (vs_ranges w) with
    | [] => None | x :: _ => Some x end) by (intros w; unfold uvm_va_range_find; by destruct (filter _ _)).
  assert (Hr : range_holds addr r = true /\ r ∈ vs_ranges v).
  { unfold uvm_va_range_find in Hf. apply head_Some_elem_of, list_elem_of_filter in Hf. done. }
  destruct Hr as [Hh Hin]. rewrite Hfind. cbn [uvm_destroy_vma_managed vs_ranges vs_set_ranges].
  set (l := filter (fun x => range_holds addr x = true) _).
  assert (Hl : forall x, x ∈ l -> x = r /\ in_vma (fst vma) (snd vma) r = false).
  { intros x [Hx [Hk Hxv]%list_elem_of_filter]%list_elem_of_filter. assert (x = r) as ->; [|done].
    apply andb_prop in Hx as [? ?], Hh as [? ?]. btest. by apply (range_unique v x r addr Hv). }
  destruct l as [|x l'] eqn:Hll.
  - destruct (in_vma (fst vma) (snd vma) r) eqn:Hvma; [done|]. exfalso.
    assert (Hrl : r ∈ l) by (apply list_elem_of_filter; split; [done|]; by apply list_elem_of_filter).
    rewrite Hll in Hrl. by apply elem_of_nil in Hrl.
  - destruct (Hl x ltac:(left)) as [-> ->]. done.
Qed.
