(* ===== verification/FaultLoop.v ===== *)
(** Servicing a batch of faults ([uvm_gpu_replayable_faults.c]): the loop over the
    ordered faults, VA space by VA space and block by block, and the dispatch of a
    fault to the block of its address.

    A VA space is its identity, 0 being the NULL pointer; its HMM and ATS are
    disabled, so that a fault outside the managed ranges can only be cancelled.
    The reason recorded with a fatal fault, the batch id and the registered
    process address space are left out, and so is the profiling output.
    The lock of a VA space held in shared mode lets other threads publish blocks:
    [lc_race] is the one such a thread puts in the slot just looked up. *)
From stdpp Require Import functions sorting.
From S2P Require Import Prelude Kernel VaBlock Permissions Tracking Accessors Service FaultBuffer FaultBatch FaultService FaultReport FaultSpace.

Inductive fault_replay_policy :=
| UVM_PERF_FAULT_REPLAY_POLICY_BLOCK
| UVM_PERF_FAULT_REPLAY_POLICY_BATCH
| UVM_PERF_FAULT_REPLAY_POLICY_BATCH_FLUSH
| UVM_PERF_FAULT_REPLAY_POLICY_ONCE.

#[export] Instance fault_replay_policy_eq_dec : EqDecision fault_replay_policy.
Proof. solve_decision. Defined.

Inductive fault_service_mode := FAULT_SERVICE_MODE_REGULAR | FAULT_SERVICE_MODE_CANCEL.

#[export] Instance fault_service_mode_eq_dec : EqDecision fault_service_mode.
Proof. solve_decision. Defined.

Record loop_cfg := mk_loop_cfg {
  lc_fault        : Z -> Z -> fault_cfg;        (* of a VA space and the range that starts there *)
  lc_gpu_va_space : Z -> bool;                  (* uvm_gpu_va_space_get_by_parent_gpu finds one *)
  lc_policy       : fault_replay_policy;
  lc_race         : Z -> Z -> option va_block;  (* in a VA space, at an address *)
}.

Record loop_world := mk_loop_world {
  lw_spaces : Z -> va_space;
  lw_ctx    : block_ctx;
  lw_batch  : batch;
}.
Definition lw_set_batch (b : batch) (w : loop_world) : loop_world :=
  mk_loop_world (lw_spaces w) (lw_ctx w) b.

(** [ordered_fault_cache[i]]. *)
Definition ordered_at (b : batch) (i : nat) : nat := default 0%nat (bc_ordered b !! i).

(** ** Faults that cannot be serviced *)

Section Codes.
Context `{FaultCodes}.

(** Is the fault on the page of the one before? *)
Definition duplicate_of_previous (i : nat) (b : batch) : option nat :=
  match i with
  | O => None
  | S p => if check_fault_entry_duplicate (entry_at b (ordered_at b i)) (entry_at b (ordered_at b p))
           then Some (ordered_at b p) else None
  end.

Definition service_fault_batch_fatal (i : nat) (cancel_va_mode : uvm_fault_cancel_va_mode) (b : batch) : batch :=
  let e := ordered_at b i in
  let b := match duplicate_of_previous i b with
           | Some p => fault_entry_duplicate_flags e p b
           | None => b
           end in
  if fe_access (entry_at b e) =? UVM_FAULT_ACCESS_TYPE_PREFETCH
  then mark_fault_invalid_prefetch e b
  else mark_fault_fatal e cancel_va_mode b.

Definition service_fault_batch_fatal_notify (i : nat) (cancel_va_mode : uvm_fault_cancel_va_mode) (b : batch) : batch :=
  let is_duplicate := bool_decide (is_Some (duplicate_of_previous i b)) in
  update_batch_and_notify_fault (ordered_at b i) is_duplicate (service_fault_batch_fatal i cancel_va_mode b).

(** A fault already fatal when its turn comes. *)
Definition skip_fatal (i : nat) (va_space : Z) (b : batch) : batch :=
  let u := bc_utlbs b (fe_utlb (entry_at b (ordered_at b i))) in
  let b := match bc_fatal_space b with
           | Some _ => b
           | None => bc_set_marks (Some va_space) (bc_has_throttled b) (bc_num_prefetch b) (bc_num_duplicate b) b
           end in
  bc_assert (0 <? ut_pending u)
    (bc_set_utlbs (<[fe_utlb (entry_at b (ordered_at b i)) := mk_utlb_info (ut_pending u) true (ut_last u)]>
                     (bc_utlbs b)) (bc_max_utlb b) b).

(** ** Dispatch *)

Context `{E : Env} (service_copy : Z -> Z -> block_ctx -> va_block -> K (nv_status * va_block * gset Z)).
Context (cfg : loop_cfg) (gpu : Z).

(** The status, [*block_faults], and what became of the VA space, the block
    context and the batch. *)
Definition service_fault_batch_dispatch (v : va_space) (i : nat) (k : block_ctx) (b : batch)
    : K (nv_status * Z * (va_space * block_ctx * batch)) :=
  let fault_address := fe_address (entry_at b (ordered_at b i)) in
  let cancel b :=
    kret (NV_OK, 1, (v, k, service_fault_batch_fatal_notify i UVM_FAULT_CANCEL_VA_MODE_ALL b)) in
  match uvm_va_space_iter_first v fault_address (2 ^ 64 - 1) with
  | Some (j, r) =>
      if vr_start r <=? fault_address then
        let b := bc_assert (fault_address <? vr_end r) b in
        '(status, block, r) ← uvm_va_block_find_create_in_range v r fault_address (lc_race cfg (vs_id v) fault_address);
        match status, block with
        | NV_OK, Some block =>
            '(status, w) ← service_fault_batch_block service_copy (lc_fault cfg (vs_id v) (vr_start r)) gpu i
                             (mk_block_work block k b 0);
            let index := Z.to_nat (uvm_va_range_block_index r fault_address) in
            kret (status, bw_faults w, (put_range j (put_block index (bw_block w) r) v, bw_ctx w, bw_batch w))
        | _, _ => cancel b
        end
      else cancel b
  | None => cancel b
  end.

(** ** The loop *)

(** [va_space] is the VA space whose lock is held.  [uvm_ats_invalidate_tlbs] of
    the old one may fail. *)
Definition switch_va_space (va_space new : Z) : K (nv_status * Z) :=
  if new =? va_space then kret (NV_OK, va_space)
  else if va_space =? 0 then lock_acquire (LSpaceRead new);; kret (NV_OK, new)
  else
    status ← ext_status;
    if negb (is_ok status) then kret (status, va_space)
    else lock_release (LSpaceRead va_space);; lock_acquire (LSpaceRead new);; kret (NV_OK, new).

Definition push_replay (b : batch) : K (nv_status * batch) :=
  begin_ ← ext_status; track ← ext_status;
  let '(status, b') := push_replay_on_gpu (mk_flush_calls NV_OK NV_OK begin_ track)
                         UVM_FAULT_REPLAY_TYPE_START (Some b) in
  kret (status, default b b').

(** The replay after each block. *)
Definition replay_block (replay_per_va_block : bool) (b : batch) : K (nv_status * batch) :=
  if replay_per_va_block && negb (bool_decide (is_Some (bc_fatal_space b))) then push_replay b
  else kret (NV_OK, b).

(** A dispatch that asks to drop the locks and retry is followed [retries]
    times; past them the request is the result, an error for every caller. *)
Definition asks_retry (status : nv_status) : bool :=
  bool_decide (status = NV_WARN_MORE_PROCESSING_REQUIRED) || bool_decide (status = NV_WARN_MISMATCHED_TARGET).

Fixpoint service_loop (fuel retries : nat) (replay_per_va_block : bool) (i : nat) (va_space : Z) (w : loop_world)
    : K (option (nv_status * Z * loop_world)) :=
  let b := lw_batch w in
  if (length (bc_ordered b) <=? i)%nat then kret (Some (NV_OK, va_space, w))
  else
    match fuel with
    | O => kret None
    | S fuel' =>
        let current_entry := entry_at b (ordered_at b i) in
        let b := bc_assert (bool_decide (is_Some (fe_va_space current_entry))) b in
        '(status, va_space) ← switch_va_space va_space (default 0 (fe_va_space current_entry));
        if negb (is_ok status) then kret (Some (status, va_space, lw_set_batch b w))
        else if fe_is_fatal current_entry
        then service_loop fuel' retries replay_per_va_block (S i) va_space (lw_set_batch (skip_fatal i va_space b) w)
        else if negb (lc_gpu_va_space cfg va_space)
        then service_loop fuel' retries replay_per_va_block (S i) va_space (lw_set_batch b w)
        else
          '(status, block_faults, (v, k, b)) ← service_fault_batch_dispatch (lw_spaces w va_space) i (lw_ctx w) b;
          let w := mk_loop_world (<[va_space := v]> (lw_spaces w)) k b in
          if asks_retry status then
            match retries with
            | O => kret (Some (status, va_space, w))
            | S retries' =>
                lock_release (LSpaceRead va_space);;
                service_loop fuel' retries' replay_per_va_block i 0 w
            end
          else if negb (is_ok status) then kret (Some (status, va_space, w))
          else
            '(status, b) ← replay_block replay_per_va_block b;
            if negb (is_ok status) then kret (Some (status, va_space, lw_set_batch b w))
            else service_loop fuel' retries replay_per_va_block (i + Z.to_nat block_faults) va_space (lw_set_batch b w)
    end.

(** [None]: the loop was not followed to its end. *)
Definition service_fault_batch (service_mode : fault_service_mode) (w : loop_world)
    : K (option (nv_status * loop_world)) :=
  let replay_per_va_block :=
    negb (bool_decide (service_mode = FAULT_SERVICE_MODE_CANCEL)) &&
    bool_decide (lc_policy cfg = UVM_PERF_FAULT_REPLAY_POLICY_BLOCK) in
  res ← service_loop (length (bc_ordered (lw_batch w)) + env_retries) env_retries replay_per_va_block 0 0 w;
  match res with
  | None => kret None
  | Some (status, va_space, w) =>
      invalidate_status ← (if is_ok status && negb (va_space =? 0) then ext_status else kret NV_OK);
      (if va_space =? 0 then kret tt else lock_release (LSpaceRead va_space));;
      kret (Some (if is_ok status then invalidate_status else status, w))
  end.
End Codes.
