(* ===== verification/FaultLoopSpec.v ===== *)
(** What servicing a batch guarantees: in spaces whose blocks are tracked, every
    write fault of the batch ends up in a dirty block, throttled, or refused; the
    loop ends; and the guard of the spaces is kept on every path. *)
From stdpp Require Import functions sorting.
From S2P Require Import Prelude Kernel VaBlock Permissions Tracking Accessors Service FaultBuffer FaultBatch FaultService FaultReport FaultSpace FaultLoop.

(** ** Batches with the same faults *)

Record same_keys (b b' : batch) : Prop := {
  sk_length : length (bc_cache b') = length (bc_cache b);
  sk_order  : bc_ordered b' = bc_ordered b;
  sk_key    : forall k, same_key (entry_at b k) (entry_at b' k);
}.

#[export] Instance same_keys_preorder : PreOrder same_keys.
Proof.
  split; [by split|]. intros b1 b2 b3 [] []. split; try congruence.
  intros k. etransitivity; [apply sk_key0|apply sk_key1].
Qed.

Lemma same_entries_keys b b' : same_entries b b' -> same_keys b b'.
Proof. intros [Hc Ho]. split; unfold entry_at; rewrite ?Hc; done. Qed.

Lemma touches_keys i b b' : touches i b b' -> same_keys b b'.
Proof. intros []. by split. Qed.

Lemma same_key_fields e e' :
  same_key e e' -> fe_address e' = fe_address e /\ fe_access e' = fe_access e /\ fe_va_space e' = fe_va_space e.
Proof. intros (Hp & Hv & _). unfold fe_address, fe_access. by rewrite Hp, Hv. Qed.

Lemma fault_le_keys b b' i j :
  same_keys b b' -> fault_le (entry_at b' i) (entry_at b' j) <-> fault_le (entry_at b i) (entry_at b j).
Proof.
  intros Hk. destruct (same_key_fields _ _ (sk_key _ _ Hk i)) as (Ha & Hb & Hc).
  destruct (same_key_fields _ _ (sk_key _ _ Hk j)) as (Ha' & Hb' & Hc').
  unfold fault_le. by rewrite Ha, Hb, Hc, Ha', Hb', Hc'.
Qed.

Lemma ordered_batch_keys `{FaultCodes} b b' : same_keys b b' -> ordered_batch b -> ordered_batch b'.
Proof.
  intros Hk [H1 H2 H3 H4 H5]. pose proof (fun i => same_key_fields _ _ (sk_key _ _ Hk i)) as Hf.
  split; rewrite ?(sk_order _ _ Hk), ?(sk_length _ _ Hk); try done.
  - eapply StronglySorted_mono; [|exact H3]. intros i j. by rewrite fault_le_keys.
  - intros i Hi. destruct (Hf i) as (_ & -> & _). auto.
  - intros i Hi. destruct (Hf i) as (-> & _). auto.
Qed.

(** The fatal faults of a page come first. *)
Definition fatal_first (b : batch) (l : list nat) : Prop :=
  ordered_by (fun i j => same_page (entry_at b i) (entry_at b j) ->
                fe_is_fatal (entry_at b j) = true -> fe_is_fatal (entry_at b i) = true) l.

Lemma seg_ok_suffix `{FaultCodes} cfg blk b first h :
  ordered_batch b -> 0 < ft_va_space cfg -> bc_ordered b !! first = Some h ->
  in_block cfg blk (entry_at b h) = true -> vb_start blk <= fe_address (entry_at b h) ->
  fatal_first b (drop first (bc_ordered b)) -> seg_ok cfg blk b (drop first (bc_ordered b)).
Proof.
  intros [Hr Hn Hs Ha Hal] Hvs Hh Hib Hst Hff.
  assert (Hsub : forall i, i ∈ drop first (bc_ordered b) -> i ∈ bc_ordered b) by (intros i; apply list.subseteq_drop).
  pose proof (ordered_by_drop _ first _ (StronglySorted_ordered_by _ _ Hs)) as Hd.
  split; auto.
  - eapply sublist_NoDup; [exact Hn|apply sublist_drop].
  - intros i Hi Hv. apply list_elem_of_lookup_1 in Hi as [q Hq].
    assert (Hh0 : drop first (bc_ordered b) !! 0%nat = Some h) by by rewrite lookup_drop, Nat.add_0_r.
    destruct (in_block_true _ _ _ Hib) as [Hvh _].
    destruct q as [|q]; [rewrite Hh0 in Hq; by injection Hq as <-|].
    specialize (Hd 0%nat (S q) h i ltac:(lia) Hh0 Hq). unfold fault_le in Hd.
    rewrite Hvh, Hv in Hd. cbn in Hd. lia.
  - intros p q i j Hpq Hi Hj _. by apply (Hff p q).
Qed.

Lemma ordered_at_lookup b i h : bc_ordered b !! i = Some h -> ordered_at b i = h.
Proof. unfold ordered_at. by intros ->. Qed.

(** ** Cancelling *)

Section Cancel.
Context `{FaultCodes}.

Lemma duplicate_flags_fatal i p b :
  (i < length (bc_cache b))%nat ->
  fe_is_fatal (entry_at (fault_entry_duplicate_flags i p b) i) = fe_is_fatal (entry_at b i).
Proof. intros Hi. by destruct (marks_flags i p b Hi). Qed.

(** The fault is marked, and fatal unless it is a prefetch; no other is. *)
Lemma fatal_notify_spec i h mode b :
  bc_ordered b !! i = Some h -> (h < length (bc_cache b))%nat ->
  let b' := service_fault_batch_fatal_notify i mode b in
  touches h b b' /\
  (fe_access (entry_at b h) <> UVM_FAULT_ACCESS_TYPE_PREFETCH -> fe_is_fatal (entry_at b' h) = true) /\
  (fe_access (entry_at b h) = UVM_FAULT_ACCESS_TYPE_PREFETCH ->
   fe_is_fatal (entry_at b' h) = fe_is_fatal (entry_at b h)).
Proof.
  intros Hi Hh. cbv zeta. unfold service_fault_batch_fatal_notify. set (dup := bool_decide _). clearbody dup.
  unfold service_fault_batch_fatal. rewrite (ordered_at_lookup _ _ _ Hi).
  set (b1 := match duplicate_of_previous i b with Some _ => _ | None => _ end).
  assert (H1 : touches h b b1 /\ fe_is_fatal (entry_at b1 h) = fe_is_fatal (entry_at b h)).
  { unfold b1. destruct (duplicate_of_previous i b) as [p|]; [|done].
    split; [by apply duplicate_flags_touches|by apply duplicate_flags_fatal]. }
  destruct H1 as [Ht Hf]. clearbody b1. destruct (touches_fields _ _ _ h Ht) as (_ & Hacc & _). rewrite Hacc.
  assert (Hh1 : (h < length (bc_cache b1))%nat) by by rewrite (tk_length _ _ _ Ht).
  set (b2 := if _ =? _ then _ else _).
  assert (H2 : touches h b1 b2 /\
    fe_is_fatal (entry_at b2 h) = (if fe_access (entry_at b h) =? UVM_FAULT_ACCESS_TYPE_PREFETCH
                                   then fe_is_fatal (entry_at b h) else true)).
  { unfold b2. destruct (_ =? _).
    - rewrite <- Hf. split; [by apply mark_prefetch_touches|].
      unfold mark_fault_invalid_prefetch. unfold entry_at at 1. cbn [bc_cache bc_set_marks].
      change (fe_is_fatal (entry_at (set_entry h (fun e => fe_set_flags (fe_throttled e) true e) b1) h) =
              fe_is_fatal (entry_at b1 h)). by rewrite entry_at_set_entry, decide_True by done.
    - by apply mark_fatal_touches. }
  destruct H2 as [Ht2 Hf2]. clearbody b2.
  assert (He : same_entries b2 (update_batch_and_notify_fault h dup b2)) by done.
  assert (Heq : entry_at (update_batch_and_notify_fault h dup b2) h = entry_at b2 h) by done. rewrite Heq, Hf2.
  split; [etransitivity; [exact Ht|]; etransitivity; [exact Ht2|by apply same_entries_touches]|].
  split; intros Hp; [|by rewrite Hp, Z.eqb_refl]. by destruct (Z.eqb_spec (fe_access (entry_at b h)) UVM_FAULT_ACCESS_TYPE_PREFETCH).
Qed.
End Cancel.

(** ** Locks *)

Section SpaceLocks.
Context `{FaultCodes} `{E : Env}.

(** The locks held in VA space [va]; 0 is no VA space. *)
Definition space_locks (va : Z) : list lock := if va =? 0 then [] else [LSpaceRead va].
Definition locked (va : Z) (s : kst) : Prop := k_locks s = space_locks va /\ k_lock_bug s = false.

Lemma wp_locked {A} va va' (m : K A) (Q : A -> kst -> Prop) s :
  LockSpec (space_locks va) m (space_locks va') -> locked va s ->
  (forall a s', locked va' s' -> Q a s') -> wp m Q s.
Proof. intros Hm [Hl Hb] HQ. eapply wp_lock; [exact Hm|done|done|]. by intros a s' Hl' Hb'; apply HQ. Qed.

Lemma space_locks_pos va : 0 < va -> space_locks va = [LSpaceRead va].
Proof. intros Hva. unfold space_locks. by destruct (Z.eqb_spec va 0); [lia|]. Qed.

Lemma switch_spec va new s :
  0 < new -> locked va s ->
  wp (switch_va_space va new) (fun '(st, va') s' => (st = NV_OK -> va' = new) /\ locked va' s') s.
Proof.
  intros Hnew Hs. pose proof (space_locks_pos new Hnew) as Hl. unfold switch_va_space. apply wp_if; intros H1; btest; [by apply wp_ret|].
  apply wp_if; intros H2; btest.
  - subst va. apply wp_bind. apply (wp_locked 0 new); [|done|by intros _ s' Hs'; apply wp_ret].
    rewrite Hl. apply lock_acq. set_solver.
  - apply wp_bind. apply (wp_locked va va); [apply lock_ext_status|done|]. intros st s1 Hs1.
    apply wp_if; intros H3; bprop; [by apply wp_ret|]. apply wp_bind.
    assert (Hlv : space_locks va = [LSpaceRead va]) by (unfold space_locks; by destruct (Z.eqb_spec va 0)).
    apply (wp_locked va 0); [rewrite Hlv; apply lock_rel; set_solver|done|]. intros _ s2 Hs2.
    apply wp_bind. apply (wp_locked 0 new); [rewrite Hl; apply lock_acq; set_solver|done|].
    intros _ s3 Hs3. by apply wp_ret.
Qed.

Lemma replay_block_lock ls r b : LockSpec ls (replay_block r b) ls.
Proof. unfold replay_block, push_replay. locks. Qed.
End SpaceLocks.

Section Locks.
Context `{FaultCodes} `{E : Env} (cfg : loop_cfg) (gpu : Z).
Context (service_copy : Z -> Z -> block_ctx -> va_block -> K (nv_status * va_block * gset Z)).
Context (Hcopy : forall ls p r k b, LockSpec ls (service_copy p r k b) ls).

#[local] Hint Resolve uvm_va_block_map_lock revoke_mask_lock : locks.
Lemma do_block_lock ls c b nr p ids r m q :
  LockSpec ls (do_block_add_mappings_after_migration c b nr p ids r m q) ls.
Proof. unfold do_block_add_mappings_after_migration, map_after. cbv zeta. locks. Qed.
#[local] Hint Resolve do_block_lock : locks.

Lemma add_mappings_lock ls c b nr p r m q thr :
  LockSpec ls (uvm_va_block_add_mappings_after_migration c b nr p r m q thr) ls.
Proof. unfold uvm_va_block_add_mappings_after_migration, add_mappings, map_after. cbv zeta. locks. Qed.
#[local] Hint Resolve add_mappings_lock : locks.

Lemma service_finish_lock ls c p b sc : LockSpec ls (uvm_va_block_service_finish c p b sc) ls.
Proof.
  unfold uvm_va_block_service_finish, service_record_write_faults, record_fault_page,
    service_revoke, service_map, service_map_others, map_thrashing_page,
    uvm_live_migration_record_write_fault. cbv zeta. locks.
Qed.
#[local] Hint Resolve service_finish_lock : locks.
#[local] Hint Extern 0 (LockSpec _ (service_copy _ _ _ _) _) => apply Hcopy : locks.

Lemma service_locked_lock ls c b k : LockSpec ls (uvm_va_block_service_locked service_copy c gpu b k) ls.
Proof using Hcopy. unfold uvm_va_block_service_locked, service_residency. locks. Qed.
#[local] Hint Resolve service_locked_lock : locks.

Lemma block_locked_lock ls c i w : LockSpec ls (service_fault_batch_block_locked service_copy c gpu i w) ls.
Proof using All. unfold service_fault_batch_block_locked. cbv zeta. locks. Qed.
#[local] Hint Resolve block_locked_lock : locks.

Lemma block_lock ls c i w :
  LBlock (vb_start (bw_block w)) ∉ ls -> LockSpec ls (service_fault_batch_block service_copy c gpu i w) ls.
Proof using All. intros Hl. unfold service_fault_batch_block. cbv zeta. locks. Qed.

Lemma find_create_lock ls v r addr race : LockSpec ls (uvm_va_block_find_create_in_range v r addr race) ls.
Proof.
  unfold uvm_va_block_find_create_in_range, uvm_va_range_block_create, uvm_va_block_create, uvm_va_block_release_new. locks.
Qed.
#[local] Hint Resolve find_create_lock : locks.

Lemma dispatch_lock va v i k b :
  LockSpec [LSpaceRead va] (service_fault_batch_dispatch service_copy cfg gpu v i k b) [LSpaceRead va].
Proof using All.
  unfold service_fault_batch_dispatch. cbv zeta. repeat (lockstep; cbv beta).
  all: try (apply block_lock; set_solver).
Qed.
End Locks.

(** ** The invariant *)

Section Loop.
Context `{FaultCodes} `{E : Env} (cfg : loop_cfg) (gpu : Z) (Hgpu : 0 < gpu) (Htests : env_tests = false).
Context (Hprot : forall v r t, UVM_FAULT_ACCESS_TYPE_WRITE <= t ->
                   writable (sv_access_prot (ft_service (lc_fault cfg v r)) t) = true).
Context (Hatomic : forall v r, sv_atomic_strong (ft_service (lc_fault cfg v r)) = UVM_FAULT_ACCESS_TYPE_ATOMIC_STRONG).
Context (Hids : forall v r, processors_ok (ft_service (lc_fault cfg v r))).
Context (Hspace : forall v r, ft_va_space (lc_fault cfg v r) = v).
Context (service_copy : Z -> Z -> block_ctx -> va_block -> K (nv_status * va_block * gset Z)).
Context (Hcopy : forall r k b s, perm_wf b ->
  wp (service_copy gpu r k b) (fun '(_, b', _) _ => follows gpu b b') s).
Context (Hcopy_lock : forall ls p r k b, LockSpec ls (service_copy p r k b) ls).

(** The faults from position [start] on are serviced. *)
Context (w0 : loop_world) (start : nat).
Notation b0 := (lw_batch w0).

(** The access is not permitted by the range, or no block was there and none
    could be made. *)
Definition refused (e : fault_entry) : Prop :=
  forall vid, fe_va_space e = Some vid ->
    (exists r, uvm_va_range_find (lw_spaces w0 vid) (fe_address e) = Some r /\
               denied (lc_fault cfg vid (vr_start r)) gpu e) \/
    (forall b, uvm_va_block_find (lw_spaces w0 vid) (fe_address e) <> (NV_OK, Some b)).

(** What became of a write fault of a type that is not fatal. *)
Definition settled (w : loop_world) (k : nat) : Prop :=
  let e := entry_at b0 k in
  UVM_FAULT_ACCESS_TYPE_WRITE <= fe_access e -> fe_is_fatal e = false ->
  forall vid, fe_va_space e = Some vid -> lc_gpu_va_space cfg vid = true ->
    (exists b, uvm_va_block_find (lw_spaces w vid) (fe_address e) = (NV_OK, Some b) /\ vb_dirty b = true) \/
    (exists r, uvm_va_range_find (lw_spaces w0 vid) (fe_address e) = Some r /\
       ft_thrashing (lc_fault cfg vid (vr_start r)) (fe_address e) = UVM_PERF_THRASHING_HINT_TYPE_THROTTLE) \/
    (fe_is_fatal (entry_at (lw_batch w) k) = true /\ refused e).

Record loop_inv (i : nat) (w : loop_world) : Prop := {
  li_guarded : forall vid, space_guarded gpu (lw_spaces w vid);
  li_follows : forall vid, space_follows gpu (lw_spaces w0 vid) (lw_spaces w vid);
  li_keys    : same_keys b0 (lw_batch w);
  li_fatal   : forall k, fe_is_fatal (entry_at (lw_batch w) k) = true ->
                 fe_is_fatal (entry_at b0 k) = true \/ refused (entry_at b0 k);
  li_pages   : fatal_first (lw_batch w) (drop i (bc_ordered b0));
  li_done    : forall p k, (start <= p < i)%nat -> bc_ordered b0 !! p = Some k -> settled w k;
}.

(** The state at the start. *)
Record world_ok : Prop := {
  wo_guarded : forall vid, space_guarded gpu (lw_spaces w0 vid) /\ vs_id (lw_spaces w0 vid) = vid;
  wo_ordered : ordered_batch b0;
  wo_length  : Z.of_nat (length (bc_ordered b0)) < 2 ^ 32;
  wo_space   : forall k, k ∈ bc_ordered b0 -> exists vid, fe_va_space (entry_at b0 k) = Some vid /\ 0 < vid;
  wo_pages   : fatal_first b0 (bc_ordered b0);
  (** another thread's block is one it created and serviced *)
  wo_race    : forall vid r addr b, r ∈ vs_ranges (lw_spaces w0 vid) -> is_managed r = true ->
                 range_holds addr r = true -> lc_race cfg vid addr = Some b ->
                 guarded gpu b /\ in_slot r (Z.to_nat (uvm_va_range_block_index r addr)) b;
}.
Context (Hw0 : world_ok).

Lemma fatal_first_same b b' l :
  (forall k, k ∈ l -> entry_at b' k = entry_at b k) -> fatal_first b l -> fatal_first b' l.
Proof.
  intros He Hf p q i j Hpq Hi Hj. pose proof (list_elem_of_lookup_2 _ _ _ Hi). pose proof (list_elem_of_lookup_2 _ _ _ Hj).
  rewrite !He by done. by apply (Hf p q).
Qed.

Lemma settled_mono w w' k :
  (forall vid, space_guarded gpu (lw_spaces w' vid) /\ space_follows gpu (lw_spaces w vid) (lw_spaces w' vid)) ->
  (fe_is_fatal (entry_at (lw_batch w) k) = true -> fe_is_fatal (entry_at (lw_batch w') k) = true) ->
  settled w k -> settled w' k.
Proof.
  intros Hsp Hf Hs. cbv zeta delta [settled]. intros Hw Hnf vid Hv Hg.
  destruct (Hs Hw Hnf vid Hv Hg) as [(b & Hb & Hd)|[Hc|[Hc Hr]]]; [left|by right; left|right; right; split; auto].
  destruct (Hsp vid) as [Hgd Hfo]. destruct (block_find_follows gpu _ _ _ _ (sg_wf _ _ Hgd) Hfo Hb) as (b' & Hb' & Hbb).
  exists b'. split; [done|]. by apply (fo_dirty _ _ _ Hbb).
Qed.

(** The batch may change in the faults of position [i] on. *)
Lemma loop_inv_step i w w' :
  loop_inv i w ->
  (forall vid, space_guarded gpu (lw_spaces w' vid) /\ space_follows gpu (lw_spaces w vid) (lw_spaces w' vid)) ->
  same_keys (lw_batch w) (lw_batch w') ->
  (forall k, fe_is_fatal (entry_at (lw_batch w') k) = true ->
     fe_is_fatal (entry_at (lw_batch w) k) = true \/ refused (entry_at b0 k)) ->
  (forall k, k ∉ drop i (bc_ordered b0) -> entry_at (lw_batch w') k = entry_at (lw_batch w) k) ->
  fatal_first (lw_batch w') (drop i (bc_ordered b0)) ->
  loop_inv i w'.
Proof using Hw0.
  intros [Hg Hfo Hk Hf Hp Hd] Hsp Hk' Hf' Hot Hp'. split; [apply Hsp| | | |done|].
  - intros vid. etransitivity; [apply Hfo|apply Hsp].
  - by etransitivity.
  - intros k Hk1. destruct (Hf' k Hk1) as [Hc|Hc]; [by apply Hf|by right].
  - intros p k Hpi Hpk. apply (settled_mono w); [done| |by apply (Hd p)]. rewrite Hot; [done|].
    intros [q Hq]%list_elem_of_lookup_1. rewrite lookup_drop in Hq.
    pose proof (NoDup_lookup _ _ _ _ (ob_nodup _ (wo_ordered Hw0)) Hpk Hq). lia.
Qed.

(** Going on past faults that are settled. *)
Lemma loop_inv_advance i n w :
  loop_inv i w -> (forall p k, (i <= p < i + n)%nat -> bc_ordered b0 !! p = Some k -> settled w k) ->
  loop_inv (i + n) w.
Proof.
  intros [Hg Hfo Hk Hf Hp Hd] Hs. split; try done.
  - rewrite <- drop_drop. by apply ordered_by_drop.
  - intros p k Hpi Hpk. destruct (decide (p < i)%nat); [apply (Hd p); [lia|done]|]. apply (Hs p); [lia|done].
Qed.

(** Counters and assertions play no part. *)
Lemma loop_inv_batch i w b :
  loop_inv i w -> same_entries (lw_batch w) b -> loop_inv i (lw_set_batch b w).
Proof using Hw0.
  intros Hi Hs. assert (He : forall k, entry_at b k = entry_at (lw_batch w) k) by (intros k; unfold entry_at; by rewrite (proj1 Hs)).
  apply (loop_inv_step i w); cbn; [done| |by apply same_entries_keys| |by intros|].
  - intros vid. split; [apply Hi|done].
  - intros k. rewrite He. by left.
  - eapply fatal_first_same; [|apply Hi]. by intros.
Qed.

(** ** Dispatching *)

(** What dispatching the fault at position [i] leads to. *)
Definition dispatched (i : nat) (vid : Z) (w : loop_world)
    (r : nv_status * Z * (va_space * block_ctx * batch)) : Prop :=
  let '(st, n, (v, k, b)) := r in
  let w' := mk_loop_world (<[vid := v]> (lw_spaces w)) k b in
  loop_inv i w' /\
  (st = NV_OK -> 1 <= n /\
     forall p h, (i <= p < i + Z.to_nat n)%nat -> bc_ordered b0 !! p = Some h -> settled w' h).

Lemma insert_space_follows (f : Z -> va_space) vid v :
  (forall x, space_guarded gpu (f x)) -> space_guarded gpu v -> space_follows gpu (f vid) v ->
  forall x, space_guarded gpu (<[vid := v]> f x) /\ space_follows gpu (f x) (<[vid := v]> f x).
Proof.
  intros Hf Hv Hvf x. destruct (decide (x = vid)) as [->|Hne].
  - by rewrite fn_lookup_insert.
  - by rewrite fn_lookup_insert_ne by done.
Qed.

Lemma entry_keys i w k : loop_inv i w ->
  fe_address (entry_at (lw_batch w) k) = fe_address (entry_at b0 k) /\
  fe_access (entry_at (lw_batch w) k) = fe_access (entry_at b0 k) /\
  fe_va_space (entry_at (lw_batch w) k) = fe_va_space (entry_at b0 k).
Proof. intros Hi. apply same_key_fields, Hi. Qed.

Lemma ordered_lookup i w : loop_inv i w -> bc_ordered (lw_batch w) = bc_ordered b0.
Proof. intros Hi. apply (sk_order _ _ (li_keys _ _ Hi)). Qed.

Lemma in_cache i w h p : loop_inv i w -> bc_ordered b0 !! p = Some h -> (h < length (bc_cache (lw_batch w)))%nat.
Proof using Hw0.
  intros Hi Hp. rewrite (sk_length _ _ (li_keys _ _ Hi)). apply (ob_range _ (wo_ordered Hw0)).
  by eapply list_elem_of_lookup_2.
Qed.

(** The head of what is left. *)
Lemma drop_head i h (l : list nat) : l !! i = Some h -> drop i l = h :: drop (S i) l.
Proof. apply drop_S. Qed.

Lemma cancel_spec i h vid w k :
  loop_inv i w -> bc_ordered b0 !! i = Some h -> fe_va_space (entry_at b0 h) = Some vid ->
  (forall blk, uvm_va_block_find (lw_spaces w0 vid) (fe_address (entry_at b0 h)) <> (NV_OK, Some blk)) ->
  dispatched i vid w (NV_OK, 1, (lw_spaces w vid, k,
    service_fault_batch_fatal_notify i UVM_FAULT_CANCEL_VA_MODE_ALL (lw_batch w))).
Proof using Hw0.
  intros Hi Hh Hv Hno.
  destruct (fatal_notify_spec i h UVM_FAULT_CANCEL_VA_MODE_ALL (lw_batch w)) as (Ht & Hf & Hpf);
    [by rewrite (ordered_lookup i)|by apply (in_cache i _ _ i)|].
  set (b := service_fault_batch_fatal_notify _ _ _) in *. clearbody b.
  assert (Hr : refused (entry_at b0 h)) by (intros vid' Hv'; rewrite Hv in Hv'; injection Hv' as <-; by right).
  destruct (entry_keys i w h Hi) as (_ & Hacc & _).
  assert (Hmono : forall x, fe_is_fatal (entry_at (lw_batch w) x) = true -> fe_is_fatal (entry_at b x) = true).
  { intros x. destruct (decide (x = h)) as [->|Hne]; [apply Ht|]. by rewrite (tk_other _ _ _ Ht x Hne). }
  split.
  - apply (loop_inv_step i w); cbn; [done| |by apply (touches_keys h)| | |].
    + apply insert_space_follows; [apply Hi|apply Hi|done].
    + intros x Hx. destruct (decide (x = h)) as [->|Hne]; [by right|left]. by rewrite (tk_other _ _ _ Ht x Hne) in Hx.
    + intros x Hx. apply (tk_other _ _ _ Ht). intros ->. apply Hx. rewrite (drop_head _ _ _ Hh). left.
    + intros p q x y Hpq Hx Hy [Hs1 Hs2] Hfy.
      destruct (entry_keys i w x Hi) as (Hax & _ & Hvx), (entry_keys i w y Hi) as (Hay & _ & Hvy).
      destruct (same_key_fields _ _ (tk_key _ _ _ Ht x)) as (Hax' & _ & Hvx').
      destruct (same_key_fields _ _ (tk_key _ _ _ Ht y)) as (Hay' & _ & Hvy').
      assert (y <> h).
      { intros ->. destruct q; [lia|]. rewrite lookup_drop in Hy.
        pose proof (NoDup_lookup _ _ _ _ (ob_nodup _ (wo_ordered Hw0)) Hh Hy). lia. }
      apply Hmono. rewrite (tk_other _ _ _ Ht y) in Hfy by done.
      apply (li_pages _ _ Hi p q x y Hpq Hx Hy); [|done]. split; congruence.
  - intros _. split; [done|]. intros p x Hp Hx. assert (p = i) as -> by lia.
    assert (x = h) as -> by congruence. intros Hw _ vid' Hv' _. right; right. split; [|done]. cbn.
    apply Hf. rewrite Hacc. pose proof access_types_ordered. lia.
Qed.

(** The block another thread published fits the slot looked up. *)
Lemma race_ok i w vid j r addr blk :
  loop_inv i w -> vs_ranges (lw_spaces w vid) !! j = Some r -> is_managed r = true -> range_holds addr r = true ->
  lc_race cfg vid addr = Some blk ->
  guarded gpu blk /\ in_slot r (Z.to_nat (uvm_va_range_block_index r addr)) blk.
Proof using Hw0.
  intros Hi Hj Hm Ha Hr. destruct (Forall2_lookup_r _ _ _ _ _ (sf_ranges _ _ _ (li_follows _ _ Hi vid)) Hj) as (r0 & Hj0 & Hf).
  pose proof (list_elem_of_lookup_2 _ _ _ Hj0) as Hin0. pose proof (list_elem_of_lookup_2 _ _ _ Hj) as Hin.
  rewrite (is_managed_ext r0 r) in Hm by apply Hf. rewrite (range_holds_ext r0 r) in Ha by apply Hf.
  destruct (wo_race Hw0 vid r0 addr blk Hin0 Hm Ha Hr) as [Hg Hs]. split; [done|].
  pose proof (vw_ranges _ (sg_wf _ _ (proj1 (wo_guarded Hw0 vid))) r0 Hin0 Hm) as Hwf0.
  rewrite <- (is_managed_ext r0 r) in Hm by apply Hf.
  pose proof (vw_ranges _ (sg_wf _ _ (li_guarded _ _ Hi vid)) r Hin Hm) as Hwf.
  rewrite (block_index_follows gpu r0 r) by done. by apply (in_slot_follows gpu r0).
Qed.

(** A fault of block [blk] lies in its range. *)
Lemma in_block_address c v j r idx blk b l k :
  space_guarded gpu v -> vs_ranges v !! j = Some r -> is_managed r = true -> in_slot r idx blk ->
  seg_ok c blk b l -> k ∈ l -> in_block c blk (entry_at b k) = true ->
  fe_va_space (entry_at b k) = Some (ft_va_space c) /\
  vb_start blk <= fe_address (entry_at b k) <= vb_end blk /\ range_holds (fe_address (entry_at b k)) r = true.
Proof.
  intros Hg Hj Hm Hsl Hseg Hk Hib. destruct (in_block_true _ _ _ Hib) as [Hv He].
  pose proof (so_start _ _ _ _ Hseg k Hk Hv) as Hst.
  pose proof (vw_ranges _ (sg_wf _ _ Hg) r (list_elem_of_lookup_2 _ _ _ Hj) Hm) as Hwf.
  destruct (in_slot_range r idx blk Hwf Hsl) as (_ & H1 & H2).
  split; [done|]. split; [lia|]. unfold range_holds. apply andb_true_iff. split; apply Z.leb_le; lia.
Qed.

Lemma follows_guarded b b' : guarded gpu b -> follows gpu b b' -> quiet {[gpu]} b' -> guarded gpu b'.
Proof. intros [Hw Ht _] [] Hq. split; [auto|congruence|done]. Qed.

Lemma follows_in_slot r i b b' : in_slot r i b -> follows gpu b b' -> in_slot r i b'.
Proof. intros (H1 & H2 & H3) []. split; [done|]. split; congruence. Qed.

(** Nothing of the batch but the faults of the block changes, and none of them
    becomes fatal that is not refused. *)
Lemma serviced_batch i vid w j r idx blk bw st bw' :
  let c := lc_fault cfg vid (vr_start r) in
  loop_inv i w -> vs_ranges (lw_spaces w vid) !! j = Some r -> is_managed r = true -> in_slot r idx blk ->
  bw_block bw = blk -> bw_batch bw = lw_batch w ->
  block_serviced c gpu i bw st bw' ->
  (forall k, fe_is_fatal (entry_at (bw_batch bw') k) = true ->
     fe_is_fatal (entry_at (lw_batch w) k) = true \/ refused (entry_at b0 k)) /\
  fatal_first (bw_batch bw') (drop i (bc_ordered b0)).
Proof using Hspace Hw0.
  intros c Hi Hj Hm Hsl Hblk Hbt [_ Hmk Hot Hseg _ _ _]. rewrite Hblk, Hbt in *.
  rewrite (ordered_lookup i w Hi) in *. set (l := drop i (bc_ordered b0)) in *.
  assert (Hkey : forall k, same_key (entry_at (lw_batch w) k) (entry_at (bw_batch bw') k)) by apply Hmk.
  assert (Hib : forall k, in_block c blk (entry_at (bw_batch bw') k) = in_block c blk (entry_at (lw_batch w) k))
    by (intros k; by apply in_block_ext).
  split.
  - intros k Hf. destruct (decide (k ∈ l)) as [Hk|Hk]; [|rewrite Hot in Hf by (by left); by left].
    destruct (in_block c blk (entry_at (lw_batch w) k)) eqn:Hin; [|rewrite Hot in Hf by (by right); by left].
    destruct (md_fatal _ _ _ _ Hmk k Hf) as [Hc|Hd]; [by left|right]. intros vid' Hv. left.
    destruct (entry_keys i w k Hi) as (Ha & Hac & Hvs). destruct (same_key_fields _ _ (Hkey k)) as (Ha' & _ & Hvs').
    destruct (in_block_address c _ j r idx blk _ l k (li_guarded _ _ Hi vid) Hj Hm Hsl Hseg Hk) as (Hvk & _ & Hh);
      [by rewrite Hib|].
    unfold c in Hvk. rewrite Hspace in Hvk. assert (vid' = vid) as -> by congruence. rewrite Ha', Ha in Hh.
    destruct (range_find_follows gpu _ _ j r _ (sg_wf _ _ (proj1 (wo_guarded Hw0 vid))) (li_follows _ _ Hi vid) Hj Hm Hh)
      as (r0 & Hr0 & Hst). exists r0. split; [done|]. rewrite <- Hst. fold c. revert Hd. unfold denied. by rewrite Ha, Hac.
  - intros p q x y Hpq Hx Hy Hsp Hf. pose proof (list_elem_of_lookup_2 _ _ _ Hx). pose proof (list_elem_of_lookup_2 _ _ _ Hy).
    destruct (in_block c blk (entry_at (bw_batch bw') x)) eqn:Hin; [by apply (so_fatal _ _ _ _ Hseg p q x y)|].
    assert (Hiy : in_block c blk (entry_at (bw_batch bw') y) = false)
      by (rewrite <- Hin; destruct Hsp as [Hs1 Hs2]; unfold in_block; by rewrite Hs1, Hs2).
    rewrite Hib in Hin, Hiy. rewrite Hot in * by (by right). rewrite (Hot y) in * by (by right).
    by apply (li_pages _ _ Hi p q x y).
Qed.

Lemma block_faults_settled i vid w j r idx blk bw bw' v' :
  let c := lc_fault cfg vid (vr_start r) in
  let w' := mk_loop_world (<[vid := v']> (lw_spaces w)) (bw_ctx bw') (bw_batch bw') in
  loop_inv i w -> vs_ranges (lw_spaces w vid) !! j = Some r -> is_managed r = true -> in_slot r idx blk ->
  bw_block bw = blk -> bw_batch bw = lw_batch w ->
  block_serviced c gpu i bw NV_OK bw' ->
  (forall addr, vb_start blk <= addr <= vb_end blk -> uvm_va_block_find v' addr = (NV_OK, Some (bw_block bw'))) ->
  forall k, k ∈ drop i (bc_ordered b0) -> in_block c blk (entry_at (lw_batch w) k) = true -> settled w' k.
Proof using Hspace Hw0.
  intros c w' Hi Hj Hm Hsl Hblk Hbt Hs Hfind k Hk Hin.
  destruct (serviced_batch i vid w j r idx blk bw NV_OK bw' Hi Hj Hm Hsl Hblk Hbt Hs) as [Hfat _].
  destruct Hs as [_ Hmk _ Hseg _ _ Hw]. rewrite Hblk, Hbt in *. rewrite (ordered_lookup i w Hi) in *.
  destruct (entry_keys i w k Hi) as (Ha & Hac & Hvs).
  destruct (same_key_fields _ _ (md_key _ _ _ _ Hmk k)) as (Ha' & _ & Hvs').
  destruct (in_block_address c _ j r idx blk _ _ k (li_guarded _ _ Hi vid) Hj Hm Hsl Hseg Hk) as (Hvk & Hbd & Hh).
  { rewrite <- Hin. apply in_block_ext; [done|]. apply Hmk. }
  unfold c in Hvk. rewrite Hspace in Hvk. rewrite Ha', Ha in Hbd, Hh.
  intros Hwr Hnf vid' Hv' _. assert (vid' = vid) as -> by congruence.
  destruct (Hw eq_refl k Hk Hin) as [Hf|[Hth|Hd]]; [lia| | |].
  - right; right. split; [done|]. destruct (Hfat k Hf) as [Hc|Hc]; [|done].
    destruct (li_fatal _ _ Hi k Hc) as [Hc'|]; [congruence|done].
  - right; left. destruct (range_find_follows gpu _ _ j r _ (sg_wf _ _ (proj1 (wo_guarded Hw0 vid)))
      (li_follows _ _ Hi vid) Hj Hm Hh) as (r0 & Hr0 & Hst).
    exists r0. split; [done|]. rewrite <- Hst, <- Ha. exact Hth.
  - left. exists (bw_block bw'). cbn. rewrite fn_lookup_insert. split; [by apply Hfind|done].
Qed.

Lemma block_step i h vid w j r blk k b s :
  let a := fe_address (entry_at b0 h) in
  let idx := Z.to_nat (uvm_va_range_block_index r a) in
  loop_inv i w -> lw_batch w = b -> bc_ordered b0 !! i = Some h -> fe_va_space (entry_at b0 h) = Some vid ->
  vs_ranges (lw_spaces w vid) !! j = Some r -> is_managed r = true ->
  guarded gpu blk -> in_slot r idx blk -> vb_start blk <= a <= vb_end blk ->
  (forall b1, vr_blocks r !! idx = Some (Some b1) -> b1 = blk) ->
  wp (service_fault_batch_block service_copy (lc_fault cfg vid (vr_start r)) gpu i (mk_block_work blk k b 0))
    (fun '(st, bw) _ => dispatched i vid w (st, bw_faults bw,
       (put_range j (put_block idx (bw_block bw) r) (lw_spaces w vid), bw_ctx bw, bw_batch bw))) s.
Proof using All.
  intros a idx Hi <- Hh Hv Hj Hm Hgd Hsl Ha Hslot. set (c := lc_fault cfg vid (vr_start r)).
  pose proof (vw_ranges _ (sg_wf _ _ (li_guarded _ _ Hi vid)) r (list_elem_of_lookup_2 _ _ _ Hj) Hm) as Hwf.
  destruct (in_slot_range r idx blk Hwf Hsl) as (Hbr & _).
  destruct (entry_keys i w h Hi) as (Hah & _ & Hvh). pose proof (ordered_lookup i w Hi) as Hord.
  assert (Hib : in_block c blk (entry_at (lw_batch w) h) = true).
  { unfold in_block, c. rewrite Hspace, Hvh, Hv, Hah, bool_decide_eq_true_2 by done. apply Z.leb_le. apply Ha. }
  assert (Hpos : 0 < ft_va_space c).
  { unfold c. rewrite Hspace. destruct (wo_space Hw0 h) as (vid' & Hv' & ?); [by eapply list_elem_of_lookup_2|].
    congruence. }
  set (bw := mk_block_work blk k (lw_batch w) 0).
  eapply wp_mono; [apply (service_fault_batch_block_spec c gpu Hgpu (Hprot vid _) (Hatomic vid _) (Hids vid _)
    service_copy Hcopy i bw)|]; cbn [bw bw_block bw_batch].
  1,2,3,4,5: try done; apply Hgd.
  - rewrite Hord, length_drop. pose proof (wo_length Hw0). lia.
  - apply (seg_ok_suffix c blk _ i h); [|done|by rewrite Hord|done|by rewrite Hah; apply Ha|rewrite Hord; apply Hi].
    eapply ordered_batch_keys; [apply Hi|apply Hw0].
  - intros h'. rewrite Hord, (drop_head i h) by done. by intros [= <-].
  - intros [st bw'] s' Hs. pose proof (bs_follows _ _ _ _ _ _ Hs) as Hf. cbn [bw bw_block] in Hf.
    destruct (put_guarded gpu (lw_spaces w vid) j r idx (bw_block bw')) as (Hg' & Hsf & Hfind); [apply Hi|done|done| | | |].
    { by eapply follows_in_slot. }
    { eapply follows_guarded; [done|done|by apply Hs]. }
    { intros b1 Hb1. by rewrite (Hslot b1 Hb1). }
    destruct (serviced_batch i vid w j r idx blk bw st bw' Hi Hj Hm Hsl eq_refl eq_refl Hs) as [Hfat Hff].
    split.
    + apply (loop_inv_step i w); cbn; [done| | |done| |done].
      * apply insert_space_follows; [apply Hi|done|done].
      * destruct (bs_marked _ _ _ _ _ _ Hs). by split.
      * intros x Hx. apply (bs_other _ _ _ _ _ _ Hs). cbn. rewrite Hord. by left.
    + intros ->. destruct (bs_faults _ _ _ _ _ _ Hs eq_refl) as (l1 & l2 & Hl & Hn & Hin1 & Hin2).
      cbn [bw bw_batch bw_block] in *. rewrite Hord, (drop_head i h) in Hl by done.
      assert (1 <= bw_faults bw').
      { rewrite Hn. destruct l1 as [|x l1]; [|cbn; lia]. cbn in Hl. subst l2. by rewrite (Hin2 h eq_refl) in Hib. }
      split; [done|]. intros p x Hp Hx.
      assert (Hxl : (l1 ++ l2) !! (p - i)%nat = Some x).
      { rewrite <- Hl, <- (drop_head i h), lookup_drop by done. by replace (i + (p - i))%nat with p by lia. }
      rewrite lookup_app_l in Hxl by lia. apply list_elem_of_lookup_2 in Hxl.
      refine (block_faults_settled i vid w j r idx blk bw bw' _ Hi Hj Hm Hsl eq_refl eq_refl Hs _ x _ _).
      * intros addr Haddr. apply Hfind. by rewrite (fo_start _ _ _ Hf), (fo_end _ _ _ Hf).
      * rewrite (drop_head i h) by done. rewrite Hl. set_solver.
      * by apply Hin1.
Qed.

Lemma block_present i w vid addr blk :
  loop_inv i w -> uvm_va_block_find (lw_spaces w0 vid) addr = (NV_OK, Some blk) ->
  exists j r b, uvm_va_space_iter_first (lw_spaces w vid) addr (2 ^ 64 - 1) = Some (j, r) /\ is_managed r = true /\
    range_holds addr r = true /\ vr_blocks r !! Z.to_nat (uvm_va_range_block_index r addr) = Some (Some b).
Proof.
  intros Hi Hf. pose proof (sg_wf _ _ (li_guarded _ _ Hi vid)) as Hwf.
  destruct (block_find_follows gpu _ _ _ _ Hwf (li_follows _ _ Hi vid) Hf) as (b & Hb & _).
  apply block_find_inv in Hb as (j & r & _ & Hj & Hm & Ha & Hs). exists j, r, b.
  by rewrite (iter_first_managed _ Hwf j r).
Qed.

Lemma dispatch_spec i h vid w k s :
  loop_inv i w -> bc_ordered b0 !! i = Some h -> fe_va_space (entry_at b0 h) = Some vid ->
  wp (service_fault_batch_dispatch service_copy cfg gpu (lw_spaces w vid) i k (lw_batch w))
    (fun r _ => dispatched i vid w r) s.
Proof using All.
  intros Hi Hh Hv. destruct (entry_keys i w h Hi) as (Ha & _ & _).
  unfold service_fault_batch_dispatch. rewrite (ordered_at_lookup _ i h) by (by rewrite (ordered_lookup i w Hi)).
  rewrite Ha. set (a := fe_address (entry_at b0 h)).
  assert (Hid : vs_id (lw_spaces w vid) = vid)
    by (rewrite (sf_id _ _ _ (li_follows _ _ Hi vid)); apply (wo_guarded Hw0)).
  destruct (uvm_va_space_iter_first (lw_spaces w vid) a (2 ^ 64 - 1)) as [[j r]|] eqn:Hit.
  2:{ apply wp_ret. apply (cancel_spec i h vid w k Hi Hh Hv). intros blk Hf.
      destruct (block_present _ _ _ _ _ Hi Hf) as (j & r & b & Hc & _). fold a in Hc. congruence. }
  apply wp_if; intros Hst.
  2:{ apply wp_ret. apply (cancel_spec i h vid w k Hi Hh Hv). intros blk Hf.
      destruct (block_present _ _ _ _ _ Hi Hf) as (j' & r' & b & Hc & _ & Hho & _). fold a in Hc, Hho.
      rewrite Hit in Hc. injection Hc as <- <-. unfold range_holds in Hho. btest. }
  apply list_find_Some in Hit as Hit'. destruct Hit' as (Hj & Hend & _).
  assert (Hho : range_holds a r = true).
  { unfold range_holds. apply andb_prop in Hend as [_ Hend]. by rewrite Hst, Hend. }
  set (b := bc_assert _ (lw_batch w)). assert (Hi' : loop_inv i (lw_set_batch b w)) by (by apply loop_inv_batch).
  rewrite Hid. apply wp_bind. eapply wp_mono.
  { apply (find_create_spec gpu Hgpu Htests (lw_spaces w vid) j r a (lc_race cfg vid a)); [apply Hi|done|done|].
    intros Hm blk Hr. by apply (race_ok i w vid j r a). }
  intros [[st ob] r'] s' [(blk & -> & -> & Hm & -> & Hgd & Hsl & Hbd & Hold)|(-> & -> & Hno)].
  - apply wp_bind. change (vr_start (put_block _ blk r)) with (vr_start r).
    eapply wp_mono; [by apply (block_step i h vid (lw_set_batch b w) j r blk k b)|].
    intros [st bw] s'' Hd. apply wp_ret.
    replace (put_block _ (bw_block bw) (put_block _ blk r)) with
      (put_block (Z.to_nat (uvm_va_range_block_index r a)) (bw_block bw) r); [exact Hd|].
    unfold put_block. cbn. unfold vr_set_blocks. cbn. f_equal. by rewrite list_insert_insert_eq.
  - assert (Hc : dispatched i vid (lw_set_batch b w) (NV_OK, 1, (lw_spaces w vid, k,
        service_fault_batch_fatal_notify i UVM_FAULT_CANCEL_VA_MODE_ALL b))).
    { apply (cancel_spec i h vid (lw_set_batch b w) k Hi' Hh Hv). intros blk Hf.
      destruct (block_present _ _ _ _ _ Hi Hf) as (j' & r1 & b1 & Hc & Hm & _ & Hs).
      fold a in Hc, Hs. rewrite Hit in Hc. injection Hc as <- <-. by apply (Hno b1). }
    destruct st; by apply wp_ret.
Qed.

(** ** The loop *)

Lemma push_replay_spec b s : wp (push_replay b) (fun '(_, b') _ => same_entries b b') s.
Proof.
  unfold push_replay. apply wp_bind, wp_any. intros a s1. apply wp_bind, wp_any. intros a' s2.
  unfold push_replay_on_gpu. destruct (negb (is_ok _)); by apply wp_ret.
Qed.

Lemma replay_block_spec r b s : wp (replay_block r b) (fun '(_, b') _ => same_entries b b') s.
Proof. unfold replay_block. apply wp_if; intros _; [apply push_replay_spec|by apply wp_ret]. Qed.

Lemma skip_fatal_entries i va b : same_entries b (skip_fatal i va b).
Proof. unfold skip_fatal. by destruct (bc_fatal_space b). Qed.

(** A skipped fault is fatal, or of a VA space the GPU is not registered in. *)
Lemma skip_settled i h vid w b :
  loop_inv i w -> bc_ordered b0 !! i = Some h -> fe_va_space (entry_at b0 h) = Some vid ->
  same_entries (lw_batch w) b ->
  fe_is_fatal (entry_at (lw_batch w) h) = true \/ lc_gpu_va_space cfg vid = false ->
  loop_inv (S i) (lw_set_batch b w).
Proof using All.
  intros Hi Hh Hv Hs Hor. replace (S i) with (i + 1)%nat by lia.
  apply loop_inv_advance; [by apply loop_inv_batch|]. intros p x Hp Hx. assert (p = i) as -> by lia.
  assert (x = h) as -> by congruence. intros _ Hnf vid' Hv' Hg. right; right. cbn.
  unfold entry_at. rewrite (proj1 Hs). fold (entry_at (lw_batch w) h).
  destruct Hor as [Hf|Hf]; [|congruence]. split; [done|].
  destruct (li_fatal _ _ Hi h Hf) as [Hc|Hc]; [congruence|done].
Qed.

Definition loop_result (r : option (nv_status * Z * loop_world)) (s : kst) : Prop :=
  exists st va w i, r = Some (st, va, w) /\ locked va s /\ loop_inv i w /\
    (st = NV_OK -> (length (bc_ordered b0) <= i)%nat).

Lemma loop_result_ret i st va w s :
  locked va s -> loop_inv i w -> (st = NV_OK -> (length (bc_ordered b0) <= i)%nat) ->
  wp (kret (Some (st, va, w))) loop_result s.
Proof. intros Hs Hi Hst. apply wp_ret. by exists st, va, w, i. Qed.

Lemma service_loop_spec replay fuel : forall retries i va w s,
  locked va s -> loop_inv i w -> (length (bc_ordered b0) - i + retries <= fuel)%nat ->
  wp (service_loop service_copy cfg gpu fuel retries replay i va w) loop_result s.
Proof using All.
  induction fuel as [|fuel IH]; intros retries i va w s Hs Hi Hfuel; cbn [service_loop];
    rewrite (ordered_lookup i w Hi); apply wp_if; intros Hend.
  1,3: apply Nat.leb_le in Hend; by apply (loop_result_ret i).
  { apply Nat.leb_gt in Hend. lia. }
  apply Nat.leb_gt in Hend. destruct (lookup_lt_is_Some_2 _ _ Hend) as [h Hh].
  destruct (wo_space Hw0 h) as (vid & Hv & Hpos); [by eapply list_elem_of_lookup_2|].
  destruct (entry_keys i w h Hi) as (_ & _ & Hvh). rewrite (ordered_at_lookup _ i h) by (by rewrite (ordered_lookup i w Hi)).
  rewrite Hvh, Hv. cbn [default]. set (b := bc_assert _ (lw_batch w)).
  assert (Hi1 : loop_inv i (lw_set_batch b w)) by (by apply loop_inv_batch).
  apply wp_bind. eapply wp_mono; [by apply switch_spec|]. intros [st va'] s1 [Hva Hs1].
  apply wp_if; intros Hst; bprop; [by apply (loop_result_ret i)|]. rewrite (Hva Hst) in *. clear va' Hva.
  apply wp_if; intros Hf.
  { apply IH; [done| |lia]. apply (skip_settled i h vid w); [done|done|done| |by left]. apply (skip_fatal_entries i vid b). }
  apply wp_if; intros Hg; bprop; [apply IH; [done| |lia]; apply (skip_settled i h vid w); auto; done|].
  pose proof (space_locks_pos vid Hpos) as Hl.
  apply wp_bind. eapply wp_mono.
  { apply wp_and; [by apply (dispatch_spec i h vid (lw_set_batch b w))|].
    apply (wp_locked vid vid); [rewrite Hl; by apply (dispatch_lock cfg gpu service_copy)|done|]. intros a s2 Hs2. exact Hs2. }
  intros [[st1 n] [[v k] b1]] s2 [[Hi2 Hok] Hs2]. cbv beta in Hs2. set (w1 := mk_loop_world _ k b1) in *.
  apply wp_if; intros Hret.
  { destruct retries as [|retries]; [apply (loop_result_ret i); [done|done|]|].
    - intros ->. by unfold asks_retry in Hret.
    - apply wp_bind. apply (wp_locked vid 0); [rewrite Hl; apply lock_rel; set_solver|done|].
      intros _ s3 Hs3. apply IH; [done|done|lia]. }
  apply wp_if; intros Hst1; bprop; [by apply (loop_result_ret i)|]. destruct (Hok Hst1) as [Hn Hset].
  apply wp_bind. eapply wp_mono.
  { apply wp_and; [apply replay_block_spec|]. apply (wp_locked vid vid); [apply replay_block_lock|done|].
    intros a s3 Hs3. exact Hs3. }
  intros [st2 b2] s3 [Hb2 Hs3]. cbv beta in Hs3.
  apply wp_if; intros Hst2; bprop; [apply (loop_result_ret i); [done|by apply (loop_inv_batch i w1)|done]|].
  apply IH; [done| |lia]. apply (loop_inv_batch _ w1); [by apply loop_inv_advance|done].
Qed.

Lemma loop_inv_start : loop_inv start w0.
Proof using Hw0.
  split; [apply Hw0|done|done|by left| |lia]. apply ordered_by_drop, Hw0.
Qed.
End Loop.

(** ** The theorems *)

Section Batch.
Context `{FaultCodes} `{E : Env} (cfg : loop_cfg) (gpu : Z) (Hgpu : 0 < gpu) (Htests : env_tests = false).
Context (Hprot : forall v r t, UVM_FAULT_ACCESS_TYPE_WRITE <= t ->
                   writable (sv_access_prot (ft_service (lc_fault cfg v r)) t) = true).
Context (Hatomic : forall v r, sv_atomic_strong (ft_service (lc_fault cfg v r)) = UVM_FAULT_ACCESS_TYPE_ATOMIC_STRONG).
Context (Hids : forall v r, processors_ok (ft_service (lc_fault cfg v r))).
Context (Hspace : forall v r, ft_va_space (lc_fault cfg v r) = v).
Context (service_copy : Z -> Z -> block_ctx -> va_block -> K (nv_status * va_block * gset Z)).
Context (Hcopy : forall r k b s, perm_wf b ->
  wp (service_copy gpu r k b) (fun '(_, b', _) _ => follows gpu b b') s).
Context (Hcopy_lock : forall ls p r k b, LockSpec ls (service_copy p r k b) ls).

(** What servicing the batch ends with. *)
Record batch_serviced (w0 : loop_world) (st : nv_status) (w : loop_world) : Prop := {
  bd_guarded : forall vid, space_guarded gpu (lw_spaces w vid);
  bd_follows : forall vid, space_follows gpu (lw_spaces w0 vid) (lw_spaces w vid);
  bd_keys    : same_keys (lw_batch w0) (lw_batch w);
  bd_fatal   : forall k, fe_is_fatal (entry_at (lw_batch w) k) = true ->
                 fe_is_fatal (entry_at (lw_batch w0) k) = true \/ refused cfg gpu w0 (entry_at (lw_batch w0) k);
  bd_settled : st = NV_OK -> forall k, k ∈ bc_ordered (lw_batch w0) -> settled cfg gpu w0 w k;
}.

Lemma service_fault_batch_spec w0 mode s :
  world_ok cfg gpu w0 -> locked 0 s ->
  wp (service_fault_batch service_copy cfg gpu mode w0)
    (fun r s' => locked 0 s' /\ exists st w, r = Some (st, w) /\ batch_serviced w0 st w) s.
Proof using All.
  intros Hw0 Hs0. unfold service_fault_batch. apply wp_bind. eapply wp_mono.
  { apply (service_loop_spec cfg gpu Hgpu Htests Hprot Hatomic Hids Hspace service_copy Hcopy Hcopy_lock w0 0%nat);
      [done|done|by apply (loop_inv_start cfg gpu w0 0%nat)|lia]. }
  intros r s1 (st & va & w & i & -> & Hs1 & Hi & Hend). apply wp_bind.
  apply (wp_locked va va); [apply lock_if; [apply lock_ext_status|apply lock_ret]|done|]. intros st' s2 Hs2.
  apply wp_bind. apply (wp_locked va 0); [|done|].
  { unfold space_locks. destruct (Z.eqb_spec va 0); [apply lock_ret|apply lock_rel; set_solver]. }
  intros _ s3 Hs3. apply wp_ret. split; [done|]. eexists _, w. split; [done|].
  split; [apply Hi|apply Hi|apply Hi|apply Hi|]. intros Hst k [p Hp]%list_elem_of_lookup_1.
  destruct (is_ok st) eqn:Hok; [apply is_ok_true in Hok|by rewrite Hst in Hok].
  specialize (Hend Hok). pose proof (lookup_lt_Some _ _ _ Hp).
  apply (li_done _ _ _ _ _ _ Hi p k); [lia|done].
Qed.
(** C11: Servicing a batch ends with every lock released and every space guarded,
    gone forward from what it was; an entry becomes fatal only if the range or its
    permissions refuse it; and status OK means that every fault of the view is
    settled: denied, throttled, or its block dirty when it writes. *)
Theorem service_fault_batch_correct w0 mode s :
  world_ok cfg gpu w0 -> k_locks s = [] -> k_lock_bug s = false ->
  exists st w, fst (service_fault_batch service_copy cfg gpu mode w0 s) = Some (st, w) /\
    k_locks (snd (service_fault_batch service_copy cfg gpu mode w0 s)) = [] /\
    k_lock_bug (snd (service_fault_batch service_copy cfg gpu mode w0 s)) = false /\
    (forall vid, space_guarded gpu (lw_spaces w vid) /\ space_follows gpu (lw_spaces w0 vid) (lw_spaces w vid)) /\
    (forall k, fe_is_fatal (entry_at (lw_batch w) k) = true ->
       fe_is_fatal (entry_at (lw_batch w0) k) = true \/ refused cfg gpu w0 (entry_at (lw_batch w0) k)) /\
    (st = NV_OK -> forall k, k ∈ bc_ordered (lw_batch w0) -> settled cfg gpu w0 w k).
Proof using All.
  intros Hw Hl Hb.
  destruct (service_fault_batch_spec w0 mode s Hw) as ([Hl' Hb'] & st & w & Hr & [H1 H2 _ H4 H5]); [done|].
  exists st, w. by split_and!.
Qed.

(** From the fault buffer. *)
Context `{KernelSort} (calls : translate_calls) (hw : fault_hw).
Context (Hvs : forall e e', same_instance e e' -> tc_to_va_space calls e = tc_to_va_space calls e').
Context (Hsome : forall e, fst (tc_to_va_space calls e) = NV_OK ->
                   exists vid, snd (tc_to_va_space calls e) = Some vid /\ 0 < vid).
Context (Hcodes : forall i, fe_access (snd (hw_parse hw i)) < UVM_FAULT_ACCESS_TYPE_COUNT).

Lemma cached_core fb b i e :
  cached hw fb b -> bc_cache b !! i = Some e -> fe_core e = fe_core (fault_at hw fb (Z.of_nat i)).
Proof.
  intros Hc Hi. assert (Hl : (fe_core <$> bc_cache b) !! i = Some (fe_core e)) by by rewrite list_lookup_fmap, Hi.
  rewrite Hc in Hl. unfold ring_cores in Hl. apply list_lookup_fmap_Some in Hl as (k & Hk & Hl).
  by apply lookup_seqZ in Hl as [-> _].
Qed.

(** No page has both a fault of a fatal type and one of another type, which the
    code relies on. *)
Definition unmixed (fb : fault_buffer) (n : Z) : Prop :=
  forall i j, 0 <= i < n -> 0 <= j < n ->
    fe_address (fault_at hw fb i) = fe_address (fault_at hw fb j) ->
    tc_to_va_space calls (fault_at hw fb i) = tc_to_va_space calls (fault_at hw fb j) ->
    fe_is_fatal (fault_at hw fb i) = fe_is_fatal (fault_at hw fb j).

(** An entry of the view, as the fault it stands for. *)
Record view_entry (fb : fault_buffer) (b1 b2 : batch) (i : nat) : Prop := {
  ve_range  : 0 <= Z.of_nat i < Z.of_nat (length (bc_cache b1));
  ve_packet : fe_packet (entry_at b2 i) = fe_packet (fault_at hw fb (Z.of_nat i));
  ve_fatal  : fe_is_fatal (entry_at b2 i) = fe_is_fatal (fault_at hw fb (Z.of_nat i));
  ve_space  : tc_to_va_space calls (fault_at hw fb (Z.of_nat i)) = (NV_OK, fe_va_space (entry_at b2 i));
}.

Lemma view_entry_spec fb b1 b2 i :
  cached hw fb b1 -> preprocessed calls b1 b2 -> i ∈ bc_ordered b2 -> view_entry fb b1 b2 i.
Proof using Hvs.
  intros Hc [_ Ho _ He _ Hcov] Hi. rewrite Ho, elem_of_representatives in Hi. destruct Hi as (e & Hi & Hu).
  pose proof (He i e Hi) as Hi2. rewrite Hu in Hi2. pose proof (cached_core _ _ _ _ Hc Hi) as Hcore.
  pose proof (lookup_lt_Some _ _ _ Hi). injection Hcore as Hp Hf _.
  assert (Hb2 : entry_at b2 i = translated calls e) by (by apply entry_at_lookup).
  destruct (Hcov e (list_elem_of_lookup_2 _ _ _ Hi)) as (j & r & _ & _ & _ & Htc).
  assert (Htc' : tc_to_va_space calls (fault_at hw fb (Z.of_nat i)) = tc_to_va_space calls e).
  { apply Hvs. unfold same_instance. by rewrite Hp. }
  split; [lia|by rewrite Hb2|by rewrite Hb2|]. rewrite Htc', Hb2. cbn. by rewrite Htc.
Qed.

(** The world the loop starts from, once its batch is preprocessed. *)
Record spaces_ok (w0 : loop_world) : Prop := {
  so_guarded : forall vid, space_guarded gpu (lw_spaces w0 vid) /\ vs_id (lw_spaces w0 vid) = vid;
  so_race    : forall vid r addr b, r ∈ vs_ranges (lw_spaces w0 vid) -> is_managed r = true ->
                 range_holds addr r = true -> lc_race cfg vid addr = Some b ->
                 guarded gpu b /\ in_slot r (Z.to_nat (uvm_va_range_block_index r addr)) b;
}.

Lemma preprocessed_world fb b1 w0 :
  spaces_ok w0 -> cached hw fb b1 -> preprocessed calls b1 (lw_batch w0) ->
  Z.of_nat (length (bc_cache b1)) < 2 ^ 32 -> unmixed fb (Z.of_nat (length (bc_cache b1))) ->
  world_ok cfg gpu w0.
Proof using Hvs Hsome Hcodes.
  intros [Hg Hr] Hc Hp Hn Hm. set (b2 := lw_batch w0) in *.
  destruct (preprocessed_ordered calls hw Hcodes fb b1 b2 Hc Hp) as [Hob Hlen].
  split; [done|done|fold b2; lia| | |done].
  - intros k Hk. destruct (view_entry_spec fb b1 b2 k Hc Hp Hk) as [_ _ _ Hs].
    destruct (Hsome (fault_at hw fb (Z.of_nat k))) as (vid & Hv & Hpos); [by rewrite Hs|].
    rewrite Hs in Hv. by exists vid.
  - intros p q i j _ Hi%list_elem_of_lookup_2 Hj%list_elem_of_lookup_2 [Hs1 Hs2] Hf.
    destruct (view_entry_spec fb b1 b2 i Hc Hp Hi) as [Hi1 Hi2 Hi3 Hi4].
    destruct (view_entry_spec fb b1 b2 j Hc Hp Hj) as [Hj1 Hj2 Hj3 Hj4].
    fold b2 in Hf, Hs1, Hs2 |- *. rewrite Hi3. rewrite Hj3 in Hf. rewrite <- Hf. apply Hm; [done|done| |congruence].
    unfold fe_address in *. by rewrite <- Hi2, <- Hj2.
Qed.

(** C2: From the fault buffer to the dirty flag: after a batch is fetched and
    preprocessed, servicing it with status OK leaves no write or atomic fault of
    the buffer unreported, whichever fault it was coalesced with: the block of its
    address is dirty, or its page is throttled, or its range does not permit an
    access at least as strong, or the address had no block to be dirtied. *)
Theorem batch_writes_reported coalesce cancel_va fetch_mode fb b0 st1 fb1 b1 fb2 w0 mode s :
  fb_wf fb -> hw_wf fb hw -> 0 <= hw_put (tc_hw calls) < fb_max_faults fb -> batch_wf b0 ->
  fetch_fault_buffer_entries hw coalesce cancel_va fetch_mode fb b0 = Some (st1, fb1, b1) ->
  bc_cache b1 <> [] -> preprocess_fault_batch calls fb1 b1 = Some (NV_OK, fb2, lw_batch w0) ->
  spaces_ok w0 -> unmixed fb (Z.of_nat (length (bc_cache b1))) -> k_locks s = [] -> k_lock_bug s = false ->
  exists st w, fst (service_fault_batch service_copy cfg gpu mode w0 s) = Some (st, w) /\
    (st = NV_OK -> forall k, 0 <= k < Z.of_nat (length (bc_cache b1)) ->
       let e := fault_at hw fb k in
       forall vid, tc_to_va_space calls e = (NV_OK, Some vid) -> lc_gpu_va_space cfg vid = true ->
       fe_is_fatal e = false -> UVM_FAULT_ACCESS_TYPE_WRITE <= fe_access e ->
       (exists b, uvm_va_block_find (lw_spaces w vid) (fe_address e) = (NV_OK, Some b) /\ vb_dirty b = true) \/
       (exists r, uvm_va_range_find (lw_spaces w0 vid) (fe_address e) = Some r /\
          (ft_thrashing (lc_fault cfg vid (vr_start r)) (fe_address e) = UVM_PERF_THRASHING_HINT_TYPE_THROTTLE \/
           exists t, fe_access e <= t /\ uvm_va_block_check_logical_permissions (lc_fault cfg vid (vr_start r)) gpu t
             (ft_migratable (lc_fault cfg vid (vr_start r)) (fe_address e)) <> NV_OK)) \/
       (forall b, uvm_va_block_find (lw_spaces w0 vid) (fe_address e) <> (NV_OK, Some b))).
Proof using All.
  intros Hfb Hhw Hput Hb0 Hfetch Hne Hpre Hsp Hmix Hl Hlb. set (b2 := lw_batch w0) in *.
  destruct (fetch_fault_buffer_entries_spec hw coalesce cancel_va fetch_mode fb b0 Hfb Hhw Hb0)
    as (st & fb' & b & Heq & Hwf1 & _ & Hmax & _ & Hn & Hcore & _ & _ & Hi).
  rewrite Hfetch in Heq. injection Heq as <- <- <-. fold (cached hw fb b1) in Hcore.
  assert (Hlt : Z.of_nat (length (bc_cache b1)) < 2 ^ 32)
    by (pose proof (distance_range fb1 (fw_max _ Hwf1) (fb_get fb)); pose proof (fw_max _ Hwf1); lia).
  rewrite <- Hmax in Hput.
  assert (Hsome' : forall e, fst (tc_to_va_space calls e) = NV_OK -> is_Some (snd (tc_to_va_space calls e)))
    by (intros e He; destruct (Hsome e He) as (vid & Hv & _); eauto).
  destruct (preprocess_fault_batch_spec calls Hvs Hsome' fb1 b1 Hwf1 Hput Hi Hne) as (st' & fb' & b' & Heq & Hpp).
  rewrite Hpre in Heq. injection Heq as <- <- <-. destruct (Hpp eq_refl) as [_ Hp]. clear Hpp.
  pose proof (preprocessed_world fb b1 w0 Hsp Hcore Hp Hlt Hmix) as Hw.
  destruct (service_fault_batch_spec w0 mode s Hw) as (_ & st & w & Hr & [_ _ _ _ Hset]); [done|].
  exists st, w. split; [done|]. intros Hst k Hk e vid Htc Hgv Hnf Hwr.
  destruct (lookup_lt_is_Some_2 (bc_cache b1) (Z.to_nat k) ltac:(lia)) as [x Hx].
  pose proof (cached_core _ _ _ _ Hcore Hx) as Hxc. rewrite Z2Nat.id in Hxc by lia. fold e in Hxc. injection Hxc as Hxp Hxf _.
  destruct (pp_cover _ _ _ Hp x (list_elem_of_lookup_2 _ _ _ Hx)) as (i & r & Hio & Hir & (Hsi & Hadr & Hacc) & Hvr).
  pose proof (entry_at_lookup _ _ _ Hir) as Her. fold b2 in Her, Hio.
  assert (Hxa : fe_address x = fe_address e /\ fe_access x = fe_access e) by (unfold fe_address, fe_access; by rewrite Hxp).
  destruct Hxa as [Hxa Hxt]. rewrite (Hvs x e), Htc in Hvr by (unfold same_instance; by rewrite Hxp).
  injection Hvr as Hvr. destruct (view_entry_spec fb b1 b2 i Hcore Hp Hio) as [Hi1 Hi2 Hi3 Hi4]. rewrite Her in *.
  assert (Hrf : fe_is_fatal r = false).
  { rewrite Hi3, <- Hnf. apply Hmix; [done|done| |by fold e; rewrite Hi4, Htc, Hvr].
    fold e. unfold fe_address in *. rewrite <- Hi2. congruence. }
  pose proof (Hset Hst i Hio) as Hs. unfold settled in Hs. fold b2 in Hs. rewrite Her in Hs.
  assert (Hra : fe_address r = fe_address e) by congruence. rewrite Hra in Hs.
  destruct (Hs ltac:(lia) Hrf vid (eq_sym Hvr) Hgv) as [Hc|[(rg & Hrg & Hth)|[_ Href]]].
  - by left.
  - right; left. exists rg. auto.
  - destruct (Href vid (eq_sym Hvr)) as [(rg & Hrg & Hd)|Hno]; rewrite Hra in *; [|by right; right].
    right; left. exists rg. split; [done|]. right. exists (fe_access r). split; [lia|].
    unfold denied in Hd. by rewrite Hra in Hd.
Qed.
End Batch.
