(* ===== verification/CpuFault.v ===== *)
(** CPU page faults on a managed block ([uvm_va_block_cpu_fault] of
    [uvm_va_block.c]): the check of the permissions, faults on pages the CPU may
    already access, throttling, the new residency, and the servicing itself, which
    is the one of GPU faults with the CPU as the processor.

    [fault_cfg] gives the heuristics as they answer for the CPU; the time a
    throttled fault has to sleep, and what the tools and the ECC checks see, are
    left out. *)
From stdpp Require Import functions sorting.
From S2P Require Import Prelude Kernel VaBlock Permissions Tracking Accessors Service FaultBuffer FaultBatch FaultService FaultSpace FaultLoop FaultLoopSpec.

(** [cpu.fault_authorized]: the first fault of a window on a page the CPU may
    already access; no window is open while the stamp is 0. *)
Record fault_authorized := mk_fault_authorized {
  fa_first_fault_stamp : Z;
  fa_first_pid         : Z;
  fa_page_index        : Z;
}.

(** The block, its [fault_authorized] and the service context. *)
Record cpu_work := mk_cpu_work {
  cw_block : va_block;
  cw_auth  : fault_authorized;
  cw_ctx   : block_ctx;
}.
Definition cw_set_auth (a : fault_authorized) (w : cpu_work) : cpu_work :=
  mk_cpu_work (cw_block w) a (cw_ctx w).

Section CpuFault.
Context `{FaultCodes} `{E : Env}.
Context (service_copy : Z -> Z -> block_ctx -> va_block -> K (nv_status * va_block * gset Z)).
(** [time]: NV_GETTIME; [pid]: current->pid; [window]:
    uvm_perf_authorized_cpu_fault_tracking_window_ns. *)
Context (cfg : fault_cfg) (time : N -> Z) (pid window : Z).

Definition block_page_is_cpu_authorized (b : va_block) (page_index : Z) (required_prot : uvm_prot) : bool :=
  bool_decide (page_index ∈ (if writable required_prot then vb_cpu_pte_write b else vb_cpu_pte_read b)).

(** Whether the fault can be skipped. *)
Definition skip_cpu_fault_with_valid_permissions (page_index access : Z) (w : cpu_work) : K (bool * cpu_work) :=
  let a := cw_auth w in
  if block_page_is_cpu_authorized (cw_block w) page_index (sv_access_prot (ft_service cfg) access) then
    n ← tick;
    let now := time n in
    if fa_first_fault_stamp a =? 0 then kret (true, cw_set_auth (mk_fault_authorized now pid page_index) w)
    else if (fa_first_pid a =? pid) && (fa_page_index a =? page_index)
    then kret (false, cw_set_auth (mk_fault_authorized 0 (fa_first_pid a) (fa_page_index a)) w)
    else if window <? u64 (now - fa_first_fault_stamp a)
    then kret (false, cw_set_auth (mk_fault_authorized 0 (fa_first_pid a) (fa_page_index a)) w)
    else kret (true, w)
  else kret (false, w).

(** The context of a fault on one page: the new residency, alone. *)
Definition cpu_fault_ctx (b : va_block) (page_index access : Z) (hint : thrashing_hint) (k : block_ctx) : block_ctx :=
  let k := bk_set_dups 0 (bk_dup_mask k) (bk_set_pins 0 (bk_pin_mask k) k) in
  let k := match hint with UVM_PERF_THRASHING_HINT_TYPE_PIN _ => bk_set_pins 1 {[page_index]} k | _ => k end in
  let '(new_residency, read_duplicate) :=
    uvm_va_block_select_residency cfg b page_index UVM_ID_CPU {[access]} hint in
  let k := bk_set_residency {[new_residency]} (<[new_residency := {[page_index]}]> (bk_residency k)) k in
  let k := if read_duplicate then bk_set_dups 1 {[page_index]} k else k in
  let k := bk_set_access (<[page_index := access]> (bk_access k)) k in
  bk_set_region (mk_region page_index (page_index + 1)) k.

Definition block_cpu_fault_locked (fault_addr access : Z) (w : cpu_work) : K (nv_status * cpu_work) :=
  let b := cw_block w in
  let page_index := uvm_va_block_cpu_page_index b fault_addr in
  let status := uvm_va_block_check_logical_permissions cfg UVM_ID_CPU access (ft_migratable cfg fault_addr) in
  if negb (is_ok status) then kret (status, w)
  else
    '(skip, w) ← skip_cpu_fault_with_valid_permissions page_index access w;
    if (skip : bool) then kret (NV_OK, w)
    else
      let hint := ft_thrashing cfg fault_addr in
      if bool_decide (hint = UVM_PERF_THRASHING_HINT_TYPE_THROTTLE)
      then kret (NV_WARN_MORE_PROCESSING_REQUIRED, w)
      else
        '(status, b, k) ← uvm_va_block_service_locked service_copy cfg UVM_ID_CPU b
                            (cpu_fault_ctx b page_index access hint (cw_ctx w));
        kret (status, mk_cpu_work b (cw_auth w) (bk_set_retries (u32 (bk_retries k + 1)) k)).

Definition uvm_va_block_cpu_fault (fault_addr : Z) (is_write : bool) (w : cpu_work) : K (nv_status * cpu_work) :=
  let access := if is_write then UVM_FAULT_ACCESS_TYPE_ATOMIC_STRONG else UVM_FAULT_ACCESS_TYPE_READ in
  let w := mk_cpu_work (cw_block w) (cw_auth w) (bk_set_retries 0 (cw_ctx w)) in
  let lock := LBlock (vb_start (cw_block w)) in
  lock_acquire lock;;
  '(status, w) ← retry_loop env_retries (block_cpu_fault_locked fault_addr access) w;
  lock_release lock;;
  kret (status, w).
End CpuFault.

(** ** What a CPU fault keeps *)

Section CpuServiced.
Context (cfg : fault_cfg).

(** The GPUs that step 4 may map, at some residency. *)
Definition mapped_with_cpu (g : Z) : Prop := exists new_residency, maps_later (ft_service cfg) new_residency g.

(** What a CPU fault on the pages [R] may do to a block. *)
Record cpu_serviced (R : Z -> Prop) (b b' : va_block) : Prop := {
  cf_serviced : serviced mapped_with_cpu UVM_ID_CPU b b';
  cf_gains    : forall g page, 0 < g -> page ∈ prot_pages b' g UVM_PROT_READ_WRITE ->
    page ∈ prot_pages b g UVM_PROT_READ_WRITE \/ mapped_with_cpu g /\ R page;
}.

#[export] Instance cpu_serviced_preorder R : PreOrder (cpu_serviced R).
Proof.
  split; [split; [done|tauto]|]. intros b1 b2 b3 [H1 G1] [H2 G2].
  split; [by etransitivity|]. intros g page Hg Hp. destruct (G2 g page Hg Hp); auto.
Qed.

End CpuServiced.

Section Kept.
Context `{FaultCodes} `{E : Env}.
Context (service_copy : Z -> Z -> block_ctx -> va_block -> K (nv_status * va_block * gset Z)).
Context (cfg : fault_cfg) (time : N -> Z) (pid window : Z).
Context (Hids : processors_ok (ft_service cfg)).
(** Moving pages for the CPU takes permissions from GPUs only. *)
Context (Hcopy : forall r k b s, perm_wf b ->
  wp (service_copy UVM_ID_CPU r k b) (fun '(_, b', _) _ => serviced (fun _ => False) UVM_ID_CPU b b') s).

(** Nothing is recorded for the CPU, and the region is not extended. *)
Lemma cpu_finish_serviced (R : Z -> Prop) pins b c s :
  perm_wf b -> (forall page, page ∈ region_mask (sc_region c) -> R page) ->
  wp (uvm_va_block_service_finish (sv_with_pins pins (ft_service cfg)) UVM_ID_CPU b c)
    (fun '(_, b', c') _ => cpu_serviced cfg R b b' /\ sc_region c' = sc_region c) s.
Proof using Hids.
  intros Hwf HR. set (sv := sv_with_pins pins (ft_service cfg)).
  assert (processors_ok sv) as Hsv by (destruct Hids; by constructor).
  assert (sc_region (finish_context sv UVM_ID_CPU b c) = sc_region c) as Hrg.
  { unfold finish_context, service_bulk_restore, UVM_ID_IS_GPU. cbn [UVM_ID_CPU Z.ltb].
    rewrite andb_false_r. apply compute_mappings_frame. }
  eapply wp_mono; [by apply (service_finish_spec sv)|].
  intros [[st b'] c'] s' [(_ & -> & ->)|(-> & b1 & [Hs Hg] & Hb1)]; [done|].
  unfold UVM_ID_IS_GPU in Hb1. cbn in Hb1. rewrite andb_false_r in Hb1. subst b1. split; [|done].
  assert (forall g, maps_later sv (sc_new_residency c) g -> mapped_with_cpu cfg g) as HM by (intros g; by exists (sc_new_residency c)).
  split; [by eapply serviced_weaken|]. intros g page Hg0 Hpage.
  assert (page ∈ write_pages (finish_context sv UVM_ID_CPU b c) \/
    page ∈ serviced_pages (finish_context sv UVM_ID_CPU b c) -> R page) as Hpages.
  { unfold write_pages, serviced_pages. rewrite Hrg, !elem_of_intersection. intros [[Hin _]|[Hin _]]; auto. }
  destruct (Hg g page Hg0 Hpage) as [Hold|[[[->|HMg] HW]|(_ & HMg & _ & HV)]]; [by left|destruct (Z.lt_irrefl 0 Hg0)|right; auto..].
Qed.

Lemma cpu_residency_serviced (R : Z -> Prop) bk r s :
  perm_wf bk.1 -> (forall page, page ∈ region_mask (bk_region bk.2) -> R page) ->
  wp (service_residency service_copy cfg UVM_ID_CPU bk r)
    (fun res _ => cpu_serviced cfg R bk.1 res.2.1 /\ bk_region res.2.2 = bk_region bk.2) s.
Proof using Hids Hcopy.
  destruct bk as [b k]. intros Hwf HR. unfold service_residency. apply wp_bind. eapply wp_mono; [by apply Hcopy|].
  intros [[st b1] did] s1 Hb1.
  assert (cpu_serviced cfg R b b1) as Hc1.
  { split; [by apply serviced_none|]. intros g page Hg Hp. left.
    by apply (sd_others _ _ _ _ Hb1 g UVM_PROT_READ_WRITE Hg ltac:(intros ->; destruct (Z.lt_irrefl 0 Hg)) (fun HF => HF)). }
  apply wp_if; intros _; [by apply wp_ret|]. cbv zeta. apply wp_bind.
  eapply wp_mono; [apply cpu_finish_serviced; [by apply Hb1|exact HR]|].
  intros [[st2 b2] c] s2 [Hb2 Hrg]. apply wp_ret. cbn in *. split; [by etransitivity|done].
Qed.

Lemma cpu_locked_serviced (R : Z -> Prop) b k s :
  perm_wf b -> (vb_tracking b = true -> forall page, page ∈ region_mask (bk_region k) -> R page) ->
  (vb_tracking b = false -> forall page, R page) ->
  wp (uvm_va_block_service_locked service_copy cfg UVM_ID_CPU b k) (fun '(_, b', _) _ => cpu_serviced cfg R b b') s.
Proof using Hids Hcopy.
  intros Hwf HR HR'. unfold uvm_va_block_service_locked. cbv zeta. set (k1 := if vb_tracking b then k else _).
  assert (forall page, page ∈ region_mask (bk_region k1) -> R page) as Hk1.
  { subst k1. destruct (vb_tracking b); auto. }
  clearbody k1. apply wp_bind. eapply wp_mono.
  { apply (wp_kfold (fun bk _ => cpu_serviced cfg R b bk.1 /\ bk_region bk.2 = bk_region k1)); [|done].
    intros bk r s1 _ [Hb Hrg]. eapply wp_mono.
    - apply (cpu_residency_serviced R); [by apply (sd_wf _ _ _ _ (cf_serviced _ _ _ _ Hb))|by rewrite Hrg].
    - intros res s2 [Hr Hrg']. split; [by etransitivity|congruence]. }
  intros [ex [b' k']] s1 [Hb _]. by apply wp_ret.
Qed.

(** The pages a CPU fault may service: of a tracked block only its own. *)
Definition cpu_fault_pages (addr : Z) (b : va_block) : Z -> Prop := fun page =>
  vb_tracking b = true -> page = uvm_va_block_cpu_page_index b addr.

Lemma cpu_fault_pages_serviced addr R b b' :
  cpu_serviced cfg R b b' -> cpu_fault_pages addr b' = cpu_fault_pages addr b.
Proof.
  intros [Hs _]. unfold cpu_fault_pages, uvm_va_block_cpu_page_index.
  by rewrite (sd_tracking _ _ _ _ Hs), (sd_start _ _ _ _ Hs).
Qed.

Lemma cpu_fault_locked_serviced addr access w s :
  perm_wf (cw_block w) ->
  wp (block_cpu_fault_locked service_copy cfg time pid window addr access w)
    (fun '(_, w') _ => cpu_serviced cfg (cpu_fault_pages addr (cw_block w)) (cw_block w) (cw_block w')) s.
Proof using Hids Hcopy.
  intros Hwf. unfold block_cpu_fault_locked. cbv zeta. apply wp_if; intros _; [by apply wp_ret|]. apply wp_bind.
  apply (wp_mono _ (fun '(_, w') _ => cw_block w' = cw_block w)).
  { unfold skip_cpu_fault_with_valid_permissions. apply wp_if; intros _; [|by apply wp_ret]. apply wp_bind, wp_any.
    intros n s1. repeat (apply wp_if; intros _); by apply wp_ret. }
  intros [skip w1] s1 Hw1. apply wp_if; intros _; [apply wp_ret; by rewrite Hw1|].
  apply wp_if; intros _; [apply wp_ret; by rewrite Hw1|]. apply wp_bind.
  eapply wp_mono; [apply (cpu_locked_serviced (cpu_fault_pages addr (cw_block w))); [done| |]|].
  - intros Ht page Hin Ht'. clear Ht'. unfold cpu_fault_ctx in Hin. cbv zeta in Hin. case_match.
    apply elem_of_region_mask in Hin. cbn in Hin. lia.
  - intros Ht page Ht'. congruence.
  - intros [[st b] k] s2 Hb. by apply wp_ret.
Qed.

Lemma cpu_fault_serviced addr is_write w s :
  perm_wf (cw_block w) ->
  wp (uvm_va_block_cpu_fault service_copy cfg time pid window addr is_write w)
    (fun '(_, w') _ => cpu_serviced cfg (cpu_fault_pages addr (cw_block w)) (cw_block w) (cw_block w')) s.
Proof using Hids Hcopy.
  intros Hwf. unfold uvm_va_block_cpu_fault. cbv zeta. apply wp_bind, wp_mod, wp_bind.
  eapply wp_mono.
  { apply (wp_retry_loop (fun w' => cpu_serviced cfg (cpu_fault_pages addr (cw_block w)) (cw_block w) (cw_block w'))
      (fun _ => True)); [done|].
    intros w1 s1 Hw1. eapply wp_mono.
    - apply cpu_fault_locked_serviced. by apply (sd_wf _ _ _ _ (cf_serviced _ _ _ _ Hw1)).
    - intros [st w2] s2 Hw2. rewrite (cpu_fault_pages_serviced addr _ _ _ Hw1) in Hw2.
      split; [by etransitivity|done]. }
  intros [st w1] s1 [Hw1 _]. by apply wp_bind, wp_mod, wp_ret.
Qed.

Context (Hcopy_lock : forall ls p r k b, LockSpec ls (service_copy p r k b) ls).

Lemma cpu_fault_lock ls addr is_write w :
  LBlock (vb_start (cw_block w)) ∉ ls ->
  LockSpec ls (uvm_va_block_cpu_fault service_copy cfg time pid window addr is_write w) ls.
Proof using Hcopy_lock.
  intros Hl. unfold uvm_va_block_cpu_fault, block_cpu_fault_locked, skip_cpu_fault_with_valid_permissions. cbv zeta.
  pose proof (fun c b k ls => service_locked_lock UVM_ID_CPU service_copy Hcopy_lock ls c b k) as Hs.
  locks; apply Hs.
Qed.

End Kept.
