(* ===== verification/FaultCancel.v ===== *)
(** Cancelling faults and the fault handler itself
    ([uvm_gpu_replayable_faults.c]): the precise cancel of a fault, the cancelling
    of a whole batch, the second servicing of a VA space with fatal faults, and the
    loop that fetches, services and replays until the buffer is drained.

    The GPU cancels by virtual address ([fault_cancel_va_supported], Volta and
    later; confidential computing needs Hopper), so the uTLB-based algorithm for
    older GPUs is left out.  Statuses of pushes, trackers and TLB invalidations
    are decisions of the environment; what the GPU's side of the buffer shows and
    the time are answers indexed by the decision that asks for them. *)
From stdpp Require Import functions sorting.
From S2P Require Import Prelude Kernel VaBlock Permissions Tracking Accessors Service FaultBuffer FaultBatch FaultService FaultReport FaultSpace FaultLoop.

(** A cancel method as the GPU receives it; the page directory is the one of the
    VA space. *)
Record fault_cancel := mk_fault_cancel {
  cn_va_space : option Z;
  cn_address  : Z;
  cn_access   : Z;
  cn_mode     : uvm_fault_cancel_va_mode;
}.

(** What the GPU and other code answer when the handler asks. *)
Record service_answers := mk_service_answers {
  sa_hw        : N -> fault_hw;
  sa_translate : N -> translate_calls;
  sa_flush     : N -> flush_calls;
  sa_time      : N -> Z;                 (* NV_GETTIME *)
}.

(** Module parameters and what the GPU supports. *)
Record service_params := mk_service_params {
  sp_coalesce           : bool;  (* uvm_perf_fault_coalesce *)
  sp_max_batches        : Z;     (* uvm_perf_fault_max_batches_per_service *)
  sp_max_throttle       : Z;     (* uvm_perf_fault_max_throttle_per_service *)
  sp_put_ratio          : Z;     (* replay_update_put_ratio *)
  sp_reenable_lapse     : Z;     (* uvm_perf_reenable_prefetch_faults_lapse_msec *)
  sp_prefetch_supported : bool;
  sp_simulated          : bool;  (* rm_info.isSimulated *)
}.

(** [ss_bug] gathers the failed assertions of the batches already done. *)
Record service_state := mk_service_state {
  ss_world     : loop_world;
  ss_fb        : fault_buffer;
  ss_prefetch  : bool;                   (* prefetch_faults_enabled *)
  ss_timestamp : Z;                      (* disable_prefetch_faults_timestamp *)
  ss_cancels   : list fault_cancel;      (* the cancels pushed, in order *)
  ss_bug       : bool;
}.
Definition ss_batch (st : service_state) : batch := lw_batch (ss_world st).
Definition ss_set_world (w : loop_world) (st : service_state) : service_state :=
  mk_service_state w (ss_fb st) (ss_prefetch st) (ss_timestamp st) (ss_cancels st) (ss_bug st).
Definition ss_set_batch (b : batch) (st : service_state) : service_state :=
  ss_set_world (lw_set_batch b (ss_world st)) st.
Definition ss_set_fb (fb : fault_buffer) (st : service_state) : service_state :=
  mk_service_state (ss_world st) fb (ss_prefetch st) (ss_timestamp st) (ss_cancels st) (ss_bug st).
Definition ss_set_prefetch (on : bool) (time : Z) (st : service_state) : service_state :=
  mk_service_state (ss_world st) (ss_fb st) on time (ss_cancels st) (ss_bug st).
Definition ss_add_cancels (l : list fault_cancel) (st : service_state) : service_state :=
  mk_service_state (ss_world st) (ss_fb st) (ss_prefetch st) (ss_timestamp st) (ss_cancels st ++ l) (ss_bug st).

(** The counters at the start of a batch; its assertions start afresh. *)
Definition reset_batch (st : service_state) : service_state :=
  let b := ss_batch st in
  let b := bc_set_replays 0 (bc_set_marks None false 0 0 b) in
  let b := mk_batch (bc_cache b) (bc_ordered b) (bc_num_coalesced b) (bc_last_fault b) (bc_single b) (bc_utlbs b)
             (bc_max_utlb b) (bc_fatal_space b) (bc_has_throttled b) (bc_num_prefetch b) (bc_num_duplicate b)
             (bc_num_replays b) false in
  let st' := ss_set_batch b st in
  mk_service_state (ss_world st') (ss_fb st') (ss_prefetch st') (ss_timestamp st') (ss_cancels st')
    (ss_bug st || bc_bug (ss_batch st)).

(** Sequencing of programs that may not be followed to their end. *)
Definition kbind_opt {A B} (m : K (option A)) (f : A -> K (option B)) : K (option B) :=
  r ← m; match r with Some a => f a | None => kret None end.
Notation "' x ←? y ; z" := (kbind_opt y (fun x => z))
  (at level 20, x pattern, y at level 100, z at level 200) : kernel_scope.

Definition UVM_PAGE_SIZE_4K : Z := 4096.

Definition fe_set_address (a : Z) (e : fault_entry) : fault_entry :=
  let p := fe_packet e in
  mk_fault_entry (mk_fault_packet (fp_instance_ptr p) (fp_ve_id p) (fp_utlb_id p) a (fp_fault_type p) (fp_access_type p))
    (fe_is_fatal e) (fe_va_space e) (fe_filtered e) (fe_num_instances e) (fe_access_mask e) (fe_cancel_va_mode e)
    (fe_throttled e) (fe_prefetch e).

(** ** Precise cancels *)

Section Cancel.
Context `{FaultCodes} `{E : Env} `{KernelSort}.
Context (service_copy : Z -> Z -> block_ctx -> va_block -> K (nv_status * va_block * gset Z)).
Context (cfg : loop_cfg) (gpu : Z) (answers : service_answers) (params : service_params).

(** A cancel for each 4K of the page. *)
Fixpoint cancel_offsets (n : nat) (i : nat) (mode : uvm_fault_cancel_va_mode) (b : batch) : batch * list fault_cancel :=
  match n with
  | O => (b, [])
  | S n' =>
      let e := entry_at b i in
      let b := set_entry i (fe_set_address (u64 (fe_address e + UVM_PAGE_SIZE_4K))) b in
      let '(b, l) := cancel_offsets n' i mode b in
      (b, mk_fault_cancel (fe_va_space e) (fe_address e) (fe_access e) mode :: l)
  end.

Definition cancel_fault_precise_va (i : nat) (cancel_va_mode : uvm_fault_cancel_va_mode) (st : service_state)
    : K (nv_status * service_state) :=
  let b := ss_batch st in
  let e := entry_at b i in
  let b := bc_assert (lc_gpu_va_space cfg (default 0 (fe_va_space e))) (bc_assert (negb (fe_filtered e)) b) in
  status ← ext_status;                                     (* uvm_push_begin_acquire *)
  if negb (is_ok status) then kret (status, ss_set_batch b st)
  else
    let '(b, l) := cancel_offsets (Z.to_nat (PAGE_SIZE / UVM_PAGE_SIZE_4K)) i cancel_va_mode b in
    let b := set_entry i (fun e => fe_set_address (UVM_PAGE_ALIGN_DOWN (u64 (fe_address e - 1))) e) b in
    status ← ext_status;                                   (* uvm_push_end_and_wait *)
    kret (status, ss_add_cancels l (ss_set_batch b st)).

Definition flush (flush_mode : uvm_gpu_buffer_flush_mode) (st : service_state) : K (option (nv_status * service_state)) :=
  n ← tick;
  kret (match fault_buffer_flush_locked env_cc (sa_hw answers n) (sa_flush answers n) flush_mode
                UVM_FAULT_REPLAY_TYPE_START (ss_fb st) (Some (ss_batch st)) with
        | Some (status, fb, b) => Some (status, ss_set_fb fb (ss_set_batch (default (ss_batch st) b) st))
        | None => None
        end).

(** *** All faults of a batch *)

Definition cancel_mode_of (e : fault_entry) : uvm_fault_cancel_va_mode :=
  if fe_is_fatal e then fe_cancel_va_mode e else UVM_FAULT_CANCEL_VA_MODE_ALL.

(** The faults of one VA space; what is left is what comes after them, from the
    one whose cancel failed on if one did. *)
Fixpoint cancel_space_faults (va_space : Z) (skip_va_space : bool) (l : list nat) (st : service_state)
    : K (nv_status * list nat * service_state) :=
  match l with
  | [] => kret (NV_OK, [], st)
  | i :: l' =>
      let e := entry_at (ss_batch st) i in
      if negb (default 0 (fe_va_space e) =? va_space) then kret (NV_OK, l, st)
      else if skip_va_space then cancel_space_faults va_space skip_va_space l' st
      else
        '(status, st) ← cancel_fault_precise_va i (cancel_mode_of e) st;
        if negb (is_ok status) then kret (status, l, st)
        else cancel_space_faults va_space skip_va_space l' st
  end.

Fixpoint cancel_spaces (fuel : nat) (l : list nat) (st : service_state) : K (option (nv_status * service_state)) :=
  match l with
  | [] => kret (Some (NV_OK, st))
  | i :: _ =>
      match fuel with
      | O => kret None
      | S fuel' =>
          let b := ss_batch st in
          let st := ss_set_batch (bc_assert (bool_decide (is_Some (fe_va_space (entry_at b i)))) b) st in
          let va_space := default 0 (fe_va_space (entry_at b i)) in
          lock_acquire (LSpaceRead va_space);;
          '(status, l, st) ← cancel_space_faults va_space (negb (lc_gpu_va_space cfg va_space)) l st;
          lock_release (LSpaceRead va_space);;
          if is_ok status then cancel_spaces fuel' l st else kret (Some (status, st))
      end
  end.

Definition cancel_faults_all (st : service_state) : K (option (nv_status * service_state)) :=
  '(status, st) ←? cancel_spaces (length (bc_ordered (ss_batch st))) (bc_ordered (ss_batch st)) st;
  '(fault_status, st) ←? flush UVM_GPU_BUFFER_FLUSH_MODE_UPDATE_PUT st;
  kret (Some (if is_ok status then fault_status else status, st)).

Definition cancel_fault_batch (st : service_state) : K (option (nv_status * service_state)) := cancel_faults_all st.

(** *** The VA space with fatal faults *)

(** [while (block_faults-- > 0)]: the status, the position reached. *)
Fixpoint cancel_block_faults (block_faults : nat) (i : nat) (st : service_state) : K (nv_status * nat * service_state) :=
  match block_faults with
  | O => kret (NV_OK, i, st)
  | S n =>
      let h := ordered_at (ss_batch st) i in
      let e := entry_at (ss_batch st) h in
      if fe_is_fatal e then
        '(status, st) ← cancel_fault_precise_va h (fe_cancel_va_mode e) st;
        if negb (is_ok status) then kret (status, i, st) else cancel_block_faults n (S i) st
      else cancel_block_faults n (S i) st
  end.

(** [status] is the value of the variable when the loop condition is tested: a
    failed cancel of [cancel_block_faults] does not leave this loop. *)
Fixpoint cancel_loop (fuel : nat) (va_space : Z) (i : nat) (status : nv_status) (st : service_state)
    : K (option (nv_status * service_state)) :=
  if (length (bc_ordered (ss_batch st)) <=? i)%nat then kret (Some (status, st))
  else
    match fuel with
    | O => kret None
    | S fuel' =>
        let h := ordered_at (ss_batch st) i in
        let current_entry := entry_at (ss_batch st) h in
        if negb (bool_decide (fe_va_space current_entry = Some va_space)) then kret (Some (status, st))
        else if fe_is_fatal current_entry then
          '(status, st) ← cancel_fault_precise_va h UVM_FAULT_CANCEL_VA_MODE_ALL st;
          if negb (is_ok status) then kret (Some (status, st)) else cancel_loop fuel' va_space (S i) status st
        else
          let w := ss_world st in
          '(status, block_faults, (v, k, b)) ←
            service_fault_batch_dispatch service_copy cfg gpu (lw_spaces w va_space) i (lw_ctx w) (lw_batch w);
          let st := ss_set_world (mk_loop_world (<[va_space := v]> (lw_spaces w)) k b) st in
          if negb (is_ok status) then kret (Some (if asks_retry status then NV_OK else status, st))
          else
            status ← ext_status;                           (* uvm_ats_invalidate_tlbs *)
            if negb (is_ok status) then kret (Some (status, st))
            else
              '(status, i, st) ← cancel_block_faults (Z.to_nat block_faults) i st;
              cancel_loop fuel' va_space i status st
    end.

(** Fetching a batch and preprocessing it: the status, and whether there was a
    batch to preprocess. *)
Definition fetch_batch (mode : fault_fetch_mode) (st : service_state) : K (option (nv_status * bool * service_state)) :=
  n ← tick;
  match fetch_fault_buffer_entries (sa_hw answers n) (sp_coalesce params) true mode (ss_fb st) (ss_batch st) with
  | None => kret None
  | Some (status, fb, b) =>
      let st := ss_set_fb fb (ss_set_batch b st) in
      if negb (is_ok status) then kret (Some (status, false, st))
      else if bool_decide (bc_cache b = []) then kret (Some (NV_OK, false, st))
      else
        m ← tick;
        kret (match preprocess_fault_batch (sa_translate answers m) fb b with
              | None => None
              | Some (status, fb, b) => Some (status, true, ss_set_fb fb (ss_set_batch b st))
              end)
  end.

(** The place of the first fault of the VA space, the end of the view if it has
    none. *)
Definition first_of_space (va_space : Z) (b : batch) : nat :=
  match list_find (fun h => fe_va_space (entry_at b h) = Some va_space) (bc_ordered b) with
  | Some (i, _) => i
  | None => length (bc_ordered b)
  end.

(** Up to the label [done]. *)
Definition for_cancel_locked (va_space : Z) (st : service_state) : K (option (nv_status * service_state)) :=
  '(status, st) ←? flush UVM_GPU_BUFFER_FLUSH_MODE_WAIT_UPDATE_PUT st;
  if negb (is_ok status) then kret (Some (status, st))
  else
    status ← ext_status;                                   (* uvm_tracker_wait *)
    if negb (is_ok status) then kret (Some (status, st))
    else
      rm ← ext_status;
      let status := hw_fault_buffer_flush_locked env_cc rm in
      if negb (is_ok status) then kret (Some (status, st))
      else if negb (lc_gpu_va_space cfg va_space) then kret (Some (NV_OK, st))
      else
        '(status, preprocessed, st) ←? fetch_batch FAULT_FETCH_MODE_ALL (reset_batch st);
        if preprocessed && bool_decide (status = NV_WARN_MORE_PROCESSING_REQUIRED) then kret (Some (NV_OK, st))
        else if negb preprocessed || negb (is_ok status) then kret (Some (status, st))
        else
          let n := length (bc_ordered (ss_batch st)) in
          cancel_loop (n + n) va_space (first_of_space va_space (ss_batch st)) NV_OK st.

Definition service_fault_batch_for_cancel (st : service_state) : K (option (nv_status * service_state)) :=
  let b := ss_batch st in
  let st := ss_set_batch (bc_assert (bool_decide (is_Some (bc_fatal_space b))) b) st in
  let va_space := default 0 (bc_fatal_space b) in
  lock_acquire (LSpaceRead va_space);;
  '(status, st) ←? for_cancel_locked va_space st;
  lock_release (LSpaceRead va_space);;
  if is_ok status then flush UVM_GPU_BUFFER_FLUSH_MODE_UPDATE_PUT st else kret (Some (status, st)).

Definition cancel_faults_precise (st : service_state) : K (option (nv_status * service_state)) :=
  service_fault_batch_for_cancel (ss_set_batch (bc_assert (bool_decide (is_Some (bc_fatal_space (ss_batch st)))) (ss_batch st)) st).
End Cancel.
