(* ===== verification/FaultCancelSpec.v ===== *)
(** What cancelling does ([FaultCancel]): the counters of pending faults play no
    part in servicing; a precise cancel sends one method for the page of its fault
    and leaves the entry as it was; cancelling a whole batch sends the cancels of
    its faults in order; and servicing the VA space with fatal faults a second
    time ends and keeps the guard of the spaces. *)
From stdpp Require Import functions sorting.
From S2P Require Import Prelude Kernel VaBlock Permissions Tracking Accessors Service FaultBuffer FaultBatch FaultService FaultReport FaultSpace FaultLoop FaultLoopSpec FaultCancel.

(** ** Pending faults *)

(** Servicing and cancelling leave the counts of pending faults alone. *)
Record same_utlbs (b b' : batch) : Prop := {
  su_max     : bc_max_utlb b' = bc_max_utlb b;
  su_pending : forall u, ut_pending (bc_utlbs b' u) = ut_pending (bc_utlbs b u);
}.

#[export] Instance same_utlbs_preorder : PreOrder same_utlbs.
Proof. split; [by split|]. intros b1 b2 b3 [] []. split; [congruence|]. intros u. congruence. Qed.

Lemma same_utlbs_eq b b' : bc_max_utlb b' = bc_max_utlb b -> bc_utlbs b' = bc_utlbs b -> same_utlbs b b'.
Proof. intros Hm Hu. split; [done|]. by rewrite Hu. Qed.

Create HintDb utlbs.
#[export] Hint Extern 0 (same_utlbs ?b ?b) => reflexivity : utlbs.
#[export] Hint Extern 2 (same_utlbs _ _) => by apply same_utlbs_eq : utlbs.

(** Marking a uTLB fatal. *)
Lemma mark_utlb_pending b b' id last fatal :
  bc_max_utlb b' = bc_max_utlb b ->
  bc_utlbs b' = <[id := mk_utlb_info (ut_pending (bc_utlbs b id)) fatal last]> (bc_utlbs b) -> same_utlbs b b'.
Proof.
  intros Hm Hu. split; [done|]. intros u. rewrite Hu. destruct (decide (u = id)) as [->|Hne].
  - by rewrite fn_lookup_insert.
  - by rewrite fn_lookup_insert_ne.
Qed.

Section Pending.
Context `{FaultCodes}.

Lemma mark_fatal_utlbs i mode b : same_utlbs b (mark_fault_fatal i mode b).
Proof.
  unfold mark_fault_fatal. cbv zeta. eapply mark_utlb_pending; cbn; by destruct (bc_fatal_space b).
Qed.

Lemma duplicate_flags_utlbs i p b : same_utlbs b (fault_entry_duplicate_flags i p b).
Proof. unfold fault_entry_duplicate_flags. destruct (fe_prefetch _), (fe_throttled _); auto with utlbs. Qed.

Lemma fatal_notify_utlbs i mode b : same_utlbs b (service_fault_batch_fatal_notify i mode b).
Proof.
  unfold service_fault_batch_fatal_notify. transitivity (service_fault_batch_fatal i mode b); [|by apply same_utlbs_eq].
  unfold service_fault_batch_fatal. set (b1 := match duplicate_of_previous i b with Some _ => _ | None => _ end).
  assert (H1 : same_utlbs b b1) by (unfold b1; destruct (duplicate_of_previous i b); [apply duplicate_flags_utlbs|done]).
  clearbody b1. etransitivity; [exact H1|]. destruct (_ =? _); [by apply same_utlbs_eq|apply mark_fatal_utlbs].
Qed.

Lemma skip_fatal_utlbs i va b : same_utlbs b (skip_fatal i va b).
Proof. unfold skip_fatal. eapply mark_utlb_pending; cbn; by destruct (bc_fatal_space b). Qed.

Lemma check_access_utlbs cfg gpu n i m b : same_utlbs b (snd (check_fault_access_permissions cfg gpu n i m b)).
Proof.
  unfold check_fault_access_permissions. cbv zeta. repeat case_match; cbn; auto using mark_fatal_utlbs with utlbs.
Qed.

Context `{E : Env}.

Lemma scan_select_utlbs cfg gpu blk i t s : same_utlbs (sn_batch s) (sn_batch (scan_select cfg gpu blk i t s)).
Proof.
  unfold scan_select, record_page. cbv zeta. repeat (case_match; cbn); auto with utlbs.
Qed.

Lemma scan_service_utlbs cfg gpu blk i s : same_utlbs (sn_batch s) (sn_batch (scan_service cfg gpu blk i s)).
Proof.
  unfold scan_service. set (m := ft_migratable cfg _).
  pose proof (check_access_utlbs cfg gpu (bk_retries (sn_ctx s)) i m (sn_batch s)) as Hc.
  destruct (check_fault_access_permissions _ _ _ _ _ _) as [t b]. cbn in Hc.
  destruct (_ =? _); [done|]. etransitivity; [exact Hc|]. apply (scan_select_utlbs cfg gpu blk i t (sn_set_batch b s)).
Qed.

Lemma scan_entry_utlbs cfg gpu blk prev i s : same_utlbs (sn_batch s) (sn_batch (scan_entry cfg gpu blk prev i s)).
Proof.
  unfold scan_entry. cbv zeta. set (b1 := if bk_retries _ =? 0 then _ else _).
  assert (H1 : same_utlbs (sn_batch s) b1) by (unfold b1; destruct (_ =? 0); by apply same_utlbs_eq).
  clearbody b1. set (d := match prev with Some _ => _ | None => _ end). clearbody d.
  destruct d as [p|].
  - pose proof (duplicate_flags_utlbs i p b1) as H2. destruct (negb _); [by etransitivity|].
    etransitivity; [exact H1|]. etransitivity; [exact H2|]. apply (scan_service_utlbs cfg gpu blk i (sn_set_batch _ s)).
  - etransitivity; [exact H1|]. apply (scan_service_utlbs cfg gpu blk i (sn_set_batch b1 s)).
Qed.

Lemma scan_faults_utlbs cfg gpu blk l : forall prev s,
  same_utlbs (sn_batch s) (sn_batch (snd (scan_faults cfg gpu blk prev l s))).
Proof.
  induction l as [|i l IH]; intros prev s; cbn [scan_faults]; [done|]. destruct (in_block _ _ _); [|done].
  pose proof (IH (Some i) (scan_entry cfg gpu blk prev i s)) as H1. destruct (scan_faults _ _ _ _ _ _) as [n s'].
  cbn in *. etransitivity; [apply scan_entry_utlbs|exact H1].
Qed.

Context (service_copy : Z -> Z -> block_ctx -> va_block -> K (nv_status * va_block * gset Z)).
Context (cfg : loop_cfg) (gpu : Z).

Lemma block_locked_utlbs c i w s :
  wp (service_fault_batch_block_locked service_copy c gpu i w)
    (fun r _ => same_utlbs (bw_batch w) (bw_batch (snd r))) s.
Proof.
  unfold service_fault_batch_block_locked. cbv zeta. set (s0 := mk_scan _ _ _ _ _).
  pose proof (scan_faults_utlbs c gpu (bw_block w) (drop i (bc_ordered (bw_batch w))) None s0) as Hs.
  assert (H0 : same_utlbs (bw_batch w) (sn_batch s0)) by (by apply same_utlbs_eq). clearbody s0.
  destruct (scan_faults _ _ _ _ _ _) as [n s1]. cbn in Hs. apply wp_bind, wp_any. intros [[st b] k] s'. apply wp_ret. cbn.
  by etransitivity.
Qed.

Lemma block_utlbs c i w s :
  wp (service_fault_batch_block service_copy c gpu i w) (fun r _ => same_utlbs (bw_batch w) (bw_batch (snd r))) s.
Proof.
  unfold service_fault_batch_block. cbv zeta. set (w0 := mk_block_work _ _ _ _). apply wp_bind, wp_mod, wp_bind.
  eapply wp_mono; [apply (wp_retry_loop (fun w' => same_utlbs (bw_batch w) (bw_batch w')) (fun _ => True)); [done|]|].
  - intros w1 s1 H1. eapply wp_mono; [apply block_locked_utlbs|]. cbn. intros [st w2] s2 H2. split; [by etransitivity|done].
  - intros [st w1] s1 [H1 _]. apply wp_bind, wp_any. intros st' s2. apply wp_bind, wp_mod. by apply wp_ret.
Qed.

Lemma dispatch_utlbs v i k b s :
  wp (service_fault_batch_dispatch service_copy cfg gpu v i k b) (fun '(_, (_, _, b')) _ => same_utlbs b b') s.
Proof.
  unfold service_fault_batch_dispatch. cbv zeta. set (a := fe_address _). clearbody a.
  destruct (uvm_va_space_iter_first _ _ _) as [[j r]|]; [|apply wp_ret, fatal_notify_utlbs].
  apply wp_if; intros _; [|apply wp_ret, fatal_notify_utlbs]. set (b1 := bc_assert _ b).
  assert (H1 : same_utlbs b b1) by (by apply same_utlbs_eq). clearbody b1.
  assert (Hc : same_utlbs b (service_fault_batch_fatal_notify i UVM_FAULT_CANCEL_VA_MODE_ALL b1))
    by (etransitivity; [exact H1|apply fatal_notify_utlbs]).
  apply wp_bind, wp_any. intros [[st [blk|]] r'] s1; [|destruct st; apply wp_ret; exact Hc].
  destruct st; try (apply wp_ret; exact Hc). apply wp_bind. eapply wp_mono; [apply block_utlbs|]. cbn.
  intros [st w] s2 H2. apply wp_ret. etransitivity; [exact H1|exact H2].
Qed.

Lemma push_replay_utlbs b s : wp (push_replay b) (fun '(_, b') _ => same_utlbs b b') s.
Proof.
  unfold push_replay. apply wp_bind, wp_any. intros x s1. apply wp_bind, wp_any. intros y s2. unfold push_replay_on_gpu.
  destruct (negb _); apply wp_ret; [done|by apply same_utlbs_eq].
Qed.

Lemma replay_block_utlbs r b s : wp (replay_block r b) (fun '(_, b') _ => same_utlbs b b') s.
Proof. unfold replay_block. apply wp_if; intros _; [apply push_replay_utlbs|by apply wp_ret]. Qed.

Definition loop_utlbs (b : batch) (r : option (nv_status * Z * loop_world)) : Prop :=
  match r with Some (_, _, w) => same_utlbs b (lw_batch w) | None => True end.

Lemma service_loop_utlbs fuel : forall retries r i va w s,
  wp (service_loop service_copy cfg gpu fuel retries r i va w) (fun x _ => loop_utlbs (lw_batch w) x) s.
Proof.
  induction fuel as [|fuel IH]; intros retries r i va w s; cbn [service_loop];
    (apply wp_if; intros _; [by apply wp_ret|]); [by apply wp_ret|].
  set (b := bc_assert _ (lw_batch w)). assert (Hb : same_utlbs (lw_batch w) b) by (by apply same_utlbs_eq). clearbody b.
  assert (IH' : forall retries' i' va' w' s', same_utlbs (lw_batch w) (lw_batch w') ->
    wp (service_loop service_copy cfg gpu fuel retries' r i' va' w') (fun x _ => loop_utlbs (lw_batch w) x) s').
  { intros retries' i' va' w' s' Hw. eapply wp_mono; [apply IH|]. intros [[[st z] w2]|] s2; cbn; [|done].
    intros H2. by etransitivity. }
  apply wp_bind, wp_any. intros [st va'] s1. apply wp_if; intros _; [by apply wp_ret|].
  apply wp_if; intros _; [apply IH'; etransitivity; [exact Hb|apply skip_fatal_utlbs]|].
  apply wp_if; intros _; [by apply IH'|]. apply wp_bind. eapply wp_mono; [apply dispatch_utlbs|].
  intros [[st1 n] [[v k] b1]] s2 H2. assert (H1 : same_utlbs (lw_batch w) b1) by (by etransitivity).
  apply wp_if; intros _.
  { destruct retries; [by apply wp_ret|]. apply wp_bind, wp_mod. by apply IH'. }
  apply wp_if; intros _; [by apply wp_ret|]. apply wp_bind. eapply wp_mono; [apply replay_block_utlbs|].
  intros [st2 b2] s3 H3. assert (H4 : same_utlbs (lw_batch w) b2) by (by etransitivity).
  apply wp_if; intros _; [by apply wp_ret|by apply IH'].
Qed.

Lemma service_fault_batch_utlbs mode w s :
  wp (service_fault_batch service_copy cfg gpu mode w)
    (fun r _ => match r with Some (_, w') => same_utlbs (lw_batch w) (lw_batch w') | None => True end) s.
Proof.
  unfold service_fault_batch. apply wp_bind. eapply wp_mono; [apply service_loop_utlbs|].
  intros [[[st va] w1]|] s1 H1; [|by apply wp_ret]. apply wp_bind, wp_any. intros st' s2. apply wp_bind, wp_any.
  intros _ s3. by apply wp_ret.
Qed.
End Pending.

(** ** The buffer *)

(** The buffer keeps its size and its well-formedness. *)
Record buffer_ok (size : Z) (fb : fault_buffer) : Prop := {
  bo_wf   : fb_wf fb;
  bo_size : fb_max_faults fb = size;
}.

Lemma flush_loop_size fuel cc hw get fb st get' fb' :
  flush_loop fuel cc hw get fb = Some (st, get', fb') -> fb_max_faults fb' = fb_max_faults fb.
Proof.
  revert get fb. induction fuel as [|fuel IH]; intros get fb; cbn [flush_loop]; destruct (_ =? _); try (by intros [= <- <- <-]).
  destruct (wait_valid _ _ _); [by intros [= <- <- <-]|]. intros Hr. by rewrite (IH _ _ Hr).
Qed.

Lemma push_replay_on_gpu_utlbs calls type b st ob :
  push_replay_on_gpu calls type (Some b) = (st, ob) -> exists b', ob = Some b' /\ same_utlbs b b' /\ same_entries b b'.
Proof.
  unfold push_replay_on_gpu. destruct (negb _); intros [= <- <-]; [by exists b|].
  eexists. split; [done|]. destruct (bool_decide _); by split; [apply same_utlbs_eq|].
Qed.

(** A flush of a batch's buffer. *)
Lemma flush_buffer_ok cc hw calls mode type size fb b :
  buffer_ok size fb -> 0 <= hw_put hw < size ->
  exists st fb' b', fault_buffer_flush_locked cc hw calls mode type fb (Some b) = Some (st, fb', Some b') /\
    buffer_ok size fb' /\ same_utlbs b b' /\ same_entries b b'.
Proof.
  intros [Hwf Hs] Hp. rewrite <- Hs in Hp.
  destruct (fault_buffer_flush_spec cc hw calls mode type fb (Some b) Hwf Hp) as ([[st fb'] ob] & Heq & n & Hwf' & _).
  rewrite Heq. revert Heq. unfold fault_buffer_flush_locked.
  destruct (bool_decide _ && _); [intros [= <- <- <-]; by eexists _, _, _|].
  destruct (negb (is_ok _)); [intros [= <- <- <-]; by eexists _, _, _|].
  set (fb0 := if negb _ then _ else _). assert (Hf0 : fb_max_faults fb0 = size) by (unfold fb0; by destruct (negb _)).
  clearbody fb0. destruct (flush_loop _ _ _ _ _) as [[[st1 get1] fb1]|] eqn:Hl; [|done].
  apply flush_loop_size in Hl. assert (Hw : fb_max_faults (write_get get1 fb1) = size)
    by (unfold write_get; destruct (_ =? _); cbn; congruence).
  destruct (negb _); [intros [= <- <- <-]; by eexists _, _, _|].
  destruct (push_replay_on_gpu _ _ _) as [st2 ob2] eqn:Hr. apply push_replay_on_gpu_utlbs in Hr as (b' & -> & Hu & He).
  intros [= <- <- <-]. by eexists _, _, _.
Qed.

Section Translated.
Context (calls : translate_calls) (size : Z) (Hput : 0 <= hw_put (tc_hw calls) < size).

Lemma translate_loop_ok_utlbs prev l fb b :
  buffer_ok size fb ->
  exists st fb' b', translate_loop calls prev l fb b = Some (st, fb', b') /\ buffer_ok size fb' /\ same_utlbs b b'.
Proof using Hput.
  intros Hb. revert prev b. induction l as [|i l IH]; intros prev b; cbn [translate_loop]; [by eexists _, _, _|].
  assert (Hstep : forall prev b1, same_utlbs b b1 -> exists st fb' b',
    translate_loop calls prev l fb b1 = Some (st, fb', b') /\ buffer_ok size fb' /\ same_utlbs b b').
  { intros p b1 H1. destruct (IH p b1) as (st & fb' & b' & Heq & Hb' & Hu). exists st, fb', b'.
    split; [done|]. split; [done|]. by etransitivity. }
  destruct (copied_va_space prev i b) as [vs|]; [apply Hstep; by apply same_utlbs_eq|].
  destruct (tc_to_va_space calls (entry_at b i)) as [st vs]. destruct (is_ok st); [apply Hstep; by apply same_utlbs_eq|].
  unfold translate_failed. cbv zeta. set (b1 := bc_assert _ _). assert (H1 : same_utlbs b b1) by (by apply same_utlbs_eq).
  clearbody b1. destruct (_ && _); [by eexists _, _, _|].
  match goal with |- context [fault_buffer_flush_locked ?cc ?hw ?c ?m ?t fb _] =>
    destruct (flush_buffer_ok cc hw c m t size fb b1 Hb Hput) as (st1 & fb1 & b2 & -> & Hb1 & Hu & _) end.
  eexists _, _, _. split; [done|]. split; [done|]. by etransitivity.
Qed.

Context `{KernelSort}.

Lemma preprocess_utlbs fb b :
  buffer_ok size fb ->
  exists st fb' b', preprocess_fault_batch calls fb b = Some (st, fb', b') /\ buffer_ok size fb' /\ same_utlbs b b'.
Proof using Hput.
  intros Hb. unfold preprocess_fault_batch, translate_instance_ptrs. set (b1 := bc_set_ordered _ _).
  destruct (translate_loop_ok_utlbs None (bc_ordered b1) fb b1 Hb) as (st & fb' & b' & Heq & Hb' & Hu).
  rewrite Heq. assert (H1 : same_utlbs b b') by (etransitivity; [|exact Hu]; by apply same_utlbs_eq).
  destruct st; eexists _, _, _; (split; [done|]); (split; [done|]); try done.
  etransitivity; [exact H1|]. by apply same_utlbs_eq.
Qed.
End Translated.

(** ** Precise cancels *)

(** An address the fetch leaves in an entry. *)
Definition page_address (a : Z) : Prop := 0 <= a < 2 ^ 64 /\ a mod PAGE_SIZE = 0.

(** Past the page and back. *)
Lemma page_back a : page_address a -> UVM_PAGE_ALIGN_DOWN (u64 (u64 (a + UVM_PAGE_SIZE_4K) - 1)) = a.
Proof.
  intros [Ha Hm]. unfold UVM_PAGE_ALIGN_DOWN, u64, UVM_PAGE_SIZE_4K, PAGE_SIZE in *. rewrite Zminus_mod_idemp_l.
  assert (a + 4095 < 2 ^ 64) by zlia. replace (a + 4096 - 1) with (a + 4095) by lia.
  rewrite Z.mod_small by lia. zlia.
Qed.

(** The cancel of a fault. *)
Definition cancel_for (mode : uvm_fault_cancel_va_mode) (e : fault_entry) : fault_cancel :=
  mk_fault_cancel (fe_va_space e) (fe_address e) (fe_access e) mode.

Section Sent.
Context `{FaultCodes} `{E : Env} `{KernelSort}.
Context (cfg : loop_cfg) (gpu : Z) (answers : service_answers) (params : service_params) (size : Z).

(** From [st] to [st'] only the cancels [l] were sent, assertions checked,
    replays counted and the buffer flushed. *)
Record sent (l : list fault_cancel) (st st' : service_state) : Prop := {
  se_spaces  : lw_spaces (ss_world st') = lw_spaces (ss_world st);
  se_entries : same_entries (ss_batch st) (ss_batch st');
  se_utlbs   : same_utlbs (ss_batch st) (ss_batch st');
  se_cancels : ss_cancels st' = ss_cancels st ++ l;
  se_buffer  : buffer_ok size (ss_fb st) -> buffer_ok size (ss_fb st');
}.

Lemma sent_batch b st : same_entries (ss_batch st) b -> same_utlbs (ss_batch st) b -> sent [] st (ss_set_batch b st).
Proof. intros He Hu. split; [done..| |done]. by rewrite app_nil_r. Qed.

Lemma sent_refl st : sent [] st st.
Proof. split; [done..| |done]. by rewrite app_nil_r. Qed.

Lemma sent_trans l1 l2 st1 st2 st3 : sent l1 st1 st2 -> sent l2 st2 st3 -> sent (l1 ++ l2) st1 st3.
Proof.
  intros [? [? ?] ? ? ?] [? [? ?] ? ? ?]. split; [congruence|split; congruence|by etransitivity| |auto].
  rewrite app_assoc. congruence.
Qed.

Lemma sent_then l st1 st2 st3 : sent [] st1 st2 -> sent l st2 st3 -> sent l st1 st3.
Proof. apply (sent_trans [] l). Qed.

Lemma sent_entry l st st' i : sent l st st' -> entry_at (ss_batch st') i = entry_at (ss_batch st) i.
Proof. intros [_ [Hc _] _ _ _]. unfold entry_at. by rewrite Hc. Qed.

Lemma cancel_precise_spec i mode st s :
  page_address (fe_address (entry_at (ss_batch st) i)) ->
  wp (cancel_fault_precise_va cfg i mode st)
    (fun '(status, st') _ => exists l, sent l st st' /\ l `prefix_of` [cancel_for mode (entry_at (ss_batch st) i)] /\
       (status = NV_OK -> l = [cancel_for mode (entry_at (ss_batch st) i)])) s.
Proof.
  intros Ha. unfold cancel_fault_precise_va. cbv zeta. set (b := bc_assert _ _).
  assert (Hb : sent [] st (ss_set_batch b st)) by (apply sent_batch; [done|by apply same_utlbs_eq]).
  assert (He : entry_at b i = entry_at (ss_batch st) i) by done.
  apply wp_bind, wp_any. intros st1 s1. apply wp_if; intros Hok; bprop.
  { apply wp_ret. exists []. split; [done|]. split; [apply prefix_nil|done]. }
  change (Z.to_nat (PAGE_SIZE / UVM_PAGE_SIZE_4K)) with 1%nat. cbn [cancel_offsets].
  set (b1 := set_entry i (fe_set_address (u64 (fe_address (entry_at b i) + UVM_PAGE_SIZE_4K))) b).
  apply wp_bind, wp_any. intros st2 s2. apply wp_ret. rewrite He.
  exists [cancel_for mode (entry_at (ss_batch st) i)]. split; [|done]. eapply sent_then; [exact Hb|].
  split; [done| |by apply same_utlbs_eq|done|done]. split; [|done]. apply list_eq. intros k.
  cbn [ss_batch ss_world ss_add_cancels ss_set_batch ss_set_world lw_batch lw_set_batch]. rewrite set_entry_lookup. unfold b1 at 1 2. rewrite set_entry_lookup.
  change (bc_cache b) with (bc_cache (ss_batch st)). destruct (decide (k = i)) as [->|Hne]; [|done].
  destruct (bc_cache (ss_batch st) !! i) as [e|] eqn:Hi; cbn; [|done]. rewrite He.
  pose proof (entry_at_lookup _ _ _ Hi) as He'. rewrite He' in Ha |- *. f_equal.
  unfold fe_set_address, fe_address in *. cbn. rewrite (page_back _ Ha). by destruct e as [[] ? ? ? ? ? ? ? ?].
Qed.

(** ** Cancelling a batch *)

(** What cancelling the faults [l] sends: a fatal fault asks for its mode, the
    others lose every access. *)
Definition cancels_of (b : batch) (l : list nat) : list fault_cancel :=
  flat_map (fun i => let e := entry_at b i in
              if lc_gpu_va_space cfg (default 0 (fe_va_space e)) then
                [cancel_for (if fe_is_fatal e then fe_cancel_va_mode e else UVM_FAULT_CANCEL_VA_MODE_ALL) e]
              else []) l.

Lemma cancels_of_entries b b' l : same_entries b b' -> cancels_of b' l = cancels_of b l.
Proof. intros [Hc _]. unfold cancels_of, entry_at. by rewrite Hc. Qed.

Definition addresses_ok (b : batch) (l : list nat) : Prop :=
  forall i, i ∈ l -> page_address (fe_address (entry_at b i)).

Lemma addresses_ok_entries b b' l l' :
  same_entries b b' -> (forall i, i ∈ l' -> i ∈ l) -> addresses_ok b l -> addresses_ok b' l'.
Proof. intros [Hc _] Hl Ha i Hi. unfold entry_at. rewrite Hc. by apply Ha, Hl. Qed.

(** What a cancel of the faults [l] ends with, [l'] being left. *)
Record cancelled (l l' : list nat) (st : service_state) (status : nv_status) (st' : service_state) : Prop := {
  ca_sent : exists c, sent c st st' /\ c `prefix_of` cancels_of (ss_batch st) l /\
              (status = NV_OK -> exists l1, l = l1 ++ l' /\ c = cancels_of (ss_batch st) l1);
}.

Lemma cancelled_nothing l st : cancelled l l st NV_OK st.
Proof. split. exists []. split; [apply sent_refl|]. split; [apply prefix_nil|]. intros _. by exists []. Qed.

Lemma cancelled_step l1 l l' c st st1 status st' :
  sent c st st1 -> c = cancels_of (ss_batch st) l1 -> cancelled l l' st1 status st' ->
  cancelled (l1 ++ l) l' st status st'.
Proof.
  intros Hs -> [(c' & Hs' & Hp & Hok)]. split. eexists. split; [by eapply sent_trans|].
  assert (Hc : forall k, cancels_of (ss_batch st1) k = cancels_of (ss_batch st) k) by (intros k; apply cancels_of_entries, Hs).
  rewrite Hc in Hp. assert (Happ : forall k, cancels_of (ss_batch st) (l1 ++ k) =
    cancels_of (ss_batch st) l1 ++ cancels_of (ss_batch st) k) by (intros k; apply flat_map_app).
  rewrite Happ. split; [by apply prefix_app|]. intros Hst. destruct (Hok Hst) as (l2 & -> & ->). exists (l1 ++ l2).
  by rewrite Hc, Happ, app_assoc.
Qed.

Lemma cancel_space_faults_spec va l : forall st s,
  addresses_ok (ss_batch st) l ->
  wp (cancel_space_faults cfg va (negb (lc_gpu_va_space cfg va)) l st)
    (fun '(status, l', st') _ => cancelled l l' st status st' /\
       (status = NV_OK -> forall i l1, l = i :: l1 -> default 0 (fe_va_space (entry_at (ss_batch st) i)) = va ->
          (length l' < length l)%nat)) s.
Proof.
  induction l as [|i l IH]; intros st s Ha; cbn [cancel_space_faults].
  { apply wp_ret. split; [apply cancelled_nothing|done]. }
  set (e := entry_at (ss_batch st) i). apply wp_if; intros Hva; bprop.
  { apply wp_ret. split; [apply cancelled_nothing|]. by intros _ ? ? [= <- <-]. }
  assert (Hnext : forall c st1 s1, sent c st st1 -> c = cancels_of (ss_batch st) [i] ->
    wp (cancel_space_faults cfg va (negb (lc_gpu_va_space cfg va)) l st1)
      (fun '(status, l', st') _ => cancelled (i :: l) l' st status st' /\
         (status = NV_OK -> forall j l1, i :: l = j :: l1 -> default 0 (fe_va_space (entry_at (ss_batch st) j)) = va ->
            (length l' < length (i :: l))%nat)) s1).
  { intros c st1 s1 Hs Hc. eapply wp_mono; [apply IH|].
    - eapply addresses_ok_entries; [apply Hs| |exact Ha]. intros j Hj. by right.
    - intros [[status l'] st'] s2 [Hca _]. split; [by eapply (cancelled_step [i])|]. intros Hst j l1 _ _.
      destruct Hca as [(c' & _ & _ & Hl)]. destruct (Hl Hst) as (l2 & -> & _). cbn. rewrite length_app. lia. }
  apply wp_if; intros Hskip; btest.
  { apply (Hnext []); [apply sent_refl|]. cbn. fold e. by rewrite Hva, Hskip. }
  assert (Hone : cancels_of (ss_batch st) [i] = [cancel_for (cancel_mode_of e) e]) by (cbn; fold e; by rewrite Hva, Hskip).
  apply wp_bind. eapply wp_mono; [apply cancel_precise_spec, Ha; left|]. fold e.
  intros [status st1] s1 (c & Hs & Hp & Hok). apply wp_if; intros Hst; bprop; [apply wp_ret|].
  - split; [|done]. split. exists c. split; [done|]. split; [|done]. unfold cancels_of in *. cbn in Hone |- *.
    rewrite app_nil_r in Hone. rewrite Hone. etransitivity; [exact Hp|]. by apply prefix_app_r.
  - apply (Hnext c); [done|]. rewrite Hone. auto.
Qed.

Lemma cancel_spaces_spec fuel : forall l st s,
  (length l <= fuel)%nat -> addresses_ok (ss_batch st) l ->
  wp (cancel_spaces cfg fuel l st)
    (fun r _ => exists status st', r = Some (status, st') /\ cancelled l [] st status st') s.
Proof.
  induction fuel as [|fuel IH]; intros [|i l] st s Hf Ha; cbn [cancel_spaces];
    try (apply wp_ret; eexists _, _; split; [done|]; apply cancelled_nothing); [cbn in Hf; lia|].
  set (b := bc_assert _ _). set (va := default 0 _). set (st0 := ss_set_batch b st).
  assert (Hst0 : sent [] st st0) by (by apply sent_batch; [|apply same_utlbs_eq]).
  apply wp_bind, wp_mod, wp_bind. eapply wp_mono; [apply (cancel_space_faults_spec va (i :: l) st0); exact Ha|].
  intros [[status l'] st1] s1 [[(c & Hs & Hp & Hok)] Hlen]. apply wp_bind, wp_mod.
  assert (H1 : sent c st st1) by (by eapply sent_then).
  apply wp_if; intros Hst; bprop.
  2:{ apply wp_ret. eexists _, _. split; [done|]. split. by exists c. }
  destruct (Hok Hst) as (l1 & Hl & Hc). specialize (Hlen Hst i l eq_refl eq_refl). eapply wp_mono; [apply IH|].
  - cbn in Hlen, Hf. lia.
  - eapply addresses_ok_entries; [apply H1| |exact Ha]. intros j Hj. rewrite Hl. set_solver.
  - intros r s2 (status' & st' & -> & Hca). eexists _, _. split; [done|]. rewrite Hl. by eapply cancelled_step.
Qed.

(** A flush, with the buffer in order. *)
Context (Hput : forall n, 0 <= hw_put (sa_hw answers n) < size).

Lemma flush_spec mode st s :
  buffer_ok size (ss_fb st) ->
  wp (flush answers mode st) (fun r _ => exists status st', r = Some (status, st') /\ sent [] st st') s.
Proof using Hput.
  intros Hb. unfold flush. apply wp_bind, wp_any. intros n s1. apply wp_ret.
  destruct (flush_buffer_ok env_cc (sa_hw answers n) (sa_flush answers n) mode UVM_FAULT_REPLAY_TYPE_START size
    (ss_fb st) (ss_batch st) Hb (Hput n)) as (status & fb & b & -> & Hfb & Hu & He).
  eexists _, _. split; [done|]. cbn. split; [done..|by rewrite app_nil_r|by intros].
Qed.

Lemma wp_bind_opt {A B} (m : K (option A)) (f : A -> K (option B)) (Q : option B -> kst -> Prop) s :
  wp m (fun r s' => exists a, r = Some a /\ wp (f a) Q s') s -> wp (kbind_opt m f) Q s.
Proof. intros Hm. unfold kbind_opt. apply wp_bind. eapply wp_mono; [exact Hm|]. by intros r s' (a & -> & Hf). Qed.

Lemma cancel_faults_all_spec st s :
  buffer_ok size (ss_fb st) -> addresses_ok (ss_batch st) (bc_ordered (ss_batch st)) ->
  wp (cancel_faults_all cfg answers st)
    (fun r _ => exists status st', r = Some (status, st') /\
       cancelled (bc_ordered (ss_batch st)) [] st status st') s.
Proof using Hput.
  intros Hb Ha. unfold cancel_faults_all. apply wp_bind_opt. eapply wp_mono; [by apply cancel_spaces_spec|].
  intros r s1 (status & st1 & -> & [(c & Hs & Hp & Hok)]). eexists. split; [done|]. cbv beta iota.
  apply wp_bind_opt. eapply wp_mono; [apply flush_spec, Hs, Hb|].
  intros r s2 (fst_ & st2 & -> & Hf). eexists. split; [done|]. cbv beta iota. apply wp_ret. eexists _, _. split; [done|].
  split. exists c. split; [|split; [done|]].
  - rewrite <- (app_nil_r c). by eapply sent_trans.
  - intros Hst. apply Hok. by destruct status.
Qed.
End Sent.

(** ** Locks *)

Section CancelLocks.
Context `{FaultCodes} `{E : Env} `{KernelSort}.
Context (service_copy : Z -> Z -> block_ctx -> va_block -> K (nv_status * va_block * gset Z)).
Context (Hcopy_lock : forall ls p r k b, LockSpec ls (service_copy p r k b) ls).
Context (cfg : loop_cfg) (gpu : Z) (answers : service_answers) (params : service_params).

Lemma lock_bind_opt {A B} ls ls1 (m : K (option A)) (f : A -> K (option B)) :
  LockSpec ls m ls1 -> (forall a, LockSpec ls1 (f a) ls1) -> LockSpec ls (kbind_opt m f) ls1.
Proof. intros Hm Hf. unfold kbind_opt. eapply lock_bind; [exact Hm|]. intros [a|]; [apply Hf|apply lock_ret]. Qed.

Lemma cancel_precise_lock ls i mode st : LockSpec ls (cancel_fault_precise_va cfg i mode st) ls.
Proof. unfold cancel_fault_precise_va. cbv zeta. locks. Qed.

Lemma flush_lock ls mode st : LockSpec ls (flush answers mode st) ls.
Proof. unfold flush. locks. Qed.

Lemma fetch_batch_lock ls mode st : LockSpec ls (fetch_batch answers params mode st) ls.
Proof. unfold fetch_batch. locks. Qed.

#[local] Hint Resolve cancel_precise_lock flush_lock fetch_batch_lock : locks.

Lemma cancel_space_faults_lock ls va skip l : forall st, LockSpec ls (cancel_space_faults cfg va skip l st) ls.
Proof. induction l as [|i l IH]; intros st; cbn [cancel_space_faults]; [locks|]. locks; apply IH. Qed.
#[local] Hint Resolve cancel_space_faults_lock : locks.

Lemma cancel_spaces_lock fuel : forall l st, LockSpec [] (cancel_spaces cfg fuel l st) [].
Proof.
  induction fuel as [|fuel IH]; intros [|i l] st; cbn [cancel_spaces]; [locks..|]. cbv zeta. locks; apply IH.
Qed.

Lemma cancel_faults_all_lock st : LockSpec [] (cancel_faults_all cfg answers st) [].
Proof.
  unfold cancel_faults_all. apply lock_bind_opt; [apply cancel_spaces_lock|]. intros [status st1].
  apply lock_bind_opt; [apply flush_lock|]. intros [fst_ st2]. locks.
Qed.

Lemma cancel_block_faults_lock ls n : forall i st, LockSpec ls (cancel_block_faults cfg n i st) ls.
Proof. induction n as [|n IH]; intros i st; cbn [cancel_block_faults]; [locks|]. locks; apply IH. Qed.
#[local] Hint Resolve cancel_block_faults_lock : locks.

Lemma cancel_loop_lock va fuel : forall i status st,
  LockSpec [LSpaceRead va] (cancel_loop service_copy cfg gpu fuel va i status st) [LSpaceRead va].
Proof using All.
  pose proof (fun v i k b => dispatch_lock cfg gpu service_copy Hcopy_lock va v i k b) as Hd.
  induction fuel as [|fuel IH]; intros i status st; cbn [cancel_loop]; [locks|]. cbv zeta.
  apply lock_if; [locks|]. apply lock_if; [locks|]. apply lock_if.
  - eapply lock_bind; [apply cancel_precise_lock|]. intros [status' st']. locks; apply IH.
  - eapply lock_bind; [apply Hd|]. intros [[status' n] [[v k] b]]. apply lock_if; [locks|].
    eapply lock_bind; [apply lock_ext_status|]. intros status2. apply lock_if; [locks|].
    eapply lock_bind; [apply cancel_block_faults_lock|]. intros [[status3 i'] st']. apply IH.
Qed.

Lemma for_cancel_locked_lock va st :
  LockSpec [LSpaceRead va] (for_cancel_locked service_copy cfg gpu answers params va st) [LSpaceRead va].
Proof using All.
  unfold for_cancel_locked. apply lock_bind_opt; [apply flush_lock|]. intros [status1 st1]. apply lock_if; [locks|].
  eapply lock_bind; [apply lock_ext_status|]. intros status2. apply lock_if; [locks|].
  eapply lock_bind; [apply lock_ext_status|]. intros rm. apply lock_if; [locks|]. apply lock_if; [locks|].
  apply lock_bind_opt; [apply fetch_batch_lock|]. intros [[status3 p] st3]. apply lock_if; [locks|].
  apply lock_if; [locks|]. apply cancel_loop_lock.
Qed.
End CancelLocks.

(** ** The loop over the VA space with fatal faults *)

Section CancelLoop.
Context `{FaultCodes} `{E : Env} `{KernelSort} (cfg : loop_cfg) (gpu : Z) (Hgpu : 0 < gpu) (Htests : env_tests = false).
Context (Hprot : forall v r t, UVM_FAULT_ACCESS_TYPE_WRITE <= t ->
                   writable (sv_access_prot (ft_service (lc_fault cfg v r)) t) = true).
Context (Hatomic : forall v r, sv_atomic_strong (ft_service (lc_fault cfg v r)) = UVM_FAULT_ACCESS_TYPE_ATOMIC_STRONG).
Context (Hids : forall v r, processors_ok (ft_service (lc_fault cfg v r))).
Context (Hspace : forall v r, ft_va_space (lc_fault cfg v r) = v).
Context (service_copy : Z -> Z -> block_ctx -> va_block -> K (nv_status * va_block * gset Z)).
Context (Hcopy : forall r k b s, perm_wf b ->
  wp (service_copy gpu r k b) (fun '(_, b', _) _ => follows gpu b b') s).
Context (Hcopy_lock : forall ls p r k b, LockSpec ls (service_copy p r k b) ls).
Context (size : Z) (w0 : loop_world) (start : nat) (Hw0 : world_ok cfg gpu w0).
Notation b0 := (lw_batch w0).
Context (Haddr : forall k, page_address (fe_address (entry_at b0 k))).
Notation loop_inv := (loop_inv cfg gpu w0 start).

(** What the loop does to a state, from [st]. *)
Record loop_kept (st st' : service_state) : Prop := {
  lk_guarded : forall vid, space_guarded gpu (lw_spaces (ss_world st') vid);
  lk_follows : forall vid, space_follows gpu (lw_spaces w0 vid) (lw_spaces (ss_world st') vid);
  lk_utlbs   : same_utlbs (ss_batch st) (ss_batch st');
  lk_buffer  : buffer_ok size (ss_fb st) -> buffer_ok size (ss_fb st');
}.

Lemma loop_kept_inv i st st' :
  loop_inv i (ss_world st') -> same_utlbs (ss_batch st) (ss_batch st') ->
  (buffer_ok size (ss_fb st) -> buffer_ok size (ss_fb st')) -> loop_kept st st'.
Proof. intros [] Hu Hb. by split. Qed.

Lemma loop_kept_trans st1 st2 st3 :
  same_utlbs (ss_batch st1) (ss_batch st2) -> (buffer_ok size (ss_fb st1) -> buffer_ok size (ss_fb st2)) ->
  loop_kept st2 st3 -> loop_kept st1 st3.
Proof. intros Hu Hb [? ? ? ?]. split; [done|done|by etransitivity|auto]. Qed.

Lemma sent_loop_inv l i st st' : sent size l st st' -> loop_inv i (ss_world st) -> loop_inv i (ss_world st').
Proof using Hw0.
  intros Hs Hi. pose proof (se_spaces _ _ _ _ Hs) as Hsp. pose proof (se_entries _ _ _ _ Hs) as He.
  assert (Hi' : loop_inv i (lw_set_batch (ss_batch st') (ss_world st))) by (by apply loop_inv_batch).
  destruct Hi' as [H1 H2 H3 H4 H5 H6]. split; rewrite ?Hsp; try done.
  intros p k Hp Hk. specialize (H6 p k Hp Hk). unfold settled in *. by rewrite Hsp.
Qed.

Lemma entry_address i w k : loop_inv i w -> page_address (fe_address (entry_at (lw_batch w) k)).
Proof using Haddr. intros Hi. destruct (entry_keys cfg gpu w0 start i w k Hi) as (-> & _). apply Haddr. Qed.

Lemma cancel_block_faults_spec n : forall i st s,
  (forall k, page_address (fe_address (entry_at (ss_batch st) k))) ->
  wp (cancel_block_faults cfg n i st)
    (fun '(status, i', st') _ => (exists c, sent size c st st') /\ (i <= i' <= i + n)%nat /\
       (status = NV_OK -> i' = (i + n)%nat) /\
       (status <> NV_OK -> fe_is_fatal (entry_at (ss_batch st') (ordered_at (ss_batch st') i')) = true)) s.
Proof.
  induction n as [|n IH]; intros i st s Ha; cbn [cancel_block_faults].
  { apply wp_ret. split; [exists []; apply sent_refl|]. split; [lia|]. split; [lia|done]. }
  set (h := ordered_at (ss_batch st) i).
  assert (Hnext : forall c st1 s1, sent size c st st1 ->
    wp (cancel_block_faults cfg n (S i) st1)
      (fun '(status, i', st') _ => (exists c, sent size c st st') /\ (i <= i' <= i + S n)%nat /\
         (status = NV_OK -> i' = (i + S n)%nat) /\
         (status <> NV_OK -> fe_is_fatal (entry_at (ss_batch st') (ordered_at (ss_batch st') i')) = true)) s1).
  { intros c st1 s1 Hs. eapply wp_mono; [apply IH|].
    - intros k. by rewrite (sent_entry _ _ _ _ k Hs).
    - intros [[status i'] st'] s2 ((c' & Hs') & Hi & Hok & Hf). split; [eexists; by eapply sent_trans|].
      split; [lia|]. split; [intros Hst; rewrite (Hok Hst); lia|done]. }
  apply wp_if; intros Hf; [|apply (Hnext []), sent_refl].
  apply wp_bind. eapply wp_mono; [apply (cancel_precise_spec _ size), Ha|]. intros [status st1] s1 (c & Hs & _ & _).
  apply wp_if; intros Hst; bprop; [|by apply (Hnext c)]. apply wp_ret. split; [by exists c|]. split; [lia|].
  split; [done|]. intros _. rewrite (sent_entry _ _ _ _ _ Hs). unfold ordered_at.
  by rewrite (proj2 (se_entries _ _ _ _ Hs)).
Qed.

(** Passes left from position [i]: two for a fault not known to be fatal, as a
    fault whose cancel failed is met again. *)
Definition passes (i : nat) (b : batch) : nat :=
  (2 * (length (bc_ordered b) - i) - (if fe_is_fatal (entry_at b (ordered_at b i)) then 1 else 0))%nat.

Lemma cancel_loop_spec va fuel : forall i status st s,
  loop_inv i (ss_world st) -> (passes i (ss_batch st) <= fuel)%nat ->
  wp (cancel_loop service_copy cfg gpu fuel va i status st)
    (fun r _ => exists status' st', r = Some (status', st') /\ loop_kept st st') s.
Proof using All.
  induction fuel as [|fuel IH]; intros i status st s Hi Hfuel; unfold passes in Hfuel; cbn [cancel_loop]; cbv zeta;
    (apply wp_if; intros Hend; [apply wp_ret; eexists _, _; split; [done|]; by apply (loop_kept_inv i)|]);
    apply Nat.leb_gt in Hend.
  { destruct (fe_is_fatal _); lia. }
  assert (Hord : bc_ordered (ss_batch st) = bc_ordered b0) by (by apply (ordered_lookup cfg gpu w0 start i)).
  destruct (lookup_lt_is_Some_2 _ _ Hend) as [h Hh]. rewrite (ordered_at_lookup _ _ _ Hh) in *.
  pose proof Hh as Hh0. rewrite Hord in Hh0.
  destruct (entry_keys cfg gpu w0 start i _ h Hi) as (_ & _ & Hva). fold (ss_batch st) in Hva.
  assert (Hstop : loop_kept st st) by (by apply (loop_kept_inv i)).
  apply wp_if; intros Hsp; bprop; [apply wp_ret; by eexists _, _|]. rewrite Hva in Hsp.
  apply wp_if; intros Hf; rewrite Hf in Hfuel.
  - apply wp_bind. eapply wp_mono; [apply (cancel_precise_spec _ size); by apply (entry_address i (ss_world st))|].
    intros [status1 st1] s1 (c & Hs & _ & _).
    assert (Hi1 : loop_inv i (ss_world st1)) by (by eapply sent_loop_inv).
    apply wp_if; intros Hst; bprop.
    { apply wp_ret. eexists _, _. split; [done|]. apply (loop_kept_inv i); [done|apply Hs|apply Hs]. }
    eapply wp_mono; [apply IH|].
    + replace (ss_world st1) with (lw_set_batch (ss_batch st1) (ss_world st1)) by (clear; by destruct st1 as [[]]).
      apply (skip_settled cfg gpu Hgpu Htests Hprot Hatomic Hids Hspace service_copy Hcopy Hcopy_lock w0 start Hw0
               i h va); [done|done|done|done|]. left. fold (ss_batch st1). by rewrite (sent_entry _ _ _ _ h Hs).
    + unfold passes. rewrite (proj2 (se_entries _ _ _ _ Hs)). destruct (fe_is_fatal _); lia.
    + intros r s2 (status' & st' & -> & Hk). eexists _, _. split; [done|]. eapply loop_kept_trans; [apply Hs|apply Hs|done].
  - apply wp_bind. set (w := ss_world st). eapply wp_mono.
    { apply wp_and; [by apply (dispatch_spec cfg gpu Hgpu Htests Hprot Hatomic Hids Hspace service_copy Hcopy
                               Hcopy_lock w0 start Hw0 i h va w)|apply dispatch_utlbs]. }
    intros [[status1 n] [[v k] b]] s1 [[Hi1 Hok] Hu1]. set (w1 := mk_loop_world _ k b) in *.
    set (st1 := ss_set_world w1 st). assert (Hkept : loop_kept st st1) by (by apply (loop_kept_inv i)).
    apply wp_if; intros Hst; bprop; [apply wp_ret; by eexists _, _|]. destruct (Hok Hst) as [Hn Hset].
    apply wp_bind, wp_any. intros status2 s2. apply wp_if; intros Hst2; bprop; [apply wp_ret; by eexists _, _|].
    apply wp_bind. eapply wp_mono; [apply cancel_block_faults_spec; intros k0; by apply (entry_address i w1)|].
    intros [[status3 i'] st2] s3 ((c & Hs) & Hle & Hok3 & Hbad).
    assert (Hord1 : bc_ordered (ss_batch st2) = bc_ordered b0).
    { rewrite (proj2 (se_entries _ _ _ _ Hs)). by apply (ordered_lookup cfg gpu w0 start i w1). }
    eapply wp_mono; [apply (IH i' status3 st2)|].
    + apply (sent_loop_inv c _ st1); [done|]. cbn. replace i' with (i + (i' - i))%nat by lia.
      apply loop_inv_advance; [done|]. intros p x Hp Hx. apply (Hset p x); [lia|done].
    + unfold passes. rewrite Hord1, <- Hord. assert (status3 = NV_OK \/ status3 <> NV_OK) as [Hst3|Hst3] by (destruct (decide (status3 = NV_OK)); auto).
      * specialize (Hok3 Hst3). lia.
      * rewrite (Hbad Hst3). lia.
    + intros r s4 (status' & st' & -> & Hk). eexists _, _. split; [done|].
      eapply loop_kept_trans; [|by apply (se_buffer _ _ _ _ Hs)|exact Hk]. etransitivity; [exact Hu1|apply Hs].
Qed.
End CancelLoop.

(** ** The theorem on cancelling a batch *)

Section CancelAll.
Context `{FaultCodes} `{E : Env} `{KernelSort} (cfg : loop_cfg) (answers : service_answers).

(** C12: Cancelling a batch ends with the locks released. The cancels it sends are
    those of the faults of the view in order, one per 4K for each fault of a VA
    space the GPU is registered in, in the mode a fatal fault asks for and in the
    mode that cancels every access otherwise; a failure sends a first part of
    them, status OK means that all were sent, and entries, spaces and buffer are
    kept. *)
Theorem cancel_faults_all_correct st s :
  fb_wf (ss_fb st) -> (forall n, 0 <= hw_put (sa_hw answers n) < fb_max_faults (ss_fb st)) ->
  (forall i, i ∈ bc_ordered (ss_batch st) -> page_address (fe_address (entry_at (ss_batch st) i))) ->
  k_locks s = [] -> k_lock_bug s = false ->
  exists status st' c, fst (cancel_faults_all cfg answers st s) = Some (status, st') /\
    k_locks (snd (cancel_faults_all cfg answers st s)) = [] /\
    k_lock_bug (snd (cancel_faults_all cfg answers st s)) = false /\
    ss_cancels st' = ss_cancels st ++ c /\
    c `prefix_of` cancels_of cfg (ss_batch st) (bc_ordered (ss_batch st)) /\
    (status = NV_OK -> c = cancels_of cfg (ss_batch st) (bc_ordered (ss_batch st))) /\
    same_entries (ss_batch st) (ss_batch st') /\ lw_spaces (ss_world st') = lw_spaces (ss_world st) /\
    fb_wf (ss_fb st').
Proof.
  intros Hfb Hput Ha Hl Hb. set (size := fb_max_faults (ss_fb st)) in Hput.
  assert (Hbo : buffer_ok size (ss_fb st)) by done.
  destruct (cancel_faults_all_lock cfg answers st s Hl Hb) as [Hl' Hb'].
  destruct (cancel_faults_all_spec cfg answers size Hput st s Hbo Ha) as (status & st' & Hr & [(c & Hs & Hp & Hok)]).
  exists status, st', c. split; [exact Hr|]. split; [done|]. split; [done|]. split; [apply Hs|]. split; [done|].
  split; [|split; [apply Hs|split; [apply Hs|by apply (se_buffer _ _ _ _ Hs)]]].
  intros Hst. destruct (Hok Hst) as (l1 & Hl1 & ->). by rewrite app_nil_r in Hl1; subst l1.
Qed.
End CancelAll.
