(* ===== verification/FaultHandler.v ===== *)
(** The fault handler, [uvm_gpu_service_replayable_faults] of
    [uvm_gpu_replayable_faults.c]: batches are fetched, preprocessed, serviced and
    replayed until the buffer is empty, an error stops the handler, or a limit on
    the batches of one call is reached; and the throttling of prefetch faults.
    The measurements and counters kept for profiling are left out. *)
From stdpp Require Import functions sorting.
From S2P Require Import Prelude Kernel VaBlock Permissions Tracking Accessors Service FaultBuffer FaultBatch FaultService FaultReport FaultSpace FaultLoop FaultCancel.

Section Handler.
Context `{FaultCodes} `{E : Env} `{KernelSort}.
Context (service_copy : Z -> Z -> block_ctx -> va_block -> K (nv_status * va_block * gset Z)).
Context (cfg : loop_cfg) (gpu : Z) (answers : service_answers) (params : service_params).

(** *** Prefetch faults *)

Definition uvm_parent_gpu_enable_prefetch_faults (st : service_state) : service_state :=
  if ss_prefetch st then st else ss_set_prefetch true (ss_timestamp st) st.
Definition uvm_parent_gpu_disable_prefetch_faults (now : Z) (st : service_state) : service_state :=
  if ss_prefetch st then ss_set_prefetch false now st else st.

(** More than 66% of a full batch were invalid prefetches. *)
Definition too_many_prefetches (st : service_state) : bool :=
  let n := bc_num_prefetch (ss_batch st) in
  (u32 (fb_max_batch (ss_fb st) * 2) <? u32 (n * 3)) || (env_tests && sp_simulated params && (5 <? n)).

Definition enable_disable_prefetch_faults (st : service_state) : K service_state :=
  if negb (sp_prefetch_supported params) then kret st
  else if ss_prefetch st && (0 <? sp_reenable_lapse params) && too_many_prefetches st then
    n ← tick; kret (uvm_parent_gpu_disable_prefetch_faults (sa_time answers n) st)
  else if negb (ss_prefetch st) then
    n ← tick;
    let lapse := u64 (sa_time answers n - ss_timestamp st) in
    kret (if u64 (sp_reenable_lapse params * (1000 * 1000)) <? lapse
          then uvm_parent_gpu_enable_prefetch_faults st else st)
  else kret st.

(** *** The end of a batch *)

Definition replay (st : service_state) : K (nv_status * service_state) :=
  '(status, b) ← push_replay (ss_batch st);
  kret (status, ss_set_batch b st).

(** The replay the policy asks for after a batch, with the replays it counts. *)
Definition finish_batch (st : service_state) : K (option (nv_status * Z * service_state)) :=
  match lc_policy cfg with
  | UVM_PERF_FAULT_REPLAY_POLICY_BATCH =>
      '(status, st) ← replay st;
      kret (Some (status, if is_ok status then 1 else 0, st))
  | UVM_PERF_FAULT_REPLAY_POLICY_BATCH_FLUSH =>
      let flush_mode :=
        if u32 (Z.of_nat (length (bc_cache (ss_batch st))) * sp_put_ratio params) <?
           u32 (bc_num_duplicate (ss_batch st) * 100)
        then UVM_GPU_BUFFER_FLUSH_MODE_UPDATE_PUT else UVM_GPU_BUFFER_FLUSH_MODE_CACHED_PUT in
      '(status, st) ←? flush answers flush_mode st;
      if negb (is_ok status) then kret (Some (status, 0, st))
      else status ← ext_status; kret (Some (status, 1, st))   (* uvm_tracker_wait *)
  | _ => kret (Some (NV_OK, 0, st))
  end.

(** *** The loop *)

(** [num_replays], [num_batches] and [num_throttled]. *)
Record service_counts := mk_service_counts { ct_replays : Z; ct_batches : Z; ct_throttled : Z }.
Definition add_replays (n : Z) (c : service_counts) : service_counts :=
  mk_service_counts (u32 (ct_replays c + n)) (ct_batches c) (ct_throttled c).
Definition count_batch (throttled : bool) (c : service_counts) : service_counts :=
  mk_service_counts (ct_replays c) (u32 (ct_batches c + 1))
    (if throttled then u32 (ct_throttled c + 1) else ct_throttled c).

(** How a batch ends: the handler stops, starts over without counting it, or
    goes on. *)
Inductive batch_end := Stop | Again | Next.

Definition service_batch (st : service_state) : K (option (nv_status * service_state)) :=
  '(status, w) ←? service_fault_batch service_copy cfg gpu FAULT_SERVICE_MODE_REGULAR (ss_world st);
  kret (Some (status, ss_set_world w st)).

(** A serviced batch, from its status on. *)
Definition after_service (status : nv_status) (c : service_counts) (st : service_state)
    : K (option (batch_end * nv_status * service_counts * service_state)) :=
  if negb (is_ok status) then
    '(_, st) ←? cancel_fault_batch cfg answers st;
    kret (Some (Stop, status, c, st))
  else if bool_decide (is_Some (bc_fatal_space (ss_batch st))) then
    status ← ext_status;                                   (* uvm_tracker_wait *)
    if negb (is_ok status) then kret (Some (Stop, status, c, st))
    else
      '(status, st) ←? cancel_faults_precise service_copy cfg gpu answers params st;
      if negb (is_ok status) then kret (Some (Stop, status, c, st))
      else
        let st := ss_set_batch (bc_assert (0 <? bc_num_replays (ss_batch st)) (ss_batch st)) st in
        kret (Some (Next, status, count_batch false c, st))
  else
    '(status, n, st) ←? finish_batch st;
    if negb (is_ok status) then kret (Some (Stop, status, add_replays n c, st))
    else kret (Some (Next, status, count_batch (bc_has_throttled (ss_batch st)) (add_replays n c), st)).

Definition service_one (c : service_counts) (st : service_state)
    : K (option (batch_end * nv_status * service_counts * service_state)) :=
  '(status, preprocessed, st) ←? fetch_batch answers params FAULT_FETCH_MODE_BATCH_READY (reset_batch st);
  if negb preprocessed then kret (Some (Stop, status, c, st))
  else
    let c := add_replays (bc_num_replays (ss_batch st)) c in
    if bool_decide (status = NV_WARN_MORE_PROCESSING_REQUIRED) then kret (Some (Again, status, c, st))
    else if negb (is_ok status) then kret (Some (Stop, status, c, st))
    else
      '(status, st) ←? service_batch st;
      let c := add_replays (bc_num_replays (ss_batch st)) c in
      st ← enable_disable_prefetch_faults st;
      after_service status c st.

(** The limits on throttled and on serviced batches of one call. *)
Definition at_limit (c : service_counts) : bool :=
  (sp_max_throttle params <=? ct_throttled c) || (sp_max_batches params <=? ct_batches c).

(** A batch that is flushed while it is preprocessed is not counted, so that the
    limits do not bound the loop of the code: [None] is a run not followed to its
    end. *)
Fixpoint service_batches (fuel : nat) (status : nv_status) (c : service_counts) (st : service_state)
    : K (option (nv_status * service_counts * service_state)) :=
  if at_limit c then kret (Some (status, c, st))
  else
    match fuel with
    | O => kret None
    | S fuel' =>
        '(how, status, c, st) ←? service_one c st;
        match how with
        | Stop => kret (Some (status, c, st))
        | Again | Next => service_batches fuel' status c st
        end
    end.

(** [None]: more than [flushes] batches were flushed. *)
Definition uvm_gpu_service_replayable_faults (flushes : nat) (st : service_state)
    : K (option (nv_status * service_state)) :=
  '(status, c, st) ←? service_batches (Z.to_nat (sp_max_batches params) + flushes) NV_OK
                        (mk_service_counts 0 0 0) st;
  let status := if bool_decide (status = NV_WARN_MORE_PROCESSING_REQUIRED) then NV_OK else status in
  if (is_ok status && bool_decide (lc_policy cfg = UVM_PERF_FAULT_REPLAY_POLICY_ONCE)) || (ct_replays c =? 0)
  then
    '(status, st) ← replay st;
    kret (Some (status, st))
  else kret (Some (status, st)).

(** The loop run from here flushes at least [n] batches. *)
Inductive flushes_batches : nat -> service_counts -> service_state -> kst -> Prop :=
| flushes_none c st s : flushes_batches 0 c st s
| flushes_again n c st s status c' st' s' :
    at_limit c = false -> service_one c st s = (Some (Again, status, c', st'), s') ->
    flushes_batches n c' st' s' -> flushes_batches (S n) c st s
| flushes_next n c st s status c' st' s' :
    at_limit c = false -> service_one c st s = (Some (Next, status, c', st'), s') ->
    flushes_batches n c' st' s' -> flushes_batches n c st s.
End Handler.
