(* ===== verification/FaultHandlerSpec.v ===== *)
(** What the fault handler guarantees: whatever the GPU, the pushes and the VA
    spaces answer, it ends, it leaves no lock held, and every space it touched
    still is guarded, its blocks only ever going forward. *)
From stdpp Require Import functions sorting.
From S2P Require Import Prelude Kernel VaBlock Permissions Tracking Accessors Service FaultBuffer FaultBatch FaultService FaultReport FaultSpace FaultLoop FaultLoopSpec FaultCancel FaultCancelSpec FaultHandler.

Section Handler.
Context `{FaultCodes} `{E : Env} `{KernelSort} (cfg : loop_cfg) (gpu : Z) (Hgpu : 0 < gpu) (Htests : env_tests = false).
Context (Hprot : forall v r t, UVM_FAULT_ACCESS_TYPE_WRITE <= t ->
                   writable (sv_access_prot (ft_service (lc_fault cfg v r)) t) = true).
Context (Hatomic : forall v r, sv_atomic_strong (ft_service (lc_fault cfg v r)) = UVM_FAULT_ACCESS_TYPE_ATOMIC_STRONG).
Context (Hids : forall v r, processors_ok (ft_service (lc_fault cfg v r))).
Context (Hspace : forall v r, ft_va_space (lc_fault cfg v r) = v).
Context (service_copy : Z -> Z -> block_ctx -> va_block -> K (nv_status * va_block * gset Z)).
Context (Hcopy : forall r k b s, perm_wf b ->
  wp (service_copy gpu r k b) (fun '(_, b', _) _ => follows gpu b b') s).
Context (Hcopy_lock : forall ls p r k b, LockSpec ls (service_copy p r k b) ls).
Context (answers : service_answers) (params : service_params) (size : Z).

(** What the GPU shows and the translations answer, for a buffer of [size]
    entries. *)
Record answers_ok : Prop := {
  ao_put       : forall n, 0 <= hw_put (sa_hw answers n) < size;
  ao_packet    : forall n i, let e := snd (hw_parse (sa_hw answers n) i) in
                   0 <= fe_utlb e /\ fe_access e < UVM_FAULT_ACCESS_TYPE_COUNT /\ 0 <= fe_address e < 2 ^ 64;
  ao_tput      : forall m, 0 <= hw_put (tc_hw (sa_translate answers m)) < size;
  ao_instance  : forall m e e', same_instance e e' ->
                   tc_to_va_space (sa_translate answers m) e = tc_to_va_space (sa_translate answers m) e';
  ao_space     : forall m e, fst (tc_to_va_space (sa_translate answers m) e) = NV_OK ->
                   exists vid, snd (tc_to_va_space (sa_translate answers m) e) = Some vid /\ 0 < vid;
  ao_unmixed   : forall n m fb k, unmixed (sa_translate answers m) (sa_hw answers n) fb k;
}.
Context (Hans : answers_ok).

(** ** The invariant *)

(** What every step of the handler keeps, from the world [w0] on. *)
Context (w0 : loop_world).

Definition utlbs_ok (b : batch) : Prop := forall u, ~ (0 <= u <= bc_max_utlb b) -> ut_pending (bc_utlbs b u) = 0.

Lemma utlbs_ok_same b b' : same_utlbs b b' -> utlbs_ok b -> utlbs_ok b'.
Proof. intros [Hm Hp] Hb u. rewrite Hm, Hp. apply Hb. Qed.

Record handler_inv (st : service_state) : Prop := {
  hi_spaces  : spaces_ok cfg gpu (ss_world st);
  hi_follows : forall vid, space_follows gpu (lw_spaces w0 vid) (lw_spaces (ss_world st) vid);
  hi_buffer  : buffer_ok size (ss_fb st);
  hi_utlbs   : utlbs_ok (ss_batch st);
}.

Lemma spaces_ok_follows w w' :
  spaces_ok cfg gpu w -> (forall vid, space_guarded gpu (lw_spaces w' vid)) ->
  (forall vid, space_follows gpu (lw_spaces w vid) (lw_spaces w' vid)) -> spaces_ok cfg gpu w'.
Proof.
  intros [Hg Hr] Hg' Hf. split.
  - intros vid. split; [apply Hg'|]. rewrite (sf_id _ _ _ (Hf vid)). apply Hg.
  - intros vid r addr b Hin Hm Ha Hb. pose proof Hin as Hin'. apply list_elem_of_lookup_1 in Hin' as [j Hj].
    destruct (Forall2_lookup_r _ _ _ _ _ (sf_ranges _ _ _ (Hf vid)) Hj) as (r0 & Hj0 & Hrf).
    pose proof (list_elem_of_lookup_2 _ _ _ Hj0) as Hin0. pose proof Hm as Hm0.
    rewrite (is_managed_ext r0 r) in Hm0 by apply Hrf. rewrite (range_holds_ext r0 r) in Ha by apply Hrf.
    destruct (Hr vid r0 addr b Hin0 Hm0 Ha Hb) as [Hgd Hs]. split; [done|].
    rewrite (block_index_follows gpu r0 r) by done. apply (in_slot_follows gpu r0); [| |done|done].
    + by apply (vw_ranges _ (sg_wf _ _ (proj1 (Hg vid)))).
    + by apply (vw_ranges _ (sg_wf _ _ (Hg' vid))).
Qed.

Lemma handler_inv_follows st st' :
  handler_inv st -> (forall vid, space_guarded gpu (lw_spaces (ss_world st') vid)) ->
  (forall vid, space_follows gpu (lw_spaces (ss_world st) vid) (lw_spaces (ss_world st') vid)) ->
  (buffer_ok size (ss_fb st) -> buffer_ok size (ss_fb st')) -> utlbs_ok (ss_batch st') -> handler_inv st'.
Proof.
  intros [Hs Hf Hb _] Hg Hf' Hb' Hu. split; [by eapply spaces_ok_follows| |auto|done].
  intros vid. etransitivity; [apply Hf|apply Hf'].
Qed.

(** The spaces are those of [st]. *)
Lemma handler_inv_same st st' :
  handler_inv st -> lw_spaces (ss_world st') = lw_spaces (ss_world st) -> buffer_ok size (ss_fb st') ->
  utlbs_ok (ss_batch st') -> handler_inv st'.
Proof.
  intros Hi Hsp Hb Hu. apply (handler_inv_follows st); rewrite ?Hsp; try done. intros vid. apply Hi.
Qed.

Lemma sent_handler_inv l st st' : sent size l st st' -> handler_inv st -> handler_inv st'.
Proof.
  intros Hs Hi. apply (handler_inv_same st); [done|apply Hs|by apply (se_buffer _ _ _ _ Hs), Hi|].
  eapply utlbs_ok_same; [apply Hs|apply Hi].
Qed.

Lemma reset_handler_inv st : handler_inv st -> handler_inv (reset_batch st) /\ batch_wf (ss_batch (reset_batch st)).
Proof.
  intros Hi. split; [apply (handler_inv_same st); [done|done|apply Hi|apply Hi]|].
  split; [done|apply Hi].
Qed.

(** ** Fetching *)

(** A preprocessed batch, ready to be serviced. *)
Record batch_ready (st : service_state) : Prop := {
  br_world   : world_ok cfg gpu (ss_world st);
  br_address : forall k, page_address (fe_address (entry_at (ss_batch st) k));
}.

Lemma fetch_batch_spec mode st s :
  handler_inv st -> batch_wf (ss_batch st) ->
  wp (fetch_batch answers params mode st)
    (fun r _ => exists status pre st', r = Some (status, pre, st') /\ handler_inv st' /\
       (pre = true -> status = NV_OK -> batch_ready st')) s.
Proof using Hans.
  intros Hi Hb. unfold fetch_batch. apply wp_bind, wp_any. intros n s1. set (hw := sa_hw answers n).
  pose proof (bo_wf _ _ (hi_buffer _ Hi)) as Hwf. pose proof (bo_size _ _ (hi_buffer _ Hi)) as Hsz.
  assert (Hhw : hw_wf (ss_fb st) hw) by (split; [rewrite Hsz; apply Hans|intros i; exact (proj1 (ao_packet Hans n i))]).
  destruct (fetch_fault_buffer_entries_spec hw (sp_coalesce params) true mode (ss_fb st) (ss_batch st) Hwf Hhw Hb)
    as (status & fb & b & -> & Hwf1 & _ & Hmax & _ & Hn & Hcore & _ & _ & Hfi).
  set (st1 := ss_set_fb fb (ss_set_batch b st)).
  assert (Hfb : buffer_ok size fb) by (split; [done|congruence]).
  assert (Hi1 : handler_inv st1) by (apply (handler_inv_same st); [done|done|done|exact (bw_utlbs _ (fetch_inv_wf b Hfi))]).
  apply wp_if; intros Hst; [apply wp_ret; by eexists _, _, _|].
  apply wp_if; intros Hne; [apply wp_ret; by eexists _, _, _|].
  apply wp_bind, wp_any. intros m s2. apply wp_ret. set (calls := sa_translate answers m).
  destruct (preprocess_utlbs calls size (ao_tput Hans m) fb b Hfb) as (status2 & fb2 & b2 & Heq & Hfb2 & Hu2).
  rewrite Heq. eexists _, _, _. split; [done|].
  assert (Hi2 : handler_inv (ss_set_fb fb2 (ss_set_batch b2 st1))).
  { apply (handler_inv_same st1); [done|done|done|]. eapply utlbs_ok_same; [exact Hu2|exact (bw_utlbs _ (fetch_inv_wf b Hfi))]. }
  split; [exact Hi2|]. intros _ ->. bprop.
  assert (Hput : 0 <= hw_put (tc_hw calls) < fb_max_faults fb) by (rewrite (bo_size _ _ Hfb); apply Hans).
  assert (Hsome : forall e, fst (tc_to_va_space calls e) = NV_OK -> is_Some (snd (tc_to_va_space calls e)))
    by (intros e He; destruct (ao_space Hans m e He) as (vid & Hv & _); eauto).
  destruct (preprocess_fault_batch_spec calls (ao_instance Hans m) Hsome fb b Hwf1 Hput Hfi Hne)
    as (st' & fb' & b' & Heq' & Hpp).
  rewrite Heq in Heq'. injection Heq' as <- <- <-. destruct (Hpp eq_refl) as [_ Hp].
  fold (cached hw (ss_fb st) b) in Hcore.
  assert (Hlt : Z.of_nat (length (bc_cache b)) < 2 ^ 32)
    by (pose proof (distance_range fb (fw_max _ Hwf1) (fb_get (ss_fb st))); pose proof (fw_max _ Hwf1); lia).
  split.
  - apply (preprocessed_world cfg gpu calls hw (ao_instance Hans m) (ao_space Hans m)
      (fun i => proj1 (proj2 (ao_packet Hans n i))) (ss_fb st) b); [apply Hi2|done|done|done|apply Hans].
  - intros k. cbn. destruct (bc_cache b !! k) as [e|] eqn:Hk.
    + pose proof (fe_core_packet _ _ (cached_core hw _ _ _ _ Hcore Hk)) as Hc.
      pose proof (pp_entries _ _ _ Hp k e Hk) as He. unfold entry_at. rewrite He. cbn.
      assert (Ha : fe_address (if unfiltered e then translated calls e else e) = fe_address (fault_at hw (ss_fb st) (Z.of_nat k))).
      { unfold fe_address. rewrite <- Hc. by destruct (unfiltered e). }
      rewrite Ha. unfold fault_at, init_entry, fe_address. cbn.
      pose proof (proj2 (proj2 (ao_packet Hans n (ring_at (ss_fb st) (fb_get (ss_fb st)) (Z.of_nat k))))) as Hr.
      unfold fe_address in Hr. fold hw in Hr. unfold page_address, UVM_PAGE_ALIGN_DOWN, PAGE_SIZE in *. zlia.
    + assert (Hk2 : bc_cache b2 !! k = None) by (apply lookup_ge_None; rewrite (pp_length _ _ _ Hp); by apply lookup_ge_None).
      unfold entry_at. rewrite Hk2. by cbn.
Qed.

(** ** Cancelling *)

Lemma wp_unlocked {A} (m : K A) (Q : A -> kst -> Prop) s :
  LockSpec [] m [] -> locked 0 s -> wp m Q s -> wp m (fun a s' => Q a s' /\ locked 0 s') s.
Proof. intros Hl Hs Hm. apply wp_and; [done|]. by apply (wp_locked 0 0). Qed.

(** How a part of the handler ends. *)
Definition ended (r : option (nv_status * service_state)) (s : kst) : Prop :=
  exists status st, r = Some (status, st) /\ handler_inv st /\ locked 0 s.

Lemma for_cancel_locked_spec va st s :
  handler_inv st ->
  wp (for_cancel_locked service_copy cfg gpu answers params va st)
    (fun r _ => exists status st', r = Some (status, st') /\ handler_inv st') s.
Proof using All.
  intros Hi. unfold for_cancel_locked. apply wp_bind_opt.
  eapply wp_mono; [apply (flush_spec answers size (ao_put Hans)), Hi|]. intros r s1 (status1 & st1 & -> & Hs).
  eexists. split; [done|]. cbv beta iota. assert (Hi1 : handler_inv st1) by (by eapply sent_handler_inv).
  assert (Hret : forall status, exists (status' : nv_status) st', Some (status, st1) = Some (status', st') /\ handler_inv st')
    by (intros status; by eexists _, _).
  apply wp_if; intros _; [apply wp_ret, Hret|]. apply wp_bind, wp_any. intros status2 s2.
  apply wp_if; intros _; [apply wp_ret, Hret|]. apply wp_bind, wp_any. intros rm s3.
  apply wp_if; intros _; [apply wp_ret, Hret|]. apply wp_if; intros _; [apply wp_ret, Hret|].
  destruct (reset_handler_inv st1 Hi1) as [Hi2 Hb2]. apply wp_bind_opt.
  eapply wp_mono; [by apply fetch_batch_spec|]. intros r s4 (status4 & pre & st4 & -> & Hi4 & Hready).
  eexists. split; [done|]. cbv beta iota. apply wp_if; intros _; [apply wp_ret; by eexists _, _|].
  apply wp_if; intros Hst; [apply wp_ret; by eexists _, _|]. apply orb_false_elim in Hst as [Hpre Hst]. bprop.
  destruct (Hready Hpre Hst) as [Hw Ha]. set (start := first_of_space va (ss_batch st4)).
  eapply wp_mono; [apply (cancel_loop_spec cfg gpu Hgpu Htests Hprot Hatomic Hids Hspace service_copy Hcopy
    Hcopy_lock size (ss_world st4) start Hw Ha)|].
  - by apply loop_inv_start.
  - unfold passes. destruct (fe_is_fatal _); lia.
  - intros r s5 (status5 & st5 & -> & [Hg Hf Hu Hb]). eexists _, _. split; [done|].
    apply (handler_inv_follows st4); [done|done|done|done|]. eapply utlbs_ok_same; [exact Hu|apply Hi4].
Qed.

Lemma for_cancel_spec st s :
  handler_inv st -> locked 0 s ->
  wp (service_fault_batch_for_cancel service_copy cfg gpu answers params st) ended s.
Proof using All.
  intros Hi Hs. unfold service_fault_batch_for_cancel. cbv zeta. set (st0 := ss_set_batch _ st).
  assert (Hi0 : handler_inv st0).
  { apply (sent_handler_inv [] st); [|done]. apply sent_batch; [done|by apply same_utlbs_eq]. }
  set (va := default 0 _). clearbody st0 va. apply wp_bind.
  eapply wp_lock; [apply (lock_acq (LSpaceRead va) []); set_solver|apply Hs|apply Hs|]. intros _ s1 Hl1 Hb1.
  apply wp_bind_opt. eapply wp_mono.
  { apply wp_and; [by apply for_cancel_locked_spec|]. eapply wp_lock; [by apply for_cancel_locked_lock|done|done|].
    intros a s2 Hl2 Hb2. exact (conj Hl2 Hb2). }
  intros r s2 [(status & st2 & -> & Hi2) [Hl2 Hb2]]. eexists. split; [done|]. cbv beta iota. apply wp_bind.
  eapply wp_lock; [apply (lock_rel (LSpaceRead va) []); set_solver|done|done|]. intros _ s3 Hl3 Hb3.
  apply wp_if; intros _; [|apply wp_ret; by eexists _, _].
  eapply wp_mono; [apply wp_unlocked; [apply flush_lock|by split|]; apply (flush_spec answers size (ao_put Hans)), Hi2|].
  intros r s4 [(status4 & st4 & -> & Hs4) Hl4]. eexists _, _. split; [done|]. split; [|done].
  by eapply sent_handler_inv.
Qed.

Lemma cancel_precise_ended st s :
  handler_inv st -> locked 0 s -> wp (cancel_faults_precise service_copy cfg gpu answers params st) ended s.
Proof using All.
  intros Hi Hs. unfold cancel_faults_precise. apply for_cancel_spec; [|done].
  apply (sent_handler_inv [] st); [|done]. apply sent_batch; [done|by apply same_utlbs_eq].
Qed.

Lemma cancel_batch_ended st s :
  handler_inv st -> locked 0 s -> (forall k, page_address (fe_address (entry_at (ss_batch st) k))) ->
  wp (cancel_fault_batch cfg answers st) ended s.
Proof using All.
  intros Hi Hs Ha. unfold cancel_fault_batch.
  eapply wp_mono; [apply wp_unlocked; [apply cancel_faults_all_lock|done|]|].
  { apply (cancel_faults_all_spec cfg answers size (ao_put Hans)); [apply Hi|]. by intros k _. }
  intros r s1 [(status & st1 & -> & [(c & Hc & _)]) Hl]. eexists _, _. split; [done|]. split; [|done].
  by eapply sent_handler_inv.
Qed.

(** ** The end of a batch *)

Lemma replay_sent st s : wp (replay st) (fun '(_, st') _ => sent size [] st st') s.
Proof.
  unfold replay. apply wp_bind. eapply wp_mono; [apply wp_and; [apply push_replay_spec|apply push_replay_utlbs]|].
  intros [status b] s1 [He Hu]. apply wp_ret. by apply sent_batch.
Qed.

Lemma replay_lock ls st : LockSpec ls (replay st) ls.
Proof. unfold replay, push_replay. locks. Qed.

Lemma finish_batch_spec st s :
  handler_inv st -> locked 0 s ->
  wp (finish_batch cfg answers params st)
    (fun r s' => exists status n st', r = Some (status, n, st') /\ handler_inv st' /\ locked 0 s') s.
Proof using Hans.
  intros Hi Hs. unfold finish_batch. destruct (lc_policy cfg); [apply wp_ret; by eexists _, _, _| | |apply wp_ret; by eexists _, _, _].
  - apply wp_bind. eapply wp_mono; [apply wp_unlocked; [apply replay_lock|done|apply replay_sent]|].
    intros [status st1] s1 [H1 Hl]. apply wp_ret. eexists _, _, _. split; [done|]. split; [|done].
    by eapply sent_handler_inv.
  - apply wp_bind_opt. eapply wp_mono; [apply wp_unlocked; [apply flush_lock|done|]; apply (flush_spec answers size (ao_put Hans)), Hi|].
    intros r s1 [(status & st1 & -> & H1) Hl]. eexists. split; [done|]. cbv beta iota.
    assert (Hi1 : handler_inv st1) by (by eapply sent_handler_inv).
    apply wp_if; intros _; [apply wp_ret; by eexists _, _, _|]. apply wp_bind.
    apply (wp_locked 0 0); [apply lock_ext_status|done|]. intros status2 s2 Hl2. apply wp_ret. by eexists _, _, _.
Qed.

Lemma enable_disable_sent st s :
  wp (enable_disable_prefetch_faults answers params st) (fun st' _ => sent size [] st st') s.
Proof.
  unfold enable_disable_prefetch_faults. pose proof (sent_refl size st) as Hr.
  assert (Hp : forall on time, sent size [] st (ss_set_prefetch on time st)) by (intros; split; try done; by rewrite app_nil_r).
  apply wp_if; intros _; [by apply wp_ret|]. apply wp_if; intros _.
  { apply wp_bind, wp_any. intros n s1. apply wp_ret. unfold uvm_parent_gpu_disable_prefetch_faults. by destruct (ss_prefetch st). }
  apply wp_if; intros _; [|by apply wp_ret]. apply wp_bind, wp_any. intros n s1. apply wp_ret.
  unfold uvm_parent_gpu_enable_prefetch_faults. by destruct (_ <? _), (ss_prefetch st).
Qed.

Lemma enable_disable_lock ls st : LockSpec ls (enable_disable_prefetch_faults answers params st) ls.
Proof. unfold enable_disable_prefetch_faults. locks. Qed.

(** ** The loop *)

(** How an iteration ends. *)
Definition iterated (c : service_counts) (r : option (batch_end * nv_status * service_counts * service_state)) (s : kst) : Prop :=
  exists how status c' st, r = Some (how, status, c', st) /\ handler_inv st /\ locked 0 s /\
    ct_batches c' = match how with Next => u32 (ct_batches c + 1) | _ => ct_batches c end.

Lemma after_service_spec status c st s :
  handler_inv st -> locked 0 s -> (forall k, page_address (fe_address (entry_at (ss_batch st) k))) ->
  wp (after_service service_copy cfg gpu answers params status c st) (iterated c) s.
Proof using All.
  intros Hi Hs Ha. unfold after_service. apply wp_if; intros _.
  { apply wp_bind_opt. eapply wp_mono; [by apply cancel_batch_ended|]. intros r s1 (status1 & st1 & -> & Hi1 & Hl1).
    eexists. split; [done|]. cbv beta iota. apply wp_ret. by exists Stop, status, c, st1. }
  apply wp_if; intros _.
  - apply wp_bind. apply (wp_locked 0 0); [apply lock_ext_status|done|]. intros status1 s1 Hl1.
    apply wp_if; intros _; [apply wp_ret; by exists Stop, status1, c, st|]. apply wp_bind_opt.
    eapply wp_mono; [by apply cancel_precise_ended|]. intros r s2 (status2 & st2 & -> & Hi2 & Hl2).
    eexists. split; [done|]. cbv beta iota. apply wp_if; intros _; [apply wp_ret; by exists Stop, status2, c, st2|].
    apply wp_ret. eexists Next, _, _, _. split; [done|]. split; [|done]. apply (sent_handler_inv [] st2); [|done].
    apply sent_batch; [done|by apply same_utlbs_eq].
  - apply wp_bind_opt. eapply wp_mono; [by apply finish_batch_spec|]. intros r s1 (status1 & n & st1 & -> & Hi1 & Hl1).
    eexists. split; [done|]. cbv beta iota. apply wp_if; intros _; apply wp_ret; [by eexists Stop, _, _, _|by eexists Next, _, _, _].
Qed.

(** A batch serviced: its faults keep their addresses. *)
Lemma service_batch_spec st s :
  handler_inv st -> batch_ready st -> locked 0 s ->
  wp (service_batch service_copy cfg gpu st)
    (fun r s' => exists status st', r = Some (status, st') /\ handler_inv st' /\ locked 0 s' /\
       forall k, page_address (fe_address (entry_at (ss_batch st') k))) s.
Proof using All.
  intros Hi [Hw Ha] Hs. unfold service_batch. apply wp_bind_opt. eapply wp_mono.
  { apply wp_and; [|apply service_fault_batch_utlbs].
    by apply (service_fault_batch_spec cfg gpu Hgpu Htests Hprot Hatomic Hids Hspace service_copy Hcopy Hcopy_lock). }
  intros r s1 [(Hl & status & w & -> & [Hg Hf Hk _ _]) Hu]. eexists. split; [done|]. cbv beta iota. apply wp_ret.
  eexists _, _. split; [done|]. split; [|split; [done|]].
  - apply (handler_inv_follows st); [done|done|done|done|]. eapply utlbs_ok_same; [exact Hu|apply Hi].
  - intros k. destruct (same_key_fields _ _ (sk_key _ _ Hk k)) as (Hak & _). change (page_address (fe_address (entry_at (lw_batch w) k))). rewrite Hak. apply Ha.
Qed.

Lemma service_one_spec c st s :
  handler_inv st -> locked 0 s ->
  wp (service_one service_copy cfg gpu answers params c st) (iterated c) s.
Proof using All.
  intros Hi Hs. unfold service_one. destruct (reset_handler_inv st Hi) as [Hi0 Hb0]. apply wp_bind_opt.
  eapply wp_mono; [apply wp_unlocked; [apply fetch_batch_lock|done|by apply fetch_batch_spec]|].
  intros r s1 [(status1 & pre & st1 & -> & Hi1 & Hready) Hl1]. eexists. split; [done|]. cbv beta iota zeta.
  apply wp_if; intros Hpre; bprop; [apply wp_ret; by eexists Stop, _, _, _|].
  apply wp_if; intros _; [apply wp_ret; by eexists Again, _, _, _|].
  apply wp_if; intros Hst; bprop; [apply wp_ret; by eexists Stop, _, _, _|].
  apply wp_bind_opt. eapply wp_mono; [apply service_batch_spec; [done|by apply Hready|done]|].
  intros r s2 (status2 & st2 & -> & Hi2 & Hl2 & Ha2). eexists. split; [done|]. cbv beta iota. apply wp_bind.
  eapply wp_mono; [apply wp_unlocked; [apply enable_disable_lock|done|apply enable_disable_sent]|].
  intros st3 s3 [H3 Hl3]. eapply wp_mono; [apply after_service_spec; [by eapply sent_handler_inv|done|]|].
  - intros k. by rewrite (sent_entry _ _ _ _ k H3).
  - intros r s4 (how & status4 & c' & st4 & -> & Hi4 & Hl4 & Hc). by eexists _, _, _, _.
Qed.

Lemma wp_run {A} (m : K A) (Q : A -> kst -> Prop) s :
  wp m Q s -> wp m (fun a s' => Q a s' /\ m s = (a, s')) s.
Proof. unfold wp. by destruct (m s). Qed.

(** Every pass uses up a batch of the limit or flushes one. *)
Lemma service_batches_spec fuel : forall status c st s,
  0 <= ct_batches c -> sp_max_batches params < 2 ^ 32 -> handler_inv st -> locked 0 s ->
  wp (service_batches service_copy cfg gpu answers params fuel status c st)
    (fun r s' => match r with
       | Some (_, _, st') => handler_inv st' /\ locked 0 s'
       | None => forall n, (Z.to_nat (sp_max_batches params - ct_batches c) + n <= fuel)%nat ->
                   flushes_batches service_copy cfg gpu answers params (S n) c st s
       end) s.
Proof using All.
  induction fuel as [|fuel IH]; intros status c st s Hc Hmax Hi Hs; cbn [service_batches];
    (apply wp_if; intros Hlim; [by apply wp_ret|]);
    assert (ct_batches c < sp_max_batches params) as Hlt
      by (apply orb_false_elim in Hlim as [_ Hlim]; btest; lia); [apply wp_ret; lia|].
  apply wp_bind_opt. eapply wp_mono; [by apply wp_run, service_one_spec|].
  intros r s1 [(how & status1 & c1 & st1 & -> & Hi1 & Hl1 & Hc1) Hrun]. eexists. split; [done|]. cbv beta iota.
  destruct how; [by apply wp_ret|..].
  - eapply wp_mono; [apply IH; [by rewrite Hc1|done..]|]. rewrite Hc1.
    intros [[[status2 c2] st2]|] s2 H2; [done|]. intros [|n] Hn; (eapply flushes_again; [done|exact Hrun|]).
    + constructor.
    + apply H2. lia.
  - rewrite u32_small in Hc1 by lia.
    eapply wp_mono; [apply IH; [rewrite Hc1; lia|done..]|]. rewrite Hc1.
    intros [[[status2 c2] st2]|] s2 H2; [done|]. intros n Hn. eapply flushes_next; [done|exact Hrun|]. apply H2. lia.
Qed.

(** [n] batches at most need to be followed beyond the limit, unless more are
    flushed. *)
Lemma handler_spec n st s :
  0 <= sp_max_batches params < 2 ^ 32 -> handler_inv st -> locked 0 s ->
  wp (uvm_gpu_service_replayable_faults service_copy cfg gpu answers params n st)
    (fun r s' => match r with
       | Some (_, st') => handler_inv st' /\ locked 0 s'
       | None => flushes_batches service_copy cfg gpu answers params (S n) (mk_service_counts 0 0 0) st s
       end) s.
Proof using All.
  intros Hmax Hi Hs. unfold uvm_gpu_service_replayable_faults. apply wp_bind.
  eapply wp_mono; [apply service_batches_spec; cbn; [lia|lia|done|done]|].
  intros [[[status c] st1]|] s1 H1; [|apply wp_ret, H1; cbn; lia]. destruct H1 as [Hi1 Hl1]. cbv zeta.
  apply wp_if; intros _; [|by apply wp_ret]. apply wp_bind.
  eapply wp_mono; [apply wp_unlocked; [apply replay_lock|done|apply replay_sent]|].
  intros [status2 st2] s2 [H2 Hl2]. apply wp_ret. split; [|done]. by eapply sent_handler_inv.
Qed.
End Handler.

(** ** The theorem *)

Section Handled.
Context `{FaultCodes} `{E : Env} `{KernelSort} (cfg : loop_cfg) (gpu : Z) (Hgpu : 0 < gpu) (Htests : env_tests = false).
Context (Hprot : forall v r t, UVM_FAULT_ACCESS_TYPE_WRITE <= t ->
                   writable (sv_access_prot (ft_service (lc_fault cfg v r)) t) = true).
Context (Hatomic : forall v r, sv_atomic_strong (ft_service (lc_fault cfg v r)) = UVM_FAULT_ACCESS_TYPE_ATOMIC_STRONG).
Context (Hids : forall v r, processors_ok (ft_service (lc_fault cfg v r))).
Context (Hspace : forall v r, ft_va_space (lc_fault cfg v r) = v).
Context (service_copy : Z -> Z -> block_ctx -> va_block -> K (nv_status * va_block * gset Z)).
Context (Hcopy : forall r k b s, perm_wf b ->
  wp (service_copy gpu r k b) (fun '(_, b', _) _ => follows gpu b b') s).
Context (Hcopy_lock : forall ls p r k b, LockSpec ls (service_copy p r k b) ls).
Context (answers : service_answers) (params : service_params).

End Handled.
