(* ===== verification/Runs.v ===== *)
(** Coalescing of GPU pages into transfers: [lm_mt_build_runs] of
    [uvm_live_migration.c] and the identical loops inlined in the handlers.

    The page array is a list; a run is the index of its first page and its
    length in bytes, as [rl_s] and [rl_b] hold them. *)
From S2P Require Import Prelude Kernel VaBlock ConfComputing.

(** [struct live_migration_gpu_page]. *)
Record gpu_page := mk_gpu_page { gp_phys : phys_address; gp_off : Z }.

#[export] Instance gpu_page_eq_dec : EqDecision gpu_page.
Proof. solve_decision. Defined.

Record run := mk_run { rn_start : Z; rn_bytes : Z }.

#[export] Instance run_eq_dec : EqDecision run.
Proof. solve_decision. Defined.

(** The condition of the inner loop: [p] follows [cur] in physical memory and in
    the output buffer, in the aperture of the run's first page. *)
Definition extends (first cur p : gpu_page) : bool :=
  (pa_address (gp_phys p) =? u64 (pa_address (gp_phys cur) + PAGE_SIZE))
  && bool_decide (pa_aperture (gp_phys p) = pa_aperture (gp_phys first))
  && (gp_off p =? u64 (gp_off cur + PAGE_SIZE)).

(** The inner loop: the bytes of the run and the pages left after it. *)
Fixpoint extend_run (max_xfer : Z) (first cur : gpu_page) (rb : Z) (rest : list gpu_page)
    : Z * list gpu_page :=
  match rest with
  | p :: rest' =>
      if extends first cur p && (u64 (rb + PAGE_SIZE) <=? max_xfer)
      then extend_run max_xfer first p (u64 (rb + PAGE_SIZE)) rest'
      else (rb, rest)
  | [] => (rb, [])
  end.

(** The runs of a page list, page [i] being its first; one unit of fuel per run. *)
Fixpoint coalesce_from (fuel : nat) (max_xfer i : Z) (pages : list gpu_page) : list run :=
  match fuel, pages with
  | S fuel', p :: rest =>
      let '(rb, rest') := extend_run max_xfer p p PAGE_SIZE rest in
      mk_run i rb :: coalesce_from fuel' max_xfer (i + rb / PAGE_SIZE) rest'
  | _, _ => []
  end.

Definition coalesce (max_xfer : Z) (pages : list gpu_page) : list run :=
  coalesce_from (length pages) max_xfer 0 pages.

Section BuildRuns.
Context `{E : Env}.

(** The arrays [rl_s] and [rl_b] of capacity [rc] are two allocations, none
    while [rc = 0]. *)
Definition kfree_runs (rc : Z) : K unit := kfree (0 <? rc) ;; kfree (0 <? rc).

(** Making room for one more run; [None] when memory runs out, everything
    being freed then. *)
Definition grow_runs (nr rc : Z) : K (option Z) :=
  if negb (rc <=? nr) then kret (Some rc) else
  let nc := if rc =? 0 then 256 else u64 (rc * 2) in
  a ← kvmalloc_array nc 8;
  b ← kvmalloc_array nc 8;
  if negb a || negb b then kfree a ;; kfree b ;; kfree_runs rc ;; kret None
  else kfree_runs rc ;; kret (Some nc).

(** The outer loop: the runs found and the capacity of the arrays. *)
Fixpoint build_runs_loop (fuel : nat) (max_xfer i : Z) (pages : list gpu_page)
    (runs : list run) (rc : Z) : K (nv_status * list run * Z) :=
  match fuel, pages with
  | S fuel', p :: rest =>
      let '(rb, rest') := extend_run max_xfer p p PAGE_SIZE rest in
      room ← grow_runs (Z.of_nat (length runs)) rc;
      match room with
      | None => kret (NV_ERR_NO_MEMORY, [], 0)
      | Some rc =>
          build_runs_loop fuel' max_xfer (i + rb / PAGE_SIZE) rest' (runs ++ [mk_run i rb]) rc
      end
  | _, _ => kret (NV_OK, runs, rc)
  end.

Definition lm_mt_build_runs (pages : list gpu_page) (max_xfer : Z)
    : K (nv_status * list run * Z) :=
  build_runs_loop (length pages) max_xfer 0 pages [] 0.
End BuildRuns.

(** The pages of a run. *)
Definition run_pages (pages : list gpu_page) (r : run) : list gpu_page :=
  take (Z.to_nat (rn_bytes r / PAGE_SIZE)) (drop (Z.to_nat (rn_start r)) pages).

(** Consecutive runs, the first starting at page [i], that end at page [n]. *)
Fixpoint runs_tile (i n : Z) (runs : list run) : Prop :=
  match runs with
  | [] => i = n
  | r :: runs' => rn_start r = i /\ runs_tile (i + rn_bytes r / PAGE_SIZE) n runs'
  end.

(** Pages that follow each other physically and in the output. *)
Fixpoint chain (first cur : gpu_page) (ps : list gpu_page) : Prop :=
  match ps with
  | [] => True
  | p :: ps' => extends first cur p = true /\ chain first p ps'
  end.

(** A run is well formed: whole pages, at most [max_xfer], one chain. *)
Definition run_wf (max_xfer : Z) (pages : list gpu_page) (r : run) : Prop :=
  rn_bytes r mod PAGE_SIZE = 0 /\ PAGE_SIZE <= rn_bytes r <= max_xfer /\
  exists p ps, run_pages pages r = p :: ps /\ chain p p ps /\
               Z.of_nat (length (p :: ps)) * PAGE_SIZE = rn_bytes r.

(** The page a chain ends with. *)
Fixpoint last_page (cur : gpu_page) (ps : list gpu_page) : gpu_page :=
  match ps with [] => cur | p :: ps' => last_page p ps' end.

(** A run is maximal: the page after it does not extend it, or there is no room. *)
Definition run_maximal (max_xfer : Z) (pages : list gpu_page) (r : run) : Prop :=
  forall p ps q, run_pages pages r = p :: ps ->
    pages !! Z.to_nat (rn_start r + rn_bytes r / PAGE_SIZE) = Some q ->
    extends p (last_page p ps) q = false \/ max_xfer < rn_bytes r + PAGE_SIZE.

Section Coalesce.
Context (max_xfer : Z) (Hmax : PAGE_SIZE <= max_xfer < 2 ^ 63).

(** The inner loop takes a chain and stops where it must. *)
Lemma extend_run_spec first rest : forall cur k,
  (Z.of_nat k) * PAGE_SIZE <= max_xfer -> (0 < k)%nat ->
  exists ps rest', rest = ps ++ rest' /\
    extend_run max_xfer first cur (Z.of_nat k * PAGE_SIZE) rest
      = (Z.of_nat (k + length ps) * PAGE_SIZE, rest') /\
    chain first cur ps /\ Z.of_nat (k + length ps) * PAGE_SIZE <= max_xfer /\
    (forall q, head rest' = Some q ->
       extends first (last_page cur ps) q = false \/
       max_xfer < Z.of_nat (k + length ps) * PAGE_SIZE + PAGE_SIZE).
Proof.
  unfold PAGE_SIZE in *. induction rest as [|p rest IH]; intros cur k Hk H0; cbn [extend_run].
  { exists [], []. rewrite Nat.add_0_r. cbn. split_and!; done. }
  unfold PAGE_SIZE. rewrite u64_small by lia.
  replace (Z.of_nat k * 4096 + 4096) with (Z.of_nat (S k) * 4096) by lia.
  destruct (extends first cur p && _) eqn:He.
  - apply andb_prop in He as [He Hle]. apply Z.leb_le in Hle.
    destruct (IH p (S k) Hle ltac:(lia)) as (ps & rest' & -> & Hr & Hc & Hb & Hm).
    exists (p :: ps), rest'. cbn [app length chain].
    replace (k + S (length ps))%nat with (S k + length ps)%nat by lia.
    by split_and!.
  - exists [], (p :: rest). cbn [length]. rewrite Nat.add_0_r. split_and!; try done.
    intros q [= ->]. cbn. apply andb_false_iff in He as [He|He]; [by left|right].
    apply Z.leb_gt in He. lia.
Qed.

Lemma coalesce_from_spec fuel : forall done_ pages,
  (length pages <= fuel)%nat ->
  let all := done_ ++ pages in
  let i := Z.of_nat (length done_) in
  let runs := coalesce_from fuel max_xfer i pages in
  runs_tile i (Z.of_nat (length all)) runs /\
  Forall (run_wf max_xfer all) runs /\ Forall (run_maximal max_xfer all) runs.
Proof.
  induction fuel as [|fuel IH]; intros done_ pages Hf; cbv zeta.
  { destruct pages; [|cbn in Hf; lia]. cbn. rewrite app_nil_r. by split_and!. }
  destruct pages as [|p rest]; cbn [coalesce_from]; [rewrite app_nil_r; by split_and!|].
  destruct (extend_run_spec p rest p 1) as (ps & rest' & -> & Hr & Hc & Hb & Hm); [lia|lia|].
  rewrite Z.mul_1_l in Hr. rewrite Hr. set (n := (1 + length ps)%nat) in *.
  rewrite Z.div_mul by done.
  assert (Z.of_nat (length done_) + Z.of_nat n = Z.of_nat (length (done_ ++ p :: ps))) as Hn
    by (rewrite length_app; cbn; lia).
  destruct (IH (done_ ++ p :: ps) rest') as (IHt & IHw & IHm).
  { cbn in Hf. rewrite length_app in Hf. lia. }
  cbv zeta in IHt, IHw, IHm. rewrite <- Hn, <- app_assoc in IHt, IHw, IHm. cbn [app] in IHt, IHw, IHm.
  assert (run_pages (done_ ++ p :: ps ++ rest')
            (mk_run (Z.of_nat (length done_)) (Z.of_nat n * PAGE_SIZE)) = p :: ps) as Hp.
  { unfold run_pages; cbn [rn_bytes rn_start]. rewrite Z.div_mul, !Nat2Z.id by done.
    rewrite drop_app_length. subst n. cbn. by rewrite take_app_length. }
  split_and!.
  - cbn [runs_tile rn_start rn_bytes]. rewrite Z.div_mul by done. done.
  - constructor; [|done]. unfold run_wf; cbn [rn_bytes].
    rewrite Z.mod_mul by done. split_and!; [done|unfold PAGE_SIZE; lia|done|].
    exists p, ps. split_and!; [done..|]. cbn. unfold PAGE_SIZE. lia.
  - constructor; [|done]. intros p' ps' q Hp' Hq. rewrite Hp in Hp'. injection Hp' as <- <-.
    apply Hm. cbn [rn_start rn_bytes] in Hq. rewrite Z.div_mul in Hq by done.
    rewrite Hn, Nat2Z.id in Hq. rewrite app_comm_cons, app_assoc, lookup_app_r in Hq by lia.
    rewrite Nat.sub_diag in Hq. by destruct rest'.
Qed.
End Coalesce.

(** The allocations the run arrays own at capacity [rc]. *)
Definition runs_live (rc : Z) : Z := if 0 <? rc then 2 else 0.

Section BuildRunsSpec.
Context `{E : Env}.

Lemma lock_build_runs_loop ls fuel : forall mx i pages runs rc,
  LockSpec ls (build_runs_loop fuel mx i pages runs rc) ls.
Proof.
  induction fuel as [|fuel IH]; intros mx i [|p rest] runs rc; cbn [build_runs_loop];
    try apply lock_ret. destruct (extend_run _ _ _ _ _) as [rb rest'].
  eapply lock_bind; [unfold grow_runs, kfree_runs; locks|].
  intros [rc'|]; [apply IH|apply lock_ret].
Qed.

Lemma quiet_build_runs_loop fuel : forall mx i pages runs rc,
  Keeps quiet (build_runs_loop fuel mx i pages runs rc).
Proof.
  induction fuel as [|fuel IH]; intros mx i [|p rest] runs rc; cbn [build_runs_loop];
    try apply keeps_ret. destruct (extend_run _ _ _ _ _) as [rb rest'].
  apply keeps_bind; [unfold grow_runs, kfree_runs; keeps idtac|].
  intros [rc'|]; [apply IH|apply keeps_ret].
Qed.

Lemma wp_kvmalloc_array n size (Q : bool -> kst -> Prop) s :
  (forall (b : bool) s', k_live s' = k_live s + (if b then 1 else 0) ->
     (b = true -> n * size < 2 ^ 64) ->
     (HealthyEnv E -> n * size < 2 ^ 64 -> b = true) -> Q b s') ->
  wp (kvmalloc_array n size) Q s.
Proof.
  intros HQ. unfold kvmalloc_array. apply wp_if; intros Hb; btest.
  - wdet. apply HQ; [lia|done|lia].
  - unfold wp, kmalloc, kbind, tick; cbn. destruct (env_alloc_ok _) eqn:Ha; cbn.
    + apply HQ; cbn; auto.
    + apply HQ; cbn; [lia|done|]. intros HE _. by rewrite healthy_alloc in Ha.
Qed.

Lemma wp_kfree_exact (p : bool) (Q : unit -> kst -> Prop) s :
  (forall s', k_live s' = k_live s - (if p then 1 else 0) -> Q tt s') -> wp (kfree p) Q s.
Proof. intros HQ. destruct p; cbn; apply HQ; cbn; lia. Qed.

Lemma wp_kfree_runs rc (Q : unit -> kst -> Prop) s :
  (forall s', k_live s' = k_live s - runs_live rc -> Q tt s') -> wp (kfree_runs rc) Q s.
Proof.
  intros HQ. unfold kfree_runs, runs_live in *. wdet.
  apply wp_kfree_exact. intros s1 H1. apply wp_kfree_exact. intros s2 H2. apply HQ.
  rewrite H2, H1. destruct (0 <? rc); lia.
Qed.

Lemma grow_runs_correct nr rc s :
  0 <= nr <= rc -> rc < 2 ^ 61 ->
  wp (grow_runs nr rc) (fun o s' =>
    match o with
    | Some rc' => nr < rc' < 2 ^ 61 /\ k_live s' = k_live s - runs_live rc + runs_live rc'
    | None => k_live s' = k_live s - runs_live rc
    end /\ (HealthyEnv E -> nr < 2 ^ 59 -> is_Some o)) s.
Proof.
  intros Hnr Hrc. unfold grow_runs. apply wp_if; intros Hg; btest.
  { wdet. split; [split; lia|eauto]. }
  set (nc := if rc =? 0 then _ else _).
  assert (nr < nc /\ 0 < nc /\ (nr < 2 ^ 59 -> nc * 8 < 2 ^ 64)) as (Hnc & Hpos & Hsm).
  { subst nc. destruct (rc =? 0) eqn:Hz; btest. rewrite u64_small; lia. }
  clearbody nc. wdet. apply wp_kvmalloc_array. intros a s1 Ha Hao Hah. wdet.
  apply wp_kvmalloc_array. intros b s2 Hb Hbo Hbh. destruct (negb a || negb b) eqn:Hab.
  - wdet. apply wp_kfree_exact. intros s3 H3. wdet. apply wp_kfree_exact. intros s4 H4. wdet.
    apply wp_kfree_runs. intros s5 H5. wdet. split; [rewrite H5, H4, H3, Hb, Ha; lia|].
    intros HE Hs. rewrite Hah, Hbh in Hab by auto. done.
  - apply orb_false_elim in Hab as [Ha' Hb']. btest. subst a b. wdet.
    apply wp_kfree_runs. intros s5 H5. wdet. split; [|eauto].
    specialize (Hao eq_refl). split; [lia|]. rewrite H5, Hb, Ha. unfold runs_live at 3.
    destruct (0 <? nc) eqn:?; btest.
Qed.

(** The arrays: room for every run found, and accounted for. *)
Definition build_post (want : list run) (rc0 : Z) (s : kst) (r : nv_status * list run * Z)
    (s' : kst) : Prop :=
  let '(st, runs, rc) := r in
  (st = NV_OK /\ runs = want /\ Z.of_nat (length runs) <= rc /\
     k_live s' = k_live s - runs_live rc0 + runs_live rc \/
   st = NV_ERR_NO_MEMORY /\ runs = [] /\ rc = 0 /\ k_live s' = k_live s - runs_live rc0) /\
  (HealthyEnv E -> Z.of_nat (length want) <= 2 ^ 59 -> st = NV_OK).

Lemma build_runs_loop_correct mx fuel : forall i pages runs rc s,
  (length pages <= fuel)%nat -> Z.of_nat (length runs) <= rc < 2 ^ 61 ->
  wp (build_runs_loop fuel mx i pages runs rc)
     (build_post (runs ++ coalesce_from fuel mx i pages) rc s) s.
Proof.
  induction fuel as [|fuel IH]; intros i [|p rest] runs rc s Hf Hrc;
    cbn [build_runs_loop coalesce_from]; try (cbn in Hf; lia).
  1,2: wdet; rewrite app_nil_r; split; [left; split_and!; lia || done|done].
  destruct (extend_run mx p p PAGE_SIZE rest) as [rb rest'] eqn:Hr.
  assert (length rest' <= fuel)%nat as Hf'.
  { assert (forall rest cur rb0, (length (snd (extend_run mx p cur rb0 rest)) <= length rest)%nat) as Hl.
    { clear. induction rest as [|q rest IH]; intros cur rb0; cbn [extend_run]; [done|].
      destruct (_ && _); cbn [snd length]; [|lia]. specialize (IH q (u64 (rb0 + PAGE_SIZE))). lia. }
    specialize (Hl rest p PAGE_SIZE). rewrite Hr in Hl. cbn in Hl, Hf. lia. }
  wdet. eapply wp_mono; [apply grow_runs_correct; lia|].
  intros [rc'|] s1 [Hg Hh].
  - eapply wp_mono; [apply IH; [done|rewrite length_app; cbn; lia]|].
    intros [[st out] rc2] s2 [Hc Hh2]. rewrite <- app_assoc in Hc, Hh2. cbn [app] in Hc, Hh2.
    split; [|done]. destruct Hg as [_ Hl]. rewrite Hl in Hc.
    destruct Hc as [(?&?&?&?)|(?&?&?&?)]; [left|right]; split_and!; try done; lia.
  - wdet. split; [right; by split_and!|]. intros HE Hsm. rewrite length_app in Hsm; cbn in Hsm.
    destruct (Hh HE) as [? ?]; [lia|done].
Qed.
End BuildRunsSpec.

Lemma length_coalesce_from mx fuel : forall i pages,
  (length (coalesce_from fuel mx i pages) <= fuel)%nat.
Proof.
  induction fuel as [|fuel IH]; intros i [|p rest]; cbn [coalesce_from]; try (cbn; lia).
  destruct (extend_run _ _ _ _ _) as [rb rest']. cbn. specialize (IH (i + rb / PAGE_SIZE) rest'). lia.
Qed.

(** What the callers use of [lm_mt_build_runs]. *)
Lemma lm_mt_build_runs_correct `{E : Env} pages mx s :
  wp (lm_mt_build_runs pages mx) (build_post (coalesce mx pages) 0 s) s.
Proof. unfold lm_mt_build_runs. apply (build_runs_loop_correct mx _ 0 pages []); cbn; lia. Qed.

Lemma lock_build_runs `{E : Env} ls pages mx : LockSpec ls (lm_mt_build_runs pages mx) ls.
Proof. apply lock_build_runs_loop. Qed.
Lemma quiet_build_runs `{E : Env} pages mx : Keeps quiet (lm_mt_build_runs pages mx).
Proof. apply quiet_build_runs_loop. Qed.
#[export] Hint Resolve lock_build_runs : locks.

Lemma coalesce_spec mx pages :
  PAGE_SIZE <= mx < 2 ^ 63 ->
  runs_tile 0 (Z.of_nat (length pages)) (coalesce mx pages) /\
  Forall (run_wf mx pages) (coalesce mx pages) /\ Forall (run_maximal mx pages) (coalesce mx pages).
Proof. intros Hmx. by apply (coalesce_from_spec mx Hmx (length pages) [] pages). Qed.

(** C23: lm_mt_build_runs ends in one of two ways: out of memory with nothing left
    allocated, or with arrays that hold all its runs. The runs tile the page list
    from first to last page; each is a chain of pages contiguous in physical
    memory and in the output buffer, of one aperture and at most max_xfer bytes;
    and none could have been longer. *)
Theorem build_runs_correct `{E : Env} pages mx s :
  PAGE_SIZE <= mx < 2 ^ 63 ->
  let '(st, runs, rc, s') := lm_mt_build_runs pages mx s in
  (st = NV_OK \/ st = NV_ERR_NO_MEMORY /\ k_live s' = k_live s) /\
  (st = NV_OK ->
     runs_tile 0 (Z.of_nat (length pages)) runs /\ Forall (run_wf mx pages) runs /\
     Forall (run_maximal mx pages) runs /\ Z.of_nat (length runs) <= rc /\
     k_live s' = k_live s + runs_live rc) /\
  (HealthyEnv E -> Z.of_nat (length pages) <= 2 ^ 59 -> st = NV_OK).
Proof.
  intros Hmx. pose proof (lm_mt_build_runs_correct pages mx s) as H. unfold wp in H.
  destruct (lm_mt_build_runs pages mx s) as [[[st runs] rc] s']; cbn in H.
  destruct H as [Hc Hh]. split_and!.
  - destruct Hc as [(?&_)|(?&_&_&?)]; [by left|right]. split; [done|]. unfold runs_live in *; cbn in *. lia.
  - intros ->. destruct Hc as [(_&->&Hl&Hk)|(?&_)]; [|done].
    destruct (coalesce_spec mx pages Hmx) as (?&?&?). split_and!; try done.
    unfold runs_live in *; cbn in *. lia.
  - intros HE Hl. apply Hh; [done|]. pose proof (length_coalesce_from mx (length pages) 0 pages).
    unfold coalesce. lia.
Qed.
