(* ===== verification/Pass1.v ===== *)
(** Pass 1 of the checkpoint ioctls ([lm_mt_pass1] and the identical passes of
    ioctls 109, 111 and 113): with the list lock and the VA space lock held,
    classify every 4KB page of an address interval by residency, copy CPU pages
    to user space and collect the GPU pages for pass 2. *)
From stdpp Require Import sorting.
From S2P Require Import Prelude Kernel VaBlock ConfComputing Runs.

(** Where a page is: bytes on the CPU, a physical address on the GPU, or absent. *)
Inductive page_class := PcCpu (bytes : list Z) | PcGpu (pa : phys_address) | PcAbsent.

(** The test under the block lock; the CPU is asked first. *)
Definition classify (gpu : option Z) (vb : va_block) (pv : Z) : page_class :=
  let pi := uvm_va_block_cpu_page_index vb pv in
  if bool_decide (pi ∈ vb_cpu_resident vb) then PcCpu (vb_cpu_page vb pi)
  else match gpu with
       | None => PcAbsent
       | Some g =>
           match uvm_va_block_gpu_state_get vb g with
           | None => PcAbsent
           | Some gs => if bool_decide (pi ∈ gs_resident gs) then PcGpu (gs_phys gs pi) else PcAbsent
           end
       end.

(** The locals of the pass. *)
Record pass1_locals := mk_p1 {
  p1_resmap  : list Z;
  p1_cpu_off : Z;
  p1_gpu_off : Z;
  p1_pages   : list gpu_page;      (* gpu_pages[0 .. gpu_page_cnt) *)
  p1_cap     : Z;                  (* gpu_page_cap *)
}.

Definition p1_cnt (l : pass1_locals) : Z := Z.of_nat (length (p1_pages l)).
Definition p1_set_resmap (m : list Z) (l : pass1_locals) : pass1_locals :=
  mk_p1 m (p1_cpu_off l) (p1_gpu_off l) (p1_pages l) (p1_cap l).

Definition RESMAP_CPU : Z := 0.
Definition RESMAP_GPU : Z := 1.
Definition RESMAP_ABSENT : Z := 2.

(** [sizeof(struct live_migration_gpu_page)] and
    [sizeof(UVM_LIVE_MIGRATION_PAGE_CRYPTO_META)] (packed). *)
Definition SIZEOF_GPU_PAGE : Z := 24.
Definition SIZEOF_CRYPTO_META : Z := 41.

(** The values of the loop variable over [bs .. be]. *)
Definition page_vas (bs be : Z) : list Z :=
  if be <? bs then [] else (fun k => bs + k * PAGE_SIZE) <$> seqZ 0 ((be - bs) / PAGE_SIZE + 1).

(** The index of a page in the residency map. *)
Definition page_idx (base pv : Z) : nat := Z.to_nat (u64 (pv - base) / PAGE_SIZE).

Section Pass1.
Context `{E : Env}.

(** Making room for one more GPU page; with [meta], the metadata array grows
    alongside.  [None] when memory runs out, the old arrays being kept. *)
Definition grow_pages (meta : bool) (cnt cap : Z) : K (option Z) :=
  if negb (cap <=? cnt) then kret (Some cap) else
  let nc := u64 (cap * 2) in
  na ← kvmalloc_array nc SIZEOF_GPU_PAGE;
  nm ← (if meta then kvmalloc_array nc SIZEOF_CRYPTO_META else kret false);
  if negb na || (meta && negb nm) then kfree na ;; kfree nm ;; kret None
  else kfree true ;; kfree meta ;; kret (Some nc).

(** One page of one block. *)
Definition pass1_page (meta : bool) (gpu : option Z) (base cpu_buf : Z) (vb : va_block)
    (l : pass1_locals) (pv : Z) : K (option nv_status * pass1_locals) :=
  lock_acquire (LBlock (vb_start vb)) ;;
  match classify gpu vb pv with
  | PcCpu page_buf =>
      lock_release (LBlock (vb_start vb)) ;;
      let l := p1_set_resmap (<[page_idx base pv := RESMAP_CPU]> (p1_resmap l)) l in
      fault ← (if cpu_buf =? 0 then kret false
               else copy_to_user (u64 (cpu_buf + p1_cpu_off l)) page_buf);
      if fault : bool then kret (Some NV_ERR_INVALID_ARGUMENT, l)
      else kret (None, mk_p1 (p1_resmap l) (u64 (p1_cpu_off l + PAGE_SIZE)) (p1_gpu_off l)
                         (p1_pages l) (p1_cap l))
  | PcGpu phys =>
      lock_release (LBlock (vb_start vb)) ;;
      let l := p1_set_resmap (<[page_idx base pv := RESMAP_GPU]> (p1_resmap l)) l in
      room ← grow_pages meta (p1_cnt l) (p1_cap l);
      match room with
      | None => kret (Some NV_ERR_NO_MEMORY, l)
      | Some cap =>
          kret (None, mk_p1 (p1_resmap l) (p1_cpu_off l) (u64 (p1_gpu_off l + PAGE_SIZE))
                        (p1_pages l ++ [mk_gpu_page phys (p1_gpu_off l)]) cap)
      end
  | PcAbsent => lock_release (LBlock (vb_start vb)) ;; kret (None, l)
  end.

(** One block; with [dirty_only], clean and untracked blocks are skipped. *)
Definition pass1_block (meta dirty_only : bool) (gpu : option Z) (base end_ cpu_buf : Z)
    (l : pass1_locals) (vb : va_block) : K (option nv_status * pass1_locals) :=
  let bs := Z.max (vb_start vb) base in
  let be := Z.min (vb_end vb) end_ in
  if be <? bs then kret (None, l) else
  skip ← (if dirty_only then
            lock_acquire (LBlock (vb_start vb)) ;;
            lock_release (LBlock (vb_start vb)) ;;
            kret (negb (vb_tracking vb && vb_dirty vb))
          else kret false);
  if skip : bool then kret (None, l)
  else kfold (pass1_page meta gpu base cpu_buf vb) l (page_vas bs be).

Definition pass1_range (meta dirty_only : bool) (gpu : option Z) (base end_ cpu_buf : Z)
    (l : pass1_locals) (r : va_range) : K (option nv_status * pass1_locals) :=
  if negb (is_managed r) then kret (None, l)
  else kfold (pass1_block meta dirty_only gpu base end_ cpu_buf) l (range_blocks r).

(** The VA space whose managed range holds [base]; its lock stays held. *)
Fixpoint find_va_space (base : Z) (spaces : list va_space) : K (option va_space) :=
  match spaces with
  | [] => kret None
  | v :: vs =>
      lock_acquire (LSpaceRead (vs_id v)) ;;
      match uvm_va_range_find v base with
      | Some r => if is_managed r then kret (Some v)
                  else lock_release (LSpaceRead (vs_id v)) ;; find_va_space base vs
      | None => lock_release (LSpaceRead (vs_id v)) ;; find_va_space base vs
      end
  end.

(** The zero UUID stands for the first registered GPU. *)
Definition resolve_gpu (v : va_space) (uuid : list Z) : option Z :=
  if bool_decide (uuid = replicate 16 0) then uvm_processor_mask_find_first_va_space_gpu v
  else vs_gpu_by_uuid v uuid.

(** The whole pass: its status, locals and GPU. *)
Definition pass1 (meta dirty_only : bool) (base length cpu_buf : Z) (uuid : list Z)
    (spaces : list va_space) (l : pass1_locals) : K (nv_status * pass1_locals * option Z) :=
  let end_ := u64 (u64 (base + length) - 1) in
  lock_acquire LVaSpaces ;;
  ov ← find_va_space base spaces;
  match ov with
  | None => lock_release LVaSpaces ;; kret (NV_ERR_INVALID_ADDRESS, l, None)
  | Some v =>
      let gpu := resolve_gpu v uuid in
      '(ex, l) ← kfold (pass1_range meta dirty_only gpu base end_ cpu_buf) l (ranges_in v base end_);
      lock_release (LSpaceRead (vs_id v)) ;;
      lock_release LVaSpaces ;;
      kret (loop_status ex, l, gpu)
  end.

Definition lm_mt_pass1 := pass1 false.
End Pass1.

(** ** Locks and allocations *)

Section Pass1Resources.
Context `{E : Env}.

Lemma lock_pass1_page ls meta gpu base cpu_buf vb l pv :
  LBlock (vb_start vb) ∉ ls -> LockSpec ls (pass1_page meta gpu base cpu_buf vb l pv) ls.
Proof. intros. unfold pass1_page, grow_pages. cbv zeta. locks. Qed.

Lemma lock_pass1_range ls meta d gpu base e cpu_buf l r :
  (forall st, LBlock st ∉ ls) -> LockSpec ls (pass1_range meta d gpu base e cpu_buf l r) ls.
Proof.
  intros H. unfold pass1_range, pass1_block. cbv zeta. locks. by apply lock_pass1_page.
Qed.

Lemma lock_find_va_space base spaces s :
  k_locks s = [LVaSpaces] -> k_lock_bug s = false ->
  wp (find_va_space base spaces) (fun ov s' => k_lock_bug s' = false /\
    k_locks s' = match ov with Some v => [LSpaceRead (vs_id v); LVaSpaces] | None => [LVaSpaces] end) s.
Proof.
  revert s. induction spaces as [|v vs IH]; intros s Hl Hb; cbn [find_va_space]; [by wdet|].
  apply wp_bind, (wp_lock [LVaSpaces] [LSpaceRead (vs_id v); LVaSpaces]);
    [apply lock_acq; set_solver|done..|]. intros [] s1 Hl1 Hb1.
  assert (wp (lock_release (LSpaceRead (vs_id v)) ;; find_va_space base vs)
    (fun ov s' => k_lock_bug s' = false /\ k_locks s' =
      match ov with Some v => [LSpaceRead (vs_id v); LVaSpaces] | None => [LVaSpaces] end) s1) as Hgo.
  { apply wp_bind, (wp_lock [LSpaceRead (vs_id v); LVaSpaces] [LVaSpaces]);
      [apply lock_rel; set_solver|done..|]. intros [] s2 Hl2 Hb2. by apply IH. }
  destruct (uvm_va_range_find v base) as [r|]; [|done]. apply wp_if; intros _; [by wdet|done].
Qed.

(** The pass returns with both locks released, whatever happens. *)
Lemma lock_pass1 meta d base len cpu_buf uuid spaces l :
  LockSpec [] (pass1 meta d base len cpu_buf uuid spaces l) [].
Proof.
  intros s Hl Hb.
  assert (wp (pass1 meta d base len cpu_buf uuid spaces l)
            (fun _ s' => k_locks s' = [] /\ k_lock_bug s' = false) s) as H; [|exact H].
  unfold pass1. cbv zeta.
  apply wp_bind, (wp_lock [] [LVaSpaces]); [apply lock_acq; set_solver|done..|].
  intros [] s1 Hl1 Hb1. apply wp_bind. eapply wp_mono; [by apply lock_find_va_space|].
  intros [v|] s2 [Hb2 Hl2].
  - eapply wp_lock; [|exact Hl2|exact Hb2|by split]. locks. apply lock_pass1_range. set_solver.
  - eapply wp_lock; [|exact Hl2|exact Hb2|by split]. locks.
Qed.

Lemma live_grow_pages (meta : bool) cnt cap : LiveSpec (grow_pages meta cnt cap) (fun _ => 0).
Proof.
  unfold grow_pages. apply live_if; [apply live_ret; done|]. cbv zeta.
  eapply live_bind; [apply live_kvmalloc_array|intros na]. destruct meta.
  - eapply live_bind; [apply live_kvmalloc_array|intros nm].
    destruct na, nm; cbn [negb orb andb]; live.
  - intros s. unfold kbind at 1, kret at 1. revert s.
    change (LiveSpec (if negb na || (false && negb false) then kfree na;; kfree false;; kret None
      else kfree true;; kfree false;; kret (Some (u64 (cap * 2)))) (fun _ => 0 - (if na then 1 else 0))).
    destruct na; cbn [negb orb andb]; live.
Qed.
Hint Resolve live_grow_pages : live.

Lemma live_find_va_space base spaces : LiveSpec (find_va_space base spaces) (fun _ => 0).
Proof. induction spaces as [|v vs IH]; cbn [find_va_space]; live0. Qed.
Hint Resolve live_find_va_space : live.

Lemma live_pass1 meta d base len cpu_buf uuid spaces l :
  LiveSpec (pass1 meta d base len cpu_buf uuid spaces l) (fun _ => 0).
Proof. unfold pass1, pass1_range, pass1_block, pass1_page. cbv zeta. live0. Qed.
End Pass1Resources.

#[export] Hint Resolve lock_pass1 : locks.
#[export] Hint Resolve live_pass1 : live.

(** ** What the pass computes *)

(** The pages of a block in the interval, of the blocks of a range, of a space:
    pairs of a block and a page address, in the order of the walk. *)
Definition visit : Type := va_block * Z.

Definition block_visits (dirty_only : bool) (base end_ : Z) (vb : va_block) : list visit :=
  if dirty_only && negb (vb_tracking vb && vb_dirty vb) then []
  else pair vb <$> page_vas (Z.max (vb_start vb) base) (Z.min (vb_end vb) end_).
Definition range_visits (dirty_only : bool) (base end_ : Z) (r : va_range) : list visit :=
  if is_managed r then mjoin (block_visits dirty_only base end_ <$> range_blocks r) else [].
Definition space_visits (dirty_only : bool) (base end_ : Z) (v : va_space) : list visit :=
  mjoin (range_visits dirty_only base end_ <$> ranges_in v base end_).

Definition cpu_pages (gpu : option Z) (D : list visit) : list (list Z) :=
  omap (fun '(vb, pv) => match classify gpu vb pv with PcCpu bs => Some bs | _ => None end) D.
Definition gpu_phys (gpu : option Z) (D : list visit) : list phys_address :=
  omap (fun '(vb, pv) => match classify gpu vb pv with PcGpu pa => Some pa | _ => None end) D.

Lemma cpu_pages_cons gpu vb pv D :
  cpu_pages gpu ((vb, pv) :: D)
  = match classify gpu vb pv with PcCpu bs => bs :: cpu_pages gpu D | _ => cpu_pages gpu D end.
Proof. unfold cpu_pages at 1. cbn. by destruct (classify gpu vb pv). Qed.
Lemma gpu_phys_cons gpu vb pv D :
  gpu_phys gpu ((vb, pv) :: D)
  = match classify gpu vb pv with PcGpu pa => pa :: gpu_phys gpu D | _ => gpu_phys gpu D end.
Proof. unfold gpu_phys at 1. cbn. by destruct (classify gpu vb pv). Qed.
Lemma cpu_pages_snoc gpu vb pv D :
  cpu_pages gpu (D ++ [(vb, pv)])
  = cpu_pages gpu D ++ match classify gpu vb pv with PcCpu bs => [bs] | _ => [] end.
Proof. unfold cpu_pages. rewrite omap_app. f_equal. cbn. by destruct (classify gpu vb pv). Qed.
Lemma gpu_phys_snoc gpu vb pv D :
  gpu_phys gpu (D ++ [(vb, pv)])
  = gpu_phys gpu D ++ match classify gpu vb pv with PcGpu pa => [pa] | _ => [] end.
Proof. unfold gpu_phys. rewrite omap_app. f_equal. cbn. by destruct (classify gpu vb pv). Qed.

(** GPU pages with dense offsets, in the order of the walk. *)
Definition gpu_pages (gpu : option Z) (D : list visit) : list gpu_page :=
  imap (fun k pa => mk_gpu_page pa (Z.of_nat k * PAGE_SIZE)) (gpu_phys gpu D).

Definition class_code (c : page_class) : Z :=
  match c with PcCpu _ => RESMAP_CPU | PcGpu _ => RESMAP_GPU | PcAbsent => RESMAP_ABSENT end.

(** The residency map: each visited page's code at its index. *)
Definition mark (gpu : option Z) (base : Z) (m : list Z) (x : visit) : list Z :=
  match classify gpu (fst x) (snd x) with
  | PcAbsent => m
  | c => <[page_idx base (snd x) := class_code c]> m
  end.
Definition resmap_of (gpu : option Z) (base : Z) (m : list Z) (D : list visit) : list Z :=
  fold_left (mark gpu base) D m.

(** The state outside user memory is kept (ticks, locks, allocations apart). *)
Definition user_only (s s' : kst) : Prop :=
  k_meta s' = k_meta s /\ k_bufs s' = k_bufs s /\ k_free s' = k_free s /\ k_num s' = k_num s /\
  k_next s' = k_next s /\ k_csl s' = k_csl s /\ k_faults s' = k_faults s /\ k_flog s' = k_flog s.

#[export] Instance user_only_ambient : Ambient user_only.
Proof.
  split; [|by intros; split_and!..]. split; [by intros s; split_and!|].
  unfold user_only. intros x y z Hxy Hyz. intuition congruence.
Qed.

Lemma resmap_of_snoc gpu base m vb pv D :
  resmap_of gpu base m (D ++ [(vb, pv)]) = mark gpu base (resmap_of gpu base m D) (vb, pv).
Proof. unfold resmap_of. by rewrite fold_left_app. Qed.

Section Pass1Spec.
Context `{E : Env}.

Lemma user_only_pass1 meta d base len cpu_buf uuid spaces l :
  Keeps user_only (pass1 meta d base len cpu_buf uuid spaces l).
Proof.
  assert (forall ss, Keeps user_only (find_va_space base ss)) as Hf.
  { induction ss as [|v vs IH]; cbn [find_va_space]; keeps idtac. }
  unfold pass1, pass1_range, pass1_block, pass1_page, grow_pages.
  keeps ltac:(by split_and!).
Qed.
End Pass1Spec.

Section Walk.
Context `{E : Env} (meta d : bool) (gpu : option Z) (base end_ cpu_buf : Z) (m0 : list Z) (cap0 : Z).
(** An upper bound of the pages visited. *)
Context (N : Z) (u0 : mem).

(** User memory once the CPU pages [bss] are written. *)
Definition cpu_written (bss : list (list Z)) : mem :=
  if cpu_buf =? 0 then u0 else mem_write cpu_buf (mjoin bss) u0.

(** User memory outside the buffer is as it was. *)
Definition kept (u : mem) : Prop :=
  forall a, ~ (cpu_buf <> 0 /\ cpu_buf <= a < cpu_buf + N * PAGE_SIZE) -> u !! a = u0 !! a.

Definition walked (D : list visit) (l : pass1_locals) (s : kst) : Prop :=
  Z.of_nat (length D) <= N ->
  p1_resmap l = resmap_of gpu base m0 D /\
  p1_cpu_off l = Z.of_nat (length (cpu_pages gpu D)) * PAGE_SIZE /\
  p1_gpu_off l = Z.of_nat (length (gpu_phys gpu D)) * PAGE_SIZE /\
  p1_pages l = gpu_pages gpu D /\
  p1_cnt l <= p1_cap l <= Z.max cap0 (2 * p1_cnt l) /\ cap0 <= p1_cap l /\
  k_user s = cpu_written (cpu_pages gpu D).

(** Left at an item: only when something failed. *)
Definition stopped (D : list visit) (st : nv_status) (l : pass1_locals) (s : kst) : Prop :=
  Z.of_nat (length D) < N ->
  (st = NV_ERR_INVALID_ARGUMENT \/ st = NV_ERR_NO_MEMORY) /\ ~ HealthyEnv E /\
  p1_cpu_off l = Z.of_nat (length (cpu_pages gpu D)) * PAGE_SIZE /\
  p1_gpu_off l = Z.of_nat (length (gpu_phys gpu D)) * PAGE_SIZE /\
  kept (k_user s).

Context (HN : 0 <= N < 2 ^ 50) (Hcap : 0 < cap0 < 2 ^ 50)
        (Hbuf : 0 <= cpu_buf /\ cpu_buf + N * PAGE_SIZE <= 2 ^ 64).

Lemma gpu_pages_snoc D vb pv pa :
  classify gpu vb pv = PcGpu pa ->
  gpu_pages gpu (D ++ [(vb, pv)])
  = gpu_pages gpu D ++ [mk_gpu_page pa (Z.of_nat (length (gpu_phys gpu D)) * PAGE_SIZE)].
Proof.
  intros Hc. unfold gpu_pages. rewrite gpu_phys_snoc, Hc, imap_app. cbn. by rewrite Nat.add_0_r.
Qed.

Lemma length_gpu_phys D : (length (gpu_phys gpu D) <= length D)%nat.
Proof.
  induction D as [|[vb pv] D IH]; [done|]. rewrite gpu_phys_cons.
  destruct (classify gpu vb pv); cbn; lia.
Qed.
Lemma length_cpu_pages D : (length (cpu_pages gpu D) <= length D)%nat.
Proof.
  induction D as [|[vb pv] D IH]; [done|]. rewrite cpu_pages_cons.
  destruct (classify gpu vb pv); cbn; lia.
Qed.
Lemma length_gpu_pages D : length (gpu_pages gpu D) = length (gpu_phys gpu D).
Proof. apply length_imap. Qed.

(** The bytes of a CPU page are a page. *)
Definition visit_ok (x : visit) : Prop :=
  forall bs, classify gpu (fst x) (snd x) = PcCpu bs -> Z.of_nat (length bs) = PAGE_SIZE.

Lemma length_cpu_bytes D : Forall visit_ok D ->
  Z.of_nat (length (mjoin (cpu_pages gpu D))) = Z.of_nat (length (cpu_pages gpu D)) * PAGE_SIZE.
Proof.
  induction 1 as [|[vb pv] D Hx HD IH]; [done|]. rewrite cpu_pages_cons.
  destruct (classify gpu vb pv) as [bs| |] eqn:Hc; [|exact IH..].
  cbn [length]. change (mjoin (bs :: cpu_pages gpu D)) with (bs ++ mjoin (cpu_pages gpu D)).
  rewrite length_app, Nat2Z.inj_add, IH, (Hx bs Hc). lia.
Qed.

Lemma wp_copy_to_user_exact a bs (Q : bool -> kst -> Prop) s :
  (forall s', k_user s' = mem_write a bs (k_user s) -> Q false s') ->
  (forall s', ~ HealthyEnv E ->
     (forall x, ~ (a <= x < a + Z.of_nat (length bs)) -> k_user s' !! x = k_user s !! x) -> Q true s') ->
  wp (copy_to_user a bs) Q s.
Proof.
  intros H1 H2. unfold wp, copy_to_user, kbind, tick, kmod, kret; cbn.
  destruct (env_copy_ok _) eqn:Hc; cbn; [by apply H1|]. apply H2.
  - intros HE. by rewrite healthy_copy in Hc.
  - intros x Hx. cbn. apply mem_write_lookup_out. pose proof (length_take bs (env_copy_part (k_tick s))). lia.
Qed.

Lemma kept_written D : Forall visit_ok D -> Z.of_nat (length D) <= N -> kept (cpu_written (cpu_pages gpu D)).
Proof.
  intros HD Hle a Ha. unfold cpu_written. destruct (cpu_buf =? 0) eqn:Hz; [done|]. btest.
  apply mem_write_lookup_out. rewrite length_cpu_bytes by done. pose proof (length_cpu_pages D).
  unfold PAGE_SIZE in *. lia.
Qed.

(** Growing keeps room for the next page. *)
Lemma grow_pages_correct cnt cap (Q : option Z -> kst -> Prop) s :
  0 <= cnt <= cap -> cap < 2 ^ 53 -> 0 < cap ->
  (forall cap' s', k_user s' = k_user s -> cnt < cap' -> cap <= cap' ->
     cap' = cap \/ cap' <= 2 * (cnt + 1) -> Q (Some cap') s') ->
  (forall s', ~ HealthyEnv E -> k_user s' = k_user s -> Q None s') ->
  wp (grow_pages meta cnt cap) Q s.
Proof.
  intros Hc Hc2 Hc0 Hok Hno. unfold grow_pages. apply wp_if; intros Hg; btest; [wdet; apply Hok; auto; lia|].
  rewrite u64_small by lia. wdet.
  assert (Keeps (fun s s' => k_user s' = k_user s) (kvmalloc_array (cap * 2) SIZEOF_GPU_PAGE)) as Hk1.
  { unfold kvmalloc_array, kmalloc. intros s1. destruct (_ <=? _); [done|].
    unfold kbind, tick; cbn. by destruct (env_alloc_ok _). }
  assert (forall n, Keeps (fun s s' => k_user s' = k_user s) (kvmalloc_array n SIZEOF_CRYPTO_META)) as Hk2.
  { intros n. unfold kvmalloc_array, kmalloc. intros s1. destruct (_ <=? _); [done|].
    unfold kbind, tick; cbn. by destruct (env_alloc_ok _). }
  eapply wp_mono; [apply wp_and; [apply (wp_kvmalloc_array _ _ (fun b _ => HealthyEnv E -> b = true));
    intros b s1 _ _ Hh HE; apply Hh; [done|unfold SIZEOF_GPU_PAGE; lia]
    |apply (wp_keeps _ _ (fun _ s' => k_user s' = k_user s) s Hk1); auto]|].
  intros na s1 [Hna Hu1]. wdet.
  apply wp_mono with (Q := fun nm s2 => k_user s2 = k_user s /\ (HealthyEnv E -> meta = true -> nm = true)).
  { destruct meta; [|by wdet].
    apply wp_and; [apply (wp_keeps _ _ _ _ (Hk2 _)); congruence|].
    apply wp_kvmalloc_array. intros b s2 _ _ Hh HE _. apply Hh; [done|unfold SIZEOF_CRYPTO_META; lia]. }
  intros nm s2 [Hu2 Hnm]. apply wp_if; intros Hf.
  - apply wp_bind, wp_kfree. intros k1. apply wp_bind, wp_kfree. intros k2. wdet. apply Hno; [|done]. intros HE.
    rewrite Hna in Hf by done. destruct meta; [|done]. by rewrite Hnm in Hf.
  - apply wp_bind, wp_kfree. intros k1. apply wp_bind, wp_kfree. intros k2. wdet.
    apply Hok; [done|lia..].
Qed.

Lemma cpu_written_snoc bss bs :
  cpu_buf <> 0 ->
  mem_write (cpu_buf + Z.of_nat (length (mjoin bss))) bs (cpu_written bss) = cpu_written (bss ++ [bs]).
Proof.
  intros Hb. unfold cpu_written. rewrite (proj2 (Z.eqb_neq _ _) Hb).
  rewrite join_app. cbn. by rewrite app_nil_r, mem_write_app.
Qed.

Definition page_post (D : list visit) (x : visit) :=
  collect_post (fun D l s => Forall visit_ok D /\ walked D l s) stopped D [x].

Lemma pass1_page_spec vb pv D l s :
  visit_ok (vb, pv) -> Forall visit_ok D -> walked D l s ->
  wp (pass1_page meta gpu base cpu_buf vb l pv) (page_post D (vb, pv)) s.
Proof.
  intros Hv HD Hw.
  destruct (decide (Z.of_nat (length D) < N)) as [Hlt|Hge].
  2:{ apply wp_any. intros [[st|] l'] s'; unfold page_post, collect_post; cbn.
      - exists [], [(vb, pv)]. rewrite app_nil_r. split_and!; [done..|]. intros H; lia.
      - split; [apply Forall_app; by split; [|constructor]|]. intros H. rewrite length_app in H; cbn in H. lia. }
  destruct Hw as (Hm & Hco & Hgo & Hp & Hcp & Hcl & Hu); [lia|].
  pose proof (length_cpu_pages D) as Hlc. pose proof (length_gpu_phys D) as Hlg.
  assert (Forall visit_ok (D ++ [(vb, pv)])) as HD' by (apply Forall_app; by split; [|constructor]).
  assert (forall (b : bool) st l', p1_cpu_off l' = p1_cpu_off l -> p1_gpu_off l' = p1_gpu_off l ->
    st = NV_ERR_INVALID_ARGUMENT \/ st = NV_ERR_NO_MEMORY -> forall s', ~ HealthyEnv E ->
    kept (k_user s') -> page_post D (vb, pv) (Some st, l') s') as Hstop.
  { intros _ st l' Hc' Hg' Hst s' Hh Hk. exists [], [(vb, pv)]. rewrite app_nil_r.
    split_and!; [done..|]. intros _. cbn. by rewrite Hc', Hg'. }
  unfold pass1_page. wdet. set (s1 := set_locks _ _ s).
  assert (k_user s1 = k_user s) as Hu1 by done. clearbody s1.
  destruct (classify gpu vb pv) as [bs|pa|] eqn:Hc.
  - wdet. cbv zeta. cbn [p1_cpu_off p1_set_resmap p1_resmap].
    set (l1 := mk_p1 _ _ _ _ _). set (s2 := set_locks _ _ s1).
    assert (k_user s2 = k_user s) as Hu2 by done. clearbody s2.
    apply wp_mono with (Q := fun f s3 =>
      (f = true -> ~ HealthyEnv E /\ kept (k_user s3)) /\
      (f = false -> k_user s3 = cpu_written (cpu_pages gpu D ++ [bs]))).
    + apply wp_if; intros Hz.
      * wdet. split; [done|]. intros _. rewrite Hu2, Hu. unfold cpu_written. by rewrite Hz.
      * btest. rewrite u64_small; [|unfold PAGE_SIZE in *; lia].
        apply wp_copy_to_user_exact; [|intros s3 Hh Hk; split; [|done]; intros _; split; [done|]].
        2:{ intros a Ha. rewrite Hk, Hu2, Hu; [by apply kept_written; [|lia|]|].
            intros Hr. apply Ha. split; [done|]. rewrite (Hv bs Hc), Hco in Hr. unfold PAGE_SIZE in *. lia. }
        intros s3 Hu3. split; [done|]. intros _.
        rewrite Hu3, Hu2, Hu, Hco, <- (length_cpu_bytes D HD). by apply cpu_written_snoc.
    + intros f s3 [Hf Hnf]. apply wp_if; intros Hff; wdet; [apply (Hstop true); try apply Hf; auto|].
      split; [done|]. intros _. cbn. unfold p1_cnt; cbn.
      unfold gpu_pages. rewrite resmap_of_snoc, cpu_pages_snoc, gpu_phys_snoc.
      unfold mark; cbn [fst snd]. rewrite Hc. rewrite !app_nil_r, length_app. cbn.
      split_and!; [by rewrite Hm| |done|done|apply Hcp|apply Hcp|done|by apply Hnf].
      rewrite Hco, u64_small; unfold PAGE_SIZE in *; lia.
  - wdet. cbv zeta. cbn [p1_cpu_off p1_set_resmap p1_resmap p1_pages p1_cap p1_gpu_off p1_cnt].
    assert (p1_cnt l = Z.of_nat (length (gpu_phys gpu D))) as Hcnt.
    { unfold p1_cnt. by rewrite Hp, length_gpu_pages. }
    assert (0 <= p1_cnt l <= p1_cap l /\ p1_cap l < 2 ^ 53 /\ 0 < cap0) as (Hc1 & Hc2 & Hc3) by lia.
    assert (0 < p1_cap l) as Hc4 by lia.
    apply grow_pages_correct; [exact Hc1|exact Hc2|exact Hc4| |].
    + intros cap' s2 Hu2 Hcap' Hle Hcap''. wdet. split; [done|]. intros _. cbn. unfold p1_cnt in *; cbn in *.
      rewrite gpu_pages_snoc with (pa := pa) by done. rewrite Hp, length_app; cbn.
      rewrite Hp in Hcnt, Hcap', Hcap'', Hcp; cbn in Hle.
      rewrite resmap_of_snoc, cpu_pages_snoc, gpu_phys_snoc.
      unfold mark; cbn [fst snd]. rewrite Hc. rewrite !app_nil_r, length_app. cbn.
      split_and!; [by rewrite Hm|done| |by rewrite Hgo|lia|lia|lia|rewrite Hu2; cbn; congruence].
      rewrite Hgo, u64_small; unfold PAGE_SIZE in *; lia.
    + intros s2 Hh Hu2. wdet. apply (Hstop true); auto. rewrite Hu2. cbn. rewrite Hu1, Hu.
      by apply kept_written; [|lia].
  - wdet. split; [done|]. intros _. unfold p1_cnt.
    unfold gpu_pages. rewrite resmap_of_snoc, cpu_pages_snoc, gpu_phys_snoc.
    unfold mark; cbn [fst snd]. rewrite Hc. rewrite !app_nil_r. cbn.
    split_and!; try done; try apply Hcp. cbn; congruence.
Qed.

Lemma mjoin_singletons {A B} (g : A -> B) (xs : list A) :
  mjoin ((fun x => [g x]) <$> xs) = g <$> xs.
Proof. induction xs; cbn; [done|]. by f_equal. Qed.

Lemma pass1_block_spec vb D l s :
  Forall visit_ok (block_visits d base end_ vb) -> Forall visit_ok D /\ walked D l s ->
  wp (pass1_block meta d gpu base end_ cpu_buf l vb)
     (collect_post (fun D l s => Forall visit_ok D /\ walked D l s) stopped D
        (block_visits d base end_ vb)) s.
Proof.
  intros Hv [HD Hw]. unfold pass1_block, block_visits in *. cbv zeta in *.
  set (bs := Z.max _ _) in *. set (be := Z.min _ _) in *.
  assert (forall (b : bool) s, Forall visit_ok D /\ walked D l s ->
    (b = true -> block_visits d base end_ vb = []) -> b = true ->
    wp (kret (None, l)) (collect_post (fun D l s => Forall visit_ok D /\ walked D l s) stopped D
        (block_visits d base end_ vb)) s) as Hskip.
  { intros b s1 H1 H2 ->. wdet. rewrite H2 by done. unfold collect_post; cbn. by rewrite app_nil_r. }
  unfold block_visits in Hskip.
  apply wp_if; intros Hbe.
  { apply (Hskip true); [done| |done]. intros _. unfold page_vas. fold bs be. rewrite Hbe. by destruct (_ && _). }
  apply wp_bind. apply wp_mono with (Q := fun skip s' =>
    k_user s' = k_user s /\ skip = d && negb (vb_tracking vb && vb_dirty vb)).
  { destruct d; wdet; done. }
  intros skip s1 [Hu1 ->].
  assert (walked D l s1) as Hw1 by (intros HN'; rewrite Hu1; by apply Hw).
  apply wp_if; intros Hsk; [by apply (Hskip (d && negb (vb_tracking vb && vb_dirty vb)));
    [|intros ->|]|].
  rewrite Hsk in Hv |- *. rewrite <- mjoin_singletons.
  apply (wp_kfold_collect (fun D l s => Forall visit_ok D /\ walked D l s) stopped); [|done].
  intros pv D' l' s' Hpv [HD' Hw']. apply pass1_page_spec; [|done..].
  rewrite Forall_forall in Hv. apply Hv. apply list_elem_of_fmap. by exists pv.
Qed.

Lemma pass1_range_spec r D l s :
  Forall visit_ok (range_visits d base end_ r) -> Forall visit_ok D /\ walked D l s ->
  wp (pass1_range meta d gpu base end_ cpu_buf l r)
     (collect_post (fun D l s => Forall visit_ok D /\ walked D l s) stopped D
        (range_visits d base end_ r)) s.
Proof.
  intros Hv HD. unfold pass1_range, range_visits in *. destruct (is_managed r); cbn [negb].
  - apply wp_kfold_collect; [|done]. intros vb D' l' s' Hvb HD'. apply pass1_block_spec; [|done].
    rewrite Forall_forall in Hv |- *. intros x Hx. apply Hv. apply list_elem_of_join.
    eexists. split; [exact Hx|]. apply list_elem_of_fmap. eauto.
  - wdet. unfold collect_post; cbn. by rewrite app_nil_r.
Qed.
End Walk.

(** ** The walk visits pages in address order *)

Lemma sorted_join {A B} (g : B -> Z) (f : A -> list B) (lo hi : A -> Z) xs :
  StronglySorted (fun x y => hi x < lo y) xs ->
  (forall x, x ∈ xs -> StronglySorted (fun a b => g a < g b) (f x) /\
                       forall z, z ∈ f x -> lo x <= g z <= hi x) ->
  StronglySorted (fun a b => g a < g b) (mjoin (f <$> xs)).
Proof.
  induction 1 as [|x xs Hs IH Hx]; intros Hf; [constructor|].
  change (mjoin (f <$> x :: xs)) with (f x ++ mjoin (f <$> xs)).
  apply StronglySorted_app_2; [|apply Hf; left|apply IH; intros; apply Hf; by right].
  intros a b Ha Hb. apply list_elem_of_join in Hb as (l & Hb & Hl).
  apply list_elem_of_fmap in Hl as (y & -> & Hy).
  destruct (Hf x) as [_ Hfx]; [by left|]. destruct (Hf y) as [_ Hfy]; [by right|].
  rewrite Forall_forall in Hx. specialize (Hx y Hy). specialize (Hfx a Ha).
  specialize (Hfy b Hb). cbv beta in Hx. lia.
Qed.

Lemma sorted_populated {A} (R : A -> A -> Prop) (l : list (option A)) :
  (forall i j a b, (i < j)%nat -> l !! i = Some (Some a) -> l !! j = Some (Some b) -> R a b) ->
  StronglySorted R (omap id l).
Proof.
  induction l as [|[a|] l IH]; intros H; cbn.
  - constructor.
  - constructor.
    + apply IH. intros i j x y Hij. apply (H (S i) (S j)). lia.
    + apply Forall_forall. intros b Hb. apply list_elem_of_omap in Hb as (ob & Hob & Hid).
      cbn in Hid; subst ob. apply list_elem_of_lookup in Hob as [j Hj]. by apply (H 0%nat (S j)); [lia|..].
  - apply IH. intros i j x y Hij. apply (H (S i) (S j)). lia.
Qed.

Lemma page_vas_spec bs be :
  StronglySorted Z.lt (page_vas bs be) /\
  forall pv, pv ∈ page_vas bs be <-> bs <= pv <= be /\ (pv - bs) mod PAGE_SIZE = 0.
Proof.
  unfold page_vas. destruct (be <? bs) eqn:Hb; btest.
  { split; [constructor|]. intros pv. split; [set_solver|lia]. }
  set (n := (be - bs) / PAGE_SIZE + 1).
  assert (0 <= n) by (subst n; unfold PAGE_SIZE; zlia).
  split.
  - assert (forall k m, 0 <= m -> StronglySorted Z.lt ((fun k => bs + k * PAGE_SIZE) <$> seqZ k m)) as Hs.
    { intros k m Hm. revert k. pattern m. apply natlike_ind; [constructor| |done].
      intros x Hx IH k. rewrite seqZ_cons, Z.pred_succ by lia. cbn. constructor; [apply IH|].
      apply Forall_forall. intros z Hz. apply list_elem_of_fmap in Hz as (j & -> & Hj).
      apply elem_of_seqZ in Hj. unfold PAGE_SIZE. lia. }
    by apply Hs.
  - intros pv. rewrite list_elem_of_fmap. split.
    + intros (k & -> & Hk). apply elem_of_seqZ in Hk. subst n. unfold PAGE_SIZE in *.
      split; [zlia|]. replace (bs + k * 4096 - bs) with (k * 4096) by lia. by apply Z.mod_mul.
    + intros [Hr Hm]. exists ((pv - bs) / PAGE_SIZE). rewrite elem_of_seqZ. subst n.
      unfold PAGE_SIZE in *. split; zlia.
Qed.

Lemma range_blocks_sorted r : range_wf r ->
  StronglySorted (fun b b' => vb_end b < vb_start b') (range_blocks r).
Proof.
  intros [Hb Hs Hk]. apply sorted_populated. intros i j a b Hij Hi Hj.
  destruct (Hk i a Hi) as [_ ->]. destruct (Hk j b Hj) as [-> _].
  apply lookup_lt_Some in Hi, Hj.
  rewrite block_calc_end_eq, block_calc_start_eq by (done || lia).
  pose proof (num_blocks_eq r Hb). destruct Hb. geom.
Qed.

Lemma range_block_bounds r b : range_wf r -> b ∈ range_blocks r ->
  vr_start r <= vb_start b /\ vb_start b <= vb_end b /\ vb_end b <= vr_end r /\ vb_end b < 2 ^ 63 /\
  vb_start b mod PAGE_SIZE = 0 /\ (vb_end b + 1) mod PAGE_SIZE = 0.
Proof.
  intros [Hb Hs Hk] Hin. unfold range_blocks in Hin.
  apply list_elem_of_omap in Hin as (ob & Hob & Hid). cbn in Hid; subst ob.
  apply list_elem_of_lookup in Hob as [i Hi]. destruct (Hk i b Hi) as [-> ->].
  apply lookup_lt_Some in Hi. destruct (block_calc_nonempty r (Z.of_nat i) Hb) as (?&?&?&?&?); [lia|].
  rewrite block_calc_start_eq, block_calc_end_eq in * by (done || lia).
  destruct Hb. split_and!; try done; lia.
Qed.

(** The page addresses of a walk: increasing, in the interval, page aligned. *)
Lemma space_visits_sorted d base end_ v :
  va_space_wf v -> base mod PAGE_SIZE = 0 -> 0 <= base ->
  StronglySorted (fun x y : visit => snd x < snd y) (space_visits d base end_ v) /\
  forall vb pv, (vb, pv) ∈ space_visits d base end_ v ->
    base <= pv <= end_ /\ pv < 2 ^ 63 /\ pv mod PAGE_SIZE = 0 /\ vb_start vb <= pv <= vb_end vb /\
    vb_start vb mod PAGE_SIZE = 0.
Proof.
  intros [Hsort Hwf] Hb Hb0.
  assert (forall x vb, x ∈ block_visits d base end_ vb ->
            fst x = vb /\ snd x ∈ page_vas (Z.max (vb_start vb) base) (Z.min (vb_end vb) end_)) as Hbv.
  { intros x vb. unfold block_visits. destruct (_ && _); [set_solver|].
    rewrite list_elem_of_fmap. by intros (pv & -> & Hpv). }
  assert (forall r x, x ∈ range_visits d base end_ r ->
            is_managed r = true /\ fst x ∈ range_blocks r /\ x ∈ block_visits d base end_ (fst x)) as Hrv.
  { intros r x. unfold range_visits. destruct (is_managed r); [|set_solver].
    rewrite list_elem_of_join. intros (l & Hin & Hl). apply list_elem_of_fmap in Hl as (vb & -> & Hvb).
    destruct (Hbv _ _ Hin) as [-> _]. done. }
  assert (forall r, r ∈ ranges_in v base end_ -> r ∈ vs_ranges v) as Hin.
  { intros r. unfold ranges_in. rewrite list_elem_of_filter. naive_solver. }
  assert (forall r x, r ∈ vs_ranges v -> x ∈ range_visits d base end_ r ->
    base <= snd x <= end_ /\ snd x < 2 ^ 63 /\ snd x mod PAGE_SIZE = 0 /\
    vb_start (fst x) <= snd x <= vb_end (fst x) /\ vb_start (fst x) mod PAGE_SIZE = 0 /\
    vr_start r <= snd x <= vr_end r) as Hall.
  { intros r x Hr Hx. destruct (Hrv r x Hx) as (Hm & Hvb & Hx').
    destruct (Hbv _ _ Hx') as [_ Hpv]. apply page_vas_spec in Hpv as [Hpv Hmod].
    destruct (range_block_bounds r (fst x) (Hwf r Hr Hm) Hvb) as (?&?&?&?&?&?).
    unfold PAGE_SIZE in *. split_and!; try done; try lia.
    assert (Z.max (vb_start (fst x)) base mod 4096 = 0) by (destruct (Z.max_spec (vb_start (fst x)) base) as [[_ ->]|[_ ->]]; done).
    zlia. }
  split.
  - apply (sorted_join snd _ vr_start vr_end); [by apply sorted_filter|].
    intros r Hr. split; [|intros x Hx; by apply (Hall r x (Hin r Hr) Hx)].
    unfold range_visits. destruct (is_managed r) eqn:Hm; [|constructor].
    pose proof (Hwf r (Hin r Hr) Hm) as Hrw.
    apply (sorted_join snd _ vb_start vb_end); [by apply range_blocks_sorted|].
    intros vb Hvb. split.
    + unfold block_visits. destruct (_ && _); [constructor|].
      apply (StronglySorted_fmap (pair vb) Z.lt); [done|]. apply page_vas_spec.
    + intros x Hx. destruct (Hbv _ _ Hx) as [_ Hpv]. apply page_vas_spec in Hpv. lia.
  - intros vb pv Hx. unfold space_visits in Hx.
    apply list_elem_of_join in Hx as (l & Hx & Hl). apply list_elem_of_fmap in Hl as (r & -> & Hr).
    destruct (Hall r (vb, pv) (Hin r Hr) Hx) as (?&?&?&?&?&?); cbn in *. split_and!; done || lia.
Qed.

(** The residency map by index: the code of the visited page there, or the
    initial value. *)
Lemma resmap_of_untouched gpu base D : forall m (i : nat),
  (forall x, x ∈ D -> page_idx base (snd x) <> i) -> resmap_of gpu base m D !! i = m !! i.
Proof.
  induction D as [|x D IH]; intros m i Hi; [done|]. cbn [resmap_of fold_left].
  change (fold_left (mark gpu base) D (mark gpu base m x)) with (resmap_of gpu base (mark gpu base m x) D).
  rewrite IH; [|intros; apply Hi; by right]. unfold mark.
  assert (page_idx base (snd x) <> i) by (apply Hi; left).
  destruct (classify _ _ _); rewrite ?list_lookup_insert_ne by done; done.
Qed.

Lemma length_resmap_of gpu base D : forall m, length (resmap_of gpu base m D) = length m.
Proof.
  induction D as [|x D IH]; intros m; [done|]. cbn [resmap_of fold_left].
  change (fold_left (mark gpu base) D (mark gpu base m x)) with (resmap_of gpu base (mark gpu base m x) D).
  rewrite IH. unfold mark. destruct (classify _ _ _); by rewrite ?length_insert.
Qed.

Lemma resmap_of_visited gpu base D : forall m x,
  StronglySorted (fun x y : visit => snd x < snd y) D ->
  (forall y, y ∈ D -> base <= snd y < 2 ^ 63 /\ snd y mod PAGE_SIZE = 0 /\ (page_idx base (snd y) < length m)%nat) ->
  0 <= base -> base mod PAGE_SIZE = 0 -> x ∈ D ->
  m !! page_idx base (snd x) = Some RESMAP_ABSENT ->
  resmap_of gpu base m D !! page_idx base (snd x) = Some (class_code (classify gpu (fst x) (snd x))).
Proof.
  induction D as [|y D IH]; intros m x Hs Hb H0 Hmod Hx Hm; [set_solver|].
  apply StronglySorted_cons in Hs as [Hy Hs]. cbn [resmap_of fold_left].
  change (fold_left (mark gpu base) D (mark gpu base m y)) with (resmap_of gpu base (mark gpu base m y) D).
  assert (forall z, z ∈ D -> page_idx base (snd z) <> page_idx base (snd y)) as Hne.
  { intros z Hz. rewrite Forall_forall in Hy. specialize (Hy z Hz). cbv beta in Hy.
    destruct (Hb y ltac:(left)) as (?&?&_). destruct (Hb z ltac:(by right)) as (?&?&_).
    unfold page_idx, PAGE_SIZE in *. rewrite !u64_small by lia. zlia. }
  apply elem_of_cons in Hx as [->|Hx].
  - rewrite resmap_of_untouched by done. destruct (Hb y ltac:(left)) as (_&_&Hl). unfold mark.
    destruct (classify gpu (fst y) (snd y)) eqn:Hc; cbn; [by rewrite list_lookup_insert_eq..|done].
  - apply IH; try done.
    + intros z Hz. destruct (Hb z ltac:(by right)) as (?&?&?). split_and!; [lia|lia|done|].
      unfold mark. destruct (classify gpu (fst y) (snd y)); by rewrite ?length_insert.
    + unfold mark. pose proof (Hne x Hx).
      destruct (classify gpu (fst y) (snd y)); rewrite ?list_lookup_insert_ne by done; done.
Qed.

(** No more pages than the map has entries. *)
Lemma length_visits_le base n D :
  StronglySorted (fun x y : visit => snd x < snd y) D -> 0 <= base -> base mod PAGE_SIZE = 0 -> 0 <= n ->
  (forall y, y ∈ D -> base <= snd y < base + n * PAGE_SIZE /\ snd y mod PAGE_SIZE = 0) ->
  Z.of_nat (length D) <= n.
Proof.
  intros Hs H0 Hm Hn Hb.
  assert (forall D b k, StronglySorted (fun x y : visit => snd x < snd y) D ->
    (forall y, y ∈ D -> b + k * PAGE_SIZE <= snd y < b + n * PAGE_SIZE /\ (snd y - b) mod PAGE_SIZE = 0) ->
    k <= n -> Z.of_nat (length D) <= n - k) as Hgen.
  { clear. induction D as [|y D IH]; intros b k Hs Hb Hk; [cbn; lia|].
    apply StronglySorted_cons in Hs as [Hy Hs]. destruct (Hb y ltac:(left)) as [Hy1 Hy2].
    assert (Z.of_nat (length D) <= n - (k + 1)); [|cbn; lia]. unfold PAGE_SIZE in *.
    apply (IH b); [done| |zlia]. intros z Hz. destruct (Hb z ltac:(by right)) as [Hz1 Hz2].
    rewrite Forall_forall in Hy. specialize (Hy z Hz). cbv beta in Hy. zlia. }
  replace n with (n - 0) by lia. apply (Hgen D base 0); [done| |lia].
  intros y Hy. destruct (Hb y Hy) as [? ?]. unfold PAGE_SIZE in *. zlia.
Qed.

(** ** The whole pass *)

(** The space the pass works on: the first whose managed range holds [base]. *)
Fixpoint owner_space (base : Z) (spaces : list va_space) : option va_space :=
  match spaces with
  | [] => None
  | v :: vs =>
      match uvm_va_range_find v base with
      | Some r => if is_managed r then Some v else owner_space base vs
      | None => owner_space base vs
      end
  end.

(** The arguments of a walk of [n] pages over space [v] with the given output
    buffer: aligned, in user space, and with room for the CPU pages. *)
Record walk_args (v : va_space) (gpu : option Z) (d : bool) (base n cpu_buf : Z) : Prop := {
  wa_space : va_space_wf v;
  wa_base  : 0 <= base /\ base mod PAGE_SIZE = 0;
  wa_len   : 0 < n < 2 ^ 50 /\ base + n * PAGE_SIZE <= 2 ^ 63;
  wa_buf   : 0 <= cpu_buf /\ cpu_buf + n * PAGE_SIZE <= 2 ^ 64;
  wa_pages : Forall (visit_ok gpu) (space_visits d base (base + n * PAGE_SIZE - 1) v);
}.

(** The result of the pass: user memory [u'] and the locals [l']. *)
Definition pass1_done (gpu : option Z) (base cpu_buf : Z) (D : list visit) (m0 : list Z) (cap0 : Z)
    (u : mem) (l' : pass1_locals) (u' : mem) : Prop :=
  p1_resmap l' = resmap_of gpu base m0 D /\
  p1_cpu_off l' = Z.of_nat (length (cpu_pages gpu D)) * PAGE_SIZE /\
  p1_gpu_off l' = Z.of_nat (length (gpu_phys gpu D)) * PAGE_SIZE /\
  p1_pages l' = gpu_pages gpu D /\
  p1_cnt l' <= p1_cap l' <= Z.max cap0 (2 * p1_cnt l') /\
  u' = cpu_written cpu_buf u (cpu_pages gpu D).

(** What a failed walk still reports. *)
Definition pass1_partial (l' : pass1_locals) : Prop :=
  exists nc ng : nat, p1_cpu_off l' = Z.of_nat nc * PAGE_SIZE /\ p1_gpu_off l' = Z.of_nat ng * PAGE_SIZE.

Definition pass1_post `{E : Env} (d : bool) (base n cpu_buf : Z) (uuid : list Z)
    (spaces : list va_space) (l : pass1_locals) (s : kst)
    (r : nv_status * pass1_locals * option Z) (s' : kst) : Prop :=
  let '(st, l', gpu) := r in
  user_only s s' /\
  match owner_space base spaces with
  | None => st = NV_ERR_INVALID_ADDRESS /\ l' = l /\ gpu = None /\ k_user s' = k_user s
  | Some v =>
      gpu = resolve_gpu v uuid /\
      (walk_args v gpu d base n cpu_buf -> p1_resmap l = replicate (Z.to_nat n) RESMAP_ABSENT ->
       0 < p1_cap l < 2 ^ 50 -> p1_cpu_off l = 0 -> p1_gpu_off l = 0 -> p1_pages l = [] ->
       let D := space_visits d base (base + n * PAGE_SIZE - 1) v in
       st = NV_OK /\
         pass1_done gpu base cpu_buf D (p1_resmap l) (p1_cap l) (k_user s) l' (k_user s') \/
       (st = NV_ERR_INVALID_ARGUMENT \/ st = NV_ERR_NO_MEMORY) /\ ~ HealthyEnv E /\ pass1_partial l' /\
         kept cpu_buf n (k_user s) (k_user s'))
  end.

Lemma wp_find_va_space `{E : Env} base spaces s :
  wp (find_va_space base spaces) (fun ov s' => ov = owner_space base spaces /\ k_user s' = k_user s) s.
Proof.
  revert s. induction spaces as [|v vs IH]; intros s; cbn [find_va_space owner_space]; [by wdet|]. wdet.
  destruct (uvm_va_range_find v base) as [r|].
  - destruct (is_managed r); wdet; [done|]. eapply wp_mono; [apply IH|]. by intros ov s' [-> ->].
  - wdet. eapply wp_mono; [apply IH|]. by intros ov s' [-> ->].
Qed.

Lemma wp_impl {A} (P : Prop) (m : K A) (Q : A -> kst -> Prop) s :
  (P -> wp m Q s) -> wp m (fun a s' => P -> Q a s') s.
Proof. unfold wp. auto. Qed.

Lemma walk_bounds v gpu d base n cpu_buf :
  walk_args v gpu d base n cpu_buf ->
  let D := space_visits d base (base + n * PAGE_SIZE - 1) v in
  StronglySorted (fun x y : visit => snd x < snd y) D /\ Z.of_nat (length D) <= n /\
  forall x, x ∈ D -> base <= snd x < base + n * PAGE_SIZE /\ snd x < 2 ^ 63 /\
    snd x mod PAGE_SIZE = 0 /\ (page_idx base (snd x) < Z.to_nat n)%nat.
Proof.
  intros [Hv [Hb0 Hbm] [Hn He] _ _] D.
  destruct (space_visits_sorted d base (base + n * PAGE_SIZE - 1) v Hv Hbm Hb0) as [Hs Hx].
  assert (forall x, x ∈ D -> base <= snd x < base + n * PAGE_SIZE /\ snd x < 2 ^ 63 /\
    snd x mod PAGE_SIZE = 0) as Hb.
  { intros [vb pv] Hin. destruct (Hx vb pv Hin) as (?&?&?&_). cbn. split_and!; lia || done. }
  split_and!; [done| |].
  - apply (length_visits_le base n D Hs Hb0 Hbm); [lia|]. intros y Hy.
    destruct (Hb y Hy) as (?&?&?). split; [lia|done].
  - intros x Hin. destruct (Hb x Hin) as (?&?&?). split_and!; try lia.
    unfold page_idx, PAGE_SIZE in *. rewrite u64_small by lia. zlia.
Qed.

Lemma pass1_spec `{E : Env} meta d base n cpu_buf uuid spaces l s :
  wp (pass1 meta d base (n * PAGE_SIZE) cpu_buf uuid spaces l)
     (pass1_post d base n cpu_buf uuid spaces l s) s.
Proof.
  pose proof (user_only_pass1 meta d base (n * PAGE_SIZE) cpu_buf uuid spaces l s) as Hk.
  enough (wp (pass1 meta d base (n * PAGE_SIZE) cpu_buf uuid spaces l)
    (fun r s' => user_only s s' -> pass1_post d base n cpu_buf uuid spaces l s r s') s) as H by (by apply H).
  clear Hk. unfold pass1. cbv zeta. wdet. set (s1 := set_locks _ _ s).
  change (k_user s) with (k_user s1). assert (k_user s1 = k_user s) as Hu1 by done. clearbody s1.
  eapply wp_mono; [apply wp_find_va_space|]. intros ov s2 [-> Hu2].
  destruct (owner_space base spaces) as [v|] eqn:Hov.
  2:{ wdet. intros Hk. split; [done|]. rewrite Hov. split_and!; try done. cbn. congruence. }
  wdet. set (gpu := resolve_gpu v uuid). set (endd := u64 _).
  set (D := space_visits d base (base + n * PAGE_SIZE - 1) v).
  set (hyps := walk_args v gpu d base n cpu_buf /\ p1_resmap l = replicate (Z.to_nat n) RESMAP_ABSENT /\
    0 < p1_cap l < 2 ^ 50 /\ p1_cpu_off l = 0 /\ p1_gpu_off l = 0 /\ p1_pages l = []).
  apply wp_mono with (Q := fun r s' => hyps ->
    collect_post (fun D' l' s' => Forall (visit_ok gpu) D' /\
                    walked gpu base cpu_buf (p1_resmap l) (p1_cap l) n (k_user s) D' l' s')
      (stopped gpu cpu_buf n (k_user s)) [] D r s').
  - apply wp_impl. intros (Hw & Hm & Hcap & Hco & Hgo & Hp).
    pose proof Hw as [Hv [Hb0 Hbm] [Hn He] Hbuf Hok].
    assert (endd = base + n * PAGE_SIZE - 1) as Hend.
    { subst endd. unfold PAGE_SIZE in *. rewrite (u64_small (base + _)), u64_small by lia. done. }
    rewrite Hend. unfold D, space_visits in *. fold D. apply wp_kfold_collect.
    + intros r D' l' s' Hr HD'. apply pass1_range_spec; try done; try lia.
      rewrite Forall_forall in Hok |- *. intros x Hx. apply Hok. apply list_elem_of_join.
      eexists. split; [exact Hx|]. apply list_elem_of_fmap. eauto.
    + split; [constructor|]. intros _. rewrite Hco, Hgo, Hp. unfold p1_cnt. rewrite Hp. cbn.
      split_and!; try done; try lia. unfold cpu_written. rewrite Hu2, Hu1. by destruct (cpu_buf =? 0).
  - intros [ex l'] s3 Hpost. wdet. intros Hk. split; [exact Hk|]. rewrite Hov.
    split; [done|]. intros Hw Hm Hcap Hco Hgo Hp. fold gpu D.
    assert (hyps) as Hh by done. specialize (Hpost Hh). clear Hh.
    destruct (walk_bounds v gpu d base n cpu_buf Hw) as (_ & Hle & _). fold D in Hle.
    unfold collect_post in Hpost; cbn [fst snd app] in Hpost. destruct ex as [st|]; cbn [loop_status].
    + right. destruct Hpost as (D1 & T2 & HD & HT & Hst). destruct Hst as (Hst & Hh & Hc & Hg & Hk').
      { rewrite HD, length_app in Hle. destruct T2; [done|]. cbn in Hle. lia. }
      split_and!; [done..| |exact Hk']. eexists _, _. by split.
    + left. split; [done|]. destruct Hpost as [_ Hwk].
      destruct (Hwk Hle) as (?&?&?&?&?&?&?). unfold pass1_done. split_and!; done || lia.
Qed.

(** The locals the handlers start the pass with. *)
Definition pass1_start (n : Z) : pass1_locals :=
  mk_p1 (replicate (Z.to_nat n) RESMAP_ABSENT) 0 0 [] (Z.min n 512).

(** C24: Pass 1 on a range some VA space manages: locks and allocations are
    balanced and only the CPU buffer is written on every path; when it returns OK
    every page it visited has its residency in the map and all others are absent,
    the GPU pages are listed in address order with dense offsets, and the CPU
    buffer holds the contents of the CPU pages. *)
Theorem pass1_correct `{E : Env} meta d base n cpu_buf uuid spaces v s :
  owner_space base spaces = Some v ->
  let gpu := resolve_gpu v uuid in
  walk_args v gpu d base n cpu_buf ->
  let D := space_visits d base (base + n * PAGE_SIZE - 1) v in
  let '(st, l, g, s') := pass1 meta d base (n * PAGE_SIZE) cpu_buf uuid spaces (pass1_start n) s in
  g = gpu /\ (HealthyEnv E -> st = NV_OK) /\
  (k_locks s = [] -> k_lock_bug s = false -> k_locks s' = [] /\ k_lock_bug s' = false) /\
  k_live s' = k_live s /\ kept cpu_buf n (k_user s) (k_user s') /\
  (st = NV_OK ->
     StronglySorted (fun x y : visit => snd x < snd y) D /\
     (forall x, x ∈ D -> p1_resmap l !! page_idx base (snd x)
                         = Some (class_code (classify gpu (fst x) (snd x)))) /\
     (forall i, (i < Z.to_nat n)%nat -> (forall x, x ∈ D -> page_idx base (snd x) <> i) ->
        p1_resmap l !! i = Some RESMAP_ABSENT) /\
     p1_pages l = gpu_pages gpu D /\
     p1_cpu_off l = Z.of_nat (length (cpu_pages gpu D)) * PAGE_SIZE /\
     p1_gpu_off l = Z.of_nat (length (gpu_phys gpu D)) * PAGE_SIZE /\
     p1_cnt l <= p1_cap l /\
     (cpu_buf <> 0 -> mem_holds (k_user s') cpu_buf (mjoin (cpu_pages gpu D))) /\
     (forall a, ~ (cpu_buf <> 0 /\ cpu_buf <= a < cpu_buf + p1_cpu_off l) -> k_user s' !! a = k_user s !! a)).
Proof.
  intros Hov gpu Hw D. pose proof (pass1_spec meta d base n cpu_buf uuid spaces (pass1_start n) s) as H.
  pose proof (lock_pass1 meta d base (n * PAGE_SIZE) cpu_buf uuid spaces (pass1_start n) s) as Hlk.
  pose proof (live_pass1 meta d base (n * PAGE_SIZE) cpu_buf uuid spaces (pass1_start n) s) as Hlv.
  unfold wp in H. destruct (pass1 _ _ _ _ _ _ _ _ s) as [[[st l] g] s']; cbn [fst snd] in *.
  destruct H as [_ H]. rewrite Hov in H. destruct H as [-> H]. specialize (H Hw eq_refl).
  pose proof (walk_bounds v gpu d base n cpu_buf Hw) as (Hs & Hlen & Hb). fold D in Hs, Hlen, Hb.
  pose proof Hw as [_ [Hb0 Hbm] [Hn _] Hcbuf Hok].
  destruct H as [[-> Hd]|(Hst & Hh & _ & Hk)]; [cbn; lia|done..| |].
  2:{ split_and!; try done; [lia|]. intros ->. by destruct Hst. }
  destruct Hd as (Hm & Hco & Hgo & Hp & [Hc _] & Hu). fold gpu D in Hm, Hco, Hgo, Hp, Hu.
  cbn [pass1_start p1_resmap] in Hm. set (m0 := replicate (Z.to_nat n) RESMAP_ABSENT) in *.
  pose proof (length_cpu_bytes gpu D Hok) as Hcb.
  split_and!; try done; [lia|rewrite Hu; exact (kept_written gpu cpu_buf n _ Hcbuf D Hok Hlen)|]. intros _. split_and!; try done.
  - intros x Hx. rewrite Hm. apply resmap_of_visited; try done.
    + intros y Hy. destruct (Hb y Hy) as (?&?&?&?). subst m0. rewrite length_replicate. split_and!; done || lia.
    + destruct (Hb x Hx) as (_&_&_&?). by apply lookup_replicate_2.
  - intros i Hi Hx. rewrite Hm, resmap_of_untouched by done. by apply lookup_replicate_2.
  - intros Hcb0. rewrite Hu. unfold cpu_written. rewrite (proj2 (Z.eqb_neq _ _) Hcb0).
    apply mem_write_holds.
  - intros a Ha. rewrite Hu. unfold cpu_written. destruct (cpu_buf =? 0) eqn:Hz; [done|]. btest.
    apply mem_write_lookup_out. rewrite Hcb, <- Hco. lia.
Qed.

(** The dirty-only walk is the full walk restricted to the tracked dirty blocks. *)
Definition visit_dirty (x : visit) : Prop := vb_tracking (fst x) && vb_dirty (fst x) = true.

Lemma filter_join {A} (P : A -> Prop) `{!forall x, Decision (P x)} (ls : list (list A)) :
  filter P (mjoin ls) = mjoin (filter P <$> ls).
Proof.
  induction ls as [|l ls IH]; [done|].
  change (filter P (l ++ mjoin ls) = filter P l ++ mjoin (filter P <$> ls)).
  by rewrite filter_app, IH.
Qed.

Lemma dirty_walk_restricts base end_ v :
  space_visits true base end_ v = filter (fun x => visit_dirty x) (space_visits false base end_ v).
Proof.
  unfold space_visits. rewrite filter_join, <- list_fmap_compose. f_equal.
  apply list_fmap_ext. intros _ r _. unfold range_visits; cbn. destruct (is_managed r); [|done].
  rewrite filter_join, <- list_fmap_compose. f_equal. apply list_fmap_ext. intros _ vb _. cbn.
  unfold block_visits. cbn [andb]. destruct (vb_tracking vb && vb_dirty vb) eqn:Hd; cbn [negb].
  - symmetry. apply list_filter_id. intros x Hx. apply list_elem_of_fmap in Hx as (pv & -> & _).
    unfold visit_dirty; cbn. done.
  - symmetry. apply list_filter_nil. intros x Hx. apply list_elem_of_fmap in Hx as (pv & -> & _).
    unfold visit_dirty; cbn. by rewrite Hd.
Qed.
