(* ===== verification/Jobs.v ===== *)
(** Transfers as jobs: what one transfer of pass 2 delivers, what it leaves
    alone, and which sets of transfers are independent.

    A job is a run of the page array and the index of its metadata entry.  The
    machines of [Transfer] and [Bench] move jobs through DMA buffers ([Slots]);
    their contracts are stated with [out_ok], [step_frame] and [delivered]. *)
From S2P Require Import Prelude Kernel VaBlock ConfComputing Runs.

(** A transfer to make: a run and the index of its metadata entry. *)
Record job := mk_job { jb_run : run; jb_ti : Z }.

#[export] Instance job_eq_dec : EqDecision job.
Proof. solve_decision. Defined.

Definition page_zero : gpu_page := mk_gpu_page (mk_phys 0 UVM_APERTURE_VID) 0.

Section Jobs.
Context (pages : list gpu_page) (gpu_buf : Z).

(** [gpu_pages[rs]] of a run. *)
Definition run_page (r : run) : gpu_page := default page_zero (pages !! Z.to_nat (rn_start r)).
Definition job_pa (j : job) : phys_address := gp_phys (run_page (jb_run j)).
Definition job_bytes (j : job) : Z := rn_bytes (jb_run j).
Definition job_addr (j : job) : Z := u64 (gpu_buf + gp_off (run_page (jb_run j))).

(** The jobs of a slice of the run list, whose metadata starts at [base]. *)
Definition make_jobs (base : Z) (runs : list run) : list job :=
  imap (fun i r => mk_job r (base + Z.of_nat i)) runs.
End Jobs.

(** [crypto_meta_buf[ti] = ...]. *)
Definition meta_of (d : dma_buffer) (size : Z) : crypto_meta :=
  mk_crypto_meta size (take 12 (fst (db_decrypt_iv d))) (snd (db_decrypt_iv d)) (buf_tag d)
    (db_key_version d).

Lemma make_jobs_app base l1 l2 :
  make_jobs base (l1 ++ l2) = make_jobs base l1 ++ make_jobs (base + Z.of_nat (length l1)) l2.
Proof.
  unfold make_jobs. rewrite imap_app. f_equal. apply imap_ext. intros i x _. cbn.
  f_equal. lia.
Qed.

Lemma length_make_jobs base l : length (make_jobs base l) = length l.
Proof. apply length_imap. Qed.

(** ** What a transfer delivers, and what it leaves alone *)

Section Outputs.
Context `{E : Env} `{G : CcGpu}.
Context (pages : list gpu_page) (cipher : bool) (gpu_buf : Z).

#[local] Notation job_pa := (job_pa pages).
#[local] Notation job_addr := (job_addr pages gpu_buf).

(** The user bytes of a job. *)
Definition in_range (j : job) (a : Z) : Prop :=
  gpu_buf <> 0 /\ job_addr j <= a < job_addr j + job_bytes j.

(** The metadata entry of a job decrypts [c] to its video memory. *)
Definition stored (j : job) (c : list Z) (s : kst) : Prop :=
  exists m, k_meta s !! jb_ti j = Some m /\ cm_size m = job_bytes j /\
    csl_decrypt (cm_key_version m) (cm_iv m, cm_iv_fresh m) c (cm_auth_tag m)
      = Some (vid_read (job_pa j) (job_bytes j)) /\
    Z.of_nat (length c) = job_bytes j /\
    Z.of_nat (length (cm_auth_tag m)) = UVM_CONF_COMPUTING_AUTH_TAG_SIZE /\
    iv_ok (cm_iv m, cm_iv_fresh m) /\ 0 <= cm_key_version m < 2 ^ 32.

(** The output of a job: the plaintext of its video memory, or a ciphertext
    that its metadata entry decrypts to it. *)
Definition out_ok (j : job) (s : kst) : Prop :=
  if cipher then
    exists c, stored j c s /\ (gpu_buf <> 0 -> mem_holds (k_user s) (job_addr j) c)
  else gpu_buf <> 0 -> mem_holds (k_user s) (job_addr j) (vid_read (job_pa j) (job_bytes j)).

Lemma stored_meta j c s s' : k_meta s' !! jb_ti j = k_meta s !! jb_ti j -> stored j c s -> stored j c s'.
Proof. intros Hm (m & Hk & H). exists m. split; [by rewrite Hm|done]. Qed.

(** Writing the metadata entry of the copy in a buffer. *)
Lemma stored_after d j s :
  holds_copy d (job_pa j) (job_bytes j) ->
  stored j (buf_cipher d (job_bytes j)) (set_meta (<[jb_ti j := meta_of d (job_bytes j)]> (k_meta s)) s).
Proof.
  intros (Hd & Hlc & Hlt & Hli & Hkv). exists (meta_of d (job_bytes j)). pose proof Hli as [Hl12 _].
  split; [apply lookup_insert_eq|]. cbn. rewrite take_ge by lia.
  split_and!; try done; try apply Hkv; by destruct (db_decrypt_iv d).
Qed.

(** A step on behalf of the jobs [js], with the buffers [out] in other hands. *)
Definition step_frame (js : list job) (out : list Z) (s s' : kst) : Prop :=
  (forall a, (forall j, j ∈ js -> ~ in_range j a) -> k_user s' !! a = k_user s !! a) /\
  (forall t, t ∉ jb_ti <$> js -> k_meta s' !! t = k_meta s !! t) /\
  (forall b, b ∈ out -> k_bufs s' !! b = k_bufs s !! b) /\ iv_step s s'.

#[export] Instance step_frame_ambient js out : Ambient (step_frame js out).
Proof.
  split; [|by intros; split_and!..]. split; [by intros s; split_and!|].
  intros x y z (Hu1&Hm1&Hb1&Hi1) (Hu2&Hm2&Hb2&Hi2). split_and!.
  - intros a Ha. by rewrite Hu2, Hu1.
  - intros t Ht. by rewrite Hm2, Hm1.
  - intros b Hb. by rewrite Hb2, Hb1.
  - exact (@PreOrder_Transitive _ _ amb_pre _ _ _ Hi1 Hi2).
Qed.

Lemma step_frame_refl js out s : step_frame js out s s.
Proof. by split_and!. Qed.

Lemma step_frame_trans js out s1 s2 s3 :
  step_frame js out s1 s2 -> step_frame js out s2 s3 -> step_frame js out s1 s3.
Proof. apply (@PreOrder_Transitive _ _ amb_pre). Qed.

Lemma step_frame_weaken js js' out out' s s' :
  (forall j, j ∈ js -> j ∈ js') -> (forall b, b ∈ out' -> b ∈ out) ->
  step_frame js out s s' -> step_frame js' out' s s'.
Proof.
  intros Hj Ho (Hu&Hm&Hb&Hi). split_and!; [| |auto|done].
  - intros a Ha. apply Hu. auto.
  - intros t Ht. apply Hm. intros Hin. apply Ht.
    apply list_elem_of_fmap in Hin as (j & -> & Hin). apply list_elem_of_fmap. eauto.
Qed.

Lemma cc_frame_step_frame js out s s' : cc_frame out s s' -> step_frame js out s s'.
Proof. intros (Hu&Hm&_&_&Hb&Hi). split_and!; [by rewrite Hu|by rewrite Hm|done..]. Qed.

(** Two jobs whose outputs do not overlap. *)
Definition job_sep (j j' : job) : Prop :=
  (forall a, ~ (in_range j a /\ in_range j' a)) /\ jb_ti j <> jb_ti j'.

Lemma out_ok_frame js out j s s' :
  step_frame js out s s' -> (forall j', j' ∈ js -> job_sep j j') -> out_ok j s -> out_ok j s'.
Proof.
  intros (Hu & Hm & _) Hsep.
  assert (forall bs, Z.of_nat (length bs) = job_bytes j -> gpu_buf <> 0 ->
            mem_holds (k_user s) (job_addr j) bs -> mem_holds (k_user s') (job_addr j) bs) as Hmem.
  { intros bs Hl Hg. rewrite !mem_holds_alt. intros H i Hi. rewrite Hu; [by apply H|].
    intros j' Hj' Hr. destruct (Hsep j' Hj') as [Hs _]. eapply Hs. split; [|exact Hr].
    split; [done|]. lia. }
  unfold out_ok. destruct cipher.
  - intros (c & Hst & Hh). exists c. split.
    + eapply stored_meta; [|exact Hst]. apply Hm. intros Hin. apply list_elem_of_fmap in Hin as (j' & Heq & Hj').
      by apply (Hsep j' Hj').
    + destruct Hst as (m & _ & _ & _ & Hl & _). intros Hg. apply Hmem; auto.
  - intros Hh Hg. destruct (decide (0 <= job_bytes j)) as [Hb|Hb].
    + apply Hmem; auto. by apply length_vid_read.
    + unfold vid_read in *. rewrite seqZ_nil by lia. done.
Qed.

(** The frame of consuming a transfer: also the pool and the buffers stay. *)
Definition consume_frame (j : job) (s s' : kst) : Prop :=
  step_frame [j] [] s s' /\ k_bufs s' = k_bufs s /\ k_free s' = k_free s /\
  k_num s' = k_num s /\ k_next s' = k_next s.

Lemma copy_to_user_frame j bs (Q : bool -> kst -> Prop) s :
  Z.of_nat (length bs) = job_bytes j -> gpu_buf <> 0 ->
  (forall f s', consume_frame j s s' -> k_meta s' = k_meta s ->
     (f = false -> mem_holds (k_user s') (job_addr j) bs) -> (HealthyEnv E -> f = false) -> Q f s') ->
  wp (copy_to_user (job_addr j) bs) Q s.
Proof.
  intros Hl Hg HQ. unfold wp, copy_to_user, kbind, tick, kmod, kret; cbn.
  assert (forall m t, consume_frame j s (set_user (mem_write (job_addr j) (take m bs) (k_user s)) (set_tick t s))) as Hfr.
  { intros m t. unfold consume_frame, step_frame. split_and!; try done. intros a Ha. cbn. apply mem_write_lookup_out.
    pose proof (length_take bs m) as Ht.
    destruct (decide (a < job_addr j \/ job_addr j + job_bytes j <= a)) as [|Hin]; [lia|].
    destruct (Ha j); [left|]. split; [done|lia]. }
  destruct (env_copy_ok _) eqn:Hc; cbn; apply HQ; try done.
  - specialize (Hfr (length bs)). by rewrite take_ge in Hfr by lia.
  - intros _. apply mem_write_holds.
  - intros HE. by rewrite healthy_copy in Hc.
Qed.

Lemma consume_frame_meta j m s :
  consume_frame j s (set_meta (<[jb_ti j := m]> (k_meta s)) s).
Proof.
  unfold consume_frame, step_frame. split_and!; try done. intros t Ht. cbn. rewrite lookup_insert_ne; [done|].
  intros <-. apply Ht. by left.
Qed.

Lemma consume_frame_quiet j s s' : csl_only s s' -> iv_step s s' -> consume_frame j s s'.
Proof.
  intros (Hu&Hm&Hb&Hf&Hn&Hx&_&_) Hi. unfold consume_frame, step_frame.
  split_and!; try done; rewrite ?Hu, ?Hm, ?Hb; done.
Qed.

Lemma consume_frame_trans j s1 s2 s3 :
  consume_frame j s1 s2 -> consume_frame j s2 s3 -> consume_frame j s1 s3.
Proof.
  intros (Hs1&?&?&?&?) (Hs2&?&?&?&?). unfold consume_frame. split_and!; try congruence. by eapply step_frame_trans.
Qed.


(** A slice of jobs that can be transferred independently. *)
Record jobs_wf (all : list job) : Prop := {
  jw_nodup : NoDup all;
  jw_size  : forall j, j ∈ all -> 0 <= job_bytes j <= UVM_CONF_COMPUTING_DMA_BUFFER_SIZE;
  jw_sep   : forall j j', j ∈ all -> j' ∈ all -> j <> j' -> job_sep j j';
}.

Lemma jobs_wf_sub all all' : (exists x y, all = x ++ all' ++ y) -> jobs_wf all -> jobs_wf all'.
Proof.
  intros (x & y & ->) [Hn Hs Hp]. apply NoDup_app in Hn as (_ & _ & Hn).
  apply NoDup_app in Hn as (Hn & _ & _). split; [done| |].
  - intros j Hj. apply Hs. set_solver.
  - intros j j' Hj Hj'. apply Hp; set_solver.
Qed.

End Outputs.

(** ** Outputs that a whole slice delivers *)

(** A property of a job's output that only steps on behalf of that job change. *)
Class Framed (pages : list gpu_page) (gpu_buf : Z) (ok : job -> kst -> Prop) : Prop :=
  framed : forall js out j s s', step_frame pages gpu_buf js out s s' ->
    (forall j', j' ∈ js -> job_sep pages gpu_buf j j') -> ok j s -> ok j s'.

#[export] Instance out_ok_framed `{E : Env} `{G : CcGpu} pages cipher gpu_buf :
  Framed pages gpu_buf (out_ok pages cipher gpu_buf).
Proof. intros js out j s s'. apply out_ok_frame. Qed.

Section Delivered.
Context `{E : Env}.
Context (pages : list gpu_page) (gpu_buf : Z) (ok : job -> kst -> Prop).

(** The status of a transfer of [all] that submitted [nt] of them. *)
Definition delivered (all : list job) (st : nv_status) (nt : Z) (s : kst) : Prop :=
  (HealthyEnv E -> st = NV_OK) /\
  (st = NV_OK -> (forall j, j ∈ all -> ok j s) /\ nt = Z.of_nat (length all)).

Lemma delivered_error all st nt s : st <> NV_OK -> ~ HealthyEnv E -> delivered all st nt s.
Proof. intros. by split. Qed.

Lemma delivered_nil s : delivered [] NV_OK 0 s.
Proof. split; [done|]. intros _. split; [|done]. intros j Hj. by apply elem_of_nil in Hj. Qed.

Context `{!Framed pages gpu_buf ok}.

Lemma delivered_frame all st nt js out s s' :
  step_frame pages gpu_buf js out s s' ->
  (forall j j', j ∈ all -> j' ∈ js -> job_sep pages gpu_buf j j') ->
  delivered all st nt s -> delivered all st nt s'.
Proof.
  intros Hf Hsep [Hh Hd]. split; [done|]. intros Hst. destruct (Hd Hst) as [Ho Hn].
  split; [|done]. intros j Hj. eapply framed; [exact Hf|auto|auto].
Qed.

(** Own steps that touch no output. *)
Lemma delivered_own all st nt out s s' :
  step_frame pages gpu_buf [] out s s' -> delivered all st nt s -> delivered all st nt s'.
Proof. intros Hf. eapply delivered_frame; [exact Hf|]. intros j j' _ Hj. by apply elem_of_nil in Hj. Qed.
End Delivered.

(** ** Pools and quiet steps *)

Lemma pool_inv_eqp out out' s : out ≡ₚ out' -> pool_inv out s -> pool_inv out' s.
Proof. intros Hp. apply pool_inv_perm; try done. by rewrite Hp. Qed.

Section Quiet.
Context `{E : Env}.

Lemma quiet_cc_frame o s s' : quiet s s' -> cc_frame o s s'.
Proof. intros [Hc Hk]. apply csl_only_cc_frame; [done|]. unfold iv_step. by rewrite Hk. Qed.

(** Allocations, whose decisions a healthy environment grants. *)
Lemma wp_kmalloc_quiet (Q : bool -> kst -> Prop) s :
  (forall p s', quiet s s' -> k_live s' = k_live s + Z.b2z p -> (HealthyEnv E -> p = true) -> Q p s') ->
  wp kmalloc Q s.
Proof.
  intros HQ. unfold wp, kmalloc, kbind, tick; cbn. destruct (env_alloc_ok _) eqn:Ha; cbn.
  - apply HQ; [by repeat split|cbn; lia|done].
  - apply HQ; [by repeat split|cbn; lia|]. intros HE. by rewrite healthy_alloc in Ha.
Qed.

Lemma wp_kfree_quiet p (Q : unit -> kst -> Prop) s :
  (forall s', quiet s s' -> k_live s' = k_live s - Z.b2z p -> Q tt s') -> wp (kfree p) Q s.
Proof. intros HQ. destruct p; apply HQ; cbn; try lia; by repeat split. Qed.

(** Transfers allocate nothing but DMA buffers. *)
Lemma wp_live {A} (m : K A) d (Q : A -> kst -> Prop) s :
  LiveSpec m d -> wp m (fun a s' => k_live s' = k_live s + d a -> Q a s') s -> wp m Q s.
Proof. intros Hm H. by apply H, Hm. Qed.

End Quiet.

(** *** The first error in thread order *)

Lemma first_err_ok a b : first_err a b = NV_OK <-> a = NV_OK /\ b = NV_OK.
Proof.
  unfold first_err. destruct (is_ok a) eqn:Ha, (is_ok b) eqn:Hb; cbn; bprop; naive_solver.
Qed.

Lemma fold_first_err l : forall a, fold_left first_err l a = NV_OK <->
  a = NV_OK /\ Forall (fun st => st = NV_OK) l.
Proof.
  induction l as [|b l IH]; intros a; cbn; [naive_solver|].
  rewrite IH, first_err_ok, Forall_cons. tauto.
Qed.

Lemma fold_add_cons b l : fold_left Z.add (b :: l) 0 = b + fold_left Z.add l 0.
Proof.
  assert (forall l a, fold_left Z.add l a = a + fold_left Z.add l 0) as H.
  { clear. induction l as [|b l IH]; intros a; [cbn; lia|].
    change (fold_left Z.add l (a + b) = a + fold_left Z.add l (0 + b)).
    rewrite (IH (a + b)), (IH (0 + b)). lia. }
  change (fold_left Z.add l (0 + b) = b + fold_left Z.add l 0). rewrite H. lia.
Qed.

(** What finished workers have delivered together. *)
