(* ===== verification/Slots.v ===== *)
(** Two DMA buffers used alternately: the state every transfer loop has, and the
    rules its steps follow.

    A slot is a buffer with a submitted transfer.  [flying] says where each job of
    a slice is: delivered, in flight in a slot whose buffer holds its encrypted
    copy, or left.  The loops of [Transfer] and [Bench] differ in when they wait
    and what they do with the bytes; both are verified by the rules below. *)
From S2P Require Import Prelude Kernel VaBlock ConfComputing Runs Jobs.

(** A submitted transfer: [pu[c].channel], [s_rs[c]], [s_rb[c]] and [s_ti[c]]. *)
Record slot := mk_slot { sl_chan : Z; sl_job : job }.

Definition sel {A} (c : bool) (p : A * A) : A := if c then snd p else fst p.
Definition upd {A} (c : bool) (x : A) (p : A * A) : A * A := if c then (fst p, x) else (x, snd p).

(** The jobs of the active slots. *)
Definition slot_jobs (x : option slot) : list job := match x with Some sl => [sl_job sl] | None => [] end.
Definition inflight (p : option slot * option slot) : list job := slot_jobs (fst p) ++ slot_jobs (snd p).

Lemma inflight_take c p sl : sel c p = Some sl -> inflight p ≡ₚ sl_job sl :: inflight (upd c None p).
Proof.
  destruct p as [x y], c; cbn; intros ->; unfold inflight; cbn; [|done].
  rewrite app_nil_r. by rewrite Permutation_app_comm.
Qed.

Lemma inflight_put c p sl : sel c p = None -> inflight (upd c (Some sl) p) ≡ₚ sl_job sl :: inflight p.
Proof.
  destruct p as [x y], c; cbn; intros ->; unfold inflight; cbn; [|done].
  rewrite app_nil_r. by rewrite Permutation_app_comm.
Qed.

Lemma sel_upd {A} c c' (x : A) p : sel c' (upd c x p) = if bool_decide (c' = c) then x else sel c' p.
Proof. by destruct p, c, c'. Qed.


Section Slots.
Context `{E : Env} `{G : CcGpu}.
Context (pages : list gpu_page) (gpu_buf : Z) (ok : job -> kst -> Prop).
Context `{!Framed pages gpu_buf ok}.

#[local] Notation job_pa := (job_pa pages).
#[local] Notation job_sep := (job_sep pages gpu_buf).
#[local] Notation step_frame := (step_frame pages gpu_buf).
#[local] Notation consume_frame := (consume_frame pages gpu_buf).
#[local] Notation job_copy d j := (holds_copy d (job_pa j) (job_bytes j)).

(** The buffers [db] hold the copies of the active slots; every job of [all] is
    done, in flight or left, and while the status is good the done ones are
    delivered. *)
Record flight (all : list job) (db : Z * Z) (slots : option slot * option slot) (jobs : list job)
    (st : nv_status) (nt : Z) (s : kst) : Prop := {
  fl_copies : forall c sl, sel c slots = Some sl -> job_copy (buf_get s (sel c db)) (sl_job sl);
  fl_jobs : exists dn, all ≡ₚ dn ++ inflight slots ++ jobs /\ (st = NV_OK -> forall j, j ∈ dn -> ok j s);
  fl_nt : nt + Z.of_nat (length jobs) = Z.of_nat (length all);
  fl_healthy : HealthyEnv E -> st = NV_OK;
}.

Lemma flight_start all db s : flight all db (None, None) all NV_OK 0 s.
Proof.
  split; try done; [by intros [] sl|]. exists []. split; [done|]. intros _ j Hj. by apply elem_of_nil in Hj.
Qed.

(** Steps on behalf of other jobs, which leave the buffers alone. *)
Lemma flight_frame all db slots jobs st nt js out s s' :
  step_frame js out s s' -> (forall c sl, sel c slots = Some sl -> sel c db ∈ out) ->
  (forall j j', j ∈ all -> j' ∈ js -> job_sep j j') ->
  flight all db slots jobs st nt s -> flight all db slots jobs st nt s'.
Proof.
  intros Hf Hb Hsep [Hc (dn & Hp & Hd) Hn Hh]. split; try done.
  - intros c sl Hsl. unfold buf_get in *. destruct Hf as (_ & _ & Hbufs & _).
    rewrite Hbufs by eauto. by apply Hc.
  - exists dn. split; [done|]. intros Hst j Hj. eapply framed; [exact Hf| |by apply Hd].
    intros j' Hj'. apply Hsep; [|done]. rewrite Hp. apply elem_of_app. by left.
Qed.

(** All slots are empty and a good status means no job is left. *)
Lemma flight_delivered all db jobs st nt s :
  flight all db (None, None) jobs st nt s -> (st = NV_OK -> jobs = []) -> delivered ok all st nt s.
Proof.
  intros [_ (dn & Hp & Hd) Hn Hh] Hj. split; [done|]. intros Hst. rewrite (Hj Hst) in *.
  cbn in Hn, Hp. rewrite app_nil_r in Hp. split; [|lia]. intros j Hin. apply (Hd Hst). by rewrite <- Hp.
Qed.

(** Consuming job [j] with result [ds]: its output alone changes, and the
    contents of the buffers [scr]. *)
Record taken (j : job) (scr : list Z) (s : kst) (ds : nv_status) (s' : kst) : Prop := {
  tk_frame : step_frame [j] [] s s';
  tk_bufs : forall b, b ∉ scr -> k_bufs s' !! b = k_bufs s !! b;
  tk_pool : forall L, (forall b, b ∈ scr -> b ∈ L) -> pool_inv L s -> pool_inv L s';
  tk_ok : ds = NV_OK -> ok j s';
  tk_healthy : HealthyEnv E -> ds = NV_OK;
}.

Lemma consume_frame_taken j ds s s' :
  consume_frame j s s' -> (ds = NV_OK -> ok j s') -> (HealthyEnv E -> ds = NV_OK) -> taken j [] s ds s'.
Proof.
  intros (Hf & Hb & Hfr & Hnum & Hnx) Ho Hh. split; try done.
  - intros b _. by rewrite Hb.
  - intros L _. apply pool_inv_perm; try done. by rewrite Hfr.
Qed.

(** *** A loop in progress *)

Context (all : list job) (Hwf : jobs_wf pages gpu_buf all) (bufs out : list Z).

(** The loop holds [bufs], the buffers [out] are in other hands, and from [s0]
    on only the outputs of [all] have changed. *)
Record flying (s0 : kst) (db : Z * Z) (slots : option slot * option slot) (jobs : list job)
    (st : nv_status) (nt : Z) (s : kst) : Prop := {
  fg_flight : flight all db slots jobs st nt s;
  fg_held : forall c sl, sel c slots = Some sl -> sel c db ∈ bufs;
  fg_pool : pool_inv (bufs ++ out) s;
  fg_limit : limit_ok s;
  fg_frame : step_frame all out s0 s;
}.

Lemma flying_here db slots jobs st nt s :
  flight all db slots jobs st nt s -> (forall c sl, sel c slots = Some sl -> sel c db ∈ bufs) ->
  pool_inv (bufs ++ out) s -> limit_ok s ->
  flying s db slots jobs st nt s.
Proof. by intros; split. Qed.

Lemma flying_status s0 db slots jobs st nt s st' :
  flying s0 db slots jobs st nt s -> (st' = NV_OK -> st = NV_OK) -> (HealthyEnv E -> st' = NV_OK) ->
  flying s0 db slots jobs st' nt s.
Proof.
  intros [[Hc (dn & Hp & Hd) Hn Hh] Hheld Hpool Hl Hf] Hst Hst'. split; try done. split; try done.
  exists dn. split; [done|]. intros Hok. apply Hd; auto.
Qed.

(** Steps of the CSL and the environment. *)
Lemma flying_csl s0 db slots jobs st nt s s' :
  csl_only s s' -> iv_step s s' -> flying s0 db slots jobs st nt s -> flying s0 db slots jobs st nt s'.
Proof.
  intros Hc Hv [[Hcp (dn & Hp & Hd) Hn Hh] Hheld Hpool Hl Hf].
  assert (step_frame [] out s s') as Hfr by (by apply cc_frame_step_frame, csl_only_cc_frame). split.
  - split; try done.
    + intros c sl Hsl. unfold buf_get. rewrite (proj1 (proj2 (proj2 Hc))). by apply Hcp.
    + exists dn. split; [done|]. intros Hst j Hj. eapply framed; [exact Hfr| |by apply Hd].
      intros j' Hj'. by apply elem_of_nil in Hj'.
  - done.
  - by eapply csl_only_pool_inv.
  - by eapply limit_ok_step.
  - eapply step_frame_trans; [exact Hf|]. apply (step_frame_weaken pages gpu_buf [] all out out); [|done|exact Hfr].
    intros j Hj. by apply elem_of_nil in Hj.
Qed.

Lemma flying_tick s0 db slots jobs st nt s t :
  flying s0 db slots jobs st nt s -> flying s0 db slots jobs st nt (set_tick t s).
Proof. apply flying_csl; [by repeat split|apply amb_tick]. Qed.

(** Waiting for a push. *)
Lemma wp_flying_wait s0 db slots jobs st nt s (Q : nv_status -> kst -> Prop) :
  flying s0 db slots jobs st nt s ->
  (forall ws s', flying s0 db slots jobs st nt s' -> (HealthyEnv E -> ws = NV_OK) -> Q ws s') ->
  wp uvm_push_wait Q s.
Proof.
  intros Hf HQ. unfold uvm_push_wait. apply wp_and_healthy_status. intros ws t Hh.
  apply HQ; [by apply flying_tick|done].
Qed.

(** Giving up the transfer in a slot, the status being bad. *)
Lemma flying_drop c sl s0 db slots jobs st nt s st' :
  flying s0 db slots jobs st nt s -> sel c slots = Some sl -> st' <> NV_OK -> ~ HealthyEnv E ->
  flying s0 db (upd c None slots) jobs st' nt s.
Proof.
  intros [[Hc (dn & Hp & _) Hn Hh] Hheld Hpool Hl Hf] Hsl Hst Hne. split; try done; [split; try done|].
  - intros c' sl'. rewrite sel_upd. destruct (bool_decide _); [done|apply Hc].
  - exists (sl_job sl :: dn). split; [|done].
    rewrite Hp, (inflight_take c _ sl Hsl). cbn. by rewrite <- Permutation_middle.
  - intros c' sl'. rewrite sel_upd. destruct (bool_decide _); [done|apply Hheld].
Qed.

(** What an active slot holds. *)
Lemma flying_slot c sl s0 db slots jobs st nt s :
  flying s0 db slots jobs st nt s -> sel c slots = Some sl ->
  job_copy (buf_get s (sel c db)) (sl_job sl) /\ 0 <= job_bytes (sl_job sl).
Proof.
  intros [[Hc (dn & Hp & _) _ _] _ _ _ _] Hsl. split; [by apply Hc|]. apply Hwf.
  rewrite Hp, (inflight_take c _ sl Hsl). set_solver.
Qed.

(** Starting a push: only a good status gives the IV budget. *)
Lemma wp_flying_begin s0 db slots jobs st nt s (Q : nv_status * Z -> kst -> Prop) :
  env_cc = true -> flying s0 db slots jobs st nt s ->
  (forall ps chan s', flying s0 db slots jobs st nt s' -> (ps = NV_OK -> push_budget s' chan) ->
     (HealthyEnv E -> ps = NV_OK) -> Q (ps, chan) s') ->
  wp uvm_push_begin Q s.
Proof.
  intros Hcc Hf HQ. apply wp_push_begin; [done|apply Hf|]. intros ps chan s' Hc Hv Hb Hh.
  apply HQ; [by eapply flying_csl|done..].
Qed.

(** Submitting the next job on the empty slot [c]. *)
Lemma wp_flying_submit {A} c chan j rest s0 db slots st nt s (k : K A) (Q : A -> kst -> Prop) :
  flying s0 db slots (j :: rest) st nt s -> sel c slots = None -> sel c db ∈ bufs ->
  (forall sl, sel (negb c) slots = Some sl -> sel (negb c) db <> sel c db) -> push_budget s chan ->
  (forall s', flying s0 db (upd c (Some (mk_slot chan j)) slots) rest st (nt + 1) s' -> wp k Q s') ->
  wp (gpu_encrypt_to_buffer chan (sel c db) (job_pa j) (job_bytes j) ;; uvm_push_end chan ;; k) Q s.
Proof.
  intros [[Hc (dn & Hp & Hd) Hn Hh] Hheld Hpool Hl Hf] Hsl Hin Hne Hb HQ.
  assert (j ∈ all) as Hj by (rewrite Hp; set_solver).
  apply elem_of_Permutation in Hin as [rb Hrb]. set (b := sel c db) in *.
  assert (pool_inv (b :: rb ++ out) s) as Hpb by (apply (pool_inv_eqp (bufs ++ out)); [by rewrite Hrb|done]).
  apply (wp_gpu_encrypt (rb ++ out)); [by apply Hwf|done|apply Hl|done|].
  intros s' Hhold Hpb' Hf'. apply HQ.
  assert (step_frame [] (rb ++ out) s s') as Hfr by (by apply cc_frame_step_frame).
  split; [split|..].
  - intros c' sl'. rewrite sel_upd. destruct (bool_decide (c' = c)) eqn:Hcc'; bprop.
    + subst c'. by intros [= <-].
    + intros Hsl'. assert (c' = negb c) as -> by (destruct c, c'; done).
      unfold buf_get. destruct Hfr as (_ & _ & Hbs & _). rewrite Hbs; [by apply Hc|].
      pose proof (Hheld _ _ Hsl') as Hx. rewrite Hrb, elem_of_cons in Hx.
      destruct Hx as [Hx|Hx]; [by destruct (Hne sl' Hsl')|]. apply elem_of_app. by left.
  - exists dn. split; [rewrite (inflight_put _ _ _ Hsl), Hp; cbn; by rewrite <- Permutation_middle|].
    intros Hst j' Hj'. eapply framed; [exact Hfr| |by apply Hd]. intros j2 Hj2. by apply elem_of_nil in Hj2.
  - cbn [length] in Hn. lia.
  - done.
  - intros c' sl'. rewrite sel_upd. destruct (bool_decide (c' = c)) eqn:Hcc'; bprop; [|apply Hheld].
    intros _. subst c'. rewrite Hrb. by left.
  - apply (pool_inv_eqp (b :: rb ++ out)); [by rewrite Hrb|done].
  - eapply limit_ok_step; [apply Hfr|done].
  - eapply step_frame_trans; [exact Hf|]. apply (step_frame_weaken pages gpu_buf [] all (rb ++ out) out); [| |done].
    + intros j' Hj'. by apply elem_of_nil in Hj'.
    + intros b' Hb'. apply elem_of_app. by right.
Qed.

Lemma pool_inv_disjoint b1 b2 s : pool_inv (bufs ++ out) s -> b1 ∈ bufs -> b2 ∈ out -> b1 <> b2.
Proof.
  intros ([Hnd _ _] & _) H1 H2 ->. apply NoDup_app in Hnd as (_ & _ & Hnd).
  apply NoDup_app in Hnd as (_ & Hd & _). by apply (Hd b2).
Qed.

(** A step that consumed the transfer in slot [c], and the status [st'] after it:
    the slot may be cleared or not. *)
Lemma flying_taken c sl scr ds st' s0 db slots jobs st nt s s' :
  flying s0 db slots jobs st nt s -> sel c slots = Some sl -> taken (sl_job sl) scr s ds s' ->
  (forall b, b ∈ scr -> b ∈ bufs) -> (forall c' sl', sel c' slots = Some sl' -> sel c' db ∉ scr) ->
  (st' = NV_OK -> st = NV_OK /\ ds = NV_OK) -> (HealthyEnv E -> st' = NV_OK) ->
  flying s0 db slots jobs st' nt s' /\ flying s0 db (upd c None slots) jobs st' nt s'.
Proof.
  intros [[Hc (dn & Hp & Hd) Hn Hh] Hheld Hpool Hl Hf] Hsl [Hfr Hb Hpl Hok Hhd] Hscr Hact Hst' Hh'.
  assert (all ≡ₚ (sl_job sl :: dn) ++ inflight (upd c None slots) ++ jobs) as Hp'.
  { rewrite Hp, (inflight_take c _ sl Hsl). cbn. by rewrite <- Permutation_middle. }
  assert (sl_job sl ∈ all) as Hin by (rewrite Hp'; by left).
  assert (forall j, j ∈ dn -> st' = NV_OK -> ok j s') as Hdn.
  { intros j Hj Hst. eapply framed; [exact Hfr| |by apply Hd; [apply Hst'|]]. intros j' Hj'.
    apply list_elem_of_singleton in Hj' as ->. apply Hwf; [|done|].
    - rewrite Hp'. right. apply elem_of_app. by left.
    - intros ->. pose proof (jw_nodup _ _ _ Hwf) as Hnd. rewrite Hp' in Hnd. cbn in Hnd.
      apply NoDup_cons in Hnd as [Hn1 _]. apply Hn1, elem_of_app. by left. }
  assert (forall c' sl', sel c' slots = Some sl' ->
    job_copy (buf_get s' (sel c' db)) (sl_job sl')) as Hc'.
  { intros c' sl' Hs. unfold buf_get. rewrite Hb by eauto. by apply Hc. }
  assert (pool_inv (bufs ++ out) s') as Hpool'.
  { apply Hpl; [|done]. intros b Hin'. apply elem_of_app. auto. }
  assert (limit_ok s') as Hl' by (eapply limit_ok_step; [apply Hfr|done]).
  assert (step_frame all out s0 s') as Hf'.
  { eapply step_frame_trans; [exact Hf|]. destruct Hfr as (Hu & Hm & _ & Hi).
    split_and!; [| | |done].
    - intros a Ha. apply Hu. intros j Hj. apply list_elem_of_singleton in Hj as ->. by apply Ha.
    - intros t Ht. apply Hm. intros Hx. apply Ht. apply list_elem_of_fmap in Hx as (j & -> & Hj).
      apply list_elem_of_singleton in Hj as ->. apply list_elem_of_fmap. eauto.
    - intros b Hbo. apply Hb. intros Hs. by apply (pool_inv_disjoint b b s Hpool (Hscr b Hs)). }
  split; split; try done.
  - split; try done. exists dn. split; [done|auto].
  - split; try done.
    + intros c' sl'. rewrite sel_upd. destruct (bool_decide _); [done|apply Hc'].
    + exists (sl_job sl :: dn). split; [done|]. intros Hst j Hj.
      apply elem_of_cons in Hj as [->|Hj]; [by apply Hok, Hst'|auto].
  - intros c' sl'. rewrite sel_upd. destruct (bool_decide _); [done|apply Hheld].
Qed.
End Slots.

Arguments flying_slot {E G pages gpu_buf ok _ all} Hwf {bufs out c sl s0 db slots jobs st nt s} _ _.
Arguments flying_drop {E G pages gpu_buf ok all bufs out c sl s0 db slots jobs st nt s st'} _ _ _ _.
Arguments flying_taken {E G pages gpu_buf ok _ all} Hwf {bufs out c sl scr ds} st'
  {s0 db slots jobs st nt s s'} _ _ _ _ _ _ _.
