(* ===== verification/Threads.v ===== *)
(** Kernel threads over slices of the run list: the partition of the runs, the
    start of the threads, their interleaving along a schedule, and the wait for
    their completion ([lm_mt_run_workers], and [lm_bench_run_workers], its fork).

    A thread function is a step machine ([thread_fn]).  [ThreadSpec] is what the
    pool needs of it; from that the pool derives that whatever the schedule, all
    slices are transferred, and that a fair schedule leaves the main thread
    nothing to wait for. *)
From S2P Require Import Prelude Kernel VaBlock ConfComputing Runs Jobs.

(** A thread function: its locals, its start on a slice of jobs, the worker it
    never ran on because [kthread_run] failed, a step, a bound on the steps left,
    and the results left in the worker. *)
Record thread_fn := mk_thread_fn {
  tf_state   : Type;
  tf_start   : list job -> tf_state;
  tf_dead    : list job -> tf_state;
  tf_step    : tf_state -> K tf_state;
  tf_measure : tf_state -> nat;
  tf_status  : tf_state -> nv_status;
  tf_count   : tf_state -> Z;
}.

Definition LM_MT_MAX_THREADS : Z := 16.
Definition LM_MT_DEFAULT_THREADS : Z := 4.

(** The number of threads used for [nr] runs. *)
Definition clamp_threads (num_threads nr : Z) : Z :=
  let n := if (num_threads =? 0) || (LM_MT_MAX_THREADS <? num_threads)
           then LM_MT_DEFAULT_THREADS else num_threads in
  if nr <? n then Z.max 1 nr else n.

(** The slices: [remainder] threads take one run more. *)
Fixpoint make_slices (k : nat) (i per_thread remainder cursor : Z) (runs : list run)
    : list (list job) :=
  match k with
  | O => []
  | S k' =>
      let count := per_thread + (if i <? remainder then 1 else 0) in
      make_jobs cursor (take (Z.to_nat count) runs)
        :: make_slices k' (i + 1) per_thread remainder (cursor + count) (drop (Z.to_nat count) runs)
  end.

Section Threads.
Context `{E : Env}.
Context (T : thread_fn).
#[local] Notation W := (tf_state T).

Fixpoint thread_run (fuel : nat) (w : W) : K W :=
  match fuel with
  | O => kret w
  | S fuel' => w ← tf_step T w; thread_run fuel' w
  end.

(** One thread of the pool takes a step. *)
Definition sys_step (i : nat) (ws : list W) : K (list W) :=
  match ws !! i with
  | None => kret ws
  | Some w => w' ← tf_step T w; kret (<[i := w']> ws)
  end.

(** The threads run along the schedule. *)
Fixpoint sys_run (sched : list nat) (ws : list W) : K (list W) :=
  match sched with
  | [] => kret ws
  | i :: sched' => ws ← sys_step i ws; sys_run sched' ws
  end.

(** [wait_for_completion] on each in turn: what a schedule left undone is done
    while the main thread waits. *)
Fixpoint sys_wait (ws : list W) : K (list W) :=
  match ws with
  | [] => kret []
  | w :: ws' => w ← thread_run (tf_measure T w) w; ws' ← sys_wait ws'; kret (w :: ws')
  end.

(** [kthread_run] may fail: the worker is then complete with an error. *)
Fixpoint spawn (slices : list (list job)) : K (list W) :=
  match slices with
  | [] => kret []
  | sl :: rest =>
      n ← tick;
      let w := if env_alloc_ok n then tf_start T sl else tf_dead T sl in
      ws ← spawn rest; kret (w :: ws)
  end.

(** The whole call: its status, the first error in thread order, and the threads
    used with what they left, unless none was started. *)
Definition run_threads (sched : list nat) (runs : list run) (num_threads : Z)
    : K (nv_status * option (Z * list W)) :=
  let nr := Z.of_nat (length runs) in
  mm ← tick;                            (* get_task_mm *)
  if negb (env_alloc_ok mm) then kret (NV_ERR_INVALID_OPERATION, None) else
  let num_threads := clamp_threads num_threads nr in
  workers ← kmalloc;
  if negb workers then kret (NV_ERR_NO_MEMORY, None) else
  let per_thread := nr / num_threads in
  let remainder := nr mod num_threads in
  ws ← spawn (make_slices (Z.to_nat num_threads) 0 per_thread remainder 0 runs);
  ws ← sys_run sched ws;
  ws ← sys_wait ws;
  kfree workers ;;
  kret (fold_left first_err (tf_status T <$> ws) NV_OK, Some (num_threads, ws)).

(** The submissions of all threads. *)
Definition sum_counts (ws : list W) : Z := fold_left Z.add (tf_count T <$> ws) 0.
End Threads.

(** ** Progress: schedules and measures *)

(** Each step of a thread brings it closer to its end. *)
Class Progress `{E : Env} (T : thread_fn) : Prop :=
  step_less : forall w s, wp (tf_step T w) (fun w' _ => (tf_measure T w' <= tf_measure T w - 1)%nat) s.

(** How often a schedule runs thread [i]. *)
Definition turns (i : nat) (sched : list nat) : nat := length (filter (fun k => k = i) sched).

Lemma turns_cons i k sched :
  turns i (k :: sched) = ((if decide (k = i) then 1 else 0) + turns i sched)%nat.
Proof. unfold turns. rewrite filter_cons. by destruct (decide _). Qed.

Section Progress.
Context `{E : Env} (T : thread_fn) `{!Progress T}.
#[local] Notation W := (tf_state T).

(** A schedule that runs every thread as often as it needs. *)
Definition fair_for (sched : list nat) (ws : list W) : Prop :=
  forall i w, ws !! i = Some w -> (tf_measure T w <= turns i sched)%nat.

Lemma sys_run_ends sched : forall ws s, fair_for sched ws ->
  wp (sys_run T sched ws) (fun ws' _ => Forall (fun w => tf_measure T w = 0%nat) ws') s.
Proof.
  induction sched as [|k sched IH]; intros ws s Hf; cbn [sys_run].
  { wdet. apply Forall_lookup. intros i w Hw. specialize (Hf i w Hw).
    by apply Nat.le_0_r. }
  apply wp_bind. apply wp_mono with (Q := fun ws' _ => fair_for sched ws'); [|by intros; apply IH].
  unfold sys_step. destruct (ws !! k) as [w|] eqn:Hk.
  - apply wp_bind. eapply wp_mono; [apply step_less|]. intros w' s' Hl. wdet.
    intros i v Hv. specialize (Hf i). rewrite turns_cons in Hf. destruct (decide (k = i)) as [->|Hne].
    + rewrite list_lookup_insert_eq in Hv by (by eapply lookup_lt_Some). injection Hv as <-.
      cbv beta in Hl. specialize (Hf w Hk). lia.
    + rewrite list_lookup_insert_ne in Hv by done. by apply Hf.
  - wdet. intros i v Hv. specialize (Hf i v Hv). rewrite turns_cons in Hf.
    destruct (decide (k = i)) as [->|]; [congruence|done].
Qed.

Lemma length_sys_run sched : forall ws s, length (fst (sys_run T sched ws s)) = length ws.
Proof.
  induction sched as [|k sched IH]; intros ws s; cbn [sys_run]; [done|].
  unfold kbind at 1. assert (length (fst (sys_step T k ws s)) = length ws) as Hl.
  { unfold sys_step. destruct (ws !! k); [|done]. unfold kbind. destruct (tf_step T _ s). cbn.
    apply length_insert. }
  destruct (sys_step T k ws s) as [ws1 s1]. by rewrite IH, <- Hl.
Qed.

(** Threads that are done stay so. *)
Lemma sys_wait_done ws s : Forall (fun w => tf_measure T w = 0%nat) ws -> sys_wait T ws s = (ws, s).
Proof.
  revert s. induction ws as [|w ws IH]; intros s Hd; cbn [sys_wait]; [done|].
  apply Forall_cons in Hd as [Hw Hd]. rewrite Hw. unfold kbind, kret; cbn. by rewrite IH.
Qed.

Lemma spawn_bound (b : list job -> nat) sls :
  (forall sl, (tf_measure T (tf_start T sl) <= b sl)%nat) ->
  (forall sl, (tf_measure T (tf_dead T sl) <= b sl)%nat) -> forall s,
  wp (spawn T sls) (fun ws _ => Forall2 (fun w sl => (tf_measure T w <= b sl)%nat) ws sls) s.
Proof.
  intros Hs Hd. induction sls as [|sl sls IH]; intros s; cbn [spawn]; [by wdet|].
  wdet. apply wp_tick. cbv zeta. wdet. eapply wp_mono; [apply IH|]. intros ws s' H. wdet.
  constructor; [|done]. by destruct (env_alloc_ok _).
Qed.

(** A schedule that is fair for the slices ends all threads, and then the main
    thread has nothing to wait for. *)
Lemma fair_threads_finish (b : list job -> nat) sched sls s :
  (forall sl, (tf_measure T (tf_start T sl) <= b sl)%nat) ->
  (forall sl, (tf_measure T (tf_dead T sl) <= b sl)%nat) ->
  (forall i sl, sls !! i = Some sl -> (b sl <= turns i sched)%nat) ->
  let '(ws, s1) := spawn T sls s in
  let '(ws', s2) := sys_run T sched ws s1 in
  length ws' = length sls /\ Forall (fun w => tf_measure T w = 0%nat) ws' /\
  sys_wait T ws' s2 = (ws', s2).
Proof.
  intros Hs Hd Hf. pose proof (spawn_bound b sls Hs Hd s) as Hb. unfold wp in Hb.
  destruct (spawn T sls s) as [ws s1]; cbn in Hb.
  assert (fair_for sched ws) as Hfair.
  { intros i w Hw. destruct (Forall2_lookup_l _ _ _ _ _ Hb Hw) as (sl & Hsl & Hm).
    specialize (Hf i sl Hsl). lia. }
  pose proof (sys_run_ends sched ws s1 Hfair) as He. pose proof (length_sys_run sched ws s1) as Hl.
  unfold wp in He. destruct (sys_run T sched ws s1) as [ws' s2]; cbn in He, Hl.
  split_and!; [|done|by apply sys_wait_done]. rewrite Hl. by eapply Forall2_length.
Qed.
End Progress.

(** ** The contract of a thread function *)

(** What a thread owns: its slice of jobs, the DMA buffers it holds, the
    allocations it has, and its invariant. *)
Class ThreadInv (T : thread_fn) := {
  th_slice : tf_state T -> list job;
  th_held  : tf_state T -> list Z;
  th_owns  : tf_state T -> Z;
  th_inv   : tf_state T -> kst -> Prop;
}.

Section Contract.
Context `{E : Env} `{G : CcGpu}.
Context (pages : list gpu_page) (gpu_buf : Z) (ok : job -> kst -> Prop).

(** A step of thread [w], with the buffers [out] in other hands. *)
Definition th_post {T} `{!ThreadInv T} (out : list Z) (w : tf_state T) (s : kst) (w' : tf_state T)
    (s' : kst) : Prop :=
  th_inv w' s' /\ pool_inv (th_held w' ++ out) s' /\ limit_ok s' /\
  step_frame pages gpu_buf (th_slice w) out s s' /\ th_slice w' = th_slice w /\
  k_live s' = k_live s + (th_owns w' - th_owns w).

Class ThreadSpec (T : thread_fn) `{!ThreadInv T} : Prop := {
  tp_progress :: Progress T;
  tp_framed :: Framed pages gpu_buf ok;
  tp_step : forall (w : tf_state T) out s,
    jobs_wf pages gpu_buf (th_slice w) -> env_cc = true ->
    th_inv w s -> pool_inv (th_held w ++ out) s -> limit_ok s ->
    wp (tf_step T w) (th_post out w s) s;
  (** the steps of other threads keep the invariant *)
  tp_frame : forall (w : tf_state T) js out s s',
    step_frame pages gpu_buf js out s s' -> (forall b, b ∈ th_held w -> b ∈ out) ->
    (forall j j', j ∈ th_slice w -> j' ∈ js -> job_sep pages gpu_buf j j') ->
    th_inv w s -> th_inv w s';
  tp_start : forall sl s, let w := tf_start T sl in
    th_slice w = sl /\ th_held w = [] /\ th_owns w = 0 /\ th_inv w s;
  tp_dead : forall sl s, let w := tf_dead T sl in
    th_slice w = sl /\ th_held w = [] /\ th_owns w = 0 /\ (~ HealthyEnv E -> th_inv w s);
  tp_exit : forall (w : tf_state T) s, tf_measure T w = 0%nat -> th_inv w s ->
    th_held w = [] /\ th_owns w = 0 /\ delivered ok (th_slice w) (tf_status T w) (tf_count T w) s;
  tp_lock : forall w, LockSpec [] (tf_step T w) [];
}.
End Contract.

(** ** The partition of the runs into slices *)

Lemma make_slices_join k : forall i per rem cursor runs,
  0 <= per ->
  Z.of_nat (length runs) = Z.of_nat k * per + Z.max 0 (Z.min (rem - i) (Z.of_nat k)) ->
  mjoin (make_slices k i per rem cursor runs) = make_jobs cursor runs.
Proof.
  induction k as [|k IH]; intros i per rem cursor runs Hper Hl; cbn [make_slices mjoin].
  - destruct runs; cbn in *; [done|lia].
  - cbv zeta. set (count := per + _).
    assert (0 <= count <= Z.of_nat (length runs) /\
      Z.of_nat (length runs) - count = Z.of_nat k * per + Z.max 0 (Z.min (rem - (i + 1)) (Z.of_nat k)))
      as [Hc Hr] by (unfold count; destruct (i <? rem) eqn:Hi; bprop; lia).
    cbn [list_join]. rewrite <- (take_drop (Z.to_nat count) runs) at 3.
    rewrite make_jobs_app, length_take, Nat.min_l, Z2Nat.id by lia. f_equal.
    apply IH; [done|]. rewrite length_drop. lia.
Qed.

Lemma clamp_threads_bounds n nr : 0 <= n -> 0 <= nr ->
  1 <= clamp_threads n nr <= LM_MT_MAX_THREADS /\ (0 < nr -> clamp_threads n nr <= nr).
Proof.
  intros. unfold clamp_threads, LM_MT_MAX_THREADS, LM_MT_DEFAULT_THREADS.
  destruct (n =? 0) eqn:?, (16 <? n) eqn:?; cbn; bprop;
    (destruct (nr <? _) eqn:?; bprop; lia).
Qed.

Lemma slices_partition n runs :
  let nr := Z.of_nat (length runs) in let k := clamp_threads n nr in 0 <= n ->
  mjoin (make_slices (Z.to_nat k) 0 (nr / k) (nr mod k) 0 runs) = make_jobs 0 runs.
Proof.
  cbv zeta. intros Hn. set (nr := Z.of_nat _). destruct (clamp_threads_bounds n nr) as [Hk _]; [lia..|].
  set (k := clamp_threads n nr) in *. pose proof (Z.mod_pos_bound nr k). pose proof (Z_div_mod_eq_full nr k).
  apply make_slices_join; [apply Z.div_pos; lia|]. rewrite Z2Nat.id by lia. fold nr. lia.
Qed.


(** ** The pool of threads *)

Section Pool.
Context `{E : Env} `{G : CcGpu}.
Context (pages : list gpu_page) (gpu_buf : Z) (ok : job -> kst -> Prop).
Context (T : thread_fn) `{!ThreadInv T} `{!ThreadSpec pages gpu_buf ok T}.
#[local] Notation W := (tf_state T).
#[local] Notation step_frame := (step_frame pages gpu_buf).
#[local] Notation jobs_wf := (jobs_wf pages gpu_buf).
#[local] Notation delivered := (delivered ok).
#[local] Notation th_post := (th_post pages gpu_buf).

Lemma thread_run_spec fuel out : env_cc = true -> forall (w : W) s,
  (tf_measure T w <= fuel)%nat -> jobs_wf (th_slice w) ->
  th_inv w s -> pool_inv (th_held w ++ out) s -> limit_ok s ->
  wp (thread_run T fuel w) (fun w' s' => th_post out w s w' s' /\ tf_measure T w' = 0%nat) s.
Proof.
  intros Hcc. induction fuel as [|fuel IH]; intros w s Hm Hwf Hi Hpool Hl; cbn [thread_run].
  { wdet. split; [|by apply Nat.le_0_r].
    unfold Threads.th_post. split_and!; try done; try apply step_frame_refl; lia. }
  apply wp_bind. eapply wp_mono.
  { apply wp_and; [by apply (tp_step pages gpu_buf ok w out)|apply (step_less w)]. }
  intros w1 s1 [(Hi1 & Hp1 & Hl1 & Hf1 & Hs1 & Hk1) Hm1]. cbv beta in Hm1.
  eapply wp_mono; [apply IH; try done; [lia|by rewrite Hs1]|].
  intros w2 s2 ((Hi2 & Hp2 & Hl2 & Hf2 & Hs2 & Hk2) & Hat). split; [|done].
  unfold Threads.th_post. rewrite Hs1 in *. split_and!; try done; [by eapply step_frame_trans|lia].
Qed.

Definition held (ws : list W) : list Z := mjoin (th_held <$> ws).
Definition slices (ws : list W) : list job := mjoin (th_slice <$> ws).
(** The allocations the threads own. *)
Definition owned (ws : list W) : Z := foldr (fun w n => th_owns w + n) 0 ws.

Lemma owned_app l1 l2 : owned (l1 ++ l2) = owned l1 + owned l2.
Proof. unfold owned. induction l1 as [|w l1 IH]; cbn; [done|]. rewrite IH. lia. Qed.

Lemma held_at l1 w l2 out :
  held (l1 ++ w :: l2) ++ out ≡ₚ th_held w ++ held (l1 ++ l2) ++ out.
Proof.
  unfold held. rewrite !fmap_app, !fmap_cons, !join_app. cbn.
  rewrite !app_assoc. by rewrite (Permutation_app_comm (th_held w) (mjoin (th_held <$> l1))).
Qed.

Lemma slices_at l1 w l2 : slices (l1 ++ w :: l2) = slices l1 ++ th_slice w ++ slices l2.
Proof. unfold slices. by rewrite !fmap_app, !fmap_cons, !join_app. Qed.

Lemma elem_of_slices j v l : j ∈ th_slice v -> v ∈ l -> j ∈ slices l.
Proof.
  intros Hj Hv. apply list_elem_of_join. exists (th_slice v). split; [done|].
  apply list_elem_of_fmap. eauto.
Qed.

(** The threads hold disjoint buffers and each is in its invariant. *)
Definition sys_inv (out : list Z) (ws : list W) (s : kst) : Prop :=
  Forall (fun w => th_inv w s) ws /\ pool_inv (held ws ++ out) s /\ limit_ok s.

(** Jobs of different threads do not overlap. *)
Lemma slices_sep l1 w l2 v j j' :
  jobs_wf (slices (l1 ++ w :: l2)) -> v ∈ l1 ++ l2 -> j ∈ th_slice v -> j' ∈ th_slice w ->
  job_sep pages gpu_buf j j'.
Proof.
  rewrite slices_at. intros Hwf Hv Hj Hj'.
  assert (j ∈ slices l1 \/ j ∈ slices l2) as Hin.
  { apply elem_of_app in Hv as [Hv|Hv]; eauto using elem_of_slices. }
  apply Hwf; [rewrite !elem_of_app; tauto..|]. intros ->. destruct Hwf as [Hnd _ _].
  rewrite app_assoc, (Permutation_app_comm (slices l1)), <- app_assoc in Hnd.
  apply NoDup_app in Hnd as (_ & Hnd & _). apply (Hnd j' Hj'). rewrite elem_of_app. tauto.
Qed.

(** What every step of the pool keeps. *)
Definition sys_keeps (out : list Z) (ws : list W) (s : kst) (ws' : list W) (s' : kst) : Prop :=
  sys_inv out ws' s' /\ step_frame (slices ws) out s s' /\ (th_slice <$> ws') = (th_slice <$> ws) /\
  k_live s' = k_live s + (owned ws' - owned ws).

Lemma sys_keeps_refl out ws s : sys_inv out ws s -> sys_keeps out ws s ws s.
Proof. intros. unfold sys_keeps. split_and!; try done; try apply step_frame_refl; lia. Qed.

Lemma sys_keeps_trans out w1 s1 w2 s2 w3 s3 :
  sys_keeps out w1 s1 w2 s2 -> sys_keeps out w2 s2 w3 s3 -> sys_keeps out w1 s1 w3 s3.
Proof.
  intros (_ & Hf1 & He1 & Hk1) (Hi & Hf2 & He2 & Hk2). unfold sys_keeps, slices in *. rewrite He1 in Hf2.
  split_and!; [done| |congruence|lia]. by eapply step_frame_trans.
Qed.

Lemma sys_keeps_slices out ws s ws' s' : sys_keeps out ws s ws' s' -> slices ws' = slices ws.
Proof. intros (_ & _ & He & _). unfold slices. by rewrite He. Qed.

(** One thread moves: the others are framed. *)
Lemma sys_move out l1 l2 w w' s s' :
  jobs_wf (slices (l1 ++ w :: l2)) -> sys_inv out (l1 ++ w :: l2) s ->
  th_post (held (l1 ++ l2) ++ out) w s w' s' ->
  sys_keeps out (l1 ++ w :: l2) s (l1 ++ w' :: l2) s'.
Proof.
  intros Hwf (Hi & Hpool & Hl) (Hi' & Hp' & Hl' & Hf' & Hs' & Hk').
  unfold sys_keeps, sys_inv. split_and!; [| |done| | |].
  - assert (forall v, v ∈ l1 ++ l2 -> th_inv v s -> th_inv v s') as Hother.
    { intros v Hv. apply (tp_frame pages gpu_buf ok v _ _ _ _ Hf').
      - intros b Hb. apply elem_of_app. left. apply list_elem_of_join.
        exists (th_held v). split; [done|]. apply list_elem_of_fmap. eauto.
      - intros j j'. by eapply slices_sep. }
    rewrite Forall_app, Forall_cons in Hi. destruct Hi as (Hi1 & _ & Hi2).
    rewrite Forall_forall in Hi1, Hi2. rewrite Forall_app, Forall_cons, !Forall_forall.
    split_and!; [|done|]; intros v Hv; (apply Hother; [apply elem_of_app; tauto|auto]).
  - eapply pool_inv_eqp; [|exact Hp']. by rewrite held_at.
  - eapply step_frame_weaken; [..|exact Hf'].
    + intros j Hj. rewrite slices_at, !elem_of_app. tauto.
    + intros b Hb. apply elem_of_app. by right.
  - rewrite !fmap_app, !fmap_cons. by rewrite Hs'.
  - rewrite !owned_app. cbn. lia.
Qed.

Lemma sys_inv_at out l1 w l2 s :
  sys_inv out (l1 ++ w :: l2) s -> th_inv w s /\ pool_inv (th_held w ++ held (l1 ++ l2) ++ out) s.
Proof.
  intros (Hi & Hp & _). split.
  - apply Forall_app in Hi as [_ Hi]. by apply Forall_cons in Hi as [Hi _].
  - eapply pool_inv_eqp; [apply held_at|exact Hp].
Qed.

Lemma jobs_wf_at l1 w l2 : jobs_wf (slices (l1 ++ w :: l2)) -> jobs_wf (th_slice w).
Proof. rewrite slices_at. apply jobs_wf_sub. eauto. Qed.

Lemma sys_step_spec out i ws s :
  env_cc = true -> jobs_wf (slices ws) -> sys_inv out ws s ->
  wp (sys_step T i ws) (sys_keeps out ws s) s.
Proof.
  intros Hcc Hwf Hi. unfold sys_step. destruct (ws !! i) as [w|] eqn:Hw.
  2:{ wdet. by apply sys_keeps_refl. }
  destruct (list_elem_of_split_length _ _ _ Hw) as (l1 & l2 & -> & ->).
  destruct (sys_inv_at _ _ _ _ _ Hi) as [Hwi Hwp]. apply wp_bind.
  eapply wp_mono; [apply (tp_step pages gpu_buf ok w (held (l1 ++ l2) ++ out));
    try done; [by eapply jobs_wf_at|apply Hi]|].
  intros w' s' Hpost. wdet. rewrite insert_app_r_alt by lia. rewrite Nat.sub_diag.
  by apply sys_move.
Qed.

Lemma sys_run_spec out sched : env_cc = true -> forall ws s,
  jobs_wf (slices ws) -> sys_inv out ws s ->
  wp (sys_run T sched ws) (sys_keeps out ws s) s.
Proof.
  intros Hcc. induction sched as [|i sched IH]; intros ws s Hwf Hi; cbn [sys_run].
  { wdet. by apply sys_keeps_refl. }
  apply wp_bind. eapply wp_mono; [by apply sys_step_spec|]. intros ws1 s1 Hk.
  eapply wp_mono; [apply IH|]; [by rewrite (sys_keeps_slices _ _ _ _ _ Hk)|apply Hk|].
  intros ws2 s2. by apply sys_keeps_trans.
Qed.

Lemma sys_wait_spec out : env_cc = true -> forall l2 l1 s,
  jobs_wf (slices (l1 ++ l2)) -> sys_inv out (l1 ++ l2) s ->
  wp (sys_wait T l2) (fun l2' s' =>
    sys_keeps out (l1 ++ l2) s (l1 ++ l2') s' /\ Forall (fun w => tf_measure T w = 0%nat) l2') s.
Proof.
  intros Hcc. induction l2 as [|w l2 IH]; intros l1 s Hwf Hi; cbn [sys_wait].
  { wdet. split; [by apply sys_keeps_refl|done]. }
  destruct (sys_inv_at _ _ _ _ _ Hi) as [Hwi Hwp]. apply wp_bind.
  eapply wp_mono; [apply (thread_run_spec _ (held (l1 ++ l2) ++ out)); try done;
    [by eapply jobs_wf_at|apply Hi]|].
  intros w1 s1 [Hpost Hat]. pose proof (sys_move out l1 l2 w w1 s s1 Hwf Hi Hpost) as Hk.
  apply wp_bind. rewrite (cons_middle w1), app_assoc in Hk.
  eapply wp_mono; [apply (IH (l1 ++ [w1]))|].
  - by rewrite (sys_keeps_slices _ _ _ _ _ Hk).
  - apply Hk.
  - intros l2' s2 [Hk2 Hex]. wdet. rewrite (cons_middle w1), app_assoc. split; [|by constructor].
    by eapply sys_keeps_trans.
Qed.

(** *** Starting the threads *)

Lemma wp_spawn sls s :
  wp (spawn T sls) (fun ws s' => quiet s s' /\ k_live s' = k_live s /\ th_slice <$> ws = sls /\
    Forall (fun w => (forall s, th_inv w s) /\ th_held w = [] /\ th_owns w = 0) ws) s.
Proof.
  revert s. induction sls as [|sl sls IH]; intros s; cbn [spawn].
  { wdet. split_and!; [by repeat split|done..|constructor]. }
  wdet. apply wp_tick. cbv zeta. wdet. eapply wp_mono; [apply IH|].
  intros ws s' (Hq & Hlv & Hs & Hw). wdet.
  assert (forall s0, let w := if env_alloc_ok (k_tick s) then tf_start T sl else tf_dead T sl in
    th_slice w = sl /\ th_held w = [] /\ th_owns w = 0 /\ th_inv w s0) as Hnew.
  { intros s0. destruct (env_alloc_ok (k_tick s)) eqn:Ha; cbv zeta.
    - by apply (tp_start pages gpu_buf ok sl s0).
    - destruct (tp_dead pages gpu_buf ok sl s0) as (?&?&?&Hi). split_and!; try done. apply Hi.
      intros HE. by rewrite healthy_alloc in Ha. }
  cbv zeta in Hnew. split_and!.
  - eapply (@PreOrder_Transitive _ _ (amb_pre (R := quiet))); [|exact Hq]. by repeat split.
  - done.
  - rewrite fmap_cons, Hs. f_equal. apply (Hnew s).
  - constructor; [|done]. destruct (Hnew s) as (_ & ? & ? & _). split_and!; [|done..].
    intros s0. apply (Hnew s0).
Qed.

(** What finished threads have delivered together, holding nothing. *)
Lemma threads_delivered ws s :
  Forall (fun w => tf_measure T w = 0%nat) ws -> Forall (fun w => th_inv w s) ws ->
  delivered (slices ws) (fold_left first_err (tf_status T <$> ws) NV_OK) (sum_counts T ws) s /\
  held ws = [] /\ owned ws = 0.
Proof.
  induction ws as [|w ws IH]; intros Hat Hi; [split; [apply delivered_nil|done]|].
  apply Forall_cons in Hat as [Hat Hats]. apply Forall_cons in Hi as [Hw Hi].
  destruct (IH Hats Hi) as ([Hh Hd] & Hheld & Hown).
  destruct (tp_exit pages gpu_buf ok w s Hat Hw) as (Hdb & Ho & [Hh1 Hd1]). split; [split|].
  - intros HE. apply fold_first_err. cbn. split; [done|]. constructor; [auto|].
    by apply (fold_first_err _ NV_OK), Hh.
  - intros Hst. apply fold_first_err in Hst as [_ Hst]. rewrite fmap_cons in Hst.
    apply Forall_cons in Hst as [Hs1 Hst].
    destruct (Hd1 Hs1) as [Ho1 Hn1]. destruct Hd as [Ho' Hn]; [by apply fold_first_err|].
    unfold sum_counts in *. rewrite fmap_cons, fold_add_cons. unfold slices. rewrite fmap_cons. cbn [list_join mjoin]. split.
    + intros j Hj. apply elem_of_app in Hj as [Hj|Hj]; auto.
    + rewrite Hn, Hn1, length_app. unfold slices. by rewrite Nat2Z.inj_add.
  - unfold held, owned in *. cbn. by rewrite Hdb, Ho, Hown.
Qed.

(** *** The whole call *)

(** The outcome: the pool and the allocations as before, the slices framed, and
    what the threads left when they were started. *)
Definition threads_post (out : list Z) (runs : list run) (n : Z) (s : kst)
    (r : nv_status * option (Z * list W)) (s' : kst) : Prop :=
  pool_inv out s' /\ limit_ok s' /\ step_frame (make_jobs 0 runs) out s s' /\ k_live s' = k_live s /\
  match snd r with
  | None => fst r <> NV_OK /\ ~ HealthyEnv E
  | Some (k, ws) => k = clamp_threads n (Z.of_nat (length runs)) /\
                    delivered (make_jobs 0 runs) (fst r) (sum_counts T ws) s'
  end.

(** The started threads run to their end. *)
Lemma run_started_spec out sched ws s :
  env_cc = true -> jobs_wf (slices ws) -> sys_inv out ws s -> owned ws = 0 ->
  wp (ws ← sys_run T sched ws; sys_wait T ws) (fun ws' s' =>
    pool_inv out s' /\ limit_ok s' /\ step_frame (slices ws) out s s' /\ k_live s' = k_live s /\
    delivered (slices ws) (fold_left first_err (tf_status T <$> ws') NV_OK) (sum_counts T ws') s') s.
Proof.
  intros Hcc Hwf Hi Hown. apply wp_bind. eapply wp_mono; [by apply sys_run_spec|].
  intros ws1 s1 Hk1. eapply wp_mono.
  { apply (sys_wait_spec out Hcc ws1 []); [|apply Hk1]. cbn [app].
    by rewrite (sys_keeps_slices _ _ _ _ _ Hk1). }
  cbn [app]. intros ws2 s2 [Hk2 Hex]. pose proof (sys_keeps_trans _ _ _ _ _ _ _ Hk1 Hk2) as Hk.
  pose proof (sys_keeps_slices _ _ _ _ _ Hk) as Hs. destruct Hk as ((Hi2 & Hp2 & Hl2) & Hf & _ & Hlv).
  destruct (threads_delivered ws2 s2 Hex Hi2) as (Hd & Hheld & Ho2). rewrite Hs in Hd.
  rewrite Hheld in Hp2. split_and!; try done. lia.
Qed.

Lemma quiet_step_frame js out s s' : quiet s s' -> step_frame js out s s'.
Proof. intros. by apply cc_frame_step_frame, quiet_cc_frame. Qed.

Lemma quiet_limit s s' : quiet s s' -> limit_ok s -> limit_ok s'.
Proof. intros Hq. eapply limit_ok_step. apply (quiet_cc_frame []), Hq. Qed.

Lemma run_threads_spec out sched runs n s :
  env_cc = true -> 0 <= n -> jobs_wf (make_jobs 0 runs) -> pool_inv out s -> limit_ok s ->
  wp (run_threads T sched runs n) (threads_post out runs n s) s.
Proof.
  intros Hcc Hn Hwf Hpool Hl. unfold run_threads. cbv zeta. wdet. apply wp_tick.
  assert (quiet s (set_tick (k_tick s + 1)%N s)) as Hq0 by (by repeat split).
  assert (forall s', quiet s s' -> pool_inv out s' /\ limit_ok s' /\
    step_frame (make_jobs 0 runs) out s s') as Hquiet.
  { intros s' Hq. split_and!; [by eapply quiet_pool_inv|by eapply quiet_limit|by apply quiet_step_frame]. }
  destruct (env_alloc_ok _) eqn:Hmm; cbn [negb].
  2:{ wdet. destruct (Hquiet _ Hq0) as (?&?&?). unfold threads_post. cbn [fst snd]. split_and!; try done.
      intros HE. by rewrite healthy_alloc in Hmm. }
  wdet. apply wp_kmalloc_quiet. intros p s1 Hq1 Hlv1 Hp.
  apply (@PreOrder_Transitive _ _ (amb_pre (R := quiet)) _ _ _ Hq0) in Hq1.
  apply wp_if; intros Hpt; bprop; wdet.
  { subst p. destruct (Hquiet s1 Hq1) as (?&?&?). unfold threads_post. cbn [fst snd]. split_and!; try done.
    - cbn in Hlv1; lia.
    - intros HE. by specialize (Hp HE). }
  eapply wp_mono; [apply wp_spawn|]. intros ws s2 (Hq2 & Hlv2 & Hs & Hws).
  apply (@PreOrder_Transitive _ _ (amb_pre (R := quiet)) _ _ _ Hq1) in Hq2.
  destruct (Hquiet s2 Hq2) as (Hpool2 & Hl2 & Hf2).
  assert (slices ws = make_jobs 0 runs) as Hsl by (unfold slices; rewrite Hs; by apply slices_partition).
  assert (held ws = [] /\ owned ws = 0) as [Hheld Hown].
  { clear -Hws. unfold held, owned. induction Hws as [|w ws (_ & Hd & Ho) _ [IH1 IH2]]; [done|].
    cbn. by rewrite Hd, Ho, IH2. }
  assert (sys_inv out ws s2) as Hi.
  { split; [|by rewrite Hheld]. eapply Forall_impl; [exact Hws|]. by intros w [Hw _]. }
  apply wp_assoc. apply wp_bind. eapply wp_mono; [apply run_started_spec; try done; by rewrite Hsl|].
  rewrite Hsl. intros ws3 s3 (Hp3 & Hl3 & Hf3 & Hlv3 & Hd3).
  wdet. apply wp_kfree_quiet. intros s4 Hq4 Hlv4. wdet. subst p. cbn in Hlv1, Hlv4, Hlv2.
  unfold threads_post. cbn [fst snd]. split_and!; [..|done|].
  - by eapply quiet_pool_inv.
  - by eapply quiet_limit.
  - eapply step_frame_trans; [exact Hf2|]. eapply step_frame_trans; [exact Hf3|]. by apply quiet_step_frame.
  - lia.
  - refine (delivered_own pages gpu_buf ok _ _ _ out _ _ _ Hd3). by apply quiet_step_frame.
Qed.

(** *** Locks *)

Lemma lock_thread_run fuel w : LockSpec [] (thread_run T fuel w) [].
Proof.
  revert w. induction fuel as [|fuel IH]; intros w; cbn [thread_run]; [apply lock_ret|].
  eapply lock_bind; [apply (tp_lock pages gpu_buf ok)|apply IH].
Qed.

Lemma lock_sys_run sched ws : LockSpec [] (sys_run T sched ws) [].
Proof.
  revert ws. induction sched as [|i sched IH]; intros ws; cbn [sys_run]; [apply lock_ret|].
  eapply lock_bind; [|intros; apply IH]. unfold sys_step. destruct (ws !! i); [|apply lock_ret].
  eapply lock_bind; [apply (tp_lock pages gpu_buf ok)|intros; apply lock_ret].
Qed.

Lemma lock_sys_wait ws : LockSpec [] (sys_wait T ws) [].
Proof.
  induction ws as [|w ws IH]; cbn [sys_wait]; [apply lock_ret|].
  eapply lock_bind; [apply lock_thread_run|]. intros. eapply lock_bind; [apply IH|]. locks.
Qed.

Lemma lock_spawn sls : LockSpec [] (spawn T sls) [].
Proof.
  induction sls as [|sl sls IH]; cbn [spawn]; [apply lock_ret|].
  eapply lock_bind; [eauto with locks|]. intros. cbv zeta. eapply lock_bind; [apply IH|]. locks.
Qed.
Hint Resolve lock_sys_run lock_sys_wait lock_spawn : locks.

Lemma lock_run_threads sched runs n : LockSpec [] (run_threads T sched runs n) [].
Proof. unfold run_threads. locks. Qed.
End Pool.
