(* ===== verification/Transfer.v ===== *)
(** Pass 2: moving GPU pages out through two DMA buffers used alternately, in
    one thread (ioctls 109, 111, 113) and in several kernel threads at once
    (ioctls 114 to 116).

    The ping-pong loop is a state machine whose steps are the stretches between
    the points where other threads' effects are visible: consuming a finished
    transfer, submitting a new one, draining a slot.  The sequential handlers
    run it to its end; [lm_mt_run_workers] runs several as threads of [Threads]. *)
From S2P Require Import Prelude Kernel VaBlock ConfComputing Runs Jobs Slots Threads.

Inductive pp_phase := PpProcess | PpSubmit | PpDrain (c : bool) | PpDone.

#[export] Instance pp_phase_eq_dec : EqDecision pp_phase.
Proof. solve_decision. Defined.

(** The locals of the loop: buffers, runs left, slot parity [c = i & 1], the
    active slots, [status] and the number of submissions. *)
Record pp := mk_pp {
  pp_db     : Z * Z;
  pp_jobs   : list job;
  pp_c      : bool;
  pp_slots  : option slot * option slot;
  pp_status : nv_status;
  pp_nt     : Z;
  pp_at     : pp_phase;
}.

Definition pp_init (db : Z * Z) (jobs : list job) : pp :=
  mk_pp db jobs false (None, None) NV_OK 0 PpProcess.
Definition pp_goto (ph : pp_phase) (st : nv_status) (p : pp) : pp :=
  mk_pp (pp_db p) (pp_jobs p) (pp_c p) (pp_slots p) st (pp_nt p) ph.
Definition pp_set_slot (c : bool) (x : option slot) (p : pp) : pp :=
  mk_pp (pp_db p) (pp_jobs p) (pp_c p) (upd c x (pp_slots p)) (pp_status p) (pp_nt p) (pp_at p).

Section Transfer.
Context `{E : Env} `{G : CcGpu}.
(** [gpu_pages], ciphertext or plaintext output, and [params->gpu_buf]. *)
Context (pages : list gpu_page) (cipher : bool) (gpu_buf : Z).
#[local] Notation job_pa := (job_pa pages).
#[local] Notation job_addr := (job_addr pages gpu_buf).

(** Handing a finished transfer to user space, the push having completed. *)
Definition consume (b : Z) (sl : slot) : K nv_status :=
  let j := sl_job sl in
  d ← kget (fun s => buf_get s b);
  let ci := buf_cipher d (job_bytes j) in
  if cipher then
    kmod (fun s => set_meta (<[jb_ti j := meta_of d (job_bytes j)]> (k_meta s)) s) ;;
    if gpu_buf =? 0 then kret NV_OK else
    fault ← copy_to_user (job_addr j) ci;
    kret (if fault then NV_ERR_INVALID_ARGUMENT else NV_OK)
  else
    '(st, plain) ← uvm_conf_computing_cpu_decrypt (sl_chan sl) ci (db_decrypt_iv d)
                     (db_key_version d) (buf_tag d);
    if negb (is_ok st) then kret st else
    if gpu_buf =? 0 then kret NV_OK else
    fault ← copy_to_user (job_addr j) plain;
    kret (if fault then NV_ERR_INVALID_ARGUMENT else NV_OK).

(** Wait and process the previous submission on this slot, if any. *)
Definition pp_process (p : pp) : K pp :=
  match pp_jobs p with
  | [] => kret (pp_goto (PpDrain false) (pp_status p) p)
  | _ :: _ =>
      match sel (pp_c p) (pp_slots p) with
      | None => kret (pp_goto PpSubmit (pp_status p) p)
      | Some sl =>
          st ← uvm_push_wait;
          if negb (is_ok st) then kret (pp_goto (PpDrain false) st p) else
          st ← consume (sel (pp_c p) (pp_db p)) sl;
          if negb (is_ok st) then kret (pp_goto (PpDrain false) st p)
          else kret (pp_goto PpSubmit NV_OK (pp_set_slot (pp_c p) None p))
      end
  end.

(** Submit the next run on this slot. *)
Definition pp_submit (p : pp) : K pp :=
  match pp_jobs p with
  | [] => kret (pp_goto (PpDrain false) (pp_status p) p)
  | j :: rest =>
      '(st, chan) ← uvm_push_begin;
      if negb (is_ok st) then kret (pp_goto (PpDrain false) st p) else
      gpu_encrypt_to_buffer chan (sel (pp_c p) (pp_db p)) (job_pa j) (job_bytes j) ;;
      uvm_push_end chan ;;
      kret (mk_pp (pp_db p) rest (negb (pp_c p)) (upd (pp_c p) (Some (mk_slot chan j)) (pp_slots p))
              st (pp_nt p + 1) PpProcess)
  end.

(** One iteration of the draining loop. *)
Definition pp_drain (c : bool) (p : pp) : K pp :=
  let next := if c then PpDone else PpDrain true in
  match sel c (pp_slots p) with
  | None => kret (pp_goto next (pp_status p) p)
  | Some sl =>
      ws ← uvm_push_wait;
      let status := first_err (pp_status p) ws in
      status ← (if is_ok status then consume (sel c (pp_db p)) sl else kret status);
      kret (pp_goto next status (pp_set_slot c None p))
  end.

Definition pp_step (p : pp) : K pp :=
  match pp_at p with
  | PpProcess => pp_process p
  | PpSubmit => pp_submit p
  | PpDrain c => pp_drain c p
  | PpDone => kret p
  end.

Fixpoint pp_run (fuel : nat) (p : pp) : K pp :=
  match fuel with
  | O => kret p
  | S fuel' => p ← pp_step p; pp_run fuel' p
  end.

(** Steps from a state to [PpDone]: two per run left, and the draining. *)
Definition pp_measure (p : pp) : nat :=
  match pp_at p with
  | PpProcess => 2 * length (pp_jobs p) + 4
  | PpSubmit => 2 * length (pp_jobs p) + 3
  | PpDrain false => 2
  | PpDrain true => 1
  | PpDone => 0
  end%nat.

(** The whole loop on a given pair of buffers: status and submissions. *)
Definition pingpong (db : Z * Z) (jobs : list job) : K (nv_status * Z) :=
  let p := pp_init db jobs in
  p ← pp_run (pp_measure p) p;
  kret (pp_status p, pp_nt p).

(** ** A worker thread *)

Inductive w_phase :=
| WStart | WAlloc0 | WAlloc1 | WRun | WFree1 | WFree0 | WFreePlain | WExit.

Record worker := mk_worker {
  w_slice  : list job;
  w_at     : w_phase;
  w_plain  : bool;                (* plain_buf is allocated *)
  w_db     : list Z;              (* the buffers held, db[0] last *)
  w_pp     : pp;
  w_status : nv_status;
}.

Definition worker_init (slice : list job) (at_ : w_phase) (st : nv_status) : worker :=
  mk_worker slice at_ false [] (pp_init (0, 0) slice) st.
Definition w_goto (ph : w_phase) (w : worker) : worker :=
  mk_worker (w_slice w) ph (w_plain w) (w_db w) (w_pp w) (w_status w).
Definition w_fail (ph : w_phase) (st : nv_status) (w : worker) : worker :=
  mk_worker (w_slice w) ph (w_plain w) (w_db w) (w_pp w) st.
Definition w_set_db (ph : w_phase) (db : list Z) (w : worker) : worker :=
  mk_worker (w_slice w) ph (w_plain w) db (w_pp w) (w_status w).

Definition worker_step (w : worker) : K worker :=
  match w_at w with
  | WStart =>
      if cipher then kret (w_goto WAlloc0 w) else
      p ← kmalloc;
      if negb p then kret (w_fail WExit NV_ERR_NO_MEMORY w)
      else kret (mk_worker (w_slice w) WAlloc0 true (w_db w) (w_pp w) (w_status w))
  | WAlloc0 =>
      '(st, b) ← uvm_conf_computing_dma_buffer_alloc;
      match b with
      | None => kret (w_fail WFreePlain st w)
      | Some b => kret (w_set_db WAlloc1 [b] w)
      end
  | WAlloc1 =>
      '(st, b) ← uvm_conf_computing_dma_buffer_alloc;
      match b with
      | None => uvm_conf_computing_dma_buffer_free (head (w_db w)) ;;
                kret (w_fail WFreePlain st (w_set_db WFreePlain [] w))
      | Some b =>
          let b0 := default 0 (head (w_db w)) in
          kret (mk_worker (w_slice w) WRun (w_plain w) [b; b0] (pp_init (b0, b) (w_slice w)) (w_status w))
      end
  | WRun =>
      p ← pp_step (w_pp w);
      kret (mk_worker (w_slice w) (if bool_decide (pp_at p = PpDone) then WFree1 else WRun)
              (w_plain w) (w_db w) p (pp_status p))
  | WFree1 => uvm_conf_computing_dma_buffer_free (head (w_db w)) ;;
              kret (w_set_db WFree0 (tail (w_db w)) w)
  | WFree0 => uvm_conf_computing_dma_buffer_free (head (w_db w)) ;;
              kret (w_set_db WFreePlain (tail (w_db w)) w)
  | WFreePlain => kfree (w_plain w) ;;
                  kret (mk_worker (w_slice w) WExit false (w_db w) (w_pp w) (w_status w))
  | WExit => kret w
  end.

(** Steps to [WExit]. *)
Definition w_measure (w : worker) : nat :=
  match w_at w with
  | WStart => 2 * length (w_slice w) + 11
  | WAlloc0 => 2 * length (w_slice w) + 10
  | WAlloc1 => 2 * length (w_slice w) + 9
  | WRun => pp_measure (w_pp w) + 4
  | WFree1 => 3
  | WFree0 => 2
  | WFreePlain => 1
  | WExit => 0
  end%nat.

Definition lm_mt_worker_fn : thread_fn := {|
  tf_state   := worker;
  tf_start   := fun slice => worker_init slice WStart NV_OK;
  tf_dead    := fun slice => worker_init slice WExit NV_ERR_NO_MEMORY;
  tf_step    := worker_step;
  tf_measure := w_measure;
  tf_status  := w_status;
  tf_count   := fun w => pp_nt (w_pp w);
|}.

(** The transfers counted are the submissions of the workers, or every run for
    plaintext. *)
Definition lm_mt_run_workers (sched : list nat) (runs : list run) (num_threads : Z)
    : K (nv_status * Z) :=
  '(status, r) ← run_threads lm_mt_worker_fn sched runs num_threads;
  kret (status, match r with
                | Some (_, ws) => if cipher then sum_counts lm_mt_worker_fn ws else Z.of_nat (length runs)
                | None => 0
                end).
End Transfer.

(** ** Consuming a transfer *)

Section Consume.
Context `{E : Env} `{G : CcGpu}.
Context (pages : list gpu_page) (cipher : bool) (gpu_buf : Z).

#[local] Notation job_pa := (job_pa pages).
#[local] Notation job_addr := (job_addr pages gpu_buf).
#[local] Notation out_ok := (out_ok pages cipher gpu_buf).
#[local] Notation consume_frame := (consume_frame pages gpu_buf).

Lemma consume_spec b sl s (Q : nv_status -> kst -> Prop) :
  let j := sl_job sl in
  holds_copy (buf_get s b) (job_pa j) (job_bytes j) -> 0 <= job_bytes j ->
  (forall st s', consume_frame j s s' -> (st = NV_OK -> out_ok j s') ->
     (HealthyEnv E -> st = NV_OK) -> Q st s') ->
  wp (consume pages cipher gpu_buf b sl) Q s.
Proof.
  intros j Hcp Hsz HQ. pose proof Hcp as (Hd & Hlc & _). unfold consume. fold j. wdet.
  set (d := buf_get s b) in *. cbv zeta. unfold out_ok in HQ. destruct cipher.
  - wdet. pose proof (consume_frame_meta pages gpu_buf j (meta_of d (job_bytes j)) s) as Hf1.
    pose proof (stored_after pages d j s Hcp) as Hs1. set (s1 := set_meta _ s) in *. clearbody s1.
    apply wp_if; intros Hz; bprop.
    + wdet. apply HQ; [done| |done]. intros _. eexists. by split.
    + wdet. apply copy_to_user_frame; [done|done|].
      intros f s2 Hf2 Hm2 Hh2 Hok2. wdet. apply HQ.
      * by eapply consume_frame_trans.
      * destruct f; [done|]. intros _. eexists. split; [|auto]. eapply stored_meta; [|exact Hs1]. by rewrite Hm2.
      * intros HE. by rewrite Hok2.
  - wdet. eapply wp_cpu_decrypt_full; [exact Hd|]. intros st p s1 Hp Hh Hc Hv.
    pose proof (consume_frame_quiet pages gpu_buf j _ _ Hc Hv) as Hf1.
    apply wp_if; intros Hst; bprop; wdet.
    { apply HQ; [done|done|]. intros HE. by rewrite Hh in Hst. }
    specialize (Hp Hst). subst p. apply wp_if; intros Hz.
    + wdet. apply HQ; [done| |done]. by apply Z.eqb_eq in Hz.
    + apply Z.eqb_neq in Hz. wdet. apply copy_to_user_frame; [by apply length_vid_read|done|].
      intros f s2 Hf2 Hm2 Hh2 Hok2. wdet. apply HQ.
      * by eapply consume_frame_trans.
      * destruct f; [done|]. auto.
      * intros HE. by rewrite Hok2.
Qed.
End Consume.

(** ** The ping-pong machine *)

Section PingPong.
Context `{E : Env} `{G : CcGpu}.
Context (pages : list gpu_page) (cipher : bool) (gpu_buf : Z).

#[local] Notation out_ok := (out_ok pages cipher gpu_buf).
#[local] Notation flying := (flying pages gpu_buf out_ok).
#[local] Notation flight := (flight pages out_ok).

Lemma consume_taken b sl s :
  let j := sl_job sl in
  holds_copy (buf_get s b) (job_pa pages j) (job_bytes j) -> 0 <= job_bytes j ->
  wp (consume pages cipher gpu_buf b sl) (taken pages gpu_buf out_ok j [] s) s.
Proof.
  intros j Hh Hsz. apply consume_spec; [done..|]. intros st s' Hf Ho Hok.
  by apply consume_frame_taken.
Qed.

(** What each point of the loop knows. *)
Definition pp_ok (p : pp) : Prop :=
  match pp_at p with
  | PpProcess => pp_status p = NV_OK
  | PpSubmit => pp_status p = NV_OK /\ sel (pp_c p) (pp_slots p) = None
  | PpDrain c => (pp_status p = NV_OK -> pp_jobs p = []) /\ (c = true -> sel false (pp_slots p) = None)
  | PpDone => (pp_status p = NV_OK -> pp_jobs p = []) /\ pp_slots p = (None, None)
  end.

Definition pp_bufs (p : pp) : list Z := [snd (pp_db p); fst (pp_db p)].

Lemma pp_bufs_sel c p : sel c (pp_db p) ∈ pp_bufs p.
Proof. destruct c; cbn; set_solver. Qed.

Definition pp_flight (all : list job) (p : pp) (s : kst) : Prop :=
  flight all (pp_db p) (pp_slots p) (pp_jobs p) (pp_status p) (pp_nt p) s /\ pp_ok p.

Lemma pp_flight_init all db s : pp_flight all (pp_init db all) s.
Proof. split; [apply flight_start|done]. Qed.

Lemma pp_flight_delivered all p s :
  pp_flight all p s -> pp_at p = PpDone -> delivered out_ok all (pp_status p) (pp_nt p) s.
Proof.
  intros [Hf Hok] Hat. unfold pp_ok in Hok. rewrite Hat in Hok. destruct Hok as [Hj Hs].
  rewrite Hs in Hf. by eapply flight_delivered.
Qed.

Context (all : list job) (Hwf : jobs_wf pages gpu_buf all) (bufs out : list Z) (Hcc : env_cc = true).

(** The loop with buffers [bufs], since [s0]. *)
Definition pp_flies (s0 : kst) (p : pp) (s : kst) : Prop :=
  flying all bufs out s0 (pp_db p) (pp_slots p) (pp_jobs p) (pp_status p) (pp_nt p) s /\ pp_ok p.

Definition pp_moves (s0 : kst) (p p' : pp) (s' : kst) : Prop :=
  pp_flies s0 p' s' /\ pp_db p' = pp_db p.

(** Leaving for the draining loop with an error, or with no run left. *)
Lemma to_drain s0 p s st :
  flying all bufs out s0 (pp_db p) (pp_slots p) (pp_jobs p) (pp_status p) (pp_nt p) s ->
  pp_status p = NV_OK -> (st = NV_OK -> pp_jobs p = []) -> (HealthyEnv E -> st = NV_OK) ->
  pp_moves s0 p (pp_goto (PpDrain false) st p) s.
Proof. intros Hf Hst Hj Hh. split; [split|done]; cbn; [by eapply flying_status|done]. Qed.

Lemma pp_process_spec s0 p s :
  pp_at p = PpProcess -> pp_flies s0 p s ->
  wp (pp_process pages cipher gpu_buf p) (pp_moves s0 p) s.
Proof.
  intros Hat [Hf Hok]. unfold pp_ok in Hok. rewrite Hat in Hok. unfold pp_process.
  destruct (pp_jobs p) as [|j rest] eqn:Hjobs; rewrite <- Hjobs in Hf; [wdet; by apply to_drain|].
  destruct (sel (pp_c p) (pp_slots p)) as [sl|] eqn:Hsl; [|wdet; by split].
  apply wp_bind. eapply (wp_flying_wait pages gpu_buf out_ok); [exact Hf|]. intros st s1 Hf1 Hh1. apply wp_if; intros Hst; bprop.
  { wdet. by apply to_drain. }
  destruct (flying_slot Hwf Hf1 Hsl) as [Hcp Hsz].
  apply wp_bind. eapply wp_mono; [by apply consume_taken|]. intros st2 s2 Htk.
  destruct (flying_taken Hwf st2 Hf1 Hsl Htk) as [Hkeep Htake];
    [set_solver|set_solver|auto|apply Htk|].
  apply wp_if; intros Hst2; bprop; wdet.
  - split; [split|done]; cbn; [done|]. split; [by intros|done].
  - subst st2. split; [split|done]; cbn; [done|]. split; [done|]. rewrite sel_upd. by rewrite bool_decide_eq_true_2.
Qed.

Lemma pp_submit_spec s0 p s :
  pp_at p = PpSubmit -> (forall c, sel c (pp_db p) ∈ bufs) -> fst (pp_db p) <> snd (pp_db p) ->
  pp_flies s0 p s -> wp (pp_submit pages p) (pp_moves s0 p) s.
Proof.
  intros Hat Hin Hne [Hf Hok]. unfold pp_ok in Hok. rewrite Hat in Hok. destruct Hok as [Hst Hsl].
  unfold pp_submit. destruct (pp_jobs p) as [|j rest] eqn:Hjobs; rewrite <- Hjobs in Hf; [wdet; by apply to_drain|].
  apply wp_bind. eapply (wp_flying_begin pages gpu_buf out_ok); [done|exact Hf|]. intros ps chan s1 Hf1 Hb Hh.
  apply wp_if; intros Hps; bprop; [wdet; by apply to_drain|].
  rewrite Hjobs in Hf1. eapply (wp_flying_submit pages gpu_buf out_ok all Hwf); [exact Hf1|done|done| |by apply Hb|].
  { intros sl _. destruct (pp_c p); cbn; congruence. }
  intros s2 Hf2. wdet. split; [split|done]; cbn; [|done]. by rewrite Hst, Hps in *.
Qed.

Lemma pp_drain_spec c s0 p s :
  pp_at p = PpDrain c -> pp_flies s0 p s ->
  wp (pp_drain pages cipher gpu_buf c p) (pp_moves s0 p) s.
Proof.
  intros Hat [Hf Hok]. unfold pp_ok in Hok. rewrite Hat in Hok. destruct Hok as [Hj Hc].
  set (next := if c then PpDone else PpDrain true).
  assert (forall st x, (st = NV_OK -> pp_status p = NV_OK) -> sel c x = None ->
    (c = true -> sel false x = None) ->
    pp_ok (mk_pp (pp_db p) (pp_jobs p) (pp_c p) x st (pp_nt p) next)) as Hnext.
  { intros st [x y] Hs Hx Hy. unfold pp_ok, next. destruct c; cbn in *; split; auto.
    by rewrite Hx, Hy. }
  unfold pp_drain. fold next. destruct (sel c (pp_slots p)) as [sl|] eqn:Hsl.
  2:{ wdet. split; [split; [done|by apply Hnext]|done]. }
  apply wp_bind. eapply (wp_flying_wait pages gpu_buf out_ok); [exact Hf|]. intros ws s1 Hf1 Hh1. cbv zeta.
  set (status := first_err (pp_status p) ws).
  assert (status = NV_OK -> pp_status p = NV_OK) as Hs1 by (intros [H _]%first_err_ok; done).
  assert (HealthyEnv E -> status = NV_OK) as Hs2.
  { intros HE. apply first_err_ok. split; [apply Hf|]; auto. }
  destruct (flying_slot Hwf Hf1 Hsl) as [Hcp Hsz].
  apply wp_bind. apply wp_mono with (Q := fun st s2 => (st = NV_OK -> status = NV_OK) /\
    flying all bufs out s0 (pp_db p) (upd c None (pp_slots p)) (pp_jobs p) st (pp_nt p) s2).
  - apply wp_if; intros Hst; bprop.
    + eapply wp_mono; [by apply consume_taken|]. intros ds s2 Htk. split; [done|].
      apply (flying_taken Hwf ds Hf1 Hsl Htk);
        [set_solver|set_solver|auto|apply Htk].
    + wdet. split; [done|]. apply (flying_drop Hf1 Hsl Hst). intros HE. by apply Hst, Hs2.
  - intros st s2 [Hst Hf2]. wdet. split; [split|done]; cbn; [done|]. apply (Hnext st (upd c None (pp_slots p))); [auto|..].
    + rewrite sel_upd. by rewrite bool_decide_eq_true_2.
    + intros ->. rewrite sel_upd. by apply Hc.
Qed.

Lemma pp_step_spec s0 p s :
  (forall c, sel c (pp_db p) ∈ bufs) -> fst (pp_db p) <> snd (pp_db p) -> pp_flies s0 p s ->
  wp (pp_step pages cipher gpu_buf p) (pp_moves s0 p) s.
Proof.
  intros Hin Hne Hf. unfold pp_step. destruct (pp_at p) as [| |c|] eqn:Hat.
  - by apply pp_process_spec.
  - by apply pp_submit_spec.
  - by apply pp_drain_spec.
  - by wdet.
Qed.
End PingPong.

(** ** Running the machine *)

Lemma pp_measure_0 p : pp_measure p = 0%nat -> pp_at p = PpDone.
Proof. unfold pp_measure. destruct (pp_at p) as [| |[]|]; done || lia. Qed.

Section PingPongRun.
Context `{E : Env} `{G : CcGpu}.
Context (pages : list gpu_page) (cipher : bool) (gpu_buf : Z).
#[local] Notation out_ok := (out_ok pages cipher gpu_buf).
#[local] Notation step_frame := (step_frame pages gpu_buf).

(** Every step ends sooner than it started, whatever happens in it. *)
Lemma pp_step_less p s :
  wp (pp_step pages cipher gpu_buf p) (fun p' _ => (pp_measure p' <= pp_measure p - 1)%nat) s.
Proof.
  unfold pp_step. destruct (pp_at p) as [| |c|] eqn:Hat.
  - unfold pp_process. destruct (pp_jobs p) as [|j rest] eqn:Hj;
      [|destruct (sel (pp_c p) (pp_slots p))]; unfold uvm_push_wait; wsteps;
      repeat (apply wp_any; intros ? ?; wsteps); unfold pp_measure; cbn; rewrite ?Hat, ?Hj; cbn; lia.
  - unfold pp_submit. destruct (pp_jobs p) as [|j rest] eqn:Hj; wsteps;
      repeat (apply wp_any; intros; wsteps); unfold pp_measure; cbn; rewrite ?Hat, ?Hj; cbn; lia.
  - unfold pp_drain. destruct (sel c (pp_slots p)); unfold uvm_push_wait; wsteps;
      repeat (apply wp_any; intros; wsteps); unfold pp_measure; cbn; rewrite ?Hat; destruct c; cbn; lia.
  - wdet. unfold pp_measure. rewrite Hat. lia.
Qed.

Lemma pp_run_spec all bufs out fuel s0 : jobs_wf pages gpu_buf all -> env_cc = true -> forall p s,
  (pp_measure p <= fuel)%nat -> (forall c, sel c (pp_db p) ∈ bufs) -> fst (pp_db p) <> snd (pp_db p) ->
  pp_flies pages cipher gpu_buf all bufs out s0 p s ->
  wp (pp_run pages cipher gpu_buf fuel p) (fun p' s' =>
    pp_at p' = PpDone /\ pp_flies pages cipher gpu_buf all bufs out s0 p' s') s.
Proof.
  intros Hwf Hcc. induction fuel as [|fuel IH]; intros p s Hm Hin Hne Hf; cbn [pp_run].
  { wdet. split; [|done]. apply pp_measure_0; lia. }
  apply wp_bind. eapply wp_mono; [apply wp_and; [apply (pp_step_less p)|]|].
  { by apply (pp_step_spec pages cipher gpu_buf all Hwf bufs out Hcc s0). }
  intros p1 s1 [Hl [Hf1 Hdb]]. cbv beta in Hl. apply IH; rewrite ?Hdb; done || lia.
Qed.

Lemma pool_inv_pair b1 b2 out s : pool_inv (b1 :: b2 :: out) s -> b2 <> b1.
Proof. intros H%pool_inv_notin ->. apply H. by left. Qed.

(** The sequential loop, run to its end. *)
Lemma pingpong_spec all out b0 b1 s :
  jobs_wf pages gpu_buf all -> env_cc = true -> pool_inv (b1 :: b0 :: out) s -> limit_ok s ->
  wp (pingpong pages cipher gpu_buf (b0, b1) all) (fun r s' =>
    pool_inv (b1 :: b0 :: out) s' /\ limit_ok s' /\ step_frame all out s s' /\
    delivered out_ok all (fst r) (snd r) s') s.
Proof.
  intros Hwf Hcc Hpool Hl. unfold pingpong. cbv zeta. wdet. pose proof (pool_inv_pair _ _ _ _ Hpool) as Hne.
  eapply wp_mono.
  { apply (pp_run_spec all [b1; b0] out _ s Hwf Hcc); [done|by intros []; set_solver|done|].
    split; [|done]. apply flying_here; [apply flight_start|by intros [] sl|done|done]. }
  intros p s' [Hd [[Hi Hh Hp Hl' Hf] Hok]]. wdet. split_and!; try done.
  by eapply pp_flight_delivered.
Qed.
End PingPongRun.

(** ** Worker threads *)

Section Workers.
Context `{E : Env} `{G : CcGpu}.
Context (pages : list gpu_page) (cipher : bool) (gpu_buf : Z).
#[local] Notation out_ok := (out_ok pages cipher gpu_buf).
#[local] Notation step_frame := (step_frame pages gpu_buf).
#[local] Notation delivered := (delivered out_ok).
#[local] Notation job_sep := (job_sep pages gpu_buf).
#[local] Notation worker_fn := (lm_mt_worker_fn pages cipher gpu_buf).

(** A worker's invariant: the buffers it holds, by phase, and from the end of
    its loop on, what it has delivered.  The scratch buffer is gone at its end. *)
Definition w_inv (w : worker) (s : kst) : Prop :=
  ((HealthyEnv E -> w_status w = NV_OK) /\
   match w_at w with WStart | WExit => w_plain w = false | _ => True end) /\
  match w_at w with
  | WStart | WAlloc0 => w_db w = [] /\ w_status w = NV_OK
  | WAlloc1 => (exists b0, w_db w = [b0]) /\ w_status w = NV_OK
  | WRun => (exists b0 b1, w_db w = [b1; b0] /\ pp_db (w_pp w) = (b0, b1)) /\
            pp_flight pages cipher gpu_buf (w_slice w) (w_pp w) s
  | WFree1 => (exists b0 b1, w_db w = [b1; b0]) /\
              delivered (w_slice w) (w_status w) (pp_nt (w_pp w)) s
  | WFree0 => (exists b0, w_db w = [b0]) /\
              delivered (w_slice w) (w_status w) (pp_nt (w_pp w)) s
  | WFreePlain | WExit => w_db w = [] /\
              delivered (w_slice w) (w_status w) (pp_nt (w_pp w)) s
  end.

#[export] Instance worker_inv : ThreadInv worker_fn := {|
  th_slice := w_slice : tf_state worker_fn -> list job;
  th_held  := w_db;
  th_owns  := fun w => Z.b2z (w_plain w);
  th_inv   := w_inv;
|}.

Lemma w_inv_frame w js out s s' :
  step_frame js out s s' -> (forall b, b ∈ w_db w -> b ∈ out) ->
  (forall j j', j ∈ w_slice w -> j' ∈ js -> job_sep j j') -> w_inv w s -> w_inv w s'.
Proof.
  intros Hf Hb Hsep [Hh Hw]. split; [done|].
  destruct (w_at w); try done; destruct Hw as [H1 H2]; (split; [done|]);
    try done; try (refine (delivered_frame pages gpu_buf out_ok _ _ _ _ _ _ _ Hf _ H2); exact Hsep).
  destruct H1 as (b0 & b1 & Hdb & Hpp). destruct H2 as [H2 Hok]. split; [|done].
  eapply (flight_frame pages gpu_buf out_ok); [exact Hf| |exact Hsep|exact H2].
  intros c sl _. apply Hb. rewrite Hdb, Hpp. destruct c; cbn; set_solver.
Qed.

(** Transfers allocate nothing but DMA buffers. *)
Lemma live_consume b sl : LiveSpec (consume pages cipher gpu_buf b sl) (fun _ => 0).
Proof. unfold consume, uvm_conf_computing_cpu_decrypt. live0. Qed.
Hint Resolve live_consume : live.

Lemma live_pp_step p : LiveSpec (pp_step pages cipher gpu_buf p) (fun _ => 0).
Proof. unfold pp_step, pp_process, pp_submit, pp_drain, uvm_push_wait. live0. Qed.
Hint Resolve live_pp_step : live.

(** The scratch buffer is the allocation a worker has. *)
Lemma live_worker_step w : (w_at w = WStart -> w_plain w = false) ->
  LiveSpec (worker_step pages cipher gpu_buf w) (fun w' => Z.b2z (w_plain w') - Z.b2z (w_plain w)).
Proof.
  intros Hp. unfold worker_step. destruct (w_at w).
  1: specialize (Hp eq_refl); rewrite Hp.
  all: live0; apply live_ret; cbn; rewrite ?Hp by done; destruct (w_plain w) eqn:?; cbn; (lia || congruence).
Qed.


Lemma worker_step_less w s :
  wp (worker_step pages cipher gpu_buf w) (fun w' _ => (w_measure w' <= w_measure w - 1)%nat) s.
Proof.
  unfold worker_step. destruct (w_at w) eqn:Hat.
  4:{ apply wp_bind. eapply wp_mono; [apply pp_step_less|]. intros p s' Hp. cbv beta in Hp. wdet.
      unfold w_measure; cbn. rewrite Hat. destruct (bool_decide (pp_at p = PpDone)) eqn:Hd; bprop; [lia|].
      destruct (pp_measure (w_pp w)) eqn:Hm; [|lia]. destruct Hd. apply pp_measure_0. lia. }
  all: wsteps; repeat (apply wp_any; intros; wsteps);
    repeat match goal with |- context [match ?b with Some _ => _ | None => _ end] => destruct b end;
    wsteps; repeat (apply wp_any; intros; wsteps);
    unfold w_measure; cbn; rewrite ?Hat; unfold pp_measure; cbn; lia.
Qed.

(** *** A worker's step, apart from its allocations *)

Definition w_keeps (out : list Z) (w : worker) (s : kst) (w' : worker) (s' : kst) : Prop :=
  w_inv w' s' /\ pool_inv (w_db w' ++ out) s' /\ limit_ok s' /\
  step_frame (w_slice w) out s s' /\ w_slice w' = w_slice w.

Context (w : worker) (out : list Z) (s : kst).
Context (Hwf : jobs_wf pages gpu_buf (w_slice w)) (Hcc : env_cc = true) (Hl : limit_ok s).

(** Steps that only move buffers between the worker and the pool. *)
Lemma w_own w' s' :
  cc_frame out s s' -> w_inv w' s' -> pool_inv (w_db w' ++ out) s' -> w_slice w' = w_slice w ->
  w_keeps out w s w' s'.
Proof.
  intros Hf Hi Hp Hs. unfold w_keeps. split_and!; try done.
  - eapply limit_ok_step; [apply Hf|done].
  - by apply cc_frame_step_frame.
Qed.

Lemma w_delivered all st nt s' : cc_frame out s s' -> delivered all st nt s -> delivered all st nt s'.
Proof.
  intros Hf. apply (delivered_own pages gpu_buf out_ok _ _ _ out). by apply cc_frame_step_frame.
Qed.

(** Where a worker goes when it cannot get a buffer. *)
Lemma w_failed ph st p db s' :
  ph = WFreePlain \/ ph = WExit /\ p = false -> st <> NV_OK -> ~ HealthyEnv E -> db = [] ->
  w_inv (mk_worker (w_slice w) ph p db (w_pp w) st) s'.
Proof.
  intros Hph Hst Hh ->. split; [split; [done|]|]; cbn; destruct Hph as [->|[-> ->]]; cbn; try done;
    (split; [done|by apply delivered_error]).
Qed.

Lemma worker_start_spec :
  w_at w = WStart \/ w_at w = WAlloc0 \/ w_at w = WAlloc1 ->
  w_inv w s -> pool_inv (w_db w ++ out) s ->
  wp (worker_step pages cipher gpu_buf w) (w_keeps out w s) s.
Proof.
  intros Hat [[Hh Hpl] Hw] Hpool. unfold worker_step. destruct Hat as [Hat|[Hat|Hat]]; rewrite Hat in *.
  - destruct Hw as [Hdb Hst]. rewrite Hdb in Hpool. apply wp_if; intros _.
    { wdet. apply w_own; cbn; rewrite ?Hdb; try done; apply quiet_cc_frame; by repeat split. }
    apply wp_bind, wp_kmalloc_quiet. intros p s' Hq _ Hp. pose proof (quiet_cc_frame out _ _ Hq).
    pose proof (quiet_pool_inv _ _ _ Hq Hpool). apply wp_if; intros Hpt; bprop; wdet;
      apply w_own; cbn; rewrite ?Hdb; try done.
    apply w_failed; auto. intros HE. by rewrite Hp in Hpt.
  - destruct Hw as [Hdb Hst]. rewrite Hdb in Hpool. apply wp_bind.
    apply (wp_alloc out); [done|intros st s' Hse Hnh Hp Hf|intros b s' Hp Hf]; wdet.
    + apply w_own; cbn; rewrite ?Hdb; eauto using w_failed.
    + apply w_own; cbn; try done. split; cbn; eauto.
  - destruct Hw as [[b0 Hdb] Hst]. rewrite Hdb in *. apply wp_bind.
    apply (wp_alloc (b0 :: out)); [done|intros st s' Hse Hnh Hp Hf|intros b s' Hp Hf].
    + wdet. apply (wp_free (b0 :: out) out); [done..|]. intros s2 Hp2 Hf2. wdet.
      apply w_own; cbn; eauto using w_failed.
      apply (cc_frame_sub (b0 :: out)); [intros; by right|]. by eapply cc_frame_trans.
    + wdet. apply w_own; cbn; try done.
      * by eapply cc_frame_sub, Hf; intros; right.
      * split; [done|]; cbn. split; [eauto|apply pp_flight_init].
Qed.

Lemma worker_loop_spec :
  w_at w = WRun -> w_inv w s -> pool_inv (w_db w ++ out) s ->
  wp (worker_step pages cipher gpu_buf w) (w_keeps out w s) s.
Proof.
  intros Hat [[Hh Hpl] Hw] Hpool. unfold worker_step. rewrite Hat in *.
  destruct Hw as [(b0 & b1 & Hdb & Hpd) [Hi Hok]]. rewrite Hdb in Hpool.
  apply wp_bind. eapply wp_mono.
  { apply (pp_step_spec pages cipher gpu_buf _ Hwf [b1; b0] out Hcc s).
    - intros []; rewrite Hpd; cbn; set_solver.
    - rewrite Hpd. exact (pool_inv_pair b1 b0 out s Hpool).
    - split; [|done]. apply flying_here; [done| |done|done]. intros c sl _. rewrite Hpd. destruct c; set_solver. }
  intros p' s' [[[Hi' Hh' Hp' Hl' Hf'] Hok'] Hpd']. wdet.
  unfold w_keeps, w_inv; cbn. rewrite Hdb, Hpd', Hpd.
  destruct (bool_decide (pp_at p' = PpDone)) eqn:Hd; bprop; split_and!; try done; try apply Hi'; eauto.
  by eapply pp_flight_delivered.
Qed.

Lemma worker_release_spec :
  w_at w = WFree1 \/ w_at w = WFree0 \/ w_at w = WFreePlain \/ w_at w = WExit ->
  w_inv w s -> pool_inv (w_db w ++ out) s ->
  wp (worker_step pages cipher gpu_buf w) (w_keeps out w s) s.
Proof.
  intros Hat [[Hh Hpl] Hw] Hpool. unfold worker_step. destruct Hat as [Hat|[Hat|[Hat|Hat]]]; rewrite Hat in *.
  - destruct Hw as [(b0 & b1 & Hdb) Hdl]. rewrite Hdb in *. apply wp_bind.
    apply (wp_free (b1 :: b0 :: out) (b0 :: out)); [done..|]. intros s' Hp Hf.
    apply (cc_frame_sub _ out) in Hf; [|intros; by right; right]. wdet.
    apply w_own; cbn; rewrite ?Hdb; try done. split; [done|]; cbn. split; [eauto|by apply w_delivered].
  - destruct Hw as [(b0 & Hdb) Hdl]. rewrite Hdb in *. apply wp_bind.
    apply (wp_free (b0 :: out) out); [done..|]. intros s' Hp Hf.
    apply (cc_frame_sub _ out) in Hf; [|intros; by right]. wdet.
    apply w_own; cbn; rewrite ?Hdb; try done. split; [done|]; cbn. split; [done|by apply w_delivered].
  - destruct Hw as [Hdb Hdl]. rewrite Hdb in *. apply wp_bind, wp_kfree_quiet. intros s' Hq _. wdet.
    pose proof (quiet_cc_frame out _ _ Hq). pose proof (quiet_pool_inv _ _ _ Hq Hpool).
    apply w_own; cbn; rewrite ?Hdb; try done. split; [done|]; cbn. split; [done|by apply w_delivered].
  - wdet. assert (cc_frame out s s) by (apply quiet_cc_frame; by repeat split).
    apply w_own; try done. unfold w_inv. by rewrite Hat.
Qed.

Lemma worker_step_spec :
  w_inv w s -> pool_inv (w_db w ++ out) s ->
  wp (worker_step pages cipher gpu_buf w) (th_post pages gpu_buf (T := worker_fn) out w s) s.
Proof.
  intros Hi Hpool. assert (w_at w = WStart -> w_plain w = false) as Hs.
  { intros Hat. destruct Hi as [[_ Hpl] _]. by rewrite Hat in Hpl. }
  apply (wp_live _ _ _ _ (live_worker_step w Hs)). eapply wp_mono.
  - destruct (w_at w) eqn:Hat; [apply worker_start_spec|apply worker_start_spec|apply worker_start_spec
      |apply worker_loop_spec|apply worker_release_spec..]; auto.
  - intros w' s' (?&?&?&?&?) ?. by split_and!.
Qed.
End Workers.

(** ** Locks: every step leaves none held *)

Section TransferLocks.
Context `{E : Env} `{G : CcGpu}.
Context (pages : list gpu_page) (cipher : bool) (gpu_buf : Z).

Lemma lock_consume b sl : LockSpec [] (consume pages cipher gpu_buf b sl) [].
Proof. unfold consume, uvm_conf_computing_cpu_decrypt. locks. Qed.
Hint Resolve lock_consume : locks.

Lemma lock_pp_step p : LockSpec [] (pp_step pages cipher gpu_buf p) [].
Proof. unfold pp_step, pp_process, pp_submit, pp_drain, uvm_push_wait. locks. Qed.
Hint Resolve lock_pp_step : locks.

Lemma lock_pp_run fuel p : LockSpec [] (pp_run pages cipher gpu_buf fuel p) [].
Proof. revert p. induction fuel as [|fuel IH]; intros p; cbn [pp_run]; locks. Qed.

Lemma live_pp_run fuel p : LiveSpec (pp_run pages cipher gpu_buf fuel p) (fun _ => 0).
Proof.
  revert p. induction fuel as [|fuel IH]; intros p; cbn [pp_run]; [by apply live_ret|].
  eapply live_bind; [apply live_pp_step|]. intros p'. eapply live_weaken; [apply IH|done].
Qed.

Lemma lock_pingpong db jobs : LockSpec [] (pingpong pages cipher gpu_buf db jobs) [].
Proof. unfold pingpong. cbv zeta. eapply lock_bind; [apply lock_pp_run|]. locks. Qed.

Lemma live_pingpong db jobs : LiveSpec (pingpong pages cipher gpu_buf db jobs) (fun _ => 0).
Proof. unfold pingpong. cbv zeta. eapply live_bind; [apply live_pp_run|]. intros p. by apply live_ret. Qed.

Lemma lock_worker_step w : LockSpec [] (worker_step pages cipher gpu_buf w) [].
Proof. unfold worker_step. locks. Qed.
Hint Resolve lock_worker_step : locks.

End TransferLocks.

#[export] Hint Resolve lock_pingpong lock_worker_step : locks.
#[export] Hint Resolve live_pingpong : live.

(** ** The parallel transfer *)

Section RunWorkers.
Context `{E : Env} `{G : CcGpu}.
Context (pages : list gpu_page) (cipher : bool) (gpu_buf : Z).
#[local] Notation out_ok := (out_ok pages cipher gpu_buf).
#[local] Notation worker_fn := (lm_mt_worker_fn pages cipher gpu_buf).

#[export] Instance worker_progress : Progress worker_fn.
Proof. intros w s. apply worker_step_less. Qed.

#[export] Instance worker_spec : ThreadSpec pages gpu_buf out_ok worker_fn.
Proof.
  split.
  - apply _.
  - apply _.
  - intros w out s Hwf Hcc Hi Hp Hl. by apply worker_step_spec.
  - intros w js out s s'. apply w_inv_frame.
  - intros sl s. by split_and!.
  - intros sl s. by split_and!.
  - intros w s Hm [[Hh Hpl] Hw]. change (w_measure w = 0%nat) in Hm.
    assert (w_at w = WExit) as Hat by (unfold w_measure in Hm; destruct (w_at w); lia || done).
    rewrite Hat in *. destruct Hw as [Hdb Hd]. cbn. by rewrite Hdb, Hpl.
  - intros w. apply lock_worker_step.
Qed.

Lemma run_workers_spec out sched runs n s :
  env_cc = true -> 0 <= n -> jobs_wf pages gpu_buf (make_jobs 0 runs) -> pool_inv out s -> limit_ok s ->
  wp (lm_mt_run_workers pages cipher gpu_buf sched runs n) (fun r s' =>
    pool_inv out s' /\ limit_ok s' /\ step_frame pages gpu_buf (make_jobs 0 runs) out s s' /\
    delivered out_ok (make_jobs 0 runs) (fst r) (snd r) s' /\ k_live s' = k_live s) s.
Proof.
  intros Hcc Hn Hwf Hpool Hl. unfold lm_mt_run_workers. apply wp_bind. eapply wp_mono.
  { by apply (run_threads_spec pages gpu_buf out_ok worker_fn out). }
  intros [st [[k ws]|]] s' (Hp & Hl' & Hf & Hlv & Hr); cbn [fst snd] in *; wdet; split_and!; try done.
  - destruct Hr as [_ [Hh Hd]]. split; [done|]. intros Hst. destruct (Hd Hst) as [Ho Hnt]. split; [done|].
    cbn [snd]. rewrite length_make_jobs in *. by destruct cipher.
  - destruct Hr. by apply delivered_error.
Qed.

Lemma lock_run_workers sched runs n :
  LockSpec [] (lm_mt_run_workers pages cipher gpu_buf sched runs n) [].
Proof.
  unfold lm_mt_run_workers. eapply lock_bind; [apply (lock_run_threads pages gpu_buf out_ok worker_fn)|]. locks.
Qed.

(** C33: Liveness of the thread pool: a schedule that gives each worker at least
    two turns per run of its slice and eleven more brings every worker to its end,
    whatever fails, so that the main thread waits for nothing. *)
Theorem workers_finish sched sls s :
  (forall i sl, sls !! i = Some sl -> (2 * length sl + 11 <= turns i sched)%nat) ->
  let '(ws, s1) := spawn worker_fn sls s in
  let '(ws', s2) := sys_run worker_fn sched ws s1 in
  length ws' = length sls /\ Forall (fun w => w_at w = WExit) ws' /\ sys_wait worker_fn ws' s2 = (ws', s2).
Proof.
  intros Hf. pose proof (fair_threads_finish worker_fn (fun sl => 2 * length sl + 11)%nat sched sls s) as H.
  destruct (spawn _ _ _) as [ws s1]. destruct (sys_run _ _ _ _) as [ws' s2].
  destruct H as (Hl & Hm & Hw); [intros; cbn; lia|intros; cbn; lia|done|]. split_and!; try done.
  eapply Forall_impl; [exact Hm|]. intros w. cbn. unfold w_measure. destruct (w_at w); done || lia.
Qed.
End RunWorkers.

#[export] Hint Resolve lock_run_workers : locks.
