(* ===== verification/Layout.v ===== *)
(** What a pass over a dense page array delivers as a whole.

    The page arrays of pass 1 have dense output offsets (page [k] goes to byte
    [4096 * k]).  Their coalesced runs are then independent transfers that tile
    the output: plaintext transfers amount to the bytes of the pages in order,
    encrypted transfers to a ciphertext that the metadata array decrypts, entry
    by entry, to the same bytes. *)
From S2P Require Import Prelude Kernel VaBlock ConfComputing Runs Jobs Slots Threads Transfer.

(** The array for the physical pages [phys]. *)
Definition dense (phys : list phys_address) : list gpu_page :=
  imap (fun k pa => mk_gpu_page pa (Z.of_nat k * PAGE_SIZE)) phys.

(** A physical page lies below the end of the address space. *)
Definition phys_ok (pa : phys_address) : Prop := 0 <= pa_address pa /\ pa_address pa + PAGE_SIZE < 2 ^ 64.

Lemma length_dense phys : length (dense phys) = length phys.
Proof. apply length_imap. Qed.

Lemma dense_phys phys : gp_phys <$> dense phys = phys.
Proof. unfold dense. rewrite fmap_imap. rewrite <- (list_fmap_id phys) at 2. rewrite <- imap_const. by apply imap_ext. Qed.

Lemma dense_lookup phys i p : dense phys !! i = Some p ->
  (i < length phys)%nat /\ gp_off p = Z.of_nat i * PAGE_SIZE.
Proof.
  unfold dense. rewrite list_lookup_imap. destruct (phys !! i) eqn:Hp; [|done].
  intros [= <-]. split; [by eapply lookup_lt_Some|done].
Qed.

Lemma mjoin_cons {A} (l : list A) ls : mjoin (l :: ls) = l ++ mjoin ls.
Proof. done. Qed.

Lemma make_jobs_cons base r runs :
  make_jobs base (r :: runs) = mk_job r base :: make_jobs (base + 1) runs.
Proof.
  unfold make_jobs. cbn. f_equal; [f_equal; lia|]. apply imap_ext. intros k x _. cbn. f_equal. lia.
Qed.

Section Contents.
Context `{G : CcGpu}.

(** The contents of a list of GPU pages. *)
Definition vid_pages (phys : list phys_address) : list Z :=
  mjoin ((fun pa => vid_read pa PAGE_SIZE) <$> phys).

Lemma vid_pages_app l1 l2 : vid_pages (l1 ++ l2) = vid_pages l1 ++ vid_pages l2.
Proof. unfold vid_pages. by rewrite fmap_app, join_app. Qed.

Lemma vid_read_app pa a b : 0 <= a -> 0 <= b ->
  vid_read pa (a + b) = vid_read pa a ++ vid_read (mk_phys (pa_address pa + a) (pa_aperture pa)) b.
Proof.
  intros Ha Hb. unfold vid_read; cbn. rewrite seqZ_app by done. rewrite fmap_app. f_equal.
  replace (0 + a) with (a + 0) by lia. rewrite <- fmap_add_seqZ, <- list_fmap_compose.
  apply list_fmap_ext. intros i x Hx. cbn. f_equal. lia.
Qed.

(** A chain of pages is a contiguous stretch of video memory. *)
Lemma chain_vid first ps : forall cur,
  chain first cur ps -> pa_aperture (gp_phys cur) = pa_aperture (gp_phys first) ->
  Forall phys_ok (gp_phys <$> cur :: ps) ->
  vid_read (gp_phys cur) (Z.of_nat (length (cur :: ps)) * PAGE_SIZE)
    = vid_pages (gp_phys <$> cur :: ps).
Proof.
  induction ps as [|p ps IH]; intros cur Hc Hap Hok.
  { cbn [length]. unfold vid_pages. cbn. by rewrite app_nil_r. }
  destruct Hc as [He Hc]. unfold extends in He. rewrite !andb_true_iff, !Z.eqb_eq in He.
  destruct He as [[Ha Hp] _]. apply bool_decide_eq_true in Hp.
  rewrite fmap_cons in Hok. apply Forall_cons in Hok as [[H0 H1] Hok].
  rewrite u64_small in Ha by (unfold PAGE_SIZE in *; lia).
  specialize (IH p Hc Hp Hok).
  replace (Z.of_nat (length (cur :: p :: ps)) * PAGE_SIZE)
    with (PAGE_SIZE + Z.of_nat (length (p :: ps)) * PAGE_SIZE) by (cbn [length]; lia).
  rewrite vid_read_app by (unfold PAGE_SIZE; lia).
  replace (mk_phys (pa_address (gp_phys cur) + PAGE_SIZE) (pa_aperture (gp_phys cur))) with (gp_phys p).
  - rewrite IH. done.
  - rewrite <- Ha, Hap, <- Hp. by destruct (gp_phys p).
Qed.
End Contents.

Section Runs.
Context `{E : Env} `{G : CcGpu}.
Context (phys : list phys_address) (gpu_buf mx : Z).
Context (Hok : Forall phys_ok phys).
Context (Hbuf : 0 <= gpu_buf /\ gpu_buf + Z.of_nat (length phys) * PAGE_SIZE <= 2 ^ 64).

#[local] Notation pages := (dense phys).
#[local] Notation n := (Z.of_nat (length phys)).
#[local] Notation job_addr := (job_addr pages gpu_buf).
#[local] Notation job_pa := (job_pa pages).

(** A run of the tiling and its job. *)
Record run_at (i : Z) (r : run) : Prop := {
  ra_start : rn_start r = i;
  ra_range : 0 <= i /\ i + rn_bytes r / PAGE_SIZE <= n;
  ra_pos   : 0 < rn_bytes r /\ rn_bytes r = rn_bytes r / PAGE_SIZE * PAGE_SIZE;
  ra_max   : rn_bytes r <= mx;
  ra_addr  : forall ti, 0 <= i -> job_addr (mk_job r ti) = gpu_buf + i * PAGE_SIZE;
  ra_vid   : forall ti, vid_read (job_pa (mk_job r ti)) (rn_bytes r)
               = vid_pages (gp_phys <$> run_pages pages r);
}.

Lemma run_wf_at r : 0 <= rn_start r -> run_wf mx pages r -> run_at (rn_start r) r.
Proof.
  intros H0 (Hm & [H1 H2] & p & ps & Hp & Hc & Hl). unfold PAGE_SIZE in *.
  assert (rn_bytes r = rn_bytes r / 4096 * 4096) as Hd by (pose proof (Z_div_mod_eq_full (rn_bytes r) 4096); lia).
  assert (pages !! Z.to_nat (rn_start r) = Some p) as Hlk.
  { unfold run_pages in Hp. destruct (drop _ pages) as [|q l] eqn:Hdr; [by rewrite take_nil in Hp|].
    assert (q = p) as -> by (destruct (Z.to_nat (rn_bytes r / PAGE_SIZE)); cbn in Hp; congruence).
    replace (Z.to_nat (rn_start r)) with (Z.to_nat (rn_start r) + 0)%nat by lia.
    by rewrite <- lookup_drop, Hdr. }
  destruct (dense_lookup _ _ _ Hlk) as [Hlt Hoff].
  assert (length (run_pages pages r) = length (p :: ps)) as Hlen by (by rewrite Hp).
  unfold run_pages in Hlen. rewrite length_take, length_drop, length_dense in Hlen. unfold PAGE_SIZE in Hlen.
  cbn [length] in Hl, Hlen.
  split; unfold PAGE_SIZE; [done|lia..| |].
  - intros ti _. unfold Jobs.job_addr, run_page; cbn [jb_run]. rewrite Hlk; cbn.
    rewrite Hoff, u64_small; unfold PAGE_SIZE in *; lia.
  - intros ti. unfold Jobs.job_pa, run_page; cbn [jb_run]. rewrite Hlk; cbn [default from_option id].
    rewrite Hp, <- Hl. change (Z.of_nat (S (length ps))) with (Z.of_nat (length (p :: ps))).
    apply (chain_vid p); [done|done|]. rewrite <- Hp.
    unfold run_pages. rewrite fmap_take, fmap_drop, dense_phys. apply Forall_take, Forall_drop, Hok.
Qed.

(** The pages of a tiling are the pages from its start. *)
Lemma tile_pages runs : forall i,
  0 <= i <= n -> runs_tile i n runs -> Forall (run_wf mx pages) runs ->
  Forall (fun r => run_at (rn_start r) r /\ i <= rn_start r) runs /\
  mjoin ((fun r => gp_phys <$> run_pages pages r) <$> runs) = drop (Z.to_nat i) phys.
Proof.
  induction runs as [|r runs IH]; intros i Hi Ht Hw.
  { cbn in Ht. subst i. split; [done|]. rewrite Nat2Z.id, drop_all. done. }
  destruct Ht as [Hs Ht]. apply Forall_cons in Hw as [Hr Hw].
  pose proof (run_wf_at r ltac:(lia) Hr) as Hat. destruct (ra_range _ _ Hat).
  destruct (ra_pos _ _ Hat). unfold PAGE_SIZE in *.
  assert (0 <= rn_bytes r / 4096) by lia.
  destruct (IH (i + rn_bytes r / 4096)) as [Ha Hj]; [lia|done|done|].
  split.
  - constructor; [split; [done|lia]|]. eapply Forall_impl; [exact Ha|]. intros x [? ?]. split; [done|lia].
  - rewrite fmap_cons, mjoin_cons, Hj. unfold run_pages at 1. rewrite fmap_take, fmap_drop, dense_phys.
    rewrite Z2Nat.inj_add, <- drop_drop, Hs by lia. unfold PAGE_SIZE. apply take_drop.
Qed.

(** The jobs of a tiling from page [i] write above page [i], apart from each
    other. *)
Lemma tile_jobs_wf runs : mx <= UVM_CONF_COMPUTING_DMA_BUFFER_SIZE -> forall i base,
  0 <= i <= n -> runs_tile i n runs -> Forall (run_wf mx pages) runs ->
  jobs_wf pages gpu_buf (make_jobs base runs) /\
  forall j, j ∈ make_jobs base runs ->
    base <= jb_ti j /\ gpu_buf + i * PAGE_SIZE <= job_addr j /\
    job_addr j + job_bytes j <= gpu_buf + n * PAGE_SIZE.
Proof.
  intros Hmx. induction runs as [|r runs IH]; intros i base Hi Ht Hw.
  { split; [split; [by apply NoDup_nil|intros j Hj|intros j j' Hj]|intros j Hj]; by apply elem_of_nil in Hj. }
  destruct Ht as [Hs Ht]. apply Forall_cons in Hw as [Hr Hw].
  pose proof (run_wf_at r ltac:(lia) Hr) as [Ha [H0 H1] [Hpos Heq] Hmax Haddr _].
  destruct (IH (i + rn_bytes r / PAGE_SIZE) (base + 1)) as [[Hnd Hsz Hsep] Hb];
    [unfold PAGE_SIZE in *; lia|done|done|].
  rewrite make_jobs_cons. specialize (Haddr base H0). rewrite Hs in Haddr, H1.
  assert (forall j, j ∈ make_jobs (base + 1) runs -> job_sep pages gpu_buf (mk_job r base) j) as Hhd.
  { intros j Hj. destruct (Hb j Hj) as (Hti & Hlo & _). split; [|cbn; lia].
    intros a [[_ Ha1] [_ Ha2]]. rewrite Haddr in Ha1. unfold job_bytes in *; cbn [jb_run] in *.
    unfold PAGE_SIZE in *. lia. }
  split; [split|].
  - constructor; [|done]. intros Hin. destruct (Hb _ Hin) as [Hti _]. cbn in Hti. lia.
  - intros j [->|Hj]%elem_of_cons; [unfold job_bytes; cbn; lia|auto].
  - intros j j' [->|Hj]%elem_of_cons [->|Hj']%elem_of_cons Hne; [done|auto| |auto].
    destruct (Hhd j Hj) as [Hd Ht']. split; [|congruence]. intros a [Ha1 Ha2]. by apply (Hd a).
  - intros j [->|Hj]%elem_of_cons.
    + rewrite Haddr. unfold job_bytes; cbn [jb_run jb_ti]. unfold PAGE_SIZE in *. lia.
    + destruct (Hb j Hj) as (?&?&?). unfold PAGE_SIZE in *. lia.
Qed.

(** Plaintext: the user buffer holds the pages, in order. *)
Lemma tile_plain runs s : gpu_buf <> 0 -> forall i base,
  0 <= i <= n -> runs_tile i n runs -> Forall (run_wf mx pages) runs ->
  (forall j, j ∈ make_jobs base runs -> out_ok pages false gpu_buf j s) ->
  mem_holds (k_user s) (gpu_buf + i * PAGE_SIZE) (vid_pages (drop (Z.to_nat i) phys)).
Proof.
  intros Hg. induction runs as [|r runs IH]; intros i base Hi Ht Hw Hout.
  { cbn in Ht. subst i. rewrite Nat2Z.id, drop_all. done. }
  destruct (tile_pages (r :: runs) i Hi Ht Hw) as [Hat <-].
  apply Forall_cons in Hat as [[[Ha [H0 H1] [Hpos Heq] _ Haddr Hvid] Hle] _].
  destruct Ht as [Hs Ht]. apply Forall_cons in Hw as [Hr Hw]. rewrite Hs in *.
  rewrite make_jobs_cons in Hout. rewrite fmap_cons, mjoin_cons, vid_pages_app. apply mem_holds_app.
  assert (Z.of_nat (length (vid_pages (gp_phys <$> run_pages pages r))) = rn_bytes r) as Hlen.
  { rewrite <- (Hvid base). apply length_vid_read. lia. }
  split.
  - rewrite <- (Hvid base), <- (Haddr base) by lia. apply Hout; [by left|done].
  - rewrite Hlen. replace (gpu_buf + i * PAGE_SIZE + rn_bytes r)
      with (gpu_buf + (i + rn_bytes r / PAGE_SIZE) * PAGE_SIZE) by (unfold PAGE_SIZE in *; lia).
    destruct (tile_pages runs (i + rn_bytes r / PAGE_SIZE)) as [_ ->]; [unfold PAGE_SIZE in *; lia|done|done|].
    eapply IH; [unfold PAGE_SIZE in *; lia|done|done|]. intros j Hj. apply Hout. by right.
Qed.
End Runs.

(** ** Ciphertext *)

(** A metadata entry the driver writes. *)
Record meta_ok (m : crypto_meta) : Prop := {
  mo_size : 0 < cm_size m <= UVM_CONF_COMPUTING_DMA_BUFFER_SIZE;
  mo_iv   : iv_ok (cm_iv m, cm_iv_fresh m);
  mo_ver  : 0 <= cm_key_version m < 2 ^ 32;
  mo_tag  : Z.of_nat (length (cm_auth_tag m)) = UVM_CONF_COMPUTING_AUTH_TAG_SIZE;
}.

Section Decrypt.
Context `{E : Env} `{G : CcGpu}.

(** The plaintext of consecutive transfers. *)
Fixpoint decrypt_all (metas : list crypto_meta) (c : list Z) : option (list Z) :=
  match metas with
  | [] => Some []
  | m :: ms =>
      let k := Z.to_nat (cm_size m) in
      match csl_decrypt (cm_key_version m) (cm_iv m, cm_iv_fresh m) (take k c) (cm_auth_tag m),
            decrypt_all ms (drop k c) with
      | Some p, Some ps => Some (p ++ ps)
      | _, _ => None
      end
  end.

(** [metas] are the entries of [crypto_meta_buf] from [base] on. *)
Definition metas_at (base : Z) (metas : list crypto_meta) (s : kst) : Prop :=
  forall k m, metas !! k = Some m -> k_meta s !! (base + Z.of_nat k) = Some m.

Context (phys : list phys_address) (gpu_buf mx : Z).
Context (Hok : Forall phys_ok phys).
Context (Hbuf : 0 <= gpu_buf /\ gpu_buf + Z.of_nat (length phys) * PAGE_SIZE <= 2 ^ 64).
Context (Hmx : mx <= UVM_CONF_COMPUTING_DMA_BUFFER_SIZE).

#[local] Notation pages := (dense phys).
#[local] Notation n := (Z.of_nat (length phys)).

(** What the pages from [i] on come out as: a ciphertext with metadata from
    entry [base] on, which decrypt to the pages; the ciphertext is in the user
    buffer when there is one. *)
Definition cipher_out (i base : Z) (nr : nat) (s : kst) : Prop :=
  exists metas c, length metas = nr /\ metas_at base metas s /\ Forall meta_ok metas /\
    decrypt_all metas c = Some (vid_pages (drop (Z.to_nat i) phys)) /\
    Z.of_nat (length c) = (n - i) * PAGE_SIZE /\
    foldr Z.add 0 (cm_size <$> metas) = (n - i) * PAGE_SIZE /\
    (gpu_buf <> 0 -> mem_holds (k_user s) (gpu_buf + i * PAGE_SIZE) c).

Lemma tile_cipher runs s : forall i base,
  0 <= i <= n -> runs_tile i n runs -> Forall (run_wf mx pages) runs ->
  (forall j, j ∈ make_jobs base runs -> out_ok pages true gpu_buf j s) ->
  cipher_out i base (length runs) s.
Proof.
  induction runs as [|r runs IH]; intros i base Hi Ht Hw Hout.
  { cbn in Ht. subst i. exists [], []. rewrite Nat2Z.id, drop_all. split_and!; try done; cbn; lia. }
  destruct (tile_pages phys gpu_buf mx Hok Hbuf (r :: runs) i Hi Ht Hw) as [Hat Hd].
  apply Forall_cons in Hat as [[[Ha [H0 H1] [Hpos Heq] Hle Haddr Hvid] _] _].
  destruct Ht as [Hs Ht]. apply Forall_cons in Hw as [Hr Hw]. rewrite Hs in *.
  rewrite make_jobs_cons in Hout. unfold PAGE_SIZE in *.
  destruct (IH (i + rn_bytes r / 4096) (base + 1)) as (metas & c & Hl & Hm & Hmo & Hdec & Hlc & Hsum & Hmem);
    [lia|done|done|intros j Hj; apply Hout; by right|].
  destruct (Hout (mk_job r base)) as (c0 & (m & Hm0 & Hsz & Hd0 & Hl0 & Htag & Hiv & Hkv) & Hmem0); [by left|].
  unfold PAGE_SIZE, job_bytes in *; cbn [jb_run jb_ti] in *. specialize (Haddr base H0).
  rewrite (Hvid base) in Hd0.
  unfold cipher_out, PAGE_SIZE. exists (m :: metas), (c0 ++ c). split_and!.
  - cbn. by rewrite Hl.
  - intros [|k] m'; cbn [lookup list_lookup].
    + intros [= <-]. by rewrite Z.add_0_r.
    + intros Hk. apply Hm in Hk. by replace (base + Z.of_nat (S k)) with (base + 1 + Z.of_nat k) by lia.
  - constructor; [|done]. split; [lia|done..].
  - cbn [decrypt_all]. rewrite Hsz. rewrite take_app_length' by lia. rewrite drop_app_length' by lia.
    rewrite Hd0, Hdec, <- Hd, fmap_cons, mjoin_cons, vid_pages_app.
    destruct (tile_pages phys gpu_buf mx Hok Hbuf runs (i + rn_bytes r / 4096)) as [_ <-]; [lia|done..].
  - rewrite length_app. lia.
  - rewrite fmap_cons. cbn [foldr]. rewrite Hsum. lia.
  - intros Hg. apply mem_holds_app. rewrite <- Haddr. split; [by apply Hmem0|]. rewrite Haddr, Hl0.
    replace (gpu_buf + i * 4096 + rn_bytes r) with (gpu_buf + (i + rn_bytes r / 4096) * 4096) by lia. auto.
Qed.
End Decrypt.

(** ** The output of a whole transfer *)

Section Output.
Context `{E : Env} `{G : CcGpu}.
Context (phys : list phys_address) (gpu_buf mx : Z).
#[local] Notation pages := (dense phys).
#[local] Notation n := (Z.of_nat (length phys)).

(** The arguments of the second pass: runs that tile the dense array of [phys],
    none larger than a DMA buffer, and room for the output. *)
Record transfer_args (runs : list run) : Prop := {
  ta_phys : Forall phys_ok phys;
  ta_buf  : 0 <= gpu_buf /\ gpu_buf + n * PAGE_SIZE <= 2 ^ 64;
  ta_mx   : mx <= UVM_CONF_COMPUTING_DMA_BUFFER_SIZE;
  ta_tile : runs_tile 0 n runs;
  ta_runs : Forall (run_wf mx pages) runs;
}.

(** The output when the status is good. *)
Definition transferred (cipher : bool) (nr : nat) (s : kst) : Prop :=
  if cipher then cipher_out phys gpu_buf 0 0 nr s
  else gpu_buf <> 0 -> mem_holds (k_user s) gpu_buf (vid_pages phys).

(** User memory outside the output is kept. *)
Definition outside_kept (s s' : kst) : Prop :=
  forall a, ~ (gpu_buf <> 0 /\ gpu_buf <= a < gpu_buf + n * PAGE_SIZE) -> k_user s' !! a = k_user s !! a.

Lemma transfer_jobs_wf runs : transfer_args runs -> jobs_wf pages gpu_buf (make_jobs 0 runs).
Proof. intros [H1 H2 H3 H4 H5]. by apply (tile_jobs_wf phys gpu_buf mx H1 H2 runs H3 0 0); [lia|..]. Qed.

Lemma transfer_outside runs out s s' :
  transfer_args runs -> step_frame pages gpu_buf (make_jobs 0 runs) out s s' -> outside_kept s s'.
Proof.
  intros [H1 H2 H3 H4 H5] (Hu & _) a Ha. apply Hu. intros j Hj [Hg Hr]. apply Ha. split; [done|].
  destruct (tile_jobs_wf phys gpu_buf mx H1 H2 runs H3 0 0) as [_ Hb]; [lia|done..|].
  destruct (Hb j Hj) as (_ & Hlo & Hhi). lia.
Qed.

Lemma transfer_output cipher runs st nt s :
  transfer_args runs -> delivered (out_ok pages cipher gpu_buf) (make_jobs 0 runs) st nt s ->
  st = NV_OK -> nt = Z.of_nat (length runs) /\ transferred cipher (length runs) s.
Proof.
  intros [H1 H2 H3 H4 H5] [_ Hd] Hst. destruct (Hd Hst) as [Ho ->]. rewrite length_make_jobs.
  split; [done|]. unfold transferred. destruct cipher.
  - by apply (tile_cipher phys gpu_buf mx H1 H2 H3); [lia|..].
  - intros Hg. pose proof (tile_plain phys gpu_buf mx H1 H2 runs s Hg 0 0) as H.
    rewrite Z.mul_0_l, Z.add_0_r, drop_0 in H. by apply H; [lia|..].
Qed.

(** C25: lm_mt_run_workers refines one abstract transfer whatever the interleaving
    of its threads and whatever fails: buffers go back to the pool, no lock or
    allocation is left, memory outside the output is untouched, and a good status
    means every page of every run was delivered (as plaintext, or as ciphertext
    with metadata that decrypts to it); without failures the status is good. *)
Theorem run_workers_correct sched cipher runs num_threads out s :
  env_cc = true -> 0 <= num_threads -> transfer_args runs -> pool_inv out s -> limit_ok s ->
  k_locks s = [] -> k_lock_bug s = false ->
  let '(st, nt, s') := lm_mt_run_workers pages cipher gpu_buf sched runs num_threads s in
  (HealthyEnv E -> st = NV_OK) /\ pool_inv out s' /\ k_locks s' = [] /\ k_lock_bug s' = false /\
  k_live s' = k_live s /\ outside_kept s s' /\
  (st = NV_OK -> nt = Z.of_nat (length runs) /\ transferred cipher (length runs) s').
Proof.
  intros Hcc Hn Ha Hpool Hl Hlk Hlb.
  pose proof (run_workers_spec pages cipher gpu_buf out sched runs num_threads s Hcc Hn
    (transfer_jobs_wf _ Ha) Hpool Hl) as H.
  destruct (lock_run_workers pages cipher gpu_buf sched runs num_threads s Hlk Hlb) as [Hk Hb].
  unfold wp in H. destruct (lm_mt_run_workers _ _ _ _ _ _ _) as [[st nt] s']; cbn [fst snd] in *.
  destruct H as (Hp & _ & Hf & Hd & Hlv). split_and!; try done.
  - apply Hd.
  - by eapply transfer_outside.
  - by eapply transfer_output.
Qed.

(** C26: The sequential loop on two DMA buffers refines the same abstract
    transfer: with a good status every page of every run was delivered in the
    right place, memory outside the output is untouched, and both buffers are back
    with the caller. *)
Theorem pingpong_correct cipher runs b0 b1 out s :
  env_cc = true -> transfer_args runs -> pool_inv (b1 :: b0 :: out) s -> limit_ok s ->
  let '(st, nt, s') := pingpong pages cipher gpu_buf (b0, b1) (make_jobs 0 runs) s in
  (HealthyEnv E -> st = NV_OK) /\ pool_inv (b1 :: b0 :: out) s' /\ outside_kept s s' /\
  (st = NV_OK -> nt = Z.of_nat (length runs) /\ transferred cipher (length runs) s').
Proof.
  intros Hcc Ha Hpool Hl.
  pose proof (pingpong_spec pages cipher gpu_buf _ out b0 b1 s (transfer_jobs_wf _ Ha) Hcc Hpool Hl) as H.
  unfold wp in H. destruct (pingpong _ _ _ _ _ s) as [[st nt] s']; cbn [fst snd] in *.
  destruct H as (Hp & _ & Hf & Hd). split_and!; try done.
  - apply Hd.
  - by eapply transfer_outside.
  - by eapply transfer_output.
Qed.
End Output.
