(* ===== verification/Meta.v ===== *)
(** The metadata array as user space sees it: the packed 41-byte entries of
    [UVM_LIVE_MIGRATION_PAGE_CRYPTO_META] that ioctls 111, 113, 115 and 116 copy
    out and ioctl 112 copies in. *)
From S2P Require Import Prelude Kernel VaBlock ConfComputing Runs Pass1 Layout.

(** A fixed-size byte array field: [k] bytes. *)
Definition fixed (k : nat) (bs : list Z) : list Z := take k (bs ++ replicate k 0).

Definition meta_zero : crypto_meta := mk_crypto_meta 0 (replicate 12 0) 0 (replicate 16 0) 0.

(** The bytes of an entry, in the order of its fields, and the entry read back. *)
Definition encode_meta (m : crypto_meta) : list Z :=
  le_bytes 8 (cm_size m) ++ fixed 12 (cm_iv m) ++ le_bytes 1 (cm_iv_fresh m) ++
  fixed 16 (cm_auth_tag m) ++ le_bytes 4 (cm_key_version m).

Definition decode_meta (bs : list Z) : crypto_meta :=
  mk_crypto_meta (le_value (take 8 bs)) (take 12 (drop 8 bs)) (le_value (take 1 (drop 20 bs)))
    (take 16 (drop 21 bs)) (le_value (take 4 (drop 37 bs))).

(** The array. *)
Definition encode_metas (ms : list crypto_meta) : list Z := mjoin (encode_meta <$> ms).

Fixpoint decode_metas (n : nat) (bs : list Z) : list crypto_meta :=
  match n with
  | O => []
  | S n' => decode_meta (take 41 bs) :: decode_metas n' (drop 41 bs)
  end.

Lemma length_fixed k bs : length (fixed k bs) = k.
Proof. unfold fixed. rewrite length_take, length_app, length_replicate. lia. Qed.

Lemma fixed_id k bs : length bs = k -> fixed k bs = bs.
Proof. intros <-. unfold fixed. by rewrite take_app_length. Qed.

Lemma length_encode_meta m : length (encode_meta m) = 41%nat.
Proof. unfold encode_meta. rewrite !length_app, !length_le_bytes, !length_fixed. done. Qed.

Lemma length_encode_metas ms : length (encode_metas ms) = (41 * length ms)%nat.
Proof.
  unfold encode_metas. induction ms as [|m ms IH]; [done|].
  rewrite fmap_cons, mjoin_cons, length_app, length_encode_meta, IH. cbn. lia.
Qed.

(** A field of a concatenation. *)
Lemma take_drop_app {A} (a b c : list A) i k :
  length a = i -> length b = k -> take k (drop i (a ++ b ++ c)) = b.
Proof. intros <- <-. by rewrite drop_app_length, take_app_length. Qed.

Lemma decode_encode_meta m : meta_ok m -> decode_meta (encode_meta m) = m.
Proof.
  intros [[Hs1 Hs2] [Hi Hf] [Hv1 Hv2] Ht]. unfold UVM_CONF_COMPUTING_DMA_BUFFER_SIZE, UVM_VA_BLOCK_SIZE,
    UVM_CONF_COMPUTING_AUTH_TAG_SIZE in *. cbn in Hi, Hf.
  unfold encode_meta. rewrite !fixed_id by lia. unfold decode_meta.
  set (a := le_bytes 8 (cm_size m)). set (f := le_bytes 1 _). set (v := le_bytes 4 _).
  assert (length a = 8%nat) as Ha by apply length_le_bytes.
  assert (length f = 1%nat) as Hlf by apply length_le_bytes.
  assert (length v = 4%nat) as Hlv by apply length_le_bytes.
  rewrite take_app_length' by done.
  rewrite (take_drop_app a) by done.
  rewrite (app_assoc a), (take_drop_app (a ++ cm_iv m)) by (rewrite ?length_app; lia).
  rewrite (app_assoc (a ++ cm_iv m)), (take_drop_app ((a ++ cm_iv m) ++ f)) by (rewrite ?length_app; lia).
  rewrite (app_assoc ((a ++ cm_iv m) ++ f)), <- (app_nil_r v),
    (take_drop_app (((a ++ cm_iv m) ++ f) ++ cm_auth_tag m)) by (rewrite ?length_app; lia).
  subst a f v. rewrite !le_value_bytes by (cbn; lia). by destruct m.
Qed.

(** Reading back what was copied out. *)
Lemma decode_encode_metas ms bs : Forall meta_ok ms ->
  decode_metas (length ms) (encode_metas ms ++ bs) = ms.
Proof.
  induction 1 as [|m ms Hm _ IH]; [done|]. unfold encode_metas in *. rewrite fmap_cons, mjoin_cons.
  cbn [length decode_metas]. rewrite <- app_assoc.
  rewrite take_app_length', drop_app_length' by (by rewrite length_encode_meta).
  rewrite decode_encode_meta by done.
  f_equal. apply IH.
Qed.

(** The packed metadata array has 41 bytes per entry, and entries the driver
    writes are read back unchanged from it. *)
Theorem crypto_meta_roundtrip ms bs : Forall meta_ok ms ->
  length (encode_metas ms) = (41 * length ms)%nat /\
  decode_metas (length ms) (encode_metas ms ++ bs) = ms.
Proof. intros H. split; [apply length_encode_metas|by apply decode_encode_metas]. Qed.
