(* ===== verification/ReadIoctls.v ===== *)
(** The single-threaded checkpoint reads: [read_gpu_physical_memory] and ioctls
    109 (plaintext), 111 and 113 (ciphertext with metadata) of
    [uvm_live_migration.c].

    The handlers share their shape: argument checks, buffers, pass 1 under the
    locks, pass 2 serially or on two DMA buffers, the copies of the residency map
    and the metadata, and the release of everything on one exit path. *)
From S2P Require Import Prelude Kernel VaBlock ConfComputing Runs Pass1 Jobs Slots Threads Transfer Layout Meta.

(** The IN fields of the parameter structs of ioctls 109 to 116. *)
Record read_params := mk_read_params {
  rp_base             : Z;
  rp_length           : Z;
  rp_cpu_buf          : Z;
  rp_gpu_buf          : Z;
  rp_residency_map    : Z;
  rp_crypto_meta      : Z;
  rp_crypto_meta_size : Z;
  rp_num_threads      : Z;
  rp_gpu_uuid         : list Z;
}.

(** The OUT fields, [None] where the handler leaves them alone. *)
Record read_outs := mk_read_outs {
  ro_cpu_bytes     : option Z;
  ro_gpu_bytes     : option Z;
  ro_num_pages     : option Z;
  ro_num_transfers : option Z;
  ro_rmStatus      : option nv_status;
}.

Definition no_outs : read_outs := mk_read_outs None None None None None.
Definition only_status (st : nv_status) : read_outs := mk_read_outs None None None None (Some st).

Definition bad_args (p : read_params) : bool :=
  (rp_length p =? 0) || negb (rp_length p mod PAGE_SIZE =? 0) || negb (rp_base p mod PAGE_SIZE =? 0)
  || (rp_residency_map p =? 0).

Definition n_pages (p : read_params) : Z := rp_length p / PAGE_SIZE.

(** [resmap], [gpu_pages] and [crypto_meta_buf], when allocated. *)
Definition read_bufs : Type := bool * bool * bool.

Section ReadIoctls.
Context `{E : Env} `{G : CcGpu}.

(** ** Reading GPU memory *)

(** The staging buffer is an allocation of the memory manager, which reports a
    status of its own. *)
Definition uvm_mem_alloc_sysmem_and_map_cpu_kernel : K nv_status :=
  status ← ext_status;
  (if is_ok status then kmod (fun s => set_live (k_live s + 1) s) else kret tt) ;;
  kret status.
Definition uvm_mem_free : K unit := kfree true.

(** The copy engine writes the staging buffer, whose allocation, kernel
    address and GPU mapping may each fail. *)
Definition read_gpu_physical_memory (pa : phys_address) (size : Z) : K (nv_status * list Z) :=
  if env_cc then uvm_conf_computing_util_memcopy_gpu_to_cpu pa size else
  status ← uvm_mem_alloc_sysmem_and_map_cpu_kernel;
  if negb (is_ok status) then kret (status, []) else
  va ← tick;                            (* uvm_mem_get_cpu_addr_kernel *)
  r ← (if negb (env_alloc_ok va) then kret (NV_ERR_INVALID_ADDRESS, []) else
       status ← ext_status;             (* uvm_mem_map_gpu_phys *)
       if negb (is_ok status) then kret (status, []) else
       '(status, chan) ← uvm_push_begin;
       if negb (is_ok status) then kret (status, []) else
       uvm_push_end chan ;;
       status ← uvm_push_wait;
       if negb (is_ok status) then kret (status, []) else kret (NV_OK, vid_read pa size));
  uvm_mem_free ;;
  kret r.

Definition meta_get (s : kst) (ti : Z) : crypto_meta := default meta_zero (k_meta s !! ti).
Definition meta_put (ti : Z) (m : crypto_meta) (s : kst) : kst := set_meta (<[ti := m]> (k_meta s)) s.

(** [meta_out] is entry [ti] of [crypto_meta_buf]. *)
Definition read_gpu_physical_memory_encrypted (pa : phys_address) (size ti : Z)
    : K (nv_status * list Z) :=
  if negb env_cc then kmod (meta_put ti meta_zero) ;; read_gpu_physical_memory pa size else
  '(status, r) ← uvm_conf_computing_util_memcopy_gpu_to_cpu_encrypted pa size;
  match r with
  | None => kret (status, [])
  | Some (cipher, auth_tag, iv, key_version) =>
      kmod (fun s => meta_put ti (mk_crypto_meta (cm_size (meta_get s ti)) (take 12 (fst iv)) (snd iv)
                                    auth_tag key_version) s) ;;
      kret (NV_OK, cipher)
  end.

(** ** Buffers *)

Definition alloc_bufs (meta : bool) (n : Z) : K (nv_status * read_bufs) :=
  resmap ← kvmalloc_array n 1;
  if negb resmap then kret (NV_ERR_NO_MEMORY, (false, false, false)) else
  gpu_pages ← kvmalloc_array (Z.min n 512) SIZEOF_GPU_PAGE;
  if negb gpu_pages then kret (NV_ERR_NO_MEMORY, (true, false, false)) else
  if negb meta then kret (NV_OK, (true, true, false)) else
  crypto_meta_buf ← kvmalloc_array (Z.min n 512) SIZEOF_CRYPTO_META;
  kmod (set_meta ∅) ;;
  kret (if crypto_meta_buf : bool then NV_OK else NV_ERR_NO_MEMORY, (true, true, crypto_meta_buf)).

Definition free_bufs (b : read_bufs) : K unit :=
  let '(resmap, gpu_pages, crypto_meta_buf) := b in
  kfree resmap ;; kfree gpu_pages ;; kfree crypto_meta_buf.

(** ** Pass 2 *)

(** Without confidential computing: one transfer after the other; status and
    [num_transfers].  One unit of fuel per run. *)
Fixpoint serial_loop (enc : bool) (gpu_buf max_transfer : Z) (fuel : nat) (pages : list gpu_page)
    (nt : Z) : K (nv_status * Z) :=
  match fuel, pages with
  | S fuel', p :: rest =>
      let '(rb, rest') := extend_run max_transfer p p PAGE_SIZE rest in
      '(status, bb) ← (if enc then read_gpu_physical_memory_encrypted (gp_phys p) rb nt
                       else read_gpu_physical_memory (gp_phys p) rb);
      if negb (is_ok status) then kret (status, nt) else
      (if enc then kmod (fun s => let m := meta_get s nt in
         meta_put nt (mk_crypto_meta rb (cm_iv m) (cm_iv_fresh m) (cm_auth_tag m) (cm_key_version m)) s)
       else kret tt) ;;
      fault ← (if gpu_buf =? 0 then kret false else copy_to_user (u64 (gpu_buf + gp_off p)) bb);
      if fault : bool then kret (NV_ERR_INVALID_ARGUMENT, nt)
      else serial_loop enc gpu_buf max_transfer fuel' rest' (nt + 1)
  | _, _ => kret (NV_OK, nt)
  end.

(** Without a 2MB buffer, [page_buf] serves, page by page. *)
Definition pass2_serial (enc : bool) (gpu_buf : Z) (pages : list gpu_page) : K (nv_status * Z) :=
  bb ← kmalloc;
  let max_transfer := if bb : bool then (if env_cc then UVM_CONF_COMPUTING_DMA_BUFFER_SIZE
                                         else 2 * 1024 * 1024) else PAGE_SIZE in
  r ← serial_loop enc gpu_buf max_transfer (length pages) pages 0;
  kfree bb ;;
  kret r.

(** With it: runs on two DMA buffers; plaintext needs [plain_buf] for the
    decryption. *)
Definition pass2_cc (enc : bool) (gpu_buf : Z) (pages : list gpu_page) : K (nv_status * Z) :=
  plain_buf ← (if enc then kret false else kmalloc);
  if negb enc && negb plain_buf then kret (NV_ERR_NO_MEMORY, 0) else
  '(status, b0) ← uvm_conf_computing_dma_buffer_alloc;
  match b0 with
  | None => kfree plain_buf ;; kret (status, 0)
  | Some b0 =>
      '(status, b1) ← uvm_conf_computing_dma_buffer_alloc;
      match b1 with
      | None => uvm_conf_computing_dma_buffer_free (Some b0) ;; kfree plain_buf ;; kret (status, 0)
      | Some b1 =>
          '(status, runs, rc) ← lm_mt_build_runs pages UVM_CONF_COMPUTING_DMA_BUFFER_SIZE;
          r ← (if negb (is_ok status) then kret (status, 0) else
               r ← pingpong pages enc gpu_buf (b0, b1) (make_jobs 0 runs);
               kfree_runs rc ;; kret r);
          uvm_conf_computing_dma_buffer_free (Some b0) ;;
          uvm_conf_computing_dma_buffer_free (Some b1) ;;
          kfree plain_buf ;;
          kret r
      end
  end.

(** The mode: serial unless there is a GPU and confidential computing. *)
Definition pass2 (serial cc : Z -> list gpu_page -> K (nv_status * Z)) (gpu : option Z) (gpu_buf : Z)
    (pages : list gpu_page) : K (nv_status * Z) :=
  match gpu with
  | Some _ => if env_cc then cc gpu_buf pages else serial gpu_buf pages
  | None => serial gpu_buf pages
  end.

(** Pass 1 on the arguments of a call. *)
Definition walk_pages (grow_meta dirty_only : bool) (p : read_params) (spaces : list va_space)
    : K (nv_status * pass1_locals * option Z) :=
  pass1 grow_meta dirty_only (rp_base p) (rp_length p) (rp_cpu_buf p) (rp_gpu_uuid p) spaces
    (pass1_start (n_pages p)).

(** The passes as each handler has them, written out in its body. *)
Definition r109_pass1  := walk_pages false false.
Definition r109_serial := pass2_serial false.
Definition r109_cc     := pass2_cc false.
Definition r111_pass1  := walk_pages true false.
Definition r111_serial := pass2_serial true.
Definition r111_cc     := pass2_cc true.
Definition r113_pass1  := walk_pages true false.
Definition r113_serial := pass2_serial true.
Definition r113_cc     := pass2_cc true.

(** ** Results *)

Definition copy_residency_map (p : read_params) (resmap : list Z) : K nv_status :=
  fault ← copy_to_user (rp_residency_map p) resmap;
  kret (if fault : bool then NV_ERR_INVALID_ARGUMENT else NV_OK).

(** The first [nt] entries of [crypto_meta_buf]. *)
Definition metas_of (nt : Z) (s : kst) : list crypto_meta := meta_get s <$> seqZ 0 nt.

Definition copy_crypto_meta (p : read_params) (nt : Z) : K nv_status :=
  if (0 <? nt) && negb (rp_crypto_meta p =? 0) then
    let meta_bytes := u64 (nt * SIZEOF_CRYPTO_META) in
    if rp_crypto_meta_size p <? meta_bytes then kret NV_ERR_INVALID_ARGUMENT else
    ms ← kget (metas_of nt);
    fault ← copy_to_user (rp_crypto_meta p) (encode_metas ms);
    kret (if fault : bool then NV_ERR_INVALID_ARGUMENT else NV_OK)
  else kret NV_OK.

Definition copies_out (enc : bool) (p : read_params) (resmap : list Z) (nt : Z) : K nv_status :=
  status ← copy_residency_map p resmap;
  if negb (is_ok status) then kret status else
  if enc then copy_crypto_meta p nt else kret NV_OK.

(** A handler from pass 1 on: the pass [P1], the transfer [T] with its status, number of transfers and capacity of the run arrays it leaves, the
    copies, and the release of those arrays.  Status, locals of pass 1 and
    number of transfers. *)
Definition read_body (enc : bool) (P1 : K (nv_status * pass1_locals * option Z))
    (T : option Z -> pass1_locals -> K (nv_status * Z * Z)) (p : read_params)
    : K (nv_status * pass1_locals * Z) :=
  '(status, l, gpu) ← P1;
  if negb (is_ok status) then kret (status, l, 0) else
  '(status, nt, rc) ← T gpu l;
  status ← (if negb (is_ok status) then kret status else copies_out enc p (p1_resmap l) nt);
  kfree_runs rc ;;
  kret (status, l, nt).

(** The buffers around the body, and the OUT fields from its results. *)
Definition with_bufs (meta : bool) (body : K (nv_status * pass1_locals * Z))
    (outs : nv_status -> pass1_locals -> Z -> read_outs) (p : read_params) : K (nv_status * read_outs) :=
  page_buf ← kmalloc;
  if negb page_buf then kret (NV_ERR_NO_MEMORY, no_outs) else
  '(status, bufs) ← alloc_bufs meta (n_pages p);
  '(status, l, nt) ← (if negb (is_ok status) then kret (status, pass1_start (n_pages p), 0) else body);
  kfree page_buf ;;
  free_bufs bufs ;;
  kret (status, outs status l nt).

(** Pass 2 of the single-threaded handlers as a transfer: the run arrays do not
    outlive it. *)
Definition pass2_transfer (serial cc : Z -> list gpu_page -> K (nv_status * Z)) (p : read_params)
    (gpu : option Z) (l : pass1_locals) : K (nv_status * Z * Z) :=
  '(status, nt) ← pass2 serial cc gpu (rp_gpu_buf p) (p1_pages l); kret (status, nt, 0).

Definition read_handler (enc : bool)
    (walk : read_params -> list va_space -> K (nv_status * pass1_locals * option Z))
    (serial cc : Z -> list gpu_page -> K (nv_status * Z))
    (outs : nv_status -> pass1_locals -> Z -> read_outs)
    (p : read_params) (spaces : list va_space) : K (nv_status * read_outs) :=
  if negb env_capable then kret (NV_ERR_INSUFFICIENT_PERMISSIONS, no_outs) else
  if bad_args p then kret (NV_ERR_INVALID_ARGUMENT, no_outs) else
  with_bufs enc (read_body enc (walk p spaces) (pass2_transfer serial cc p) p) outs p.

(** ** The handlers *)

(** Ioctl 109 sets its byte counts whatever the status. *)
Definition uvm_api_live_migration_read_pages_resident (p : read_params) (spaces : list va_space)
    : K (nv_status * read_outs) :=
  read_handler false r109_pass1 r109_serial r109_cc (fun st l _ =>
    mk_read_outs (Some (p1_cpu_off l)) (Some (p1_gpu_off l)) (Some (n_pages p)) None (Some st)) p spaces.

(** Ioctl 111 too; [num_transfers] only on success. *)
Definition uvm_api_live_migration_read_pages_resident_encrypted (p : read_params) (spaces : list va_space)
    : K (nv_status * read_outs) :=
  read_handler true r111_pass1 r111_serial r111_cc (fun st l nt =>
    mk_read_outs (Some (p1_cpu_off l)) (Some (p1_gpu_off l)) (Some (n_pages p))
      (if is_ok st then Some nt else None) (Some st)) p spaces.

(** Ioctl 113 sets everything but the status on success only. *)
Definition uvm_api_live_migration_read_pages_resident_encrypted_v2 (p : read_params) (spaces : list va_space)
    : K (nv_status * read_outs) :=
  read_handler true r113_pass1 r113_serial r113_cc (fun st l nt =>
    if is_ok st then mk_read_outs (Some (p1_cpu_off l)) (Some (p1_gpu_off l)) (Some (n_pages p))
                       (Some nt) (Some st)
    else only_status st) p spaces.
End ReadIoctls.

(** ** Locks and allocations *)

Section ReadResources.
Context `{E : Env} `{G : CcGpu}.

Lemma live_mem_alloc : LiveSpec uvm_mem_alloc_sysmem_and_map_cpu_kernel (fun st => if is_ok st then 1 else 0).
Proof.
  intros s. unfold uvm_mem_alloc_sysmem_and_map_cpu_kernel, ext_status, kbind, tick, kret, kmod; cbn.
  destruct (is_ok _) eqn:Hs; cbn; rewrite Hs; lia.
Qed.
Hint Resolve live_mem_alloc : live.

Lemma lock_read_gpu pa size : LockSpec [] (read_gpu_physical_memory pa size) [].
Proof.
  unfold read_gpu_physical_memory, uvm_mem_alloc_sysmem_and_map_cpu_kernel, uvm_mem_free, uvm_push_wait. locks.
Qed.
Lemma live_read_gpu pa size : LiveSpec (read_gpu_physical_memory pa size) (fun _ => 0).
Proof.
  unfold read_gpu_physical_memory, uvm_mem_free, uvm_push_wait. destruct env_cc; [apply live_memcopy|].
  eapply live_bind; [apply live_mem_alloc|]. intros st. cbv beta.
  destruct (is_ok st) eqn:Hst; cbn [negb]; [|by apply live_ret].
  eapply live_bind; [apply live_tick|]. intros va.
  apply (live_bind _ _ (fun _ => 0)); [live0|]. intros r. live.
Qed.
Hint Resolve lock_read_gpu : locks.
Hint Resolve live_read_gpu : live.

Lemma lock_read_gpu_encrypted pa size ti :
  LockSpec [] (read_gpu_physical_memory_encrypted pa size ti) [].
Proof. unfold read_gpu_physical_memory_encrypted. locks. Qed.
Lemma live_read_gpu_encrypted pa size ti :
  LiveSpec (read_gpu_physical_memory_encrypted pa size ti) (fun _ => 0).
Proof. unfold read_gpu_physical_memory_encrypted. live0. Qed.
Hint Resolve lock_read_gpu_encrypted : locks.
Hint Resolve live_read_gpu_encrypted : live.

Lemma lock_serial_loop enc gb mx fuel : forall pages nt,
  LockSpec [] (serial_loop enc gb mx fuel pages nt) [].
Proof.
  induction fuel as [|fuel IH]; intros [|p rest] nt; cbn [serial_loop]; try apply lock_ret.
  destruct (extend_run _ _ _ _ _) as [rb rest']. locks.
Qed.
Lemma live_serial_loop enc gb mx fuel : forall pages nt,
  LiveSpec (serial_loop enc gb mx fuel pages nt) (fun _ => 0).
Proof.
  induction fuel as [|fuel IH]; intros [|p rest] nt; cbn [serial_loop]; try by apply live_ret.
  destruct (extend_run _ _ _ _ _) as [rb rest']. live0.
Qed.
Hint Resolve lock_serial_loop : locks.
Hint Resolve live_serial_loop : live.

Lemma lock_pass2 enc gpu gb pages : LockSpec [] (pass2 (pass2_serial enc) (pass2_cc enc) gpu gb pages) [].
Proof. unfold pass2, pass2_serial, pass2_cc, kfree_runs. locks. Qed.
Hint Resolve lock_pass2 : locks.

Lemma live_build_runs pages mx : LiveSpec (lm_mt_build_runs pages mx)
  (fun r => if is_ok (fst (fst r)) then runs_live (snd r) else 0).
Proof.
  intros s. pose proof (lm_mt_build_runs_correct pages mx s) as H. unfold wp in H.
  destruct (lm_mt_build_runs pages mx s) as [[[st runs] rc] s']; cbn in *.
  destruct H as [[(->&_&_&Hk)|(->&_&->&Hk)] _]; change (runs_live 0) with 0 in Hk;
    [rewrite is_ok_NV_OK|rewrite (proj2 (is_ok_false _)) by done]; lia.
Qed.

Lemma live_kfree_runs rc : LiveSpec (kfree_runs rc) (fun _ => - runs_live rc).
Proof. unfold kfree_runs, runs_live. intros s. destruct (0 <? rc); cbn; lia. Qed.

Lemma live_pass2_cc enc gb pages : LiveSpec (pass2_cc enc gb pages) (fun _ => 0).
Proof.
  unfold pass2_cc. apply (live_bind _ _ Z.b2z).
  { destruct enc; cbn; [by apply live_ret|]. eapply live_weaken; [apply live_kmalloc|by intros []]. }
  intros pb. destruct enc, pb; cbn [negb andb Z.b2z]; try (by apply live_ret).
  all: eapply live_bind; [apply live_alloc|]; intros [st [b0|]]; [|live].
  all: eapply live_bind; [apply live_alloc|]; intros [st1 [b1|]]; [|live].
  all: eapply live_bind; [apply live_build_runs|]; intros [[st2 runs] rc]; cbn [fst snd].
  all: apply (live_bind _ _ (fun _ => - (if is_ok st2 then runs_live rc else 0))); [|intros r; live].
  all: destruct (is_ok st2); cbn [negb]; [|by apply live_ret].
  all: eapply live_bind; [apply live_pingpong|]; intros r;
    eapply live_bind; [apply live_kfree_runs|]; intros; apply live_ret; lia.
Qed.

Lemma live_pass2 enc gpu gb pages : LiveSpec (pass2 (pass2_serial enc) (pass2_cc enc) gpu gb pages) (fun _ => 0).
Proof.
  assert (LiveSpec (pass2_serial enc gb pages) (fun _ => 0)) as Hs.
  { unfold pass2_serial. eapply live_bind; [apply live_kmalloc|]. intros p. cbv zeta.
    apply (live_bind _ _ (fun _ => 0)); [apply live_serial_loop|]. intros r. destruct p; live. }
  unfold pass2. destruct gpu; [destruct env_cc; [apply live_pass2_cc|]|]; apply Hs.
Qed.
Hint Resolve live_pass2 : live.

Lemma lock_copies_out enc p m nt : LockSpec [] (copies_out enc p m nt) [].
Proof. unfold copies_out, copy_residency_map, copy_crypto_meta. locks. Qed.
Lemma live_copies_out enc p m nt : LiveSpec (copies_out enc p m nt) (fun _ => 0).
Proof. unfold copies_out, copy_residency_map, copy_crypto_meta. live0. Qed.
Hint Resolve lock_copies_out : locks.
Hint Resolve live_copies_out : live.

Lemma lock_read_body grow d enc T p spaces :
  (forall gpu l, LockSpec [] (T gpu l) []) ->
  LockSpec [] (read_body enc (walk_pages grow d p spaces) T p) [].
Proof. intros HT. unfold read_body, walk_pages, kfree_runs. locks. Qed.

Definition bufs_live (b : read_bufs) : Z :=
  let '(r, g, c) := b in Z.b2z r + Z.b2z g + Z.b2z c.

Lemma live_alloc_bufs meta n : LiveSpec (alloc_bufs meta n) (fun r => bufs_live (snd r)).
Proof.
  unfold alloc_bufs. eapply live_bind; [apply live_kvmalloc_array|].
  intros []; cbn [negb]; [|by apply live_ret]. eapply live_bind; [apply live_kvmalloc_array|].
  intros []; cbn [negb]; [|by apply live_ret]. destruct meta; cbn [negb]; [|by apply live_ret].
  eapply live_bind; [apply live_kvmalloc_array|]. intros []; live0.
Qed.

Lemma live_free_bufs b : LiveSpec (free_bufs b) (fun _ => - bufs_live b).
Proof. destruct b as [[[] []] []]; intros s; cbn; lia. Qed.

Lemma lock_with_bufs meta body outs p : LockSpec [] body [] -> LockSpec [] (with_bufs meta body outs p) [].
Proof. intros Hb. unfold with_bufs, alloc_bufs, free_bufs. locks. Qed.

Lemma lock_pass2_transfer enc p gpu l : LockSpec [] (pass2_transfer (pass2_serial enc) (pass2_cc enc) p gpu l) [].
Proof. unfold pass2_transfer. locks. Qed.
Lemma live_pass2_transfer enc p gpu l : LiveSpec (pass2_transfer (pass2_serial enc) (pass2_cc enc) p gpu l) (fun r => runs_live (snd r)).
Proof.
  unfold pass2_transfer. eapply live_bind; [apply live_pass2|]. intros [st nt]. by apply live_ret.
Qed.

Lemma lock_read_handler enc outs p spaces :
  LockSpec [] (read_handler enc (walk_pages enc false) (pass2_serial enc) (pass2_cc enc) outs p spaces) [].
Proof.
  unfold read_handler. destruct (negb env_capable); [apply lock_ret|].
  destruct (bad_args p); [apply lock_ret|].
  apply lock_with_bufs, lock_read_body, lock_pass2_transfer.
Qed.
End ReadResources.
