(* ===== verification/ReadSpec.v ===== *)
(** Correctness of the single-threaded reads (ioctls 109, 111 and 113): pass 2
    delivers the pages of pass 1 serially or on two DMA buffers, the copies report
    them, and the handlers keep user memory outside their buffers, the pool of
    DMA buffers, the locks and the allocations.  [TransferSpec] is the interface
    between the handlers and their second pass. *)
From S2P Require Import Prelude Kernel VaBlock ConfComputing Runs Pass1 Jobs Slots Threads Transfer Layout Meta ReadIoctls.

(** ** Pass 2 delivers the pages *)

Section Pass2Spec.
Context `{E : Env} `{G : CcGpu}.
Context (enc : bool) (phys : list phys_address) (gpu_buf : Z).
#[local] Notation n := (Z.of_nat (length phys)).

(** The pages and the output buffer of pass 2. *)
Record pass2_args : Prop := {
  p2_phys : Forall phys_ok phys;
  p2_buf  : 0 <= gpu_buf /\ gpu_buf + n * PAGE_SIZE <= 2 ^ 64;
  p2_len  : n <= 2 ^ 59;
}.

(** The outcome, with the DMA buffers [out] in other hands. *)
Definition pass2_post (out : list Z) (s : kst) (r : nv_status * Z) (s' : kst) : Prop :=
  pool_inv out s' /\ limit_ok s' /\ outside_kept phys gpu_buf s s' /\
  (HealthyEnv E -> fst r = NV_OK) /\
  (fst r = NV_OK -> exists nr : nat, snd r = Z.of_nat nr /\ (nr <= length phys)%nat /\
     transferred phys gpu_buf enc nr s').

Lemma transferred_frame nr out s s' :
  cc_frame out s s' -> transferred phys gpu_buf enc nr s -> transferred phys gpu_buf enc nr s'.
Proof.
  intros (Hu & Hm & _). unfold transferred, cipher_out, metas_at. by rewrite Hu, Hm.
Qed.

Lemma outside_kept_frame out s s' : cc_frame out s s' -> outside_kept phys gpu_buf s s'.
Proof. intros (Hu & _) a _. by rewrite Hu. Qed.

Lemma outside_kept_trans s1 s2 s3 :
  outside_kept phys gpu_buf s1 s2 -> outside_kept phys gpu_buf s2 s3 -> outside_kept phys gpu_buf s1 s3.
Proof. intros H1 H2 a Ha. by rewrite H2, H1. Qed.

(** Steps that only touch the pool, before and after. *)
Lemma pass2_post_frame out out0 out' s s1 s2 s3 r :
  cc_frame out' s s1 -> pass2_post out0 s1 r s2 -> cc_frame out s2 s3 -> pool_inv out s3 ->
  pass2_post out s r s3.
Proof.
  intros Hf1 (_ & Hl & Ho & Hh & Hok) Hf2 Hp. unfold pass2_post. split_and!; try done.
  - eapply limit_ok_step; [apply Hf2|done].
  - eapply outside_kept_trans; [by eapply outside_kept_frame|].
    eapply outside_kept_trans; [done|by eapply outside_kept_frame].
  - intros Hst. destruct (Hok Hst) as (nr & ? & ? & ?). exists nr. split_and!; try done.
    by eapply transferred_frame.
Qed.

Lemma pass2_post_error out s s' st nt :
  st <> NV_OK -> ~ HealthyEnv E -> cc_frame out s s' -> limit_ok s -> pool_inv out s' ->
  pass2_post out s (st, nt) s'.
Proof.
  intros Hst Hh Hf Hl Hp. unfold pass2_post. split_and!; try done.
  - eapply limit_ok_step; [apply Hf|done].
  - by eapply outside_kept_frame.
Qed.

Lemma length_runs_tile mx runs : forall i j,
  runs_tile i j runs -> Forall (run_wf mx (dense phys)) runs -> Z.of_nat (length runs) <= j - i.
Proof.
  induction runs as [|r runs IH]; intros i j Ht Hw; cbn in Ht; [subst; cbn; lia|].
  apply Forall_cons in Hw as [(_ & [Hr _] & _) Hw]. destruct Ht as [_ Ht].
  specialize (IH _ _ Ht Hw). cbn [length]. unfold PAGE_SIZE in *.
  assert (1 <= rn_bytes r / 4096) by (apply Z.div_le_lower_bound; lia). lia.
Qed.

Lemma coalesce_args : pass2_args ->
  transfer_args phys gpu_buf UVM_CONF_COMPUTING_DMA_BUFFER_SIZE
    (coalesce UVM_CONF_COMPUTING_DMA_BUFFER_SIZE (dense phys)) /\
  (length (coalesce UVM_CONF_COMPUTING_DMA_BUFFER_SIZE (dense phys)) <= length phys)%nat.
Proof.
  intros [H1 H2 H3].
  destruct (coalesce_spec UVM_CONF_COMPUTING_DMA_BUFFER_SIZE (dense phys)) as (Ht & Hw & _);
    [by vm_compute|]. rewrite length_dense in Ht. split; [done|].
  pose proof (length_runs_tile _ _ _ _ Ht Hw). lia.
Qed.

(** The buffers are in hand; the runs are built and transferred. *)
Lemma pass2_pingpong_spec {A} out b0 b1 s (k : nv_status * Z -> K A) Q :
  env_cc = true -> pass2_args -> pool_inv (b1 :: b0 :: out) s -> limit_ok s ->
  (forall r s', pass2_post (b1 :: b0 :: out) s r s' -> wp (k r) Q s') ->
  wp ('(status, runs, rc) ← lm_mt_build_runs (dense phys) UVM_CONF_COMPUTING_DMA_BUFFER_SIZE;
      r ← (if negb (is_ok status) then kret (status, 0) else
           r ← pingpong (dense phys) enc gpu_buf (b0, b1) (make_jobs 0 runs);
           kfree_runs rc ;; kret r);
      k r) Q s.
Proof.
  intros Hcc Ha Hp Hl HQ. destruct (coalesce_args Ha) as [Hta Hlen].
  apply wp_bind. eapply wp_mono.
  { apply wp_and; [apply lm_mt_build_runs_correct|].
    apply (wp_keeps quiet); [apply quiet_build_runs|]. intros r s' H. exact H. }
  intros [[st runs] rc] s1 [Hb Hq]. pose proof (quiet_cc_frame (b1 :: b0 :: out) _ _ Hq) as Hf.
  pose proof (quiet_pool_inv _ _ _ Hq Hp) as Hp1. destruct Hb as [Hb Hh].
  apply wp_bind. eapply wp_mono; [|intros r s'; apply HQ].
  apply wp_if; intros Hst; bprop.
  { wdet. apply pass2_post_error; try done. intros HE. apply Hst, Hh; [done|].
    destruct Ha. unfold coalesce in *. lia. }
  destruct Hb as [(_ & -> & _)|(-> & _)]; [|done].
  apply wp_bind. eapply wp_mono.
  { apply (pingpong_spec _ _ _ _ out); [by eapply transfer_jobs_wf|done|done|].
    eapply limit_ok_step; [apply Hf|done]. }
  intros [st2 nt] s2 (Hp2 & Hl2 & Hf2 & Hd). apply wp_bind.
  apply (wp_keeps quiet); [unfold kfree_runs; keeps idtac|]. intros u s3 Hq3. wdet.
  pose proof (quiet_pool_inv _ _ _ Hq3 Hp2).
  apply (pass2_post_frame _ (b1 :: b0 :: out) (b1 :: b0 :: out) _ s1 s2); [done| |by apply quiet_cc_frame|done].
  unfold pass2_post. cbn [fst snd]. split_and!; try done.
  - by eapply transfer_outside.
  - apply Hd.
  - intros Hok. destruct (transfer_output _ _ _ _ _ _ _ _ Hta Hd Hok) as [Hnt Ht]. eauto.
Qed.

Lemma pass2_cc_spec out s :
  env_cc = true -> pass2_args -> pool_inv out s -> limit_ok s ->
  wp (pass2_cc enc gpu_buf (dense phys)) (pass2_post out s) s.
Proof.
  intros Hcc Ha Hp Hl. unfold pass2_cc. apply wp_bind.
  apply wp_mono with (Q := fun p s' => quiet s s' /\ (HealthyEnv E -> negb enc && negb p = false)).
  { destruct enc; [wdet; split; [by repeat split|done]|].
    apply wp_kmalloc_quiet. intros p s' Hq _ Hh. split; [done|]. intros HE. by rewrite Hh. }
  intros pb s1 [Hq1 Hpb]. pose proof (quiet_cc_frame out _ _ Hq1) as Hf1.
  pose proof (quiet_pool_inv _ _ _ Hq1 Hp) as Hp1.
  assert (limit_ok s1) as Hl1 by (eapply limit_ok_step; [apply Hf1|done]).
  apply wp_if; intros Hn.
  { wdet. apply pass2_post_error; try done. intros HE. rewrite (Hpb HE) in Hn. done. }
  apply wp_bind, (wp_alloc out); [done|intros st s2 Hst Hh Hp2 Hf2|intros b0 s2 Hp2 Hf2].
  { wdet. apply wp_kfree_quiet. intros s3 Hq3 _. wdet.
    apply pass2_post_error; try done; [|by eapply quiet_pool_inv].
    eapply cc_frame_trans; [exact Hf1|]. eapply cc_frame_trans; [exact Hf2|by apply quiet_cc_frame]. }
  apply wp_bind, (wp_alloc (b0 :: out)); [done|intros st s3 Hst Hh Hp3 Hf3|intros b1 s3 Hp3 Hf3].
  { wdet. apply (wp_free (b0 :: out) out); [done..|]. intros s4 Hp4 Hf4. wdet.
    apply wp_kfree_quiet. intros s5 Hq5 _. wdet.
    apply (cc_frame_sub _ out) in Hf3, Hf4; [|intros; by right..].
    apply pass2_post_error; try done; [|by eapply quiet_pool_inv].
    eapply cc_frame_trans; [exact Hf1|]. eapply cc_frame_trans; [exact Hf2|].
    eapply cc_frame_trans; [exact Hf3|]. eapply cc_frame_trans; [exact Hf4|by apply quiet_cc_frame]. }
  assert (limit_ok s3) as Hl3.
  { eapply limit_ok_step; [apply Hf3|]. eapply limit_ok_step; [apply Hf2|done]. }
  apply (pass2_pingpong_spec out); [done..|]. intros r s4 Hpost. pose proof (proj1 Hpost) as Hp4. wdet.
  apply (wp_free (b1 :: b0 :: out) (b1 :: out)); [apply perm_swap|done|]. intros s5 Hp5 Hf5. wdet.
  apply (wp_free (b1 :: out) out); [done..|]. intros s6 Hp6 Hf6. wdet.
  apply wp_kfree_quiet. intros s7 Hq7 _. wdet.
  apply (cc_frame_sub _ out) in Hf5; [|intros; by right; right]. apply (cc_frame_sub _ out) in Hf3, Hf6; [|intros; by right..].
  apply (pass2_post_frame out (b1 :: b0 :: out) out _ s3 s4); [|done| |by eapply quiet_pool_inv].
  - eapply cc_frame_trans; [exact Hf1|]. eapply cc_frame_trans; [exact Hf2|exact Hf3].
  - eapply cc_frame_trans; [exact Hf5|]. eapply cc_frame_trans; [exact Hf6|by apply quiet_cc_frame].
Qed.
End Pass2Spec.

(** ** The serial pass *)

(** Only ticks, locks, allocations and the metadata array change. *)
Definition dev_frame (s s' : kst) : Prop :=
  k_user s' = k_user s /\ k_bufs s' = k_bufs s /\ k_free s' = k_free s /\ k_num s' = k_num s /\
  k_next s' = k_next s /\ k_csl s' = k_csl s.

#[export] Instance dev_frame_ambient : Ambient dev_frame.
Proof.
  split; [|by intros; split_and!..]. split; [by intros s; split_and!|].
  unfold dev_frame; intros x y z H1 H2. intuition congruence.
Qed.

Lemma dev_frame_trans s1 s2 s3 : dev_frame s1 s2 -> dev_frame s2 s3 -> dev_frame s1 s3.
Proof. apply (@PreOrder_Transitive _ _ amb_pre). Qed.

Lemma dev_frame_tick s t : dev_frame s (set_tick t s).
Proof. apply amb_tick. Qed.

Lemma dev_frame_pool out s s' : dev_frame s s' -> pool_inv out s -> pool_inv out s'.
Proof. intros (_&Hb&Hf&Hm&Hn&_). apply pool_inv_perm; try done. by rewrite Hf. Qed.

Lemma dev_frame_limit s s' : dev_frame s s' -> limit_ok s -> limit_ok s'.
Proof. intros (_&_&_&_&_&Hc). unfold limit_ok, iv_limit_ok. by rewrite Hc. Qed.

Section SerialSpec.
Context `{E : Env} `{G : CcGpu}.
Context (Hcc : env_cc = false).

Lemma wp_ext_dev (Q : nv_status -> kst -> Prop) s :
  (forall st s', dev_frame s s' -> (HealthyEnv E -> st = NV_OK) -> Q st s') -> wp ext_status Q s.
Proof. intros HQ. apply wp_and_healthy_status. intros st t Hh. apply HQ; [apply dev_frame_tick|done]. Qed.

Lemma wp_push_begin_dev (Q : nv_status * Z -> kst -> Prop) s :
  (forall st chan s', dev_frame s s' -> (HealthyEnv E -> st = NV_OK) -> Q (st, chan) s') ->
  wp uvm_push_begin Q s.
Proof.
  intros HQ. unfold uvm_push_begin, uvm_channel_begin_push. rewrite Hcc. wdet. apply wp_tick. wdet.
  assert (HealthyEnv E -> env_status (k_tick s) = NV_OK) as Hh by (intros; apply healthy_status).
  apply wp_if; intros Hst; bprop; wdet; [apply HQ; [apply dev_frame_tick|done]|].
  rewrite is_ok_NV_OK. cbn [negb]. apply wp_ext_dev. intros st s' Hf Hh'. wdet. apply HQ; [|done].
  eapply dev_frame_trans; [apply dev_frame_tick|exact Hf].
Qed.

(** The result of a read: the bytes, unless something failed. *)
Definition read_post (pa : phys_address) (size : Z) (s : kst) (r : nv_status * list Z) (s' : kst) : Prop :=
  dev_frame s s' /\ (fst r = NV_OK -> snd r = vid_read pa size) /\ (HealthyEnv E -> fst r = NV_OK).

Lemma read_post_frame pa size s s1 r s2 :
  dev_frame s s1 -> read_post pa size s1 r s2 -> read_post pa size s r s2.
Proof. intros Hf (Hf' & ?). split; [by eapply dev_frame_trans|done]. Qed.

Lemma read_post_error pa size s st bs s' :
  dev_frame s s' -> st <> NV_OK -> ~ HealthyEnv E -> read_post pa size s (st, bs) s'.
Proof. intros. by split_and!. Qed.

Lemma read_gpu_spec pa size s :
  wp (read_gpu_physical_memory pa size) (read_post pa size s) s.
Proof.
  unfold read_gpu_physical_memory, uvm_mem_alloc_sysmem_and_map_cpu_kernel, uvm_push_end, uvm_push_wait.
  rewrite Hcc. wdet. apply wp_ext_dev. intros st s1 Hf1 Hh1.
  apply wp_bind, wp_mono with (Q := fun _ s' => dev_frame s s').
  { apply wp_if; intros _; wdet; [|done]. eapply dev_frame_trans; [exact Hf1|apply amb_live]. }
  intros [] s2 Hf2. wdet. apply wp_if; intros Hst; bprop.
  { wdet. apply read_post_error; [done..|tauto]. }
  wdet. apply wp_tick. wdet.
  assert (dev_frame s (set_tick (k_tick s2 + 1)%N s2)) as Hf3
    by (eapply dev_frame_trans; [exact Hf2|apply dev_frame_tick]).
  apply wp_mono with (Q := read_post pa size s).
  2:{ intros r s4 Hr. apply wp_bind, wp_kfree_quiet. intros s5 Hq _. wdet. destruct Hr as (Hf & ?).
      split; [|done]. eapply dev_frame_trans; [exact Hf|]. destruct Hq as [(?&?&?&?&?&?&?&?) ?].
      by split_and!. }
  destruct (env_alloc_ok _) eqn:Ha; cbn [negb].
  2:{ wdet. apply read_post_error; [done..|]. intros HE. by rewrite healthy_alloc in Ha. }
  wdet. apply wp_ext_dev. intros st4 s4 Hf4 Hh4. pose proof (dev_frame_trans _ _ _ Hf3 Hf4) as Hf04.
  apply wp_if; intros Hst4; bprop; [wdet; apply read_post_error; [done..|tauto]|].
  wdet. apply wp_push_begin_dev. intros st5 chan s5 Hf5 Hh5.
  pose proof (dev_frame_trans _ _ _ Hf04 Hf5) as Hf05.
  apply wp_if; intros Hst5; bprop; [wdet; apply read_post_error; [done..|tauto]|].
  wdet. apply wp_ext_dev. intros st6 s6 Hf6 Hh6. pose proof (dev_frame_trans _ _ _ Hf05 Hf6) as Hf06.
  apply wp_if; intros Hst6; bprop; wdet; [apply read_post_error; [done..|tauto]|]. by split_and!.
Qed.

Lemma read_gpu_encrypted_spec pa size ti s :
  wp (read_gpu_physical_memory_encrypted pa size ti) (read_post pa size s) s.
Proof.
  unfold read_gpu_physical_memory_encrypted. rewrite Hcc. cbn [negb]. wdet.
  eapply wp_mono; [apply read_gpu_spec|]. intros r s'. apply read_post_frame. by split_and!.
Qed.
End SerialSpec.

Section SerialLoop.
Context `{E : Env} `{G : CcGpu}.
Context (Hcc : env_cc = false) (enc : bool) (phys : list phys_address) (gpu_buf : Z).
Context (Ha : pass2_args phys gpu_buf) (mx : Z) (Hmx : PAGE_SIZE <= mx < 2 ^ 63).
#[local] Notation n := (Z.of_nat (length phys)).

(** The user buffer from page [i] on gets the pages; the pool is not involved. *)
Definition serial_post (i nt : Z) (runs : list run) (s : kst) (r : nv_status * Z) (s' : kst) : Prop :=
  (k_bufs s' = k_bufs s /\ k_free s' = k_free s /\ k_num s' = k_num s /\ k_next s' = k_next s /\
   k_csl s' = k_csl s) /\
  (forall a, ~ (gpu_buf <> 0 /\ gpu_buf + i * PAGE_SIZE <= a < gpu_buf + n * PAGE_SIZE) ->
     k_user s' !! a = k_user s !! a) /\
  (HealthyEnv E -> fst r = NV_OK) /\
  (fst r = NV_OK -> snd r = nt + Z.of_nat (length runs) /\
     (gpu_buf <> 0 -> mem_holds (k_user s') (gpu_buf + i * PAGE_SIZE) (vid_pages (drop (Z.to_nat i) phys)))).

Lemma wp_copy_out a bs (Q : bool -> kst -> Prop) s :
  (forall f s', (k_bufs s' = k_bufs s /\ k_free s' = k_free s /\ k_num s' = k_num s /\ k_next s' = k_next s /\
      k_csl s' = k_csl s) -> k_meta s' = k_meta s ->
     (forall x, ~ (a <= x < a + Z.of_nat (length bs)) -> k_user s' !! x = k_user s !! x) ->
     (f = false -> mem_holds (k_user s') a bs) -> (HealthyEnv E -> f = false) -> Q f s') ->
  wp (copy_to_user a bs) Q s.
Proof.
  intros HQ. unfold wp, copy_to_user, kbind, tick, kmod, kret; cbn.
  assert (forall m x, ~ (a <= x < a + Z.of_nat (length bs)) ->
    mem_write a (take m bs) (k_user s) !! x = k_user s !! x) as Hout.
  { intros m x Hx. apply mem_write_lookup_out. pose proof (length_take bs m). lia. }
  destruct (env_copy_ok _) eqn:Hc; cbn; apply HQ; cbn; try done; try apply Hout.
  - intros x Hx. specialize (Hout (length bs) x Hx). by rewrite take_ge in Hout by lia.
  - intros _. apply mem_write_holds.
  - intros HE. by rewrite healthy_copy in Hc.
Qed.

Lemma serial_loop_spec fuel : forall i pages nt s,
  pages = drop (Z.to_nat i) (dense phys) -> 0 <= i <= n -> (length pages <= fuel)%nat ->
  runs_tile i n (coalesce_from fuel mx i pages) ->
  Forall (run_wf mx (dense phys)) (coalesce_from fuel mx i pages) ->
  wp (serial_loop enc gpu_buf mx fuel pages nt)
     (serial_post i nt (coalesce_from fuel mx i pages) s) s.
Proof.
  pose proof Ha as [Hok Hbuf _].
  induction fuel as [|fuel IH]; intros i pages nt s Hpg Hi Hfl Ht Hw.
  { destruct pages; [|cbn in Hfl; lia]. cbn in *. wdet. unfold serial_post; cbn. split_and!; try done.
    intros _. split; [lia|]. by rewrite Ht, Nat2Z.id, drop_all. }
  destruct pages as [|p rest].
  { cbn in *. wdet. unfold serial_post; cbn. split_and!; try done.
    intros _. split; [lia|]. by rewrite Ht, Nat2Z.id, drop_all. }
  cbn [serial_loop coalesce_from] in *.
  destruct (extend_run_spec mx Hmx p rest p 1) as (ps & rest' & Hrest & Hr & Hch & Hb & _); [unfold PAGE_SIZE in *; lia|lia|].
  rewrite Z.mul_1_l in Hr. rewrite Hr in *. set (k := (1 + length ps)%nat) in *.
  set (rb := Z.of_nat k * PAGE_SIZE) in *.
  assert (rb / PAGE_SIZE = Z.of_nat k) as Hdiv by (apply Z.div_mul; done).
  rewrite Hdiv in *. destruct Ht as [_ Ht]. cbn [rn_bytes] in Ht. rewrite Hdiv in Ht.
  apply Forall_cons in Hw as [Hrw Hw].
  destruct (run_wf_at phys gpu_buf mx Hok Hbuf (mk_run i rb) (proj1 Hi) Hrw) as [_ [_ H1] [Hpos _] _ Haddr Hvid].
  cbn [rn_start rn_bytes] in *. rewrite Hdiv in H1.
  assert (dense phys !! Z.to_nat i = Some p) as Hlk.
  { replace (Z.to_nat i) with (Z.to_nat i + 0)%nat by lia. by rewrite <- lookup_drop, <- Hpg. }
  assert (u64 (gpu_buf + gp_off p) = gpu_buf + i * PAGE_SIZE) as Hadr.
  { specialize (Haddr 0 ltac:(lia)). unfold job_addr, run_page in Haddr. cbn in Haddr. by rewrite Hlk in Haddr. }
  assert (vid_read (gp_phys p) rb = vid_pages (take k (drop (Z.to_nat i) phys))) as Hv.
  { specialize (Hvid 0). unfold job_pa, run_page in Hvid. cbn [jb_run rn_start] in Hvid.
    rewrite Hlk in Hvid. cbn in Hvid. rewrite Hvid. unfold run_pages; cbn [rn_bytes rn_start].
    by rewrite Hdiv, Nat2Z.id, fmap_take, fmap_drop, dense_phys. }
  assert (rest' = drop (Z.to_nat (i + Z.of_nat k)) (dense phys)) as Hrest'.
  { rewrite Z2Nat.inj_add, <- drop_drop, <- Hpg, Nat2Z.id, Hrest by lia. subst k. cbn. by rewrite drop_app_length. }
  apply wp_bind, wp_mono with (Q := read_post (gp_phys p) rb s).
  { destruct enc; [by apply read_gpu_encrypted_spec|by apply read_gpu_spec]. }
  intros [st bb] s1 ((Hu1 & Hf1) & Hbb & Hh1). cbn [fst snd] in *. apply wp_if; intros Hst; bprop.
  { wdet. unfold serial_post; cbn. split_and!; try done; try apply Hf1. intros a _. by rewrite Hu1. }
  specialize (Hbb Hst). subst bb. rewrite Hadr.
  apply wp_bind, wp_mono with (Q := fun _ s2 => (k_bufs s2 = k_bufs s1 /\ k_free s2 = k_free s1 /\
    k_num s2 = k_num s1 /\ k_next s2 = k_next s1 /\ k_csl s2 = k_csl s1) /\ k_user s2 = k_user s1).
  { destruct enc; wdet; by split_and!. }
  intros [] s2 [Hf2 Hu2]. pose proof (length_vid_read (gp_phys p) rb ltac:(lia)) as Hlen.
  apply wp_bind, wp_mono with (Q := fun (f : bool) s3 =>
    (k_bufs s3 = k_bufs s /\ k_free s3 = k_free s /\ k_num s3 = k_num s /\ k_next s3 = k_next s /\
     k_csl s3 = k_csl s) /\
    (forall x, ~ (gpu_buf <> 0 /\ gpu_buf + i * PAGE_SIZE <= x < gpu_buf + i * PAGE_SIZE + rb) ->
       k_user s3 !! x = k_user s !! x) /\
    (f = false -> gpu_buf <> 0 -> mem_holds (k_user s3) (gpu_buf + i * PAGE_SIZE) (vid_read (gp_phys p) rb)) /\
    (HealthyEnv E -> f = false)).
  { apply wp_if; intros Hz.
    - wdet. apply Z.eqb_eq in Hz. split_and!; try (destruct Hf1 as (?&?&?&?&?), Hf2 as (?&?&?&?&?); congruence);
        try done; intros x _; by rewrite Hu2, Hu1.
    - apply wp_copy_out. intros f s3 Hf3 _ Ho Hm Hh. split_and!;
        try (destruct Hf1 as (?&?&?&?&?), Hf2 as (?&?&?&?&?), Hf3 as (?&?&?&?&?); congruence); try done.
      + intros x Hx. apply Z.eqb_neq in Hz. rewrite Ho, Hu2, Hu1; [done|]. rewrite Hlen. tauto.
      + intros Hfl' _. by apply Hm. }
  intros f s3 (Hf3 & Hu3 & Hm3 & Hh3). destruct f.
  { wdet. unfold serial_post; cbn. split_and!; try done; try apply Hf3.
    - intros a Hna. apply Hu3. intros [Hg Hr']. apply Hna. split; [done|]. unfold PAGE_SIZE in *. lia.
    - intros HE. by specialize (Hh3 HE). }
  eapply wp_mono; [apply (IH (i + Z.of_nat k)); try done; try lia|].
  { assert (length rest' <= length rest)%nat by (rewrite Hrest, length_app; lia). cbn in Hfl. lia. }
  intros [st' nt'] s4 (Hf4 & Hu4 & Hh4 & Hok4). unfold serial_post; cbn [fst snd] in *. split_and!; try done;
    try (destruct Hf3 as (?&?&?&?&?), Hf4 as (?&?&?&?&?); congruence).
  - intros a Hna. rewrite Hu4, Hu3; [done| |]; (intros [Hg Hr']; apply Hna; split; [done|]; unfold PAGE_SIZE in *; lia).
  - intros Hok'. destruct (Hok4 Hok') as [Hn Hm]. split; [rewrite Hn; cbn [length]; lia|]. intros Hg.
    rewrite <- (take_drop k (drop (Z.to_nat i) phys)), vid_pages_app. apply mem_holds_app. rewrite <- Hv. split.
    + specialize (Hm3 eq_refl Hg). rewrite mem_holds_alt in *. intros j Hj. rewrite Hu4; [by apply Hm3|].
      intros [_ Hr']. unfold PAGE_SIZE in *. lia.
    + rewrite Hlen, drop_drop. replace (gpu_buf + i * PAGE_SIZE + rb) with (gpu_buf + (i + Z.of_nat k) * PAGE_SIZE) by lia.
      specialize (Hm Hg). by rewrite Z2Nat.inj_add, Nat2Z.id in Hm by lia.
Qed.
End SerialLoop.

(** ** What a read leaves in user memory *)

(** The bytes of a user buffer, none for a NULL one. *)
Definition area (b len a : Z) : Prop := b <> 0 /\ b <= a < b + len.
Definition apart (b1 len1 b2 len2 : Z) : Prop := forall a, ~ (area b1 len1 a /\ area b2 len2 a).

Lemma mem_holds_frame m m' a bs :
  (forall x, a <= x < a + Z.of_nat (length bs) -> m' !! x = m !! x) -> mem_holds m a bs -> mem_holds m' a bs.
Proof. intros Hf. rewrite !mem_holds_alt. intros H i Hi. rewrite Hf by lia. by apply H. Qed.

(** Arguments of a read: a well-formed walk, physical pages in range, and buffers
    of [length] bytes that fit the address space and do not overlap. *)
Record read_args (enc d : bool) (p : read_params) (v : va_space) (gpu : option Z)
    (D : list visit) : Prop := {
  rg_walk   : walk_args v gpu d (rp_base p) (n_pages p) (rp_cpu_buf p);
  rg_phys   : Forall phys_ok (gpu_phys gpu D);
  rg_gpu    : 0 <= rp_gpu_buf p /\ rp_gpu_buf p + n_pages p * PAGE_SIZE <= 2 ^ 64;
  rg_map    : 0 < rp_residency_map p /\ rp_residency_map p + n_pages p <= 2 ^ 64;
  rg_cpu_gpu : apart (rp_cpu_buf p) (n_pages p * PAGE_SIZE) (rp_gpu_buf p) (n_pages p * PAGE_SIZE);
  rg_cpu_map : apart (rp_cpu_buf p) (n_pages p * PAGE_SIZE) (rp_residency_map p) (n_pages p);
  rg_gpu_map : apart (rp_gpu_buf p) (n_pages p * PAGE_SIZE) (rp_residency_map p) (n_pages p);
  rg_meta   : enc = true ->
    0 <= rp_crypto_meta p /\ rp_crypto_meta p + n_pages p * SIZEOF_CRYPTO_META <= 2 ^ 64 /\
    apart (rp_cpu_buf p) (n_pages p * PAGE_SIZE) (rp_crypto_meta p) (n_pages p * SIZEOF_CRYPTO_META) /\
    apart (rp_gpu_buf p) (n_pages p * PAGE_SIZE) (rp_crypto_meta p) (n_pages p * SIZEOF_CRYPTO_META) /\
    apart (rp_residency_map p) (n_pages p) (rp_crypto_meta p) (n_pages p * SIZEOF_CRYPTO_META);
}.

(** Room for one metadata entry per page. *)
Definition meta_room (enc : bool) (p : read_params) : Prop :=
  enc = true -> rp_crypto_meta p = 0 \/ n_pages p * SIZEOF_CRYPTO_META <= rp_crypto_meta_size p.

Section Results.
Context `{E : Env} `{G : CcGpu}.

(** What the GPU pages come out as: plaintext, or a ciphertext and the metadata
    that decrypts it. *)
Definition gpu_result (enc : bool) (p : read_params) (phys : list phys_address) (nr : nat) (s : kst)
    : Prop :=
  if enc then
    exists metas c, length metas = nr /\ Forall meta_ok metas /\
      decrypt_all metas c = Some (vid_pages phys) /\
      Z.of_nat (length c) = Z.of_nat (length phys) * PAGE_SIZE /\
      foldr Z.add 0 (cm_size <$> metas) = Z.of_nat (length c) /\
      (rp_gpu_buf p <> 0 -> mem_holds (k_user s) (rp_gpu_buf p) c) /\
      (rp_crypto_meta p <> 0 -> mem_holds (k_user s) (rp_crypto_meta p) (encode_metas metas))
  else rp_gpu_buf p <> 0 -> mem_holds (k_user s) (rp_gpu_buf p) (vid_pages phys).

Definition read_result (enc : bool) (p : read_params) (gpu : option Z) (D : list visit) (nr : nat)
    (s : kst) : Prop :=
  mem_holds (k_user s) (rp_residency_map p)
    (resmap_of gpu (rp_base p) (replicate (Z.to_nat (n_pages p)) RESMAP_ABSENT) D) /\
  (rp_cpu_buf p <> 0 -> mem_holds (k_user s) (rp_cpu_buf p) (mjoin (cpu_pages gpu D))) /\
  gpu_result (enc && env_cc) p (gpu_phys gpu D) nr s.

(** User memory that no buffer of the call covers is kept. *)
Definition read_frame (enc : bool) (p : read_params) (s s' : kst) : Prop :=
  forall a, ~ area (rp_cpu_buf p) (n_pages p * PAGE_SIZE) a ->
    ~ area (rp_gpu_buf p) (n_pages p * PAGE_SIZE) a ->
    ~ area (rp_residency_map p) (n_pages p) a ->
    (enc = true -> ~ area (rp_crypto_meta p) (n_pages p * SIZEOF_CRYPTO_META) a) ->
    k_user s' !! a = k_user s !! a.
End Results.

Section Copies.
Context `{E : Env} `{G : CcGpu}.

(** The state outside user memory, ticks, locks and allocations apart. *)
Definition still (s s' : kst) : Prop :=
  k_bufs s' = k_bufs s /\ k_free s' = k_free s /\ k_num s' = k_num s /\ k_next s' = k_next s /\
  k_csl s' = k_csl s.

Lemma still_trans s1 s2 s3 : still s1 s2 -> still s2 s3 -> still s1 s3.
Proof. unfold still. intros H1 H2. intuition congruence. Qed.

Lemma still_pool out s s' : still s s' -> pool_inv out s -> pool_inv out s'.
Proof. intros (Hb&Hf&Hm&Hn&_). apply pool_inv_perm; try done. by rewrite Hf. Qed.

Lemma still_limit s s' : still s s' -> limit_ok s -> limit_ok s'.
Proof. intros (_&_&_&_&Hc). unfold limit_ok, iv_limit_ok. by rewrite Hc. Qed.

Lemma length_metas_of nt s : 0 <= nt -> length (metas_of nt s) = Z.to_nat nt.
Proof. intros. unfold metas_of. by rewrite length_fmap, length_seqZ. Qed.

(** The copies of the residency map and of the metadata. *)
Lemma copies_spec enc p resmap nt s :
  Z.of_nat (length resmap) = n_pages p -> 0 <= nt <= n_pages p -> n_pages p < 2 ^ 50 ->
  (enc = true ->
   apart (rp_residency_map p) (n_pages p) (rp_crypto_meta p) (n_pages p * SIZEOF_CRYPTO_META)) ->
  0 < rp_residency_map p ->
  wp (copies_out enc p resmap nt) (fun st s' => still s s' /\
    (forall a, ~ area (rp_residency_map p) (n_pages p) a ->
       (enc = true -> ~ area (rp_crypto_meta p) (n_pages p * SIZEOF_CRYPTO_META) a) ->
       k_user s' !! a = k_user s !! a) /\
    (HealthyEnv E -> meta_room enc p -> st = NV_OK) /\
    (st = NV_OK -> mem_holds (k_user s') (rp_residency_map p) resmap /\
       (enc = true -> rp_crypto_meta p <> 0 ->
          mem_holds (k_user s') (rp_crypto_meta p) (encode_metas (metas_of nt s))))) s.
Proof.
  intros Hl Hnt Hn Hap Hmap. unfold copies_out, copy_residency_map. wdet.
  apply wp_copy_out. intros f s1 Hs1 Hm1 Ho1 Hc1 Hh1. rewrite Hl in Ho1. wdet.
  assert (forall a, ~ area (rp_residency_map p) (n_pages p) a -> k_user s1 !! a = k_user s !! a) as Hout1.
  { intros a Ha. apply Ho1. intros Hr. apply Ha. split; [lia|done]. }
  destruct f; [rewrite (proj2 (is_ok_false _)) by done|rewrite is_ok_NV_OK]; cbn [negb].
  { wdet. split_and!; try done; try apply Hs1; try (intros HE; by specialize (Hh1 HE)).
    intros a Ha _. by apply Hout1. }
  specialize (Hc1 eq_refl). destruct enc.
  2:{ wdet. split_and!; try done; try apply Hs1. intros a Ha _. by apply Hout1. }
  unfold copy_crypto_meta. apply wp_if; intros Hc.
  2:{ wdet. apply andb_false_iff in Hc. split_and!; try done; try apply Hs1.
      - intros a Ha _. by apply Hout1.
      - intros _. split; [done|]. intros _ Hne. destruct Hc as [Hc|Hc].
        + apply Z.ltb_ge in Hc. assert (nt = 0) as -> by lia. done.
        + apply negb_false_iff, Z.eqb_eq in Hc. done. }
  apply andb_true_iff in Hc as [Hc1' Hc2]. apply Z.ltb_lt in Hc1'. apply negb_true_iff, Z.eqb_neq in Hc2.
  unfold SIZEOF_CRYPTO_META in *. rewrite u64_small by lia. cbv zeta. apply wp_if; intros Hsz.
  { wdet. apply Z.ltb_lt in Hsz. split_and!; try done; try apply Hs1.
    - intros a Ha _. by apply Hout1.
    - intros _ Hroom. destruct (Hroom eq_refl) as [|Hr]; [done|]. unfold SIZEOF_CRYPTO_META in Hr. lia. }
  wdet. apply wp_copy_out. intros f s2 Hs2 Hm2 Ho2 Hc3 Hh2. wdet.
  assert (Z.of_nat (length (encode_metas (metas_of nt s1))) = nt * 41) as Hle.
  { rewrite length_encode_metas, length_metas_of by lia. lia. }
  rewrite Hle in Ho2.
  assert (metas_of nt s1 = metas_of nt s) as Hms by (unfold metas_of, meta_get; by rewrite Hm1).
  split_and!; try (by apply (still_trans _ s1)).
  - intros a Ha Hb. specialize (Hb eq_refl). rewrite Ho2; [by apply Hout1|]. intros Hr. apply Hb.
    split; [done|]. lia.
  - intros HE _. by rewrite (Hh2 HE).
  - intros Hst. destruct f; [done|]. split.
    + eapply mem_holds_frame; [|exact Hc1]. intros x Hx. apply Ho2. intros Hr.
      apply (Hap eq_refl x). split; split; try done; lia.
    + intros _ _. rewrite <- Hms. by apply Hc3.
Qed.

Lemma metas_at_of metas s : metas_at 0 metas s -> metas_of (Z.of_nat (length metas)) s = metas.
Proof.
  intros Hm. apply list_eq. intros k. unfold metas_of. rewrite list_lookup_fmap.
  destruct (metas !! k) as [m|] eqn:Hk.
  - pose proof (lookup_lt_Some _ _ _ Hk). rewrite lookup_seqZ_lt by lia. cbn. unfold meta_get.
    apply Hm in Hk. by rewrite Hk.
  - apply lookup_ge_None in Hk. by rewrite lookup_seqZ_ge by lia.
Qed.
End Copies.

(** ** Pass 2 in all modes *)

Section Pass2All.
Context `{E : Env} `{G : CcGpu}.
Context (enc : bool) (phys : list phys_address) (gpu_buf : Z).

(** The CC state the calls rely on and keep. *)
Definition cc_ok (out : list Z) (s : kst) : Prop := env_cc = true -> pool_inv out s /\ limit_ok s.

Definition pass2_result (out : list Z) (s : kst) (r : nv_status * Z) (s' : kst) : Prop :=
  cc_ok out s' /\ outside_kept phys gpu_buf s s' /\ (HealthyEnv E -> fst r = NV_OK) /\
  (fst r = NV_OK -> exists nr : nat, snd r = Z.of_nat nr /\ (nr <= length phys)%nat /\
     transferred phys gpu_buf (enc && env_cc) nr s').

Lemma pass2_serial_spec out s :
  env_cc = false -> pass2_args phys gpu_buf ->
  wp (pass2_serial enc gpu_buf (dense phys)) (pass2_result out s) s.
Proof.
  intros Hcc Ha. unfold pass2_serial. apply wp_bind, wp_kmalloc_quiet.
  intros bb s1 Hq _ _. rewrite Hcc. cbv zeta.
  set (mx := if bb then _ else _). assert (PAGE_SIZE <= mx < 2 ^ 63) as Hmx by (subst mx; unfold PAGE_SIZE; destruct bb; lia).
  destruct (coalesce_spec mx (dense phys) Hmx) as (Ht & Hw & _). rewrite length_dense in Ht.
  pose proof (length_runs_tile phys mx _ _ _ Ht Hw) as Hlen.
  apply wp_bind. eapply wp_mono.
  { apply (serial_loop_spec Hcc enc phys gpu_buf Ha mx Hmx _ 0); [by rewrite drop_0|lia|done|done|done]. }
  intros [st nt] s2 (_ & Hu & Hh & Hok). apply wp_bind, wp_kfree_quiet. intros s3 [(Hu3 & _) _] _. wdet.
  destruct Hq as [(Hu1 & _) _]. cbn [fst snd] in *.
  split_and!; [by unfold cc_ok; rewrite Hcc| |done|].
  - intros a Hna. rewrite Hu3, Hu, Hu1; [done|]. by rewrite Z.mul_0_l, Z.add_0_r.
  - intros Hst. destruct (Hok Hst) as [-> Hm]. exists (length (coalesce mx (dense phys))).
    rewrite Hcc, andb_false_r. split_and!; [done|lia|]. cbn. intros Hg. rewrite Hu3.
    specialize (Hm Hg). by rewrite Z.mul_0_l, Z.add_0_r in Hm.
Qed.

(** Nothing to transfer. *)
Lemma transferred_nil gb cipher s : phys = [] -> transferred phys gb cipher 0 s.
Proof.
  intros Hp0. unfold transferred. destruct cipher; [|by rewrite Hp0].
  exists [], []. rewrite Hp0. by split_and!.
Qed.

(** Without a GPU there is no page to transfer. *)
Lemma pass2_nothing_spec out s :
  cc_ok out s -> phys = [] -> wp (pass2_serial enc gpu_buf (dense phys)) (pass2_result out s) s.
Proof.
  intros Hc Hp0. unfold pass2_serial. rewrite Hp0. apply wp_bind, wp_kmalloc_quiet. intros bb s1 Hq1 _ _. cbn. wdet.
  apply wp_kfree_quiet. intros s2 Hq2 _. wdet.
  assert (quiet s s2) as Hq by (by eapply (@PreOrder_Transitive _ _ amb_pre)).
  split_and!; cbn; try done.
  - intros Hcc. destruct (Hc Hcc) as [Hp Hl]. split; [by eapply quiet_pool_inv|].
    destruct Hq as [_ Hcs]. unfold limit_ok, iv_limit_ok in *. by rewrite Hcs.
  - intros a _. by rewrite (proj1 (proj1 Hq)).
  - intros _. exists 0%nat. split; [done|]. split; [cbn; lia|]. by apply transferred_nil.
Qed.

Lemma pass2_spec gpu out s :
  pass2_args phys gpu_buf -> cc_ok out s -> (gpu = None -> phys = []) ->
  wp (pass2 (pass2_serial enc) (pass2_cc enc) gpu gpu_buf (dense phys)) (pass2_result out s) s.
Proof.
  intros Ha Hc Hn. unfold pass2. destruct gpu as [g|]; [|by apply pass2_nothing_spec; auto].
  destruct env_cc eqn:Hcc; [|by apply pass2_serial_spec].
  destruct (Hc Hcc) as [Hp Hl]. eapply wp_mono; [by apply pass2_cc_spec|].
  intros r s' (Hp' & Hl' & Ho & Hh & Hok). unfold pass2_result. rewrite Hcc, andb_true_r.
  by split_and!.
Qed.
End Pass2All.

(** ** The handlers as a whole *)

Lemma wp_live_exact {A} (m : K A) d s :
  LiveSpec m d -> wp m (fun r s' => k_live s' = k_live s + d r) s.
Proof. intros Hm. apply Hm. Qed.

(** What a handler expects of its transfer [T]: it delivers the pages of pass 1
    whatever fails, and succeeds when nothing does and [ready] holds. *)
Class TransferSpec `{E : Env} `{G : CcGpu} (enc : bool) (gpu_buf : Z) (ready : option Z -> Prop)
    (T : option Z -> pass1_locals -> K (nv_status * Z * Z)) : Prop := {
  ts_spec : forall gpu l phys out s,
    p1_pages l = dense phys -> 0 <= p1_cap l <= 2 ^ 51 -> pass2_args phys gpu_buf -> cc_ok out s ->
    (gpu = None -> phys = []) ->
    wp (T gpu l) (fun r s' =>
      cc_ok out s' /\ k_live s' = k_live s + runs_live (snd r) /\ outside_kept phys gpu_buf s s' /\
      (HealthyEnv E -> ready gpu -> fst (fst r) = NV_OK) /\
      (fst (fst r) = NV_OK -> exists nr : nat, snd (fst r) = Z.of_nat nr /\ (nr <= length phys)%nat /\
         transferred phys gpu_buf (enc && env_cc) nr s')) s;
  ts_lock : forall gpu l, LockSpec [] (T gpu l) [];
}.

#[export] Instance pass2_transfer_spec `{E : Env} `{G : CcGpu} enc p :
  TransferSpec enc (rp_gpu_buf p) (fun _ => True) (pass2_transfer (pass2_serial enc) (pass2_cc enc) p).
Proof.
  split; [|intros; apply lock_pass2_transfer].
  intros gpu l phys out s Hp _ Ha Hc Hn. pose proof (live_pass2_transfer enc p gpu l s) as Hlv.
  assert (wp (pass2_transfer (pass2_serial enc) (pass2_cc enc) p gpu l) (fun r => pass2_result enc phys (rp_gpu_buf p) out s (fst r)) s) as Hw.
  { unfold pass2_transfer. rewrite Hp. apply wp_bind.
    eapply wp_mono; [by apply (pass2_spec enc phys _ gpu out)|]. intros [st nt] s' H. by wdet. }
  destruct Hw as (Hc' & Ho & Hh & Hok). unfold wp. split_and!; try done. auto.
Qed.

Section Handler.
Context `{E : Env} `{G : CcGpu}.
Context (enc : bool) (p : read_params) (gpu : option Z) (D : list visit) (ready : option Z -> Prop).

(** The outcome of a read: its status, locals and number of transfers. *)
Definition read_done (out : list Z) (s : kst) (r : nv_status * pass1_locals * Z) (s' : kst) : Prop :=
  let '(st, l, nt) := r in
  cc_ok out s' /\ k_live s' = k_live s /\ read_frame enc p s s' /\
  (HealthyEnv E -> meta_room enc p -> ready gpu -> st = NV_OK) /\
  (st = NV_OK ->
     p1_cpu_off l = Z.of_nat (length (cpu_pages gpu D)) * PAGE_SIZE /\
     p1_gpu_off l = Z.of_nat (length (gpu_phys gpu D)) * PAGE_SIZE /\
     exists nr : nat, nt = Z.of_nat nr /\ (nr <= length (gpu_phys gpu D))%nat /\
       read_result enc p gpu D nr s').

Lemma quiet_cc_ok out s s' : quiet s s' -> cc_ok out s -> cc_ok out s'.
Proof.
  intros Hq Hc Hcc. destruct (Hc Hcc) as [Hp Hl]. split; [by eapply quiet_pool_inv|].
  destruct Hq as [_ Hq]. unfold limit_ok, iv_limit_ok in *. by rewrite Hq.
Qed.

Lemma user_only_cc_ok out s s' : user_only s s' -> cc_ok out s -> cc_ok out s'.
Proof.
  intros (_&Hb&Hf&Hm&Hn&Hcs&_) Hc Hcc. destruct (Hc Hcc) as [Hp Hl]. split.
  - apply (pool_inv_perm out s); try done. by rewrite Hf.
  - unfold limit_ok, iv_limit_ok in *. by rewrite Hcs.
Qed.

Lemma still_cc_ok out s s' : still s s' -> cc_ok out s -> cc_ok out s'.
Proof. intros Hs Hc Hcc. destruct (Hc Hcc). split; [by eapply still_pool|by eapply still_limit]. Qed.

(** The number of pages never exceeds that of the range. *)
Lemma read_sizes d v : read_args enc d p v gpu D ->
  D = space_visits d (rp_base p) (rp_base p + n_pages p * PAGE_SIZE - 1) v ->
  0 < n_pages p < 2 ^ 50 /\ Z.of_nat (length (cpu_pages gpu D)) <= n_pages p /\
  Z.of_nat (length (gpu_phys gpu D)) <= n_pages p /\
  Z.of_nat (length (mjoin (cpu_pages gpu D))) = Z.of_nat (length (cpu_pages gpu D)) * PAGE_SIZE.
Proof.
  intros Ha HD. pose proof (rg_walk _ _ _ _ _ _ Ha) as Hw.
  destruct (walk_bounds v gpu d _ _ _ Hw) as (_ & Hle & _). rewrite <- HD in Hle.
  pose proof (length_cpu_pages gpu D). pose proof (length_gpu_phys gpu D).
  pose proof (wa_pages _ _ _ _ _ _ Hw) as Hpg. rewrite <- HD in Hpg.
  pose proof (length_cpu_bytes gpu D Hpg). pose proof (wa_len _ _ _ _ _ _ Hw). split_and!; lia.
Qed.

(** The transfer gets valid arguments, to the buffer of the call or to none. *)
Lemma read_pass2_args d v gb : read_args enc d p v gpu D ->
  D = space_visits d (rp_base p) (rp_base p + n_pages p * PAGE_SIZE - 1) v ->
  gb = rp_gpu_buf p \/ gb = 0 -> pass2_args (gpu_phys gpu D) gb.
Proof.
  intros Ha HD Hgb. destruct (read_sizes d v Ha HD) as (Hn & _ & Hlg & _).
  pose proof (rg_gpu _ _ _ _ _ _ Ha) as [Hg0 Hg1]. split; [apply Ha| |lia].
  unfold PAGE_SIZE in *. destruct Hgb as [->| ->]; lia.
Qed.

Lemma mem_holds_apart m m' b len bs :
  Z.of_nat (length bs) <= len -> b <> 0 -> (forall a, area b len a -> m' !! a = m !! a) ->
  mem_holds m b bs -> mem_holds m' b bs.
Proof. intros Hl Hb Hf. apply mem_holds_frame. intros x Hx. apply Hf. split; [done|lia]. Qed.

Lemma area_le b len len' a : len <= len' -> area b len a -> area b len' a.
Proof. unfold area. lia. Qed.

Lemma length_vid_pages phys : Z.of_nat (length (vid_pages phys)) = Z.of_nat (length phys) * PAGE_SIZE.
Proof.
  induction phys as [|pa phys IH]; [done|]. unfold vid_pages in *. rewrite fmap_cons, mjoin_cons, length_app.
  pose proof (length_vid_read pa PAGE_SIZE ltac:(by vm_compute)). cbn [length]. lia.
Qed.

(** What is delivered survives the copies of the map and the metadata. *)
Lemma gpu_result_kept nr s2 s3 nt :
  Z.of_nat (length (gpu_phys gpu D)) <= n_pages p -> nt = Z.of_nat nr ->
  (forall a, area (rp_gpu_buf p) (n_pages p * PAGE_SIZE) a -> k_user s3 !! a = k_user s2 !! a) ->
  (enc = true -> rp_crypto_meta p <> 0 ->
     mem_holds (k_user s3) (rp_crypto_meta p) (encode_metas (metas_of nt s2))) ->
  transferred (gpu_phys gpu D) (rp_gpu_buf p) (enc && env_cc) nr s2 ->
  gpu_result (enc && env_cc) p (gpu_phys gpu D) nr s3.
Proof.
  intros Hle -> Hk Hm Ht. unfold transferred, gpu_result in *. destruct (enc && env_cc) eqn:Hec.
  - apply andb_true_iff in Hec as [Henc _].
    destruct Ht as (metas & c & Hl & Hat & Hok & Hdec & Hc & Hs & Hmem).
    rewrite drop_0 in Hdec. rewrite Z.sub_0_r in Hc, Hs. exists metas, c. split_and!; try done; try lia.
    + intros Hg. specialize (Hmem Hg). rewrite Z.mul_0_l, Z.add_0_r in Hmem.
      eapply mem_holds_apart; [|exact Hg|exact Hk|exact Hmem]. unfold PAGE_SIZE in *; lia.
    + intros Hcm. specialize (Hm Henc Hcm). by rewrite <- Hl, metas_at_of in Hm.
  - intros Hg. eapply mem_holds_apart; [|exact Hg|exact Hk|by apply Ht].
    rewrite length_vid_pages. unfold PAGE_SIZE in *; lia.
Qed.

(** A NULL-terminated chain of frames. *)
Lemma read_frame_trans s1 s2 s3 : read_frame enc p s1 s2 -> read_frame enc p s2 s3 -> read_frame enc p s1 s3.
Proof. intros H1 H2 a ????. by rewrite H2, H1. Qed.

(** The CPU pages survive what follows pass 1: transfers to the GPU buffer, and
    copies that keep the CPU buffer. *)
Lemma cpu_pages_kept d v gb m s1 s2 s3 :
  read_args enc d p v gpu D ->
  D = space_visits d (rp_base p) (rp_base p + n_pages p * PAGE_SIZE - 1) v ->
  k_user s1 = cpu_written (rp_cpu_buf p) m (cpu_pages gpu D) -> gb = rp_gpu_buf p \/ gb = 0 ->
  outside_kept (gpu_phys gpu D) gb s1 s2 ->
  (forall a, area (rp_cpu_buf p) (n_pages p * PAGE_SIZE) a -> k_user s3 !! a = k_user s2 !! a) ->
  rp_cpu_buf p <> 0 -> mem_holds (k_user s3) (rp_cpu_buf p) (mjoin (cpu_pages gpu D)).
Proof.
  intros Ha HD Hu1 Hgb Ho Hk Hcb0. destruct (read_sizes d v Ha HD) as (Hn & Hlc & Hlg & Hcb).
  apply (mem_holds_apart (k_user s1) _ _ (n_pages p * PAGE_SIZE)); [rewrite Hcb; unfold PAGE_SIZE in *; lia|done| |].
  - intros a Hr. rewrite Hk by done. apply Ho. intros [Hz Hr']. destruct Hgb as [->| ->]; [|done].
    apply (rg_cpu_gpu _ _ _ _ _ _ Ha a). split; [done|]. split; [done|]. unfold PAGE_SIZE in *; lia.
  - rewrite Hu1. unfold cpu_written. rewrite (proj2 (Z.eqb_neq _ _) Hcb0). apply mem_write_holds.
Qed.

(** The copies after a transfer that delivered [nr] transfers. *)
Lemma read_copies_spec d v s s1 s2 l (nr : nat) :
  read_args enc d p v gpu D ->
  D = space_visits d (rp_base p) (rp_base p + n_pages p * PAGE_SIZE - 1) v ->
  p1_resmap l = resmap_of gpu (rp_base p) (replicate (Z.to_nat (n_pages p)) RESMAP_ABSENT) D ->
  k_user s1 = cpu_written (rp_cpu_buf p) (k_user s) (cpu_pages gpu D) ->
  outside_kept (gpu_phys gpu D) (rp_gpu_buf p) s1 s2 -> read_frame enc p s s2 ->
  (nr <= length (gpu_phys gpu D))%nat ->
  transferred (gpu_phys gpu D) (rp_gpu_buf p) (enc && env_cc) nr s2 ->
  wp (copies_out enc p (p1_resmap l) (Z.of_nat nr)) (fun st s3 => still s2 s3 /\ k_live s3 = k_live s2 /\
    read_frame enc p s s3 /\ (HealthyEnv E -> meta_room enc p -> st = NV_OK) /\
    (st = NV_OK -> read_result enc p gpu D nr s3)) s2.
Proof.
  intros Ha HD Hm Hu1 Ho Hf2 Hnr Ht. destruct (read_sizes d v Ha HD) as (Hn & Hlc & Hlg & Hcb).
  pose proof Ha as [Hw Hphys [Hg0 Hg1] [Hmp0 Hmp1] Hacg Hacm Hagm Hmeta].
  assert (Z.of_nat (length (p1_resmap l)) = n_pages p) as Hlm.
  { rewrite Hm, length_resmap_of, length_replicate. lia. }
  eapply wp_mono; [apply wp_and; [apply copies_spec; [done|lia|lia|intros He; by apply Hmeta|done]
    |apply (wp_live_exact _ _ _ (live_copies_out _ _ _ _))]|].
  intros st3 s3 ((Hs3 & Hk & Hh3 & Hok3) & Hlv3). split_and!; [done|lia| |done|].
  - eapply read_frame_trans; [exact Hf2|]. intros a _ _ Hma Hcm. by apply Hk.
  - intros Hst3. destruct (Hok3 Hst3) as [Hmm Hmt]. split_and!; [by rewrite <- Hm| |].
    + intros Hcb0. apply (cpu_pages_kept d v (rp_gpu_buf p) (k_user s) s1 s2); try done; [by left|].
      intros a Hr. apply Hk; [intros Hr'; by apply (Hacm a)|].
      intros He Hr'. destruct (Hmeta He) as (_ & _ & Hcm & _). by apply (Hcm a).
    + apply (gpu_result_kept nr s2 s3 (Z.of_nat nr)); try done. intros a Hr. apply Hk; [intros Hr'; by apply (Hagm a)|].
      intros He Hr'. destruct (Hmeta He) as (_ & _ & _ & Hgm & _). by apply (Hgm a).
Qed.

Lemma read_finish_spec d v out T s s1 l :
  TransferSpec enc (rp_gpu_buf p) ready T ->
  read_args enc d p v gpu D ->
  D = space_visits d (rp_base p) (rp_base p + n_pages p * PAGE_SIZE - 1) v ->
  (gpu = None -> gpu_phys gpu D = []) -> cc_ok out s1 ->
  pass1_done gpu (rp_base p) (rp_cpu_buf p) D (replicate (Z.to_nat (n_pages p)) RESMAP_ABSENT)
    (Z.min (n_pages p) 512) (k_user s) l (k_user s1) ->
  read_frame enc p s s1 -> k_live s1 = k_live s ->
  wp ('(status, nt, rc) ← T gpu l;
      status ← (if negb (is_ok status) then kret status else copies_out enc p (p1_resmap l) nt);
      kfree_runs rc ;;
      kret (status, l, nt)) (read_done out s) s1.
Proof.
  intros HT Ha HD Hn0 Hc1 (Hm & Hco & Hgo & Hp & Hcap & Hu1) Hf1 Hlv1.
  destruct (read_sizes d v Ha HD) as (Hn & Hlc & Hlg & Hcb).
  apply wp_bind. eapply wp_mono.
  { apply (ts_spec gpu l (gpu_phys gpu D) out s1); try done.
    - unfold p1_cnt in Hcap. rewrite Hp, length_gpu_pages in Hcap. lia.
    - eapply read_pass2_args; [done..|by left]. }
  intros [[st nt] rc] s2 (Hc2 & Hlv2 & Ho & Hh & Hok). cbn [fst snd] in *.
  assert (read_frame enc p s s2) as Hf2.
  { eapply read_frame_trans; [exact Hf1|]. intros a _ Hg _ _. apply Ho. intros Hr. apply Hg.
    eapply area_le; [|exact Hr]. unfold PAGE_SIZE in *; lia. }
  apply wp_bind, wp_mono with (Q := fun st' s3 => still s2 s3 /\ k_live s3 = k_live s2 /\ read_frame enc p s s3 /\
    (HealthyEnv E -> meta_room enc p -> ready gpu -> st' = NV_OK) /\
    (st' = NV_OK -> exists nr : nat, nt = Z.of_nat nr /\ (nr <= length (gpu_phys gpu D))%nat /\
       read_result enc p gpu D nr s3)).
  - apply wp_if; intros Hst; bprop.
    { wdet. split_and!; try done. intros HE _ Hr. by destruct Hst; apply Hh. }
    destruct (Hok Hst) as (nr & -> & Hnr & Ht). eapply wp_mono; [by eapply read_copies_spec|].
    intros st3 s3 (?&?&?&?&?). split_and!; try done; [auto|eauto].
  - intros st3 s3 (Hs3 & Hlv3 & Hf3 & Hh3 & Hok3). apply wp_bind.
    eapply wp_mono; [apply wp_and; [apply (wp_keeps quiet _ (fun _ s' => quiet s3 s')); [unfold kfree_runs; keeps idtac|done]
      |apply (wp_live_exact _ _ _ (live_kfree_runs rc))]|]. intros u s4 [Hq Hlv4]. wdet.
    assert (k_user s4 = k_user s3) as Hu4 by apply Hq.
    split_and!; [|cbn in Hlv4; lia| |done|].
    + eapply quiet_cc_ok; [exact Hq|]. by eapply still_cc_ok.
    + intros a ????. rewrite Hu4. by apply Hf3.
    + intros Hst3. split_and!; [done..|]. destruct (Hok3 Hst3) as (nr & ? & ? & Hr). exists nr.
      split_and!; [done..|]. unfold read_result, gpu_result in *. by rewrite Hu4.
Qed.
End Handler.

Lemma gpu_phys_None D : gpu_phys None D = [].
Proof.
  induction D as [|[vb pv] D IH]; [done|]. rewrite gpu_phys_cons. unfold classify.
  by destruct (bool_decide _).
Qed.

Lemma bad_args_false p : bad_args p = false ->
  rp_length p = n_pages p * PAGE_SIZE /\ rp_residency_map p <> 0.
Proof.
  unfold bad_args, n_pages, PAGE_SIZE. intros H. btest. split; [|done].
  pose proof (Z.div_mod (rp_length p) 4096 ltac:(lia)). lia.
Qed.

(** A call on a range that some VA space manages: the pages [D] the walk visits. *)
Record read_call (enc d : bool) (p : read_params) (spaces : list va_space) (gpu : option Z)
    (D : list visit) : Prop := {
  rc_args  : bad_args p = false;
  rc_owner : exists v, owner_space (rp_base p) spaces = Some v /\ gpu = resolve_gpu v (rp_gpu_uuid p) /\
    D = space_visits d (rp_base p) (rp_base p + n_pages p * PAGE_SIZE - 1) v /\
    read_args enc d p v gpu D;
}.

Section Calls.
Context `{E : Env} `{G : CcGpu}.

Lemma read_frame_kept enc p s s' :
  kept (rp_cpu_buf p) (n_pages p) (k_user s) (k_user s') -> read_frame enc p s s'.
Proof. intros Hk a Ha _ _ _. by apply Hk. Qed.

Lemma read_body_spec grow enc d T p spaces gpu D ready out s :
  TransferSpec enc (rp_gpu_buf p) ready T -> read_call enc d p spaces gpu D -> cc_ok out s ->
  wp (read_body enc (walk_pages grow d p spaces) T p) (read_done enc p gpu D ready out s) s.
Proof.
  intros HT [Hbad (v & Hov & Hgpu & HD & Ha)] Hc. destruct (bad_args_false p Hbad) as [Hlen _].
  unfold read_body, walk_pages. rewrite Hlen. apply wp_bind. eapply wp_mono.
  { apply wp_and; [apply pass1_spec|apply (wp_live_exact _ _ _ (live_pass1 _ _ _ _ _ _ _ _))]. }
  intros [[st l] g] s1 [(Huo & Hpost) Hlv1]. rewrite Z.add_0_r in Hlv1. rewrite Hov in Hpost. destruct Hpost as [-> Hpost].
  rewrite <- Hgpu, <- HD in Hpost. rewrite <- Hgpu.
  pose proof (user_only_cc_ok out _ _ Huo Hc) as Hc1.
  pose proof (rg_walk _ _ _ _ _ _ Ha) as Hw. pose proof (wa_len _ _ _ _ _ _ Hw) as [Hn _].
  destruct (Hpost Hw eq_refl) as [[-> Hd]|(Hst & Hh & _ & Hk)]; [cbn; lia|done..| |].
  - rewrite is_ok_NV_OK. cbn [negb]. apply (read_finish_spec enc p gpu D ready d v); try done.
    + intros ->. apply gpu_phys_None.
    + apply read_frame_kept. destruct Hd as (_&_&_&_&_&->). destruct (read_sizes enc p gpu D d v Ha HD) as (_ & _ & Hlg & _).
      pose proof (walk_bounds v gpu d _ _ _ Hw) as (_ & Hle & _). rewrite <- HD in Hle.
      pose proof (wa_pages _ _ _ _ _ _ Hw) as Hpg. rewrite <- HD in Hpg.
      exact (kept_written gpu (rp_cpu_buf p) (n_pages p) _ (wa_buf _ _ _ _ _ _ Hw) D Hpg Hle).
  - assert (st <> NV_OK) as Hne by (by destruct Hst as [-> | ->]).
    rewrite (proj2 (is_ok_false _) Hne). cbn [negb]. wdet. split_and!; try done. by apply read_frame_kept.
Qed.

(** What a handler returns. *)
Definition call_result (enc : bool) (outs : nv_status -> pass1_locals -> Z -> read_outs) (p : read_params)
    (gpu : option Z) (D : list visit) (ready : option Z -> Prop) (out : list Z) (s : kst)
    (r : nv_status * read_outs) (s' : kst) : Prop :=
  cc_ok out s' /\ k_live s' = k_live s /\ read_frame enc p s s' /\
  (HealthyEnv E -> meta_room enc p -> ready gpu -> fst r = NV_OK) /\
  (fst r = NV_OK -> exists l (nr : nat),
     p1_cpu_off l = Z.of_nat (length (cpu_pages gpu D)) * PAGE_SIZE /\
     p1_gpu_off l = Z.of_nat (length (gpu_phys gpu D)) * PAGE_SIZE /\
     snd r = outs NV_OK l (Z.of_nat nr) /\ (nr <= length (gpu_phys gpu D))%nat /\
     read_result enc p gpu D nr s').

(** Allocations and releases change nothing else a call relies on. *)
Definition calm (s s' : kst) : Prop := still s s' /\ k_user s' = k_user s.

Lemma calm_trans s1 s2 s3 : calm s1 s2 -> calm s2 s3 -> calm s1 s3.
Proof. intros [H1 H2] [H3 H4]. split; [by eapply still_trans|congruence]. Qed.

Lemma quiet_calm s s' : quiet s s' -> calm s s'.
Proof. intros [(?&?&?&?&?&?&?&?) ?]. by repeat split. Qed.

Lemma wp_kvmalloc_quiet n size (Q : bool -> kst -> Prop) s :
  (forall (b : bool) s', quiet s s' -> (HealthyEnv E -> n * size < 2 ^ 64 -> b = true) -> Q b s') ->
  wp (kvmalloc_array n size) Q s.
Proof.
  intros HQ. unfold kvmalloc_array. apply wp_if; intros Hb; btest.
  - wdet. apply HQ; [by repeat split|lia].
  - apply wp_kmalloc_quiet. intros p s' Hq _ Hh. apply HQ; auto.
Qed.

Lemma alloc_bufs_spec meta n s :
  wp (alloc_bufs meta n) (fun r s' => calm s s' /\ (fst r = NV_OK \/ fst r = NV_ERR_NO_MEMORY) /\
    (HealthyEnv E -> 0 <= n < 2 ^ 50 -> fst r = NV_OK)) s.
Proof.
  unfold alloc_bufs, SIZEOF_GPU_PAGE, SIZEOF_CRYPTO_META.
  apply wp_bind, wp_kvmalloc_quiet. intros b1 s1 Hq1%quiet_calm H1. apply wp_if; intros Hb1.
  { wdet. split_and!; [done|by right|]. intros HE Hn. by rewrite H1 in Hb1 by (done || lia). }
  apply wp_bind, wp_kvmalloc_quiet. intros b2 s2 Hq2%quiet_calm H2. pose proof (calm_trans _ _ _ Hq1 Hq2) as Hq12.
  apply wp_if; intros Hb2.
  { wdet. split_and!; [done|by right|]. intros HE Hn. by rewrite H2 in Hb2 by (done || lia). }
  apply wp_if; intros Hm; [wdet; by split_and!; [|left|]|].
  apply wp_bind, wp_kvmalloc_quiet. intros b3 s3 Hq3%quiet_calm H3. wdet.
  split_and!; [eapply calm_trans; [exact Hq12|exact Hq3]|destruct b3; auto|]. intros HE Hn. cbn. by rewrite H3 by (done || lia).
Qed.

Lemma wp_kfree_calm (b : bool) (Q : unit -> kst -> Prop) s :
  (forall s', calm s s' -> k_live s' = k_live s - Z.b2z b -> Q tt s') -> wp (kfree b) Q s.
Proof. intros HQ. destruct b; apply HQ; cbn; done || lia. Qed.

Lemma free_bufs_calm b s : calm s (snd (free_bufs b s)).
Proof. by destruct b as [[[] []] []]. Qed.

Lemma calm_cc_ok out s s' : calm s s' -> cc_ok out s -> cc_ok out s'.
Proof. intros [Hs _]. by apply still_cc_ok. Qed.

Lemma with_bufs_spec enc meta d body outs p spaces gpu D ready out s :
  read_call enc d p spaces gpu D -> cc_ok out s ->
  (forall s, cc_ok out s -> wp body (read_done enc p gpu D ready out s) s) ->
  wp (with_bufs meta body outs p) (call_result enc outs p gpu D ready out s) s.
Proof.
  intros [_ (v & _ & _ & HD & Ha)] Hc Hbody.
  destruct (read_sizes enc p gpu D d v Ha HD) as (Hn & _).
  unfold with_bufs. apply wp_bind, wp_kmalloc_quiet. intros pb s1 Hq1%quiet_calm Hlv1 Hh1.
  apply wp_if; intros Hpb.
  { wdet. apply negb_true_iff in Hpb as ->.
    split_and!; try done; [by eapply calm_cc_ok|cbn in *; lia|intros a ????; by rewrite (proj2 Hq1)|].
    intros HE. by specialize (Hh1 HE). }
  apply wp_bind. eapply wp_mono; [apply wp_and; [apply alloc_bufs_spec|apply (wp_live_exact _ _ _ (live_alloc_bufs _ _))]|].
  intros [st bufs] s2 [(Hq2 & _ & Hh2) Hlv2]. cbn [fst snd] in Hh2, Hlv2.
  pose proof (calm_trans _ _ _ Hq1 Hq2) as Hq12. pose proof (calm_cc_ok _ _ _ Hq12 Hc) as Hc2.
  apply wp_bind, wp_mono with (Q := read_done enc p gpu D ready out s2).
  { apply wp_if; intros Hst; bprop; [|by apply Hbody]. wdet. split_and!; try done. intros HE _ _.
    destruct Hst. apply Hh2; [done|lia]. }
  intros [[st' l] nt] s3 (Hc3 & Hlv3 & Hf3 & Hh3 & Hok3). apply wp_bind, wp_kfree_calm. intros s4 Hq4 Hlv4.
  apply wp_bind. pose proof (free_bufs_calm bufs s4) as Hq5. pose proof (live_free_bufs bufs s4) as Hlv5.
  unfold wp.
  destruct (free_bufs bufs s4) as [[] s5]; unfold kret; cbn [fst snd] in *.
  pose proof (calm_trans _ _ _ Hq4 Hq5) as Hq35. split_and!.
  - by eapply calm_cc_ok.
  - apply negb_false_iff in Hpb as ->. cbn [Z.b2z] in *. lia.
  - intros a ????. rewrite (proj2 Hq35), Hf3, (proj2 Hq12); done.
  - intros HE. by apply Hh3.
  - unfold read_result, gpu_result in Hok3 |- *. intros Hst. cbn [fst] in Hst. destruct (Hok3 Hst) as (Hco & Hgo & nr & -> & Hnr & Hr).
    exists l, nr. subst st'. do 4 (split; [done|]).
    by rewrite (proj2 Hq35).
Qed.

Lemma read_handler_spec enc outs p spaces gpu D out s :
  env_capable = true -> read_call enc false p spaces gpu D -> cc_ok out s ->
  wp (read_handler enc (walk_pages enc false) (pass2_serial enc) (pass2_cc enc) outs p spaces) (call_result enc outs p gpu D (fun _ => True) out s) s.
Proof.
  intros Hcap Hcall Hc. unfold read_handler. rewrite Hcap, (rc_args _ _ _ _ _ _ Hcall). cbn [negb].
  eapply with_bufs_spec; [done..|]. intros s' Hc'. by apply read_body_spec; [apply _|..].
Qed.
End Calls.

(** ** The three handlers *)

Section ReadTheorems.
Context `{E : Env} `{G : CcGpu}.

Lemma read_call_correct enc outs p spaces gpu D out s :
  env_capable = true -> read_call enc false p spaces gpu D -> cc_ok out s ->
  k_locks s = [] -> k_lock_bug s = false ->
  let '(r, s') := read_handler enc (walk_pages enc false) (pass2_serial enc) (pass2_cc enc) outs p spaces s in
  k_locks s' = [] /\ k_lock_bug s' = false /\
  call_result enc outs p gpu D (fun _ => True) out s r s'.
Proof.
  intros Hcap Hcall Hc Hlk Hlb.
  pose proof (read_handler_spec enc outs p spaces gpu D out s Hcap Hcall Hc) as H.
  destruct (lock_read_handler enc outs p spaces s Hlk Hlb) as [H1 H2].
  unfold wp in H. destruct (read_handler _ _ _ _ _ _ _ s) as [r s']; cbn [fst snd] in *. by split_and!.
Qed.

(** C27: Ioctl 109: on every path locks, allocations, pool and memory outside the
    caller's buffers are as before; without failures it returns OK; and OK means
    the residency map, the CPU pages and the plaintext of the GPU pages are in the
    caller's buffers, with the OUT fields their sizes. *)
Theorem read_pages_resident_correct p spaces gpu D out s :
  env_capable = true -> read_call false false p spaces gpu D -> cc_ok out s ->
  k_locks s = [] -> k_lock_bug s = false ->
  let '(st, outs, s') := uvm_api_live_migration_read_pages_resident p spaces s in
  k_locks s' = [] /\ k_lock_bug s' = false /\ k_live s' = k_live s /\ cc_ok out s' /\
  read_frame false p s s' /\ (HealthyEnv E -> st = NV_OK) /\
  (st = NV_OK -> exists nr : nat, read_result false p gpu D nr s' /\
     outs = mk_read_outs (Some (Z.of_nat (length (cpu_pages gpu D)) * PAGE_SIZE))
              (Some (Z.of_nat (length (gpu_phys gpu D)) * PAGE_SIZE)) (Some (n_pages p)) None (Some NV_OK)).
Proof.
  intros Hcap Hcall Hc Hlk Hlb. unfold uvm_api_live_migration_read_pages_resident.
  set (f := fun _ _ _ => _).
  pose proof (read_call_correct false f p spaces gpu D out s Hcap Hcall Hc Hlk Hlb) as H.
  destruct (read_handler _ _ _ _ _ _ _ s) as [[st outs] s']; cbn [fst snd] in H.
  destruct H as (H1 & H2 & Hc' & H3 & Hf & Hh & Hok). split_and!; try done.
  - intros HE. by apply Hh.
  - intros Hst. destruct (Hok Hst) as (l & nr & Hco & Hgo & Ho & _ & Hr). exists nr. split; [done|].
    cbn [snd] in Ho. rewrite Ho. subst f. cbn. by rewrite Hco, Hgo.
Qed.

(** The encrypted reads deliver the same OUT fields on success. *)
Definition encrypted_outs (p : read_params) (gpu : option Z) (D : list visit) (nr : nat) : read_outs :=
  mk_read_outs (Some (Z.of_nat (length (cpu_pages gpu D)) * PAGE_SIZE))
    (Some (Z.of_nat (length (gpu_phys gpu D)) * PAGE_SIZE)) (Some (n_pages p)) (Some (Z.of_nat nr)) (Some NV_OK).

Definition encrypted_read_ok (h : read_params -> list va_space -> K (nv_status * read_outs)) (ready : Prop)
    (p : read_params) (spaces : list va_space) (gpu : option Z) (D : list visit) (out : list Z) (s : kst) : Prop :=
  let '(st, outs, s') := h p spaces s in
  k_locks s' = [] /\ k_lock_bug s' = false /\ k_live s' = k_live s /\ cc_ok out s' /\
  read_frame true p s s' /\ (HealthyEnv E -> meta_room true p -> ready -> st = NV_OK) /\
  (st = NV_OK -> exists nr : nat, (nr <= length (gpu_phys gpu D))%nat /\ read_result true p gpu D nr s' /\
     outs = encrypted_outs p gpu D nr).

Lemma encrypted_read_result h outs (ready : option Z -> Prop) p spaces gpu D out s :
  (forall l (nr : nat),
     p1_cpu_off l = Z.of_nat (length (cpu_pages gpu D)) * PAGE_SIZE ->
     p1_gpu_off l = Z.of_nat (length (gpu_phys gpu D)) * PAGE_SIZE ->
     outs NV_OK l (Z.of_nat nr) = encrypted_outs p gpu D nr) ->
  LockSpec [] (h p spaces) [] -> k_locks s = [] -> k_lock_bug s = false ->
  wp (h p spaces) (call_result true outs p gpu D ready out s) s ->
  encrypted_read_ok h (ready gpu) p spaces gpu D out s.
Proof.
  intros Houts Hlock Hlk Hlb H. unfold encrypted_read_ok. destruct (Hlock s Hlk Hlb) as [H1 H2].
  unfold wp in H. destruct (h p spaces s) as [[st o] s']; cbn [fst snd] in *.
  destruct H as (Hc' & H3 & Hf & Hh & Hok). split_and!; try done.
  intros Hst. destruct (Hok Hst) as (l & nr & Hco & Hgo & Ho & Hnr & Hr). exists nr.
  cbn [snd] in Ho. rewrite Ho. split_and!; [done|done|]. by apply Houts.
Qed.

(** Ioctl 111: the same with ciphertext and metadata: OK means that the
    metadata entries, taken in order, decrypt the ciphertext in the GPU buffer to
    the contents of the GPU pages. *)
Theorem read_pages_resident_encrypted_correct p spaces gpu D out s :
  env_capable = true -> read_call true false p spaces gpu D -> cc_ok out s ->
  k_locks s = [] -> k_lock_bug s = false ->
  encrypted_read_ok uvm_api_live_migration_read_pages_resident_encrypted True p spaces gpu D out s.
Proof.
  intros. eapply (encrypted_read_result _ _ (fun _ => True)); try done.
  2: apply lock_read_handler. 2: by apply read_handler_spec.
  intros l nr Hco Hgo. unfold encrypted_outs. rewrite is_ok_NV_OK. by rewrite Hco, Hgo.
Qed.

(** Ioctl 113 satisfies the specification of ioctl 111: its pipelined
    transfer delivers the same pages, metadata and OUT fields on success. *)
Theorem read_pages_resident_encrypted_v2_correct p spaces gpu D out s :
  env_capable = true -> read_call true false p spaces gpu D -> cc_ok out s ->
  k_locks s = [] -> k_lock_bug s = false ->
  encrypted_read_ok uvm_api_live_migration_read_pages_resident_encrypted_v2 True p spaces gpu D out s.
Proof.
  intros. eapply (encrypted_read_result _ _ (fun _ => True)); try done.
  2: apply lock_read_handler. 2: by apply read_handler_spec.
  intros l nr Hco Hgo. unfold encrypted_outs. rewrite is_ok_NV_OK. by rewrite Hco, Hgo.
Qed.
End ReadTheorems.
