(* ===== verification/MtIoctls.v ===== *)
(** The multi-threaded reads of [uvm_live_migration.c]: ioctls 114 (plaintext),
    115 (ciphertext) and 116 (ciphertext of the dirty blocks only).

    They share pass 1, buffers, copies and exit path with the single-threaded
    reads; their transfer builds the runs and hands them to worker threads, whose
    interleaving is the argument [sched]. *)
From S2P Require Import Prelude Kernel VaBlock ConfComputing Runs Pass1 Jobs Slots Threads Transfer Layout Meta ReadIoctls ReadSpec.

Definition SIZE_MAX : Z := 2 ^ 64 - 1.

Section MtIoctls.
Context `{E : Env} `{G : CcGpu}.
Context (sched : list nat).

(** [crypto_meta_buf] is allocated anew at the size of the page array. *)
Definition regrow_meta (cap : Z) : K nv_status :=
  if SIZE_MAX / SIZEOF_CRYPTO_META <? cap then kret NV_ERR_NO_MEMORY else
  nm ← kvmalloc_array cap SIZEOF_CRYPTO_META;
  if negb nm then kret NV_ERR_NO_MEMORY else
  kfree true ;;
  kmod (set_meta ∅) ;;
  kret NV_OK.

(** From the end of pass 1 to the end of the workers. *)
Definition mt_transfer (cipher : bool) (p : read_params) (gpu : option Z) (l : pass1_locals)
    : K (nv_status * Z * Z) :=
  match gpu with
  | None => kret (NV_ERR_INVALID_DEVICE, 0, 0)
  | Some _ =>
      status ← (if cipher then regrow_meta (p1_cap l) else kret NV_OK);
      if negb (is_ok status) then kret (status, 0, 0) else
      if negb (0 <? p1_cnt l) then kret (NV_OK, 0, 0) else
      '(status, runs, rc) ← lm_mt_build_runs (p1_pages l) UVM_CONF_COMPUTING_DMA_BUFFER_SIZE;
      if negb (is_ok status) then kret (status, 0, 0) else
      '(status, nt) ← lm_mt_run_workers (p1_pages l) cipher (rp_gpu_buf p) sched runs (rp_num_threads p);
      kret (status, nt, rc)
  end.

Definition mt_body (cipher dirty_only : bool) (p : read_params) (spaces : list va_space) :=
  read_body cipher (walk_pages false dirty_only p spaces) (mt_transfer cipher p) p.

(** The OUT fields on success; the status always. *)
Definition mt_outs (p : read_params) (transfers : bool) (st : nv_status) (l : pass1_locals) (nt : Z) : read_outs :=
  if is_ok st then mk_read_outs (Some (p1_cpu_off l)) (Some (p1_gpu_off l)) (Some (n_pages p))
                     (if transfers then Some nt else None) (Some st)
  else only_status st.

(** Ioctl 114.  Without confidential computing it is ioctl 109 on a zeroed
    parameter block, whose fields are copied whatever the status. *)
Definition uvm_api_live_migration_read_pages_resident_mt (p : read_params) (spaces : list va_space)
    : K (nv_status * read_outs) :=
  if negb env_capable then kret (NV_ERR_INSUFFICIENT_PERMISSIONS, no_outs) else
  if bad_args p then kret (NV_ERR_INVALID_ARGUMENT, no_outs) else
  if negb env_cc then
    '(status, fb) ← uvm_api_live_migration_read_pages_resident p spaces;
    kret (status, mk_read_outs (Some (default 0 (ro_cpu_bytes fb))) (Some (default 0 (ro_gpu_bytes fb)))
                    (Some (default 0 (ro_num_pages fb))) None (Some status))
  else with_bufs false (mt_body false false p spaces) (mt_outs p false) p.

(** What 115 and 116 share: they differ in the pages they walk. *)
Definition encrypted_mt (dirty_only : bool) (p : read_params) (spaces : list va_space)
    : K (nv_status * read_outs) :=
  if negb env_capable then kret (NV_ERR_INSUFFICIENT_PERMISSIONS, no_outs) else
  if bad_args p then kret (NV_ERR_INVALID_ARGUMENT, no_outs) else
  if negb env_cc then kret (NV_ERR_NOT_SUPPORTED, no_outs) else
  with_bufs true (mt_body true dirty_only p spaces) (mt_outs p true) p.

Definition uvm_api_live_migration_read_pages_resident_encrypted_mt : read_params -> list va_space ->
    K (nv_status * read_outs) := encrypted_mt false.
Definition uvm_api_live_migration_read_dirty_delta_encrypted_mt : read_params -> list va_space ->
    K (nv_status * read_outs) := encrypted_mt true.
End MtIoctls.

(** ** The transfer of the multi-threaded reads *)

Section MtSpec.
Context `{E : Env} `{G : CcGpu}.
Context (sched : list nat).

Lemma lock_mt_transfer cipher p gpu l : LockSpec [] (mt_transfer sched cipher p gpu l) [].
Proof. unfold mt_transfer, regrow_meta. destruct gpu; locks. Qed.

Lemma live_regrow_meta cap : LiveSpec (regrow_meta cap) (fun _ => 0).
Proof.
  unfold regrow_meta. destruct (_ <? _); [by apply live_ret|].
  eapply live_bind; [apply live_kvmalloc_array|]. intros []; cbn [negb]; [|by apply live_ret].
  intros s. cbn. lia.
Qed.

Lemma regrow_meta_spec cap s : 0 <= cap <= 2 ^ 51 ->
  wp (regrow_meta cap) (fun st s' => calm s s' /\ k_live s' = k_live s /\ (HealthyEnv E -> st = NV_OK)) s.
Proof.
  intros Hc. apply wp_mono with (Q := fun st s' => (calm s s' /\ (HealthyEnv E -> st = NV_OK)) /\ k_live s' = k_live s + 0);
    [apply wp_and; [|apply (wp_live_exact _ _ _ (live_regrow_meta cap))]|].
  2:{ intros st s' [[H1 H2] H3]. split_and!; [done|lia|done]. }
  unfold regrow_meta, SIZEOF_CRYPTO_META, SIZE_MAX. apply wp_if; intros Hm; btest.
  { exfalso. revert Hm. apply Z.le_ngt. apply Z.div_le_lower_bound; lia. }
  apply wp_bind, wp_kvmalloc_quiet. intros nm s1 Hq%quiet_calm Hh. apply wp_if; intros Hnm.
  { wdet. split; [done|]. intros HE. by rewrite Hh in Hnm by (done || lia). }
  wdet. split; [|done]. by destruct Hq as [(?&?&?&?&?) ?].
Qed.

(** Building the runs of a dense page array and handing them to the workers. *)
Lemma mt_runs_spec cipher p phys out s :
  env_cc = true -> 0 <= rp_num_threads p -> pass2_args phys (rp_gpu_buf p) -> cc_ok out s ->
  wp ('(status, runs, rc) ← lm_mt_build_runs (dense phys) UVM_CONF_COMPUTING_DMA_BUFFER_SIZE;
      if negb (is_ok status) then kret (status, 0, 0) else
      '(status, nt) ← lm_mt_run_workers (dense phys) cipher (rp_gpu_buf p) sched runs (rp_num_threads p);
      kret (status, nt, rc)) (fun r s' =>
    cc_ok out s' /\ k_live s' = k_live s + runs_live (snd r) /\
    outside_kept phys (rp_gpu_buf p) s s' /\ (HealthyEnv E -> fst (fst r) = NV_OK) /\
    (fst (fst r) = NV_OK -> exists nr : nat, snd (fst r) = Z.of_nat nr /\ (nr <= length phys)%nat /\
       transferred phys (rp_gpu_buf p) cipher nr s')) s.
Proof.
  intros Hcc Hn Ha Hc. destruct (coalesce_args phys _ Ha) as [Hta Hlen].
  apply wp_bind. eapply wp_mono.
  { apply wp_and; [apply lm_mt_build_runs_correct|].
    apply (wp_keeps quiet); [apply quiet_build_runs|]. intros r s' H. exact H. }
  intros [[st runs] rc] s1 [[Hb Hh] Hq]. pose proof (quiet_cc_ok out _ _ Hq Hc) as Hc1.
  assert (k_user s1 = k_user s) as Hu1 by apply Hq.
  apply wp_if; intros Hst; bprop.
  { wdet. destruct Hb as [(-> & _)|(_ & _ & _ & Hlv)]; [done|]. split_and!; try done.
    - intros a _. by rewrite Hu1.
    - intros HE. destruct Hst. apply Hh; [done|]. destruct Ha. unfold coalesce in *. lia. }
  destruct Hb as [(_ & -> & _ & Hlv)|(-> & _)]; [|done].
  destruct (Hc1 Hcc) as [Hp1 Hl1]. apply wp_bind. eapply wp_mono.
  { apply run_workers_spec; [done|done|by eapply transfer_jobs_wf|exact Hp1|done]. }
  intros [st2 nt] s2 (Hp2 & Hl2 & Hf2 & Hd & Hlv2). wdet. split_and!.
  - by split.
  - cbn [snd]. change (runs_live 0) with 0 in *. lia.
  - intros a Hna. rewrite <- Hu1. by eapply transfer_outside.
  - apply Hd.
  - intros Hok. destruct (transfer_output _ _ _ _ _ _ _ _ Hta Hd Hok) as [Hnt Ht]. eauto.
Qed.

#[export] Instance mt_transfer_spec cipher p : env_cc = true -> 0 <= rp_num_threads p ->
  TransferSpec cipher (rp_gpu_buf p) (fun gpu => is_Some gpu) (mt_transfer sched cipher p).
Proof.
  intros Hcc Hn. split; [|intros; apply lock_mt_transfer].
  intros gpu l phys out s Hp Hcap Ha Hc _. unfold mt_transfer. rewrite Hp, Hcc, andb_true_r.
  destruct gpu as [g|].
  2:{ wdet. split_and!; try done; try (cbn [snd]; change (runs_live 0) with 0; lia); by intros _ [? ?]. }
  apply wp_bind, wp_mono with (Q := fun st s' => calm s s' /\ k_live s' = k_live s /\ (HealthyEnv E -> st = NV_OK)).
  { destruct cipher; [by apply regrow_meta_spec|]. by wdet. }
  intros st s1 (Hq & Hlv & Hh). pose proof (calm_cc_ok _ _ _ Hq Hc) as Hc1. destruct Hq as [_ Hu].
  apply wp_if; intros Hst; bprop.
  { wdet. split_and!; try done; try (cbn [snd]; change (runs_live 0) with 0; lia); try (by intros a _; rewrite Hu). intros HE _. by destruct Hst; apply Hh. }
  apply wp_if; intros Hcnt.
  { wdet. assert (phys = []) as ->.
    { unfold p1_cnt in Hcnt. rewrite Hp, length_dense in Hcnt. apply nil_length_inv. btest. }
    split_and!; try done; try (cbn [snd]; change (runs_live 0) with 0; lia); try (by intros a _; rewrite Hu). intros _. exists 0%nat.
    split_and!; [done|done|]. by apply transferred_nil. }
  eapply wp_mono; [by apply mt_runs_spec|]. intros r s2 (Hc2 & Hlv2 & Ho & Hh2 & Hok).
  split_and!; [done|lia|by intros a Hna; rewrite Ho, Hu|by intros; apply Hh2|done].
Qed.
End MtSpec.

(** ** The three handlers *)

Section MtTheorems.
Context `{E : Env} `{G : CcGpu}.
Context (sched : list nat).

Lemma lock_mt cipher d p spaces outs meta :
  LockSpec [] (with_bufs meta (mt_body sched cipher d p spaces) outs p) [].
Proof. apply lock_with_bufs, lock_read_body, lock_mt_transfer. Qed.

Lemma mt_call_spec cipher d outs meta p spaces gpu D out s :
  env_cc = true -> 0 <= rp_num_threads p -> read_call cipher d p spaces gpu D -> cc_ok out s ->
  wp (with_bufs meta (mt_body sched cipher d p spaces) outs p)
     (call_result cipher outs p gpu D (fun gpu => is_Some gpu) out s) s.
Proof.
  intros Hcc Hn Hcall Hc. pose proof (mt_transfer_spec sched cipher p Hcc Hn).
  eapply with_bufs_spec; [done..|]. intros s' Hc'. by apply read_body_spec.
Qed.

(** C28: Ioctl 114 delivers what ioctl 109 does, under every schedule of its
    worker threads; without confidential computing it falls back to 109, with it a
    GPU is required. *)
Theorem read_pages_resident_mt_correct p spaces gpu D out s :
  env_capable = true -> 0 <= rp_num_threads p -> read_call false false p spaces gpu D -> cc_ok out s ->
  k_locks s = [] -> k_lock_bug s = false ->
  let '(st, outs, s') := uvm_api_live_migration_read_pages_resident_mt sched p spaces s in
  k_locks s' = [] /\ k_lock_bug s' = false /\ k_live s' = k_live s /\ cc_ok out s' /\
  read_frame false p s s' /\ (HealthyEnv E -> (env_cc = true -> is_Some gpu) -> st = NV_OK) /\
  (st = NV_OK -> exists nr : nat, read_result false p gpu D nr s' /\
     outs = mk_read_outs (Some (Z.of_nat (length (cpu_pages gpu D)) * PAGE_SIZE))
              (Some (Z.of_nat (length (gpu_phys gpu D)) * PAGE_SIZE)) (Some (n_pages p)) None (Some NV_OK)).
Proof.
  intros Hcap Hn Hcall Hc Hlk Hlb. unfold uvm_api_live_migration_read_pages_resident_mt.
  rewrite Hcap, (rc_args _ _ _ _ _ _ Hcall). cbn [negb]. destruct env_cc eqn:Hcc; cbn [negb].
  - pose proof (mt_call_spec false false (mt_outs p false) false p spaces gpu D out s Hcc Hn Hcall Hc) as H.
    destruct (lock_mt false false p spaces (mt_outs p false) false s Hlk Hlb) as [H1 H2].
    unfold wp in H. destruct (with_bufs _ _ _ _ s) as [[st o] s']; cbn [fst snd] in *.
    destruct H as (Hc' & H3 & Hf & Hh & Hok). split_and!; try done.
    + intros HE Hg. apply Hh; [done|done|]. by apply Hg.
    + intros Hst. destruct (Hok Hst) as (l & nr & Hco & Hgo & Ho & _ & Hr). exists nr. split; [done|].
      cbn [snd] in Ho. rewrite Ho. unfold mt_outs. rewrite is_ok_NV_OK. by rewrite Hco, Hgo.
  - unfold kbind, uvm_api_live_migration_read_pages_resident. set (f := fun _ _ _ => _).
    pose proof (read_call_correct false f p spaces gpu D out s Hcap Hcall Hc Hlk Hlb) as H.
    destruct (read_handler _ _ _ _ _ _ _ s) as [[st o] s']; cbn [fst snd kret] in *.
    destruct H as (H1 & H2 & Hc' & H3 & Hf & Hh & Hok). split_and!; try done.
    + intros HE _. by apply Hh.
    + intros Hst. destruct (Hok Hst) as (l & nr & Hco & Hgo & Ho & _ & Hr). exists nr. split; [done|].
      cbn [snd] in Ho. rewrite Ho, Hst. subst f. cbn. by rewrite Hco, Hgo.
Qed.

Lemma encrypted_mt_correct d p spaces gpu D out s :
  env_capable = true -> env_cc = true -> 0 <= rp_num_threads p -> read_call true d p spaces gpu D ->
  cc_ok out s -> k_locks s = [] -> k_lock_bug s = false ->
  encrypted_read_ok (encrypted_mt sched d) (is_Some gpu) p spaces gpu D out s.
Proof.
  intros Hcap Hcc Hn Hcall Hc Hlk Hlb.
  eapply (encrypted_read_result _ (mt_outs p true) (fun gpu => is_Some gpu)); try done.
  - intros l nr Hco Hgo. unfold encrypted_outs, mt_outs. rewrite is_ok_NV_OK. by rewrite Hco, Hgo.
  - unfold encrypted_mt. rewrite Hcap, Hcc, (rc_args _ _ _ _ _ _ Hcall). apply lock_mt.
  - unfold encrypted_mt. rewrite Hcap, Hcc, (rc_args _ _ _ _ _ _ Hcall). by apply mt_call_spec.
Qed.

(** Ioctl 115 satisfies the specification of ioctl 111 under every schedule
    of its worker threads, a GPU being required. *)
Theorem read_pages_resident_encrypted_mt_correct p spaces gpu D out s :
  env_capable = true -> env_cc = true -> 0 <= rp_num_threads p -> read_call true false p spaces gpu D ->
  cc_ok out s -> k_locks s = [] -> k_lock_bug s = false ->
  encrypted_read_ok (uvm_api_live_migration_read_pages_resident_encrypted_mt sched) (is_Some gpu)
    p spaces gpu D out s.
Proof. apply encrypted_mt_correct. Qed.

(** C29: Ioctl 116 satisfies that specification for the pages of dirty blocks
    only: the pages it visits are exactly those of the full walk whose block is
    tracked and dirty. *)
Theorem read_dirty_delta_correct p spaces gpu D out s :
  env_capable = true -> env_cc = true -> 0 <= rp_num_threads p -> read_call true true p spaces gpu D ->
  cc_ok out s -> k_locks s = [] -> k_lock_bug s = false ->
  encrypted_read_ok (uvm_api_live_migration_read_dirty_delta_encrypted_mt sched) (is_Some gpu)
    p spaces gpu D out s /\
  exists v, owner_space (rp_base p) spaces = Some v /\
    D = filter (fun x => visit_dirty x)
          (space_visits false (rp_base p) (rp_base p + n_pages p * PAGE_SIZE - 1) v).
Proof.
  intros Hcap Hcc Hn Hcall Hc Hlk Hlb. split; [by apply encrypted_mt_correct|].
  destruct (rc_owner _ _ _ _ _ _ Hcall) as (v & Hv & _ & -> & _). exists v. split; [done|].
  apply dirty_walk_restricts.
Qed.

(** The handlers of all reads. *)
Definition read_handlers : list (read_params -> list va_space -> K (nv_status * read_outs)) :=
  [uvm_api_live_migration_read_pages_resident;
   uvm_api_live_migration_read_pages_resident_encrypted;
   uvm_api_live_migration_read_pages_resident_encrypted_v2;
   uvm_api_live_migration_read_pages_resident_mt sched;
   uvm_api_live_migration_read_pages_resident_encrypted_mt sched;
   uvm_api_live_migration_read_dirty_delta_encrypted_mt sched].

Lemma no_owner_spec grow enc d meta outs T p spaces s :
  bad_args p = false -> owner_space (rp_base p) spaces = None ->
  wp (with_bufs meta (read_body enc (walk_pages grow d p spaces) T p) outs p)
     (fun r s' => (fst r = NV_ERR_NO_MEMORY \/ fst r = NV_ERR_INVALID_ADDRESS) /\ calm s s') s.
Proof.
  intros Hbad Hov. destruct (bad_args_false p Hbad) as [Hlen _]. unfold with_bufs.
  apply wp_bind, wp_kmalloc_quiet. intros pb s1 Hq1%quiet_calm _ _. apply wp_if; intros _; [by wdet; auto|].
  apply wp_bind. eapply wp_mono; [apply alloc_bufs_spec|]. intros [st bufs] s2 (Hq2 & Hst & _); cbn [fst] in *.
  pose proof (calm_trans _ _ _ Hq1 Hq2) as Hq12.
  apply wp_bind, wp_mono with (Q := fun r s' =>
    (fst (fst r) = NV_ERR_NO_MEMORY \/ fst (fst r) = NV_ERR_INVALID_ADDRESS) /\ calm s2 s').
  - apply wp_if; intros Hok; bprop; [wdet; split; [|done]; left; by destruct Hst|].
    unfold read_body, walk_pages. rewrite Hlen. apply wp_bind. eapply wp_mono; [apply pass1_spec|].
    intros [[st1 l] g] s3 (Huo & Hpost). rewrite Hov in Hpost. destruct Hpost as (-> & _ & _ & Hu).
    wdet. split; [by right|]. destruct Huo as (?&?&?&?&?&?&?&?). by split.
  - intros [[st1 l] nt] s3 [Hst1 Hq3]. apply wp_bind, wp_kfree_calm. intros s4 Hq4 _.
    apply wp_bind. pose proof (free_bufs_calm bufs s4) as Hq5. unfold wp.
    destruct (free_bufs bufs s4) as [[] s5]; unfold kret; cbn [fst snd] in *. split; [done|].
    eapply calm_trans; [exact Hq12|]. eapply calm_trans; [exact Hq3|]. by eapply calm_trans.
Qed.

(** C30: Each of the six read ioctls refuses a caller without CAP_SYS_ADMIN and
    bad arguments without any effect on the state, and for an address that no VA
    space manages returns an error with user memory untouched. *)
Theorem reads_reject_bad_calls h p spaces s :
  h ∈ read_handlers ->
  (env_capable = false -> h p spaces s = ((NV_ERR_INSUFFICIENT_PERMISSIONS, no_outs), s)) /\
  (env_capable = true -> bad_args p = true -> h p spaces s = ((NV_ERR_INVALID_ARGUMENT, no_outs), s)) /\
  (env_capable = true -> bad_args p = false -> owner_space (rp_base p) spaces = None ->
     let '(st, _, s') := h p spaces s in
     (st = NV_ERR_NO_MEMORY \/ st = NV_ERR_INVALID_ADDRESS \/ st = NV_ERR_NOT_SUPPORTED /\ env_cc = false) /\
     k_user s' = k_user s).
Proof.
  intros Hh.
  assert (forall m : K (nv_status * read_outs),
    wp m (fun r s' => (fst r = NV_ERR_NO_MEMORY \/ fst r = NV_ERR_INVALID_ADDRESS) /\ calm s s') s ->
    let '(st, _, s') := m s in
    (st = NV_ERR_NO_MEMORY \/ st = NV_ERR_INVALID_ADDRESS \/ st = NV_ERR_NOT_SUPPORTED /\ env_cc = false) /\
    k_user s' = k_user s) as Hq.
  { intros m. unfold wp. destruct (m s) as [[st o] s']; cbn [fst snd]. intros [Hst [_ Hu]]. tauto. }
  split_and!; [intros Hcap|intros Hcap Hb|intros Hcap Hb Hov].
  1, 2: repeat (apply elem_of_cons in Hh as [->|Hh]); [..|by apply not_elem_of_nil in Hh];
    cbv [uvm_api_live_migration_read_pages_resident uvm_api_live_migration_read_pages_resident_encrypted
      uvm_api_live_migration_read_pages_resident_encrypted_v2 uvm_api_live_migration_read_pages_resident_mt
      uvm_api_live_migration_read_pages_resident_encrypted_mt uvm_api_live_migration_read_dirty_delta_encrypted_mt
      encrypted_mt read_handler]; rewrite Hcap, ?Hb; done.
  repeat (apply elem_of_cons in Hh as [->|Hh]); [..|by apply not_elem_of_nil in Hh].
  1-3: apply Hq; unfold uvm_api_live_migration_read_pages_resident,
    uvm_api_live_migration_read_pages_resident_encrypted,
    uvm_api_live_migration_read_pages_resident_encrypted_v2, read_handler; rewrite Hcap, Hb; by apply no_owner_spec.
  - apply Hq. unfold uvm_api_live_migration_read_pages_resident_mt. rewrite Hcap, Hb. cbn [negb].
    apply wp_if; intros _; [|by apply no_owner_spec]. apply wp_bind.
    apply wp_mono with (Q := fun r s' => (fst r = NV_ERR_NO_MEMORY \/ fst r = NV_ERR_INVALID_ADDRESS) /\ calm s s').
    + unfold uvm_api_live_migration_read_pages_resident, read_handler. rewrite Hcap, Hb. by apply no_owner_spec.
    + intros [st o] s' H. by wdet.
  - unfold uvm_api_live_migration_read_pages_resident_encrypted_mt, encrypted_mt. rewrite Hcap, Hb. cbn [negb].
    destruct env_cc; cbn [negb]; [apply Hq; by apply no_owner_spec|]. cbn. auto.
  - unfold uvm_api_live_migration_read_dirty_delta_encrypted_mt, encrypted_mt. rewrite Hcap, Hb. cbn [negb].
    destruct env_cc; cbn [negb]; [apply Hq; by apply no_owner_spec|]. cbn. auto.
Qed.
End MtTheorems.
