(* ===== verification/Bench.v ===== *)
(** The decomposition benchmark of [uvm_live_migration.c], ioctl 117: the worker
    pipeline of ioctl 115 with flags that serialize it, decrypt in the kernel,
    send the output to a shared buffer, or drop it.

    The clock readings between the stages have no effect on the transfer and are
    left out, with the times they add up to. *)
From S2P Require Import Prelude Kernel VaBlock ConfComputing Runs Pass1 Jobs Slots Threads Transfer Layout Meta ReadIoctls ReadSpec.

Definition UVM_LIVE_MIGRATION_BENCH_SERIAL         : Z := 1.
Definition UVM_LIVE_MIGRATION_BENCH_DECRYPT        : Z := 2.
Definition UVM_LIVE_MIGRATION_BENCH_COPY_TO_SHARED : Z := 4.
Definition UVM_LIVE_MIGRATION_BENCH_SKIP_COPY      : Z := 8.

(** [flags & f]. *)
Definition has_flag (flags f : Z) : bool := negb (Z.land flags f =? 0).

Inductive b_phase := BConsume | BSubmit | BSerial | BDrain (c : bool) | BDone.

#[export] Instance b_phase_eq_dec : EqDecision b_phase.
Proof. solve_decision. Defined.

(** The locals of the loop; [bp_c] is the slot of the next run. *)
Record bpp := mk_bpp {
  bp_db     : Z * Z;
  bp_jobs   : list job;
  bp_c      : bool;
  bp_slots  : option slot * option slot;
  bp_status : nv_status;
  bp_nt     : Z;
  bp_at     : b_phase;
}.

Definition bp_init (db : Z * Z) (jobs : list job) : bpp :=
  mk_bpp db jobs false (None, None) NV_OK 0 BConsume.
Definition bp_goto (ph : b_phase) (st : nv_status) (p : bpp) : bpp :=
  mk_bpp (bp_db p) (bp_jobs p) (bp_c p) (bp_slots p) st (bp_nt p) ph.
Definition bp_clear (c : bool) (p : bpp) : bpp :=
  mk_bpp (bp_db p) (bp_jobs p) (bp_c p) (upd c None (bp_slots p)) (bp_status p) (bp_nt p) (bp_at p).

Section Bench.
Context `{E : Env} `{G : CcGpu}.
(** [gpu_pages], [dbg_flags] and [params->gpu_buf].  [crypto_meta_buf] is never
    NULL in the only caller. *)
Context (pages : list gpu_page) (flags gpu_buf : Z).

#[local] Notation job_pa := (job_pa pages).
#[local] Notation job_addr := (job_addr pages gpu_buf).
#[local] Notation serial := (has_flag flags UVM_LIVE_MIGRATION_BENCH_SERIAL).
#[local] Notation decrypt := (has_flag flags UVM_LIVE_MIGRATION_BENCH_DECRYPT).
#[local] Notation to_shared := (has_flag flags UVM_LIVE_MIGRATION_BENCH_COPY_TO_SHARED).
#[local] Notation skip_copy := (has_flag flags UVM_LIVE_MIGRATION_BENCH_SKIP_COPY).

(** [memcpy(sink_buf, src, rb)]. *)
Definition write_sink (sink : option Z) (src : list Z) : K unit :=
  match sink with
  | None => kret tt
  | Some b => kmod (fun s => let d := buf_get s b in
      buf_set b (mk_dma_buffer (overlay src (db_alloc d)) (db_auth_tag d) (db_decrypt_iv d)
                   (db_key_version d)) s)
  end.

Definition lm_bench_process_slot (sink : option Z) (b : Z) (sl : slot) : K nv_status :=
  let j := sl_job sl in
  status ← uvm_push_wait;
  if negb (is_ok status) then kret status else
  d ← kget (fun s => buf_get s b);
  let cipher := buf_cipher d (job_bytes j) in
  kmod (fun s => set_meta (<[jb_ti j := meta_of d (job_bytes j)]> (k_meta s)) s) ;;
  '(status, src) ← (if decrypt then
                      uvm_conf_computing_cpu_decrypt (sl_chan sl) cipher (db_decrypt_iv d)
                        (db_key_version d) (buf_tag d)
                    else kret (NV_OK, cipher));
  if negb (is_ok status) then kret status else
  if skip_copy then kret NV_OK else
  if to_shared then write_sink sink src ;; kret NV_OK else
  if gpu_buf =? 0 then kret NV_OK else
  fault ← copy_to_user (job_addr j) src;
  kret (if fault then NV_ERR_INVALID_ARGUMENT else NV_OK).

Section Loop.
Context (sink : option Z).

(** Pipelined: the previous submission on the slot is consumed first. *)
Definition bp_consume (p : bpp) : K bpp :=
  match bp_jobs p with
  | [] => kret (bp_goto (BDrain false) (bp_status p) p)
  | _ :: _ =>
      match (if serial then None else sel (bp_c p) (bp_slots p)) with
      | None => kret (bp_goto BSubmit (bp_status p) p)
      | Some sl =>
          status ← lm_bench_process_slot sink (sel (bp_c p) (bp_db p)) sl;
          kret (bp_goto (if is_ok status then BSubmit else BDrain false) status (bp_clear (bp_c p) p))
      end
  end.

Definition bp_submit (p : bpp) : K bpp :=
  match bp_jobs p with
  | [] => kret (bp_goto (BDrain false) (bp_status p) p)
  | j :: rest =>
      '(status, chan) ← uvm_push_begin;
      if negb (is_ok status) then kret (bp_goto (BDrain false) status p) else
      gpu_encrypt_to_buffer chan (sel (bp_c p) (bp_db p)) (job_pa j) (job_bytes j) ;;
      uvm_push_end chan ;;
      kret (mk_bpp (bp_db p) rest (if serial then false else negb (bp_c p))
              (upd (bp_c p) (Some (mk_slot chan j)) (bp_slots p)) status (bp_nt p + 1)
              (if serial then BSerial else BConsume))
  end.

(** Serial: it is consumed at once. *)
Definition bp_serial (p : bpp) : K bpp :=
  match sel (bp_c p) (bp_slots p) with
  | None => kret (bp_goto BConsume (bp_status p) p)
  | Some sl =>
      status ← lm_bench_process_slot sink (sel (bp_c p) (bp_db p)) sl;
      kret (bp_goto (if is_ok status then BConsume else BDrain false) status (bp_clear (bp_c p) p))
  end.

(** [for (c = 0; c < nslots; c++)]. *)
Definition bp_drain (c : bool) (p : bpp) : K bpp :=
  let next := if c || serial then BDone else BDrain true in
  match sel c (bp_slots p) with
  | None => kret (bp_goto next (bp_status p) p)
  | Some sl =>
      ds ← lm_bench_process_slot sink (sel c (bp_db p)) sl;
      kret (bp_goto next (first_err (bp_status p) ds) (bp_clear c p))
  end.

Definition bp_step (p : bpp) : K bpp :=
  match bp_at p with
  | BConsume => bp_consume p
  | BSubmit => bp_submit p
  | BSerial => bp_serial p
  | BDrain c => bp_drain c p
  | BDone => kret p
  end.
End Loop.

(** Steps from a state to [BDone]: three per run left, and the draining. *)
Definition bp_measure (p : bpp) : nat :=
  match bp_at p with
  | BSerial => 3 * length (bp_jobs p) + 5
  | BConsume => 3 * length (bp_jobs p) + 4
  | BSubmit => 3 * length (bp_jobs p) + 3
  | BDrain false => 2
  | BDrain true => 1
  | BDone => 0
  end%nat.

(** ** The thread *)

Inductive bw_phase :=
| BwStart | BwAlloc0 | BwAlloc1 | BwSink | BwRun | BwFreeSink | BwFree1 | BwFree0 | BwFreePlain | BwExit.

Record bench_worker := mk_bench_worker {
  bw_slice  : list job;
  bw_at     : bw_phase;
  bw_plain  : bool;                (* plain_buf is allocated *)
  bw_db     : option Z * option Z;
  bw_sink   : option Z;            (* sink_db *)
  bw_pp     : bpp;
  bw_status : nv_status;
}.

Definition bench_worker_init (slice : list job) (ph : bw_phase) (st : nv_status) : bench_worker :=
  mk_bench_worker slice ph false (None, None) None (bp_init (0, 0) slice) st.
Definition bw_goto (ph : bw_phase) (st : nv_status) (w : bench_worker) : bench_worker :=
  mk_bench_worker (bw_slice w) ph (bw_plain w) (bw_db w) (bw_sink w) (bw_pp w) st.
Definition bw_set (ph : bw_phase) (db : option Z * option Z) (sink : option Z) (w : bench_worker)
    : bench_worker :=
  mk_bench_worker (bw_slice w) ph (bw_plain w) db sink (bw_pp w) (bw_status w).

(** The loop starts once all buffers are there. *)
Definition bw_loop (sink : option Z) (w : bench_worker) : bench_worker :=
  let db := (default 0 (fst (bw_db w)), default 0 (snd (bw_db w))) in
  mk_bench_worker (bw_slice w) BwRun (bw_plain w) (bw_db w) sink (bp_init db (bw_slice w)) (bw_status w).

(** [if (db) dma_buffer_free(db)]. *)
Definition free_if (b : option Z) : K unit :=
  match b with Some _ => uvm_conf_computing_dma_buffer_free b | None => kret tt end.

Definition lm_bench_worker_step (w : bench_worker) : K bench_worker :=
  match bw_at w with
  | BwStart =>
      if negb decrypt then kret (bw_goto BwAlloc0 (bw_status w) w) else
      p ← kmalloc;
      if negb p then kret (bw_goto BwExit NV_ERR_NO_MEMORY w)
      else kret (mk_bench_worker (bw_slice w) BwAlloc0 true (bw_db w) (bw_sink w) (bw_pp w) (bw_status w))
  | BwAlloc0 =>
      '(status, b) ← uvm_conf_computing_dma_buffer_alloc;
      match b with
      | None => kret (bw_goto BwFreeSink status w)
      | Some _ => kret (bw_set (if serial then BwSink else BwAlloc1) (b, snd (bw_db w)) (bw_sink w) w)
      end
  | BwAlloc1 =>
      '(status, b) ← uvm_conf_computing_dma_buffer_alloc;
      match b with
      | None => kret (bw_goto BwFreeSink status w)
      | Some _ => kret (bw_set BwSink (fst (bw_db w), b) (bw_sink w) w)
      end
  | BwSink =>
      if negb to_shared then kret (bw_loop None w) else
      '(status, b) ← uvm_conf_computing_dma_buffer_alloc;
      match b with
      | None => kret (bw_goto BwFreeSink status w)
      | Some _ => kret (bw_loop b w)
      end
  | BwRun =>
      p ← bp_step (bw_sink w) (bw_pp w);
      kret (mk_bench_worker (bw_slice w) (if bool_decide (bp_at p = BDone) then BwFreeSink else BwRun)
              (bw_plain w) (bw_db w) (bw_sink w) p (bp_status p))
  | BwFreeSink => free_if (bw_sink w) ;; kret (bw_set BwFree1 (bw_db w) None w)
  | BwFree1 => free_if (snd (bw_db w)) ;; kret (bw_set BwFree0 (fst (bw_db w), None) (bw_sink w) w)
  | BwFree0 => free_if (fst (bw_db w)) ;; kret (bw_set BwFreePlain (None, snd (bw_db w)) (bw_sink w) w)
  | BwFreePlain => kfree (bw_plain w) ;;
      kret (mk_bench_worker (bw_slice w) BwExit false (bw_db w) (bw_sink w) (bw_pp w) (bw_status w))
  | BwExit => kret w
  end.

(** Steps to [BwExit]. *)
Definition bw_measure (w : bench_worker) : nat :=
  match bw_at w with
  | BwStart => 3 * length (bw_slice w) + 13
  | BwAlloc0 => 3 * length (bw_slice w) + 12
  | BwAlloc1 => 3 * length (bw_slice w) + 11
  | BwSink => 3 * length (bw_slice w) + 10
  | BwRun => bp_measure (bw_pp w) + 5
  | BwFreeSink => 4
  | BwFree1 => 3
  | BwFree0 => 2
  | BwFreePlain => 1
  | BwExit => 0
  end%nat.

Definition lm_bench_worker_fn : thread_fn := {|
  tf_state   := bench_worker;
  tf_start   := fun slice => bench_worker_init slice BwStart NV_OK;
  tf_dead    := fun slice => bench_worker_init slice BwExit NV_ERR_NO_MEMORY;
  tf_step    := lm_bench_worker_step;
  tf_measure := bw_measure;
  tf_status  := bw_status;
  tf_count   := fun w => bp_nt (bw_pp w);
|}.

(** Status, [num_transfers] and [threads_used]; these stay 0 when no thread could
    be started. *)
Definition lm_bench_run_workers (sched : list nat) (runs : list run) (num_threads : Z)
    : K (nv_status * (Z * Z)) :=
  '(status, r) ← run_threads lm_bench_worker_fn sched runs num_threads;
  kret (status, match r with
                | Some (k, ws) => (sum_counts lm_bench_worker_fn ws, k)
                | None => (0, 0)
                end).
End Bench.

(** ** The handler *)

(** The OUT fields, [None] where the handler leaves them alone. *)
Record bench_outs := mk_bench_outs {
  bo_cpu_bytes     : option Z;
  bo_gpu_bytes     : option Z;
  bo_num_pages     : option Z;
  bo_num_transfers : option Z;
  bo_threads_used  : option Z;
  bo_rmStatus      : option nv_status;
}.

Definition no_bench_outs : bench_outs := mk_bench_outs None None None None None None.

Section BenchHandler.
Context `{E : Env} `{G : CcGpu}.
Context (sched : list nat) (flags : Z).

(** [rl_s] and [rl_b] by their capacity, and [crypto_meta_buf]. *)
Definition bench_bufs : Type := Z * bool.

(** From [crypto_meta_buf] on: status, transfers and threads, and the buffers to
    release. *)
Definition bench_transfer (p : read_params) (gpu : option Z) (l : pass1_locals)
    : K (nv_status * (Z * Z) * bench_bufs) :=
  match gpu with
  | None => kret (NV_ERR_INVALID_DEVICE, (0, 0), (0, false))
  | Some _ =>
      crypto_meta_buf ← kvmalloc_array (p1_cap l) SIZEOF_CRYPTO_META;
      kmod (set_meta ∅) ;;
      if negb crypto_meta_buf then kret (NV_ERR_NO_MEMORY, (0, 0), (0, false)) else
      if p1_cnt l =? 0 then kret (NV_OK, (0, 0), (0, true)) else
      '(status, runs, rc) ← lm_mt_build_runs (p1_pages l) UVM_CONF_COMPUTING_DMA_BUFFER_SIZE;
      if negb (is_ok status) then kret (status, (0, 0), (0, true)) else
      '(status, r) ← lm_bench_run_workers (p1_pages l) flags (rp_gpu_buf p) sched runs (rp_num_threads p);
      kret (status, r, (rc, true))
  end.

Definition bench_body (p : read_params) (spaces : list va_space)
    : K (nv_status * pass1_locals * (Z * Z) * bench_bufs) :=
  '(status, l, gpu) ← walk_pages false false p spaces;
  if negb (is_ok status) then kret (status, l, (0, 0), (0, false)) else
  '(status, r, b) ← bench_transfer p gpu l;
  status ← (if negb (is_ok status) then kret status else copy_residency_map p (p1_resmap l));
  kret (status, l, r, b).

(** [bd_out]. *)
Definition bench_outs_of (p : read_params) (st : nv_status) (l : pass1_locals) (r : Z * Z) : bench_outs :=
  if is_ok st then mk_bench_outs (Some (p1_cpu_off l)) (Some (p1_gpu_off l)) (Some (n_pages p))
                     (Some (fst r)) (Some (snd r)) (Some st)
  else mk_bench_outs None None None (Some (fst r)) (Some (snd r)) (Some st).

Definition uvm_api_live_migration_bench_decompose (p : read_params) (spaces : list va_space)
    : K (nv_status * bench_outs) :=
  if negb env_capable then kret (NV_ERR_INSUFFICIENT_PERMISSIONS, no_bench_outs) else
  if bad_args p then kret (NV_ERR_INVALID_ARGUMENT, no_bench_outs) else
  if negb env_cc then kret (NV_ERR_NOT_SUPPORTED, no_bench_outs) else
  page_buf ← kmalloc;
  if negb page_buf then kret (NV_ERR_NO_MEMORY, mk_bench_outs None None None (Some 0) (Some 0) None) else
  '(status, (resmap, gpu_pages, _)) ← alloc_bufs false (n_pages p);
  '(status, l, r, (rc, crypto_meta_buf)) ←
    (if negb (is_ok status) then kret (status, pass1_start (n_pages p), (0, 0), (0, false))
     else bench_body p spaces);
  kfree_runs rc ;;
  kfree page_buf ;;
  kfree resmap ;;
  kfree gpu_pages ;;
  kfree crypto_meta_buf ;;
  kret (status, bench_outs_of p status l r).
End BenchHandler.

(** ** Correctness of the loop *)

(** The user buffer that gets output, none for the flags that divert it. *)
Definition bench_buf (flags gpu_buf : Z) : Z :=
  if has_flag flags UVM_LIVE_MIGRATION_BENCH_SKIP_COPY
     || has_flag flags UVM_LIVE_MIGRATION_BENCH_COPY_TO_SHARED then 0 else gpu_buf.

(** The output of a job: with [DECRYPT] its plaintext, and a metadata entry that
    decrypts some ciphertext to it; otherwise the ciphertext. *)
Definition bench_ok `{G : CcGpu} (pages : list gpu_page) (flags gpu_buf : Z) (j : job) (s : kst) : Prop :=
  let gb := bench_buf flags gpu_buf in
  if has_flag flags UVM_LIVE_MIGRATION_BENCH_DECRYPT
  then out_ok pages true 0 j s /\ out_ok pages false gb j s
  else out_ok pages true gb j s.

Section BenchLoop.
Context `{E : Env} `{G : CcGpu}.
Context (pages : list gpu_page) (flags gpu_buf : Z).
#[local] Notation gb := (bench_buf flags gpu_buf).
#[local] Notation bench_ok := (bench_ok pages flags gpu_buf).
#[local] Notation serial := (has_flag flags UVM_LIVE_MIGRATION_BENCH_SERIAL).
#[local] Notation decrypt := (has_flag flags UVM_LIVE_MIGRATION_BENCH_DECRYPT).
#[local] Notation flying := (flying pages gb bench_ok).
#[local] Notation flight := (flight pages bench_ok).
#[local] Notation taken := (taken pages gb bench_ok).
#[local] Notation process_slot := (lm_bench_process_slot pages flags gpu_buf).

#[export] Instance bench_ok_framed : Framed pages gb bench_ok.
Proof.
  intros js out j s s' Hf Hsep. unfold Bench.bench_ok. destruct (has_flag _ _).
  - intros [(c & Hst & _) H2]. split; [|by eapply out_ok_frame].
    exists c. split; [|done]. eapply stored_meta; [|exact Hst]. destruct Hf as (_ & Hm & _).
    apply Hm. intros Hin. apply list_elem_of_fmap in Hin as (j' & Heq & Hj'). by apply (Hsep j' Hj').
  - intros H; by eapply out_ok_frame.
Qed.

(** A step before the output. *)
Lemma taken_after j scr s s1 ds s2 :
  consume_frame pages gb j s s1 -> taken j scr s1 ds s2 -> taken j scr s ds s2.
Proof.
  intros (Hf & Hb & Hfr & Hnum & Hnx) [Hf2 Hb2 Hp2 Ho Hh]. split; try done.
  - by eapply step_frame_trans.
  - intros b Hs. by rewrite Hb2, Hb.
  - intros L HL Hp. apply Hp2; [done|]. eapply pool_inv_perm; [..|exact Hp]; try done. by rewrite Hfr.
Qed.

Lemma taken_here j scr s st :
  (st = NV_OK -> bench_ok j s) -> (HealthyEnv E -> st = NV_OK) -> taken j scr s st s.
Proof. intros Ho Hh. by split. Qed.

(** The bytes [src] to output: the plaintext or the ciphertext the metadata
    entry is for. *)
Definition sourced (j : job) (src : list Z) (s : kst) : Prop :=
  Z.of_nat (length src) = job_bytes j /\
  exists c, stored pages j c s /\ src = (if decrypt then vid_read (job_pa pages j) (job_bytes j) else c).

Lemma bench_ok_intro j src s :
  sourced j src s -> (gb <> 0 -> mem_holds (k_user s) (job_addr pages gb j) src) -> bench_ok j s.
Proof.
  intros (_ & c & Hst & Hsrc) Hm. unfold Bench.bench_ok. destruct (has_flag flags _); subst src.
  - split; [exists c; by split|done].
  - exists c. by split.
Qed.

Lemma sourced_meta j src s s' : k_meta s' = k_meta s -> sourced j src s -> sourced j src s'.
Proof.
  intros Hm (Hl & c & Hst & Hs). split; [done|]. exists c. split; [|done].
  eapply stored_meta; [|exact Hst]. by rewrite Hm.
Qed.

(** Writing a scratch buffer. *)
Lemma taken_write j b d s : bench_ok j s -> taken j [b] s NV_OK (buf_set b d s).
Proof.
  intros Hj. assert (buf_only b s (buf_set b d s)) as Hbo by (split_and!; try done; eauto).
  assert (step_frame pages gb [] [] s (buf_set b d s)) as Hf.
  { apply cc_frame_step_frame, (buf_only_cc_frame [] b); [by apply not_elem_of_nil|done]. }
  split; try done.
  - apply (step_frame_weaken pages gb [] [j] [] []); [|done..]. intros x Hx. by apply elem_of_nil in Hx.
  - intros x Hx. cbn. rewrite lookup_insert_ne; [done|]. intros <-. apply Hx. by left.
  - intros L HL. apply (buf_only_pool_inv L b); [apply HL; by left|done].
Qed.

(** The last stage: the output copy, a copy to the shared buffer, or nothing. *)
Lemma output_spec sink j src s :
  sourced j src s ->
  wp (if has_flag flags UVM_LIVE_MIGRATION_BENCH_SKIP_COPY then kret NV_OK else
      if has_flag flags UVM_LIVE_MIGRATION_BENCH_COPY_TO_SHARED then write_sink sink src ;; kret NV_OK else
      if gpu_buf =? 0 then kret NV_OK else
      fault ← copy_to_user (job_addr pages gpu_buf j) src;
      kret (if fault : bool then NV_ERR_INVALID_ARGUMENT else NV_OK)) (taken j (option_list sink) s) s.
Proof.
  intros Hs. pose proof (bench_ok_intro j src s Hs) as Hok.
  apply wp_if; intros H1.
  { wdet. apply taken_here; [|done]. intros _. apply Hok. unfold bench_buf. by rewrite H1. }
  apply wp_if; intros H2.
  { assert (bench_ok j s) as Hj by (apply Hok; unfold bench_buf; by rewrite H2, orb_true_r).
    destruct sink as [b|]; cbn [write_sink]; wdet; [by apply taken_write|by apply taken_here]. }
  assert (gb = gpu_buf) as Hgb by (unfold bench_buf; by rewrite H1, H2).
  apply wp_if; intros Hz; bprop; [wdet; apply taken_here; [intros _; apply Hok; by rewrite Hgb|done]|].
  assert (job_addr pages gpu_buf j = job_addr pages gb j) as -> by (by rewrite Hgb).
  apply wp_bind, (copy_to_user_frame pages gb); [apply Hs|by rewrite Hgb|].
  intros f s' Hf Hm Hh Hok'. wdet. apply (taken_after j _ s s'); [done|].
  apply taken_here; [|intros HE; by rewrite Hok']. destruct f; [done|]. intros _.
  apply (bench_ok_intro j src); [by eapply sourced_meta|auto].
Qed.

Lemma process_slot_spec sink b sl s :
  let j := sl_job sl in
  holds_copy (buf_get s b) (job_pa pages j) (job_bytes j) -> 0 <= job_bytes j ->
  wp (process_slot sink b sl) (taken j (option_list sink) s) s.
Proof.
  intros j Hcp Hsz. unfold lm_bench_process_slot, uvm_push_wait. fold j.
  apply wp_bind, wp_and_healthy_status. intros st t Hh.
  apply wp_mono with (Q := taken j (option_list sink) (set_tick t s)).
  2:{ intros ds s'. apply taken_after, consume_frame_quiet; [by repeat split|apply amb_tick]. }
  change (buf_get s b) with (buf_get (set_tick t s) b) in Hcp. set (s1 := set_tick t s) in *. clearbody s1.
  apply wp_if; intros Hst; bprop; [wdet; by apply taken_here|].
  wdet. set (d := buf_get s1 b) in *. cbv zeta.
  pose proof Hcp as (Hd & Hlc & _). pose proof (stored_after pages d j s1 Hcp) as Hst1.
  pose proof (consume_frame_meta pages gb j (meta_of d (job_bytes j)) s1) as Hf1.
  wdet. eapply wp_mono; [|intros ds s'; by apply taken_after]. set (s2 := set_meta _ s1) in *. clearbody s2.
  apply wp_mono with (Q := fun r s3 => consume_frame pages gb j s2 s3 /\ k_meta s3 = k_meta s2 /\
    (HealthyEnv E -> fst r = NV_OK) /\ (fst r = NV_OK -> sourced j (snd r) s2)).
  - apply wp_if; intros Hdec.
    + eapply wp_cpu_decrypt_full; [exact Hd|]. intros st2 p s3 Hp Hh2 Hc Hv. split_and!; try done; [by apply consume_frame_quiet|apply Hc|].
      intros Hst2. cbn in Hst2. cbn [snd]. rewrite (Hp Hst2). split; [by apply length_vid_read|].
      eexists. split; [exact Hst1|]. by rewrite Hdec.
    + wdet. split_and!; try done. intros _. split; [done|]. eexists. split; [exact Hst1|]. by rewrite Hdec.
  - intros [st2 src] s3 (Hf3 & Hm3 & Hh3 & Hs3). eapply wp_mono; [|intros ds s'; by apply taken_after].
    apply wp_if; intros Hst2; bprop; [wdet; by apply taken_here|]. apply output_spec.
    eapply sourced_meta; [exact Hm3|by apply Hs3].
Qed.

(** *** The loop machine *)

(** Serial runs use slot 0 only. *)
Definition bp_shape (p : bpp) : Prop :=
  serial = true -> bp_c p = false /\ sel true (bp_slots p) = None.

Definition bp_ok (p : bpp) : Prop :=
  bp_shape p /\
  match bp_at p with
  | BConsume => bp_status p = NV_OK /\ (serial = true -> sel false (bp_slots p) = None)
  | BSubmit => bp_status p = NV_OK /\ sel (bp_c p) (bp_slots p) = None
  | BSerial => bp_status p = NV_OK /\ serial = true
  | BDrain c => (bp_status p = NV_OK -> bp_jobs p = []) /\ (c = true -> sel false (bp_slots p) = None)
  | BDone => (bp_status p = NV_OK -> bp_jobs p = []) /\ bp_slots p = (None, None)
  end.

Definition bp_flight (all : list job) (p : bpp) (s : kst) : Prop :=
  flight all (bp_db p) (bp_slots p) (bp_jobs p) (bp_status p) (bp_nt p) s /\ bp_ok p.

Lemma bp_ok_init db all : bp_ok (bp_init db all).
Proof. by split. Qed.

Lemma bp_flight_delivered all p s :
  bp_flight all p s -> bp_at p = BDone -> delivered bench_ok all (bp_status p) (bp_nt p) s.
Proof.
  intros [Hf [_ Hok]] Hat. rewrite Hat in Hok. destruct Hok as [Hj Hs].
  rewrite Hs in Hf. by eapply flight_delivered.
Qed.

(** The buffers of the loop: [db] (in serial runs its first component only) and
    [sink], all different and held. *)
Record bp_bufs_ok (bufs : list Z) (sink : option Z) (db : Z * Z) : Prop := {
  bb_in : forall c, (serial = true -> c = false) -> sel c db ∈ bufs /\ sel c db ∉ option_list sink;
  bb_ne : serial = false -> fst db <> snd db;
  bb_sink : forall b, b ∈ option_list sink -> b ∈ bufs;
}.

Lemma first_err_NV_OK ds : first_err NV_OK ds = ds.
Proof. unfold first_err. rewrite is_ok_NV_OK, andb_true_r. destruct (is_ok ds) eqn:H; by bprop. Qed.

Context (all : list job) (Hwf : jobs_wf pages gb all) (bufs out : list Z) (Hcc : env_cc = true).
Context (sink : option Z).

Definition bp_flies (s0 : kst) (p : bpp) (s : kst) : Prop :=
  flying all bufs out s0 (bp_db p) (bp_slots p) (bp_jobs p) (bp_status p) (bp_nt p) s /\ bp_ok p.

Definition bp_moves (s0 : kst) (p p' : bpp) (s' : kst) : Prop := bp_flies s0 p' s' /\ bp_db p' = bp_db p.

Lemma shape_active p c sl : bp_shape p -> sel c (bp_slots p) = Some sl -> serial = true -> c = false.
Proof. intros Hs Hsl Hse. destruct (Hs Hse) as [_ Hn]. destruct c; [congruence|done]. Qed.

(** Processing and clearing an active slot. *)
Lemma bp_take c sl s0 p s :
  bp_bufs_ok bufs sink (bp_db p) -> bp_shape p ->
  flying all bufs out s0 (bp_db p) (bp_slots p) (bp_jobs p) (bp_status p) (bp_nt p) s ->
  sel c (bp_slots p) = Some sl ->
  wp (process_slot sink (sel c (bp_db p)) sl) (fun ds s' =>
    flying all bufs out s0 (bp_db p) (upd c None (bp_slots p)) (bp_jobs p) (first_err (bp_status p) ds)
      (bp_nt p) s') s.
Proof.
  intros [Hin Hne Hsk] Hsh Hf Hsl. destruct (flying_slot Hwf Hf Hsl) as [Hcp Hsz].
  eapply wp_mono; [by apply process_slot_spec|]. intros ds s' Htk.
  apply (flying_taken Hwf (first_err (bp_status p) ds) Hf Hsl Htk); [done| |by intros []%first_err_ok|].
  - intros c' sl' Hsl'. apply Hin. by eapply shape_active.
  - intros HE. apply first_err_ok. split; [|by apply Htk]. by destruct Hf as [[_ _ _ Hh] _ _ _ _]; apply Hh.
Qed.

Lemma shape_goto ph st p : bp_shape p -> bp_shape (bp_goto ph st p).
Proof. done. Qed.

Lemma shape_clear c p : bp_shape p -> bp_shape (bp_clear c p).
Proof.
  intros Hs Hse. destruct (Hs Hse) as [Hc Hn]. split; [done|]. cbn [bp_slots bp_clear]. rewrite sel_upd.
  by destruct (bool_decide _).
Qed.

(** Leaving for the draining loop with an error, or with no run left. *)
Lemma bp_to_drain s0 p s st slots :
  flying all bufs out s0 (bp_db p) slots (bp_jobs p) st (bp_nt p) s -> bp_shape p ->
  (serial = true -> sel true slots = None) -> (st = NV_OK -> bp_jobs p = []) ->
  bp_flies s0 (mk_bpp (bp_db p) (bp_jobs p) (bp_c p) slots st (bp_nt p) (BDrain false)) s.
Proof.
  intros Hf Hsh Hn Hj. split; [done|]. split; [|by split].
  intros Hse. split; [by apply Hsh|auto].
Qed.

Lemma shape_upd p c : bp_shape p -> serial = true -> sel true (upd c None (bp_slots p)) = None.
Proof. intros Hs Hse. rewrite sel_upd. destruct (bool_decide _); [done|]. by apply Hs. Qed.

Lemma bp_consume_spec s0 p s :
  bp_at p = BConsume -> bp_bufs_ok bufs sink (bp_db p) -> bp_flies s0 p s ->
  wp (bp_consume pages flags gpu_buf sink p) (bp_moves s0 p) s.
Proof.
  intros Hat Hb [Hf [Hsh Hok]]. rewrite Hat in Hok. destruct Hok as [Hst Hsl0]. unfold bp_consume.
  destruct (bp_jobs p) as [|j rest] eqn:Hjobs.
  { wdet. split; [|done]. rewrite <- Hjobs in Hf. apply bp_to_drain; try done. intros Hse. by apply Hsh. }
  rewrite <- Hjobs in Hf. destruct (if serial then None else sel (bp_c p) (bp_slots p)) as [sl|] eqn:Hsl.
  - assert (serial = false /\ sel (bp_c p) (bp_slots p) = Some sl) as [Hse Hsl'] by (destruct serial; done).
    apply wp_bind. eapply wp_mono; [by apply (bp_take (bp_c p) sl s0)|]. intros ds s' Hf'.
    rewrite Hst, first_err_NV_OK in Hf'. wdet. split; [|done]. destruct (is_ok ds) eqn:Hds; bprop.
    + split; [done|]. split; [by apply shape_clear|]. split; [done|]. cbn [bp_goto bp_clear bp_slots bp_c].
      rewrite sel_upd. by rewrite bool_decide_eq_true_2.
    + apply (bp_to_drain s0 p); try done. by apply shape_upd.
  - wdet. split; [|done]. split; [done|]. split; [done|]. split; [done|]. cbn [bp_goto bp_slots bp_c].
    destruct (has_flag flags _) eqn:Hse; [|done]. destruct (Hsh Hse) as [-> _]. by apply Hsl0.
Qed.

Lemma bp_submit_spec s0 p s :
  bp_at p = BSubmit -> bp_bufs_ok bufs sink (bp_db p) -> bp_flies s0 p s ->
  wp (bp_submit pages flags p) (bp_moves s0 p) s.
Proof.
  intros Hat Hb [Hf [Hsh Hok]]. rewrite Hat in Hok. destruct Hok as [Hst Hsl]. unfold bp_submit.
  destruct (bp_jobs p) as [|j rest] eqn:Hjobs; rewrite <- Hjobs in Hf.
  { wdet. split; [|done]. apply bp_to_drain; try done. intros Hse. by apply Hsh. }
  apply wp_bind. eapply (wp_flying_begin pages gb bench_ok); [done|exact Hf|].
  intros ps chan s1 Hf1 Hbud Hh. apply wp_if; intros Hps; bprop.
  { wdet. split; [|done]. apply bp_to_drain; try done; [|intros Hse; by apply Hsh].
    apply (flying_status _ _ _ _ _ _ _ _ _ _ _ _ _ _ Hf1); [done|auto]. }
  rewrite Hjobs in Hf1. eapply (wp_flying_submit pages gb bench_ok all Hwf); [exact Hf1|done| | |by apply Hbud|].
  - apply Hb. intros Hse. by apply Hsh.
  - intros sl Hsl'. destruct (has_flag flags UVM_LIVE_MIGRATION_BENCH_SERIAL) eqn:Hse.
    + destruct (Hsh Hse) as [Hc Hn]. rewrite Hc in Hsl'. cbn in Hsl', Hn. congruence.
    + pose proof (bb_ne _ _ _ Hb Hse). destruct (bp_c p); cbn; congruence.
  - intros s2 Hf2. wdet. split; [|done]. rewrite Hst in Hf2. split; [cbn; by rewrite Hps|]. split.
    + intros Hse. cbn [bp_slots bp_c]. rewrite Hse. split; [done|]. destruct (Hsh Hse) as [-> Hn].
      rewrite sel_upd. by rewrite bool_decide_eq_false_2.
    + cbn [bp_at]. destruct (has_flag flags UVM_LIVE_MIGRATION_BENCH_SERIAL); by split.
Qed.

Lemma bp_serial_spec s0 p s :
  bp_at p = BSerial -> bp_bufs_ok bufs sink (bp_db p) -> bp_flies s0 p s ->
  wp (bp_serial pages flags gpu_buf sink p) (bp_moves s0 p) s.
Proof.
  intros Hat Hb [Hf [Hsh Hok]]. rewrite Hat in Hok. destruct Hok as [Hst Hse]. unfold bp_serial.
  destruct (Hsh Hse) as [Hc Hn]. destruct (sel (bp_c p) (bp_slots p)) as [sl|] eqn:Hsl.
  - apply wp_bind. eapply wp_mono; [by apply (bp_take (bp_c p) sl s0)|]. intros ds s' Hf'.
    rewrite Hst, first_err_NV_OK in Hf'. wdet. split; [|done]. destruct (is_ok ds) eqn:Hds; bprop.
    + split; [done|]. split; [by apply shape_clear|]. split; [done|]. intros _. cbn [bp_goto bp_clear bp_slots].
      rewrite Hc, sel_upd. by rewrite bool_decide_eq_true_2.
    + apply (bp_to_drain s0 p); try done. by apply shape_upd.
  - wdet. split; [|done]. split; [done|]. split; [done|]. split; [done|]. intros _. by rewrite Hc in Hsl.
Qed.

Lemma bp_drain_spec c s0 p s :
  bp_at p = BDrain c -> bp_bufs_ok bufs sink (bp_db p) -> bp_flies s0 p s ->
  wp (bp_drain pages flags gpu_buf sink c p) (bp_moves s0 p) s.
Proof.
  intros Hat Hb [Hf [Hsh Hok]]. rewrite Hat in Hok. destruct Hok as [Hj Hc0].
  unfold bp_drain. set (next := if _ || _ then _ else _).
  assert (forall st x s', (st = NV_OK -> bp_status p = NV_OK) -> sel c x = None ->
    (c = true -> sel false x = None) -> (serial = true -> sel true x = None) ->
    flying all bufs out s0 (bp_db p) x (bp_jobs p) st (bp_nt p) s' ->
    bp_flies s0 (mk_bpp (bp_db p) (bp_jobs p) (bp_c p) x st (bp_nt p) next) s') as Hnext.
  { intros st [x y] s' Hs Hx Hy Hz Hf'. split; [done|]. split; [intros Hse; split; [by apply Hsh|auto]|].
    unfold next; cbn [bp_at]. destruct c; cbn in *; [by rewrite Hx, Hy; auto|].
    destruct (has_flag flags _) eqn:Hse; cbn; [rewrite Hx, Hz by done|]; auto. }
  destruct (sel c (bp_slots p)) as [sl|] eqn:Hsl.
  - apply wp_bind. eapply wp_mono; [by apply (bp_take c sl s0)|]. intros ds s' Hf'. wdet. split; [|done].
    apply (Hnext _ (upd c None (bp_slots p))); [by intros []%first_err_ok| | |by apply shape_upd|done].
    + rewrite sel_upd. by rewrite bool_decide_eq_true_2.
    + intros ->. rewrite sel_upd. by apply Hc0.
  - wdet. split; [|done]. apply Hnext; try done. intros Hse. by apply Hsh.
Qed.

Lemma bp_step_spec s0 p s :
  bp_bufs_ok bufs sink (bp_db p) -> bp_flies s0 p s ->
  wp (bp_step pages flags gpu_buf sink p) (bp_moves s0 p) s.
Proof.
  intros Hb Hf. unfold bp_step. destruct (bp_at p) as [| | |c|] eqn:Hat.
  - by apply bp_consume_spec.
  - by apply bp_submit_spec.
  - by apply bp_serial_spec.
  - by apply bp_drain_spec.
  - by wdet.
Qed.
End BenchLoop.

(** ** Correctness of a thread *)

(** The buffers a worker holds, in the order it frees them. *)
Definition bw_held (w : bench_worker) : list Z :=
  option_list (bw_sink w) ++ option_list (snd (bw_db w)) ++ option_list (fst (bw_db w)).

Section BenchWorker.
Context `{E : Env} `{G : CcGpu}.
Context (pages : list gpu_page) (flags gpu_buf : Z).
#[local] Notation gb := (bench_buf flags gpu_buf).
#[local] Notation bench_ok := (bench_ok pages flags gpu_buf).
#[local] Notation serial := (has_flag flags UVM_LIVE_MIGRATION_BENCH_SERIAL).
#[local] Notation delivered := (delivered bench_ok).
#[local] Notation worker_fn := (lm_bench_worker_fn pages flags gpu_buf).
#[local] Notation step := (lm_bench_worker_step pages flags gpu_buf).

(** Both buffers, or the first one in serial runs. *)
Definition has_bufs (db : option Z * option Z) : Prop :=
  is_Some (fst db) /\ (serial = false -> is_Some (snd db)).

Definition bw_inv (w : bench_worker) (s : kst) : Prop :=
  (HealthyEnv E -> bw_status w = NV_OK) /\
  match bw_at w with
  | BwStart => bw_plain w = false /\ bw_held w = [] /\ bw_status w = NV_OK
  | BwAlloc0 => bw_held w = [] /\ bw_status w = NV_OK
  | BwAlloc1 => (exists b, bw_db w = (Some b, None)) /\ bw_sink w = None /\ bw_status w = NV_OK
  | BwSink => has_bufs (bw_db w) /\ bw_sink w = None /\ bw_status w = NV_OK
  | BwRun => has_bufs (bw_db w) /\
             bp_db (bw_pp w) = (default 0 (fst (bw_db w)), default 0 (snd (bw_db w))) /\
             bp_flight pages flags gpu_buf (bw_slice w) (bw_pp w) s
  | BwFreeSink => delivered (bw_slice w) (bw_status w) (bp_nt (bw_pp w)) s
  | BwFree1 => bw_sink w = None /\ delivered (bw_slice w) (bw_status w) (bp_nt (bw_pp w)) s
  | BwFree0 => bw_sink w = None /\ snd (bw_db w) = None /\
               delivered (bw_slice w) (bw_status w) (bp_nt (bw_pp w)) s
  | BwFreePlain => bw_held w = [] /\ delivered (bw_slice w) (bw_status w) (bp_nt (bw_pp w)) s
  | BwExit => bw_plain w = false /\ bw_held w = [] /\
              delivered (bw_slice w) (bw_status w) (bp_nt (bw_pp w)) s
  end.

#[export] Instance bench_worker_inv : ThreadInv worker_fn := {|
  th_slice := bw_slice : tf_state worker_fn -> list job;
  th_held  := bw_held;
  th_owns  := fun w => Z.b2z (bw_plain w);
  th_inv   := bw_inv;
|}.

(** The buffers of the loop are among those held, and differ. *)
Lemma held_has_bufs w c : has_bufs (bw_db w) -> (serial = true -> c = false) ->
  sel c (default 0 (fst (bw_db w)), default 0 (snd (bw_db w))) ∈ bw_held w.
Proof.
  intros [[b0 H0] H1] Hc. unfold bw_held. rewrite H0, !elem_of_app. destruct c; cbn.
  - destruct (has_flag flags _); [by specialize (Hc eq_refl)|]. destruct (H1 eq_refl) as [b1 ->].
    right; left. by left.
  - right; right. by left.
Qed.

Lemma worker_bufs_ok w out s : has_bufs (bw_db w) -> pool_inv (bw_held w ++ out) s ->
  bp_bufs_ok flags (bw_held w) (bw_sink w) (default 0 (fst (bw_db w)), default 0 (snd (bw_db w))).
Proof.
  intros Hb ([Hnd _ _] & _). apply NoDup_app in Hnd as (_ & _ & Hnd). apply NoDup_app in Hnd as (Hnd & _ & _).
  pose proof Hnd as Hnd'. unfold bw_held in Hnd'. apply NoDup_app in Hnd' as (_ & Hd & Hnd').
  apply NoDup_app in Hnd' as (_ & Hd' & _). pose proof Hb as [[b0 H0] H1]. rewrite H0 in Hd, Hd'. split.
  - intros c Hc. split; [by apply held_has_bufs|]. intros Hin. apply (Hd _ Hin). rewrite elem_of_app, H0.
    destruct c; cbn in *; [|right; by left]. destruct (has_flag flags _); [by specialize (Hc eq_refl)|].
    destruct (H1 eq_refl) as [b1 H1']. rewrite H1' in *. left. by left.
  - intros Hse. destruct (H1 Hse) as [b1 H1']. rewrite H0, H1' in *. cbn in *. intros ->.
    apply (Hd' b1); by left.
  - intros b Hin. unfold bw_held. rewrite elem_of_app. by left.
Qed.

(** The steps of other threads keep the invariant. *)
Lemma bw_inv_frame w js out s s' :
  step_frame pages gb js out s s' -> (forall b, b ∈ bw_held w -> b ∈ out) ->
  (forall j j', j ∈ bw_slice w -> j' ∈ js -> job_sep pages gb j j') -> bw_inv w s -> bw_inv w s'.
Proof.
  intros Hf Hb Hsep [Hh Hw]. split; [done|].
  assert (forall st nt, delivered (bw_slice w) st nt s -> delivered (bw_slice w) st nt s') as Hd.
  { intros st nt. by apply (delivered_frame pages gb bench_ok _ _ _ js out). }
  destruct (bw_at w); try done; try naive_solver.
  destruct Hw as (H1 & H2 & H3 & Hok). split_and!; try done. split; [|done].
  eapply (flight_frame pages gb bench_ok); [exact Hf| |exact Hsep|exact H3].
  intros c sl Hsl. apply Hb. rewrite H2. apply held_has_bufs; [done|].
  eapply shape_active; [apply Hok|exact Hsl].
Qed.

Lemma live_free_if b : LiveSpec (free_if b) (fun _ => 0).
Proof. unfold free_if. destruct b; live. Qed.
Hint Resolve live_free_if : live.

Lemma live_process_slot sink b sl : LiveSpec (lm_bench_process_slot pages flags gpu_buf sink b sl) (fun _ => 0).
Proof.
  unfold lm_bench_process_slot, uvm_conf_computing_cpu_decrypt, write_sink, uvm_push_wait. live0.
Qed.
Hint Resolve live_process_slot : live.

Lemma live_bp_step sink p : LiveSpec (bp_step pages flags gpu_buf sink p) (fun _ => 0).
Proof. unfold bp_step, bp_consume, bp_submit, bp_serial, bp_drain. live0. Qed.
Hint Resolve live_bp_step : live.

(** The scratch buffer is the allocation a worker has. *)
Lemma live_bench_step w : (bw_at w = BwStart -> bw_plain w = false) ->
  LiveSpec (step w) (fun w' => Z.b2z (bw_plain w') - Z.b2z (bw_plain w)).
Proof.
  intros Hp. unfold lm_bench_worker_step. destruct (bw_at w).
  1: specialize (Hp eq_refl); rewrite Hp.
  all: live0; apply live_ret; cbn; rewrite ?Hp by done; destruct (bw_plain w) eqn:?; cbn; (lia || congruence).
Qed.

(** Every step ends sooner than it started, whatever happens in it. *)
Lemma bp_step_less sink p s :
  wp (bp_step pages flags gpu_buf sink p) (fun p' _ => (bp_measure p' <= bp_measure p - 1)%nat) s.
Proof.
  unfold bp_step. destruct (bp_at p) as [| | |c|] eqn:Hat.
  - unfold bp_consume. destruct (bp_jobs p) as [|j rest] eqn:Hj;
      [|destruct (if has_flag _ _ then _ else _)]; wsteps; repeat (apply wp_any; intros; wsteps);
      unfold bp_measure; cbn; rewrite ?Hat, ?Hj; repeat case_match; try discriminate; cbn; lia.
  - unfold bp_submit. destruct (bp_jobs p) as [|j rest] eqn:Hj; wsteps; repeat (apply wp_any; intros; wsteps);
      unfold bp_measure; cbn; rewrite ?Hat, ?Hj; repeat case_match; try discriminate; cbn; lia.
  - unfold bp_serial. destruct (sel _ _); wsteps; repeat (apply wp_any; intros; wsteps);
      unfold bp_measure; cbn; rewrite ?Hat; repeat case_match; try discriminate; cbn; lia.
  - unfold bp_drain. destruct (sel _ _); wsteps; repeat (apply wp_any; intros; wsteps);
      unfold bp_measure; cbn; rewrite ?Hat; destruct c; repeat case_match; try discriminate; cbn; lia.
  - wdet. unfold bp_measure. rewrite Hat. lia.
Qed.

Lemma bp_measure_0 p : bp_measure p = 0%nat -> bp_at p = BDone.
Proof. unfold bp_measure. destruct (bp_at p) as [| | |[]|]; done || lia. Qed.

Lemma bench_step_less w s : wp (step w) (fun w' _ => (bw_measure w' <= bw_measure w - 1)%nat) s.
Proof.
  unfold lm_bench_worker_step. destruct (bw_at w) eqn:Hat.
  5:{ apply wp_bind. eapply wp_mono; [apply bp_step_less|]. intros p s' Hp. cbv beta in Hp. wdet.
      unfold bw_measure; cbn. rewrite Hat. destruct (bool_decide (bp_at p = BDone)) eqn:Hd; bprop; [lia|].
      destruct (bp_measure (bw_pp w)) eqn:Hm; [|lia]. destruct Hd. apply bp_measure_0. lia. }
  all: wsteps; repeat (apply wp_any; intros; wsteps); try (case_match; wsteps);
    unfold bw_measure; cbn; rewrite ?Hat; unfold bp_measure; cbn; try case_match; lia.
Qed.

(** *** A worker's step, apart from its allocations *)

Definition bw_keeps (out : list Z) (w : bench_worker) (s : kst) (w' : bench_worker) (s' : kst) : Prop :=
  bw_inv w' s' /\ pool_inv (bw_held w' ++ out) s' /\ limit_ok s' /\
  step_frame pages gb (bw_slice w) out s s' /\ bw_slice w' = bw_slice w.

Context (w : bench_worker) (out : list Z) (s : kst).
Context (Hwf : jobs_wf pages gb (bw_slice w)) (Hcc : env_cc = true) (Hl : limit_ok s).

(** Steps that only move buffers between the worker and the pool. *)
Lemma bw_own w' s' :
  cc_frame out s s' -> bw_inv w' s' -> pool_inv (bw_held w' ++ out) s' -> bw_slice w' = bw_slice w ->
  bw_keeps out w s w' s'.
Proof.
  intros Hf Hi Hp Hs. unfold bw_keeps. split_and!; try done.
  - eapply limit_ok_step; [apply Hf|done].
  - by apply cc_frame_step_frame.
Qed.

Lemma bw_delivered all st nt s' : cc_frame out s s' -> delivered all st nt s -> delivered all st nt s'.
Proof.
  intros Hf. apply (delivered_own pages gb bench_ok _ _ _ out). by apply cc_frame_step_frame.
Qed.

(** Allocating one more buffer: it heads the list of those held, and a failure
    sends the worker to the releases. *)
Lemma bw_alloc_spec (f : option Z -> bench_worker) :
  bw_status w = NV_OK -> pool_inv (bw_held w ++ out) s ->
  (forall b, bw_held (f (Some b)) = b :: bw_held w /\ bw_slice (f (Some b)) = bw_slice w) ->
  (forall b s', bw_inv (f (Some b)) s') ->
  wp ('(status, b) ← uvm_conf_computing_dma_buffer_alloc;
      match b with
      | None => kret (bw_goto BwFreeSink status w)
      | Some _ => kret (f b)
      end) (bw_keeps out w s) s.
Proof.
  intros Hst Hpool Hf Hi. apply wp_bind.
  apply (wp_alloc (bw_held w ++ out)); [done|intros st s' Hse Hnh Hp Hfr|intros b s' Hp Hfr]; wdet;
    apply (cc_frame_sub _ out) in Hfr; try (intros; apply elem_of_app; by right).
  - by apply bw_own.
  - destruct (Hf b) as [Hh Hs]. apply bw_own; try done. by rewrite Hh.
Qed.

Lemma bw_start_spec :
  bw_at w = BwStart -> bw_inv w s -> pool_inv (bw_held w ++ out) s -> wp (step w) (bw_keeps out w s) s.
Proof.
  intros Hat [Hh Hw] Hpool. unfold lm_bench_worker_step. rewrite Hat in *. destruct Hw as (Hpl & Hd & Hst).
  assert (cc_frame out s s) as Hr by (apply quiet_cc_frame; by repeat split).
  apply wp_if; intros _; [wdet; by apply bw_own|].
  apply wp_bind, wp_kmalloc_quiet. intros p s' Hq _ Hp. pose proof (quiet_cc_frame out _ _ Hq).
  pose proof (quiet_pool_inv _ _ _ Hq Hpool). apply wp_if; intros Hpt; bprop; wdet; [|by apply bw_own].
  assert (~ HealthyEnv E) as Hnh by (intros HE; by rewrite Hp in Hpt). by apply bw_own.
Qed.

Lemma bw_allocs_spec :
  bw_at w = BwAlloc0 \/ bw_at w = BwAlloc1 \/ bw_at w = BwSink ->
  bw_inv w s -> pool_inv (bw_held w ++ out) s -> wp (step w) (bw_keeps out w s) s.
Proof.
  intros Hat [Hh Hw] Hpool. unfold lm_bench_worker_step. destruct Hat as [Hat|[Hat|Hat]]; rewrite Hat in *.
  - destruct Hw as [Hd Hst]. pose proof Hd as Hd'. unfold bw_held in Hd'.
    apply app_eq_nil in Hd' as [Hs [H1 H0]%app_eq_nil].
    destruct (bw_sink w) eqn:Hsk; [done|]. destruct (bw_db w) as [[] []] eqn:Hdb; try done.
    apply (bw_alloc_spec (fun b => bw_set (if serial then BwSink else BwAlloc1) (b, snd (None, None)) None w));
      [done|done| |].
    + intros b. rewrite Hd. done.
    + intros b s'. split; [done|]. cbn. destruct (has_flag flags _) eqn:Hse; cbn; [|by eauto].
      split; [|done]. split; [by eexists|by rewrite Hse].
  - destruct Hw as ([b0 Hdb] & Hs & Hst).
    apply (bw_alloc_spec (fun b => bw_set BwSink (fst (bw_db w), b) (bw_sink w) w)); [done|done| |].
    + intros b. unfold bw_held. rewrite Hs, Hdb. done.
    + intros b s'. split; [done|]. cbn. rewrite Hdb. split; [|done]. split; [by eexists|by eexists].
  - destruct Hw as (Hb & Hs & Hst). apply wp_if; intros _.
    + wdet. apply bw_own; try done.
      * split; [done|]. cbn. split; [done|]. split; [done|]. split; [apply flight_start|apply bp_ok_init].
      * unfold bw_held in *. cbn. by rewrite Hs in Hpool.
    + apply (bw_alloc_spec (fun b => bw_loop b w)); [done|done| |].
      * intros b. unfold bw_held. cbn. by rewrite Hs.
      * intros b s'. split; [done|]. cbn. split; [done|]. split; [done|]. split; [apply flight_start|apply bp_ok_init].
Qed.

Lemma bw_loop_spec :
  bw_at w = BwRun -> bw_inv w s -> pool_inv (bw_held w ++ out) s -> wp (step w) (bw_keeps out w s) s.
Proof.
  intros Hat [Hh Hw] Hpool. unfold lm_bench_worker_step. rewrite Hat in *.
  destruct Hw as (Hb & Hdb & Hf & Hok). pose proof (worker_bufs_ok w out s Hb Hpool) as Hbo.
  apply wp_bind. eapply wp_mono.
  { apply (bp_step_spec pages flags gpu_buf _ Hwf (bw_held w) out Hcc (bw_sink w) s); [by rewrite Hdb|].
    split; [|done]. apply flying_here; [done| |done|done]. intros c sl Hsl. rewrite Hdb.
    apply held_has_bufs; [done|]. eapply shape_active; [apply Hok|exact Hsl]. }
  intros p' s' [[[Hi' Hh' Hp' Hl' Hf'] Hok'] Hdb']. wdet.
  unfold bw_keeps, bw_inv. cbn [bw_status bw_at bw_held bw_slice bw_db bw_sink bw_pp].
  destruct (bool_decide (bp_at p' = BDone)) eqn:Hd; bprop; split_and!; try done; try apply Hi'.
  - by eapply bp_flight_delivered.
  - by rewrite Hdb', Hdb.
Qed.

Lemma wp_free_if b rest s0 (Q : unit -> kst -> Prop) :
  pool_inv (option_list b ++ rest) s0 -> (forall s', pool_inv rest s' -> cc_frame rest s0 s' -> Q tt s') ->
  wp (free_if b) Q s0.
Proof.
  intros Hp HQ. destruct b as [b|]; cbn [free_if].
  - apply (wp_free (b :: rest) rest); [done|exact Hp|]. intros s' Hp' Hf. apply HQ; [done|].
    apply (cc_frame_sub (b :: rest)); [intros x Hx; by right|done].
  - apply HQ; [done|]. apply quiet_cc_frame. by repeat split.
Qed.

Lemma bw_release_spec :
  bw_at w = BwFreeSink \/ bw_at w = BwFree1 \/ bw_at w = BwFree0 \/ bw_at w = BwFreePlain \/ bw_at w = BwExit ->
  bw_inv w s -> pool_inv (bw_held w ++ out) s -> wp (step w) (bw_keeps out w s) s.
Proof.
  intros Hat [Hh Hw] Hpool. unfold lm_bench_worker_step. unfold bw_held in Hpool.
  destruct Hat as [Hat|[Hat|[Hat|[Hat|Hat]]]]; rewrite Hat in *.
  - apply wp_bind. rewrite <- app_assoc in Hpool. eapply wp_free_if; [exact Hpool|]. intros s' Hp Hf.
    apply (cc_frame_sub _ out) in Hf; [|intros; apply elem_of_app; by right]. wdet.
    apply bw_own; try done. split; [done|]. split; [done|by apply bw_delivered].
  - destruct Hw as [Hs Hd]. rewrite Hs, <- !app_assoc in Hpool. apply wp_bind. eapply wp_free_if; [exact Hpool|].
    intros s' Hp Hf. apply (cc_frame_sub _ out) in Hf; [|intros; apply elem_of_app; by right]. wdet.
    apply bw_own; try done; [|by unfold bw_held; cbn; rewrite Hs].
    split; [done|]. split; [done|]. split; [done|by apply bw_delivered].
  - destruct Hw as (Hs & H1 & Hd). rewrite Hs, H1 in Hpool. apply wp_bind. eapply wp_free_if; [exact Hpool|].
    intros s' Hp Hf. wdet. apply bw_own; try done; [|by unfold bw_held; cbn; rewrite Hs, H1].
    split; [done|]. split; [by unfold bw_held; cbn; rewrite Hs, H1|by apply bw_delivered].
  - destruct Hw as [Hh0 Hd]. fold (bw_held w) in Hpool. apply wp_bind, wp_kfree_quiet. intros s' Hq _. wdet.
    pose proof (quiet_cc_frame out _ _ Hq). pose proof (quiet_pool_inv _ _ _ Hq Hpool).
    apply bw_own; try done. split; [done|]. split; [done|]. split; [done|by apply bw_delivered].
  - wdet. apply bw_own; try done. unfold bw_inv. by rewrite Hat.
Qed.

Lemma bench_step_spec :
  bw_inv w s -> pool_inv (bw_held w ++ out) s ->
  wp (step w) (th_post pages gb (T := worker_fn) out w s) s.
Proof.
  intros Hi Hpool. assert (bw_at w = BwStart -> bw_plain w = false) as Hs.
  { intros Hat. destruct Hi as [_ Hw]. rewrite Hat in Hw. apply Hw. }
  apply (wp_live _ _ _ _ (live_bench_step w Hs)). eapply wp_mono.
  - destruct (bw_at w) eqn:Hat; [apply bw_start_spec|apply bw_allocs_spec|apply bw_allocs_spec|apply bw_allocs_spec
      |apply bw_loop_spec|apply bw_release_spec..]; tauto.
  - intros w' s' (?&?&?&?&?) ?. by split_and!.
Qed.
End BenchWorker.

(** ** Correctness of the transfer *)

Section BenchTransfer.
Context `{E : Env} `{G : CcGpu}.
Context (pages : list gpu_page) (flags gpu_buf : Z).
#[local] Notation gb := (bench_buf flags gpu_buf).
#[local] Notation bench_ok := (bench_ok pages flags gpu_buf).
#[local] Notation worker_fn := (lm_bench_worker_fn pages flags gpu_buf).

Lemma lock_process_slot sink b sl : LockSpec [] (lm_bench_process_slot pages flags gpu_buf sink b sl) [].
Proof.
  unfold lm_bench_process_slot, uvm_conf_computing_cpu_decrypt, write_sink, uvm_push_wait. locks.
Qed.
Hint Resolve lock_process_slot : locks.

Lemma lock_bench_step w : LockSpec [] (lm_bench_worker_step pages flags gpu_buf w) [].
Proof.
  unfold lm_bench_worker_step, bp_step, bp_consume, bp_submit, bp_serial, bp_drain, free_if. locks.
Qed.

#[export] Instance bench_progress : Progress worker_fn.
Proof. intros w s. apply bench_step_less. Qed.

#[export] Instance bench_spec : ThreadSpec pages gb bench_ok worker_fn.
Proof.
  split.
  - apply _.
  - apply _.
  - intros w out s Hwf Hcc Hi Hp Hl. by apply bench_step_spec.
  - intros w js out s s'. apply bw_inv_frame.
  - intros sl s. by split_and!.
  - intros sl s. by split_and!.
  - intros w s Hm [Hh Hw]. change (bw_measure w = 0%nat) in Hm.
    assert (bw_at w = BwExit) as Hat by (unfold bw_measure in Hm; destruct (bw_at w); lia || done).
    rewrite Hat in Hw. destruct Hw as (Hpl & Hd & Hdl). cbn. by rewrite Hd, Hpl.
  - intros w. apply lock_bench_step.
Qed.

Lemma bench_run_workers_spec out sched runs n s :
  env_cc = true -> 0 <= n -> jobs_wf pages gb (make_jobs 0 runs) -> pool_inv out s -> limit_ok s ->
  wp (lm_bench_run_workers pages flags gpu_buf sched runs n) (fun r s' =>
    pool_inv out s' /\ limit_ok s' /\ step_frame pages gb (make_jobs 0 runs) out s s' /\
    delivered bench_ok (make_jobs 0 runs) (fst r) (fst (snd r)) s' /\ k_live s' = k_live s /\
    (fst r = NV_OK -> snd (snd r) = clamp_threads n (Z.of_nat (length runs)))) s.
Proof.
  intros Hcc Hn Hwf Hpool Hl. unfold lm_bench_run_workers. apply wp_bind. eapply wp_mono.
  { by apply (run_threads_spec pages gb bench_ok worker_fn out). }
  intros [st [[k ws]|]] s' (Hp & Hl' & Hf & Hlv & Hr); cbn [fst snd] in *; wdet; split_and!; try done.
  - apply Hr.
  - intros _. apply Hr.
  - destruct Hr. by apply delivered_error.
  - by destruct Hr.
Qed.

Lemma lock_bench_run sched runs n : LockSpec [] (lm_bench_run_workers pages flags gpu_buf sched runs n) [].
Proof.
  unfold lm_bench_run_workers. eapply lock_bind; [apply (lock_run_threads pages gb bench_ok worker_fn)|]. locks.
Qed.
End BenchTransfer.

#[export] Hint Resolve lock_bench_run : locks.

(** What the benchmark leaves in the GPU buffer: with [DECRYPT] the pages, without
    it a ciphertext of them, whose metadata stays in the kernel; nothing when the
    output is diverted. *)
Definition bench_result `{G : CcGpu} (flags gpu_buf : Z) (phys : list phys_address) (nr : nat) (s : kst)
    : Prop :=
  let gb := bench_buf flags gpu_buf in
  if has_flag flags UVM_LIVE_MIGRATION_BENCH_DECRYPT
  then gb <> 0 -> mem_holds (k_user s) gb (vid_pages phys)
  else exists metas c, length metas = nr /\ decrypt_all metas c = Some (vid_pages phys) /\
         Z.of_nat (length c) = Z.of_nat (length phys) * PAGE_SIZE /\
         (gb <> 0 -> mem_holds (k_user s) gb c).

Section BenchOutput.
Context `{E : Env} `{G : CcGpu}.
Context (flags gpu_buf : Z) (phys : list phys_address).
#[local] Notation gb := (bench_buf flags gpu_buf).

Lemma bench_result_user nr s s' :
  (forall a, area gb (Z.of_nat (length phys) * PAGE_SIZE) a -> k_user s' !! a = k_user s !! a) ->
  bench_result flags gpu_buf phys nr s -> bench_result flags gpu_buf phys nr s'.
Proof.
  intros Hk. unfold bench_result. destruct (has_flag _ _).
  - intros H Hg. eapply mem_holds_apart; [|exact Hg|exact Hk|by apply H]. by rewrite length_vid_pages.
  - intros (metas & c & Hl & Hd & Hc & H). exists metas, c. split_and!; try done. intros Hg.
    eapply mem_holds_apart; [|exact Hg|exact Hk|by apply H]. lia.
Qed.

Lemma bench_output runs st nt s :
  transfer_args phys gb UVM_CONF_COMPUTING_DMA_BUFFER_SIZE runs ->
  delivered (bench_ok (dense phys) flags gpu_buf) (make_jobs 0 runs) st nt s -> st = NV_OK ->
  nt = Z.of_nat (length runs) /\ bench_result flags gpu_buf phys (length runs) s.
Proof.
  intros Ha [Hh Hd] Hst. split; [destruct (Hd Hst) as [_ ->]; by rewrite length_make_jobs|].
  unfold bench_result, bench_ok in *. destruct (has_flag _ _).
  - destruct (transfer_output phys gb UVM_CONF_COMPUTING_DMA_BUFFER_SIZE false runs st nt s Ha) as [_ Ht]; [|done|exact Ht].
    split; [done|]. intros H. destruct (Hd H) as [Ho Hn]. split; [|done]. intros j Hj. by apply Ho.
  - destruct (transfer_output phys gb UVM_CONF_COMPUTING_DMA_BUFFER_SIZE true runs st nt s Ha) as [_ Ht]; [by split|done|].
    destruct Ht as (metas & c & Hl & _ & _ & Hdec & Hc & _ & Hm). rewrite drop_0, Z.sub_0_r in *.
    exists metas, c. split_and!; try done. intros Hg. specialize (Hm Hg). by rewrite Z.mul_0_l, Z.add_0_r in Hm.
Qed.

Lemma bench_result_nil s : phys = [] -> bench_result flags gpu_buf phys 0 s.
Proof.
  intros ->. unfold bench_result. destruct (has_flag _ _); [done|]. by exists [], [].
Qed.
End BenchOutput.

(** ** The handler *)

Section BenchHandlerSpec.
Context `{E : Env} `{G : CcGpu}.
Context (sched : list nat) (flags : Z).

Definition bench_live (b : bench_bufs) : Z := runs_live (fst b) + Z.b2z (snd b).

(** [threads_used]: none when no page is on the GPU. *)
Definition bench_threads (p : read_params) (phys : list phys_address) (nr : nat) : Z :=
  if decide (phys = []) then 0 else clamp_threads (rp_num_threads p) (Z.of_nat nr).

(** What the transfer leaves. *)
Definition bench_post (p : read_params) (gpu : option Z) (phys : list phys_address) (out : list Z) (s : kst)
    (r : nv_status * (Z * Z) * bench_bufs) (s' : kst) : Prop :=
  let '(st, (nt, thr), b) := r in
  cc_ok out s' /\ k_live s' = k_live s + bench_live b /\
  outside_kept phys (bench_buf flags (rp_gpu_buf p)) s s' /\
  (HealthyEnv E -> is_Some gpu -> st = NV_OK) /\
  (st = NV_OK -> exists nr : nat, nt = Z.of_nat nr /\ thr = bench_threads p phys nr /\
     bench_result flags (rp_gpu_buf p) phys nr s').

Lemma bench_post_quiet p gpu phys out s st b s' :
  (HealthyEnv E -> is_Some gpu -> st = NV_OK) -> st <> NV_OK -> calm s s' -> cc_ok out s ->
  k_live s' = k_live s + bench_live b -> bench_post p gpu phys out s (st, (0, 0), b) s'.
Proof.
  intros Hh Hst Hc Hok Hlv. split_and!; try done; [by eapply calm_cc_ok|].
  intros a _. by rewrite (proj2 Hc).
Qed.

(** The runs and the workers, once the metadata buffer is there. *)
Lemma bench_runs_spec p phys gpu out s0 s :
  env_cc = true -> 0 <= rp_num_threads p -> phys <> [] ->
  pass2_args phys (bench_buf flags (rp_gpu_buf p)) -> cc_ok out s0 -> calm s0 s -> k_live s = k_live s0 + 1 ->
  wp ('(status, runs, rc) ← lm_mt_build_runs (dense phys) UVM_CONF_COMPUTING_DMA_BUFFER_SIZE;
      if negb (is_ok status) then kret (status, (0, 0), (0, true)) else
      '(status, r) ← lm_bench_run_workers (dense phys) flags (rp_gpu_buf p) sched runs (rp_num_threads p);
      kret (status, r, (rc, true))) (bench_post p gpu phys out s0) s.
Proof.
  intros Hcc Hn Hne Ha Hc0 Hcalm Hlv0. destruct (coalesce_args phys _ Ha) as [Hta Hlen].
  pose proof (calm_cc_ok _ _ _ Hcalm Hc0) as Hc.
  apply wp_bind. eapply wp_mono.
  { apply wp_and; [apply lm_mt_build_runs_correct|].
    apply (wp_keeps quiet); [apply quiet_build_runs|]. intros r s' H. exact H. }
  intros [[st runs] rc] s1 [[Hb Hh] Hq]. pose proof (quiet_cc_ok out _ _ Hq Hc) as Hc1.
  pose proof (calm_trans _ _ _ Hcalm (quiet_calm _ _ Hq)) as Hcalm1.
  apply wp_if; intros Hst; bprop.
  { wdet. destruct Hb as [(-> & _)|(_ & _ & _ & Hlv)]; [done|]. change (runs_live 0) with 0 in *.
    apply bench_post_quiet; try done; [|unfold bench_live; cbn; change (runs_live 0) with 0; lia].
    intros HE. destruct Hst. apply Hh; [done|]. destruct Ha. unfold coalesce in *. lia. }
  destruct Hb as [(_ & -> & _ & Hlv)|(-> & _)]; [|done]. change (runs_live 0) with 0 in *.
  destruct (Hc1 Hcc) as [Hp1 Hl1]. apply wp_bind. eapply wp_mono.
  { apply bench_run_workers_spec; [done|done|by eapply transfer_jobs_wf|exact Hp1|done]. }
  intros [st2 [nt thr]] s2 (Hp2 & Hl2 & Hf2 & Hd & Hlv2 & Hthr). wdet. cbn [fst snd] in *. split_and!.
  - by split.
  - unfold bench_live. cbn. lia.
  - intros a Hna. rewrite <- (proj2 Hcalm1). by eapply transfer_outside.
  - intros HE _. by apply Hd.
  - intros Hok. destruct (bench_output _ _ _ _ _ _ _ Hta Hd Hok) as [Hnt Ht]. eexists. split; [exact Hnt|].
    split; [|done]. unfold bench_threads. rewrite decide_False by done. by apply Hthr.
Qed.

Lemma bench_transfer_spec p gpu l phys out s :
  env_cc = true -> 0 <= rp_num_threads p -> p1_pages l = dense phys -> 0 <= p1_cap l <= 2 ^ 51 ->
  pass2_args phys (bench_buf flags (rp_gpu_buf p)) -> cc_ok out s ->
  wp (bench_transfer sched flags p gpu l) (bench_post p gpu phys out s) s.
Proof.
  intros Hcc Hn Hp Hcap Ha Hc. unfold bench_transfer. destruct gpu as [g|].
  2:{ wdet. apply bench_post_quiet; try done; unfold bench_live; cbn; change (runs_live 0) with 0; lia. }
  apply wp_bind. apply wp_mono with (Q := fun b s1 => (quiet s s1 /\
    (HealthyEnv E -> p1_cap l * SIZEOF_CRYPTO_META < 2 ^ 64 -> b = true)) /\ k_live s1 = k_live s + Z.b2z b).
  { apply wp_and; [apply wp_kvmalloc_quiet; auto|apply (wp_live_exact _ _ _ (live_kvmalloc_array _ _))]. }
  intros cm s1 [[Hq1%quiet_calm Hh1] Hlv1]. unfold SIZEOF_CRYPTO_META in *. wdet.
  assert (calm s (set_meta ∅ s1)) as Hq2 by (by destruct Hq1 as [(?&?&?&?&?) ?]).
  apply wp_if; intros Hcm.
  { wdet. apply negb_true_iff in Hcm as ->. apply bench_post_quiet; try done.
    intros HE _. specialize (Hh1 HE ltac:(lia)). done. }
  apply negb_false_iff in Hcm as ->. unfold p1_cnt. rewrite Hp, length_dense. apply wp_if; intros Hz; bprop.
  - wdet. assert (phys = []) as Hp0 by (apply nil_length_inv; lia). split_and!; try done.
    + by eapply calm_cc_ok.
    + intros a _. by rewrite (proj2 Hq2).
    + intros _. exists 0%nat. split_and!; [done|unfold bench_threads; by rewrite decide_True|by apply bench_result_nil].
  - apply bench_runs_spec; try done. intros ->. done.
Qed.

(** User memory outside the buffers the flags leave in use is kept. *)
Definition bench_frame (p : read_params) (s s' : kst) : Prop :=
  forall a, ~ area (rp_cpu_buf p) (n_pages p * PAGE_SIZE) a ->
    ~ area (bench_buf flags (rp_gpu_buf p)) (n_pages p * PAGE_SIZE) a ->
    ~ area (rp_residency_map p) (n_pages p) a -> k_user s' !! a = k_user s !! a.

Definition bench_read_result (p : read_params) (gpu : option Z) (D : list visit) (nr : nat) (s : kst) : Prop :=
  mem_holds (k_user s) (rp_residency_map p)
    (resmap_of gpu (rp_base p) (replicate (Z.to_nat (n_pages p)) RESMAP_ABSENT) D) /\
  (rp_cpu_buf p <> 0 -> mem_holds (k_user s) (rp_cpu_buf p) (mjoin (cpu_pages gpu D))) /\
  bench_result flags (rp_gpu_buf p) (gpu_phys gpu D) nr s.

Lemma bench_read_result_user p gpu D nr s s' :
  k_user s' = k_user s -> bench_read_result p gpu D nr s -> bench_read_result p gpu D nr s'.
Proof. intros Hu. unfold bench_read_result, bench_result. by rewrite Hu. Qed.

Lemma bench_frame_trans p s1 s2 s3 : bench_frame p s1 s2 -> bench_frame p s2 s3 -> bench_frame p s1 s3.
Proof. intros H1 H2 a ???. by rewrite H2, H1. Qed.

Lemma bench_buf_cases b : bench_buf flags b = b \/ bench_buf flags b = 0.
Proof. unfold bench_buf. destruct (_ || _); auto. Qed.

Lemma bench_area p len a : area (bench_buf flags (rp_gpu_buf p)) len a -> area (rp_gpu_buf p) len a.
Proof. destruct (bench_buf_cases (rp_gpu_buf p)) as [->| ->]; [done|]. by intros [? _]. Qed.

(** The copy of the residency map. *)
Lemma bench_copy_spec p v gpu D l s s1 s2 nr :
  read_args false false p v gpu D ->
  D = space_visits false (rp_base p) (rp_base p + n_pages p * PAGE_SIZE - 1) v ->
  p1_resmap l = resmap_of gpu (rp_base p) (replicate (Z.to_nat (n_pages p)) RESMAP_ABSENT) D ->
  k_user s1 = cpu_written (rp_cpu_buf p) (k_user s) (cpu_pages gpu D) ->
  outside_kept (gpu_phys gpu D) (bench_buf flags (rp_gpu_buf p)) s1 s2 -> bench_frame p s s2 ->
  bench_result flags (rp_gpu_buf p) (gpu_phys gpu D) nr s2 ->
  wp (copy_residency_map p (p1_resmap l)) (fun st s3 => still s2 s3 /\ bench_frame p s s3 /\
    (HealthyEnv E -> st = NV_OK) /\ (st = NV_OK -> bench_read_result p gpu D nr s3)) s2.
Proof.
  intros Ha HD Hm Hu1 Ho Hf2 Ht. destruct (read_sizes false p gpu D false v Ha HD) as (Hn & Hlc & Hlg & Hcb).
  assert (Z.of_nat (length (p1_resmap l)) = n_pages p) as Hlm.
  { rewrite Hm, length_resmap_of, length_replicate. lia. }
  unfold copy_residency_map. apply wp_bind, wp_copy_out. intros f s3 Hs3 _ Hk Hmm Hh. rewrite Hlm in Hk. wdet.
  assert (forall a, ~ area (rp_residency_map p) (n_pages p) a -> k_user s3 !! a = k_user s2 !! a) as Hk'.
  { intros a Hna. apply Hk. intros Hr. apply Hna. split; [|done]. pose proof (rg_map _ _ _ _ _ _ Ha). lia. }
  split_and!; try apply Hs3.
  - eapply bench_frame_trans; [exact Hf2|]. intros a _ _ Hna. by apply Hk'.
  - intros HE. by rewrite Hh.
  - intros Hst. destruct f; [done|]. split_and!; [rewrite <- Hm; by apply Hmm| |].
    + intros Hcb0. destruct (bench_buf_cases (rp_gpu_buf p)) as [Hb|Hb];
      apply (cpu_pages_kept false p gpu D false v (bench_buf flags (rp_gpu_buf p)) (k_user s) s1 s2); auto;
      intros a Hr; apply Hk'; intros Hr'; by apply (rg_cpu_map _ _ _ _ _ _ Ha a).
    + eapply bench_result_user; [|exact Ht]. intros a Hr. apply Hk'. intros Hr'.
      apply (rg_gpu_map _ _ _ _ _ _ Ha a). split; [|done]. apply bench_area.
      eapply area_le; [|exact Hr]. unfold PAGE_SIZE in *; lia.
Qed.

Lemma live_copy_residency_map p m : LiveSpec (copy_residency_map p m) (fun _ => 0).
Proof. unfold copy_residency_map. live0. Qed.

(** The body: what a call returns, with the buffers left to release. *)
Definition bench_done (p : read_params) (gpu : option Z) (D : list visit) (out : list Z) (s : kst)
    (r : nv_status * pass1_locals * (Z * Z) * bench_bufs) (s' : kst) : Prop :=
  let '(st, l, (nt, thr), b) := r in
  cc_ok out s' /\ k_live s' = k_live s + bench_live b /\ bench_frame p s s' /\
  (HealthyEnv E -> is_Some gpu -> st = NV_OK) /\
  (st = NV_OK ->
     p1_cpu_off l = Z.of_nat (length (cpu_pages gpu D)) * PAGE_SIZE /\
     p1_gpu_off l = Z.of_nat (length (gpu_phys gpu D)) * PAGE_SIZE /\
     exists nr : nat, nt = Z.of_nat nr /\ thr = bench_threads p (gpu_phys gpu D) nr /\
       bench_read_result p gpu D nr s').

Lemma bench_finish_spec p v gpu D out s s1 l :
  env_cc = true -> 0 <= rp_num_threads p -> read_args false false p v gpu D ->
  D = space_visits false (rp_base p) (rp_base p + n_pages p * PAGE_SIZE - 1) v -> cc_ok out s1 ->
  pass1_done gpu (rp_base p) (rp_cpu_buf p) D (replicate (Z.to_nat (n_pages p)) RESMAP_ABSENT)
    (Z.min (n_pages p) 512) (k_user s) l (k_user s1) ->
  bench_frame p s s1 -> k_live s1 = k_live s ->
  wp ('(status, r, b) ← bench_transfer sched flags p gpu l;
      status ← (if negb (is_ok status) then kret status else copy_residency_map p (p1_resmap l));
      kret (status, l, r, b)) (bench_done p gpu D out s) s1.
Proof.
  intros Hcc Hn Ha HD Hc1 (Hm & Hco & Hgo & Hp & Hcap & Hu1) Hf1 Hlv1.
  destruct (read_sizes false p gpu D false v Ha HD) as (Hn' & Hlc & Hlg & Hcb).
  apply wp_bind. eapply wp_mono.
  { apply (bench_transfer_spec p gpu l (gpu_phys gpu D) out s1); try done.
    - unfold p1_cnt in Hcap. rewrite Hp, length_gpu_pages in Hcap. lia.
    - eapply read_pass2_args; [done..|]. apply bench_buf_cases. }
  intros [[st [nt thr]] b] s2 (Hc2 & Hlv2 & Ho & Hh & Hok).
  assert (bench_frame p s s2) as Hf2.
  { eapply bench_frame_trans; [exact Hf1|]. intros a _ Hg _. apply Ho. intros [Hz Hr]. apply Hg.
    split; [done|]. unfold PAGE_SIZE in *; lia. }
  apply wp_bind, wp_if; intros Hst; bprop.
  { wdet. split_and!; [done|lia|done|auto|done]. }
  destruct (Hok Hst) as (nr & -> & -> & Ht).
  apply (wp_live _ _ _ _ (live_copy_residency_map p (p1_resmap l))).
  eapply wp_mono; [by eapply bench_copy_spec|].
  intros st3 s3 (Hs3 & Hf3 & Hh3 & Hok3) Hlv3. wdet. split_and!; try done.
  - by eapply still_cc_ok.
  - lia.
  - intros HE _. by apply Hh3.
  - intros Hst3. split_and!; try done. exists nr. split_and!; [done..|]. by apply Hok3.
Qed.

Lemma bench_body_spec p spaces gpu D out s :
  env_cc = true -> 0 <= rp_num_threads p -> read_call false false p spaces gpu D -> cc_ok out s ->
  wp (bench_body sched flags p spaces) (bench_done p gpu D out s) s.
Proof.
  intros Hcc Hn [Hbad (v & Hov & Hgpu & HD & Ha)] Hc. destruct (bad_args_false p Hbad) as [Hlen _].
  unfold bench_body, walk_pages. rewrite Hlen. apply wp_bind. eapply wp_mono.
  { apply wp_and; [apply pass1_spec|apply (wp_live_exact _ _ _ (live_pass1 _ _ _ _ _ _ _ _))]. }
  intros [[st l] g] s1 [(Huo & Hpost) Hlv1]. rewrite Z.add_0_r in Hlv1. rewrite Hov in Hpost.
  destruct Hpost as [-> Hpost]. rewrite <- Hgpu, <- HD in Hpost. rewrite <- Hgpu.
  pose proof (user_only_cc_ok out _ _ Huo Hc) as Hc1.
  pose proof (rg_walk _ _ _ _ _ _ Ha) as Hw. pose proof (wa_len _ _ _ _ _ _ Hw) as [Hn0 _].
  assert (forall s', kept (rp_cpu_buf p) (n_pages p) (k_user s) (k_user s') -> bench_frame p s s') as Hfr.
  { intros s' Hk a Hna _ _. by apply Hk. }
  destruct (Hpost Hw eq_refl) as [[-> Hd]|(Hst & Hh & _ & Hk)]; [cbn; lia|done..| |].
  - rewrite is_ok_NV_OK. cbn [negb]. apply (bench_finish_spec p v); try done.
    apply Hfr. destruct Hd as (_&_&_&_&_&->). pose proof (walk_bounds v gpu false _ _ _ Hw) as (_ & Hle & _).
    rewrite <- HD in Hle. pose proof (wa_pages _ _ _ _ _ _ Hw) as Hpg. rewrite <- HD in Hpg.
    exact (kept_written gpu (rp_cpu_buf p) (n_pages p) _ (wa_buf _ _ _ _ _ _ Hw) D Hpg Hle).
  - assert (st <> NV_OK) as Hne by (by destruct Hst as [-> | ->]).
    rewrite (proj2 (is_ok_false _) Hne). cbn [negb]. wdet. unfold bench_done, bench_live; cbn.
    change (runs_live 0) with 0. split_and!; [done|lia|by apply Hfr|by intros HE; specialize (Hh HE)|done].
Qed.

(** *** Locks and the release of the buffers *)

Lemma lock_bench_body p spaces : LockSpec [] (bench_body sched flags p spaces) [].
Proof.
  unfold bench_body, bench_transfer, walk_pages, copy_residency_map. eapply lock_bind; [apply lock_pass1|].
  locks.
Qed.
Hint Resolve lock_bench_body : locks.

Lemma lock_bench_decompose p spaces :
  LockSpec [] (uvm_api_live_migration_bench_decompose sched flags p spaces) [].
Proof. unfold uvm_api_live_migration_bench_decompose, alloc_bufs, kfree_runs. locks. Qed.

(** Releasing everything on the exit path. *)
Lemma bench_release_spec {A} (b : bench_bufs) (pb rm gp : bool) (r : A) s :
  wp (kfree_runs (fst b) ;; kfree pb ;; kfree rm ;; kfree gp ;; kfree (snd b) ;; kret r)
     (fun r' s' => r' = r /\ calm s s' /\
        k_live s' = k_live s - bench_live b - Z.b2z pb - Z.b2z rm - Z.b2z gp) s.
Proof.
  apply wp_bind, wp_mono with (Q := fun _ s' => calm s s' /\ k_live s' = k_live s - runs_live (fst b)).
  { apply wp_and; [apply (wp_keeps quiet); [unfold kfree_runs; keeps idtac|intros u s'; apply quiet_calm]|].
    eapply wp_mono; [apply (wp_live_exact _ _ _ (live_kfree_runs (fst b)))|]. cbn. intros u s' H. lia. }
  intros _ s1 [Hq1 Hlv1]. do 4 (apply wp_bind, wp_kfree_calm; intros ? ? ?). wdet.
  unfold bench_live. split_and!; [done| |lia]. repeat (eapply calm_trans; [eassumption|]). done.
Qed.

Lemma alloc_no_meta n s : wp (alloc_bufs false n) (fun r _ => snd (snd r) = false) s.
Proof.
  unfold alloc_bufs. apply wp_bind, wp_any. intros rm s1. apply wp_if; intros _; [by wdet|].
  apply wp_bind, wp_any. intros gp s2. apply wp_if; intros _; by wdet.
Qed.

(** The OUT fields of a good call. *)
Definition bench_good_outs (p : read_params) (gpu : option Z) (D : list visit) (nr : nat) : bench_outs :=
  mk_bench_outs (Some (Z.of_nat (length (cpu_pages gpu D)) * PAGE_SIZE))
    (Some (Z.of_nat (length (gpu_phys gpu D)) * PAGE_SIZE)) (Some (n_pages p)) (Some (Z.of_nat nr))
    (Some (bench_threads p (gpu_phys gpu D) nr)) (Some NV_OK).

Definition bench_call_result (p : read_params) (gpu : option Z) (D : list visit) (out : list Z) (s : kst)
    (r : nv_status * bench_outs) (s' : kst) : Prop :=
  cc_ok out s' /\ k_live s' = k_live s /\ bench_frame p s s' /\
  (HealthyEnv E -> is_Some gpu -> fst r = NV_OK) /\
  (fst r = NV_OK -> exists nr : nat, bench_read_result p gpu D nr s' /\ snd r = bench_good_outs p gpu D nr).

Lemma bench_call_spec p spaces gpu D out s :
  env_capable = true -> env_cc = true -> 0 <= rp_num_threads p -> read_call false false p spaces gpu D ->
  cc_ok out s ->
  wp (uvm_api_live_migration_bench_decompose sched flags p spaces) (bench_call_result p gpu D out s) s.
Proof.
  intros Hcap Hcc Hn Hcall Hc. unfold uvm_api_live_migration_bench_decompose.
  rewrite Hcap, Hcc, (rc_args _ _ _ _ _ _ Hcall). cbn [negb].
  apply wp_bind, wp_kmalloc_quiet. intros pb s1 Hq1%quiet_calm Hlv1 Hh1. apply wp_if; intros Hpb.
  { wdet. apply negb_true_iff in Hpb as ->. cbn in Hlv1. split_and!; try done; [by eapply calm_cc_ok|cbn in *; lia| |].
    - intros a ???. by rewrite (proj2 Hq1).
    - intros HE. by specialize (Hh1 HE). }
  apply negb_false_iff in Hpb as ->. apply wp_bind. eapply wp_mono.
  { apply wp_and; [apply alloc_bufs_spec|apply wp_and; [apply alloc_no_meta|
      apply (wp_live_exact _ _ _ (live_alloc_bufs false (n_pages p)))]]. }
  intros [st [[rm gp] cm]] s2 [(Hq2 & _ & Hh2) [Hcm Hlv2]]. cbn [fst snd] in Hh2, Hlv2, Hcm. subst cm.
  pose proof (calm_trans _ _ _ Hq1 Hq2) as Hq12. pose proof (calm_cc_ok _ _ _ Hq12 Hc) as Hc2.
  assert (0 < n_pages p < 2 ^ 50) as Hnp.
  { destruct Hcall as [_ (v & _ & _ & HD & Ha)]. apply (read_sizes false p gpu D false v Ha HD). }
  apply wp_bind, wp_mono with (Q := bench_done p gpu D out s2).
  { apply wp_if; intros Hst; bprop; [|by apply bench_body_spec]. wdet. unfold bench_done, bench_live; cbn.
    change (runs_live 0) with 0. split_and!; try done; [lia|]. intros HE _. destruct Hst. apply Hh2; [done|lia]. }
  intros [[[st' l] [nt thr]] b] s3 (Hc3 & Hlv3 & Hf3 & Hh3 & Hok3). destruct b as [rc cmb].
  eapply wp_mono; [apply (bench_release_spec (rc, cmb) true rm gp)|].
  intros r s4 (-> & Hq4 & Hlv4). split_and!; cbn [fst snd]; [by eapply calm_cc_ok| | |done|].
  - unfold bench_live, bufs_live in *. cbn in *. lia.
  - intros a ???. by rewrite (proj2 Hq4), Hf3, (proj2 Hq12).
  - intros Hst. destruct (Hok3 Hst) as (Hco & Hgo & nr & -> & -> & Hr). exists nr. split.
    + by eapply bench_read_result_user; [apply Hq4|].
    + unfold bench_outs_of, bench_good_outs. rewrite Hst, is_ok_NV_OK, Hco, Hgo. done.
Qed.

Lemma bench_plaintext p gpu D nr s :
  has_flag flags UVM_LIVE_MIGRATION_BENCH_DECRYPT = true -> bench_buf flags (rp_gpu_buf p) = rp_gpu_buf p ->
  bench_read_result p gpu D nr s -> read_result false p gpu D nr s.
Proof.
  intros Hd Hb (Hm & Hc & Hg). split_and!; try done. unfold bench_result in Hg. rewrite Hd, Hb in Hg. exact Hg.
Qed.

(** C34: The benchmark of ioctl 117 under every combination of its flags and every
    schedule of its threads: locks, allocations, pool and memory outside the
    buffers in use are as before; without failures and with a GPU it returns OK;
    OK means the residency map and the CPU pages are delivered, the GPU buffer
    holds the pages or, without decryption, a genuine ciphertext of them, and the
    OUT fields count transfers and threads. When it decrypts to the user it
    delivers what ioctl 114 does. *)
Theorem bench_decompose_correct p spaces gpu D out s :
  env_capable = true -> env_cc = true -> 0 <= rp_num_threads p -> read_call false false p spaces gpu D ->
  cc_ok out s -> k_locks s = [] -> k_lock_bug s = false ->
  let '(st, o, s') := uvm_api_live_migration_bench_decompose sched flags p spaces s in
  k_locks s' = [] /\ k_lock_bug s' = false /\ k_live s' = k_live s /\ cc_ok out s' /\
  bench_frame p s s' /\ (HealthyEnv E -> is_Some gpu -> st = NV_OK) /\
  (st = NV_OK -> exists nr : nat, bench_read_result p gpu D nr s' /\ o = bench_good_outs p gpu D nr /\
     (has_flag flags UVM_LIVE_MIGRATION_BENCH_DECRYPT = true ->
      bench_buf flags (rp_gpu_buf p) = rp_gpu_buf p -> read_result false p gpu D nr s')).
Proof.
  intros Hcap Hcc Hn Hcall Hc Hlk Hlb.
  pose proof (bench_call_spec p spaces gpu D out s Hcap Hcc Hn Hcall Hc) as H.
  destruct (lock_bench_decompose p spaces s Hlk Hlb) as [H1 H2].
  unfold wp in H. destruct (uvm_api_live_migration_bench_decompose _ _ _ _ s) as [[st o] s']; cbn [fst snd] in *.
  destruct H as (Hc' & H3 & Hf & Hh & Hok). split_and!; try done.
  intros Hst. destruct (Hok Hst) as (nr & Hr & Ho). exists nr. split_and!; [done..|].
  intros Hd Hb. by apply bench_plaintext.
Qed.
End BenchHandlerSpec.
