(* ===== verification/DecryptIoctl.v ===== *)
(** The decryption service of [uvm_live_migration.c], ioctl 112: the ciphertext
    and metadata of an encrypted read, back to plaintext. *)
From S2P Require Import Prelude Kernel VaBlock ConfComputing Runs Pass1 Jobs Slots Threads Transfer Layout Meta ReadIoctls ReadSpec.

(** The IN fields. *)
Record decrypt_params := mk_decrypt_params {
  dp_cipher_buf    : Z;
  dp_plain_buf     : Z;
  dp_crypto_meta   : Z;
  dp_num_transfers : Z;
  dp_total_size    : Z;
  dp_gpu_uuid      : list Z;
}.

(** A GPU of [for_each_gpu]: its UUID, and the CSL contexts of its channels, so
    that each GPU has keys of its own. *)
Record gpu_entry := mk_gpu_entry { ge_uuid : list Z; ge_cc : CcGpu }.

Section DecryptIoctl.
Context `{E : Env}.

(** Without confidential computing: copied page by page.  [None] is running out
    of fuel, one unit per page. *)
Fixpoint copy_chunks (fuel : nat) (p : decrypt_params) (off : Z) : K (option nv_status) :=
  if negb (off <? dp_total_size p) then kret (Some NV_OK) else
  match fuel with
  | O => kret None
  | S fuel' =>
      let chunk := Z.min PAGE_SIZE (dp_total_size p - off) in
      tmp ← copy_from_user (u64 (dp_cipher_buf p + off)) (Z.to_nat chunk);
      match tmp with
      | None => kret (Some NV_ERR_INVALID_ARGUMENT)
      | Some bs =>
          fault ← copy_to_user (u64 (dp_plain_buf p + off)) bs;
          if fault : bool then kret (Some NV_ERR_INVALID_ARGUMENT)
          else copy_chunks fuel' p (u64 (off + PAGE_SIZE))
      end
  end.

Definition copy_fuel (p : decrypt_params) : nat := Z.to_nat ((dp_total_size p + PAGE_SIZE - 1) / PAGE_SIZE).

Definition copy_as_is (p : decrypt_params) : K (option nv_status) :=
  tmp ← kmalloc;
  if negb tmp then kret (Some NV_ERR_NO_MEMORY) else
  r ← copy_chunks (copy_fuel p) p 0;
  kfree true ;;
  kret r.

(** The GPU with the UUID, the first one for the zero UUID. *)
Definition find_gpu (gpus : list gpu_entry) (uuid : list Z) : option gpu_entry :=
  find (fun g => bool_decide (uuid = replicate 16 0) || bool_decide (ge_uuid g = uuid)) gpus.

Definition decrypt_find_gpu (gpus : list gpu_entry) (uuid : list Z) : K (option gpu_entry) :=
  lock_acquire LGlobal ;;
  lock_release LGlobal ;;
  kret (find_gpu gpus uuid).

Section GpuChannel.
Context `{G : CcGpu}.

(** A channel of the GPU, from an empty push. *)
Definition decrypt_get_channel : K (nv_status * Z) :=
  '(status, chan) ← uvm_push_begin;
  if negb (is_ok status) then kret (status, chan) else
  uvm_push_end chan ;;
  status ← uvm_push_wait;
  kret (status, chan).

(** The transfers, [remaining] of them; [metas] is what [meta_buf] holds.
    [None] is a read past its end. *)
Fixpoint decrypt_loop (p : decrypt_params) (chan remaining cipher_off : Z) (metas : list crypto_meta)
    : K (option nv_status) :=
  if remaining <=? 0 then kret (Some NV_OK) else
  match metas with
  | [] => kret None
  | m :: metas' =>
      let chunk_size := cm_size m in
      if (chunk_size =? 0) || (UVM_CONF_COMPUTING_DMA_BUFFER_SIZE <? chunk_size)
         || (dp_total_size p <? u64 (cipher_off + chunk_size))
      then kret (Some NV_ERR_INVALID_ARGUMENT) else
      cipher ← copy_from_user (u64 (dp_cipher_buf p + cipher_off)) (Z.to_nat chunk_size);
      match cipher with
      | None => kret (Some NV_ERR_INVALID_ARGUMENT)
      | Some c =>
          '(status, plain) ← uvm_conf_computing_cpu_decrypt chan c (cm_iv m, cm_iv_fresh m)
                               (cm_key_version m) (cm_auth_tag m);
          if negb (is_ok status) then kret (Some status) else
          fault ← copy_to_user (u64 (dp_plain_buf p + cipher_off)) plain;
          if fault : bool then kret (Some NV_ERR_INVALID_ARGUMENT)
          else decrypt_loop p chan (remaining - 1) (u64 (cipher_off + chunk_size)) metas'
      end
  end.

End GpuChannel.

(** The size of [meta_buf] in bytes, as computed. *)
Definition decrypt_meta_bytes (p : decrypt_params) : Z := u64 (dp_num_transfers p * SIZEOF_CRYPTO_META).

Definition decrypt_cc (gpus : list gpu_entry) (p : decrypt_params) : K (option nv_status) :=
  cipher_buf ← kmalloc;
  plain_buf ← kmalloc;
  meta_buf ← kmalloc;
  r ← (if negb cipher_buf || negb plain_buf || negb meta_buf then kret (Some NV_ERR_NO_MEMORY) else
       bs ← copy_from_user (dp_crypto_meta p) (Z.to_nat (decrypt_meta_bytes p));
       match bs with
       | None => kret (Some NV_ERR_INVALID_ARGUMENT)
       | Some bs =>
           gpu ← decrypt_find_gpu gpus (dp_gpu_uuid p);
           match gpu with
           | None => kret (Some NV_ERR_INVALID_DEVICE)
           | Some g =>
               '(status, chan) ← decrypt_get_channel (G := ge_cc g);
               if negb (is_ok status) then kret (Some status) else
               decrypt_loop (G := ge_cc g) p chan (dp_num_transfers p) 0 (decode_metas (length bs / 41) bs)
           end
       end);
  kfree cipher_buf ;;
  kfree plain_buf ;;
  kfree meta_buf ;;
  kret r.

(** The status and [rmStatus], which the argument checks leave alone; [None] as
    above. *)
Definition uvm_api_live_migration_decrypt_encrypted_pages (gpus : list gpu_entry) (p : decrypt_params)
    : K (option (nv_status * option nv_status)) :=
  if negb env_capable then kret (Some (NV_ERR_INSUFFICIENT_PERMISSIONS, None)) else
  if (dp_num_transfers p =? 0) || (dp_total_size p =? 0) then kret (Some (NV_ERR_INVALID_ARGUMENT, None)) else
  if (dp_cipher_buf p =? 0) || (dp_plain_buf p =? 0) || (dp_crypto_meta p =? 0)
  then kret (Some (NV_ERR_INVALID_ARGUMENT, None)) else
  r ← (if negb env_cc then copy_as_is p else decrypt_cc gpus p);
  kret ((fun st => (st, Some st)) <$> r).
End DecryptIoctl.

(** ** The loops *)

Section DecryptLoops.
Context `{E : Env} `{G : CcGpu}.

(** Only the plaintext buffer and the IV accounting change. *)
Definition decrypt_frame (p : decrypt_params) (s s' : kst) : Prop :=
  k_bufs s' = k_bufs s /\ k_free s' = k_free s /\ k_num s' = k_num s /\ k_next s' = k_next s /\
  iv_step s s' /\
  (forall a, ~ area (dp_plain_buf p) (dp_total_size p) a -> k_user s' !! a = k_user s !! a).

#[export] Instance decrypt_frame_ambient p : Ambient (decrypt_frame p).
Proof.
  split; [|by intros; unfold decrypt_frame; split_and!..]. split; [by intros s; unfold decrypt_frame; split_and!|].
  intros s1 s2 s3 (?&?&?&?&Hi1&Hu1) (?&?&?&?&Hi2&Hu2). unfold decrypt_frame. split_and!; try congruence.
  - exact (@PreOrder_Transitive _ _ amb_pre _ _ _ Hi1 Hi2).
  - intros a Ha. by rewrite Hu2, Hu1.
Qed.

Lemma decrypt_frame_trans p s1 s2 s3 : decrypt_frame p s1 s2 -> decrypt_frame p s2 s3 -> decrypt_frame p s1 s3.
Proof. apply (@PreOrder_Transitive _ _ amb_pre). Qed.

Lemma decrypt_frame_cc_ok out p s s' : decrypt_frame p s s' -> cc_ok out s -> cc_ok out s'.
Proof.
  intros (Hb&Hf&Hm&Hn&Hi&_) Hc Hcc. destruct (Hc Hcc) as [Hp Hl]. split; [|by eapply limit_ok_step].
  apply (pool_inv_perm out s); try done. by rewrite Hf.
Qed.

(** The addresses of the call are those of the buffers. *)
Record decrypt_bufs (p : decrypt_params) : Prop := {
  db_cipher : 0 < dp_cipher_buf p /\ dp_cipher_buf p + dp_total_size p <= 2 ^ 64;
  db_plain  : 0 < dp_plain_buf p /\ dp_plain_buf p + dp_total_size p <= 2 ^ 64;
  db_total  : 0 < dp_total_size p < 2 ^ 63;
  db_number : 0 < dp_num_transfers p /\ dp_num_transfers p * SIZEOF_CRYPTO_META < 2 ^ 64;
  db_meta   : 0 < dp_crypto_meta p;
}.

(** A copy to the output, [off] bytes in. *)
Lemma wp_copy_plain p off bs (Q : bool -> kst -> Prop) s :
  decrypt_bufs p -> 0 <= off -> off + Z.of_nat (length bs) <= dp_total_size p -> off < dp_total_size p ->
  (forall f s', decrypt_frame p s s' ->
     (forall x, ~ (dp_plain_buf p + off <= x < dp_plain_buf p + off + Z.of_nat (length bs)) ->
        k_user s' !! x = k_user s !! x) ->
     (f = false -> mem_holds (k_user s') (dp_plain_buf p + off) bs) -> (HealthyEnv E -> f = false) -> Q f s') ->
  wp (copy_to_user (u64 (dp_plain_buf p + off)) bs) Q s.
Proof.
  intros [_ [Hp0 Hp1] Ht _ _] H0 H1 H2 HQ. rewrite u64_small by lia.
  apply wp_copy_out. intros f s' (?&?&?&?&Hcs) _ Ho Hm Hh. apply HQ; try done.
  unfold decrypt_frame, iv_step. rewrite Hcs. split_and!; try done.
  intros a Ha. apply Ho. intros Hr. apply Ha. unfold area. lia.
Qed.

(** A copy from user memory: whole, or nothing when it faults. *)
Lemma wp_copy_in a n (Q : option (list Z) -> kst -> Prop) s :
  (forall t, Q None (set_tick t s)) ->
  (forall t bs, length bs = n -> mem_holds (k_user s) a bs -> Q (Some bs) (set_tick t s)) ->
  wp (copy_from_user a n) Q s.
Proof.
  intros HN HS. unfold wp, copy_from_user, kbind, tick, kget, kret; cbn.
  destruct (env_copy_ok _); [|apply HN]. destruct (mapM id _) as [bs|] eqn:Hm; [|apply HN].
  assert (mem_read (k_user s) a n = Some <$> bs) as Hr.
  { apply mapM_Some in Hm. clear -Hm. induction Hm as [|x y l k Hxy _ IH]; [done|]. cbn in *. by rewrite Hxy, IH. }
  assert (length bs = n) as Hl.
  { apply (f_equal length) in Hr. unfold mem_read in Hr. rewrite !length_fmap, length_seq in Hr. done. }
  apply HS; [done|]. unfold mem_holds. by rewrite Hl.
Qed.

Lemma wp_copy_in_known a bs (Q : option (list Z) -> kst -> Prop) s :
  mem_holds (k_user s) a bs ->
  (forall t, ~ HealthyEnv E -> Q None (set_tick t s)) -> (forall t, Q (Some bs) (set_tick t s)) ->
  wp (copy_from_user a (length bs)) Q s.
Proof.
  intros Hm HN HS. unfold wp, copy_from_user, kbind, tick, kget, kret; cbn.
  destruct (env_copy_ok _) eqn:Hc; [|apply HN; intros HE; by rewrite healthy_copy in Hc].
  unfold mem_holds in Hm. cbn. rewrite Hm. replace (mapM id (Some <$> bs)) with (Some bs); [apply HS|].
  symmetry. apply mapM_Some. clear. induction bs; cbn; by constructor.
Qed.

Lemma wp_cpu_decrypt_any p chan c iv v tag (Q : nv_status * list Z -> kst -> Prop) s :
  (forall st bs s', decrypt_frame p s s' -> k_user s' = k_user s -> (st = NV_OK -> length bs = length c) -> Q (st, bs) s') ->
  wp (uvm_conf_computing_cpu_decrypt chan c iv v tag) Q s.
Proof.
  intros HQ. unfold uvm_conf_computing_cpu_decrypt. wdet. apply wp_ext_status. intros st t. wdet.
  destruct (is_ok st) eqn:Hst; cbn [negb].
  - destruct (csl_decrypt v iv c tag) as [bs|] eqn:Hd; (apply HQ; [by unfold decrypt_frame; split_and!|done|]).
    + intros _. by eapply csl_plain_length.
    + done.
  - apply HQ; [by unfold decrypt_frame; split_and!|done|]. intros ->. by rewrite is_ok_NV_OK in Hst.
Qed.
Lemma decrypt_frame_refl p s s' :
  k_bufs s' = k_bufs s -> k_free s' = k_free s -> k_num s' = k_num s -> k_next s' = k_next s ->
  k_csl s' = k_csl s -> k_user s' = k_user s -> decrypt_frame p s s'.
Proof. intros ? ? ? ? Hc Hu. unfold decrypt_frame, iv_step. rewrite Hc, Hu. by split_and!. Qed.

(** Whatever the metadata, the loop ends, reads no entry past the array, and
    writes nothing outside the output buffer. *)
Lemma decrypt_loop_safe p chan : decrypt_bufs p -> forall metas remaining off s,
  0 <= off <= dp_total_size p -> remaining <= Z.of_nat (length metas) -> Forall (fun m => 0 <= cm_size m) metas ->
  wp (decrypt_loop p chan remaining off metas) (fun r s' => is_Some r /\ decrypt_frame p s s') s.
Proof.
  intros Hp. pose proof Hp as [Hc Hpl Ht _ _].
  induction metas as [|m metas IH]; intros remaining off s Ho Hr Hm; cbn [decrypt_loop];
    (apply wp_if; intros Hz; btest; [wdet; split; [done|by apply decrypt_frame_refl]|]).
  { cbn in Hr. lia. }
  apply Forall_cons in Hm as [Hm0 Hm]. cbv zeta. apply wp_if; intros Hchk.
  { wdet. split; [done|by apply decrypt_frame_refl]. }
  apply orb_false_iff in Hchk as [Hchk H3]. apply orb_false_iff in Hchk as [H1 H2]. btest.
  unfold UVM_CONF_COMPUTING_DMA_BUFFER_SIZE, UVM_VA_BLOCK_SIZE in H2. rewrite u64_small in H3 by lia.
  apply wp_bind, wp_copy_in; [intros t; wdet; split; [done|by apply decrypt_frame_refl]|].
  intros t bs Hl _. set (s1 := set_tick t s). assert (decrypt_frame p s s1) as Hf1 by (by apply decrypt_frame_refl).
  apply wp_bind, (wp_cpu_decrypt_any p). intros st bs' s2 Hf2 _ Hl2.
  pose proof (decrypt_frame_trans _ _ _ _ Hf1 Hf2) as Hf12.
  apply wp_if; intros Hst; bprop; [by wdet|]. specialize (Hl2 Hst).
  apply wp_bind, wp_copy_plain; [done|lia|lia|lia|]. intros f s3 Hf3 _ _ _.
  pose proof (decrypt_frame_trans _ _ _ _ Hf12 Hf3) as Hf13.
  destruct f; [by wdet|]. rewrite u64_small by lia.
  eapply wp_mono; [apply (IH (remaining - 1)); [lia|cbn in Hr; lia|done]|].
  intros r s4 [Hr4 Hf4]. split; [done|]. by eapply decrypt_frame_trans.
Qed.

(** The input stays what it is while the output is written. *)
Definition apart_bufs (p : decrypt_params) : Prop :=
  disjoint_iv (dp_cipher_buf p) (dp_total_size p) (dp_plain_buf p) (dp_total_size p).

Definition delivered_from (p : decrypt_params) (off : Z) (plain : list Z) (r : option nv_status) (s' : kst) : Prop :=
  (HealthyEnv E -> r = Some NV_OK) /\
  (r = Some NV_OK -> mem_holds (k_user s') (dp_plain_buf p + off) plain).

(** One piece delivered, then the rest. *)
Lemma delivered_cons p off k b rest r s3 s4 :
  Z.of_nat (length b) = k -> mem_holds (k_user s3) (dp_plain_buf p + off) b ->
  (forall x, ~ (dp_plain_buf p + (off + k) <= x < dp_plain_buf p + (off + k) + Z.of_nat (length rest)) ->
     k_user s4 !! x = k_user s3 !! x) ->
  delivered_from p (off + k) rest r s4 -> delivered_from p off (b ++ rest) r s4.
Proof.
  intros Hl Hb Hk [Hh Hok]. split; [done|]. intros Hr. apply mem_holds_app. split.
  - eapply mem_holds_frame; [|exact Hb]. intros x Hx. apply Hk. lia.
  - rewrite Hl, <- Z.add_assoc. by apply Hok.
Qed.

Lemma length_decrypt_all metas : forall c plain, decrypt_all metas c = Some plain ->
  Forall meta_ok metas -> foldr Z.add 0 (cm_size <$> metas) = Z.of_nat (length c) -> length plain = length c.
Proof.
  induction metas as [|m metas IH]; intros c plain Hd Hm Hs; cbn in *.
  { destruct c; [by injection Hd as <-|cbn in Hs; lia]. }
  destruct (csl_decrypt _ _ _ _) as [b|] eqn:Hb; [|done].
  destruct (decrypt_all metas _) as [rest|] eqn:Hr; [|done]. injection Hd as <-.
  apply Forall_cons in Hm as [Hm0 Hm]. apply csl_plain_length in Hb. rewrite length_take in Hb.
  assert (0 <= foldr Z.add 0 (cm_size <$> metas)) as Hpos.
  { clear -Hm. induction Hm as [|x l [[? ?] _ _ _] _ IHl]; cbn; lia. }
  pose proof (mo_size _ Hm0). specialize (IH _ _ Hr Hm). rewrite length_drop in IH. rewrite length_app. lia.
Qed.

Lemma decrypt_loop_spec p chan : decrypt_bufs p -> apart_bufs p -> forall metas off c plain s,
  Forall meta_ok metas -> decrypt_all metas c = Some plain ->
  foldr Z.add 0 (cm_size <$> metas) = Z.of_nat (length c) ->
  0 <= off -> off + Z.of_nat (length c) = dp_total_size p ->
  mem_holds (k_user s) (dp_cipher_buf p + off) c ->
  wp (decrypt_loop p chan (Z.of_nat (length metas)) off metas) (fun r s' =>
    delivered_from p off plain r s' /\
    (forall x, ~ (dp_plain_buf p + off <= x < dp_plain_buf p + off + Z.of_nat (length plain)) ->
       k_user s' !! x = k_user s !! x)) s.
Proof.
  intros Hp Hd. pose proof Hp as [Hc Hpl Ht _ _]. unfold apart_bufs, disjoint_iv in Hd.
  induction metas as [|m metas IH]; intros off c plain s Hm Hdec Hs Ho Htot Hin; cbn [decrypt_loop].
  { cbn in Hdec. injection Hdec as <-. cbn. wdet. unfold delivered_from. by split_and!. }
  pose proof (length_decrypt_all _ _ _ Hdec Hm Hs) as Hlp.
  cbn [decrypt_all] in Hdec. cbv zeta in Hdec. set (k := cm_size m) in *.
  destruct (csl_decrypt _ _ _ _) as [b|] eqn:Hb; [|done].
  destruct (decrypt_all metas _) as [rest|] eqn:Hr; [|done]. injection Hdec as <-.
  apply Forall_cons in Hm as [Hm0 Hm]. destruct (mo_size _ Hm0) as [Hk0 Hk1]. fold k in Hk0, Hk1.
  assert (0 <= foldr Z.add 0 (cm_size <$> metas)) as Hpos.
  { clear -Hm. induction Hm as [|x l [[? ?] _ _ _] _ IHl]; cbn; lia. }
  rewrite fmap_cons in Hs. cbn [foldr] in Hs. fold k in Hs.
  assert (length (take (Z.to_nat k) c) = Z.to_nat k) as Hlt by (rewrite length_take; lia).
  pose proof (csl_plain_length _ _ _ _ _ Hb) as Hlb. rewrite Hlt in Hlb.
  rewrite <- (take_drop (Z.to_nat k) c) in Hin. apply mem_holds_app in Hin as [Hin1 Hin2]. rewrite Hlt in Hin2.
  apply wp_if; intros Hz; btest; [cbn in Hz; lia|]. cbv zeta. fold k.
  apply wp_if; intros Hchk.
  { exfalso. rewrite u64_small in Hchk by lia. apply orb_true_iff in Hchk as [Hchk|Hchk];
      [apply orb_true_iff in Hchk as [Hchk|Hchk]|]; btest. }
  rewrite (u64_small (dp_cipher_buf p + off)) by lia. rewrite <- Hlt.
  apply wp_bind, wp_copy_in_known; [exact Hin1|intros t Hh; wdet; unfold delivered_from; by split_and!|].
  intros t. apply wp_bind. eapply wp_cpu_decrypt_full; [exact Hb|]. intros st b' s2 Hst Hh [Hu2 _] _.
  cbn [k_user set_tick] in Hu2. apply wp_if; intros Hs2; bprop.
  { wdet. unfold delivered_from. split_and!; [by intros HE; destruct Hs2; apply Hh|by intros [= ?]|by rewrite Hu2]. }
  rewrite (Hst Hs2). apply wp_bind, wp_copy_plain; [done|lia|lia|lia|]. intros f s3 _ Ho3 Hf3 Hh3.
  rewrite length_app.
  assert (forall x, ~ (dp_plain_buf p + off <= x < dp_plain_buf p + off + Z.of_nat (length b + length rest)) ->
    k_user s3 !! x = k_user s !! x) as Hk3 by (intros x Hx; rewrite Ho3, Hu2 by lia; done).
  destruct f.
  { wdet. unfold delivered_from. split_and!; [by intros HE; specialize (Hh3 HE)|done|done]. }
  rewrite length_app in Hlp. cbn [length]. rewrite u64_small by lia.
  replace (Z.of_nat (S (length metas)) - 1) with (Z.of_nat (length metas)) by lia.
  eapply wp_mono.
  { apply (IH (off + k) (drop (Z.to_nat k) c) rest); try done; try (rewrite length_drop; lia); [lia|].
    eapply mem_holds_frame; [|replace (dp_cipher_buf p + (off + k)) with (dp_cipher_buf p + off + Z.of_nat (Z.to_nat k)) by lia; exact Hin2].
    intros x Hx. rewrite Ho3, Hu2; [done|]. rewrite length_drop in Hx. lia. }
  intros r s4 [Hd4 Hk4]. split.
  - apply (delivered_cons p off k b rest r s3 s4); [lia|by apply Hf3|exact Hk4|exact Hd4].
  - intros x Hx. rewrite Hk4 by lia. apply Hk3. lia.
Qed.
End DecryptLoops.

(** ** The handler *)

Section DecryptTheorems.
Context `{E : Env} `{G : CcGpu}.

(** Enough fuel for the pages left. *)
Lemma copy_chunks_safe p : decrypt_bufs p -> dp_total_size p + PAGE_SIZE < 2 ^ 64 -> forall fuel off s,
  0 <= off -> dp_total_size p <= off + Z.of_nat fuel * PAGE_SIZE ->
  wp (copy_chunks fuel p off) (fun r s' => is_Some r /\ decrypt_frame p s s') s.
Proof.
  intros Hp Hov. pose proof Hp as [Hc Hpl Ht _ _]. unfold PAGE_SIZE in *.
  induction fuel as [|fuel IH]; intros off s Ho Hf; cbn [copy_chunks];
    (apply wp_if; intros Hlt; btest; [wdet; split; [done|by apply decrypt_frame_refl]|..]).
  cbv zeta. unfold PAGE_SIZE. apply wp_bind, wp_copy_in; [intros t; wdet; split; [done|by apply decrypt_frame_refl]|].
  intros t bs Hl _. set (s1 := set_tick t s). assert (decrypt_frame p s s1) as Hf1 by (by apply decrypt_frame_refl).
  apply wp_bind, wp_copy_plain; [done|lia|lia|lia|]. intros f s2 Hf2 _ _ _.
  pose proof (decrypt_frame_trans _ _ _ _ Hf1 Hf2) as Hf12. destruct f; [by wdet|]. rewrite u64_small by lia.
  eapply wp_mono; [apply IH; lia|]. intros r s3 [Hr Hf3]. split; [done|]. by eapply decrypt_frame_trans.
Qed.

Lemma copy_chunks_spec p : decrypt_bufs p -> apart_bufs p -> forall fuel off c s,
  0 <= off -> off + Z.of_nat (length c) = Z.max off (dp_total_size p) ->
  dp_total_size p <= off + Z.of_nat fuel * PAGE_SIZE ->
  mem_holds (k_user s) (dp_cipher_buf p + off) c ->
  wp (copy_chunks fuel p off) (fun r s' => delivered_from p off c r s' /\
    (forall x, ~ (dp_plain_buf p + off <= x < dp_plain_buf p + off + Z.of_nat (length c)) ->
       k_user s' !! x = k_user s !! x)) s.
Proof.
  intros Hp Hd. pose proof Hp as [Hc Hpl Ht _ _]. unfold apart_bufs, disjoint_iv, PAGE_SIZE in *.
  induction fuel as [|fuel IH]; intros off c s Ho Hl Hf Hin; cbn [copy_chunks];
    (apply wp_if; intros Hlt; btest;
     [assert (c = []) as -> by (destruct c; [done|cbn in Hl; lia]); wdet; unfold delivered_from; by split_and!|..]).
  cbv zeta. unfold PAGE_SIZE. set (k := Z.min 4096 (dp_total_size p - off)).
  assert (length (take (Z.to_nat k) c) = Z.to_nat k) as Hlt' by (rewrite length_take; lia).
  rewrite <- (take_drop (Z.to_nat k) c) in Hin. apply mem_holds_app in Hin as [Hin1 Hin2]. rewrite Hlt' in Hin2.
  rewrite (u64_small (dp_cipher_buf p + off)) by lia. rewrite <- Hlt'.
  apply wp_bind, wp_copy_in_known; [exact Hin1|intros t Hh; wdet; unfold delivered_from; by split_and!|].
  intros t. apply wp_bind, wp_copy_plain; [done|lia|lia|lia|]. intros f s2 _ Ho2 Hf2 Hh2. cbn [k_user set_tick] in Ho2.
  assert (forall x, ~ (dp_plain_buf p + off <= x < dp_plain_buf p + off + Z.of_nat (length c)) ->
    k_user s2 !! x = k_user s !! x) as Hk2 by (intros x Hx; apply Ho2; lia).
  destruct f.
  { wdet. unfold delivered_from. split_and!; [by intros HE; specialize (Hh2 HE)|done|done]. }
  rewrite u64_small by lia.
  destruct (decide (dp_total_size p <= off + 4096)) as [Hlast|Hmore].
  - assert (take (Z.to_nat k) c = c) as Htk by (apply take_ge; lia). rewrite Htk in Hf2.
    assert (delivered_from p off c (Some NV_OK) s2) as Hdl by (unfold delivered_from; auto).
    destruct fuel; cbn [copy_chunks]; (apply wp_if; intros Hz; btest; [by wdet|..]).
  - assert (k = 4096) as Hk by lia.
    eapply wp_mono.
    { apply (IH (off + 4096) (drop (Z.to_nat k) c)); try (rewrite ?length_drop; lia).
      eapply mem_holds_frame; [|replace (dp_cipher_buf p + (off + 4096)) with (dp_cipher_buf p + off + Z.of_nat (Z.to_nat k)) by lia; exact Hin2].
      intros x Hx. rewrite length_drop in Hx. apply Ho2. lia. }
    intros r s3 [Hd3 Hk3]. rewrite length_drop in Hk3. split.
    + rewrite <- (take_drop (Z.to_nat k) c). apply (delivered_cons p off 4096 _ _ r s2 s3); [lia|by apply Hf2| |exact Hd3].
      rewrite length_drop. exact Hk3.
    + intros x Hx. rewrite Hk3 by lia. by apply Hk2.
Qed.

Lemma decrypt_frame_quiet p s s' : quiet s s' -> decrypt_frame p s s'.
Proof. intros [(?&?&?&?&?&?&?&?) ?]. by apply decrypt_frame_refl. Qed.

Lemma wp_get_channel p s (Q : nv_status * Z -> kst -> Prop) :
  env_cc = true -> limit_ok s ->
  (forall st chan s', decrypt_frame p s s' -> k_user s' = k_user s -> (HealthyEnv E -> st = NV_OK) -> Q (st, chan) s') ->
  wp decrypt_get_channel Q s.
Proof.
  intros Hcc Hl HQ. unfold decrypt_get_channel. apply wp_bind, wp_push_begin; [done|done|].
  intros st chan s1 (Hu1&?&?&?&?&?&?&?) Hi1 _ Hh1.
  assert (decrypt_frame p s s1) as Hf1 by (unfold decrypt_frame; split_and!; try done; by rewrite Hu1).
  apply wp_if; intros Hst; bprop; [wdet; apply HQ; done|].
  apply wp_bind, (wp_keeps (fun s s' => csl_only s s' /\ iv_step s s'));
    [intros s'; split; [apply csl_only_push_end|apply iv_step_push_end]|].
  intros [] s2 [(Hu2&?&?&?&?&?&?&?) Hi2]. unfold uvm_push_wait. wdet. apply wp_and_healthy_status.
  intros st3 t3 Hh3. wdet. apply HQ; [|cbn; congruence|done].
  eapply decrypt_frame_trans; [exact Hf1|]. unfold decrypt_frame. split_and!; try done. intros a _. cbn. by rewrite Hu2.
Qed.
End DecryptTheorems.

(** *** Locks and allocations *)

Section DecryptResources.
Context `{E : Env} `{G : CcGpu}.

Lemma lock_copy_chunks fuel : forall p off, LockSpec [] (copy_chunks fuel p off) [].
Proof. induction fuel as [|fuel IH]; intros p off; cbn [copy_chunks]; locks. Qed.

Lemma lock_decrypt_loop metas : forall p chan remaining off,
  LockSpec [] (decrypt_loop p chan remaining off metas) [].
Proof. induction metas as [|m metas IH]; intros p chan remaining off; cbn [decrypt_loop]; cbv zeta; locks. Qed.
#[local] Hint Resolve lock_copy_chunks lock_decrypt_loop : locks.

Lemma live_copy_chunks fuel : forall p off, LiveSpec (copy_chunks fuel p off) (fun _ => 0).
Proof. induction fuel as [|fuel IH]; intros p off; cbn [copy_chunks]; cbv zeta; live0. Qed.

Lemma live_decrypt_loop metas : forall p chan remaining off,
  LiveSpec (decrypt_loop p chan remaining off metas) (fun _ => 0).
Proof. induction metas as [|m metas IH]; intros p chan remaining off; cbn [decrypt_loop]; cbv zeta; live0. Qed.

Lemma live_get_channel : LiveSpec decrypt_get_channel (fun _ => 0).
Proof. unfold decrypt_get_channel, uvm_push_wait. live0. Qed.
End DecryptResources.

Section CallResources.
Context `{E : Env}.
#[local] Hint Resolve lock_copy_chunks lock_decrypt_loop : locks.
#[local] Hint Resolve live_copy_chunks live_decrypt_loop live_get_channel : live.

Lemma lock_decrypt gpus p : LockSpec [] (uvm_api_live_migration_decrypt_encrypted_pages gpus p) [].
Proof.
  unfold uvm_api_live_migration_decrypt_encrypted_pages, copy_as_is, decrypt_cc, decrypt_find_gpu,
    decrypt_get_channel, uvm_push_wait. locks.
Qed.

Lemma live_find_gpu gpus uuid : LiveSpec (decrypt_find_gpu gpus uuid) (fun _ => 0).
Proof. unfold decrypt_find_gpu. live0. Qed.
#[local] Hint Resolve live_find_gpu : live.

Lemma live_decrypt gpus p : LiveSpec (uvm_api_live_migration_decrypt_encrypted_pages gpus p) (fun _ => 0).
Proof.
  unfold uvm_api_live_migration_decrypt_encrypted_pages.
  do 3 (match goal with |- LiveSpec (if ?b then _ else _) _ => destruct b end; [by apply live_ret|]).
  apply (live_bind _ _ (fun _ => 0)); [|intros r; by apply live_ret]. destruct env_cc; cbn [negb].
  - unfold decrypt_cc. eapply live_bind; [apply live_kmalloc|]. intros b1.
    eapply live_bind; [apply live_kmalloc|]. intros b2. eapply live_bind; [apply live_kmalloc|]. intros b3.
    apply (live_bind _ _ (fun _ => 0)).
    { destruct (negb b1 || negb b2 || negb b3); [by apply live_ret|]. live0. }
    intros r. destruct b1, b2, b3; live.
  - unfold copy_as_is. eapply live_bind; [apply live_kmalloc|]. intros []; cbn [negb]; [|by apply live_ret].
    eapply live_bind; [apply live_copy_chunks|]. intros r. live.
Qed.
End CallResources.

Section DecryptTheorem.
Context `{E : Env}.

(** Memory cells are bytes. *)
Definition user_bytes (s : kst) : Prop := forall a b, k_user s !! a = Some b -> 0 <= b < 256.

Lemma mem_holds_bytes s a bs : user_bytes s -> mem_holds (k_user s) a bs -> Forall (fun b => 0 <= b < 256) bs.
Proof.
  intros Hb Hm. apply Forall_lookup. intros i x Hx. pose proof (lookup_lt_Some _ _ _ Hx).
  rewrite mem_holds_alt in Hm. eapply Hb. by rewrite Hm.
Qed.

Lemma le_value_nonneg bs : Forall (fun b => 0 <= b < 256) bs -> 0 <= le_value bs.
Proof. induction 1; cbn; lia. Qed.

Lemma decode_metas_sizes n : forall bs, Forall (fun b => 0 <= b < 256) bs ->
  Forall (fun m => 0 <= cm_size m) (decode_metas n bs).
Proof.
  induction n as [|n IH]; intros bs Hb; cbn [decode_metas]; constructor.
  - cbn. by apply le_value_nonneg, Forall_take, Forall_take.
  - by apply IH, Forall_drop.
Qed.

Lemma length_decode_metas n : forall bs, length (decode_metas n bs) = n.
Proof. induction n as [|n IH]; intros bs; cbn; [done|]. by rewrite IH. Qed.

(** The GPU the call names. *)
Definition gpu_known (gpus : list gpu_entry) (p : decrypt_params) : Prop :=
  exists g, g ∈ gpus /\ (dp_gpu_uuid p = replicate 16 0 \/ ge_uuid g = dp_gpu_uuid p).

Lemma find_gpu_known gpus p (Q : option gpu_entry -> kst -> Prop) s :
  (forall r s', quiet s s' -> r = find_gpu gpus (dp_gpu_uuid p) -> (gpu_known gpus p -> is_Some r) -> Q r s') ->
  wp (decrypt_find_gpu gpus (dp_gpu_uuid p)) Q s.
Proof.
  intros HQ. unfold decrypt_find_gpu. wdet. apply HQ; [by repeat split|done|]. intros (g & Hg & Hu). unfold find_gpu.
  destruct (find _ gpus) as [x|] eqn:Hf; cbn; [eauto|]. exfalso.
  pose proof (find_none _ _ Hf g (proj1 (list_elem_of_In _ _) Hg)) as Hn; cbv beta in Hn.
  apply orb_false_iff in Hn as [H1 H2]. apply bool_decide_eq_false in H1, H2. tauto.
Qed.
Lemma quiet_after_tick t s s' : quiet (set_tick t s) s' -> quiet s s'.
Proof. intros H. eapply (@PreOrder_Transitive _ _ amb_pre); [apply (amb_tick _ t)|exact H]. Qed.

(** The calls around the loops. *)
Lemma decrypt_cc_safe gpus p out s :
  env_cc = true -> decrypt_bufs p -> user_bytes s -> cc_ok out s ->
  wp (decrypt_cc gpus p) (fun r s' => is_Some r /\ decrypt_frame p s s') s.
Proof.
  intros Hcc Hp Hb Hc. pose proof (db_number _ Hp) as [Hn0 Hn1]. unfold decrypt_cc.
  apply wp_bind, wp_kmalloc_quiet. intros b1 s1 Hq1 _ _. apply wp_bind, wp_kmalloc_quiet. intros b2 s2 Hq2 _ _.
  apply wp_bind, wp_kmalloc_quiet. intros b3 s3 Hq3 _ _.
  assert (quiet s s3) as Hq by (eapply (@PreOrder_Transitive _ _ amb_pre); [|exact Hq3];
    by eapply (@PreOrder_Transitive _ _ amb_pre)).
  pose proof (decrypt_frame_quiet p _ _ Hq) as Hf3.
  apply wp_bind, wp_mono with (Q := fun r s' => is_Some r /\ decrypt_frame p s3 s').
  - apply wp_if; intros _; [wdet; split; [done|by apply decrypt_frame_refl]|].
    apply wp_bind, wp_copy_in; [intros t; wdet; split; [done|by apply decrypt_frame_refl]|].
    intros t bs Hl Hm. apply wp_bind, find_gpu_known. intros g s4 Hq4 _ _.
    pose proof (decrypt_frame_quiet p _ _ Hq4) as Hf4.
    assert (decrypt_frame p s3 s4) as Hf34 by (eapply decrypt_frame_trans; [|exact Hf4]; by apply decrypt_frame_refl).
    destruct g as [g|]; [|by wdet].
    assert (cc_ok out s4) as Hc4 by (eapply decrypt_frame_cc_ok; [exact Hf34|]; by eapply quiet_cc_ok).
    apply wp_bind, (wp_get_channel p); [done|apply Hc4, Hcc|]. intros st chan s5 Hf5 _ _.
    pose proof (decrypt_frame_trans _ _ _ _ Hf34 Hf5) as Hf35. apply wp_if; intros _; [by wdet|].
    unfold decrypt_meta_bytes, SIZEOF_CRYPTO_META in *. rewrite u64_small in Hl by lia.
    eapply wp_mono; [apply decrypt_loop_safe; [done|destruct (db_total _ Hp); lia| |]|].
    + rewrite length_decode_metas. rewrite Hl. rewrite Nat2Z.inj_div, Z2Nat.id by lia.
      change (Z.of_nat 41) with 41. by rewrite Z.div_mul.
    + apply decode_metas_sizes. eapply (mem_holds_bytes s); [done|]. by rewrite <- (proj1 (proj1 Hq)).
    + intros r s6 [Hr Hf6]. split; [done|]. by eapply decrypt_frame_trans.
  - intros r s4 [Hr Hf4]. apply wp_bind, wp_kfree_quiet. intros s5 Hq5 _.
    apply wp_bind, wp_kfree_quiet. intros s6 Hq6 _. apply wp_bind, wp_kfree_quiet. intros s7 Hq7 _. wdet.
    split; [done|]. eapply decrypt_frame_trans; [exact Hf3|]. eapply decrypt_frame_trans; [exact Hf4|].
    apply decrypt_frame_quiet. eapply (@PreOrder_Transitive _ _ amb_pre); [exact Hq5|].
    by eapply (@PreOrder_Transitive _ _ amb_pre).
Qed.

Lemma copy_fuel_enough p : 0 < dp_total_size p -> dp_total_size p <= 0 + Z.of_nat (copy_fuel p) * PAGE_SIZE.
Proof.
  intros Ht. unfold copy_fuel, PAGE_SIZE. rewrite Z2Nat.id by (apply Z.div_pos; lia).
  pose proof (Z.div_mod (dp_total_size p + 4096 - 1) 4096 ltac:(lia)).
  pose proof (Z.mod_pos_bound (dp_total_size p + 4096 - 1) 4096 ltac:(lia)). lia.
Qed.

Lemma copy_as_is_safe p s :
  decrypt_bufs p -> wp (copy_as_is p) (fun r s' => is_Some r /\ decrypt_frame p s s') s.
Proof.
  intros Hp. pose proof (db_total _ Hp) as Ht. unfold copy_as_is.
  apply wp_bind, wp_kmalloc_quiet. intros b s1 Hq1%(decrypt_frame_quiet p) _ _.
  apply wp_if; intros _; [by wdet|]. apply wp_bind. eapply wp_mono.
  { apply copy_chunks_safe; [done|unfold PAGE_SIZE; lia|lia|]. apply copy_fuel_enough. lia. }
  intros r s2 [Hr Hf2]. apply wp_bind, wp_kfree_quiet. intros s3 Hq3%(decrypt_frame_quiet p) _. wdet.
  split; [done|]. eapply decrypt_frame_trans; [exact Hq1|]. by eapply decrypt_frame_trans.
Qed.

(** C31: Ioctl 112 on buffers inside the address space, of fewer than 2^63 bytes,
    with num_transfers * 41 below 2^64, and arbitrary, possibly forged contents
    and metadata: it terminates without reading past its metadata buffer, writes
    only inside the plaintext buffer, and leaves pool, locks and allocations as
    they were. (Beyond that bound on num_transfers it does read past the buffer:
    decrypt_meta_overflow.) *)
Theorem decrypt_safe gpus p out s :
  decrypt_bufs p -> user_bytes s -> cc_ok out s -> k_locks s = [] -> k_lock_bug s = false ->
  let '(r, s') := uvm_api_live_migration_decrypt_encrypted_pages gpus p s in
  is_Some r /\ decrypt_frame p s s' /\ cc_ok out s' /\
  k_locks s' = [] /\ k_lock_bug s' = false /\ k_live s' = k_live s.
Proof.
  intros Hp Hb Hc Hlk Hlb. destruct (lock_decrypt gpus p s Hlk Hlb) as [H1 H2].
  pose proof (live_decrypt gpus p s) as H3.
  assert (wp (uvm_api_live_migration_decrypt_encrypted_pages gpus p) (fun r s' => is_Some r /\ decrypt_frame p s s') s) as Hw.
  { unfold uvm_api_live_migration_decrypt_encrypted_pages.
    do 3 (apply wp_if; intros _; [wdet; split; [done|by apply decrypt_frame_refl]|]).
    apply wp_bind. eapply wp_mono.
    - apply wp_if; intros Hcc; [by apply copy_as_is_safe|]. apply negb_false_iff in Hcc.
      by apply (decrypt_cc_safe gpus p out).
    - intros r s' [[st ->] Hf]. by wdet. }
  unfold wp in Hw. destruct (uvm_api_live_migration_decrypt_encrypted_pages gpus p s) as [r s']; cbn [fst snd] in *.
  destruct Hw as [Hr Hf]. split_and!; try done; [by eapply decrypt_frame_cc_ok|lia].
Qed.

(** A call with the output of an encrypted read: ciphertext [c] with metadata
    [metas] that decrypts to [plain]. *)
Record decrypt_call `{G : CcGpu} (p : decrypt_params) (metas : list crypto_meta) (c plain : list Z) (s : kst) : Prop := {
  dc_bufs  : decrypt_bufs p;
  dc_apart : apart_bufs p;
  dc_metas : Forall meta_ok metas;
  dc_count : dp_num_transfers p = Z.of_nat (length metas);
  dc_total : dp_total_size p = Z.of_nat (length c);
  dc_sizes : foldr Z.add 0 (cm_size <$> metas) = Z.of_nat (length c);
  dc_plain : decrypt_all metas c = Some plain;
  dc_user_meta   : mem_holds (k_user s) (dp_crypto_meta p) (encode_metas metas);
  dc_user_cipher : mem_holds (k_user s) (dp_cipher_buf p) c;
}.

Lemma decrypt_cc_spec gpus g p metas c plain out s :
  find_gpu gpus (dp_gpu_uuid p) = Some g ->
  env_cc = true -> cc_ok out s -> decrypt_call (G := ge_cc g) p metas c plain s ->
  wp (decrypt_cc gpus p) (fun r s' => (HealthyEnv E -> r = Some NV_OK) /\
    (r = Some NV_OK -> mem_holds (k_user s') (dp_plain_buf p) plain)) s.
Proof.
  intros Hgpu Hcc Hc [Hp Hap Hm Hn Ht Hs Hdec Hum Huc]. pose proof (db_number _ Hp) as [Hn0 Hn1]. unfold decrypt_cc.
  apply wp_bind, wp_kmalloc_quiet. intros b1 s1 Hq1 _ Hh1. apply wp_bind, wp_kmalloc_quiet. intros b2 s2 Hq2 _ Hh2.
  apply wp_bind, wp_kmalloc_quiet. intros b3 s3 Hq3 _ Hh3.
  assert (quiet s s3) as Hq by (eapply (@PreOrder_Transitive _ _ amb_pre); [|exact Hq3];
    by eapply (@PreOrder_Transitive _ _ amb_pre)).
  assert (k_user s3 = k_user s) as Hu3 by apply Hq. pose proof (quiet_cc_ok out _ _ Hq Hc) as Hc3.
  apply wp_bind, wp_mono with (Q := fun r s' => (HealthyEnv E -> r = Some NV_OK) /\
    (r = Some NV_OK -> mem_holds (k_user s') (dp_plain_buf p) plain)).
  - apply wp_if; intros Hal.
    { wdet. split; [|done]. intros HE. by rewrite Hh1, Hh2, Hh3 in Hal. }
    assert (Z.to_nat (decrypt_meta_bytes p) = length (encode_metas metas)) as Hlen.
    { unfold decrypt_meta_bytes, SIZEOF_CRYPTO_META in *. rewrite u64_small by lia. rewrite length_encode_metas. lia. }
    rewrite Hlen. apply wp_bind, wp_copy_in_known; [by rewrite Hu3|intros t Hh; wdet; by split|].
    intros t. apply wp_bind, find_gpu_known. intros r s4 Hq4 -> _. rewrite Hgpu.
    assert (cc_ok out s4) as Hc4 by (eapply quiet_cc_ok; [by eapply quiet_after_tick|exact Hc3]).
    assert (k_user s4 = k_user s) as Hu4 by (rewrite (proj1 (proj1 Hq4)); exact Hu3).
    apply wp_bind, (wp_get_channel p); [done|apply Hc4, Hcc|]. intros st chan s5 _ Hu5 Hh5.
    apply wp_if; intros Hst; bprop.
    { wdet. split; [|by intros [= ?]]. intros HE. by destruct Hst; apply Hh5. }
    rewrite length_encode_metas. replace ((41 * length metas) / 41)%nat with (length metas)
      by (rewrite Nat.mul_comm; symmetry; by apply Nat.div_mul).
    rewrite <- (app_nil_r (encode_metas metas)), decode_encode_metas, Hn by done.
    eapply wp_mono; [apply (decrypt_loop_spec p chan Hp Hap metas 0 c plain); try done; try lia|].
    + by rewrite Z.add_0_r, Hu5, Hu4.
    + intros r s6 [[Hh Hok] _]. rewrite Z.add_0_r in Hok. split; [done|done].
  - intros r s4 [Hh Hok]. apply wp_bind, wp_kfree_quiet. intros s5 [(Hu5 & _) _] _.
    apply wp_bind, wp_kfree_quiet. intros s6 [(Hu6 & _) _] _. apply wp_bind, wp_kfree_quiet.
    intros s7 [(Hu7 & _) _] _. wdet. split; [done|]. intros Hr. rewrite Hu7, Hu6, Hu5. by apply Hok.
Qed.

Lemma decrypt_call_args `{G : CcGpu} p metas c plain s : decrypt_call p metas c plain s ->
  (dp_num_transfers p =? 0) || (dp_total_size p =? 0) = false /\
  (dp_cipher_buf p =? 0) || (dp_plain_buf p =? 0) || (dp_crypto_meta p =? 0) = false.
Proof.
  intros [[[? ?] [? ?] [? ?] [? ?] ?] _ _ _ _ _ _ _ _]. rewrite !orb_false_iff, !Z.eqb_neq. lia.
Qed.

Lemma decrypt_spec gpus g p metas c plain out s :
  find_gpu gpus (dp_gpu_uuid p) = Some g ->
  env_capable = true -> env_cc = true -> cc_ok out s -> decrypt_call (G := ge_cc g) p metas c plain s ->
  wp (uvm_api_live_migration_decrypt_encrypted_pages gpus p) (fun r s' =>
    (HealthyEnv E -> r = Some (NV_OK, Some NV_OK)) /\
    (forall rm, r = Some (NV_OK, rm) -> mem_holds (k_user s') (dp_plain_buf p) plain)) s.
Proof.
  intros Hgpu Hcap Hcc Hc Hcall. destruct (decrypt_call_args _ _ _ _ _ Hcall) as [H1 H2].
  unfold uvm_api_live_migration_decrypt_encrypted_pages. rewrite Hcap, H1, H2, Hcc. cbn [negb].
  apply wp_bind. eapply wp_mono; [by apply (decrypt_cc_spec gpus g p metas c plain out)|].
  intros r s' [Hh Hok]. wdet. split.
  - intros HE. by rewrite (Hh HE).
  - intros rm Hr. apply Hok. destruct r; [|done]. cbn in Hr. by injection Hr as -> _.
Qed.

(** Ioctl 112 on ciphertext and metadata that decrypt to a plaintext under the
    keys of the GPU the call names: OK means that plaintext is in the plain buffer, and without failures the status
    is OK. *)
Theorem decrypt_correct gpus g p metas c plain out s :
  find_gpu gpus (dp_gpu_uuid p) = Some g ->
  env_capable = true -> env_cc = true -> cc_ok out s -> decrypt_call (G := ge_cc g) p metas c plain s ->
  let '(r, s') := uvm_api_live_migration_decrypt_encrypted_pages gpus p s in
  (HealthyEnv E -> r = Some (NV_OK, Some NV_OK)) /\
  (forall rm, r = Some (NV_OK, rm) -> mem_holds (k_user s') (dp_plain_buf p) plain).
Proof.
  intros Hgpu Hcap Hcc Hc Hcall. pose proof (decrypt_spec gpus g p metas c plain out s Hgpu Hcap Hcc Hc Hcall) as H.
  unfold wp in H. by destruct (uvm_api_live_migration_decrypt_encrypted_pages gpus p s).
Qed.

(** Without confidential computing ioctl 112 terminates and copies the input:
    OK means the plain buffer holds the cipher buffer's bytes, and without
    failures the status is OK. *)
Theorem decrypt_copies_as_is gpus p c s :
  env_capable = true -> env_cc = false -> decrypt_bufs p -> apart_bufs p ->
  dp_total_size p = Z.of_nat (length c) -> mem_holds (k_user s) (dp_cipher_buf p) c ->
  let '(r, s') := uvm_api_live_migration_decrypt_encrypted_pages gpus p s in
  (HealthyEnv E -> r = Some (NV_OK, Some NV_OK)) /\
  (forall rm, r = Some (NV_OK, rm) -> mem_holds (k_user s') (dp_plain_buf p) c).
Proof.
  intros Hcap Hcc Hp Hap Ht Hm.
  enough (wp (uvm_api_live_migration_decrypt_encrypted_pages gpus p) (fun r s' =>
    (HealthyEnv E -> r = Some (NV_OK, Some NV_OK)) /\
    (forall rm, r = Some (NV_OK, rm) -> mem_holds (k_user s') (dp_plain_buf p) c)) s) as H.
  { unfold wp in H. by destruct (uvm_api_live_migration_decrypt_encrypted_pages gpus p s). }
  pose proof (db_total _ Hp) as Ht0.
  unfold uvm_api_live_migration_decrypt_encrypted_pages, copy_as_is. rewrite Hcap, Hcc. cbn [negb].
  pose proof Hp as [[? ?] [? ?] [? ?] [? ?] ?].
  assert ((dp_num_transfers p =? 0) || (dp_total_size p =? 0) = false) as -> by (rewrite !orb_false_iff, !Z.eqb_neq; lia).
  assert ((dp_cipher_buf p =? 0) || (dp_plain_buf p =? 0) || (dp_crypto_meta p =? 0) = false) as ->
    by (rewrite !orb_false_iff, !Z.eqb_neq; lia).
  apply wp_bind, wp_bind, wp_kmalloc_quiet. intros b s1 [(Hu1 & _) _] _ Hh1. apply wp_if; intros Hb.
  { wdet. split; [intros HE; by rewrite Hh1 in Hb|done]. }
  apply wp_bind. eapply wp_mono.
  { apply (copy_chunks_spec p) with (c := c); [done|done|lia|lia|apply copy_fuel_enough; lia|].
    by rewrite Z.add_0_r, Hu1. }
  intros r s2 [[Hh Hok] _]. rewrite Z.add_0_r in Hok. apply wp_bind, wp_kfree_quiet. intros s3 [(Hu3 & _) _] _. wdet.
  split.
  - intros HE. by rewrite (Hh HE).
  - intros rm Hr. rewrite Hu3. apply Hok. destruct r; [|done]. cbn in Hr. by injection Hr as -> _.
Qed.

(** C32: The size of the metadata buffer is computed modulo 2^64: for a
    num_transfers whose product with 41 wraps to less than one entry, ioctl 112
    reads its first entry past the end of the buffer it allocated. *)
Theorem decrypt_meta_overflow gpus p out s bs :
  HealthyEnv E -> env_capable = true -> env_cc = true -> cc_ok out s -> gpu_known gpus p ->
  0 < dp_num_transfers p -> 0 < dp_total_size p -> dp_cipher_buf p <> 0 -> dp_plain_buf p <> 0 ->
  dp_crypto_meta p <> 0 ->
  decrypt_meta_bytes p < SIZEOF_CRYPTO_META ->
  Z.of_nat (length bs) = decrypt_meta_bytes p -> mem_holds (k_user s) (dp_crypto_meta p) bs ->
  fst (uvm_api_live_migration_decrypt_encrypted_pages gpus p s) = None.
Proof.
  intros HE Hcap Hcc Hc Hg Hn Ht H1 H2 H3 Hsm Hl Hm.
  enough (wp (uvm_api_live_migration_decrypt_encrypted_pages gpus p) (fun r _ => r = None) s) as H by exact H.
  unfold uvm_api_live_migration_decrypt_encrypted_pages, decrypt_cc. rewrite Hcap, Hcc. cbn [negb].
  assert ((dp_num_transfers p =? 0) || (dp_total_size p =? 0) = false) as -> by (rewrite !orb_false_iff, !Z.eqb_neq; lia).
  assert ((dp_cipher_buf p =? 0) || (dp_plain_buf p =? 0) || (dp_crypto_meta p =? 0) = false) as ->
    by (rewrite !orb_false_iff, !Z.eqb_neq; lia).
  apply wp_bind, wp_bind, wp_kmalloc_quiet. intros b1 s1 Hq1 _ Hh1. rewrite (Hh1 HE). clear Hh1 b1.
  apply wp_bind, wp_kmalloc_quiet. intros b2 s2 Hq2 _ Hh2. rewrite (Hh2 HE). clear Hh2 b2.
  apply wp_bind, wp_kmalloc_quiet. intros b3 s3 Hq3 _ Hh3. rewrite (Hh3 HE). clear Hh3 b3. cbn [negb orb].
  assert (quiet s s3) as Hq by (eapply (@PreOrder_Transitive _ _ amb_pre); [|exact Hq3];
    by eapply (@PreOrder_Transitive _ _ amb_pre)).
  apply wp_bind, wp_mono with (Q := fun r _ => r = None).
  - replace (Z.to_nat (decrypt_meta_bytes p)) with (length bs) by lia.
    apply wp_bind, wp_copy_in_known; [by rewrite (proj1 (proj1 Hq))|by intros t Hh|].
    intros t. apply wp_bind, find_gpu_known. intros g s4 Hq4 _ Hk. destruct (Hk Hg) as [g' ->].
    assert (cc_ok out s4) as Hc4 by (eapply quiet_cc_ok; [by eapply quiet_after_tick|]; by eapply (quiet_cc_ok out s s3)).
    apply wp_bind, (wp_get_channel p); [done|apply Hc4, Hcc|]. intros st chan s5 _ _ Hh5. rewrite (Hh5 HE), is_ok_NV_OK.
    cbn [negb]. unfold SIZEOF_CRYPTO_META in Hsm. rewrite Nat.div_small by lia. cbn [decode_metas decrypt_loop].
    apply wp_if; intros Hz; btest. by wdet.
  - intros r s4 ->. apply wp_bind, wp_kfree_quiet. intros s5 _ _. apply wp_bind, wp_kfree_quiet. intros s6 _ _.
    apply wp_bind, wp_kfree_quiet. intros s7 _ _. by wdet.
Qed.
End DecryptTheorem.
