(* ===== verification/RoundTrip.v ===== *)
(** Checkpoint and restore together: what an encrypted read (ioctls 115 and 116)
    leaves in user memory, ioctl 112 turns back into the contents of the GPU
    pages. *)
From S2P Require Import Prelude Kernel VaBlock ConfComputing Runs Pass1 Jobs Slots Threads Transfer Layout Meta ReadIoctls ReadSpec MtIoctls DecryptIoctl.

Section RoundTrip.
Context `{E : Env}.

(** The call of ioctl 112 that takes the buffers and OUT fields of a read. *)
Record restores (p : read_params) (o : read_outs) (q : decrypt_params) : Prop := {
  rs_cipher : dp_cipher_buf q = rp_gpu_buf p;
  rs_meta   : dp_crypto_meta q = rp_crypto_meta p;
  rs_number : Some (dp_num_transfers q) = ro_num_transfers o;
  rs_total  : Some (dp_total_size q) = ro_gpu_bytes o;
  rs_bufs   : decrypt_bufs q;
  rs_apart  : apart_bufs q;
}.

(** The user memory a read leaves makes a call of ioctl 112. *)
Lemma read_result_decrypts `{G : CcGpu} p o q gpu D nr s :
  env_cc = true -> restores p o q -> o = encrypted_outs p gpu D nr -> read_result true p gpu D nr s ->
  exists metas c, decrypt_call q metas c (vid_pages (gpu_phys gpu D)) s.
Proof.
  intros Hcc [H1 H2 H3 H4 Hb Ha] -> (_ & _ & Hg). cbn in H3, H4. injection H3 as H3. injection H4 as H4.
  rewrite Hcc in Hg. cbn [andb gpu_result] in Hg. destruct Hg as (metas & c & Hl & Hm & Hd & Hc & Hs & Hgb & Hmb).
  pose proof Hb as [[? ?] _ _ _ ?]. exists metas, c. split; try done.
  - by rewrite H3, Hl.
  - by rewrite H4, Hc.
  - rewrite H2. apply Hmb. lia.
  - rewrite H1. apply Hgb. lia.
Qed.

(** C4: Checkpoint and restore: when nothing fails, ioctl 115 or 116 succeeds
    under any thread schedule, and ioctl 112, called on the ciphertext, metadata
    and sizes it left in user memory with the uuid of the GPU it read from,
    succeeds and writes exactly the contents of the GPU pages the read visited, in
    order. *)
Theorem checkpoint_roundtrip gpus g sched d p q spaces gpu D out s :
  HealthyEnv E -> env_capable = true -> env_cc = true -> 0 <= rp_num_threads p ->
  read_call true d p spaces gpu D -> meta_room true p -> is_Some gpu ->
  find_gpu gpus (dp_gpu_uuid q) = Some g ->
  cc_ok out s -> k_locks s = [] -> k_lock_bug s = false ->
  let '(st, o, s1) := encrypted_mt (G := ge_cc g) sched d p spaces s in
  restores p o q ->
  let '(r, s2) := uvm_api_live_migration_decrypt_encrypted_pages gpus q s1 in
  st = NV_OK /\ r = Some (NV_OK, Some NV_OK) /\
  mem_holds (k_user s2) (dp_plain_buf q) (vid_pages (G := ge_cc g) (gpu_phys gpu D)).
Proof.
  intros HE Hcap Hcc Hn Hcall Hroom Hgpu Hgk Hc Hlk Hlb.
  pose proof (encrypted_mt_correct (G := ge_cc g) sched d p spaces gpu D out s Hcap Hcc Hn Hcall Hc Hlk Hlb) as H.
  unfold encrypted_read_ok in H. destruct (encrypted_mt sched d p spaces s) as [[st o] s1].
  destruct H as (_ & _ & _ & Hc1 & _ & Hst & Hok). specialize (Hst HE Hroom Hgpu). subst st.
  destruct (Hok eq_refl) as (nr & _ & Hr & Ho). intros Hq.
  destruct (read_result_decrypts (G := ge_cc g) p o q gpu D nr s1 Hcc Hq Ho Hr) as (metas & c & Hdc).
  pose proof (decrypt_spec gpus g q metas c _ out s1 Hgk Hcap Hcc Hc1 Hdc) as H. unfold wp in H.
  destruct (uvm_api_live_migration_decrypt_encrypted_pages gpus q s1) as [r s2]; cbn [fst snd] in H.
  destruct H as [Hh Hp]. specialize (Hh HE). split_and!; [done|done|]. by eapply Hp.
Qed.
End RoundTrip.
