(* ===== verification/Witnesses.v ===== *)
(** Concrete instances: the hypotheses of the theorems hold on small systems,
    with the definitions evaluated.  The system is one VA space with one GPU and
    one managed 2MB block, two of whose pages are in use. *)
From S2P Require Import Prelude Kernel VaBlock Permissions Tracking Accessors Service.

Module Demo.
Definition cfg : perm_cfg :=
mk_perm_cfg ∅ (fun _ => {[0; 1]}) {[1]} false false None false {[1]}.
Definition phys (p : Z) : phys_address := mk_phys (65536 + p * 4096) UVM_APERTURE_VID.
(** GPU 1 holds pages 0 and 1 and may write them with atomics. *)
Definition gpu1 : gpu_state := mk_gpu_state {[0; 1]} phys {[0; 1]} {[0; 1]} {[0; 1]}.
Definition block : va_block :=
mk_va_block 2097152 4194303 ∅ (fun _ => []) ∅ ∅ {[1 := gpu1]} {[1]} {[1]} {[0; 1]} false false.
Definition range : va_range :=
mk_va_range 2097152 4194303 UVM_VA_RANGE_TYPE_MANAGED [Some block].
Definition space : va_space := mk_va_space 7 [range] false [1] (fun _ => None).
End Demo.

Import Demo.

Lemma demo_perm_wf : perm_wf block.
Proof.
  constructor; cbn.
  - intros g gs [_ <-]%lookup_singleton_Some. by constructor.
  - intros g gs [<- <-]%lookup_singleton_Some _ Hn. set_solver.
  - done.
  - done.
  - intros g _ Hg. apply elem_of_singleton in Hg as ->. rewrite lookup_singleton_eq. eauto.
Qed.

Lemma demo_block_wf : block_wf block.
Proof. split; [apply demo_perm_wf|]. cbn. intros id Hid. apply elem_of_singleton in Hid as ->. done. Qed.

Lemma demo_space_wf : Forall (space_all block_wf) [space].
Proof.
  constructor; [|constructor]. intros r Hr _ b Hb. cbn in Hr.
  apply list_elem_of_singleton in Hr as ->. cbn in Hb. apply list_elem_of_singleton in Hb as ->.
  apply demo_block_wf.
Qed.

Lemma demo_bounds : range_bounds range.
Proof. by constructor. Qed.

Lemma block_of_address_witness :
  let i := uvm_va_range_block_index range 3000000 in
  i = 0 /\ 0 <= i < uvm_va_range_num_blocks range /\
  block_calc_start range i <= 3000000 <= block_calc_end range i.
Proof.
  destruct (block_of_address range 3000000) as (H1 & H2 & _); [apply demo_bounds|cbn; lia|].
  split; [reflexivity|]. split; [exact H1|exact H2].
Defined.

Lemma demo_range_wf : range_wf range.
Proof.
  constructor; [apply demo_bounds|reflexivity|].
  intros [|i] b Hb; cbn in Hb; [|by destruct i]. injection Hb as <-. by split; vm_compute.
Qed.

Lemma blocks_from_range_blocks_witness : blocks_from 1 range None = [block].
Proof. exact (blocks_from_range_blocks range demo_range_wf). Defined.

Lemma revoke_mask_write_protects_witness :
  let '(st, b') := fst (@uvm_va_block_revoke_prot_mask healthy_env cfg block {[1]}
                          (uvm_va_block_region_from_block block) None UVM_PROT_READ_WRITE kst_init) in
  st = NV_OK /\ prot_pages b' 1 UVM_PROT_READ_ONLY = prot_pages block 1 UVM_PROT_READ_ONLY.
Proof.
  assert (forall id : Z, id ∈ ({[1]} : gset Z) -> 0 <= id) as Hid.
  { intros id Hid. apply elem_of_singleton in Hid as ->. lia. }
  pose proof (@revoke_mask_write_protects healthy_env _ cfg block {[1]}
    (uvm_va_block_region_from_block block) None kst_init demo_perm_wf Hid) as H.
  destruct (fst _) as [st b']. destruct H as (Hst & _ & _ & H).
  split; [exact Hst|]. apply H; [set_solver|lia].
Defined.

Lemma map_mask_grants_witness :
  let '(st, b') := fst (@uvm_va_block_map_mask healthy_env cfg block {[1]}
                          (uvm_va_block_region_from_block block) None UVM_PROT_READ_ONLY kst_init) in
  st = NV_OK /\ prot_pages b' 1 UVM_PROT_READ_WRITE = prot_pages block 1 UVM_PROT_READ_WRITE.
Proof.
  assert (forall id : Z, id ∈ ({[1]} : gset Z) -> 0 <= id) as Hid.
  { intros id Hid. apply elem_of_singleton in Hid as ->. lia. }
  pose proof (@map_mask_grants healthy_env _ cfg block {[1]}
    (uvm_va_block_region_from_block block) None UVM_PROT_READ_ONLY kst_init demo_perm_wf
    ltac:(discriminate) Hid) as H.
  destruct (fst _) as [st b']. destruct H as (Hst & _ & _ & _ & H & _).
  split; [exact Hst|]. apply H. reflexivity.
Defined.

Lemma prepare_all_succeeds_witness :
  let '(st, spaces') := fst (@uvm_api_live_migration_prepare_all healthy_env (fun _ => cfg)
                               [space] kst_init) in
  st = NV_OK /\ Forall2 space_prepared [space] spaces'.
Proof.
  apply (@prepare_all_succeeds healthy_env _); [reflexivity|discriminate|cbn; lia|apply demo_space_wf].
Defined.

(** An environment in which the first allocation of the revocation fails. *)
Definition flaky_env : Env := env_with true (fun n => N.eqb n 4).

Lemma prepare_all_correct_witness :
  let '(st, spaces') := fst (@uvm_api_live_migration_prepare_all flaky_env (fun _ => cfg)
                               [space] kst_init) in
  Forall2 (fun v v' => space_prepared v v' \/ space_failed v v') [space] spaces' /\
  (st = NV_OK -> Exists (fun p => space_prepared (fst p) (snd p)) (zip [space] spaces')).
Proof.
  pose proof (@prepare_all_correct flaky_env (fun _ => cfg) [space] kst_init demo_space_wf) as H.
  destruct (fst _) as [st spaces']. destruct H as (_ & _ & H1 & H2). split; assumption.
Defined.

Lemma get_dirty_pages_correct_witness :
  let dirty := mk_va_space 7
    [vr_set_blocks [Some (vb_set_migration true true block)] range] true [1] (fun _ => None) in
  let '((st, num), s') := @uvm_api_live_migration_get_dirty_pages healthy_env 4096 8 [dirty] kst_init in
  mem_holds (k_user s') 4096 (le_u64s (take (Z.to_nat num) [2097152])).
Proof.
  intros dirty.
  pose proof (@get_dirty_pages_correct healthy_env 4096 8 [dirty] kst_init
    ltac:(lia) ltac:(lia) ltac:(lia) eq_refl eq_refl) as H.
  destruct (uvm_api_live_migration_get_dirty_pages _ _ _ _) as [[st num] s'].
  destruct H as (_ & _ & H & _). exact H.
Defined.

Lemma get_va_ranges_correct_witness :
  let '(r, s') := @uvm_api_live_migration_get_va_ranges healthy_env 4096 8192 8 [space] kst_init in
  k_locks s' = [] /\ ranges_result 4096 8192 8 [space] r s'.
Proof.
  pose proof (@get_va_ranges_correct healthy_env 4096 8192 8 [space] kst_init
    ltac:(lia) eq_refl eq_refl) as H.
  destruct (uvm_api_live_migration_get_va_ranges _ _ _ _ _) as [r s'].
  destruct H as (H1 & _ & _ & _ & H2). split; assumption.
Defined.

Lemma finalize_correct_witness :
  let '((st, spaces'), s') := @uvm_api_live_migration_finalize healthy_env (fun _ => cfg) [space] kst_init in
  st = NV_OK /\ k_locks s' = [].
Proof.
  pose proof (@finalize_correct healthy_env (fun _ => cfg) [space] kst_init demo_space_wf
    eq_refl eq_refl) as H.
  destruct (uvm_api_live_migration_finalize _ _ _) as [[st spaces'] s'].
  destruct H as (H1 & H2 & _). split; assumption.
Defined.

Lemma finalize_restores_witness :
  let '(st, spaces') := fst (@uvm_api_live_migration_finalize healthy_env (fun _ => cfg) [space] kst_init) in
  st = NV_OK /\
  Forall2 (fun v v' => vs_tracking_active v' = false /\
    Forall2 (range_rel (restored (fun _ => cfg))) (vs_ranges v) (vs_ranges v')) [space] spaces'.
Proof. apply (@finalize_restores healthy_env _); [reflexivity|apply demo_space_wf]. Defined.

(** ** Faults *)

Module DemoFault.
(** Access type 1 is a read, 2 a write, 4 a strong atomic. *)
Definition access_prot (t : Z) : uvm_prot :=
if t =? 1 then UVM_PROT_READ_ONLY
else if t =? 2 then UVM_PROT_READ_WRITE else UVM_PROT_READ_WRITE_ATOMIC.
Definition svc : service_cfg :=
mk_service_cfg cfg access_prot 4 false true true true UVM_READ_DUPLICATION_ENABLED ∅
  (fun _ => ∅) {[0; 1]} {[1]} false ∅ (fun _ => {[0; 1]}) (fun _ => false) ∅ (fun _ => ∅) false None.
(** GPU 1 faults on page 0. *)
Definition context (new_residency access : Z) (rw : prot_mapping) : service_context :=
mk_service_context (mk_region 0 1) new_residency {[0]} ∅ (fun _ => access)
  (mk_prot_mapping 0 ∅) rw (mk_prot_mapping 0 ∅).
Definition empty : prot_mapping := mk_prot_mapping 0 ∅.
Definition stale : prot_mapping := mk_prot_mapping 0 {[0]}.
End DemoFault.

Import DemoFault.

Definition tracked_block : va_block := vb_set_migration false true block.

Lemma demo_full_mask_size : Z.of_nat (size (full_mask tracked_block)) < 2 ^ 32.
Proof. vm_compute. reflexivity. Qed.

Lemma demo_region_in_block : region_mask (mk_region 0 1) ⊆ full_mask tracked_block.
Proof.
  intros x. unfold full_mask. rewrite !elem_of_region_mask. cbn [rg_first rg_outer].
  change (rg_first (uvm_va_block_region_from_block tracked_block)) with 0.
  change (rg_outer (uvm_va_block_region_from_block tracked_block)) with 512. lia.
Qed.

Lemma fault_restores_whole_block_witness :
  let c := context 1 2 empty in
  let c' := service_bulk_restore svc tracked_block 1 (service_compute_mappings svc tracked_block 1 c) in
  sc_rw c' = mk_prot_mapping 0 ∅ /\ pm_count (sc_rwa c') = 2.
Proof.
  destruct (fault_restores_whole_block svc tracked_block 1 (context 1 2 empty))
    as (_ & H & _); [reflexivity|lia|reflexivity|reflexivity|reflexivity
                    |apply demo_full_mask_size|cbn; lia|apply demo_region_in_block|].
  split; [exact H|vm_compute; reflexivity].
Defined.

Lemma bulk_restore_stale_count_witness :
  pm_count (sc_rw (service_bulk_restore svc tracked_block 1 (context 1 1 stale))) = 2 ^ 32 - 1.
Proof.
  rewrite (bulk_restore_stale_count svc tracked_block 1 (context 1 1 stale));
    [vm_compute; reflexivity|reflexivity|lia|reflexivity|reflexivity
    |vm_compute; discriminate|apply demo_full_mask_size].
Defined.

Lemma demo_processors : processors_ok svc.
Proof.
  split; cbn; [|set_solver..]. intros id Hid. assert (id = 0 \/ id = 1) as [-> | ->] by set_solver; lia.
Qed.

(** Page 0, resident on the CPU, is read by GPU 1: serviced read-only. *)
Lemma demo_read_only page : page_prot svc tracked_block 1 (context 0 1 stale) page = UVM_PROT_READ_ONLY.
Proof. reflexivity. Qed.

Lemma stale_masks_report_dirty_witness :
  let '(st, b', _) := fst (@uvm_va_block_service_finish healthy_env svc 1 tracked_block
                             (context 0 1 stale) kst_init) in
  st = NV_ERR_NO_MEMORY \/ vb_dirty b' = true.
Proof.
  apply (@stale_masks_report_dirty healthy_env);
    [apply perm_wf_set_migration, demo_perm_wf|apply demo_processors|reflexivity|lia|discriminate
    |cbn; lia|apply demo_read_only|vm_compute; discriminate].
Defined.

(** *** The life of a block: created, populated, written by a fault, prepared *)

Module DemoLife.
Definition empty_range : va_range :=
mk_va_range 2097152 4194303 UVM_VA_RANGE_TYPE_MANAGED [None].
Definition created : va_block := fresh_block 2097152 4194303.
(** Two pages migrated to GPU 1 and mapped read-only. *)
Definition populated : va_block :=
mk_va_block 2097152 4194303 ∅ (fun _ => []) ∅ ∅
  {[1 := mk_gpu_state {[0; 1]} phys {[0; 1]} ∅ ∅]} {[1]} {[1]} {[0; 1]} false false.
Definition written : va_block :=
snd (fst (fst (@uvm_va_block_service_finish healthy_env svc 1 populated
                 (context 1 2 empty) kst_init))).
Definition prepared_block : va_block :=
snd (fst (@prepare_block healthy_env (fun _ => cfg) written kst_init)).
End DemoLife.

Import DemoLife.

Lemma demo_populated_wf : perm_wf populated.
Proof.
  constructor; cbn.
  - intros g gs [_ <-]%lookup_singleton_Some. constructor; set_solver.
  - intros g gs [<- <-]%lookup_singleton_Some _ Hn. set_solver.
  - done.
  - done.
  - intros g _ Hg. apply elem_of_singleton in Hg as ->. rewrite lookup_singleton_eq. eauto.
Qed.

Lemma demo_written_wf : block_wf written.
Proof.
  pose proof (@service_finish_spec healthy_env svc 1 populated (context 1 2 empty) kst_init
    demo_populated_wf ltac:(lia) demo_processors) as H.
  unfold wp in H. unfold written.
  destruct (uvm_va_block_service_finish _ _ _ _ _) as [[[st b'] c'] s'] eqn:Hrun. cbn in H |- *.
  assert (vb_resident b' = {[1]}) as Hres.
  { transitivity (vb_resident written); [|vm_compute; reflexivity].
    unfold written. by rewrite Hrun. }
  split; [|intros id; rewrite Hres; set_solver by lia].
  destruct H as [(_ & -> & _)|(_ & b1 & [Hs _] & ->)]; [apply demo_populated_wf|].
  apply (sd_wf _ _ _ _ Hs), demo_populated_wf.
Qed.

Lemma demo_written_local page : ~ unrevoked written 1 page.
Proof.
  intros [Hp Hn]. apply Hn.
  assert (prot_pages written 1 UVM_PROT_READ_WRITE = {[0]}) as Hw by (vm_compute; reflexivity).
  rewrite Hw in Hp. apply elem_of_singleton in Hp as ->.
  split; [|split; [|exists 1; split]].
  1, 3, 4: eapply bool_decide_eq_true_1; vm_compute; reflexivity.
  change (full_mask written) with (full_mask tracked_block). apply demo_region_in_block.
  apply elem_of_region_mask. cbn. lia.
Qed.

Lemma triple_eta {A B C D} (x : A * B * C * D) :
  x = (fst (fst (fst x)), snd (fst (fst x)), snd (fst x), snd x).
Proof. by destruct x as [[[? ?] ?] ?]. Qed.
Lemma pair_eta {A B D} (x : A * B * D) : x = (fst (fst x), snd (fst x), snd x).
Proof. by destruct x as [[? ?] ?]. Qed.

Lemma demo_reachable : reachable_block prepared_block (unrevoked written).
Proof.
  assert (reachable_block written (fun g page => False \/ mapped_unrecorded svc 1 populated (context 1 2 empty) g page))
    as Hr.
  { apply (Event populated (fun _ _ => False)).
    - apply (Event created (fun _ _ => False)).
      + refine (Created healthy_env space empty_range 0 kst_init created _ _ _ _);
          [reflexivity|]. cbn. reflexivity.
      + apply Other; [reflexivity|reflexivity|]. intros g _ page Hp. exfalso. revert Hp.
        unfold prot_pages, gpu_state_of. cbn. destruct (Z.eqb_spec g UVM_ID_CPU) as [->|Hg].
        * vm_compute. set_solver.
        * destruct (decide (g = 1)) as [->|Hg1]; [vm_compute; set_solver|].
          rewrite lookup_singleton_ne by congruence. set_solver.
    - eapply (Fault _ _ healthy_env svc 1 (context 1 2 empty) kst_init);
        [apply demo_populated_wf|lia|apply demo_processors|].
      apply triple_eta. }
  eapply (Event _ _ _ _ Hr).
  assert (fst (fst (@prepare_block healthy_env (fun _ => cfg) written kst_init)) = None) as Hn
    by (vm_compute; reflexivity).
  pose proof (Prepare written (fun g page => False \/ mapped_unrecorded svc 1 populated (context 1 2 empty) g page)
    healthy_env (fun _ => cfg) kst_init _ _ _ demo_written_wf (pair_eta _)) as He.
  rewrite Hn in He. exact He.
Qed.

Lemma tracking_sound_witness :
  prot_pages written 1 UVM_PROT_READ_WRITE = {[0]} /\
  forall page, page ∉ prot_pages prepared_block 1 UVM_PROT_READ_WRITE.
Proof.
  split; [vm_compute; reflexivity|]. intros page Hp.
  apply (demo_written_local page), (tracking_sound prepared_block _ demo_reachable);
    [vm_compute; reflexivity|vm_compute; reflexivity|lia|exact Hp].
Defined.

(** *** What PREPARE_ALL and CPU faults leave unreported *)

Module DemoExposed.
(** The page is on GPU 1; GPU 2 writes it over the link and has no page of its own. *)
Definition remote_writer : gpu_state := mk_gpu_state ∅ phys {[0]} {[0]} ∅.
Definition shared : va_block :=
mk_va_block 2097152 4194303 ∅ (fun _ => []) ∅ ∅
  {[1 := mk_gpu_state {[0]} phys {[0]} {[0]} ∅; 2 := remote_writer]} {[1]} {[1; 2]} {[0]} false false.
(** SetAccessedBy names GPU 1, which has system-wide atomics. *)
Definition accessed_svc : service_cfg :=
mk_service_cfg cfg access_prot 4 false true true true UVM_READ_DUPLICATION_DISABLED ∅
  (fun _ => ∅) {[0; 1]} {[0; 1]} false {[1]} (fun _ => {[0; 1]}) (fun _ => false) ∅ (fun _ => ∅) false None.
(** A tracked block with its page on the CPU, not mapped anywhere. *)
Definition on_cpu : va_block :=
mk_va_block 2097152 4194303 {[0]} (fun _ => []) ∅ ∅ {[1 := mk_gpu_state ∅ phys ∅ ∅ ∅]} {[0]} ∅ {[0]} false true.
End DemoExposed.
Import DemoExposed.

(** PREPARE_ALL reports success, the block is tracked and clean, and GPU 2 may
    still write its page. *)
Lemma prepare_skips_remote_writer :
  let '((ex, b), _) := @prepare_block healthy_env (fun _ => cfg) shared kst_init in
  ex = None /\ vb_tracking b = true /\ vb_dirty b = false /\
  prot_pages b 1 UVM_PROT_READ_WRITE = ∅ /\ prot_pages b 2 UVM_PROT_READ_WRITE = {[0]}.
Proof. vm_compute. repeat split. Qed.

(** A CPU write fault maps GPU 1 read-write: no flag is set. *)
Lemma cpu_fault_maps_writer :
  let '(st, b, _) := fst (@uvm_va_block_service_finish healthy_env accessed_svc 0 on_cpu (context 0 2 empty) kst_init) in
  st = NV_OK /\ vb_tracking b = true /\ vb_dirty b = false /\ prot_pages b 1 UVM_PROT_READ_WRITE = {[0]}.
Proof. vm_compute. repeat split. Qed.

(** GPU 1 faults, is revoked write access and faults again. *)
Lemma permissions_well_typed_witness :
  let b' := fst (@perform_all healthy_env
    [CallServiceFinish svc 1 (context 1 2 empty); CallRevoke cfg 1 (mk_region 0 2) None UVM_PROT_READ_WRITE;
     CallUnmapCpu (mk_region 0 2) None; CallMap cfg 1 (mk_region 1 2) None UVM_PROT_READ_WRITE] populated kst_init) in
  prot_pages b' 1 UVM_PROT_READ_WRITE = {[1]} /\ is_Some (vb_gpus b' !! 1) /\ prot_pages b' 2 UVM_PROT_READ_ONLY = ∅.
Proof.
  match goal with |- let b' := fst (perform_all ?l ?b ?s) in _ =>
    assert (Hl : Forall call_ok l) by (repeat constructor; try done; apply demo_processors);
    destruct (@permissions_well_typed healthy_env b l s demo_populated_wf Hl) as (_ & H1 & H2) end.
  split; [vm_compute; reflexivity|]. split; [apply H2; [lia|vm_compute; reflexivity]|].
  apply H1; [lia|vm_compute; congruence].
Defined.
