(* ===== verification/CcWitnesses.v ===== *)
(** Concrete instances of the theorems on confidential computing and on the
    checkpoint reads.  The instance of the cryptographic library is a toy: a
    fixed IV per message, encryption by a byte-wise exclusive or, and a constant
    tag; video memory holds a periodic pattern. *)
From stdpp Require Import sorting.
From S2P Require Import Prelude Kernel VaBlock ConfComputing Runs Pass1 Jobs Slots Threads Transfer Layout Meta.

Module ToyCc.
Definition mask (key v : Z) (iv : UvmCslIv) : Z := (key + v + foldr Z.add 0 (fst iv)) mod 256.
Definition cipher (key v : Z) (iv : UvmCslIv) (p : list Z) : list Z := Z.lxor (mask key v iv) <$> p.
Definition tag (key v : Z) (iv : UvmCslIv) : list Z := replicate 16 (mask key v iv).
Definition iv_of (chan epoch n : Z) : UvmCslIv := (le_bytes 4 chan ++ le_bytes 4 epoch ++ le_bytes 4 n, 0).

Lemma cipher_cipher key v iv p : cipher key v iv (cipher key v iv p) = p.
Proof.
  unfold cipher. rewrite <- list_fmap_compose. rewrite <- (list_fmap_id p) at 2.
  apply list_fmap_ext. intros _ x _. cbn. by rewrite <- Z.lxor_assoc, Z.lxor_nilpotent, Z.lxor_0_l.
Qed.

(** A GPU with a key of its own. *)
#[refine] Instance keyed_cc (key : Z) : CcGpu := {|
  csl_remaining n := NV_U32_MAX - n;
  csl_iv := iv_of;
  csl_encrypt v iv p := (cipher key v iv p, tag key v iv);
  csl_decrypt v iv c t := if decide (t = tag key v iv) then Some (cipher key v iv c) else None;
  vidmem _ a := a mod 251;
|}.
Proof.
  - apply Z.sub_0_r.
  - intros. lia.
  - intros. cbn [fst snd]. rewrite decide_True by done. by rewrite cipher_cipher.
  - cbn. intros v iv c t p. destruct (decide _); intros [= <-]. apply length_fmap.
  - intros. cbn. apply length_fmap.
  - intros. done.
  - intros. cbn. by rewrite ?length_app, ?length_le_bytes.
  - intros. cbn. lia.
Defined.
Definition toy_cc : CcGpu := keyed_cc 0.
End ToyCc.

Import ToyCc.

(** ** The pool and the counters *)

(** The state [uvm_conf_computing_gpu_init] leaves. *)
Definition cc_start : kst := snd (@uvm_conf_computing_gpu_init healthy_env kst_init).

(** One buffer handed out: the last of the 32 created. *)
Definition cc_taken : kst := snd (@uvm_conf_computing_dma_buffer_alloc healthy_env cc_start).

(** Equality of computed results, decided by evaluation. *)
Ltac run := apply injective_projections; vm_compute; reflexivity.

Lemma dma_pool_reachable_witness : k_num (snd (@conf_computing_dma_buffer_pool_init healthy_env kst_init)) = 32.
Proof.
  destruct (@conf_computing_dma_buffer_pool_init healthy_env kst_init) as [st s] eqn:H.
  assert (st = NV_OK) as -> by (transitivity (fst (@conf_computing_dma_buffer_pool_init healthy_env kst_init));
    [by rewrite H|vm_compute; reflexivity]).
  destruct (@dma_pool_reachable healthy_env [] s) as (_ & _ & Hn & _).
  { refine (@reach_init healthy_env kst_init s _ H). by split. }
  transitivity (Z.of_nat (length (k_free (snd (@conf_computing_dma_buffer_pool_init healthy_env kst_init)))));
    [rewrite H; cbn in *; lia|vm_compute; reflexivity].
Defined.

Lemma pool_init_outcome_witness :
  let '(st, s') := @conf_computing_dma_buffer_pool_init healthy_env kst_init in
  if is_ok st then pool_inv [] s' /\ length (k_free s') = 32%nat
  else pool_empty s' /\ 0 < k_num s' <= 32.
Proof. apply (@pool_init_outcome healthy_env). by split. Defined.

Lemma demo_init_status : fst (@uvm_conf_computing_gpu_init healthy_env kst_init) = NV_OK.
Proof. vm_compute. reflexivity. Qed.
Lemma demo_begin_status :
  fst (fst (@uvm_push_begin healthy_env toy_cc (snd (@uvm_conf_computing_gpu_init healthy_env kst_init)))) = NV_OK.
Proof. vm_compute. reflexivity. Qed.

(** Three messages of the first push. *)
Lemma push_never_exhausts_ivs_witness :
  let '(st, chan, s') := @uvm_push_begin healthy_env toy_cc cc_start in
  st = NV_OK /\ Forall is_Some (fst (@log_n healthy_env toy_cc 3 chan 4096 s')).
Proof.
  pose proof (@push_never_exhausts_ivs healthy_env toy_cc kst_init 3 4096 eq_refl
    ltac:(apply Nat2Z.inj_le; vm_compute; discriminate)) as H.
  pose proof demo_init_status as H0. pose proof demo_begin_status as H1. unfold cc_start.
  destruct (@uvm_conf_computing_gpu_init healthy_env kst_init) as [st0 s]. cbn [fst snd] in *.
  specialize (H H0). destruct (uvm_push_begin s) as [[st chan] s']. cbn [fst snd] in H1.
  split; [exact H1|exact (H H1)].
Defined.

Lemma gpu_init_pool `{E : Env} s :
  env_cc = true -> pool_empty s ->
  wp uvm_conf_computing_gpu_init (fun st s' => st = NV_OK -> pool_inv [] s') s.
Proof.
  intros Hcc He. unfold uvm_conf_computing_gpu_init. rewrite Hcc. cbn [negb]. wdet.
  eapply wp_mono; [by apply pool_init_correct|]. intros st s1 Hp.
  apply wp_if; intros Hst; bprop; [by wdet|]. rewrite Hst, is_ok_NV_OK in Hp. wdet.
  apply wp_ext_status. intros st2 t2. apply wp_if; intros H2; bprop.
  - apply wp_bind. apply wp_any. intros u s2. unfold wp. cbn. done.
  - wdet. intros _. destruct Hp as [Hp _]. by apply (pool_inv_perm [] s1).
Qed.

Lemma cc_start_pool : pool_inv [] cc_start.
Proof.
  apply (gpu_init_pool (E := healthy_env) kst_init eq_refl (conj eq_refl eq_refl)). vm_compute. reflexivity.
Qed.

Lemma cc_start_limit : limit_ok cc_start.
Proof. split; [vm_compute; congruence|vm_compute; split; congruence]. Qed.

Lemma cc_start_locks : k_locks cc_start = [] /\ k_lock_bug cc_start = false.
Proof. by vm_compute. Qed.

(** ** Copies *)

Definition vid0 : phys_address := mk_phys 65536 UVM_APERTURE_VID.

Lemma memcopy_gpu_to_cpu_correct_witness :
  let r := fst (@uvm_conf_computing_util_memcopy_gpu_to_cpu healthy_env toy_cc vid0 8 cc_start) in
  r = (NV_OK, [65536 mod 251; 65537 mod 251; 65538 mod 251; 65539 mod 251;
               65540 mod 251; 65541 mod 251; 65542 mod 251; 65543 mod 251]).
Proof.
  destruct (@memcopy_gpu_to_cpu_correct healthy_env toy_cc vid0 8 [] cc_start) as (_ & _ & Hg & Hh);
    [reflexivity|apply cc_start_limit|by vm_compute|apply cc_start_pool|].
  destruct (uvm_conf_computing_util_memcopy_gpu_to_cpu _ _ _) as [[st bs] s']. cbn [fst snd] in *. specialize (Hh _). subst st. by rewrite (Hg eq_refl).
Defined.

Lemma memcopy_gpu_to_cpu_encrypted_correct_witness :
  exists cipher tag iv v,
    fst (@uvm_conf_computing_util_memcopy_gpu_to_cpu_encrypted healthy_env toy_cc vid0 8 cc_start)
      = (NV_OK, Some (cipher, tag, iv, v)) /\
    @csl_decrypt toy_cc v iv cipher tag = Some (@vid_read toy_cc vid0 8).
Proof.
  destruct (@memcopy_gpu_to_cpu_encrypted_correct healthy_env toy_cc vid0 8 [] cc_start)
    as (_ & _ & Hg & Hh); [reflexivity|apply cc_start_limit|by vm_compute|apply cc_start_pool|].
  destruct (uvm_conf_computing_util_memcopy_gpu_to_cpu_encrypted _ _ _) as [[st r] s']. cbn [fst snd] in *. specialize (Hh _). subst st.
  destruct (Hg eq_refl) as (cipher & tag & iv & v & -> & Hd & _). by exists cipher, tag, iv, v.
Defined.

(** ** Runs and transfers *)

(** Three pages, the first two adjacent in video memory. *)
Definition demo_phys : list phys_address :=
  [vid0; mk_phys 69632 UVM_APERTURE_VID; mk_phys 131072 UVM_APERTURE_VID].
Definition demo_runs : list run := coalesce UVM_CONF_COMPUTING_DMA_BUFFER_SIZE (dense demo_phys).

Lemma build_runs_correct_witness :
  let '(st, runs, rc, s') := @lm_mt_build_runs healthy_env (dense demo_phys) 2097152 kst_init in
  st = NV_OK /\ runs = [mk_run 0 8192; mk_run 2 4096] /\
  Forall (run_maximal 2097152 (dense demo_phys)) runs.
Proof.
  pose proof (@build_runs_correct healthy_env (dense demo_phys) 2097152 kst_init ltac:(unfold PAGE_SIZE; lia)) as H.
  destruct (lm_mt_build_runs _ _ _) as [[[st runs] rc] s'] eqn:Hr. destruct H as (_ & H1 & H2).
  specialize (H2 _ ltac:(cbn; lia)). destruct (H1 H2) as (_ & _ & Hm & _).
  split; [exact H2|]. split; [|exact Hm].
  transitivity (snd (fst (fst (@lm_mt_build_runs healthy_env (dense demo_phys) 2097152 kst_init))));
    [by rewrite Hr|vm_compute; reflexivity].
Defined.

Lemma demo_phys_ok : Forall phys_ok demo_phys.
Proof. repeat constructor; vm_compute; congruence. Qed.

Lemma demo_transfer_args : transfer_args demo_phys 65536 UVM_CONF_COMPUTING_DMA_BUFFER_SIZE demo_runs.
Proof.
  destruct (coalesce_spec UVM_CONF_COMPUTING_DMA_BUFFER_SIZE (dense demo_phys)) as (Ht & Hw & _);
    [by vm_compute|].
  constructor; [apply demo_phys_ok|vm_compute; split; congruence|done|exact Ht|exact Hw].
Qed.

(** Two threads on two runs, in an arbitrary interleaving; thread 1 starts. *)
Definition demo_sched : list nat := [1; 1; 0; 1; 0; 0; 1; 0; 1; 0]%nat.

Lemma run_workers_correct_witness :
  let '(st, nt, s') := @lm_mt_run_workers healthy_env toy_cc (dense demo_phys) true 65536 demo_sched
                         demo_runs 2 cc_start in
  st = NV_OK /\ nt = 2 /\ k_locks s' = [] /\
  @transferred toy_cc demo_phys 65536 true 2 s'.
Proof.
  pose proof (@run_workers_correct healthy_env toy_cc demo_phys 65536 UVM_CONF_COMPUTING_DMA_BUFFER_SIZE
    demo_sched true demo_runs 2 [] cc_start eq_refl ltac:(lia) demo_transfer_args cc_start_pool
    cc_start_limit (proj1 cc_start_locks) (proj2 cc_start_locks)) as H.
  destruct (lm_mt_run_workers _ _ _ _ _ _ _) as [[st nt] s'].
  destruct H as (Hok & _ & Hlk & _ & _ & _ & Ht). specialize (Hok _). destruct (Ht Hok) as [Hn Ht'].
  split; [exact Hok|]. split; [rewrite Hn; vm_compute; reflexivity|]. split; [exact Hlk|exact Ht'].
Defined.

(** Twenty turns for each of two workers, in two long stretches. *)
Definition fair_sched : list nat := replicate 20 1%nat ++ replicate 20 0%nat.
Definition demo_slices : list (list job) := make_slices 2 0 1 0 0 demo_runs.

Lemma workers_finish_witness :
  let '(ws, s1) := spawn (E := healthy_env) (@lm_mt_worker_fn healthy_env toy_cc (dense demo_phys) true 65536) demo_slices cc_start in
  let '(ws', s2) := sys_run (@lm_mt_worker_fn healthy_env toy_cc (dense demo_phys) true 65536) fair_sched ws s1 in
  length ws' = 2%nat /\ Forall (fun w => w_at w = WExit) ws'.
Proof.
  pose proof (@workers_finish healthy_env toy_cc (dense demo_phys) true 65536 fair_sched demo_slices cc_start) as H.
  destruct (spawn _ _ _) as [ws s1]. destruct (sys_run _ _ _ _) as [ws' s2].
  destruct H as (Hl & Hm & _); [|split; [exact Hl|exact Hm]].
  intros [|[|i]] sl Hi; [injection Hi as <-; vm_compute; lia..|done].
Defined.

Lemma cc_two_buffers :
  exists b0 b1 s, pool_inv [b1; b0] s /\ limit_ok s.
Proof.
  destruct (dma_buffer_alloc_ok (E := healthy_env) [] cc_start cc_start_pool) as (b0 & _ & Hp0 & Hf0).
  destruct (dma_buffer_alloc_ok (E := healthy_env) [b0] _ Hp0) as (b1 & _ & Hp1 & Hf1).
  eexists b0, b1, _. split; [exact Hp1|].
  eapply limit_ok_step; [apply (pool_frame_cc_frame _ _ _ Hf1)|].
  eapply limit_ok_step; [apply (pool_frame_cc_frame _ _ _ Hf0)|apply cc_start_limit].
Qed.

Lemma pingpong_correct_witness :
  exists b0 b1 s,
    let '(st, nt, s') := @pingpong healthy_env toy_cc (dense demo_phys) false 65536 (b0, b1)
                           (make_jobs 0 demo_runs) s in
    st = NV_OK /\ mem_holds (k_user s') 65536 (@vid_pages toy_cc demo_phys).
Proof.
  destruct cc_two_buffers as (b0 & b1 & s & Hp & Hl). exists b0, b1, s.
  pose proof (@pingpong_correct healthy_env toy_cc demo_phys 65536 UVM_CONF_COMPUTING_DMA_BUFFER_SIZE
    false demo_runs b0 b1 [] s eq_refl demo_transfer_args Hp Hl) as H.
  destruct (pingpong _ _ _ _ _ _) as [[st nt] s']. destruct H as (Hok & _ & _ & Ht). specialize (Hok _).
  destruct (Ht Hok) as [_ Hm]. split; [exact Hok|]. apply Hm. discriminate.
Defined.

(** ** Metadata *)

Definition demo_meta : crypto_meta :=
  mk_crypto_meta 8192 [0; 1; 2; 3; 4; 5; 6; 7; 8; 9; 10; 11] 0 (replicate 16 7) 3.

Lemma crypto_meta_roundtrip_witness : decode_metas 2 (encode_metas [demo_meta; demo_meta] ++ [1; 2]) = [demo_meta; demo_meta].
Proof.
  assert (meta_ok demo_meta) as Hm.
  { split; [vm_compute; split; congruence|by split|vm_compute; split; congruence|reflexivity]. }
  refine (proj2 (crypto_meta_roundtrip [demo_meta; demo_meta] [1; 2] _)).
  by apply Forall_cons; split; [|apply Forall_singleton].
Defined.
