(* ===== verification/ReadWitnesses.v ===== *)
(** Concrete instances of the theorems on the checkpoint reads and the
    decryption service: one VA space whose only block holds a page on the CPU,
    two adjacent pages on GPU 1, and one page nowhere. *)
From stdpp Require Import sorting.
From S2P Require Import Prelude Kernel VaBlock ConfComputing Runs Pass1 Jobs Slots Threads Transfer Layout Meta ReadIoctls ReadSpec MtIoctls Bench DecryptIoctl RoundTrip CcWitnesses.

Import ToyCc.

Module ReadDemo.
Definition phys (p : Z) : phys_address := mk_phys (65536 + p * 4096) UVM_APERTURE_VID.
Definition gpu1 : gpu_state := mk_gpu_state {[0; 1]} phys {[0; 1]} {[0; 1]} {[0; 1]}.
Definition cpu_page : list Z := replicate 4096 9.
Definition block : va_block :=
  mk_va_block 2097152 4194303 {[2]} (fun _ => cpu_page) ∅ ∅ {[1 := gpu1]} {[0; 1]} {[1]} {[0; 1]} true true.
Definition range : va_range := mk_va_range 2097152 4194303 UVM_VA_RANGE_TYPE_MANAGED [Some block].
Definition space : va_space := mk_va_space 7 [range] true [1] (fun _ => None).
(** Four pages from the start of the block. *)
Definition params : read_params :=
  mk_read_params 2097152 16384 1048576 2097152 4096 8192 1000 2 (replicate 16 0).
Definition visits : list visit := space_visits false 2097152 (2097152 + 4 * PAGE_SIZE - 1) space.
End ReadDemo.

Import ReadDemo.

Lemma demo_visits_block x d : x ∈ space_visits d 2097152 (2097152 + 4 * PAGE_SIZE - 1) space -> fst x = block.
Proof.
  intros Hx. apply list_elem_of_join in Hx as (l & Hx & Hl). apply list_elem_of_fmap in Hl as (r & -> & Hr).
  assert (r = range) as -> by (apply list_elem_of_filter in Hr as [_ Hr]; by apply list_elem_of_singleton in Hr).
  apply list_elem_of_join in Hx as (l & Hx & Hl). apply list_elem_of_fmap in Hl as (vb & -> & Hvb).
  apply list_elem_of_singleton in Hvb as ->. unfold block_visits in Hx.
  destruct (_ && _); [by apply not_elem_of_nil in Hx|]. by apply list_elem_of_fmap in Hx as (pv & -> & _).
Qed.

Lemma demo_va_space_wf : va_space_wf space.
Proof.
  split.
  - repeat constructor.
  - intros r Hr _. apply list_elem_of_singleton in Hr as ->. split; [by split|vm_compute; reflexivity|].
    intros [|i] b Hb; [|by rewrite lookup_nil in Hb || done]. injection Hb as <-. split; vm_compute; reflexivity.
Qed.

Lemma demo_walk d : walk_args space (Some 1) d 2097152 4 1048576.
Proof.
  split; [apply demo_va_space_wf|split; [lia|reflexivity]|unfold PAGE_SIZE; lia|unfold PAGE_SIZE; lia|].
  apply Forall_forall. intros x Hx bs Hc. rewrite (demo_visits_block x d Hx) in Hc. unfold classify in Hc.
  destruct (bool_decide (_ ∈ vb_cpu_resident block)); [injection Hc as <-; reflexivity|].
  destruct (uvm_va_block_gpu_state_get block 1) as [gs|]; [|done]. by destruct (bool_decide _).
Qed.

Lemma demo_gpu_phys d :
  gpu_phys (Some 1) (space_visits d 2097152 (2097152 + 4 * PAGE_SIZE - 1) space) = [phys 0; phys 1].
Proof. destruct d; vm_compute; reflexivity. Qed.

Ltac apart_lia := intros a; unfold area; cbn; unfold PAGE_SIZE; lia.

Lemma demo_read_call enc d :
  read_call enc d params [space] (Some 1) (space_visits d 2097152 (2097152 + 4 * PAGE_SIZE - 1) space).
Proof.
  split; [vm_compute; reflexivity|]. exists space. split; [vm_compute; reflexivity|].
  split; [vm_compute; reflexivity|]. split; [reflexivity|]. constructor.
  - apply demo_walk.
  - change (n_pages params) with 4. cbn [rp_base params]. rewrite demo_gpu_phys. repeat constructor; vm_compute; congruence.
  - cbn. unfold PAGE_SIZE. change (n_pages params) with 4. lia.
  - cbn. change (n_pages params) with 4. lia.
  - change (n_pages params) with 4. apart_lia.
  - change (n_pages params) with 4. apart_lia.
  - change (n_pages params) with 4. apart_lia.
  - intros _. change (n_pages params) with 4. unfold SIZEOF_CRYPTO_META.
    split; [cbn; lia|]. split; [cbn; lia|]. split; [apart_lia|]. split; apart_lia.
Qed.

Lemma cc_start_ok : cc_ok (E := healthy_env) [] cc_start.
Proof. intros _. split; [apply cc_start_pool|apply cc_start_limit]. Qed.

Lemma demo_room enc : meta_room enc params.
Proof. intros _. right. vm_compute. congruence. Qed.

(** ** Pass 1 *)

Lemma pass1_correct_witness :
  let '(st, l, g, s') := @pass1 healthy_env false false 2097152 (4 * PAGE_SIZE) 1048576 (replicate 16 0)
                           [space] (pass1_start 4) kst_init in
  st = NV_OK /\ p1_cpu_off l = 4096 /\ p1_pages l = gpu_pages (Some 1) visits /\
  mem_holds (k_user s') 1048576 cpu_page.
Proof.
  pose proof (@pass1_correct healthy_env false false 2097152 4 1048576 (replicate 16 0) [space] space
    kst_init eq_refl (demo_walk false)) as H.
  destruct (pass1 _ _ _ _ _ _ _ _ _) as [[[st l] g] s'].
  destruct H as (_ & Hh & _ & _ & _ & H). specialize (Hh _). destruct (H Hh) as (_ & _ & _ & Hp & Hc & _ & _ & Hm & _).
  split; [exact Hh|]. split; [rewrite Hc; vm_compute; reflexivity|]. split; [exact Hp|].
  replace cpu_page with (mjoin (cpu_pages (Some 1) visits)) by (vm_compute; reflexivity).
  apply Hm. discriminate.
Defined.

(** ** The reads *)

Lemma read_pages_resident_correct_witness :
  let '(st, outs, s') := @uvm_api_live_migration_read_pages_resident healthy_env toy_cc params [space] cc_start in
  st = NV_OK /\ ro_gpu_bytes outs = Some 8192 /\
  mem_holds (k_user s') 4096 (resmap_of (Some 1) 2097152 (replicate 4 RESMAP_ABSENT) visits) /\
  mem_holds (k_user s') 2097152 (@vid_pages toy_cc [phys 0; phys 1]).
Proof.
  pose proof (@read_pages_resident_correct healthy_env toy_cc params [space] (Some 1) visits [] cc_start
    eq_refl (demo_read_call false false) cc_start_ok (proj1 cc_start_locks) (proj2 cc_start_locks)) as H.
  destruct (uvm_api_live_migration_read_pages_resident _ _ _) as [[st outs] s'].
  destruct H as (_ & _ & _ & _ & _ & Hh & H). specialize (Hh _). destruct (H Hh) as (nr & (Hm & _ & Hg) & ->).
  split; [exact Hh|]. split; [vm_compute; reflexivity|]. split; [exact Hm|].
  rewrite <- (demo_gpu_phys false). apply Hg. discriminate.
Defined.

(** What a good encrypted read says of its OUT fields. *)
Lemma encrypted_read_ok_outs h ready p spaces gpu D out s :
  @encrypted_read_ok healthy_env toy_cc h ready p spaces gpu D out s -> meta_room true p -> ready ->
  let '(st, outs, s') := h p spaces s in st = NV_OK /\ exists nr, outs = encrypted_outs p gpu D nr.
Proof.
  unfold encrypted_read_ok. destruct (h p spaces s) as [[st outs] s'].
  intros (_ & _ & _ & _ & _ & Hh & Hok) Hm Hr. specialize (Hh _ Hm Hr). split; [done|].
  destruct (Hok Hh) as (nr & _ & _ & ->). eauto.
Qed.

Lemma read_pages_resident_encrypted_correct_witness :
  let '(st, outs, s') := @uvm_api_live_migration_read_pages_resident_encrypted healthy_env toy_cc params [space] cc_start in
  st = NV_OK /\ exists nr, outs = encrypted_outs params (Some 1) visits nr.
Proof.
  exact (encrypted_read_ok_outs _ _ _ _ _ _ _ _
    (@read_pages_resident_encrypted_correct healthy_env toy_cc params [space] (Some 1) visits [] cc_start
      eq_refl (demo_read_call true false) cc_start_ok (proj1 cc_start_locks) (proj2 cc_start_locks))
    (demo_room true) I).
Defined.

Lemma read_pages_resident_encrypted_v2_correct_witness :
  let '(st, outs, s') := @uvm_api_live_migration_read_pages_resident_encrypted_v2 healthy_env toy_cc params [space] cc_start in
  st = NV_OK /\ exists nr, outs = encrypted_outs params (Some 1) visits nr.
Proof.
  exact (encrypted_read_ok_outs _ _ _ _ _ _ _ _
    (@read_pages_resident_encrypted_v2_correct healthy_env toy_cc params [space] (Some 1) visits [] cc_start
      eq_refl (demo_read_call true false) cc_start_ok (proj1 cc_start_locks) (proj2 cc_start_locks))
    (demo_room true) I).
Defined.

Definition demo_sched : list nat := [0; 0; 0; 0; 0; 0; 0]%nat.

Lemma read_pages_resident_mt_correct_witness :
  let '(st, outs, s') := @uvm_api_live_migration_read_pages_resident_mt healthy_env toy_cc demo_sched params [space] cc_start in
  st = NV_OK /\ ro_cpu_bytes outs = Some 4096 /\
  mem_holds (k_user s') 2097152 (@vid_pages toy_cc [phys 0; phys 1]).
Proof.
  pose proof (@read_pages_resident_mt_correct healthy_env toy_cc demo_sched params [space] (Some 1) visits [] cc_start
    eq_refl ltac:(cbn; lia) (demo_read_call false false) cc_start_ok (proj1 cc_start_locks) (proj2 cc_start_locks)) as H.
  destruct (uvm_api_live_migration_read_pages_resident_mt _ _ _ _) as [[st outs] s'].
  destruct H as (_ & _ & _ & _ & _ & Hh & H). specialize (Hh _ (fun _ => mk_is_Some _ _ eq_refl)).
  destruct (H Hh) as (nr & (_ & _ & Hg) & ->).
  split; [exact Hh|]. split; [vm_compute; reflexivity|]. rewrite <- (demo_gpu_phys false). apply Hg. discriminate.
Defined.

Lemma read_pages_resident_encrypted_mt_correct_witness :
  let '(st, outs, s') := @uvm_api_live_migration_read_pages_resident_encrypted_mt healthy_env toy_cc demo_sched params [space] cc_start in
  st = NV_OK /\ exists nr, outs = encrypted_outs params (Some 1) visits nr.
Proof.
  exact (encrypted_read_ok_outs _ _ _ _ _ _ _ _
    (@read_pages_resident_encrypted_mt_correct healthy_env toy_cc demo_sched params [space] (Some 1) visits [] cc_start
      eq_refl eq_refl ltac:(cbn; lia) (demo_read_call true false) cc_start_ok (proj1 cc_start_locks) (proj2 cc_start_locks))
    (demo_room true) (mk_is_Some _ _ eq_refl)).
Defined.

Lemma read_dirty_delta_correct_witness :
  let D := space_visits true 2097152 (2097152 + 4 * PAGE_SIZE - 1) space in
  let '(st, outs, s') := @uvm_api_live_migration_read_dirty_delta_encrypted_mt healthy_env toy_cc demo_sched params [space] cc_start in
  st = NV_OK /\ (exists nr, outs = encrypted_outs params (Some 1) D nr) /\ length D = 4%nat.
Proof.
  intros D.
  destruct (@read_dirty_delta_correct healthy_env toy_cc demo_sched params [space] (Some 1) D [] cc_start
      eq_refl eq_refl ltac:(cbn; lia) (demo_read_call true true) cc_start_ok (proj1 cc_start_locks) (proj2 cc_start_locks))
    as [H _].
  pose proof (encrypted_read_ok_outs _ _ _ _ _ _ _ _ H (demo_room true) (mk_is_Some _ _ eq_refl)) as H'.
  destruct (uvm_api_live_migration_read_dirty_delta_encrypted_mt _ _ _ _) as [[st outs] s'].
  destruct H' as [H1 H2]. split; [exact H1|]. split; [exact H2|vm_compute; reflexivity].
Defined.

Lemma reads_reject_bad_calls_witness :
  let p := mk_read_params 2097152 100 0 0 4096 0 0 0 [] in
  @uvm_api_live_migration_read_pages_resident_encrypted healthy_env toy_cc p [space] cc_start
    = ((NV_ERR_INVALID_ARGUMENT, no_outs), cc_start).
Proof.
  intros p. refine (proj1 (proj2 (@reads_reject_bad_calls healthy_env toy_cc demo_sched _ p [space] cc_start _)) eq_refl eq_refl).
  unfold read_handlers. right; left.
Defined.

(** Reads with decryption to the user, with copies to the user, on one thread. *)
Lemma bench_decompose_correct_witness :
  let '(st, o, s') := @uvm_api_live_migration_bench_decompose healthy_env toy_cc demo_sched
                        UVM_LIVE_MIGRATION_BENCH_DECRYPT params [space] cc_start in
  st = NV_OK /\ k_locks s' = [] /\ exists nr, bo_num_transfers o = Some nr.
Proof.
  pose proof (@bench_decompose_correct healthy_env toy_cc demo_sched UVM_LIVE_MIGRATION_BENCH_DECRYPT params [space]
    (Some 1) visits [] cc_start eq_refl eq_refl ltac:(cbn; lia) (demo_read_call false false) cc_start_ok
    (proj1 cc_start_locks) (proj2 cc_start_locks)) as H.
  destruct (uvm_api_live_migration_bench_decompose _ _ _ _ _) as [[st o] s'].
  destruct H as (Hlk & _ & _ & _ & _ & Hh & H). specialize (Hh _ (mk_is_Some _ _ eq_refl)).
  destruct (H Hh) as (nr & _ & -> & _). split; [exact Hh|]. split; [exact Hlk|eauto].
Defined.

(** ** Decryption *)

Lemma cc_ok_user `{E : Env} out m s : cc_ok out s -> cc_ok out (set_user m s).
Proof. intros Hc H. destruct (Hc H) as [Hp Hl]. split; [by apply (pool_inv_perm out s)|exact Hl]. Qed.

(** Eight bytes of the pattern, encrypted under version 0 with the first IV of
    channel 0; the metadata at 4096, the ciphertext at 8192. *)
Definition demo_iv : UvmCslIv := iv_of 0 0 0.
Definition demo_plain : list Z := [1; 2; 3; 4; 5; 6; 7; 8].
Definition demo_cipher : list Z := cipher 0 0 demo_iv demo_plain.
Definition demo_metas : list crypto_meta := [mk_crypto_meta 8 (fst demo_iv) 0 (tag 0 0 demo_iv) 0].
Definition demo_decrypt : decrypt_params := mk_decrypt_params 8192 16384 4096 1 8 (replicate 16 7).
Definition decrypt_start : kst :=
  set_user (mem_write 8192 demo_cipher (mem_write 4096 (encode_metas demo_metas) ∅)) cc_start.
(** Two GPUs; the reads are from the second. *)
Definition demo_gpus : list gpu_entry := [mk_gpu_entry (replicate 16 5) (keyed_cc 1); mk_gpu_entry (replicate 16 7) toy_cc].

Lemma demo_gpu_known : gpu_known demo_gpus demo_decrypt.
Proof. exists (mk_gpu_entry (replicate 16 7) toy_cc). split; [by right; left|by right]. Qed.

Lemma demo_decrypt_bufs : decrypt_bufs demo_decrypt.
Proof. unfold SIZEOF_CRYPTO_META. split; cbn; try lia. unfold SIZEOF_CRYPTO_META. lia. Qed.

Lemma demo_decrypt_apart : apart_bufs demo_decrypt.
Proof. unfold apart_bufs, disjoint_iv. cbn. lia. Qed.

Lemma demo_meta_ok : Forall meta_ok demo_metas.
Proof.
  constructor; [|constructor].
  split; [vm_compute; split; congruence|by vm_compute|vm_compute; split; congruence|reflexivity].
Qed.

Lemma demo_decrypt_call : @decrypt_call toy_cc demo_decrypt demo_metas demo_cipher demo_plain decrypt_start.
Proof.
  split; try (vm_compute; reflexivity); [apply demo_decrypt_bufs|apply demo_decrypt_apart|apply demo_meta_ok].
Qed.

Lemma decrypt_start_ok : cc_ok (E := healthy_env) [] decrypt_start.
Proof. apply cc_ok_user, cc_start_ok. Qed.

Lemma decrypt_correct_witness :
  let '(r, s') := @uvm_api_live_migration_decrypt_encrypted_pages healthy_env demo_gpus demo_decrypt decrypt_start in
  r = Some (NV_OK, Some NV_OK) /\ mem_holds (k_user s') 16384 [1; 2; 3; 4; 5; 6; 7; 8].
Proof.
  pose proof (@decrypt_correct healthy_env demo_gpus (mk_gpu_entry (replicate 16 7) toy_cc) demo_decrypt demo_metas demo_cipher demo_plain []
    decrypt_start eq_refl eq_refl eq_refl decrypt_start_ok demo_decrypt_call) as H.
  destruct (uvm_api_live_migration_decrypt_encrypted_pages _ _ _) as [r s']. destruct H as [Hh Hp].
  specialize (Hh _). split; [exact Hh|]. exact (Hp _ Hh).
Defined.

(** Memory whose bytes are all 255: the metadata is nonsense. *)
Definition junk_start : kst := set_user (mem_write 4096 (replicate 41 255) ∅) cc_start.

Lemma junk_bytes : user_bytes junk_start.
Proof.
  intros a b Hb. change (k_user junk_start) with (mem_write 4096 (replicate 41 255) ∅) in Hb.
  destruct (decide (4096 <= a < 4137)) as [Ha|Ha].
  - replace a with (4096 + Z.of_nat (Z.to_nat (a - 4096))) in Hb by lia.
    rewrite mem_write_lookup_in in Hb by (rewrite length_replicate; lia).
    apply lookup_replicate in Hb as [-> _]. lia.
  - rewrite mem_write_lookup_out in Hb by (rewrite length_replicate; lia). by rewrite lookup_empty in Hb.
Qed.

Lemma junk_locks : k_locks junk_start = [] /\ k_lock_bug junk_start = false.
Proof. by vm_compute. Qed.

Lemma decrypt_safe_witness :
  let '(r, s') := @uvm_api_live_migration_decrypt_encrypted_pages healthy_env demo_gpus demo_decrypt junk_start in
  r = Some (NV_ERR_INVALID_ARGUMENT, Some NV_ERR_INVALID_ARGUMENT) /\ k_locks s' = [] /\ is_Some r.
Proof.
  assert (fst (@uvm_api_live_migration_decrypt_encrypted_pages healthy_env demo_gpus demo_decrypt junk_start)
    = Some (NV_ERR_INVALID_ARGUMENT, Some NV_ERR_INVALID_ARGUMENT)) as Hr by (vm_compute; reflexivity).
  assert (cc_ok (E := healthy_env) [] junk_start) as Hc by apply cc_ok_user, cc_start_ok.
  pose proof (@decrypt_safe healthy_env demo_gpus demo_decrypt [] junk_start demo_decrypt_bufs junk_bytes Hc
    (proj1 junk_locks) (proj2 junk_locks)) as H.
  destruct (uvm_api_live_migration_decrypt_encrypted_pages _ _ _) as [r s'].
  destruct H as (H1 & _ & _ & H2 & _). split; [exact Hr|]. split; [exact H2|exact H1].
Defined.

Definition plain_env : Env := env_with false (fun _ => false).
#[export] Instance plain_env_healthy : HealthyEnv plain_env.
Proof. by constructor. Qed.

Lemma decrypt_copies_as_is_witness :
  let '(r, s') := @uvm_api_live_migration_decrypt_encrypted_pages plain_env [] demo_decrypt decrypt_start in
  r = Some (NV_OK, Some NV_OK) /\ mem_holds (k_user s') 16384 demo_cipher.
Proof.
  pose proof (@decrypt_copies_as_is plain_env [] demo_decrypt demo_cipher decrypt_start eq_refl eq_refl
    demo_decrypt_bufs demo_decrypt_apart eq_refl (dc_user_cipher _ _ _ _ _ demo_decrypt_call)) as H.
  destruct (uvm_api_live_migration_decrypt_encrypted_pages _ _ _) as [r s']. destruct H as [Hh Hp].
  specialize (Hh _). split; [exact Hh|]. exact (Hp _ Hh).
Defined.

(** 41 times this number of transfers is 25 modulo 2^64. *)
Definition overflow_decrypt : decrypt_params :=
  mk_decrypt_params 8192 16384 4096 449920587163647601 8 (replicate 16 7).

Lemma decrypt_meta_overflow_witness :
  fst (@uvm_api_live_migration_decrypt_encrypted_pages healthy_env demo_gpus overflow_decrypt junk_start) = None.
Proof.
  apply (@decrypt_meta_overflow healthy_env demo_gpus overflow_decrypt [] junk_start (replicate 25 255));
    try reflexivity; try (cbn; lia); try discriminate.
  - apply healthy_env_healthy.
  - apply cc_ok_user, cc_start_ok.
  - exists (mk_gpu_entry (replicate 16 7) toy_cc). split; [by right; left|by right].
Defined.

(** Under the keys of another GPU the tag of the ciphertext does not verify. *)
Definition misdirected : decrypt_params := mk_decrypt_params 8192 16384 4096 1 8 (replicate 16 5).

Lemma decrypt_on_another_gpu_fails :
  fst (@uvm_api_live_migration_decrypt_encrypted_pages healthy_env demo_gpus misdirected decrypt_start)
  = Some (NV_ERR_INVALID_ARGUMENT, Some NV_ERR_INVALID_ARGUMENT).
Proof. vm_compute. reflexivity. Qed.

(** ** Read and decrypted *)

Definition demo_restore : decrypt_params := mk_decrypt_params 2097152 4194304 8192 1 8192 (replicate 16 7).

Lemma checkpoint_roundtrip_witness :
  let '(st, o, s1) := @encrypted_mt healthy_env toy_cc demo_sched false params [space] cc_start in
  let '(r, s2) := @uvm_api_live_migration_decrypt_encrypted_pages healthy_env demo_gpus demo_restore s1 in
  st = NV_OK /\ r = Some (NV_OK, Some NV_OK) /\
  mem_holds (k_user s2) 4194304 (@vid_pages toy_cc [phys 0; phys 1]).
Proof.
  assert (ro_num_transfers (snd (fst (@encrypted_mt healthy_env toy_cc demo_sched false params [space] cc_start))) = Some 1
    /\ ro_gpu_bytes (snd (fst (@encrypted_mt healthy_env toy_cc demo_sched false params [space] cc_start))) = Some 8192)
    as [Hn Hb] by (split; vm_compute; reflexivity).
  pose proof (@checkpoint_roundtrip healthy_env demo_gpus (mk_gpu_entry (replicate 16 7) toy_cc) demo_sched false params demo_restore [space] (Some 1)
    visits [] cc_start _ eq_refl eq_refl ltac:(cbn; lia) (demo_read_call true false) (demo_room true)
    (mk_is_Some _ _ eq_refl)) as H.
  destruct (encrypted_mt _ _ _ _ _) as [[st o] s1]. cbn [fst snd] in Hn, Hb.
  rewrite <- (demo_gpu_phys false). apply H.
  - reflexivity.
  - apply cc_start_ok.
  - apply cc_start_locks.
  - apply cc_start_locks.
  - split; [reflexivity|reflexivity|by rewrite Hn|by rewrite Hb| |unfold apart_bufs, disjoint_iv; cbn; lia].
    split; cbn; unfold SIZEOF_CRYPTO_META; lia.
Defined.
