(* ===== verification/ChannelWitnesses.v ===== *)
(** Concrete instances of the theorems on channel pools: runs of a few threads,
    given by the events in order. *)
From S2P Require Import Prelude Kernel Gpfifo Channels.

Inductive event := EvThread (i : nat) (x : choice) | EvGpu (c : nat) (v : Z).

(** A bound on the bytes of a push. *)
Definition demo_max_push : Z := 128 * 1024.

Definition choice_okb (x : choice) (p : channel_pool) (cl : client) : bool :=
  match cl with
  | CSpin _ c | CCheck _ c | CWait c _ =>
      match pl_channels p !! c with Some ch => co_seen x <=? ch_completed ch | None => true end
  | CCtrl _ _ _ => is_ok (co_begin x) && is_ok (co_end x)
  | CPush _ _ => pu_size (co_pb x) <=? demo_max_push
  | _ => true
  end.

Definition run_event (e : event) (s : list client * channel_pool) : option (list client * channel_pool) :=
  let '(cls, p) := s in
  match e with
  | EvThread i x =>
      match cls !! i with
      | Some cl => if choice_okb x p cl then
                     match client_step demo_max_push x p cl with Some (p', cl') => Some (<[i := cl']> cls, p') | None => None end
                   else None
      | None => None
      end
  | EvGpu c v =>
      match pl_channels p !! c with
      | Some ch => if (ch_completed ch <=? v) && (v <=? ch_queued ch)
                   then Some (cls, pl_set_chan c (ch_set_completed v ch) p) else None
      | None => None
      end
  end.

Lemma run_event_step e s s' : run_event e s = Some s' -> pool_step demo_max_push s s'.
Proof.
  destruct s as [cls p], e as [i x|c v]; cbn.
  - destruct (cls !! i) as [cl|] eqn:Hi; [|done]. destruct (choice_okb x p cl) eqn:Hs; [|done].
    destruct (client_step demo_max_push x p cl) as [[p' cl']|] eqn:Hc; [|done]. intros [= <-].
    eapply step_client; [exact Hi| |exact Hc].
    unfold choice_okb in Hs. destruct cl; try done; cbn; try (by apply Z.leb_le);
      try (intros ch Hch; rewrite Hch in Hs; by apply Z.leb_le).
    apply andb_true_iff in Hs as [H1 H2]. by apply bool_decide_eq_true_1 in H1, H2.
  - destruct (pl_channels p !! c) as [ch|] eqn:Hc; [|done]. destruct (_ && _) eqn:Hv; [|done]. intros [= <-].
    apply andb_true_iff in Hv as [H1%Z.leb_le H2%Z.leb_le]. by eapply step_gpu.
Qed.

Fixpoint run_events (es : list event) (s : list client * channel_pool) : option (list client * channel_pool) :=
  match es with
  | [] => Some s
  | e :: es' => match run_events es' s with Some s' => run_event e s' | None => None end
  end.

(** Events are listed last first. *)
Lemma run_events_reach s0 es s : run_events es s0 = Some s -> reach demo_max_push s0 (length es) s.
Proof.
  revert s; induction es as [|e es IH]; intros s; cbn; [intros [= <-]; constructor|].
  destruct (run_events es s0) as [s1|]; [|done]. intros He. eapply reach_next; [by apply IH|by eapply run_event_step].
Qed.

Definition go (rotate : bool) (seen : Z) : choice :=
  mk_choice rotate RAny seen false true NV_OK NV_OK (mk_push_bytes 0 64) 0.

(** Thread 0 pushes on the first of two channels; thread 1 then rotates the key. *)
Definition rotation_events : list event :=
  rev [EvThread 0 (go false 0); EvThread 0 (go false 0); EvThread 0 (go false 0); EvThread 0 (go false 0);
       EvGpu 0 1;
       EvThread 1 (go true 0); EvThread 1 (go true 0); EvThread 1 (go true 0); EvThread 1 (go true 0);
       EvThread 1 (go true 1); EvThread 1 (go true 0)].
Definition rotation_state : list client * channel_pool :=
  default ([], snd (pool_start 0 4 0)) (run_events rotation_events (pool_start 2 4 2)).

Lemma rotation_reach : reach demo_max_push (pool_start 2 4 2) (length rotation_events) (fst rotation_state, snd rotation_state).
Proof.
  apply run_events_reach. vm_compute. reflexivity.
Qed.

Lemma channel_pool_sound_witness :
  pl_bug (snd rotation_state) = false /\ 0 <= pl_sem (snd rotation_state).
Proof.
  destruct (channel_pool_sound demo_max_push 2 4 2 (length rotation_events) (fst rotation_state) (snd rotation_state)
    ltac:(lia) ltac:(vm_compute; reflexivity) rotation_reach) as (H1 & H2 & _).
  split; [exact H1|exact H2].
Defined.

Lemma rotation_finds_pool_idle_witness :
  pl_locks (snd rotation_state) = ∅ /\ pl_sem (snd rotation_state) = 0.
Proof.
  destruct (rotation_finds_pool_idle demo_max_push 2 4 2 (length rotation_events) (fst rotation_state) (snd rotation_state)
    ltac:(lia) ltac:(vm_compute; reflexivity) rotation_reach true) as (H1 & H2 & _); [|split; [exact H1|exact H2]].
  vm_compute. right. left.
Defined.

(** A channel of three entries, two pushes queued on it, and a thread that spins. *)
Definition full_events : list event :=
  rev [EvThread 0 (go false 0); EvThread 0 (go false 0); EvThread 0 (go false 0); EvThread 0 (go false 0);
       EvThread 0 (go false 0); EvThread 0 (go false 0); EvThread 0 (go false 0); EvThread 0 (go false 0);
       EvThread 1 (go false 0); EvThread 1 (go false 0); EvGpu 0 2].
Definition full_state : list client * channel_pool :=
  default ([], snd (pool_start 0 4 0)) (run_events full_events (pool_start 1 3 2)).
Definition full_channel : channel := default (channel_create 3 false) (pl_channels (snd full_state) !! 0%nat).

Lemma full_reach : reach demo_max_push (pool_start 1 3 2) (length full_events) (fst full_state, snd full_state).
Proof. apply run_events_reach. vm_compute. reflexivity. Qed.

Lemma update_progress_fifo_witness :
  fst (uvm_channel_update_progress 1 full_channel) = 1 /\ length (pending full_channel) = 2%nat.
Proof.
  pose proof (update_progress_fifo demo_max_push 1 3 2 (length full_events) (fst full_state) (snd full_state)
    ltac:(lia) ltac:(vm_compute; reflexivity) full_reach 0 full_channel 1 ltac:(vm_compute; reflexivity)
    ltac:(vm_compute; discriminate)) as H.
  destruct (uvm_channel_update_progress 1 full_channel) as [m ch'] eqn:He. destruct H as (Hm & _). cbn [fst].
  rewrite Hm. assert (ch' = snd (uvm_channel_update_progress 1 full_channel)) as -> by by rewrite He.
  vm_compute. split; reflexivity.
Defined.

Lemma reservation_succeeds_witness :
  exists p1 p2, client_step demo_max_push (go false 2) (snd full_state) (CSpin RAny 0) = Some (p1, CTest RAny 0) /\
    client_step demo_max_push (go false 0) p1 (CTest RAny 0) = Some (p2, CReserved 0 1).
Proof.
  destruct (reservation_succeeds demo_max_push 1 3 2 (length full_events) (fst full_state) (snd full_state)
    ltac:(lia) ltac:(vm_compute; reflexivity) full_reach RAny 0 (go false 2) (go false 0)) as [_ H].
  { vm_compute. right. left. }
  destruct (H full_channel) as (p1 & p2 & H1 & H2 & _); [vm_compute; reflexivity| |reflexivity| |by exists p1, p2].
  - apply (bool_decide_eq_false_1 _). vm_compute. reflexivity.
  - intros e He. assert (Forall (fun e => ge_tracking e <= ch_completed full_channel) (pending full_channel)) as Hf
      by (vm_compute; repeat constructor; discriminate).
    exact (proj1 (Forall_forall _ _) Hf e He).
Defined.
