(* ===== verification/FaultWitnesses.v ===== *)
(** Concrete instances for the theorems on fault handling: GPU 1 of the system of
    [Witnesses] faults on two pages of its tracked block. *)
From stdpp Require Import functions sorting.
From S2P Require Import Prelude Kernel VaBlock Permissions Tracking Accessors Service FaultBuffer FaultBatch FaultService FaultReport FaultSpace FaultLoop FaultLoopSpec CpuFault Witnesses.
Import Demo DemoFault DemoLife.

Module DemoBuffer.
#[export] Instance codes : FaultCodes.
Proof. refine (Build_FaultCodes 7 0 1 2 3 4 5 _). lia. Defined.

(** Merge sort is a sort in the sense of the kernel's. *)
Definition not_after (cmp : nat -> nat -> Z) (a b : nat) : Prop := cmp a b <= 0.
#[export] Instance not_after_dec cmp a b : Decision (not_after cmp a b) := decide (cmp a b <= 0).
Definition sort_by (cmp : nat -> nat -> Z) (l : list nat) : list nat := merge_sort (not_after cmp) l.
Lemma sort_by_sorted cmp l :
  (forall a b, 0 < cmp a b -> cmp b a < 0) -> (forall a b c, cmp a b <= 0 -> cmp b c <= 0 -> cmp a c <= 0) ->
  StronglySorted (fun a b => cmp a b <= 0) (sort_by cmp l).
Proof.
  intros Htot Htrans. assert (Transitive (not_after cmp)) by (intros a b c; apply Htrans).
  assert (Total (not_after cmp)); [|by apply (StronglySorted_merge_sort (not_after cmp))].
  intros a b. unfold not_after. destruct (Z_le_gt_dec (cmp a b) 0); [by left|right]. pose proof (Htot a b ltac:(lia)). lia.
Qed.
#[export] Instance list_sort : KernelSort :=
  Build_KernelSort sort_by (fun _ l => merge_sort_Permutation _ l) sort_by_sorted.

(** Two faults of uTLB 0 on the first page, a read and then a write, and one of
    uTLB 1 on the second page; the addresses are not rounded to the page. *)
Definition packet (k : Z) : fault_packet :=
if k =? 6 then mk_fault_packet 100 0 0 2097160 2 1
else if k =? 7 then mk_fault_packet 100 0 0 2097168 2 2
else mk_fault_packet 100 0 1 2101248 2 1.
Definition raw (k : Z) : fault_entry :=
mk_fault_entry (packet k) false None true 9 ∅ UVM_FAULT_CANCEL_VA_MODE_ALL true true.
Definition hw : fault_hw := mk_fault_hw 1 (fun _ => 0%nat) (fun _ _ => NV_OK) (fun k => (NV_OK, raw k)).
(** Three entries of a ring of eight, across its end. *)
Definition buffer : fault_buffer := mk_fault_buffer 6 6 8 256 6 {[6; 7; 0; 1]} 50.
Definition cold : batch :=
mk_batch [] [] 0 None true (fun _ => mk_utlb_info 0 false None) 0 None false 0 0 0 false.
Definition fetched_batch : batch :=
match fetch_fault_buffer_entries hw true true FAULT_FETCH_MODE_BATCH_READY buffer cold with
| Some (_, _, b) => b | None => cold end.
Definition fetched_buffer : fault_buffer :=
match fetch_fault_buffer_entries hw true true FAULT_FETCH_MODE_BATCH_READY buffer cold with
| Some (_, fb, _) => fb | None => buffer end.

Definition calls : translate_calls :=
mk_translate_calls (fun e => (NV_OK, Some (Z.max 1 (fp_instance_ptr (fe_packet e))))) NV_OK false hw
  (mk_flush_calls NV_OK NV_OK NV_OK NV_OK).
Definition ready : batch :=
match preprocess_fault_batch calls fetched_buffer fetched_batch with
| Some (_, _, b) => b | None => cold end.

Definition fcfg : fault_cfg :=
mk_fault_cfg svc 100 false (fun _ => true) false false
  (fun _ => UVM_PERF_THRASHING_HINT_TYPE_NONE) (fun _ _ _ => None) NV_OK.
(** Nothing has to move: the pages are on GPU 1. *)
Definition no_copy (p r : Z) (k : block_ctx) (b : va_block) : K (nv_status * va_block * gset Z) :=
kret (NV_OK, b, ∅).
Definition armed_block : va_block := vb_set_migration false true populated.
Definition cold_ctx : block_ctx :=
mk_block_ctx 5 (mk_region 0 0) {[1]} (fun _ => {[9]}) (fun _ => 0) 3 {[4]} 2 {[4]}
  (mk_prot_mapping 0 ∅) (mk_prot_mapping 0 ∅) (mk_prot_mapping 0 ∅).
Definition work : block_work := mk_block_work armed_block cold_ctx ready 0.
End DemoBuffer.

Import DemoBuffer.

Lemma demo_buffer_wf : fb_wf buffer.
Proof. split; cbn; (lia || done). Qed.

Lemma demo_hw_wf : hw_wf buffer hw.
Proof. split; [cbn; lia|]. intros i. unfold fe_utlb. cbn. unfold packet. repeat case_match; cbn; lia. Qed.

Lemma demo_batch_wf : batch_wf cold.
Proof. by split. Qed.

(** Three entries are cached; the write stands for the read before it. *)
Lemma fetch_fault_buffer_entries_correct_witness :
  exists st fb' b', fetch_fault_buffer_entries hw true true FAULT_FETCH_MODE_BATCH_READY buffer cold
                    = Some (st, fb', b') /\
    length (bc_cache b') = 3%nat /\ fb_get fb' = ring_at buffer 6 3 /\ bc_num_coalesced b' = 2 /\
    forall e, e ∈ bc_cache b' -> exists r, r ∈ bc_cache b' /\ fe_filtered r = false /\ covers r e.
Proof.
  destruct (fetch_fault_buffer_entries_correct hw true true FAULT_FETCH_MODE_BATCH_READY buffer cold
    demo_buffer_wf demo_hw_wf demo_batch_wf) as (st & fb' & b' & Heq & Hall).
  exists st, fb', b'. split; [exact Heq|]. vm_compute in Heq. injection Heq as <- <- <-.
  split; [reflexivity|]. split; [reflexivity|]. split; [reflexivity|].
  destruct Hall as (_ & _ & _ & _ & _ & Hrep & _). exact Hrep.
Defined.

Lemma fault_buffer_flush_correct_witness :
  exists st fb' b' n, fault_buffer_flush_locked true hw (mk_flush_calls NV_OK NV_OK NV_OK NV_OK)
      UVM_GPU_BUFFER_FLUSH_MODE_WAIT_UPDATE_PUT UVM_FAULT_REPLAY_TYPE_START buffer None = Some (st, fb', b') /\
    n = 3 /\ fb_get fb' = 1 /\ fb_decrypt_iv fb' = 50 + n.
Proof.
  destruct (fault_buffer_flush_correct true hw (mk_flush_calls NV_OK NV_OK NV_OK NV_OK)
    UVM_GPU_BUFFER_FLUSH_MODE_WAIT_UPDATE_PUT UVM_FAULT_REPLAY_TYPE_START buffer None demo_buffer_wf)
    as (st & fb' & b' & n & Heq & _ & _ & _ & _ & Hiv & Hok); [cbn; lia|].
  exists st, fb', b', n. split; [exact Heq|].
  assert (st = NV_OK /\ fb_get fb' = 1 /\ distance fb' 6 = 3) as (Hst & Hg & Hd)
    by (vm_compute in Heq; injection Heq as <- <- <-; repeat split).
  destruct (Hok Hst) as (_ & Hn & _). split; [rewrite Hn; exact Hd|]. split; [exact Hg|exact Hiv].
Defined.

Lemma demo_calls_instance e e' : same_instance e e' -> tc_to_va_space calls e = tc_to_va_space calls e'.
Proof. intros [Hi _]. cbn. by rewrite Hi. Qed.

Lemma demo_calls_some e : fst (tc_to_va_space calls e) = NV_OK -> is_Some (snd (tc_to_va_space calls e)).
Proof. intros _. cbn. eauto. Qed.

Lemma demo_fetched : fetch_fault_buffer_entries hw true true FAULT_FETCH_MODE_BATCH_READY buffer cold
                     = Some (NV_OK, fetched_buffer, fetched_batch).
Proof. vm_compute. reflexivity. Qed.

Lemma demo_fetch_inv : fetch_inv fetched_batch /\ fb_wf fetched_buffer.
Proof.
  destruct (fetch_fault_buffer_entries_spec hw true true FAULT_FETCH_MODE_BATCH_READY buffer cold
    demo_buffer_wf demo_hw_wf demo_batch_wf) as (st & fb' & b' & Heq & Hwf & _ & _ & _ & _ & _ & _ & _ & Hi).
  rewrite demo_fetched in Heq. by injection Heq as <- <- <-.
Qed.

(** The write on the first page comes first, then the read on the second. *)
Lemma preprocess_fault_batch_correct_witness :
  exists st fb' b', preprocess_fault_batch calls fetched_buffer fetched_batch = Some (st, fb', b') /\
    st = NV_OK /\ bc_ordered b' = [1; 2]%nat /\
    StronglySorted (fun i j => fault_le (entry_at b' i) (entry_at b' j)) (bc_ordered b').
Proof.
  destruct demo_fetch_inv as [Hi Hwf].
  destruct (preprocess_fault_batch_correct calls demo_calls_instance demo_calls_some fetched_buffer fetched_batch
    Hwf ltac:(vm_compute; split; congruence) Hi ltac:(vm_compute; discriminate)) as (st & fb' & b' & Heq & Hok).
  exists st, fb', b'. split; [exact Heq|].
  assert (st = NV_OK /\ bc_ordered b' = [1; 2]%nat) as [Hst Ho]
    by (vm_compute in Heq; injection Heq as <- <- <-; split; reflexivity).
  split; [exact Hst|]. split; [exact Ho|]. by destruct (Hok Hst) as (_ & _ & _ & Hs & _).
Defined.

(** Only [vm_compute] runs the fetch. *)
#[local] Opaque ready fetched_batch fetched_buffer.

Lemma demo_prot t : UVM_FAULT_ACCESS_TYPE_WRITE <= t -> writable (sv_access_prot (ft_service fcfg) t) = true.
Proof. cbn. unfold access_prot. intros Ht. repeat case_match; cbn; try done. lia. Qed.

Lemma demo_copy r k b s :
  perm_wf b -> wp (no_copy 1 r k b) (fun '(_, b', _) _ => follows 1 b b') s.
Proof. intros _. unfold no_copy. by apply wp_ret. Qed.

Lemma demo_armed_wf : perm_wf armed_block.
Proof. apply perm_wf_set_migration, demo_populated_wf. Qed.

Lemma demo_armed_range : block_range armed_block.
Proof. by split. Qed.

Lemma demo_armed_quiet : quiet {[1]} armed_block.
Proof. intros _ _ g ->%elem_of_singleton _. vm_compute. reflexivity. Qed.

Lemma work_batch : bw_batch work = ready.
Proof. reflexivity. Qed.

Lemma demo_ready_ordered : bc_ordered ready = [1; 2]%nat.
Proof. vm_compute. reflexivity. Qed.

Lemma demo_faults_ok : block_faults_ok fcfg armed_block (bw_batch work) 0.
Proof.
  rewrite work_batch. split; rewrite demo_ready_ordered; cbn [lookup list_lookup drop].
  - intros h [= <-]. split; vm_compute; [reflexivity|discriminate].
  - intros i Hi _. assert (i = 1 \/ i = 2)%nat as [-> | ->] by set_solver; vm_compute; reflexivity.
Qed.

Lemma demo_preprocessed : preprocess_fault_batch calls fetched_buffer fetched_batch = Some (NV_OK, fetched_buffer, bw_batch work).
Proof. rewrite work_batch. vm_compute. reflexivity. Qed.

Lemma some_triple_inj {A B C} (x x' : A) (y y' : B) (z z' : C) :
  Some (x, y, z) = Some (x', y', z') -> x = x' /\ y = y' /\ z = z'.
Proof. by intros [= -> -> ->]. Qed.

(** The batch of [work] is what preprocessing makes of the fetched faults. *)
Lemma demo_work_preprocessed : cached hw buffer fetched_batch /\ preprocessed calls fetched_batch (bw_batch work).
Proof.
  destruct demo_fetch_inv as [Hi Hwf].
  destruct (fetch_fault_buffer_entries_spec hw true true FAULT_FETCH_MODE_BATCH_READY buffer cold
    demo_buffer_wf demo_hw_wf demo_batch_wf) as (st & fb' & b' & Heq & _ & _ & _ & _ & _ & Hc & _).
  rewrite demo_fetched in Heq. apply some_triple_inj in Heq as (_ & _ & <-). split; [exact Hc|].
  destruct (preprocess_fault_batch_spec calls demo_calls_instance demo_calls_some fetched_buffer fetched_batch
    Hwf ltac:(vm_compute; split; congruence) Hi ltac:(vm_compute; discriminate)) as (st1 & fb1 & b1 & Heq & Hok).
  rewrite demo_preprocessed in Heq. apply some_triple_inj in Heq as (<- & _ & <-). apply (Hok eq_refl).
Qed.

Lemma demo_hw_codes i : fe_access (snd (hw_parse hw i)) < UVM_FAULT_ACCESS_TYPE_COUNT.
Proof. unfold fe_access. cbn. unfold packet. repeat case_match; cbn; lia. Qed.

Lemma demo_ready_batch : ordered_batch (bw_batch work).
Proof.
  destruct demo_work_preprocessed as [Hc Hp]. by apply (preprocessed_ordered calls hw demo_hw_codes buffer fetched_batch).
Qed.

(** The write on page 0 leaves the block dirty. *)
Lemma service_fault_batch_block_reports_writes_witness :
  let '(st, w') := fst (@service_fault_batch_block codes healthy_env no_copy fcfg 1 0 work kst_init) in
  st = NV_OK /\ vb_dirty (bw_block w') = true.
Proof.
  pose proof (@service_fault_batch_block_reports_writes codes healthy_env fcfg 1 ltac:(lia) demo_prot eq_refl
    demo_processors no_copy demo_copy 0%nat work kst_init demo_armed_wf eq_refl demo_armed_range demo_armed_quiet
    ltac:(reflexivity) demo_ready_batch ltac:(vm_compute; reflexivity) demo_faults_ok) as H.
  unfold wp in H.
  assert (fst (fst (@service_fault_batch_block codes healthy_env no_copy fcfg 1 0 work kst_init)) = NV_OK) as Hst
    by (vm_compute; reflexivity).
  destruct (fst (service_fault_batch_block _ _ _ _ _ _)) as [st w']. cbn [fst] in Hst.
  destruct H as (_ & _ & _ & H). split; [exact Hst|].
  destruct (H Hst 1%nat) as [[Hd _]|[Hc|Hc]]; [| | |exfalso; apply Hd|discriminate Hc|exact Hc].
  - rewrite work_batch, demo_ready_ordered. left.
  - vm_compute. reflexivity.
  - vm_compute. discriminate.
  - vm_compute. reflexivity.
Defined.

(** So does the write fetched from the ring, whatever else was there. *)
Lemma every_write_fault_reported_witness :
  let '(st, w') := fst (@service_fault_batch_block codes healthy_env no_copy fcfg 1 0 work kst_init) in
  st = NV_OK /\ vb_dirty (bw_block w') = true.
Proof.
  pose proof (@every_write_fault_reported codes healthy_env list_sort fcfg 1 ltac:(lia) demo_prot eq_refl
    demo_processors no_copy demo_copy calls demo_calls_instance demo_calls_some hw) as H.
  specialize (H ltac:(intros i; unfold fe_access; cbn; unfold packet; repeat case_match; cbn; lia)).
  specialize (H true true FAULT_FETCH_MODE_BATCH_READY buffer cold NV_OK fetched_buffer fetched_batch fetched_buffer
    0%nat work kst_init demo_buffer_wf demo_hw_wf ltac:(cbn; lia) demo_batch_wf demo_fetched demo_preprocessed
    demo_armed_wf eq_refl demo_armed_range demo_armed_quiet ltac:(reflexivity) demo_faults_ok
    ltac:(intros j h _ _ _; apply Nat.le_0_l)).
  unfold wp in H.
  assert (fst (fst (@service_fault_batch_block codes healthy_env no_copy fcfg 1 0 work kst_init)) = NV_OK) as Hst
    by (vm_compute; reflexivity).
  destruct (fst (service_fault_batch_block _ _ _ _ _ _)) as [st w']. cbn [fst] in Hst.
  split; [exact Hst|].
  destruct (H Hst 1) as [Hc|[Hc|(t & Ht & Hd)]]; [| | | |exact Hc|discriminate Hc|exfalso; apply Hd].
  - vm_compute. split; congruence.
  - vm_compute. reflexivity.
  - vm_compute. split; congruence.
  - vm_compute. congruence.
  - reflexivity.
Defined.

(** ** The whole batch: the block is in the first slot of a range of two, in VA
    space 100; replays are issued after each block. *)
Module DemoLoop.
Definition armed_range : va_range :=
mk_va_range 2097152 6291455 UVM_VA_RANGE_TYPE_MANAGED [Some armed_block; None].
Definition lcfg : loop_cfg :=
mk_loop_cfg (fun v _ => mk_fault_cfg svc v false (fun _ => true) false false
    (fun _ => UVM_PERF_THRASHING_HINT_TYPE_NONE) (fun _ _ _ => None) NV_OK)
  (fun _ => true) UVM_PERF_FAULT_REPLAY_POLICY_BLOCK (fun _ _ => None).
Definition world : loop_world :=
mk_loop_world (fun id => mk_va_space id [armed_range] true [1] (fun _ => None)) cold_ctx ready.
Definition served : option (nv_status * loop_world) :=
fst (@service_fault_batch codes healthy_env no_copy lcfg 1 FAULT_SERVICE_MODE_REGULAR world kst_init).
(** What the batch came to: its status, the dirty flag of the block of the
    write, and the number of replays. *)
Definition outcome (r : option (nv_status * loop_world)) : option (nv_status * bool * Z) :=
match r with
| Some (st, w) =>
    Some (st, match uvm_va_block_find (lw_spaces w 100) 2097152 with (_, Some b) => vb_dirty b | _ => false end,
          bc_num_replays (lw_batch w))
| None => None
end.
End DemoLoop.

Import DemoLoop.

Lemma demo_outcome : outcome served = Some (NV_OK, true, 1).
Proof. vm_compute. reflexivity. Qed.

Lemma demo_space_guarded id : space_guarded 1 (lw_spaces world id).
Proof.
  split; [split|done|].
  - cbn. repeat constructor.
  - intros r ->%list_elem_of_singleton _. split; [by split|reflexivity|].
    intros [|[|i]] b Hb; cbn in Hb; [|done|by destruct i]. injection Hb as <-. by split; vm_compute.
  - intros r [|[|i]] b ->%list_elem_of_singleton _ Hb; cbn in Hb; [|done|by destruct i].
    injection Hb as <-. split; [apply demo_armed_wf|done|apply demo_armed_quiet].
Qed.

Lemma demo_spaces_ok : spaces_ok lcfg 1 world.
Proof. split; [intros id; split; [apply demo_space_guarded|done]|done]. Qed.

Lemma demo_calls_pos e : fst (tc_to_va_space calls e) = NV_OK ->
  exists vid, snd (tc_to_va_space calls e) = Some vid /\ 0 < vid.
Proof. intros _. cbn. eexists. split; [reflexivity|]. lia. Qed.

Lemma demo_unmixed : unmixed calls hw buffer 3.
Proof. intros i j _ _ _ _. unfold fault_at. cbn. unfold packet. repeat case_match; reflexivity. Qed.

Lemma demo_loop_prot (v r t : Z) : UVM_FAULT_ACCESS_TYPE_WRITE <= t ->
  writable (sv_access_prot (ft_service (lc_fault lcfg v r)) t) = true.
Proof. exact (demo_prot t). Qed.

Lemma demo_copy_lock ls p r k b : LockSpec ls (no_copy p r k b) ls.
Proof. apply lock_ret. Qed.

Lemma demo_world_ok : world_ok lcfg 1 world.
Proof.
  destruct demo_work_preprocessed as [Hc Hp].
  apply (preprocessed_world lcfg 1 calls hw demo_calls_instance demo_calls_pos demo_hw_codes buffer fetched_batch world
    demo_spaces_ok Hc Hp); [vm_compute; reflexivity|].
  replace (Z.of_nat (length (bc_cache fetched_batch))) with 3 by (vm_compute; reflexivity). exact demo_unmixed.
Qed.

Lemma service_fault_batch_correct_witness :
  exists st w, served = Some (st, w) /\ st = NV_OK /\ forall k, k ∈ [1; 2]%nat -> settled lcfg 1 world w k.
Proof.
  destruct (@service_fault_batch_correct codes healthy_env lcfg 1 ltac:(lia) eq_refl demo_loop_prot (fun _ _ => eq_refl)
    (fun _ _ => demo_processors) (fun _ _ => eq_refl) no_copy demo_copy demo_copy_lock world FAULT_SERVICE_MODE_REGULAR
    kst_init demo_world_ok eq_refl eq_refl) as (st & w & Hr & _ & _ & _ & _ & Hs).
  fold served in Hr. exists st, w. split; [exact Hr|].
  assert (Hst : st = NV_OK) by (pose proof demo_outcome as Ho; rewrite Hr in Ho; by injection Ho).
  split; [exact Hst|]. intros k Hk. apply (Hs Hst). change (lw_batch world) with ready. rewrite demo_ready_ordered. exact Hk.
Defined.

Lemma demo_found : uvm_va_block_find (lw_spaces world 100) 2097152 = (NV_OK, Some armed_block).
Proof. reflexivity. Qed.

Lemma batch_writes_reported_witness :
  exists st w b, served = Some (st, w) /\ uvm_va_block_find (lw_spaces w 100) 2097152 = (NV_OK, Some b) /\ vb_dirty b = true.
Proof.
  destruct (@batch_writes_reported codes healthy_env lcfg 1 ltac:(lia) eq_refl demo_loop_prot (fun _ _ => eq_refl)
    (fun _ _ => demo_processors) (fun _ _ => eq_refl) no_copy demo_copy demo_copy_lock list_sort calls hw
    demo_calls_instance demo_calls_pos demo_hw_codes true true FAULT_FETCH_MODE_BATCH_READY buffer cold NV_OK
    fetched_buffer fetched_batch fetched_buffer world FAULT_SERVICE_MODE_REGULAR kst_init demo_buffer_wf demo_hw_wf
    ltac:(cbn; lia) demo_batch_wf demo_fetched ltac:(vm_compute; discriminate) demo_preprocessed demo_spaces_ok)
    as (st & w & Hr & Hs); [| reflexivity | reflexivity|].
  { replace (Z.of_nat (length (bc_cache fetched_batch))) with 3 by (vm_compute; reflexivity). exact demo_unmixed. }
  fold served in Hr.
  assert (Hst : st = NV_OK) by (pose proof demo_outcome as Ho; rewrite Hr in Ho; by injection Ho).
  assert (Hk : 0 <= 1 < Z.of_nat (length (bc_cache fetched_batch))) by (vm_compute; split; congruence).
  destruct (Hs Hst 1 Hk 100 eq_refl eq_refl eq_refl ltac:(vm_compute; congruence)) as [(b & Hb & Hd)|[(r & _ & [Hc|(t & _ & Hc)])|Hc]].
  - exists st, w, b. split; [exact Hr|]. split; [exact Hb|exact Hd].
  - discriminate Hc.
  - exfalso. apply Hc. reflexivity.
  - exfalso. exact (Hc armed_block demo_found).
Defined.
Module DemoCpu.
(** Page 0 is on the CPU, page 1 on the GPU; the mapping is the calling process's. *)
Definition cpu_perm : perm_cfg := mk_perm_cfg ∅ (fun _ => {[0; 1]}) {[1]} true false None false {[0; 1]}.
Definition cpu_svc : service_cfg :=
mk_service_cfg cpu_perm access_prot 4 false true true true UVM_READ_DUPLICATION_ENABLED ∅
  (fun _ => ∅) {[0; 1]} {[1]} false ∅ (fun _ => {[0; 1]}) (fun _ => false) ∅ (fun _ => ∅) false None.
Definition cpu_cfg : fault_cfg :=
mk_fault_cfg cpu_svc 100 false (fun _ => true) false false
  (fun _ => UVM_PERF_THRASHING_HINT_TYPE_NONE) (fun _ _ _ => None) NV_OK.
Definition reader : gpu_state := mk_gpu_state {[1]} phys {[1]} ∅ ∅.
Definition shared_block : va_block :=
mk_va_block 2097152 4194303 {[0]} (fun _ => []) ∅ ∅ {[1 := reader]} {[0; 1]} {[1]} {[1]} false true.
Definition cpu_job : cpu_work := mk_cpu_work shared_block (mk_fault_authorized 0 0 0) cold_ctx.
End DemoCpu.
Import DemoCpu.

Lemma demo_shared_wf : perm_wf shared_block.
Proof.
  constructor; cbn.
  - intros g gs [<- <-]%lookup_singleton_Some. by split.
  - intros g gs [<- <-]%lookup_singleton_Some _ Hn. set_solver.
  - done.
  - set_solver.
  - intros g Hg Hm. assert (g = 1) as -> by set_solver. eauto.
Qed.

Lemma demo_cpu_processors : processors_ok (ft_service cpu_cfg).
Proof.
  split; cbn; [|set_solver..]. intros id Hid. assert (id = 0 \/ id = 1) as [-> | ->] by set_solver; lia.
Qed.

#[local] Notation cpu_run :=
  (@uvm_va_block_cpu_fault codes healthy_env no_copy cpu_cfg (fun _ => 0) 1 5 2097160 true cpu_job kst_init).

Lemma demo_cpu_written :
  let '((st, w'), _) := cpu_run in
  st = NV_OK /\ (0 : Z) ∈ vb_cpu_pte_write (cw_block w').
Proof.
  assert (fst (fst cpu_run) = NV_OK) as Hst by (vm_compute; reflexivity).
  assert ((0 : Z) ∈ vb_cpu_pte_write (cw_block (snd (fst cpu_run)))) as Hw
    by (eapply bool_decide_eq_true_1; vm_compute; reflexivity).
  destruct cpu_run as [[st w'] s']. exact (conj Hst Hw).
Qed.

