(* ===== verification/HandlerWitnesses.v ===== *)
(** Concrete instances for the theorems on cancelling and on the fault handler,
    in the system of [FaultWitnesses]. *)
From stdpp Require Import functions sorting.
From S2P Require Import Prelude Kernel VaBlock Permissions Tracking Accessors Service FaultBuffer FaultBatch FaultService FaultReport FaultSpace FaultLoop FaultLoopSpec FaultCancel FaultCancelSpec FaultHandler FaultHandlerSpec Witnesses FaultWitnesses.
Import Demo DemoFault DemoLife DemoBuffer DemoLoop.

Module DemoHandler.
Definition answers : service_answers :=
mk_service_answers (fun _ => hw) (fun _ => calls) (fun _ => mk_flush_calls NV_OK NV_OK NV_OK NV_OK) (fun _ => 7).
Definition params : service_params := mk_service_params true 20 5 50 1000 true false.
(** The batch of [DemoLoop], preprocessed and not serviced. *)
Definition loaded : service_state := mk_service_state world fetched_buffer true 0 [] false.
(** Nothing fetched yet, three faults in the buffer. *)
Definition idle : service_state :=
mk_service_state (mk_loop_world (lw_spaces world) cold_ctx cold) buffer true 0 [] false.
(** The status, the dirty flag of the block of the write, GET and the number of
    entries of the last fetch. *)
Definition summary (r : option (nv_status * service_state)) : option (nv_status * bool * Z * nat) :=
match r with
| Some (st, s) =>
    Some (st, match uvm_va_block_find (lw_spaces (ss_world s) 100) 2097152 with (_, Some b) => vb_dirty b | _ => false end,
          fb_get (ss_fb s), length (bc_cache (ss_batch s)))
| None => None
end.
End DemoHandler.

Import DemoHandler.

#[local] Notation cancelled_all := (fst (@cancel_faults_all healthy_env lcfg answers loaded kst_init)).
#[local] Notation handled :=
  (fst (@uvm_gpu_service_replayable_faults codes healthy_env list_sort no_copy lcfg 1 answers params 0 idle kst_init)).

Lemma demo_summary : summary handled = Some (NV_OK, true, 1, 0%nat).
Proof. vm_compute. reflexivity. Qed.

Lemma demo_cancel_status : fst <$> cancelled_all = Some NV_OK.
Proof. vm_compute. reflexivity. Qed.

Lemma demo_cancels :
  cancels_of lcfg ready [1; 2]%nat =
  [mk_fault_cancel (Some 100) 2097152 2 UVM_FAULT_CANCEL_VA_MODE_ALL;
   mk_fault_cancel (Some 100) 2101248 1 UVM_FAULT_CANCEL_VA_MODE_ALL].
Proof. vm_compute. reflexivity. Qed.

Lemma demo_addresses i : i ∈ [1; 2]%nat -> page_address (fe_address (entry_at ready i)).
Proof.
  intros [->|[->|Hi]%elem_of_cons]%elem_of_cons; [| |by apply elem_of_nil in Hi]; vm_compute; repeat split; congruence.
Qed.

#[local] Opaque ready fetched_batch fetched_buffer.

(** Both faults of the view are cancelled, the write first. *)
Lemma cancel_faults_all_correct_witness :
  exists st', cancelled_all = Some (NV_OK, st') /\
    ss_cancels st' = [mk_fault_cancel (Some 100) 2097152 2 UVM_FAULT_CANCEL_VA_MODE_ALL;
                      mk_fault_cancel (Some 100) 2101248 1 UVM_FAULT_CANCEL_VA_MODE_ALL].
Proof.
  destruct (@cancel_faults_all_correct healthy_env lcfg answers loaded kst_init) as (st & st' & c & Hr & _ & _ & Hc & _ & Hok & _).
  - apply demo_fetch_inv.
  - intros n. vm_compute. split; congruence.
  - change (ss_batch loaded) with ready. rewrite demo_ready_ordered. exact demo_addresses.
  - reflexivity.
  - reflexivity.
  - exists st'.
    assert (Hst : st = NV_OK) by (pose proof demo_cancel_status as Ho; rewrite Hr in Ho; by injection Ho).
    split; [rewrite <- Hst; exact Hr|]. rewrite Hc, (Hok Hst). change (ss_batch loaded) with ready.
    rewrite demo_ready_ordered, demo_cancels. reflexivity.
Defined.

Lemma demo_answers_ok : answers_ok answers 8.
Proof.
  split; cbn.
  - intros n. lia.
  - intros n i. unfold fe_utlb, fe_access, fe_address. cbn. unfold packet. repeat case_match; cbn; lia.
  - intros m. lia.
  - intros m. apply demo_calls_instance.
  - intros m. apply demo_calls_pos.
  - intros n m fb k i j _ _ _ _. unfold fault_at. cbn. unfold packet. repeat case_match; reflexivity.
Qed.

