(* ===== verification/RangeWitnesses.v ===== *)
(** Instances of the theorems on block and range splits: a range of two blocks,
    the first of which has pages on the CPU and on a GPU, cut in its middle. *)
From stdpp Require Import sorting.
From S2P Require Import Prelude Kernel VaBlock Permissions Tracking Accessors Service FaultService FaultReport FaultSpace RangeSplit RangeSplitSpec RangeSpec.

(** Page 0 is on the CPU and mapped by it, pages 1 and 300 are on GPU 1, which
    may write page 300. *)
Definition cut_gpu : gpu_state := mk_gpu_state {[1; 300]} (fun p => mk_phys (p * 4096) UVM_APERTURE_VID) {[1; 300]} {[300]} ∅.
Definition cut_block : va_block :=
  mk_va_block (2 ^ 21) (2 ^ 22 - 1) {[0]} (fun p => [p]) {[0]} {[0]} {[1 := cut_gpu]} {[0; 1]} {[0; 1]} {[0; 1; 300]} true true.
Definition cut_range : va_range := mk_va_range (2 ^ 21) (3 * 2 ^ 21 - 1) UVM_VA_RANGE_TYPE_MANAGED [Some cut_block; None].
Definition cut_space : va_space := mk_va_space 7 [cut_range] true [1] (fun _ => None).

(** Below page 256 of the block. *)
Definition cut_end : Z := 2 ^ 21 + 2 ^ 20 - 1.

Lemma cut_block_ok : block_ok cut_block.
Proof.
  assert (Hgpu : forall g gs, vb_gpus cut_block !! g = Some gs -> g = 1 /\ gs = cut_gpu).
  { cbn. intros g gs [<- <-]%lookup_singleton_Some. done. }
  split.
  - split; [done|reflexivity].
  - done.
  - split.
    + intros g gs [-> ->]%Hgpu. split; cbn; set_solver.
    + intros g gs [-> ->]%Hgpu _ Hn. exfalso. apply Hn. cbn. set_solver.
    + intros Hn. exfalso. apply Hn. cbn. set_solver.
    + done.
    + cbn. intros g Hg Hm. assert (g = 1) as -> by (unfold UVM_ID_CPU in *; set_solver by lia). by exists cut_gpu.
  - intros g [gs [-> ->]%Hgpu]. done.
  - cbn. intros p Hp. apply elem_of_singleton in Hp as ->. apply elem_of_region_mask. by vm_compute.
  - intros g gs [-> ->]%Hgpu p Hp. apply elem_of_region_mask. cbn in Hp.
    assert (p = 1 \/ p = 300) as [-> | ->] by set_solver; by vm_compute.
Qed.

Lemma cut_space_ok : space_ok cut_space.
Proof.
  split; [split|..].
  - repeat constructor.
  - intros r ->%list_elem_of_singleton _. split; [by split|done|].
    intros [|[|i]] b Hb; cbn in Hb; [|done..]. injection Hb as <-. by split.
  - by intros r ->%list_elem_of_singleton.
  - intros r [|[|i]] b ->%list_elem_of_singleton _ Hb; cbn in Hb; [|done..]. injection Hb as <-. apply cut_block_ok.
Qed.

(** Page 300 of the block, page 44 of the new one, is still writable by GPU 1. *)
Lemma split_drops_tracking_witness :
  exists h, snd (fst (uvm_va_block_split (E := healthy_env) cut_block cut_end kst_init)) = Some h /\
    vb_tracking h = false /\ vb_dirty h = false /\ 44 ∈ prot_pages h 1 UVM_PROT_READ_WRITE.
Proof.
  pose proof (split_drops_tracking (E := healthy_env) cut_block cut_end kst_init cut_block_ok) as H.
  destruct (fst (uvm_va_block_split (E := healthy_env) cut_block cut_end kst_init)) as [[st e] o] eqn:Hrun.
  assert (Hst : st = NV_OK).
  { transitivity (fst (fst (fst (uvm_va_block_split (E := healthy_env) cut_block cut_end kst_init))));
      [by rewrite Hrun|by vm_compute]. }
  destruct H as (h & -> & Ht & Hd & Hp); [by vm_compute|by vm_compute|done|].
  exists h. split_and!; [done..|]. apply Hp; [done|].
  replace (44 + _) with 300 by (by vm_compute). vm_compute. set_solver.
Defined.

(** The cut range: two ranges, and page 300 found in the upper one. *)
Lemma uvm_va_range_split_correct_witness :
  exists v', fst (uvm_va_range_split (E := healthy_env) cut_space 0 cut_range cut_end kst_init) = (NV_OK, v') /\
    space_ok v' /\ address_kept cut_space v' (2 ^ 21 + 300 * 4096) /\ length (vs_ranges v') = 2%nat.
Proof.
  pose proof (uvm_va_range_split_correct (E := healthy_env) cut_space 0 cut_range cut_end kst_init cut_space_ok) as H.
  destruct (fst (uvm_va_range_split (E := healthy_env) cut_space 0 cut_range cut_end kst_init)) as [st v'] eqn:Hrun.
  assert (Hst : st = NV_OK).
  { transitivity (fst (fst (uvm_va_range_split (E := healthy_env) cut_space 0 cut_range cut_end kst_init)));
      [by rewrite Hrun|by vm_compute]. }
  destruct H as (Hok & Hk & _ & Hs); [done|done|by vm_compute|by vm_compute|].
  destruct (Hs Hst) as (lo & hi & Hr & _). exists v'. rewrite Hst. split_and!; [done|done|apply Hk|by rewrite Hr].
Defined.

(** Memory runs out. *)
Definition no_memory : Env := env_with true (fun _ => true).

(** A mapping next to the range, and one on top of it. *)
Lemma uvm_va_range_create_mmap_correct_witness :
  (exists v', fst (uvm_va_range_create_mmap (E := healthy_env) cut_space (3 * 2 ^ 21) (3 * 2 ^ 21 + 8192) kst_init) = (NV_OK, v') /\
     space_ok v' /\ uvm_va_block_find v' (3 * 2 ^ 21 + 4096) = (NV_ERR_OBJECT_NOT_FOUND, None)) /\
  fst (uvm_va_range_create_mmap (E := healthy_env) cut_space (2 ^ 21) (3 * 2 ^ 21) kst_init) = (NV_ERR_UVM_ADDRESS_IN_USE, cut_space).
Proof.
  split.
  - pose proof (uvm_va_range_create_mmap_correct (E := healthy_env) cut_space (3 * 2 ^ 21) (3 * 2 ^ 21 + 8192) kst_init cut_space_ok) as H.
    destruct (fst (uvm_va_range_create_mmap (E := healthy_env) cut_space (3 * 2 ^ 21) (3 * 2 ^ 21 + 8192) kst_init)) as [st v'] eqn:Hrun.
    assert (Hst : st = NV_OK).
    { transitivity (fst (fst (uvm_va_range_create_mmap (E := healthy_env) cut_space (3 * 2 ^ 21) (3 * 2 ^ 21 + 8192) kst_init)));
        [by rewrite Hrun|by vm_compute]. }
    destruct H as (Hok & _ & Hs); [by vm_compute|by vm_compute|by vm_compute|by vm_compute|].
    exists v'. rewrite Hst. split_and!; [done|done|]. apply (Hs Hst). by vm_compute.
  - pose proof (uvm_va_range_create_mmap_correct (E := healthy_env) cut_space (2 ^ 21) (3 * 2 ^ 21) kst_init cut_space_ok) as H.
    destruct (fst (uvm_va_range_create_mmap (E := healthy_env) cut_space (2 ^ 21) (3 * 2 ^ 21) kst_init)) as [st v'] eqn:Hrun.
    assert (Hst : st = NV_ERR_UVM_ADDRESS_IN_USE).
    { transitivity (fst (fst (uvm_va_range_create_mmap (E := healthy_env) cut_space (2 ^ 21) (3 * 2 ^ 21) kst_init)));
        [by rewrite Hrun|by vm_compute]. }
    destruct H as (_ & Hs & _); [by vm_compute|by vm_compute|by vm_compute|by vm_compute|].
    rewrite Hst in *. by rewrite Hs.
Defined.

(** The mapping of the range split in two, with memory and without. *)
Lemma uvm_vm_open_managed_correct_witness :
  let call (E : Env) := uvm_vm_open_managed (E := E) cut_space true (2 ^ 21, 3 * 2 ^ 21) (2 ^ 21, 2 ^ 21 + 2 ^ 20) kst_init in
  k_locks (snd (call healthy_env)) = [] /\ space_ok (fst (call healthy_env)) /\ length (vs_ranges (fst (call healthy_env))) = 2%nat /\
  k_locks (snd (call no_memory)) = [] /\ vs_ranges (fst (call no_memory)) = [].
Proof.
  intros call.
  assert (Hin : forall r, r ∈ vs_ranges cut_space -> vr_start r <= cut_end <= vr_end r -> is_managed r = true).
  { by intros r ->%list_elem_of_singleton _. }
  destruct (uvm_vm_open_managed_correct (E := healthy_env) cut_space (2 ^ 21, 3 * 2 ^ 21) (2 ^ 21, 2 ^ 21 + 2 ^ 20) kst_init)
    as (H1 & _ & H2 & _); [apply cut_space_ok|done|done|by left|by vm_compute|exact Hin|].
  destruct (uvm_vm_open_managed_correct (E := no_memory) cut_space (2 ^ 21, 3 * 2 ^ 21) (2 ^ 21, 2 ^ 21 + 2 ^ 20) kst_init)
    as (H3 & _ & _ & _); [apply cut_space_ok|done|done|by left|by vm_compute|exact Hin|].
  split; [exact H1|]. split; [exact H2|]. split; [by vm_compute|]. split; [exact H3|]. by vm_compute.
Defined.

Lemma uvm_vm_close_managed_correct_witness :
  let v' := fst (uvm_vm_close_managed cut_space (2 ^ 21, 3 * 2 ^ 21) kst_init) in
  space_ok v' /\ uvm_va_range_find v' (2 ^ 21) = None.
Proof.
  destruct (uvm_vm_close_managed_correct cut_space (2 ^ 21, 3 * 2 ^ 21) kst_init cut_space_ok) as (H1 & _ & H2).
  split; [exact H1|]. by rewrite (H2 (2 ^ 21) cut_range ltac:(by vm_compute)).
Defined.
