(* ===== verification/MigrationWitnesses.v ===== *)
(** Instances of the theorems on migration: a block with a page on the CPU, a page
    on a GPU the destination cannot copy from, and pages nobody has touched. *)
From stdpp Require Import functions sorting.
From S2P Require Import Prelude Kernel VaBlock Permissions Tracking Accessors Service FaultBuffer FaultBatch FaultService FaultReport Migration MigrationFrame MigrationCopy MigrationSpec MigrationData MigrationResident MigrationService.

(** ** An allocator that always finds memory on its node *)

Section Allocator.
Context (node : Z).

Definition fresh_cpu (P : gset Z) (m : migration) : migration :=
  let mem l p := if bool_decide (l = (UVM_ID_CPU, node)) && bool_decide (p ∈ P ∖ mg_allocated m node) then zero_page
                 else mg_mem m l p in
  mk_migration (mg_block m) (mg_resident m) (<[node := mg_allocated m node ∪ P]> (mg_allocated m)) (mg_chunks m)
    (mg_contig m) (mg_dirty m) (mg_dup m) (mg_evicted m) (mg_evicted_gpus m) mem.

Definition fresh_gpu (g : Z) (P : gset Z) (m : migration) : migration :=
  let mem l p := if (l.1 =? g) && bool_decide (p ∈ P ∖ mg_chunks m g) then zero_page else mg_mem m l p in
  mk_migration (mg_block m) (mg_resident m) (mg_allocated m) (<[g := mg_chunks m g ∪ P]> (mg_chunks m))
    (mg_contig m) (mg_dirty m) (mg_dup m) (mg_evicted m) (mg_evicted_gpus m) mem.

Definition node_allocator : ChunkAllocator := {|
  block_populate_pages_cpu m mask r c staged := kret (NV_OK, fresh_cpu (mask ∩ region_mask r) m, c);
  block_populate_pages_gpu g r mask m := kret (NV_OK, fresh_gpu g (mask ∩ region_mask r) m);
|}.

Lemma fresh_cpu_grown P m : grown m (fresh_cpu P m).
Proof.
  constructor; try done; [by left| | |]; intros l.
  - unfold populated. cbn. destruct (l.1 =? UVM_ID_CPU); [|done]. destruct (decide (l.2 = node)) as [->|Hn].
    + rewrite fn_lookup_insert. set_solver.
    + by rewrite fn_lookup_insert_ne.
  - intros p Hp. cbn. destruct (decide (l = (UVM_ID_CPU, node))) as [->|Hl]; [|by rewrite (bool_decide_eq_false_2 (l = _))].
    unfold populated in Hp. cbn in Hp. rewrite (bool_decide_eq_false_2 (p ∈ _)) by set_solver. by rewrite andb_false_r.
  - intros p Hp Hn _. unfold populated in *. cbn in *. destruct (Z.eqb_spec l.1 UVM_ID_CPU) as [Hc|]; [|done].
    destruct (decide (l.2 = node)) as [Hl|Hl]; [|by rewrite fn_lookup_insert_ne in Hp].
    rewrite Hl, fn_lookup_insert in Hp. rewrite Hl in Hn. rewrite (bool_decide_eq_true_2 (l = _)) by (destruct l; cbn in *; congruence).
    rewrite bool_decide_eq_true_2 by set_solver. done.
Qed.

Lemma fresh_gpu_grown g P m : 0 < g -> grown m (fresh_gpu g P m).
Proof.
  intros Hg. constructor; try done; [by left| | |]; intros l.
  - unfold populated. cbn. destruct (l.1 =? UVM_ID_CPU); [done|]. destruct (decide (l.1 = g)) as [->|Hn].
    + rewrite fn_lookup_insert. set_solver.
    + by rewrite fn_lookup_insert_ne.
  - intros p Hp. cbn. destruct (Z.eqb_spec l.1 g) as [Hl|]; [|done]. unfold populated in Hp.
    rewrite Hl, (proj2 (Z.eqb_neq g UVM_ID_CPU)) in Hp by (unfold UVM_ID_CPU; lia).
    rewrite bool_decide_eq_false_2 by set_solver. done.
  - intros p Hp Hn _. unfold populated in *. cbn in *. destruct (Z.eqb_spec l.1 UVM_ID_CPU) as [Hc|]; [done|].
    destruct (decide (l.1 = g)) as [Hl|Hl]; [|by rewrite fn_lookup_insert_ne in Hp].
    rewrite Hl, fn_lookup_insert in Hp. rewrite Hl in Hn. rewrite Hl, Z.eqb_refl, bool_decide_eq_true_2 by set_solver. done.
Qed.

Lemma node_allocator_spec cfg : mc_nodes cfg = [node] -> @ChunkAllocatorSpec cfg node_allocator.
Proof.
  intros Hn. constructor; intros; unfold block_populate_pages_cpu, block_populate_pages_gpu, node_allocator.
  - apply wp_ret. split; [apply fresh_cpu_grown|]. split; [by left|]. intros _ p Hp Hr. exists node.
    rewrite Hn. split; [by left|]. cbn. rewrite fn_lookup_insert. set_solver.
  - apply wp_ret. split; [by apply fresh_gpu_grown|]. intros _. cbn. rewrite fn_lookup_insert. set_solver.
  - apply lock_ret.
  - apply lock_ret.
Qed.
End Allocator.

(** ** The block *)

Module DemoMove.
Definition perm : perm_cfg := mk_perm_cfg ∅ (fun _ => {[0; 1; 2]}) {[1; 2]} true false None false {[0; 1; 2]}.
Definition cfg : mig_cfg :=
mk_mig_cfg perm (fun id => if id =? 1 then {[0]} else {[0; 1; 2]}) [0] (fun _ => [0]) 0 (fun _ => false) {[1; 2]} false (fun _ => 1).
Definition holder : gpu_state := mk_gpu_state {[1]} (gs_phys gpu_state_zero) {[1]} ∅ ∅.
Definition block : va_block :=
mk_va_block 2097152 2113535 {[0]} (fun _ => [10]) ∅ ∅ {[2 := holder]} {[0; 2]} {[2]} {[1]} false true.
(** Page 0 holds 10 on the CPU, page 1 holds 21 on GPU 2. *)
Definition pages : migration :=
mk_migration block (fun _ => {[0]}) (fun _ => {[0]}) (fun g => if g =? 2 then {[1]} else ∅) (fun _ => false) (fun _ => ∅) ∅
  (fun _ => ∅) ∅ (fun l p => if bool_decide (l = (0, 0)) && (p =? 0) then [10] else if (l.1 =? 2) && (p =? 1) then [21] else []).
Definition ctx : move_ctx :=
mk_move_ctx 0 NUMA_NO_NODE UVM_MAKE_RESIDENT_CAUSE_API ∅ ∅ ∅ ∅ ∅ (fun _ => ∅) 0 0.
Definition four : region := mk_region 0 4.
Definition wanted : option (gset Z) := Some {[0; 1; 2]}.
Definition run : (nv_status * migration * move_ctx) * kst :=
@uvm_va_block_make_resident healthy_env (node_allocator 0) cfg 1 four wanted None UVM_MAKE_RESIDENT_CAUSE_API pages ctx kst_init.
End DemoMove.
Import DemoMove.

Lemma demo_res id p : p ∈ res pages id <-> (id = 0 /\ p = 0) \/ (id = 2 /\ p = 1).
Proof.
  unfold res, uvm_va_block_resident_mask_get, uvm_va_block_gpu_state_get. cbn.
  destruct (Z.eqb_spec id UVM_ID_CPU) as [->|Hc]; unfold UVM_ID_CPU in *; [set_solver by lia|].
  destruct (decide (id = 2)) as [->|Hn]; [rewrite lookup_singleton_eq; cbn; set_solver by lia|].
  rewrite lookup_singleton_ne by done. set_solver by lia.
Qed.

Lemma demo_pages_wf : mg_wf 0 pages.
Proof.
  constructor.
  - constructor; cbn.
    + intros g gs [<- <-]%lookup_singleton_Some. by split.
    + intros g gs [<- <-]%lookup_singleton_Some _ Hn. set_solver.
    + done.
    + set_solver.
    + intros g Hg Hm. assert (g = 2) as -> by set_solver. eauto.
  - done.
  - intros id p [[-> ->]|[-> ->]]%demo_res; vm_compute; reflexivity.
  - intros id p [[-> ->]|[-> ->]]%demo_res; cbn; set_solver.
Qed.

Lemma demo_call_ok : @call_ok healthy_env cfg 0 1 four wanted pages ctx.
Proof.
  constructor.
  - by left.
  - intros p. unfold block_pages. rewrite !elem_of_region_mask. cbn. unfold uvm_va_block_region_from_block. vm_compute (uvm_va_block_num_cpu_pages _). cbn. lia.
  - intros _ id id' p _ Hid Hid' [[-> ->]|[-> ->]]%demo_res [[-> ?]|[-> ?]]%demo_res; done.
  - intros _ _ id. unfold direct. rewrite elem_of_ids_in_mask. intros Hid _. set_solver.
Qed.


(** The same pages moved for a fault of GPU 1: it finds page 0 on itself. *)
Definition demo_block_ctx : block_ctx :=
  mk_block_ctx 0 four {[1]} (fun _ => {[0; 1; 2]}) (fun _ => 0) 0 ∅ 0 ∅ (mk_prot_mapping 0 ∅) (mk_prot_mapping 0 ∅) (mk_prot_mapping 0 ∅).
Definition demo_move : (nv_status * migration * move_ctx * cpu_fault_info) * kst :=
  @service_move healthy_env (node_allocator 0) cfg UVM_SERVICE_OPERATION_REPLAYABLE_FAULTS 1 1 ∅ demo_block_ctx pages ctx
    (mk_cpu_fault_info false ∅) kst_init.

Lemma demo_move_resident :
  demo_move.1.1.1.1 = NV_OK /\ bool_decide (0 ∈ uvm_va_block_resident_mask_get (mg_block demo_move.1.1.1.2) 1) = true.
Proof. split; vm_compute; reflexivity. Qed.

Lemma service_move_correct_witness : follows 1 block (mg_block demo_move.1.1.1.2).
Proof.
  pose proof (@service_move_correct healthy_env (node_allocator 0) cfg (node_allocator_spec 0 cfg eq_refl)
    UVM_SERVICE_OPERATION_REPLAYABLE_FAULTS 1 1 ∅ demo_block_ctx pages ctx (mk_cpu_fault_info false ∅) kst_init
    (mw_perm _ _ demo_pages_wf) ltac:(intros Hn; by destruct Hn) eq_refl) as H.
  fold demo_move in H. destruct demo_move as [[[[st m'] c'] info'] s']. destruct H as (_ & _ & _ & Hg & _). by apply (Hg 1).
Defined.
